(* ===== verification/_CoqProject ===== *)
-Q . S2P
Prelude.v
JsLib.v
NumBounds.v
Models.v
Repositories.v
Pagination.v
NumDiv.v
QueryOptions.v
Currency.v
ProofOfDelivery.v
RedisLock.v
DeliveryService.v
EscrowService.v
EscrowFacts.v
EscrowInvariants.v
FundingReplay.v
EventLogs.v
EventLogRetry.v
EscrowIndexer.v
EventPoller.v
Idempotency.v
MessageQueue.v
CsvParser.v
BulkDelivery.v
Stroops.v
WebhookService.v
Onboarding.v
DriverLocations.v
AssignmentService.v
PoolingService.v
DisputeService.v
RpcRetry.v
StellarService.v
PushProvider.v
Notifications.v
DriverRating.v
Accounts.v
LocationSync.v
Chat.v
SocketServer.v
Fleets.v
Regex.v
PiiMasker.v
NumOrder.v
Pricing.v
JsonText.v
QrToken.v
