(* ===== verification/Prelude.v ===== *)
(** * SwiftChain backend: a verification development

    SwiftChain is a delivery marketplace whose fees are held in escrow by a
    Soroban contract.  The backend keeps deliveries, escrows, milestones and
    logs in MongoDB, takes locks in Redis, follows the contract's events with a
    poller, and talks to clients over HTTP and sockets.  This library models
    its services as programs over a shared world and proves what they promise.

    ** How the code is modelled

    An [async] function is a [prog W A] (this file): a sequence of atomic
    accesses to a world [W] ending in a value or a thrown [error].  Every
    [await] on the database, on Redis or on the clock is one access; [throw],
    [try]/[catch], [finally] and [for] loops are the combinators below, and what
    was written before a throw stays written.  [run] executes a program alone,
    [interleave] and [pool_step] execute several along a schedule, and [safe R]
    is a rely/guarantee judgement: the program keeps to [R] while the others do,
    and its result satisfies a postcondition.  [confined] bounds a program's
    footprint, and the section [Exclusive] is the argument that at most one of
    any number of racing programs wins.

    The services share one [World] ([Models.v]): the collections of the
    database as finite maps from document ids, the locks that are held and the
    clock.  Components with a state of their own (the message queue, the
    idempotency stores, the webhook dispatcher) have a record for it.  The
    configuration ([config/env.ts]) and third-party functions are the fields
    of [Env] and of the classes of single components; what the theorems need of
    them is a law of the class, and each class has an example instance.

    ** Files and sources (under src/src/)

    Foundations.
    - [Prelude.v]: errors ([utils/AppError.ts]), programs and their logic,
      record update, collections, list helpers.
    - [JsLib.v]: JavaScript numbers (binary64), strings, [Number(s)],
      [String(x)], dates, JSON values; [NumBounds.v]: how the operations of
      binary64 keep bounds and order; [NumDiv.v]: sums and quotients of safe
      integers; [NumOrder.v]: rounding preserves the order of amounts;
      [JsonText.v]: [JSON.stringify] and [JSON.parse], with their round trip.
    - [Models.v]: documents and enums of [models/], [Env], [World].
    - [Repositories.v]: [repositories/] with the unique indexes of the schemas;
      [Pagination.v]: [BaseRepository.paginate].

    Deliveries, escrows and the chain.
    - [Currency.v] ([services/currencyService.ts]), [ProofOfDelivery.v]
      ([services/proofOfDeliveryService.ts]), [RedisLock.v] ([config/redis.ts]).
    - [DeliveryService.v] ([services/delivery.service.ts]): creation, the status
      machine, assignment, archiving, milestones.
    - [EscrowService.v] ([services/escrow.service.ts]); its theorems are in
      [EscrowFacts.v] (one operation each), [EscrowInvariants.v]
      (reachability over all operations, scans, interleavings) and
      [FundingReplay.v] (funding events delivered again).
    - [EventLogs.v] ([models/EventLog.ts], [services/eventLogService.ts],
      [utils/eventLogBackoff.ts]), [EventLogRetry.v]
      ([services/eventLogRetryService.ts], [services/dlqService.ts]).
    - [EscrowIndexer.v] ([indexer/escrowHandlers.ts],
      [services/escrowIndexerService.ts]), [EventPoller.v]
      ([services/eventPoller.ts]).
    - [Stroops.v] ([utils/stroops.ts]), [RpcRetry.v] ([utils/rpcRetry.ts]),
      [StellarService.v] ([services/stellarService.ts],
      [services/transactionService.ts]): the transaction that locks an escrow.
    - [DisputeService.v] ([services/disputeService.ts],
      [indexer/disputeHandlers.ts]).

    Requests and clients.
    - [QueryOptions.v] ([middlewares/queryMiddleware.ts]): list queries.
    - [QrToken.v] ([utils/qrToken.ts], the hand-off of
      [services/delivery.service.ts]): signed tokens in QR codes.
    - [Pricing.v] ([services/pricingService.ts],
      [repositories/PricingRepository.ts], [validators/pricingValidator.ts]):
      fees and their quotes.
    - [PiiMasker.v] ([utils/piiMasker.ts]): what is logged, with the matcher of
      JavaScript's regular expressions in [Regex.v].
    - [Fleets.v] ([services/fleetService.ts], [controllers/fleetController.ts],
      [models/Fleet.ts], [models/FleetInvitation.ts]): fleets, their members and
      the invitations of drivers.
    - [Idempotency.v] ([services/idempotency.service.ts],
      [middlewares/idempotency.ts]).
    - [Accounts.v] ([services/authService.ts], [services/userService.ts],
      [services/adminService.ts], [services/profilePicture.service.ts],
      [middleware/authenticate.ts], [middleware/requireRole.ts]).
    - [Onboarding.v] ([services/onboardingService.ts]): merchants.
    - [CsvParser.v] ([utils/csvParser.ts]), [BulkDelivery.v]
      ([services/bulkDeliveryService.ts]).
    - [WebhookService.v] ([services/webhookService.ts]), [PushProvider.v]
      ([services/push/]), [Notifications.v] ([services/notificationService.ts],
      its repositories).

    Drivers and sockets.
    - [DriverLocations.v] ([models/DriverLocation.ts],
      [services/driverLocationService.ts]), [AssignmentService.v]
      ([services/assignmentService.ts]), [PoolingService.v]
      ([services/poolingService.ts], [utils/geohash.ts]).
    - [DriverRating.v] ([services/driverRatingService.ts],
      [indexer/reputationHandlers.ts]).
    - [MessageQueue.v] ([sockets/messageQueue.ts]), [LocationSync.v]
      ([sockets/location.service.ts], [sockets/sync.service.ts],
      [sockets/syncHandler.ts], the update handler of
      [sockets/locationHandler.ts]).
    - [Chat.v] ([sockets/chatMessage.service.ts],
      [repositories/ChatMessageRepository.ts],
      [services/deliveryChatService.ts]), [SocketServer.v]
      ([sockets/connectionHandler.ts], [sockets/socket.service.ts]): the
      connected clients, their rooms and the heartbeat.

    The poller calls the escrow handlers through a list of subscriptions, they
    call the escrow service, which calls the lock, the proof of delivery, the
    repositories and the delivery service's milestone log.  The retry service
    replays an event through the interface class [EventReplayer], which the
    poller implements.  The bulk import composes the CSV parser with the
    delivery repository; assignment and pooling compose the proximity search
    with the delivery service's [assignDriver].  Notifications go through the
    interface [IPushProvider], which Firebase implements; pricing takes the
    conditions of a route through [PricingConditions], which the two HTTP
    services implement; onboarding notifies through [MerchantNotifier]. The
    socket server runs the chat, which runs the accounts, and the message
    queue next to each other on a state of its own. A component with a wider
    world than [World] runs the services of [World] inside it with [zoom]
    (this file): what holds of them alone holds of them there.

    ** What the theorems show

    - Functional behaviour of the operations on every branch, errors included
      (theorems named [..._correct]): what is written, and that a refused call
      changes nothing.
    - Invariants: escrows and deliveries reachable by any sequence of
      operations ([escrow_reachability]), the message queue, webhooks, the
      accounting of a bulk import, disputes, reputation tiers, milestone logs
      without gaps, stored positions exactly once per driver and time.
    - Safety under interleaving: status updates, settlements, milestone
      emission, claims of event log entries, idempotency keys, drivers and
      device tokens (with what a registration takes over); the evidence of
      disputes, which only an [updateDispute] replaces, through versioned saves.
    - Idempotence of funding events, whatever happens before they come again
      (after a cancellation they are refused), and of settlement events, so that
      an indexer may deliver an event more than once; of offline batches timed
      in whole milliseconds and handled one after another, so that a driver may
      send a batch again.
    - Refinement: onboarding, with its challenges and roll-backs, implements a
      registry of merchants that changes in one step.
    - Equivalence: [withRetry] with its timers is a search for the first
      acceptable answer; the submission of a transaction ends as a reference
      relation says.  Termination: the retries of webhooks end.
    - Types and bounds: positions stay within the schema's ranges; ratings stay
      on the scale although each operation rounds; fees of deliveries are monotone
      in every condition and rate, and not below the minimum in cents, although
      each operation rounds; stroops.
    - Sockets: under any interleaving of connections, joins, messages and
      disconnections a delivery's room holds only sockets whose user had access
      to it ([delivery_rooms_private]) and the registry of active connections
      mirrors the connected sockets; a client that stays silent is evicted
      after a bounded number of heartbeats.
    - Fleets: under any interleaving a fleet belongs to its owner, gains drivers
      only through their own answers to an invitation and loses members only to
      removals, unless its owner sends an update whose body reaches the protected
      fields ([exposed]); served one after another, requests keep a fleet's drivers
      equal to those who accepted, unless an update names the field [drivers].
    - List queries: exactly the well-formed queries over a whitelist of fields,
      operators and types are accepted, with the values they give, and all others
      refused; page counts are exact although computed in binary64.
    - Hand-off: a token that verifies carries the digest of its own payload, and
      when this payload was signed, an issued token of the delivery is live; an
      issued token verifies until it expires.
    - Access: a suspended account is locked out by every later request, the
      token of a login names its user, a deletion cascades over exactly the
      user's deliveries.
    - Logging: the output does not depend on the values under sensitive keys,
      whatever the shape of the payload, and stays bounded on cyclic graphs; the
      patterns of sensitive keys are equal to a search for listed words; the check
      of card numbers detects a wrong or exchanged digit.
    - Round trips: archive and restore, CSV text, stroops, login and
      authentication.
    Behaviour that departs from what a comment, a schema or a test states is
    proved as it is; these places are the findings of [PROJECT.json].

    ** Bounds and fuel

    - Fetching the pages of a poll takes a fuel above the length of the event
      stream: a page that is not the last one advances the cursor, so the
      theorem asks only for that.
    - A milestone is appended in at most [MAX_SEQ_ATTEMPTS] = 5 attempts, the
      claim of a device token in [MAX_CLAIM_ATTEMPTS] = 5, a retried call in
      [maxAttempts], the submission and the confirmation of a transaction in
      the configured numbers of attempts and polls: as in the source; running
      out is an error of the code, not of the model.
    - The radius of a driver search doubles at most
      [ASSIGNMENT_RADIUS_EXPANSION_STEPS] times, as in the source.  A geohash
      takes five steps per character and a route one step per stop; their fuels
      are these numbers, and lemmas show them enough.
    - A message queue holds at most [maxQueueSize] messages per user; a position
      is remembered in Redis for [LOCATION_DEDUP_TTL_SECONDS].
    - Amounts are binary64 numbers; ledgers and times are integers.

    ** Not modelled

    - Texts are UTF-8 bytes: [trim], the blank lines of a file and the check of an
      e-mail know the white space of Unicode, but case mapping is that of ASCII,
      lengths count bytes, and the patterns of the log masker see every byte
      beyond ASCII as one character that is no white space.
    - The time to live of Redis locks and the purges of expired documents by
      the database.  Timers fire as explicit operations; [setInterval] and the
      overlap guards of the periodic jobs are left out.
    - Setters of schema strings (trimming and lower-casing on write) but for
      account e-mails, ids are compared as the strings the code passes, query
      options (sessions, projections, populated paths), and the texts of some
      error messages.
    - Express glue (routes, controllers, validators, rate limits), dependency
      injection, configuration parsing, logging, metrics and API documentation;
      listings and dashboards, which the database aggregates.
    - The transport under the sockets, the second token check of the location
      handler and the unused [sockets/socketService.ts].
    - Clients of external systems: Horizon and Soroban RPC, S3, Firebase,
      routing providers, the image library.  Where a modelled service calls one
      it is a parameter.

    [PROJECT.json] lists every component with its status. *)
From stdpp Require Export prelude gmap strings pretty sorting.
From Stdlib Require Export ZArith.


#[export] Set Default Goal Selector "!".

(** ** Errors and HTTP status codes *)

(** [src/src/utils/AppError.ts]: an [AppError] carries a message and an HTTP
    status; [PlainError] is a bare [new Error(message)]; [NamedError] is an error
    of a class of a component's own; [DuplicateKey] is the database driver's
    error of code 11000. *)
Inductive error :=
  | AppError (message : string) (statusCode : Z)
  | PlainError (message : string)
  | NamedError (name message : string)
  | DuplicateKey.

#[export] Instance error_eq_dec : EqDecision error.
Proof. solve_decision. Defined.

Definition error_status (e : error) : option Z :=
  match e with AppError _ c => Some c | _ => None end.

(** [error instanceof Error ? error.message : String(error)]. *)
Definition error_message (e : error) : string :=
  match e with
  | AppError m _ => m
  | PlainError m => m
  | NamedError _ m => m
  | DuplicateKey => "E11000 duplicate key error"
  end.

Module Http.
Definition OK : Z := 200.
Definition BAD_REQUEST : Z := 400.
Definition UNAUTHORIZED : Z := 401.
Definition FORBIDDEN : Z := 403.
Definition NOT_FOUND : Z := 404.
Definition CONFLICT : Z := 409.
Definition REQUEST_TOO_LONG : Z := 413.
Definition UNSUPPORTED_MEDIA_TYPE : Z := 415.
Definition UNPROCESSABLE_ENTITY : Z := 422.
Definition INTERNAL_SERVER_ERROR : Z := 500.
Definition BAD_GATEWAY : Z := 502.
Definition SERVICE_UNAVAILABLE : Z := 503.
Definition GATEWAY_TIMEOUT : Z := 504.
End Http.

(** ** Programs: sequences of atomic accesses to a shared world

    An [async] function of the source is a [prog W A]: every [await] on the
    database (or any other access to shared state) is one [Step], an atomic
    operation on the world; [Done] ends with a value or a thrown error.  The
    world keeps what was written before a throw, as the database does. *)
Inductive prog (W : Type) (A : Type) : Type :=
  | Done (r : error + A)
  | Step {B : Type} (op : W → B * W) (k : B → prog W A).
Arguments Done {W A} r.
Arguments Step {W A B} op k.

Section Prog.
Context {W : Type}.

#[export] Instance prog_ret : MRet (prog W) := λ A a, Done (inr a).

#[export] Instance prog_bind : MBind (prog W) := λ A B f,
  fix go (p : prog W A) : prog W B :=
    match p with
    | Done (inl e) => Done (inl e)
    | Done (inr a) => f a
    | Step op k => Step op (λ b, go (k b))
    end.

Definition throw {A} (e : error) : prog W A := Done (inl e).

(** [if (b) throw e]. *)
Definition throw_if (b : bool) (e : error) : prog W unit :=
  if b then throw e else mret tt.

(** [try { p } catch (e) { h(e) }]. *)
Fixpoint try_catch {A} (p : prog W A) (h : error → prog W A) : prog W A :=
  match p with
  | Done (inl e) => h e
  | Done (inr a) => Done (inr a)
  | Step op k => Step op (λ b, try_catch (k b) h)
  end.

(** [try { return p } finally { f }] for an [f] that does not throw. *)
Fixpoint finally {A} (p : prog W A) (f : prog W unit) : prog W A :=
  match p with
  | Done r => f ≫= λ _, Done r
  | Step op k => Step op (λ b, finally (k b) f)
  end.

(** One atomic access. *)
Definition atomic {A} (op : W → A * W) : prog W A := Step op mret.
Definition reads {A} (f : W → A) : prog W A := atomic (λ w, (f w, w)).
Definition writes (f : W → W) : prog W unit := atomic (λ w, (tt, f w)).

(** An atomic access that may fail: the database rejects the operation. *)
Definition atomic_try {A} (op : W → (error + A) * W) : prog W A :=
  Step op Done.

(** [x ?? throw e] on a nullable result. *)
Definition or_throw {A} (o : option A) (e : error) : prog W A :=
  match o with Some a => mret a | None => throw e end.

(** [for (const x of l) await f(x)]. *)
Fixpoint for_each {A} (l : list A) (f : A → prog W unit) : prog W unit :=
  match l with
  | [] => mret tt
  | x :: l => f x ≫= λ _, for_each l f
  end.

(** The outcome of a promise as a value. *)
Definition outcome_of {A} (p : prog W A) : prog W (error + A) :=
  try_catch (a ← p; mret (inr a)) (λ e, mret (inl e)).

(** [await Promise.all(l.map(f))], the calls in order: every one of them runs,
    and a failure is thrown when all are done. *)
Fixpoint promise_all {A} (l : list A) (f : A → prog W unit) : prog W unit :=
  match l with
  | [] => mret tt
  | x :: l => r ← outcome_of (f x); r' ← outcome_of (promise_all l f);
              Done (match r with inl e => inl e | inr _ => r' end)
  end.

(** The same with results: [await Promise.all(l.map(f))]. *)
Fixpoint promise_map {A B} (f : A → prog W B) (l : list A) : prog W (list B) :=
  match l with
  | [] => mret []
  | x :: l => r ← outcome_of (f x); rs ← outcome_of (promise_map f l);
              Done (match r, rs with
                    | inl e, _ | _, inl e => inl e
                    | inr b, inr bs => inr (b :: bs)
                    end)
  end.

(** Fold with effects: a loop that accumulates. *)
Fixpoint fold_prog {A S} (f : S → A → prog W S) (s : S) (l : list A) : prog W S :=
  match l with
  | [] => mret s
  | x :: l => f s x ≫= λ s', fold_prog f s' l
  end.

(** *** Sequential execution *)
Fixpoint run {A} (p : prog W A) (w : W) : (error + A) * W :=
  match p with
  | Done r => (r, w)
  | Step op k => run (k (op w).1) (op w).2
  end.

(** *** Interleaved execution: any unfinished program of the pool may
    perform its next access. *)
Inductive pool_step {A} : list (prog W A) * W → list (prog W A) * W → Prop :=
  | pool_step_intro ps i B (op : W → B * W) k w :
      ps !! i = Some (Step op k) →
      pool_step (ps, w) (<[i := k (op w).1]> ps, (op w).2).

(** The same along a schedule: the indices of the programs that move. *)
Fixpoint interleave {A} (sched : list nat) (ps : list (prog W A)) (w : W)
    : list (prog W A) * W :=
  match sched with
  | [] => (ps, w)
  | i :: sched =>
      match ps !! i with
      | Some (Step op k) => interleave sched (<[i := k (op w).1]> ps) (op w).2
      | _ => interleave sched ps w
      end
  end.

(** *** Rely/guarantee: every access of [p] moves the world along [R],
    assuming the others only move it along [R]; [Q] holds of the result. *)
Fixpoint safe {A} (R : relation W) (p : prog W A) (w : W)
    (Q : error + A → W → Prop) : Prop :=
  match p with
  | Done r => ∀ w', R w w' → Q r w'
  | Step op k =>
      ∀ w', R w w' → R w' (op w').2 ∧ safe R (k (op w').1) (op w').2 Q
  end.
End Prog.




(** *** Laws *)
Section ProgLaws.
Context {W : Type}.

Lemma run_bind {A B} (p : prog W A) (f : A → prog W B) w :
  run (p ≫= f) w =
    match (run p w).1 with
    | inl e => (inl e, (run p w).2)
    | inr a => run (f a) (run p w).2
    end.
Proof. revert w. induction p as [[]|? op k IH]; intros w; cbn; auto. Qed.

(** A sequence succeeds when both parts do. *)
Lemma run_bind_inr {A B} (p : prog W A) (f : A → prog W B) w b w' :
  run (p ≫= f) w = (inr b, w')
  ↔ ∃ a w1, run p w = (inr a, w1) ∧ run (f a) w1 = (inr b, w').
Proof.
  rewrite run_bind. split.
  - destruct (run p w) as [[e|a] w1]; [done|]. by exists a, w1.
  - intros (a & w1 & -> & Hf). exact Hf.
Qed.

Lemma run_try_catch {A} (p : prog W A) h w :
  run (try_catch p h) w =
    match (run p w).1 with
    | inl e => run (h e) (run p w).2
    | inr a => (inr a, (run p w).2)
    end.
Proof. revert w. induction p as [[]|? op k IH]; intros w; cbn; auto. Qed.

Lemma run_finally {A} (p : prog W A) f w :
  run (finally p f) w =
    match (run f (run p w).2).1 with
    | inl e => (inl e, (run f (run p w).2).2)
    | inr _ => ((run p w).1, (run f (run p w).2).2)
    end.
Proof.
  revert w. induction p as [r|? op k IH]; intros w; cbn; auto.
  rewrite run_bind. by destruct (run f w) as [[] ?].
Qed.

Lemma run_outcome_of {A} (p : prog W A) w : run (outcome_of p) w = (inr (run p w).1, (run p w).2).
Proof.
  unfold outcome_of. rewrite run_try_catch, run_bind. by destruct (run p w) as [[] ?].
Qed.

Lemma run_promise_all_cons {A} (x : A) l (f : A → prog W unit) w :
  run (promise_all (x :: l) f) w =
    (match (run (f x) w).1 with inl e => inl e | inr _ => (run (promise_all l f) (run (f x) w).2).1 end,
     (run (promise_all l f) (run (f x) w).2).2).
Proof.
  cbn [promise_all]. rewrite run_bind, run_outcome_of. cbn [fst snd]. by rewrite run_bind, run_outcome_of.
Qed.

Lemma run_throw {A} e (w : W) : run (throw e : prog W A) w = (inl e, w).
Proof. done. Qed.
Lemma run_ret {A} (a : A) (w : W) : run (mret a) w = (inr a, w).
Proof. done. Qed.
Lemma run_atomic {A} (op : W → A * W) w :
  run (atomic op) w = (inr (op w).1, (op w).2).
Proof. done. Qed.
Lemma run_reads {A} (f : W → A) w : run (reads f) w = (inr (f w), w).
Proof. done. Qed.
Lemma run_writes (f : W → W) w : run (writes f) w = (inr tt, f w).
Proof. done. Qed.
Lemma run_atomic_try {A} (op : W → (error + A) * W) w :
  run (atomic_try op) w = op w.
Proof. cbn. by destruct (op w). Qed.
Lemma run_done {A} (r : error + A) (w : W) : run (Done r) w = (r, w).
Proof. done. Qed.
Lemma run_throw_if b e (w : W) :
  run (throw_if b e) w = (if b then inl e else inr tt, w).
Proof. by destruct b. Qed.
Lemma run_or_throw {A} (o : option A) e (w : W) :
  run (or_throw o e) w = (if o is Some a then inr a else inl e, w).
Proof. by destruct o. Qed.

Context (R : relation W) `{!PreOrder R}.

Lemma safe_stable {A} (p : prog W A) w w' Q :
  safe R p w Q → R w w' → safe R p w' Q.
Proof.
  destruct p; cbn; intros H HR w'' HR'; apply H; by etrans.
Qed.

Lemma safe_mono {A} (p : prog W A) w (Q Q' : error + A → W → Prop) :
  safe R p w Q → (∀ r w', R w w' → Q r w' → Q' r w') → safe R p w Q'.
Proof.
  revert w. induction p as [r|? op k IH]; intros w; cbn; [by auto|].
  intros H HQ w' HR. destruct (H w' HR) as [HR' Hk]. split; [done|].
  eapply IH; [done|]. intros r w'' HR''. apply HQ. by do 2 (etrans; [done|]).
Qed.

Lemma safe_bind {A B} (p : prog W A) (f : A → prog W B) w Q' (Q : error + B → W → Prop) :
  safe R p w Q' →
  (∀ a w', R w w' → Q' (inr a) w' → safe R (f a) w' Q) →
  (∀ e w', R w w' → Q' (inl e) w' → Q (inl e) w') →
  safe R (p ≫= f) w Q.
Proof.
  revert w. induction p as [[e|a]|? op k IH]; intros w; cbn; [by auto| |].
  { intros H Hf _. by apply Hf; [|apply H]. }
  intros H Hf He w' HR. destruct (H w' HR) as [HR' Hk]. split; [done|].
  eapply IH; [done| |]; intros ? w'' HR''; [apply Hf|apply He];
    by do 2 (etrans; [done|]).
Qed.

Lemma safe_try_catch {A} (p : prog W A) h w Q' (Q : error + A → W → Prop) :
  safe R p w Q' →
  (∀ e w', R w w' → Q' (inl e) w' → safe R (h e) w' Q) →
  (∀ a w', R w w' → Q' (inr a) w' → Q (inr a) w') →
  safe R (try_catch p h) w Q.
Proof.
  revert w. induction p as [[e|a]|? op k IH]; intros w; cbn; [|by auto|].
  { intros H Hf _. by apply Hf; [|apply H]. }
  intros H Hf He w' HR. destruct (H w' HR) as [HR' Hk]. split; [done|].
  eapply IH; [done| |]; intros ? w'' HR''; [apply Hf|apply He];
    by do 2 (etrans; [done|]).
Qed.

Lemma safe_ret {A} (r : error + A) w (Q : error + A → W → Prop) :
  (∀ w', R w w' → Q r w') → safe R (Done r) w Q.
Proof. done. Qed.

Lemma safe_throw_if b e w (Q : error + unit → W → Prop) :
  (b = true → ∀ w', R w w' → Q (inl e) w') →
  (b = false → ∀ w', R w w' → Q (inr tt) w') →
  safe R (throw_if b e) w Q.
Proof. destruct b; cbn; auto. Qed.

Lemma safe_or_throw {A} (o : option A) e w (Q : error + A → W → Prop) :
  (o = None → ∀ w', R w w' → Q (inl e) w') →
  (∀ a, o = Some a → ∀ w', R w w' → Q (inr a) w') →
  safe R (or_throw o e) w Q.
Proof. destruct o; cbn; auto. Qed.

Lemma safe_reads {A} (f : W → A) w (Q : error + A → W → Prop) :
  (∀ w1 w2, R w w1 → R w1 w2 → Q (inr (f w1)) w2) → safe R (reads f) w Q.
Proof. cbn. intros H w1 H1. split; [done|]. eauto. Qed.

(** What [safe] gives of one program run alone. *)
Lemma safe_run {A} (p : prog W A) w Q :
  safe R p w Q → R w (run p w).2 ∧ Q (run p w).1 (run p w).2.
Proof.
  revert w. induction p as [r|? op k IH]; intros w; cbn.
  { intros H. split; [done|]. by apply H. }
  intros H. destruct (H w) as [HR Hk]; [done|].
  destruct (IH _ _ Hk) as [HR' HQ]. split; [by etrans|done].
Qed.

(** What it gives of any number of programs run interleaved. *)
Lemma safe_pool_step {A} (Qs : nat → error + A → W → Prop) ps w ps' w' :
  (∀ i p, ps !! i = Some p → safe R p w (Qs i)) →
  pool_step (ps, w) (ps', w') →
  R w w' ∧ ∀ i p, ps' !! i = Some p → safe R p w' (Qs i).
Proof.
  intros Hs Hstep. inversion Hstep as [? i B op k ? Hi]; simplify_eq.
  destruct (Hs i _ Hi w) as [HR Hk]; [done|]. split; [done|].
  intros j p Hj. destruct (decide (i = j)) as [<-|Hne].
  - rewrite list_lookup_insert_eq in Hj by by eapply lookup_lt_Some.
    by simplify_eq.
  - rewrite list_lookup_insert_ne in Hj by done.
    eapply safe_stable; [by apply Hs|done].
Qed.

Lemma safe_pool {A} (Qs : nat → error + A → W → Prop) s s' :
  rtc pool_step s s' →
  (∀ i p, s.1 !! i = Some p → safe R p s.2 (Qs i)) →
  R s.2 s'.2 ∧ ∀ i p, s'.1 !! i = Some p → safe R p s'.2 (Qs i).
Proof.
  induction 1 as [s|[ps w] [ps1 w1] s' Hstep _ IH]; intros Hs; [done|].
  destruct (safe_pool_step Qs _ _ _ _ Hs Hstep) as [HR Hs1].
  destruct (IH Hs1) as [HR' ?]. split; [by etrans|done].
Qed.
End ProgLaws.

Lemma interleave_rtc {W A} sched (ps : list (prog W A)) w :
  rtc pool_step (ps, w) (interleave sched ps w).
Proof.
  revert ps w. induction sched as [|i sched IH]; intros ps w; cbn; [done|].
  destruct (ps !! i) as [[r|B op k]|] eqn:Hi; [apply IH| |apply IH].
  eapply rtc_l; [by eapply pool_step_intro|apply IH].
Qed.

Lemma safe_interleave {W A} (R : relation W) `{!PreOrder R}
    (Qs : nat → error + A → W → Prop) sched (ps : list (prog W A)) w :
  (∀ i p, ps !! i = Some p → safe R p w (Qs i)) →
  R w (interleave sched ps w).2 ∧
  ∀ i p, (interleave sched ps w).1 !! i = Some p →
    safe R p (interleave sched ps w).2 (Qs i).
Proof. intros Hs. apply (safe_pool R Qs _ _ (interleave_rtc sched ps w)), Hs. Qed.

(** A finished program of the pool has its postcondition. *)
Lemma safe_done {W A} (R : relation W) `{!Reflexive R} (r : error + A) w Q :
  safe R (Done r) w Q → Q r w.
Proof. cbn. auto. Qed.

Create Rewrite HintDb prog.
#[export] Hint Rewrite @run_bind @run_try_catch @run_finally @run_throw @run_ret
  @run_atomic @run_reads @run_writes @run_atomic_try @run_throw_if @run_or_throw @run_done : prog.

(** Symbolic execution of a program under [run]. *)
Ltac run_simpl := repeat (progress (autorewrite with prog; cbn [fst snd])).
Ltac run_simpl_in H :=
  repeat (progress (autorewrite with prog in H; cbn [fst snd] in H)).
Ltac run_cases_in H :=
  repeat (run_simpl_in H; first [progress simplify_eq/= | case_match]).
(** Execute up to the next case distinction and name its outcome. *)
Ltac run_case H eq :=
  run_simpl_in H;
  match type of H with
  | context [match ?x with inl _ => _ | inr _ => _ end] =>
      lazymatch x with
      | context [match ?y with _ => _ end] => destruct y eqn:eq
      | _ => destruct x eqn:eq
      end
  | context [match ?x with _ => _ end] => destruct x eqn:eq
  end; cbn [fst snd negb] in H.

(** ** Footprints: every access of a program, from any world, moves it along [G]. *)
Section Confined.
Context {W : Type}.

Fixpoint confined {A} (G : relation W) (p : prog W A) : Prop :=
  match p with
  | Done _ => True
  | Step op k => ∀ w, G w (op w).2 ∧ confined G (k (op w).1)
  end.

Lemma confined_safe {A} (G R : relation W) (p : prog W A) w :
  confined G p → (∀ w1 w2, G w1 w2 → R w1 w2) → safe R p w (λ _ _, True).
Proof.
  intros Hp HGR. revert w. induction p as [r|? op k IH]; intros w; cbn; [done|].
  intros w' _. destruct (Hp w') as [HG Hk]. split; [by apply HGR|]. by apply IH.
Qed.

(** A footprint that only holds from the states of a stable predicate. *)
Lemma confined_from {A} (R : relation W) `{!PreOrder R} (I : W → Prop) (p : prog W A) w :
  (∀ w w', I w → R w w' → I w') → confined (λ w w', I w → R w w') p → I w → safe R p w (λ _ _, True).
Proof.
  intros HI. revert w. induction p as [r|? op k IH]; intros w Hp Hw; cbn; [done|].
  intros w' HR. destruct (Hp w') as [HG Hk]. assert (I w') as Hw' by eauto.
  split; [auto|]. apply IH; eauto.
Qed.

Lemma confined_mono {A} (G G' : relation W) (p : prog W A) :
  (∀ w w', G w w' → G' w w') → confined G p → confined G' p.
Proof.
  intros HG. induction p as [r|? op k IH]; cbn; [done|]. intros Hp w. destruct (Hp w). auto.
Qed.

Lemma confined_run {A} (G : relation W) `{!PreOrder G} (p : prog W A) w :
  confined G p → G w (run p w).2.
Proof.
  intros Hp. apply (safe_run G p w (λ _ _, True)).
  by apply (confined_safe G G).
Qed.

Lemma confined_bind {A B} (G : relation W) (p : prog W A) (f : A → prog W B) :
  confined G p → (∀ a, confined G (f a)) → confined G (p ≫= f).
Proof.
  intros Hp Hf. induction p as [[]|? op k IH]; cbn in *; [done|by apply Hf|].
  intros w. destruct (Hp w). auto.
Qed.

Lemma confined_try_catch {A} (G : relation W) (p : prog W A) h :
  confined G p → (∀ e, confined G (h e)) → confined G (try_catch p h).
Proof.
  intros Hp Hh. induction p as [[]|? op k IH]; cbn in *; [by apply Hh|done|].
  intros w. destruct (Hp w). auto.
Qed.

Lemma confined_for_each {A} (G : relation W) (l : list A) f :
  (∀ x, confined G (f x)) → confined G (for_each l f).
Proof. intros Hf. induction l; cbn; [done|]. by apply confined_bind. Qed.

Lemma confined_finally {A} (G : relation W) (p : prog W A) f :
  confined G p → confined G f → confined G (finally p f).
Proof.
  intros Hp Hf. induction p as [r|? op k IH]; cbn in *; [by apply confined_bind|].
  intros w. destruct (Hp w). auto.
Qed.

Lemma confined_fold_prog {A S} (G : relation W) (f : S → A → prog W S) s l :
  (∀ s x, confined G (f s x)) → confined G (fold_prog f s l).
Proof.
  intros Hf. revert s. induction l as [|x l IH]; intros s; cbn; [done|]. by apply confined_bind.
Qed.

Lemma confined_throw_if (G : relation W) b e : confined G (throw_if b e).
Proof. by destruct b. Qed.
Lemma confined_or_throw {A} (G : relation W) (o : option A) e : confined G (or_throw o e).
Proof. by destruct o. Qed.
Lemma confined_reads {A} (G : relation W) `{!Reflexive G} (f : W → A) :
  confined G (reads f).
Proof. intros w. done. Qed.
End Confined.

(** ** What a program can throw, from any world *)
Section ThrowsOnly.
Context {W : Type} (P : error → Prop).

Fixpoint throws_only {A} (p : prog W A) : Prop :=
  match p with
  | Done (inl e) => P e
  | Done (inr _) => True
  | Step op k => ∀ w, throws_only (k (op w).1)
  end.

Lemma throws_only_run {A} (p : prog W A) w e : throws_only p → (run p w).1 = inl e → P e.
Proof.
  revert w. induction p as [[]|? op k IH]; intros w Hp Hr; cbn in *; [by simplify_eq|done|eauto].
Qed.
Lemma throws_only_bind {A B} (p : prog W A) (f : A → prog W B) :
  throws_only p → (∀ a, throws_only (f a)) → throws_only (p ≫= f).
Proof. intros Hp Hf. induction p as [[]|? op k IH]; cbn in *; [done|by apply Hf|]. intros w. by apply IH. Qed.
Lemma throws_only_throw_if b e : P e → throws_only (throw_if b e : prog W unit).
Proof. by destruct b. Qed.
Lemma throws_only_or_throw {A} (o : option A) e : P e → throws_only (or_throw o e : prog W A).
Proof. by destruct o. Qed.
End ThrowsOnly.

Create HintDb throws discriminated.
#[export] Hint Resolve throws_only_bind throws_only_throw_if throws_only_or_throw : throws.

Create HintDb confined discriminated.
#[export] Hint Resolve confined_bind confined_try_catch confined_for_each confined_finally
  confined_fold_prog
  confined_throw_if confined_or_throw confined_reads : confined.

(** ** Components in a larger world

    [zoom get put p] runs a program on the part of a world that a component
    owns, as a service calls another one. *)
Section Zoom.
Context {V W : Type} (get : V → W) (put : W → V → V).

Fixpoint zoom {A} (p : prog W A) : prog V A :=
  match p with
  | Done r => Done r
  | Step op k => Step (λ v, ((op (get v)).1, put (op (get v)).2 v)) (λ b, zoom (k b))
  end.

(** The part is where it was put; putting twice is putting once. *)
Record lens_laws : Prop := {
  get_put w v : get (put w v) = w;
  put_get v : put (get v) v = v;
  put_put w1 w2 v : put w2 (put w1 v) = put w2 v
}.

Lemma run_zoom {A} (p : prog W A) v :
  lens_laws → run (zoom p) v = ((run p (get v)).1, put (run p (get v)).2 v).
Proof.
  intros [H1 H2 H3]. revert v. induction p as [r|B op k IH]; intros v; cbn; [by rewrite H2|].
  by rewrite IH, H1, H3.
Qed.

Lemma confined_zoom {A} (G : relation V) (p : prog W A) :
  (∀ w v, G v (put w v)) → confined G (zoom p).
Proof. intros HG. induction p as [r|B op k IH]; cbn; [done|]. intros v. split; [apply HG|apply IH]. Qed.

(** A program that keeps to [RW] on its part keeps to [RV] on the whole. *)
Lemma confined_zoom_rel {A} (RV : relation V) (RW : relation W) (p : prog W A) :
  (∀ v w, RW (get v) w → RV v (put w v)) → confined RW p → confined RV (zoom p).
Proof.
  intros Hput. induction p as [r|B op k IH]; cbn; [done|]. intros Hp v. destruct (Hp (get v)). auto.
Qed.
Lemma safe_zoom {A} (RV : relation V) (RW : relation W) (p : prog W A) v Q :
  lens_laws → (∀ v v', RV v v' → RW (get v) (get v')) → (∀ v w, RW (get v) w → RV v (put w v)) →
  safe RW p (get v) Q → safe RV (zoom p) v (λ r v', Q r (get v')).
Proof.
  intros Hlens Hget Hput. revert v. induction p as [r|B op k IH]; intros v; cbn; [auto|].
  intros Hp v' Hv. destruct (Hp (get v') (Hget _ _ Hv)) as [HR Hk]. split; [auto|].
  apply IH. by rewrite (get_put Hlens).
Qed.
End Zoom.

Lemma throws_only_zoom {V W A} (P : error → Prop) (get : V → W) put (p : prog W A) :
  throws_only P p → throws_only P (zoom get put p).
Proof. induction p as [[]|? op k IH]; cbn; [done..|]. intros Hp v. by apply IH. Qed.
#[export] Hint Resolve throws_only_zoom : throws.

(** One access of a program. *)
Definition step1 {W A} (p : prog W A) (w : W) : prog W A * W :=
  match p with Step op k => (k (op w).1, (op w).2) | Done r => (Done r, w) end.

(** ** Exclusive access: of the programs of a pool, at most one wins

    [taken] is the trace a winner leaves in the world, [phase] the programs the
    pool may hold; a step keeps [taken], and makes a winner only of a program
    that took what was free. *)
Section Exclusive.
Context {W A : Type} (ok taken : W → Prop) (phase winner : prog W A → Prop).

Definition exclusive_steps : Prop :=
  ∀ (B : Type) (op : W → B * W) k w, phase (Step op k) → ok w →
    phase (k (op w).1) ∧ ok (op w).2 ∧ (taken w → taken (op w).2) ∧
    (winner (k (op w).1) → winner (Step op k) ∨ (¬ taken w ∧ taken (op w).2)).

Record exclusive (ps : list (prog W A)) (w : W) : Prop := {
  ex_ok : ok w;
  ex_phase i p : ps !! i = Some p → phase p;
  ex_taken i p : ps !! i = Some p → winner p → taken w;
  ex_unique i j p q : ps !! i = Some p → ps !! j = Some q → winner p → winner q → i = j
}.

Lemma exclusive_insert ps w i p B (op : W → B * W) k :
  exclusive_steps → exclusive ps w → p = Step op k → ps !! i = Some p →
  exclusive (<[i := k (op w).1]> ps) (op w).2.
Proof.
  intros Hst [Hok Hph Hta Hun] -> Hi.
  destruct (Hst B op k w) as (Hph' & Hok' & Hkeep & Hwin); [by eapply Hph|done|].
  split; [done| | |].
  - intros j q [(_ & <- & _)|[_ Hq]]%list_lookup_insert_Some; [done|by eapply Hph].
  - intros j q [(<- & <- & _)|[_ Hq]]%list_lookup_insert_Some Hw; [|eauto].
    destruct (Hwin Hw) as [Hw'|[_ ?]]; [|done]. eauto.
  - intros j l q r [(<- & <- & _)|[Hj Hq]]%list_lookup_insert_Some
      [(<- & <- & _)|[Hl Hr]]%list_lookup_insert_Some Hwq Hwr; [done| | |by eapply Hun].
    + destruct (Hwin Hwq) as [Hw'|[Hn _]]; [by eapply Hun|]. destruct Hn. by eapply Hta.
    + destruct (Hwin Hwr) as [Hw'|[Hn _]]; [by eapply Hun|]. destruct Hn. by eapply Hta.
Qed.

Lemma exclusive_interleave sched ps w :
  exclusive_steps → exclusive ps w →
  exclusive (interleave sched ps w).1 (interleave sched ps w).2.
Proof.
  intros Hst. revert ps w. induction sched as [|i sched IH]; intros ps w Hex; cbn [interleave]; [done|].
  destruct (ps !! i) as [[r|B op k]|] eqn:Hi; [by apply IH| |by apply IH].
  apply IH. by eapply exclusive_insert.
Qed.

Lemma exclusive_start ps w :
  ok w → (∀ p, p ∈ ps → phase p ∧ ¬ winner p) → exclusive ps w.
Proof.
  intros Hok Hps. split; [done| | |].
  - intros i p Hi%list_elem_of_lookup_2. by apply Hps.
  - intros i p Hi%list_elem_of_lookup_2 Hw. by apply Hps in Hi as [_ ?].
  - intros i j p q Hi%list_elem_of_lookup_2 _ Hw _. by apply Hps in Hi as [_ ?].
Qed.
End Exclusive.

(** ** Field update for records

    [r <| f := v |>] replaces one field; the record's [eta] expansion gives
    the other fields. *)
Class Settable (R : Type) := eta : R → R.
Class Setter {R T : Type} (proj : R → T) := set : (T → T) → R → R.
Arguments set {R T} proj {_} _ _ : simpl never.

Ltac derive_setter :=
  lazymatch goal with
  | |- @Setter ?R ?T ?proj =>
      let s := constr:(fun (f : T → T) (r : R) =>
        ltac:(let e := eval hnf in (eta r) in
              let g := eval pattern (proj r) in e in
              lazymatch g with
              | ?h _ => let b := eval cbv beta in (h (f (proj r))) in exact b
              end)) in
      exact s
  end.
(** Compute projections of updated records. *)
Ltac rec_simpl := unfold set; cbn.
Ltac rec_simpl_in H := unfold set in H; cbn in H.

#[export] Hint Extern 0 (Setter _) => derive_setter : typeclass_instances.

#[warnings="-postfix-notation-not-level-1"]
Notation "r <| f := v |>" := (set f (λ _, v) r)
  (at level 12, left associativity, f constr, v at level 200,
   format "r  <| f  :=  v |>").
#[warnings="-postfix-notation-not-level-1"]
Notation "r <| f ::= g |>" := (set f g r)
  (at level 12, left associativity, f constr, g at level 200,
   format "r  <| f  ::=  g |>").

(** ** Collections

    A database collection is a finite map from document ids to documents; a
    document that was read keeps its [_id] beside its fields. *)
Record hydrated (A : Type) := Doc { _id : string; body : A }.
Arguments Doc {A} _id body.
Arguments _id {A} _.
Arguments body {A} _.

Section Collections.
Context {A : Type}.
Implicit Types (m : gmap string A) (P : A → bool).

(** [Model.findById]. *)
Definition find_by_id (id : string) m : option (hydrated A) := Doc id <$> m !! id.

(** [Model.find(P)]: the documents that match. *)
Definition find_all P m : list (hydrated A) :=
  (λ kv, Doc kv.1 kv.2) <$> filter (λ kv, P kv.2 = true) (map_to_list m).

(** [Model.findOne(P)]. *)
Definition find_one P m : option (hydrated A) := head (find_all P m).

(** [Model.updateMany(P, f)]. *)
Definition update_many (U : string → A → bool) (f : A → A) m : gmap string A :=
  map_imap (λ k a, Some (if U k a then f a else a)) m.

Lemma find_by_id_Some id m d :
  find_by_id id m = Some d ↔ d = Doc id (body d) ∧ m !! id = Some (body d).
Proof.
  unfold find_by_id. rewrite fmap_Some. split.
  - by intros (a & Ha & ->).
  - intros [-> H]. by eexists.
Qed.

Lemma find_by_id_None id m : find_by_id id m = None ↔ m !! id = None.
Proof. unfold find_by_id. by rewrite fmap_None. Qed.

Lemma elem_of_find_all P m d :
  d ∈ find_all P m ↔ m !! _id d = Some (body d) ∧ P (body d) = true.
Proof.
  unfold find_all. rewrite list_elem_of_fmap. split.
  - intros ([k a] & -> & [? ?%elem_of_map_to_list]%list_elem_of_filter). done.
  - intros [Hm HP]. exists (_id d, body d). split; [by destruct d|].
    by rewrite list_elem_of_filter, elem_of_map_to_list.
Qed.

Lemma find_one_Some P m d :
  find_one P m = Some d → m !! _id d = Some (body d) ∧ P (body d) = true.
Proof.
  unfold find_one. intros H. apply elem_of_find_all.
  destruct (find_all P m); simplify_eq/=. by left.
Qed.

Lemma find_one_None P m :
  find_one P m = None → ∀ k a, m !! k = Some a → P a = false.
Proof.
  unfold find_one. intros H k a Hk. apply not_true_iff_false. intros HP.
  assert (Doc k a ∈ find_all P m) as Hin by by apply elem_of_find_all.
  destruct (find_all P m); simplify_eq/=. by apply not_elem_of_nil in Hin.
Qed.

Lemma find_one_is_Some P m k a :
  m !! k = Some a → P a = true → is_Some (find_one P m).
Proof.
  intros Hk HP. destruct (find_one P m) eqn:Hf; [done|].
  by rewrite (find_one_None _ _ Hf _ _ Hk) in HP.
Qed.

Lemma find_all_NoDup P m : NoDup (_id <$> find_all P m).
Proof.
  unfold find_all. rewrite <-list_fmap_compose.
  apply (NoDup_fmap_2_strong _).
  - intros [k1 a1] [k2 a2] [_ H1]%list_elem_of_filter [_ H2]%list_elem_of_filter Heq.
    cbn in Heq. subst k2. apply elem_of_map_to_list in H1, H2. by simplify_eq.
  - apply NoDup_filter, NoDup_map_to_list.
Qed.

Lemma lookup_update_many U f m k :
  update_many U f m !! k = (λ a, if U k a then f a else a) <$> m !! k.
Proof.
  unfold update_many. rewrite map_lookup_imap. by destruct (m !! k).
Qed.
End Collections.

(** ** Small list and option helpers *)

(** [a ?? b]. *)
Definition nullish {A} (o : option A) (d : A) : A := default d o.

(** [arr.some(f)] and [arr.includes(x)] on strings. *)
Definition some {A} (f : A → bool) (l : list A) : bool := existsb f l.
Definition includes `{EqDecision A} (x : A) (l : list A) : bool :=
  bool_decide (x ∈ l).

Lemma some_true {A} (f : A → bool) l : some f l = true ↔ ∃ x, x ∈ l ∧ f x = true.
Proof.
  unfold some. rewrite existsb_exists. by setoid_rewrite list_elem_of_In.
Qed.

Lemma some_false {A} (f : A → bool) l : some f l = false ↔ ∀ x, x ∈ l → f x = false.
Proof.
  rewrite <-not_true_iff_false, some_true. split.
  - intros H x Hx. apply not_true_iff_false. eauto.
  - intros H (x & Hx & Hf). by rewrite H in Hf.
Qed.

Lemma includes_true `{EqDecision A} (x : A) l : includes x l = true ↔ x ∈ l.
Proof. apply bool_decide_eq_true. Qed.

Lemma option_eqb_spec `{EqDecision A} (a b : option A) :
  bool_decide (a = b) = true ↔ a = b.
Proof. apply bool_decide_eq_true. Qed.

Lemma filter_all {A} (P : A → Prop) `{!∀ x, Decision (P x)} (l : list A) :
  (∀ x, x ∈ l → P x) → filter P l = l.
Proof.
  intros Hp. induction l as [|x l IH]; [done|].
  rewrite filter_cons_True by (apply Hp; by left). f_equal. apply IH. intros y Hy. apply Hp. by right.
Qed.

Lemma filter_none {A} (P : A → Prop) `{!∀ x, Decision (P x)} l :
  (∀ x, x ∈ l → ¬ P x) → filter P l = [].
Proof.
  intros Hn. induction l as [|x l IH]; [done|].
  rewrite filter_cons_False by (apply Hn; by left). apply IH. intros y Hy. apply Hn. by right.
Qed.
