(* ===== verification/JsLib.v ===== *)
(** * JavaScript values: numbers, strings, dates and JSON

    The parts of the language's standard library that the sources use.  A
    [number] is an IEEE binary64 value ([SpecFloat]); a [string] is a sequence
    of 8-bit code units, on which the case functions and [trim] are exact for
    ASCII text; a date is its number of milliseconds since the epoch. *)
From S2P Require Import Prelude.
From Stdlib Require Import SpecFloat Ascii.

(** ** Numbers *)
Abbreviation number := spec_float.

Module Num.
Definition of_Z (z : Z) : number := binary_normalize 53 1024 z 0 false.
Definition isFinite (x : number) : bool :=
  match x with S754_zero _ | S754_finite _ _ _ => true | _ => false end.
(** [x === y], [x < y], [x <= y]: false when an operand is NaN. *)
Definition eqb (x y : number) : bool := SFeqb x y.
Definition ltb (x y : number) : bool := SFltb x y.
Definition leb (x y : number) : bool := SFleb x y.
Definition add : number → number → number := SFadd 53 1024.
Definition sub : number → number → number := SFsub 53 1024.
Definition mul : number → number → number := SFmul 53 1024.
Definition div : number → number → number := SFdiv 53 1024.
Definition zero : number := S754_zero false.
(** [-x]. *)
Definition opp (x : number) : number :=
  match x with
  | S754_zero s => S754_zero (negb s)
  | S754_infinity s => S754_infinity (negb s)
  | S754_finite s m e => S754_finite (negb s) m e
  | S754_nan => S754_nan
  end.
(** A positive finite value: what [Number.isFinite(x) && x > 0] accepts. *)
Definition positive (x : number) : bool := isFinite x && negb (leb x zero).

(** The integer part of a finite number. *)
Definition trunc (x : number) : option Z :=
  match x with
  | S754_zero _ => Some 0%Z
  | S754_finite s m e =>
      let a := (if e <? 0 then Z.pos m / 2 ^ (- e) else Z.pos m * 2 ^ e)%Z in
      Some (if s then - a else a)%Z
  | _ => None
  end.
Definition isInteger (x : number) : bool :=
  match trunc x with Some z => eqb x (of_Z z) | None => false end.

Lemma positive_spec x :
  positive x = true ↔ ∃ m e, x = S754_finite false m e.
Proof.
  split.
  - destruct x as [[]|[]| |[] m e]; try done. by exists m, e.
  - by intros (m & e & ->).
Qed.

(** *** Integers as numbers *)
Lemma digits2_bounds m : (2 ^ (Z.pos (digits2_pos m) - 1) ≤ Z.pos m < 2 ^ Z.pos (digits2_pos m))%Z.
Proof.
  induction m as [m IH|m IH|]; cbn [digits2_pos]; [| |done];
    rewrite Pos2Z.inj_succ; set (d := Z.pos (digits2_pos m)) in *;
    replace (Z.succ d - 1)%Z with (Z.succ (d - 1)) by lia;
    rewrite !Z.pow_succ_r by lia; lia.
Qed.
Lemma digits2_shift m d : digits2_pos (Pos.iter xO m d) = (digits2_pos m + d)%positive.
Proof.
  induction d as [|d IH] using Pos.peano_ind; cbn; [lia|].
  rewrite Pos.iter_succ. cbn. rewrite IH. lia.
Qed.
Lemma shift_value m d : Z.pos (Pos.iter xO m d) = (Z.pos m * 2 ^ Z.pos d)%Z.
Proof.
  induction d as [|d IH] using Pos.peano_ind; [cbn; lia|].
  rewrite Pos.iter_succ, Pos2Z.inj_succ, Z.pow_succ_r by lia.
  rewrite (Pos2Z.inj_xO _), IH. lia.
Qed.
(** A positive safe integer is represented with a 53-digit mantissa. *)
Lemma of_Z_form z : (0 < z < 2 ^ 53)%Z →
  ∃ m, of_Z z = S754_finite false m (Z.pos (digits2_pos (Z.to_pos z)) - 53) ∧
    Z.pos m = (z * 2 ^ (53 - Z.pos (digits2_pos (Z.to_pos z))))%Z.
Proof.
  intros [Hpos Hlt]. destruct z as [|p|p]; [done| |done]. cbn [Z.to_pos]. clear Hpos.
  pose proof (digits2_bounds p) as [Hlo Hhi]. set (d := digits2_pos p) in *.
  assert (Z.pos d ≤ 53)%Z as Hd.
  { destruct (Z.le_gt_cases (Z.pos d) 53) as [|Hg]; [done|].
    assert (2 ^ 53 ≤ 2 ^ (Z.pos d - 1))%Z by (apply Z.pow_le_mono_r; lia). lia. }
  unfold of_Z, binary_normalize, binary_round, shl_align. fold d.
  replace (fexp 53 1024 (Z.pos d + 0)) with (Z.pos d - 53)%Z by (unfold fexp, emin; lia).
  assert (∀ m, digits2_pos m = 53%positive →
    binary_round_aux 53 1024 false (Z.pos m) (Z.pos d - 53) loc_Exact = S754_finite false m (Z.pos d - 53)) as Haux.
  { intros m Hm. unfold binary_round_aux, shr_fexp. cbn [Zdigits2]. rewrite Hm.
    replace (fexp 53 1024 _ - (Z.pos d - 53))%Z with 0%Z by (unfold fexp, emin; lia).
    cbn [shr shr_record_of_loc shr_m loc_of_shr_record round_nearest_even Zdigits2]. rewrite Hm.
    replace (fexp 53 1024 _ - (Z.pos d - 53))%Z with 0%Z by (unfold fexp, emin; lia). cbn [shr shr_record_of_loc shr_m].
    by rewrite (proj2 (Z.leb_le _ _)) by lia. }
  destruct (Z.pos d - 53 - 0)%Z as [|q|q] eqn:Hq; [| lia |].
  - exists p. replace (53 - Z.pos d)%Z with 0%Z by lia. split; [|lia].
    assert (Z.pos d = 53)%Z as Hd' by lia. assert (d = 53%positive) as Hd'' by congruence.
    rewrite <-(Haux p Hd''). f_equal. lia.
  - exists (Pos.iter xO p q). split; [apply Haux|rewrite shift_value; f_equal; f_equal; lia].
    rewrite digits2_shift. fold d. lia.
Qed.
Lemma of_Z_positive z : (0 < z < 2 ^ 53)%Z → positive (of_Z z) = true.
Proof. intros Hz. apply positive_spec. destruct (of_Z_form z Hz) as (m & -> & _). eauto. Qed.

Lemma of_Z_leb a b : (0 < a < 2 ^ 53)%Z → (0 < b < 2 ^ 53)%Z →
  leb (of_Z a) (of_Z b) = (a <=? b)%Z.
Proof.
  intros Ha Hb. destruct (of_Z_form a Ha) as (ma & -> & Hma), (of_Z_form b Hb) as (mb & -> & Hmb).
  pose proof (digits2_bounds (Z.to_pos a)) as Ba. pose proof (digits2_bounds (Z.to_pos b)) as Bb.
  rewrite Z2Pos.id in Ba, Bb by lia.
  set (da := Z.pos (digits2_pos (Z.to_pos a))) in *. set (db := Z.pos (digits2_pos (Z.to_pos b))) in *.
  unfold leb, SFleb. cbn [SFcompare].
  destruct (Z.compare_spec (da - 53) (db - 53)) as [He|He|He].
  - assert (da = db) as Hd by lia. rewrite Hd in *. clear He Hd da.
    assert (0 < 2 ^ (53 - db))%Z.
    { apply Z.pow_pos_nonneg; [lia|]. destruct (Z.le_gt_cases db 53); [lia|].
      assert (2 ^ 53 ≤ 2 ^ (db - 1))%Z by (apply Z.pow_le_mono_r; lia). lia. }
    change (Pos.compare_cont Eq ma mb) with (Pos.compare ma mb).
    rewrite Pos2Z.inj_compare, Hma, Hmb.
    destruct (Z.compare_spec (a * 2 ^ (53 - db)) (b * 2 ^ (53 - db))); symmetry; first [apply Z.leb_le | apply Z.leb_gt]; nia.
  - symmetry. apply Z.leb_le. assert (2 ^ da ≤ 2 ^ (db - 1))%Z by (apply Z.pow_le_mono_r; lia). lia.
  - symmetry. apply Z.leb_gt. assert (2 ^ db ≤ 2 ^ (da - 1))%Z by (apply Z.pow_le_mono_r; lia). lia.
Qed.

(** *** The order of numbers: lexicographic on sign, exponent and mantissa. *)
Definition order_key (x : number) : Z * Z * Z :=
  match x with
  | S754_zero _ | S754_nan => (0, 0, 0)
  | S754_infinity s => (if s then -2 else 2, 0, 0)
  | S754_finite false m e => (1, e, Z.pos m)
  | S754_finite true m e => (-1, - e, Z.neg m)
  end%Z.
Definition key_le (a b : Z * Z * Z) : Prop :=
  (a.1.1 < b.1.1 ∨ (a.1.1 = b.1.1 ∧ (a.1.2 < b.1.2 ∨ (a.1.2 = b.1.2 ∧ a.2 ≤ b.2))))%Z.

Lemma leb_key x y : x ≠ S754_nan → y ≠ S754_nan →
  leb x y = true ↔ key_le (order_key x) (order_key y).
Proof.
  intros Hx Hy. unfold leb, SFleb, key_le.
  destruct x as [sx|sx| |sx mx ex], y as [sy|sy| |sy my ey]; try done;
    try (destruct sx); try (destruct sy); cbn [SFcompare order_key fst snd];
    try (split; first [done | intros _; lia | intros ?; exfalso; lia]).
  - change (Pos.compare_cont Eq mx my) with (Pos.compare mx my). rewrite Pos2Z.inj_compare.
    destruct (Z.compare_spec ex ey), (Z.compare_spec (Z.pos mx) (Z.pos my)); cbn [CompOpp];
      split; first [done | intros _; lia | intros ?; exfalso; lia].
  - change (Pos.compare_cont Eq mx my) with (Pos.compare mx my). rewrite Pos2Z.inj_compare.
    destruct (Z.compare_spec ex ey), (Z.compare_spec (Z.pos mx) (Z.pos my));
      split; first [done | intros _; lia | intros ?; exfalso; lia].
Qed.

Lemma ltb_leb x y : x ≠ S754_nan → y ≠ S754_nan → ltb x y = negb (leb y x).
Proof.
  intros Hx Hy. unfold ltb, leb, SFltb, SFleb.
  destruct x as [sx|sx| |sx mx ex], y as [sy|sy| |sy my ey]; try done;
    try (destruct sx); try (destruct sy); try done; cbn [SFcompare].
  - rewrite (Z.compare_antisym ex ey).
    change (Pos.compare_cont Eq my mx) with (Pos.compare my mx). rewrite (Pos.compare_antisym mx my).
    change (Pos.compare_cont Eq mx my) with (Pos.compare mx my).
    by destruct (Z.compare ex ey), (Pos.compare mx my).
  - rewrite (Z.compare_antisym ex ey).
    change (Pos.compare_cont Eq my mx) with (Pos.compare my mx). rewrite (Pos.compare_antisym mx my).
    change (Pos.compare_cont Eq mx my) with (Pos.compare mx my).
    by destruct (Z.compare ex ey), (Pos.compare mx my).
Qed.

Lemma of_Z_ltb a b : (0 < a < 2 ^ 53)%Z → (0 < b < 2 ^ 53)%Z →
  ltb (of_Z a) (of_Z b) = (a <? b)%Z.
Proof.
  intros Ha Hb. rewrite ltb_leb; [|by destruct (of_Z_form _ Ha) as (? & -> & _)|
    by destruct (of_Z_form _ Hb) as (? & -> & _)].
  rewrite of_Z_leb by done. by rewrite Z.ltb_antisym.
Qed.

Lemma trunc_of_Z z : (0 < z < 2 ^ 53)%Z → trunc (of_Z z) = Some z.
Proof.
  intros Hz. destruct (of_Z_form z Hz) as (m & -> & Hm). unfold trunc. f_equal.
  set (d := Z.pos (digits2_pos (Z.to_pos z))) in *.
  case_match eqn:He; rewrite ?Z.ltb_lt, ?Z.ltb_ge in He.
  - rewrite Hm. replace (- (d - 53))%Z with (53 - d)%Z by lia. apply Z.div_mul.
    apply Z.pow_nonzero; lia.
  - rewrite Hm. destruct (Z.eq_dec d 53) as [->|Hd]; [cbn; lia|].
    rewrite (Z.pow_neg_r 2 (53 - d)) in Hm by lia. lia.
Qed.

(** Equal finite numbers other than zero are the same value. *)
Lemma eqb_finite m e y : eqb (S754_finite false m e) y = true → y = S754_finite false m e.
Proof.
  unfold eqb, SFeqb. destruct y as [|[]| |[] m' e']; try done. cbn [SFcompare].
  destruct (Z.compare_spec e e') as [->| |]; try done.
  change (Pos.compare_cont Eq m m') with (Pos.compare m m').
  by destruct (Pos.compare_spec m m') as [->| |].
Qed.
Lemma eqb_refl_finite m e : eqb (S754_finite false m e) (S754_finite false m e) = true.
Proof.
  unfold eqb, SFeqb. cbn [SFcompare]. rewrite Z.compare_refl.
  change (Pos.compare_cont Eq m m) with (Pos.compare m m). by rewrite Pos.compare_refl.
Qed.
Lemma of_Z_eqb a b : (0 < a < 2 ^ 53)%Z → (0 < b < 2 ^ 53)%Z →
  eqb (of_Z a) (of_Z b) = (a =? b)%Z.
Proof.
  intros Ha Hb. apply Bool.eq_iff_eq_true. rewrite Z.eqb_eq. split.
  - destruct (of_Z_form a Ha) as (m & Hm & _). rewrite Hm. intros He%eqb_finite.
    assert (leb (of_Z a) (of_Z b) = true ∧ leb (of_Z b) (of_Z a) = true) as [H1 H2].
    { rewrite He, Hm. unfold leb, SFleb. cbn [SFcompare]. rewrite Z.compare_refl.
      change (Pos.compare_cont Eq m m) with (Pos.compare m m). by rewrite Pos.compare_refl. }
    rewrite of_Z_leb in H1, H2 by done. lia.
  - intros ->. destruct (of_Z_form b Hb) as (m & -> & _). apply eqb_refl_finite.
Qed.

Lemma isFinite_not_nan x : isFinite x = true → x ≠ S754_nan.
Proof. by intros H ->. Qed.
Lemma leb_total x y : isFinite x = true → isFinite y = true → leb x y = true ∨ leb y x = true.
Proof.
  intros Hx%isFinite_not_nan Hy%isFinite_not_nan. rewrite !leb_key by done. unfold key_le. lia.
Qed.
Lemma leb_trans x y z : y ≠ S754_nan → leb x y = true → leb y z = true → leb x z = true.
Proof.
  intros Hy H1 H2. assert (x ≠ S754_nan) as Hx by by intros ->.
  assert (z ≠ S754_nan) as Hz by (intros ->; by destruct y).
  apply leb_key in H1, H2; try done. apply leb_key; [done..|]. unfold key_le in *. lia.
Qed.
End Num.

(** [Math.round] and [Math.sqrt]; the other functions of [Math] are
    approximations an engine chooses, so they are parameters. *)
Module Math.
Definition round (x : number) : number :=
  match x with
  | S754_finite s m e =>
      if (0 <=? e)%Z then x else
      let n := (((if s then Z.neg m else Z.pos m) * 2 + 2 ^ (- e)) / 2 ^ (1 - e))%Z in
      if (n =? 0)%Z then S754_zero s else Num.of_Z n
  | _ => x
  end.
Definition sqrt : number → number := SFsqrt 53 1024.

Example round_half : round (Num.div (Num.of_Z 5) (Num.of_Z 2)) = Num.of_Z 3.
Proof. reflexivity. Qed.
Example round_neg_half : round (Num.div (Num.of_Z (-5)) (Num.of_Z 2)) = Num.of_Z (-2).
Proof. reflexivity. Qed.
End Math.

(** [Math.min] and [Math.max]: NaN wins, and the two zeros are ordered. *)
Definition js_min (a b : number) : number :=
  if negb (Num.eqb a a) || negb (Num.eqb b b) then S754_nan
  else if Num.ltb a b then a
  else match a with S754_zero true => if Num.ltb b a then b else a | _ => b end.
Definition js_max (a b : number) : number :=
  if negb (Num.eqb a a) || negb (Num.eqb b b) then S754_nan
  else if Num.ltb a b then b
  else match a with S754_zero true => if Num.ltb b a then a else b | _ => a end.

(** ** Strings *)
Module Str.
Definition chars : string → list ascii := String.list_ascii_of_string.
Definition of_chars : list ascii → string := String.string_of_list_ascii.
Definition length (s : string) : Z := Z.of_nat (String.length s).

(** White space of [trim] in ASCII: tab, LF, VT, FF, CR, space. *)
Definition is_space (c : ascii) : bool :=
  let n := N_of_ascii c in ((9 <=? n) && (n <=? 13))%N || (n =? 32)%N.

(** The other white space in UTF-8: U+00A0 in two bytes; U+1680, U+2000 to U+200A,
    U+2028, U+2029, U+202F, U+205F, U+3000 and U+FEFF in three. *)
Definition wide2 (a b : ascii) : bool := ((N_of_ascii a =? 194) && (N_of_ascii b =? 160))%N.
Definition wide_start (a b : ascii) : bool :=
  match N_of_ascii a, N_of_ascii b with
  | 225, 154 | 226, 128 | 226, 129 | 227, 128 | 239, 187 => true
  | _, _ => false
  end%N.
Definition wide3 (a b c : ascii) : bool :=
  let n := N_of_ascii c in
  match N_of_ascii a, N_of_ascii b with
  | 225, 154 | 227, 128 => (n =? 128)%N
  | 226, 128 => ((128 <=? n) && (n <=? 138) || (n =? 168) || (n =? 169) || (n =? 175))%N
  | 226, 129 => (n =? 159)%N
  | 239, 187 => (n =? 191)%N
  | _, _ => false
  end%N.

(** The list without its leading white space, the longer forms given by [w2] and
    [w3]. *)
Fixpoint strip (w2 : ascii → ascii → bool) (w3 : ascii → ascii → ascii → bool) (l : list ascii) : list ascii :=
  match l with
  | [] => []
  | a :: l1 =>
      if is_space a then strip w2 w3 l1 else
      match l1 with
      | [] => l
      | b :: l2 =>
          if w2 a b then strip w2 w3 l2 else
          match l2 with
          | [] => l
          | c :: l3 => if w3 a b c then strip w2 w3 l3 else l
          end
      end
  end.
Definition trim_left : list ascii → list ascii := strip wide2 wide3.
Definition trim_right (l : list ascii) : list ascii :=
  rev (strip (λ b a, wide2 a b) (λ c b a, wide3 a b c) (rev l)).
Definition trim_list (l : list ascii) : list ascii := trim_right (trim_left l).
Definition trim (s : string) : string := of_chars (trim_list (chars s)).

(** Text of white space only, up to a last character that is not complete. *)
Definition blank (l : list ascii) : bool :=
  match trim_left l with
  | [] => true
  | [a] => includes (N_of_ascii a) [194; 225; 226; 227; 239]%N
  | [a; b] => wide_start a b
  | _ => false
  end.
(** A text with white space in it. *)
Fixpoint spaced (l : list ascii) : bool :=
  match l with
  | [] => false
  | a :: l1 =>
      is_space a || match l1 with
                    | [] => false
                    | b :: l2 => wide2 a b || match l2 with [] => false | c :: _ => wide3 a b c end
                    end || spaced l1
  end.

Definition upper (c : ascii) : ascii :=
  let n := N_of_ascii c in
  if ((97 <=? n) && (n <=? 122))%N then ascii_of_N (n - 32) else c.
Definition lower (c : ascii) : ascii :=
  let n := N_of_ascii c in
  if ((65 <=? n) && (n <=? 90))%N then ascii_of_N (n + 32) else c.
Definition toUpperCase (s : string) : string := of_chars (upper <$> chars s).
Definition toLowerCase (s : string) : string := of_chars (lower <$> chars s).

(** A string is falsy when empty. *)
Definition truthy (s : string) : bool := negb (String.eqb s "").
Definition startsWith (s p : string) : bool := String.prefix p s.

Fixpoint join (sep : string) (l : list string) : string :=
  match l with
  | [] => ""
  | [x] => x
  | x :: l => x +:+ sep +:+ join sep l
  end.

(** A string between double quotes. *)
Definition quote (s : string) : string :=
  String (ascii_of_nat 34) s +:+ String (ascii_of_nat 34) EmptyString.

(** [padStart(n, '0')]. *)
Definition padStart (n : nat) (s : string) : string :=
  of_chars (replicate (n - String.length s) "0"%char) +:+ s.

Lemma chars_of_chars l : chars (of_chars l) = l.
Proof. apply String.list_ascii_of_string_of_list_ascii. Qed.
Lemma of_chars_chars s : of_chars (chars s) = s.
Proof. apply String.string_of_list_ascii_of_string. Qed.

Lemma truthy_spec s : truthy s = true ↔ s ≠ "".
Proof. unfold truthy. by rewrite negb_true_iff, String.eqb_neq. Qed.

(** One step of [strip]. *)
Definition lead (w2 : ascii → ascii → bool) (w3 : ascii → ascii → ascii → bool) (l : list ascii) : option (list ascii) :=
  match l with
  | [] => None
  | a :: l1 =>
      if is_space a then Some l1 else
      match l1 with
      | [] => None
      | b :: l2 =>
          if w2 a b then Some l2 else
          match l2 with [] => None | c :: l3 => if w3 a b c then Some l3 else None end
      end
  end.

Section Strip.
Context (w2 : ascii → ascii → bool) (w3 : ascii → ascii → ascii → bool).

Lemma strip_lead l : strip w2 w3 l = match lead w2 w3 l with Some r => strip w2 w3 r | None => l end.
Proof.
  destruct l as [|a [|b [|c l]]]; cbn [strip lead]; try done; destruct (is_space a); try done;
    destruct (w2 a b); try done; by destruct (w3 a b c).
Qed.
Lemma lead_suffix l r : lead w2 w3 l = Some r → ∃ x k, l = x :: k ++ r.
Proof.
  intros Hr. destruct l as [|a [|b [|c l]]]; cbn [lead] in Hr; repeat case_match; simplify_eq; eexists;
    first [by eexists [] | by eexists [_] | by eexists [_; _]].
Qed.
Lemma lead_app p q : lead w2 w3 (p ++ q) = None → lead w2 w3 p = None.
Proof. destruct p as [|a [|b [|c p]]]; cbn [lead app]; by repeat case_match. Qed.

Lemma strip_spec l : lead w2 w3 (strip w2 w3 l) = None ∧ ∃ k, l = k ++ strip w2 w3 l.
Proof.
  remember (Datatypes.length l) as n eqn:Hn. revert l Hn. induction (lt_wf n) as [n _ IH]. intros l ->.
  rewrite strip_lead. destruct (lead w2 w3 l) as [r|] eqn:Hl; [|by split; [|exists []]].
  destruct (lead_suffix l r Hl) as (x & k & ->).
  destruct (IH (Datatypes.length r)) with (l := r) as [H1 [k' H2]]; [cbn; rewrite length_app; lia|done|].
  split; [done|]. exists (x :: k ++ k'). cbn. by rewrite <-app_assoc, <-H2.
Qed.
Lemma strip_none l : lead w2 w3 l = None → strip w2 w3 l = l.
Proof. intros Hl. by rewrite strip_lead, Hl. Qed.
Lemma strip_idemp l : strip w2 w3 (strip w2 w3 l) = strip w2 w3 l.
Proof. apply strip_none, strip_spec. Qed.
End Strip.

Lemma trim_left_idemp l : trim_left (trim_left l) = trim_left l.
Proof. apply strip_idemp. Qed.
Lemma trim_right_idemp l : trim_right (trim_right l) = trim_right l.
Proof. unfold trim_right. by rewrite rev_involutive, strip_idemp. Qed.
(** Trimming on the right keeps a list that has no leading space so. *)
Lemma trim_left_trim_right l : trim_left l = l → trim_left (trim_right l) = trim_right l.
Proof.
  intros Hl. apply strip_none. unfold trim_right. set (w2 := λ b a : ascii, _). set (w3 := λ c b a : ascii, _).
  destruct (strip_spec w2 w3 (rev l)) as [_ [k Hk]]. apply (lead_app _ _ _ (rev k)).
  rewrite <-rev_app_distr, <-Hk, rev_involutive, <-Hl. apply strip_spec.
Qed.
Lemma trim_list_idemp l : trim_list (trim_list l) = trim_list l.
Proof.
  unfold trim_list. rewrite (trim_left_trim_right (trim_left l)) by apply trim_left_idemp.
  apply trim_right_idemp.
Qed.

(** A text of ASCII characters that are no space stays as it is. *)
Definition solid (c : ascii) : bool := negb (is_space c) && (N_of_ascii c <? 128)%N.
Lemma lead_solid w2 w3 a l : is_space a = false → (∀ b, w2 a b = false) → (∀ b c, w3 a b c = false) →
  lead w2 w3 (a :: l) = None.
Proof.
  intros Hs H2 H3. cbn [lead]. rewrite Hs. destruct l as [|b [|c l]]; [done|by rewrite H2|by rewrite H2, H3].
Qed.
Lemma solid_wide a : solid a = true →
  is_space a = false ∧ ∀ b c, wide2 a b = false ∧ wide2 b a = false ∧ wide3 a b c = false ∧ wide3 b c a = false.
Proof.
  unfold solid. rewrite andb_true_iff, negb_true_iff, N.ltb_lt. intros [Hs Hn]. split; [done|]. intros b c.
  unfold wide2, wide3. split_and!.
  - rewrite (proj2 (N.eqb_neq (N_of_ascii a) 194)) by lia. done.
  - rewrite (proj2 (N.eqb_neq (N_of_ascii a) 160)) by lia. apply andb_false_r.
  - revert Hn. generalize (N_of_ascii a) (N_of_ascii b) (N_of_ascii c). intros n m k Hn.
    repeat case_match; try done; lia.
  - revert Hn. generalize (N_of_ascii a) (N_of_ascii b) (N_of_ascii c). intros n m k Hn.
    repeat case_match; try done; rewrite ?orb_false_iff, ?andb_false_iff, ?N.leb_gt, ?N.eqb_neq; lia.
Qed.
Lemma trim_solid l : forallb solid l = true → trim_list l = l.
Proof.
  intros Hl. assert (trim_left l = l) as Hleft.
  { apply strip_none. destruct l as [|a l]; [done|]. cbn in Hl. apply andb_true_iff in Hl as [[Ha Hw]%solid_wide _].
    apply lead_solid; [done|intros b; apply (Hw b b)|intros b c; apply (Hw b c)]. }
  unfold trim_list. rewrite Hleft. unfold trim_right. rewrite strip_none, rev_involutive; [done|].
  destruct (rev l) as [|a k] eqn:Hr; [done|]. assert (solid a = true) as [Ha Hw]%solid_wide.
  { rewrite forallb_forall in Hl. apply Hl, in_rev. rewrite Hr. by left. }
  apply lead_solid; [done|intros b; apply (Hw b b)|intros b c; apply (Hw c b)].
Qed.

Lemma wide2_first a b : wide2 a b = true → includes (N_of_ascii a) [194; 225; 226; 227; 239]%N = true.
Proof. unfold wide2. by intros [->%N.eqb_eq _]%andb_true_iff. Qed.
Lemma wide_start_first a b : wide_start a b = true → includes (N_of_ascii a) [194; 225; 226; 227; 239]%N = true.
Proof. unfold wide_start. repeat case_match; by intros. Qed.
Lemma wide3_start a b c : wide3 a b c = true → wide_start a b = true.
Proof. unfold wide3, wide_start. repeat case_match; by intros. Qed.

(** A blank text is blank so far at every point. *)
Lemma blank_app t u : blank (t ++ u) = true → blank t = true.
Proof.
  unfold blank. remember (Datatypes.length t) as n eqn:Hn. revert t Hn. induction (lt_wf n) as [n _ IH]. intros t ->.
  unfold trim_left. rewrite (strip_lead _ _ (t ++ u)), (strip_lead _ _ t).
  destruct (lead wide2 wide3 t) as [r|] eqn:Hl.
  - destruct (lead_suffix _ _ t r Hl) as (x & k & Ht).
    assert (lead wide2 wide3 (t ++ u) = Some (r ++ u)) as ->.
    { clear -Hl. destruct t as [|a [|b [|c t]]]; cbn [lead app] in *; repeat case_match; by simplify_eq. }
    apply (IH (Datatypes.length r)); [|done]. rewrite Ht. cbn. rewrite length_app. lia.
  - destruct t as [|a [|b [|c t]]]; [done|..].
    + destruct (is_space a) eqn:Ha; [by cbn in Hl; rewrite Ha in Hl|]. cbn [app lead]. rewrite Ha.
      destruct u as [|b [|c u]]; [done|..]; (destruct (wide2 a b) eqn:H2; [intros _; by eapply wide2_first|]).
      * apply wide_start_first.
      * destruct (wide3 a b c) eqn:H3; [|done]. intros _. by eapply wide_start_first, wide3_start.
    + destruct (is_space a) eqn:Ha; [by cbn in Hl; rewrite Ha in Hl|]. cbn [app lead] in *. rewrite Ha in *.
      destruct (wide2 a b); [done|]. destruct u as [|c u]; [done|].
      destruct (wide3 a b c) eqn:H3; [|done]. intros _. by eapply wide3_start.
    + cbn [app lead] in *. destruct (is_space a); [done|]. destruct (wide2 a b); [done|]. by destruct (wide3 a b c).
Qed.
Lemma trim_idemp s : trim (trim s) = trim s.
Proof. unfold trim. by rewrite chars_of_chars, trim_list_idemp. Qed.
End Str.
Lemma chars_app (s1 s2 : string) : Str.chars (s1 +:+ s2) = Str.chars s1 ++ Str.chars s2.
Proof. induction s1 as [|c s1 IH]; [done|]. exact (f_equal (cons c) IH). Qed.

(** ** Numbers from strings: [Number(s)] *)
Module NumParse.
Definition digit_val (c : ascii) : option Z :=
  let n := Z.of_N (N_of_ascii c) in
  if (48 <=? n)%Z && (n <=? 57)%Z then Some (n - 48)%Z
  else if (97 <=? n)%Z && (n <=? 122)%Z then Some (n - 87)%Z
  else if (65 <=? n)%Z && (n <=? 90)%Z then Some (n - 55)%Z else None.

(** The longest run of digits of a base: value, length and rest. *)
Fixpoint digits (base acc len : Z) (l : list ascii) : Z * Z * list ascii :=
  match l with
  | c :: l' =>
      match digit_val c with
      | Some d => if (d <? base)%Z then digits base (acc * base + d) (len + 1) l' else (acc, len, l)
      | None => (acc, len, l)
      end
  | [] => (acc, len, [])
  end.

(** [m * 10^e], correctly rounded; far exponents overflow or vanish. *)
Definition scale (neg : bool) (m e len : Z) : number :=
  if (m =? 0)%Z then S754_zero neg
  else if (310 <? e + len)%Z then S754_infinity neg
  else if (e + len <? -330)%Z then S754_zero neg
  else if (0 <=? e)%Z then
    match binary_normalize 53 1024 (m * 10 ^ e) 0 false with
    | S754_finite _ a b => S754_finite neg a b
    | S754_infinity _ => S754_infinity neg
    | x => x
    end
  else
    match (10 ^ (- e))%Z with
    | Zpos d => Num.div (S754_finite neg (Z.to_pos m) 0) (S754_finite false d 0)
    | _ => S754_nan
    end.

Definition exponent (l : list ascii) : option Z :=
  match l with
  | [] => Some 0%Z
  | c :: l =>
      if (Ascii.eqb c "e" || Ascii.eqb c "E")%char then
        let '(neg, l) := match l with
                         | "-"%char :: l => (true, l)
                         | "+"%char :: l => (false, l)
                         | _ => (false, l)
                         end in
        match digits 10 0 0 l with
        | (v, len, []) => if (len =? 0)%Z then None else Some (if neg then - v else v)%Z
        | _ => None
        end
      else None
  end.

Definition decimal (neg : bool) (l : list ascii) : option number :=
  if bool_decide (l = Str.chars "Infinity") then Some (S754_infinity neg) else
  let '(a, la, rest) := digits 10 0 0 l in
  let '(m, lf, rest) := match rest with
                        | "."%char :: rest => let '(m, lm, rest) := digits 10 a la rest in (m, (lm - la)%Z, rest)
                        | _ => (a, 0%Z, rest)
                        end in
  if (la + lf =? 0)%Z then None else
  e ← exponent rest;
  Some (scale neg m (e - lf) (la + lf)).

Definition radix (base : Z) (l : list ascii) : option number :=
  match digits base 0 0 l with
  | (v, len, []) => if (len =? 0)%Z then None else Some (Num.of_Z v)
  | _ => None
  end.

(** [Number(s)]. *)
Definition of_string (s : string) : number :=
  let l := Str.trim_list (Str.chars s) in
  nullish
    match l with
    | [] => Some Num.zero
    | "0"%char :: "x"%char :: l | "0"%char :: "X"%char :: l => radix 16 l
    | "0"%char :: "o"%char :: l | "0"%char :: "O"%char :: l => radix 8 l
    | "0"%char :: "b"%char :: l | "0"%char :: "B"%char :: l => radix 2 l
    | "-"%char :: l => decimal true l
    | "+"%char :: l => decimal false l
    | _ => decimal false l
    end S754_nan.

Example parse_int : of_string " 42 " = Num.of_Z 42.
Proof. reflexivity. Qed.
Example parse_frac : Num.mul (of_string "-1.25e1") (Num.of_Z 2) = Num.of_Z (-25).
Proof. reflexivity. Qed.
Example parse_tenth : of_string "0.1" = S754_finite false 7205759403792794 (-56).
Proof. reflexivity. Qed.
Example parse_hex : of_string "0x1F" = Num.of_Z 31.
Proof. reflexivity. Qed.
Example parse_bad : of_string "12px" = S754_nan.
Proof. reflexivity. Qed.
End NumParse.

(** ** Numbers to strings: [String(x)] *)
Module NumPrint.
(** The decimal point position [n] of a positive [num / den]: it is below
    [10^n] and not below [10^(n-1)]; the search starts from an estimate. *)
Definition below (num den n : Z) : bool :=
  (if 0 <=? n then num <? 10 ^ n * den else num * 10 ^ (- n) <? den)%Z.
Definition magnitude (num den : Z) : Z :=
  let est := ((Z.log2 num - Z.log2 den) * 1233 / 4096)%Z in
  nullish (List.find (below num den) [est - 1; est; est + 1; est + 2; est + 3]%Z) est.

(** The [k]-digit integers around [x * 10^(k-n)], the closer one first. *)
Definition candidates (num den n k : Z) : list Z :=
  let p := (k - n)%Z in
  let a := (if 0 <=? p then num * 10 ^ p else num)%Z in
  let b := (if 0 <=? p then den else den * 10 ^ (- p))%Z in
  let s := (a / b)%Z in
  if (2 * (a mod b) <? b)%Z then [s; s + 1]%Z else [s + 1; s]%Z.

(** The fewest digits that denote [x]: the digits and their number. *)
Fixpoint shortest (fuel : nat) (x : number) (num den n k : Z) : Z * Z :=
  let found := List.find (λ s, Num.eqb (NumParse.scale false s (n - k) k) x) (candidates num den n k) in
  match found, fuel with
  | Some s, _ => (s, k)
  | None, S fuel => shortest fuel x num den n (k + 1)
  | None, O => (0, k)%Z
  end.

Definition zeros (n : Z) : string := Str.of_chars (replicate (Z.to_nat n) "0"%char).

(** The decimal text of [s * 10^(n-k)], where [s] has [k] digits. *)
Definition layout (s n k : Z) : string :=
  let d : string := pretty s in
  if ((k <=? n) && (n <=? 21))%Z then d +:+ zeros (n - k)
  else if ((0 <? n) && (n <=? 21))%Z
  then String.substring 0 (Z.to_nat n) d +:+ "." +:+ String.substring (Z.to_nat n) (Z.to_nat (k - n)) d
  else if ((-6 <? n) && (n <=? 0))%Z then "0." +:+ zeros (- n) +:+ d
  else
    let e := (n - 1)%Z in
    let sign := if (e <? 0)%Z then "-" else "+" in
    let tail := String.substring 1 (Z.to_nat (k - 1)) d in
    String.substring 0 1 d +:+ (if (k =? 1)%Z then "" else "." +:+ tail)
    +:+ "e" +:+ sign +:+ pretty (Z.abs e).

Definition to_string (x : number) : string :=
  match x with
  | S754_zero _ => "0"
  | S754_nan => "NaN"
  | S754_infinity s => if s then "-Infinity" else "Infinity"
  | S754_finite s m e =>
      let num := (if 0 <=? e then Z.pos m * 2 ^ e else Z.pos m)%Z in
      let den := (if 0 <=? e then 1 else 2 ^ (- e))%Z in
      let n := magnitude num den in
      let '(d, k) := shortest 17 (S754_finite false m e) num den n 1 in
      (if s then "-" else "") +:+
      (if (d =? 10 ^ k)%Z then layout (10 ^ (k - 1)) (n + 1) k else layout d n k)
  end.

Example print_int : to_string (Num.of_Z 1700000000000) = "1700000000000".
Proof. vm_compute. reflexivity. Qed.
Example print_tenth : to_string (NumParse.of_string "-0.1") = "-0.1".
Proof. vm_compute. reflexivity. Qed.
Example print_third : to_string (Num.div (Num.of_Z 1) (Num.of_Z 3)) = "0.3333333333333333".
Proof. vm_compute. reflexivity. Qed.
Example print_big : to_string (NumParse.of_string "123e21") = "1.23e+23".
Proof. vm_compute. reflexivity. Qed.
Example print_small : to_string (NumParse.of_string "5e-7") = "5e-7".
Proof. vm_compute. reflexivity. Qed.
Example print_carry : to_string (NumParse.of_string "0.000001") = "0.000001".
Proof. vm_compute. reflexivity. Qed.
Example print_coordinate : to_string (NumParse.of_string "6.524379") = "6.524379".
Proof. vm_compute. reflexivity. Qed.
End NumPrint.

(** ** Dates *)
Module Date.
(** The Gregorian date of a day number counted from 1970-01-01. *)
Definition civil (days : Z) : Z * Z * Z :=
  let z := (days + 719468)%Z in
  let era := (z / 146097)%Z in
  let doe := (z mod 146097)%Z in
  let yoe := ((doe - doe / 1460 + doe / 36524 - doe / 146096) / 365)%Z in
  let doy := (doe - (365 * yoe + yoe / 4 - yoe / 100))%Z in
  let mp := ((5 * doy + 2) / 153)%Z in
  let d := (doy - (153 * mp + 2) / 5 + 1)%Z in
  let m := (if mp <? 10 then mp + 3 else mp - 9)%Z in
  let y := (yoe + era * 400 + (if m <=? 2 then 1 else 0))%Z in
  (y, m, d).

Definition pad (n : nat) (z : Z) : string := Str.padStart n (pretty z).

(** [date.toISOString()] for the years 0 to 9999. *)
Definition toISOString (ms : Z) : string :=
  let '(y, m, d) := civil (ms / 86400000)%Z in
  let t := (ms mod 86400000)%Z in
  pad 4 y +:+ "-" +:+ pad 2 m +:+ "-" +:+ pad 2 d +:+ "T" +:+
  pad 2 (t / 3600000) +:+ ":" +:+ pad 2 (t / 60000 mod 60) +:+ ":" +:+
  pad 2 (t / 1000 mod 60) +:+ "." +:+ pad 3 (t mod 1000) +:+ "Z".

(** [new Date(x)] for a number: its time value, if the date is valid. *)
Definition of_number (x : number) : option Z :=
  t ← Num.trunc x; if (Z.abs t <=? 8640000000000000)%Z then Some t else None.

(** A whole number of milliseconds among the dates after the epoch. *)
Definition is_whole (x : number) : bool :=
  Num.positive x && match of_number x with Some z => Num.eqb x (Num.of_Z z) | None => false end.
Lemma of_number_of_Z z : (0 < z ≤ 8640000000000000)%Z → of_number (Num.of_Z z) = Some z.
Proof.
  intros Hz. unfold of_number. rewrite Num.trunc_of_Z by lia. cbn.
  by rewrite (proj2 (Z.leb_le _ _)) by lia.
Qed.
Lemma is_whole_spec x :
  is_whole x = true ↔ ∃ z, (0 < z ≤ 8640000000000000)%Z ∧ x = Num.of_Z z.
Proof.
  unfold is_whole. split.
  - intros [(m & e & ->)%Num.positive_spec Hz]%andb_true_iff.
    destruct (of_number _) as [z|] eqn:Hd; [|done]. apply Num.eqb_finite in Hz.
    exists z. split; [|done]. unfold of_number in Hd. cbn [mbind option_bind Num.trunc] in Hd.
    case_match eqn:Hle; [|done].
    assert (0 ≤ (if e <? 0 then Z.pos m / 2 ^ (- e) else Z.pos m * 2 ^ e))%Z as Hpos.
    { case_match eqn:He; rewrite ?Z.ltb_lt, ?Z.ltb_ge in He;
        [apply Z.div_pos; [lia|apply Z.pow_pos_nonneg; lia]|].
      apply Z.mul_nonneg_nonneg; [lia|]. apply Z.pow_nonneg. lia. }
    simplify_eq. apply Z.leb_le in Hle. split; [|lia]. apply Z.le_neq. split; [done|].
    intros H0. by rewrite <-H0 in Hz.
  - intros (z & Hz & ->). rewrite of_number_of_Z by done. rewrite Num.of_Z_positive by lia.
    rewrite Num.of_Z_eqb by lia. by rewrite Z.eqb_refl.
Qed.

Example epoch_iso : toISOString 1700000000123 = "2023-11-14T22:13:20.123Z".
Proof. reflexivity. Qed.
End Date.

(** ** JSON values *)
#[warnings="-register-all"] Inductive json :=
  | JNull
  | JBool (b : bool)
  | JNum (x : number)
  | JStr (s : string)
  | JArr (l : list json)
  | JObj (fields : list (string * json)).

(** ** Synchronous code that may throw *)
#[export] Instance result_ret : MRet (sum error) := λ A a, inr a.
#[export] Instance result_bind : MBind (sum error) := λ A B f r,
  match r with inl e => inl e | inr a => f a end.

Module Json.
(** A property of an object: absent properties are [undefined], and so is any
    property of a primitive value; [null] has none to read. *)
Definition type_error (f : string) : error :=
  PlainError ("Cannot read properties of null (reading '" +:+ f +:+ "')").
Definition field (f : string) (v : json) : option json :=
  match v with
  | JObj fields => snd <$> List.find (λ kv, String.eqb kv.1 f) (rev fields)
  | _ => None
  end.
Definition prop (f : string) (v : json) : error + option json :=
  match v with JNull => inl (type_error f) | _ => inr (field f v) end.

(** [String(v)]. *)
Fixpoint to_text (v : json) : string :=
  match v with
  | JNull => "null"
  | JBool b => if b then "true" else "false"
  | JNum x => NumPrint.to_string x
  | JStr s => s
  | JArr l => Str.join "," (map (λ x, match x with JNull => "" | _ => to_text x end) l)
  | JObj _ => "[object Object]"
  end.
(** [v ?? d] and the number under a [typeof v === 'number'] test. *)
Definition coalesce (v : option json) (d : json) : json :=
  match v with None | Some JNull => d | Some v => v end.
Definition truthy (v : option json) : bool :=
  match v with
  | None | Some JNull | Some (JBool false) => false
  | Some (JNum x) => negb (Num.eqb x Num.zero) && Num.eqb x x
  | Some (JStr s) => Str.truthy s
  | _ => true
  end.
Definition as_number (v : option json) : option number :=
  match v with Some (JNum x) => Some x | _ => None end.
(** A value, or its absence, in a template string. *)
Definition template (v : option json) : string := match v with Some v => to_text v | None => "undefined" end.
End Json.
