(* ===== verification/NumBounds.v ===== *)
(** * Bounds on rounded arithmetic

    What the services' formulas need of binary64 rounding: a result has at most
    53 bits, and a product whose exact value is at most a small integer does not
    round past it. *)
From S2P Require Import Prelude JsLib.
From Stdlib Require Import SpecFloat.

(** ** Shifting to the right *)
Lemma iter_pos_iter {A} (f : A → A) p x : iter_pos f p x = Nat.iter (Pos.to_nat p) f x.
Proof.
  revert x. induction p as [p IH|p IH|]; intros x; cbn [iter_pos].
  - rewrite Pos2Nat.inj_xI, !IH. replace (S (2 * Pos.to_nat p)) with (Pos.to_nat p + (Pos.to_nat p + 1)) by lia.
    by rewrite !Nat.iter_add.
  - rewrite Pos2Nat.inj_xO, !IH. replace (2 * Pos.to_nat p) with (Pos.to_nat p + Pos.to_nat p) by lia.
    by rewrite Nat.iter_add.
  - done.
Qed.

Lemma shr_1_m r : (0 ≤ shr_m r)%Z → shr_m (shr_1 r) = (shr_m r / 2)%Z.
Proof.
  destruct r as [m rb sb]. cbn. destruct m as [|[p|p|]|]; cbn; intros; try done; try lia.
  - rewrite Pos2Z.inj_xI. replace (2 * Z.pos p + 1)%Z with (1 + Z.pos p * 2)%Z by lia.
    by rewrite Z.div_add.
  - rewrite Pos2Z.inj_xO, Z.mul_comm. by rewrite Z.div_mul.
Qed.
Lemma shr_1_exact r : shr_r r = false → shr_s r = false → (shr_m r mod 2 = 0)%Z →
  shr_r (shr_1 r) = false ∧ shr_s (shr_1 r) = false.
Proof.
  destruct r as [m rb sb]. cbn. intros -> -> Hm. destruct m as [|[p|p|]|[p|p|]]; cbn; try done; exfalso.
  - rewrite Pos2Z.inj_xI in Hm. replace (2 * Z.pos p + 1)%Z with (1 + Z.pos p * 2)%Z in Hm by lia.
    by rewrite Z.mod_add in Hm.
  - rewrite Pos2Z.neg_xI in Hm. replace (2 * Z.neg p - 1)%Z with (1 + (Z.neg p - 1) * 2)%Z in Hm by lia.
    by rewrite Z.mod_add in Hm.
Qed.

Lemma shr_n_m n r : (0 ≤ shr_m r)%Z → shr_m (Nat.iter n shr_1 r) = (shr_m r / 2 ^ Z.of_nat n)%Z.
Proof.
  intros Hr. induction n as [|n IH]; cbn [Nat.iter nat_rect]; [by rewrite Z.div_1_r|].
  change (nat_rect _ r _ n) with (Nat.iter n shr_1 r).
  rewrite shr_1_m, IH by (rewrite IH; apply Z.div_pos; lia).
  rewrite Nat2Z.inj_succ, Z.pow_succ_r, Z.div_div by lia. by rewrite (Z.mul_comm 2).
Qed.
Lemma shr_n_exact n m : (0 ≤ m)%Z → (m mod 2 ^ Z.of_nat n = 0)%Z →
  let r := Nat.iter n shr_1 (Build_shr_record m false false) in shr_r r = false ∧ shr_s r = false.
Proof.
  intros Hm. induction n as [|n IH]; intros Hd; cbn [Nat.iter nat_rect]; [done|].
  change (nat_rect _ _ _ n) with (Nat.iter n shr_1 (Build_shr_record m false false)).
  rewrite Nat2Z.inj_succ, Z.pow_succ_r in Hd by lia.
  assert (m mod 2 ^ Z.of_nat n = 0 ∧ (m / 2 ^ Z.of_nat n) mod 2 = 0)%Z as [H1 H2].
  { apply Z.mod_divide in Hd as [q ->]; [|lia]. set (P := (2 ^ Z.of_nat n)%Z) in *.
    assert (0 < P)%Z by (unfold P; lia).
    replace (q * (2 * P))%Z with (q * 2 * P)%Z by ring. rewrite Z.mod_mul, Z.div_mul, Z.mod_mul by lia. done. }
  destruct (IH H1). apply shr_1_exact; [done..|]. by rewrite shr_n_m.
Qed.

(** [shr_fexp] drops [k] bits. *)
Definition dropped (m e : Z) : Z := Z.max 0 (fexp 53 1024 (Zdigits2 m + e) - e).

Lemma shr_fexp_spec m e : (0 ≤ m)%Z →
  ∃ r, shr_fexp 53 1024 m e loc_Exact = (r, (e + dropped m e)%Z)
    ∧ shr_m r = (m / 2 ^ dropped m e)%Z
    ∧ (m mod 2 ^ dropped m e = 0 → loc_of_shr_record r = loc_Exact)%Z.
Proof.
  intros Hm. unfold shr_fexp, dropped, shr. cbn [shr_record_of_loc].
  destruct (fexp 53 1024 (Zdigits2 m + e) - e)%Z as [|p|p] eqn:Hk.
  - eexists. split; [f_equal; lia|]. cbn. by rewrite Z.div_1_r.
  - eexists. split; [f_equal; lia|]. rewrite iter_pos_iter, Z.max_r by lia.
    rewrite <- (positive_nat_Z p). split; [by apply shr_n_m|]. intros Hd.
    destruct (shr_n_exact (Pos.to_nat p) m Hm Hd) as [Hr Hs].
    destruct (Nat.iter _ _ _) as [m' r s]. cbn in *. by subst.
  - eexists. split; [f_equal; lia|]. cbn. by rewrite Z.div_1_r.
Qed.

Lemma Zdigits2_bounds m : (0 < m)%Z → (2 ^ (Zdigits2 m - 1) ≤ m < 2 ^ Zdigits2 m)%Z.
Proof. destruct m as [|p|p]; [lia| |lia]. intros _. apply Num.digits2_bounds. Qed.
Lemma Zdigits2_le m n : (0 < m)%Z → (0 ≤ n)%Z → (m < 2 ^ n)%Z → (Zdigits2 m ≤ n)%Z.
Proof.
  intros Hm Hn Hlt. destruct (Z.le_gt_cases (Zdigits2 m) n) as [|Hg]; [done|].
  destruct (Zdigits2_bounds m Hm) as [Hlo _].
  assert (2 ^ n ≤ 2 ^ (Zdigits2 m - 1))%Z by (apply Z.pow_le_mono_r; lia). lia.
Qed.

(** ** Results have at most 53 bits *)
Definition narrow (x : number) : Prop :=
  match x with S754_finite _ m _ => (Z.pos m < 2 ^ 53)%Z | _ => True end.

Lemma shr_fexp_nonneg m e l : (0 ≤ m)%Z → (0 ≤ shr_m (shr_fexp 53 1024 m e l).1)%Z.
Proof.
  intros Hm. unfold shr_fexp, shr.
  assert (shr_m (shr_record_of_loc m l) = m) as Hr by by destruct l as [|[]].
  destruct (fexp _ _ _ - e)%Z; cbn [fst]; rewrite ?Hr; try done.
  rewrite iter_pos_iter, shr_n_m, Hr by (rewrite Hr; done). apply Z.div_pos; lia.
Qed.
Lemma round_even_range m l : (m ≤ round_nearest_even m l ≤ m + 1)%Z.
Proof. destruct l as [|[]]; cbn; try lia. destruct (Z.even m); lia. Qed.

Lemma dropped_narrow m e : (0 ≤ m)%Z → (m / 2 ^ dropped m e < 2 ^ 53)%Z.
Proof.
  intros Hm. destruct (decide (m = 0%Z)) as [->|]; [rewrite Z.div_0_l; [lia|unfold dropped; lia]|].
  assert (Zdigits2 m - 53 ≤ dropped m e)%Z as Hk by (unfold dropped, fexp; lia).
  assert (0 ≤ dropped m e)%Z by (unfold dropped; lia).
  apply Z.div_lt_upper_bound; [lia|]. destruct (Zdigits2_bounds m) as [_ Hhi]; [lia|].
  rewrite <- Z.pow_add_r by lia.
  apply (Z.lt_le_trans _ _ _ Hhi), Z.pow_le_mono_r; lia.
Qed.

Lemma round_aux_narrow s m e l : (0 ≤ m)%Z → narrow (binary_round_aux 53 1024 s m e l).
Proof.
  intros Hm. unfold binary_round_aux. pose proof (shr_fexp_nonneg m e l Hm) as H1.
  destruct (shr_fexp 53 1024 m e l) as [r1 e1]. cbn [fst] in H1.
  set (m1 := round_nearest_even _ _).
  assert (0 ≤ m1)%Z as Hm1 by (unfold m1; pose proof (round_even_range (shr_m r1) (loc_of_shr_record r1)); lia).
  destruct (shr_fexp_spec m1 e1 Hm1) as (r2 & -> & Hr2 & _).
  pose proof (dropped_narrow m1 e1 Hm1) as Hn. rewrite <- Hr2 in Hn.
  destruct (shr_m r2) as [|p|p]; try done. by destruct (_ <=? _)%Z.
Qed.

Lemma of_Z_narrow z : narrow (Num.of_Z z).
Proof.
  unfold Num.of_Z, binary_normalize, binary_round. destruct z as [|p|p]; [done| |];
    destruct shl_align; by apply round_aux_narrow.
Qed.
Lemma mul_narrow x y : narrow (Num.mul x y).
Proof. destruct x, y; try done. by apply round_aux_narrow. Qed.
Lemma div_narrow x y : narrow (Num.div x y).
Proof.
  destruct x as [| | |s m e], y as [| | |s' m' e']; try done. unfold Num.div, SFdiv, SFdiv_core_binary.
  set (mm := match _ with Z0 => _ | _ => _ end).
  assert (0 ≤ mm)%Z as Hmm.
  { unfold mm. destruct (_ - _ - _)%Z; [lia| |lia]. apply Z.shiftl_nonneg. lia. }
  pose proof (Z.div_pos mm (Z.pos m') Hmm ltac:(lia)) as Hq. unfold Z.div in Hq.
  destruct (Z.div_eucl mm (Z.pos m')) as [q r]. by apply round_aux_narrow.
Qed.
Lemma sub_narrow x y : narrow x → narrow y → narrow (Num.sub x y).
Proof.
  intros Hx Hy. destruct x as [[]|[]| |], y as [[]|[]| |]; try done.
  cbn. unfold binary_normalize, binary_round. destruct (_ - _)%Z; [done| |]; destruct shl_align;
    by apply round_aux_narrow.
Qed.

(** ** A product that is at most [B] is not rounded past it *)

(** A non-negative number of value at most [B], with its fraction bits. *)
Definition at_most (B : Z) (x : number) : Prop :=
  match x with
  | S754_zero _ => True
  | S754_finite false m e => (e ≤ -3)%Z ∧ (Z.pos m ≤ B * 2 ^ (- e))%Z
  | _ => False
  end.

Lemma pow_split a b : (0 ≤ a)%Z → (0 ≤ b)%Z → (2 ^ (a + b) = 2 ^ a * 2 ^ b)%Z.
Proof. apply Z.pow_add_r. Qed.

(** Where the exponent goes when a value below [2^50] is fitted. *)
Lemma dropped_exponent m e B : (0 ≤ m)%Z → (e ≤ -3)%Z → (0 < B < 2 ^ 50)%Z → (m ≤ B * 2 ^ (- e))%Z →
  (e + dropped m e ≤ -3)%Z.
Proof.
  intros Hm He HB Hle. unfold dropped, fexp, emin.
  destruct (decide (m = 0%Z)) as [->|]; [cbn [Zdigits2]; lia|].
  assert (Zdigits2 m ≤ 50 - e)%Z; [|lia].
  apply Zdigits2_le; [lia..|]. apply (Z.le_lt_trans _ _ _ Hle).
  replace (50 - e)%Z with (50 + (- e))%Z by lia. rewrite pow_split by lia.
  apply Z.mul_lt_mono_pos_r; lia.
Qed.

Lemma scaled_div m B e k : (0 ≤ k)%Z → (e + k ≤ 0)%Z → (m ≤ B * 2 ^ (- e))%Z →
  (m / 2 ^ k ≤ B * 2 ^ (- (e + k)))%Z
  ∧ (m / 2 ^ k = B * 2 ^ (- (e + k)) → m mod 2 ^ k = 0)%Z.
Proof.
  intros Hk He Hm. replace (- e)%Z with (- (e + k) + k)%Z in Hm by lia. rewrite pow_split in Hm by lia.
  set (N := (B * 2 ^ (- (e + k)))%Z). assert (m ≤ N * 2 ^ k)%Z as HN by (unfold N; lia).
  assert (0 < 2 ^ k)%Z by lia. pose proof (Z.div_mod m (2 ^ k)). pose proof (Z.mod_pos_bound m (2 ^ k)).
  split; [apply Z.div_le_upper_bound; lia|]. intros Heq. nia.
Qed.

Lemma round_aux_at_most m e B : (0 ≤ m)%Z → (e ≤ -3)%Z → (0 < B < 2 ^ 50)%Z → (m ≤ B * 2 ^ (- e))%Z →
  at_most B (binary_round_aux 53 1024 false m e loc_Exact).
Proof.
  intros Hm He HB Hle. unfold binary_round_aux.
  destruct (shr_fexp_spec m e Hm) as (r1 & -> & Hr1 & Hx1).
  pose proof (dropped_exponent m e B Hm He HB Hle) as He1.
  assert (0 ≤ dropped m e)%Z as Hk1 by (unfold dropped; lia).
  destruct (scaled_div m B e (dropped m e)) as [Hle1 Heq1]; [lia..|].
  set (e1 := (e + dropped m e)%Z) in *. rewrite <- Hr1 in Hle1, Heq1.
  set (m1 := round_nearest_even _ _).
  assert (0 ≤ m1 ≤ B * 2 ^ (- e1))%Z as [Hm1 Hle2].
  { assert (0 ≤ shr_m r1)%Z by (rewrite Hr1; apply Z.div_pos; lia).
    pose proof (round_even_range (shr_m r1) (loc_of_shr_record r1)) as Hrr.
    change (round_nearest_even (shr_m r1) (loc_of_shr_record r1)) with m1 in Hrr.
    destruct (Z.eq_dec (shr_m r1) (B * 2 ^ (- e1))) as [Heq|]; [|lia].
    unfold m1. rewrite Hx1 by auto. cbn. lia. }
  destruct (shr_fexp_spec m1 e1 Hm1) as (r2 & -> & Hr2 & _).
  pose proof (dropped_exponent m1 e1 B Hm1 He1 HB Hle2) as He2.
  assert (0 ≤ dropped m1 e1)%Z by (unfold dropped; lia).
  destruct (scaled_div m1 B e1 (dropped m1 e1)) as [Hle3 _]; [lia..|]. rewrite <- Hr2 in Hle3.
  assert (0 ≤ shr_m r2)%Z by (rewrite Hr2; apply Z.div_pos; lia).
  destruct (shr_m r2) as [|p|p]; [done| |lia].
  destruct (Z.leb_spec (e1 + dropped m1 e1) (1024 - 53)); [|lia]. split; lia.
Qed.

Lemma between_at_most b x : (0 < b < 2 ^ 50)%Z → narrow x → Num.leb Num.zero x = true →
  Num.leb x (Num.of_Z b) = true → at_most b x.
Proof.
  intros Hb Hn H0 H1. destruct (Num.of_Z_form b) as (mb & Hof & Hmb); [lia|]. rewrite Hof in H1.
  pose proof (Num.digits2_bounds (Z.to_pos b)) as [Dlo Dhi]. rewrite Z2Pos.id in Dlo, Dhi by lia.
  set (d := Z.pos (digits2_pos (Z.to_pos b))) in *.
  assert (d ≤ 50)%Z as Hd.
  { destruct (Z.le_gt_cases d 50) as [|Hg]; [done|].
    assert (2 ^ 50 ≤ 2 ^ (d - 1))%Z by (apply Z.pow_le_mono_r; lia). lia. }
  destruct x as [s|[]| |[] m e]; try done. cbn in Hn.
  unfold Num.leb, SFleb in H1. cbn [SFcompare] in H1.
  assert (2 ^ 52 ≤ b * 2 ^ (53 - d))%Z as Hlow.
  { replace 52%Z with ((d - 1) + (53 - d))%Z by lia. rewrite pow_split by lia. apply Z.mul_le_mono_nonneg_r; lia. }
  cbn. destruct (Z.compare_spec e (d - 53)) as [->|He|He]; [| |done].
  - split; [lia|]. replace (- (d - 53))%Z with (53 - d)%Z by lia. rewrite <- Hmb.
    fold (Pos.compare m mb) in H1. change (Pos.compare_cont Eq m mb) with (Pos.compare m mb) in H1.
    destruct (Pos.compare_spec m mb); [lia|lia|done].
  - split; [lia|]. replace (- e)%Z with ((53 - d) + (d - 53 - e))%Z by lia. rewrite pow_split, Z.mul_assoc by lia.
    assert (2 ^ 1 ≤ 2 ^ (d - 53 - e))%Z by (apply Z.pow_le_mono_r; lia). nia.
Qed.

Lemma mul_at_most b c x : (0 < b)%Z → (0 < c)%Z → (b * c < 2 ^ 50)%Z → at_most b x →
  at_most (b * c) (Num.mul x (Num.of_Z c)).
Proof.
  intros Hb Hc Hbc Hx. destruct (Num.of_Z_form c) as (mc & -> & Hmc); [nia|].
  pose proof (Num.digits2_bounds (Z.to_pos c)) as [Dlo _]. rewrite Z2Pos.id in Dlo by lia.
  set (d := Z.pos (digits2_pos (Z.to_pos c))) in *.
  assert (d ≤ 50)%Z as Hd.
  { destruct (Z.le_gt_cases d 50) as [|Hg]; [done|].
    assert (2 ^ 50 ≤ 2 ^ (d - 1))%Z by (apply Z.pow_le_mono_r; lia). nia. }
  destruct x as [s|[]| |[] m e]; try done. destruct Hx as [He Hm]. cbn [Num.mul SFmul xorb].
  unfold Num.mul. cbn [SFmul xorb]. apply round_aux_at_most; [lia|lia|nia|].
  rewrite Pos2Z.inj_mul, Hmc. replace (- (e + (d - 53)))%Z with (- e + (53 - d))%Z by lia.
  rewrite pow_split by lia.
  replace (b * c * (2 ^ (- e) * 2 ^ (53 - d)))%Z with (b * 2 ^ (- e) * (c * 2 ^ (53 - d)))%Z by ring.
  apply Z.mul_le_mono_nonneg_r; [|done]. apply Z.mul_nonneg_nonneg; lia.
Qed.

(** [Math.round] of such a number is one of the integers up to the bound. *)
Lemma round_at_most b x : (0 < b)%Z → at_most b x →
  ∃ n, (0 ≤ n ≤ b)%Z ∧ (Math.round x = Num.of_Z n ∨ n = 0%Z ∧ ∃ s, Math.round x = S754_zero s).
Proof.
  intros Hb Hx. destruct x as [s|[]| |[] m e]; try done.
  { exists 0%Z. split; [lia|]. right. split; [done|]. by exists s. }
  destruct Hx as [He Hm]. unfold Math.round. destruct (Z.leb_spec 0 e); [lia|].
  set (n := ((Z.pos m * 2 + 2 ^ (- e)) / 2 ^ (1 - e))%Z).
  assert (0 ≤ n ≤ b)%Z as Hn.
  { unfold n. replace (1 - e)%Z with (1 + - e)%Z by lia. rewrite pow_split by lia.
    assert (0 < 2 ^ (- e))%Z by lia. split; [apply Z.div_pos; lia|].
    apply Z.lt_succ_r, Z.div_lt_upper_bound; [lia|]. nia. }
  exists n. split; [done|]. destruct (Z.eqb_spec n 0) as [->|]; [right; split; [done|by eexists]|by left].
Qed.
