(* ===== verification/Models.v ===== *)
(** * Documents, the environment and the world

    The documents of [src/src/models/], the configuration and third-party
    functions every component reads ([Env]), and the [World]: the database
    collections, the Redis locks and the clock. *)
From S2P Require Import Prelude JsLib.

(** ** Enumerations *)
Module DeliveryStatus.
Inductive t := PENDING | FUNDED | ASSIGNED | IN_PROGRESS | COMPLETED | CANCELLED.
#[global] Instance eq_dec : EqDecision t.
Proof. solve_decision. Defined.
Definition to_string (s : t) : string :=
  match s with
  | PENDING => "pending" | FUNDED => "funded" | ASSIGNED => "assigned"
  | IN_PROGRESS => "in_progress" | COMPLETED => "completed"
  | CANCELLED => "cancelled"
  end.
(** [Object.values(DeliveryStatus)]. *)
Definition values : list t :=
  [PENDING; FUNDED; ASSIGNED; IN_PROGRESS; COMPLETED; CANCELLED].
Definition of_string (s : string) : option t :=
  list_find (λ v, to_string v = s) values ≫= λ p, Some p.2.
End DeliveryStatus.

Module EscrowStatus.
Inductive t :=
  PENDING | LOCKED | RELEASED | REFUNDED | DISPUTED | EXPIRED | RESOLVED.
#[global] Instance eq_dec : EqDecision t.
Proof. solve_decision. Defined.
Definition to_string (s : t) : string :=
  match s with
  | PENDING => "pending" | LOCKED => "locked" | RELEASED => "released"
  | REFUNDED => "refunded" | DISPUTED => "disputed" | EXPIRED => "expired"
  | RESOLVED => "resolved"
  end.
End EscrowStatus.

(** [FUNDS_HELD_STATUSES] and [TERMINAL_STATUSES] of the escrow model. *)
Definition FUNDS_HELD_STATUSES : list EscrowStatus.t :=
  [EscrowStatus.LOCKED; EscrowStatus.DISPUTED].
Definition TERMINAL_STATUSES : list EscrowStatus.t :=
  [EscrowStatus.RELEASED; EscrowStatus.REFUNDED; EscrowStatus.RESOLVED].

Module DeliveryMilestone.
Inductive t :=
  CREATED | FUNDED | ASSIGNED | IN_PROGRESS | COMPLETED | CANCELLED
  | FUNDING_WINDOW_LAPSED.
#[global] Instance eq_dec : EqDecision t.
Proof. solve_decision. Defined.
End DeliveryMilestone.

Definition MILESTONE_BY_STATUS (s : DeliveryStatus.t) : DeliveryMilestone.t :=
  match s with
  | DeliveryStatus.PENDING => DeliveryMilestone.CREATED
  | DeliveryStatus.FUNDED => DeliveryMilestone.FUNDED
  | DeliveryStatus.ASSIGNED => DeliveryMilestone.ASSIGNED
  | DeliveryStatus.IN_PROGRESS => DeliveryMilestone.IN_PROGRESS
  | DeliveryStatus.COMPLETED => DeliveryMilestone.COMPLETED
  | DeliveryStatus.CANCELLED => DeliveryMilestone.CANCELLED
  end.

(** ** Assets *)
Record Asset := mkAsset { code : string; issuer : option string }.
#[export] Instance Asset_eq_dec : EqDecision Asset.
Proof. solve_decision. Defined.

(** ** Escrows ([models/Escrow.ts]) *)
Inductive EscrowTransactionType := fund | release | refund.
#[export] Instance EscrowTransactionType_eq_dec : EqDecision EscrowTransactionType.
Proof. solve_decision. Defined.

Record EscrowTransaction := mkEscrowTransaction {
  hash : string;
  tx_type : EscrowTransactionType;
  tx_ledger : option number;
  recordedAt : Z
}.

Record Escrow := mkEscrow {
  delivery : string;
  e_status : EscrowStatus.t;
  amount : number;
  assetCode : string;
  assetIssuer : option string;
  e_contractId : option string;
  payerAddress : option string;
  releaseTransactionHash : option string;
  refundTransactionHash : option string;
  lockedAt : option Z;
  releasedAt : option Z;
  refundedAt : option Z;
  lastSyncedLedger : option number;
  expiresAt : option Z;
  expiredAt : option Z;
  flaggedAt : option Z;
  flaggedLedger : option Z;
  resolvedAt : option Z;
  resolvedBy : option string;
  resolutionNotes : option string;
  transactions : list EscrowTransaction;
  e_updatedAt : Z
}.
#[export] Instance Escrow_eta : Settable Escrow := λ e,
  mkEscrow e.(delivery) e.(e_status) e.(amount) e.(assetCode) e.(assetIssuer)
    e.(e_contractId) e.(payerAddress) e.(releaseTransactionHash)
    e.(refundTransactionHash) e.(lockedAt) e.(releasedAt) e.(refundedAt)
    e.(lastSyncedLedger) e.(expiresAt) e.(expiredAt) e.(flaggedAt)
    e.(flaggedLedger) e.(resolvedAt) e.(resolvedBy) e.(resolutionNotes)
    e.(transactions) e.(e_updatedAt).

Definition isFundsLocked (e : Escrow) : bool := includes e.(e_status) FUNDS_HELD_STATUSES.
Definition isSettled (e : Escrow) : bool := includes e.(e_status) TERMINAL_STATUSES.

(** ** Deliveries ([models/Delivery.ts]) *)
Record ProofOfDelivery := mkProofOfDelivery {
  storageKey : string;
  imageUrl : string;
  p_storageDriver : string;
  mimeType : string;
  sizeBytes : Z;
  uploadedBy : string;
  uploadedAt : Z
}.

Record Delivery := mkDelivery {
  deliveryId : option string;
  driverId : option string;
  driver : option string;
  userId : option string;
  sender : option string;
  d_recipient : option string;
  d_contractId : option string;
  trackingNumber : option string;
  customer : json;
  pickup : json;
  dropoff : json;
  package : json;
  deliveryFee : option number;
  deliveryFeeAsset : option Asset;
  escrowAmount : option number;
  escrowAsset : option Asset;
  fundBy : option Z;
  cancellationReason : option string;
  notes : option string;
  status : DeliveryStatus.t;
  estimatedDistance : option number;
  estimatedDuration : option number;
  stellarTransactionId : option string;
  proofOfDelivery : option ProofOfDelivery;
  isDeleted : bool;
  deletedAt : option Z;
  deletedBy : option string;
  d_createdAt : Z;
  d_updatedAt : Z
}.
#[export] Instance Delivery_eta : Settable Delivery := λ d,
  mkDelivery d.(deliveryId) d.(driverId) d.(driver) d.(userId) d.(sender) d.(d_recipient)
    d.(d_contractId) d.(trackingNumber) d.(customer) d.(pickup) d.(dropoff)
    d.(package) d.(deliveryFee) d.(deliveryFeeAsset) d.(escrowAmount)
    d.(escrowAsset) d.(fundBy) d.(cancellationReason) d.(notes) d.(status)
    d.(estimatedDistance) d.(estimatedDuration) d.(stellarTransactionId)
    d.(proofOfDelivery) d.(isDeleted) d.(deletedAt) d.(deletedBy)
    d.(d_createdAt) d.(d_updatedAt).

(** ** The milestone log ([models/DeliveryEvent.ts]) *)
Inductive ActorType := user | system | indexer.
Record MilestoneActor := mkActor { actor_type : ActorType; actor_id : option string }.
Definition system_actor : MilestoneActor := mkActor system None.

Record DeliveryEvent := mkDeliveryEvent {
  ev_delivery : string;
  event : DeliveryMilestone.t;
  fromStatus : option DeliveryStatus.t;
  toStatus : DeliveryStatus.t;
  payload : list (string * json);
  actor : MilestoneActor;
  occurredAt : Z;
  seq : Z
}.

(** ** The audit log ([models/AuditLog.ts]) *)
Record AuditLog := mkAuditLog {
  a_action : string;
  a_actor : option string;
  a_targetType : string;
  a_targetId : string;
  a_description : string;
  a_meta : list (string * json);
  a_createdAt : Z
}.

(** ** The indexer's event log, checkpoints and dead letters *)
Module EventLogStatus.
Inductive t := pending | processed | failed.
#[global] Instance eq_dec : EqDecision t.
Proof. solve_decision. Defined.
Definition to_string (s : t) : string :=
  match s with pending => "pending" | processed => "processed" | failed => "failed" end.
End EventLogStatus.

(** The domains of indexed events. *)
Inductive IndexedEventType :=
  | ev_delivery_type | ev_escrow_type | ev_dispute_type | ev_reputation_type | ev_milestone_type.
#[export] Instance IndexedEventType_eq_dec : EqDecision IndexedEventType.
Proof. solve_decision. Defined.
Definition eventType_string (t : IndexedEventType) : string :=
  match t with
  | ev_delivery_type => "delivery" | ev_escrow_type => "escrow" | ev_dispute_type => "dispute"
  | ev_reputation_type => "reputation" | ev_milestone_type => "milestone"
  end.

(** [eventData] keeps a reference to the on-chain event. *)
Record EventData := mkEventData { eventId : string; ledgerClosedAt : string }.

Record EventLog := mkEventLog {
  eventType : IndexedEventType;
  transactionHash : string;
  ledgerSequence : Z;
  l_contractId : option string;
  eventData : option EventData;
  processedAt : option Z;
  l_status : EventLogStatus.t;
  errorMessage : option string;
  retries : Z;
  lastError : option string;
  nextRetryAt : option Z;
  deadLetteredAt : option Z;
  l_createdAt : Z;
  l_updatedAt : Z
}.
#[export] Instance EventLog_eta : Settable EventLog := λ l,
  mkEventLog l.(eventType) l.(transactionHash) l.(ledgerSequence) l.(l_contractId)
    l.(eventData) l.(processedAt) l.(l_status) l.(errorMessage) l.(retries)
    l.(lastError) l.(nextRetryAt) l.(deadLetteredAt) l.(l_createdAt) l.(l_updatedAt).

Module DlqStatus.
Inductive t := PENDING | RETRIED | RESOLVED.
#[global] Instance eq_dec : EqDecision t.
Proof. solve_decision. Defined.
End DlqStatus.

(** The payload of a dead letter: an escalated event, or anything else (the
    input of an escrow-lock submission). *)
Record EventLogDlqPayload := mkEventLogDlqPayload {
  eventLogId : string;
  p_eventType : IndexedEventType;
  p_transactionHash : string;
  p_ledgerSequence : Z
}.
Inductive DlqPayload :=
  | eventlog_payload (p : EventLogDlqPayload)
  | other_payload (input : json).

Record DlqEntry := mkDlqEntry {
  dlq_payload : DlqPayload;
  errorReason : string;
  retryCount : Z;
  dlq_status : DlqStatus.t;
  dlq_createdAt : Z;
  dlq_updatedAt : Z
}.
#[export] Instance DlqEntry_eta : Settable DlqEntry := λ x,
  mkDlqEntry x.(dlq_payload) x.(errorReason) x.(retryCount) x.(dlq_status)
    x.(dlq_createdAt) x.(dlq_updatedAt).

(** ** Messages handed to a transport *)
Inductive outbound :=
  | SocketStatusUpdated (sk_delivery : string) (sk_status : DeliveryStatus.t)
      (sk_event : DeliveryMilestone.t) (sk_seq : option Z).

(** ** The world *)
Record World := mkWorld {
  now_ms : Z;
  nextId : nat;
  deliveries : gmap string Delivery;
  escrows : gmap string Escrow;
  deliveryEvents : list DeliveryEvent;
  auditLogs : list AuditLog;
  redisLocks : gmap string nat;
  eventLogs : gmap string EventLog;
  checkpoints : gmap string Z;
  dlqEntries : gmap string DlqEntry;
  sent : list outbound
}.
#[export] Instance World_eta : Settable World := λ w,
  mkWorld w.(now_ms) w.(nextId) w.(deliveries) w.(escrows) w.(deliveryEvents)
    w.(auditLogs) w.(redisLocks) w.(eventLogs) w.(checkpoints) w.(dlqEntries)
    w.(sent).

Definition empty_world (now : Z) : World :=
  mkWorld now 0 ∅ ∅ [] [] ∅ ∅ ∅ ∅ [].

(** ** Configuration and third-party functions *)
Class Env := {
  (** [Types.ObjectId.isValid] of the database driver, and its id generator. *)
  isValidObjectId : string → bool;
  newObjectId : nat → string;
  ESCROW_LOCK_TTL_SECONDS : Z;
  ESCROW_FUNDING_WINDOW_SECONDS : Z;
  USDC_ASSET_ISSUER : option string;
  NATIVE_TOKEN_CODE : option string;
  NATIVE_TOKEN_ISSUER : option string;
  PROOF_OF_DELIVERY_MAX_SIZE_MB : Z;
  UPLOAD_STORAGE_DRIVER : string;
  REDIS_LOCK_RETRY_COUNT : nat;
  (** The message of the lock library when a lock stays taken. *)
  REDLOCK_QUORUM_ERROR : string;
  EVENTLOG_RETRY_BASE_MS : Z;
  EVENTLOG_RETRY_MAX_MS : Z;
  EVENTLOG_RETRY_MAX_ATTEMPTS : Z;
  EVENTLOG_RETRY_BATCH_SIZE : Z;
  ESCROW_CONTRACT_ID : string;
  ESCROW_FUNDED_EVENT_TOPIC : string;
  STELLAR_NETWORK : string;
  (** What the Soroban RPC node answers to [getLatestLedger] at a time: an
      error, no ledger (the circuit breaker's degraded result) or a ledger. *)
  getLatestLedger : Z → error + option Z
}.

Abbreviation action := (prog World).

(** [new Date()] and [Date.now()]. *)
Definition now : action Z := reads now_ms.

Lemma run_now w : run now w = (inr (now_ms w), w).
Proof. done. Qed.
#[export] Hint Rewrite run_now : prog.

(** [AuditLog.create]. *)
Definition createAuditLog (l : Z → AuditLog) : action unit :=
  writes (λ w, w <| auditLogs ::= (.++ [l w.(now_ms)]) |>).

(** A fresh document id. *)
Definition fresh_id `{Env} : action string :=
  atomic (λ w, (newObjectId w.(nextId), w <| nextId ::= S |>)).

(** A concrete environment, for the witnesses. *)
Module ExampleEnv.
#[export] Instance env : Env := {|
  isValidObjectId s := Nat.eqb (String.length s) 24;
  newObjectId n := "64b7f0c2a1d3e4f5" +:+ Str.padStart 8 (pretty n);
  ESCROW_LOCK_TTL_SECONDS := 86400;
  ESCROW_FUNDING_WINDOW_SECONDS := 86400;
  USDC_ASSET_ISSUER := Some "GA5ZSEJYB37JRC5AVCIA5MOP4RHTM335X2KGX3IHOJAPP5RE34K4KZVN";
  NATIVE_TOKEN_CODE := None;
  NATIVE_TOKEN_ISSUER := None;
  PROOF_OF_DELIVERY_MAX_SIZE_MB := 5;
  UPLOAD_STORAGE_DRIVER := "local";
  REDIS_LOCK_RETRY_COUNT := 3%nat;
  REDLOCK_QUORUM_ERROR := "The operation was unable to achieve a quorum during its retry window.";
  EVENTLOG_RETRY_BASE_MS := 60000;
  EVENTLOG_RETRY_MAX_MS := 3600000;
  EVENTLOG_RETRY_MAX_ATTEMPTS := 5;
  EVENTLOG_RETRY_BATCH_SIZE := 25;
  ESCROW_CONTRACT_ID := "CESCROW";
  ESCROW_FUNDED_EVENT_TOPIC := "escrow_funded";
  STELLAR_NETWORK := "testnet";
  getLatestLedger _ := inr (Some 1000%Z)
|}.
End ExampleEnv.
