(* ===== verification/Repositories.v ===== *)
(** * Persistence gateways

    The operations of [src/src/repositories/] (and of the Mongoose models the
    services call directly) on the collections of the [World], with the unique
    indexes the schemas of [src/src/models/] declare. *)
From S2P Require Import Prelude JsLib Models.

(** ** The [Escrow] collection *)
Module EscrowRepository.
Definition hashes (e : Escrow) : list string := hash <$> e.(transactions).

(** The unique indexes of [EscrowSchema]: on [delivery], on [contractId]
    (sparse) and on [transactions.hash] across documents. *)
Definition clash (e1 e2 : Escrow) : bool :=
  String.eqb e1.(delivery) e2.(delivery)
  || (match e1.(e_contractId) with
      | Some c => bool_decide (e2.(e_contractId) = Some c)
      | None => false
      end)
  || some (λ h, includes h (hashes e2)) (hashes e1).

Definition conflicts (id : string) (e : Escrow) (m : gmap string Escrow) : bool :=
  some (λ kv, negb (String.eqb kv.1 id) && clash e kv.2) (map_to_list m).

(** Write a document, stamping [updatedAt], unless an index rejects it. *)
Definition store (id : string) (e : Escrow) (w : World)
    : (error + hydrated Escrow) * World :=
  if conflicts id e w.(escrows) then (inl DuplicateKey, w)
  else let e' := e <| e_updatedAt := w.(now_ms) |> in
       (inr (Doc id e'), w <| escrows ::= <[id := e']> |>).

Definition find_and_update (sel : gmap string Escrow → option (hydrated Escrow))
    (f : Escrow → Escrow) (w : World) : (error + option (hydrated Escrow)) * World :=
  match sel w.(escrows) with
  | None => (inr None, w)
  | Some d =>
      match store (_id d) (f (body d)) w with
      | (inl e, w') => (inl e, w')
      | (inr d', w') => (inr (Some d'), w')
      end
  end.

Section Ops.
Context `{Env}.

Definition model_findById (id : string) : action (option (hydrated Escrow)) :=
  reads (λ w, find_by_id id w.(escrows)).
Definition findOne (P : Escrow → bool) : action (option (hydrated Escrow)) :=
  reads (λ w, find_one P w.(escrows)).
Definition find (P : Escrow → bool) : action (list (hydrated Escrow)) :=
  reads (λ w, find_all P w.(escrows)).

Definition findByDeliveryId (did : string) : action (option (hydrated Escrow)) :=
  if isValidObjectId did then findOne (λ e, String.eqb e.(delivery) did)
  else mret None.
Definition findByContractId (c : string) : action (option (hydrated Escrow)) :=
  findOne (λ e, bool_decide (e.(e_contractId) = Some c)).

Definition updateById (id : string) (f : Escrow → Escrow)
    : action (option (hydrated Escrow)) :=
  if isValidObjectId id then atomic_try (find_and_update (find_by_id id) f)
  else mret None.

(** [model.findOneAndUpdate] with a filter that may use the id. *)
Definition findOneAndUpdate (P : hydrated Escrow → bool) (f : Escrow → Escrow)
    : action (option (hydrated Escrow)) :=
  atomic_try (find_and_update
    (λ m, head (filter (λ d, P d = true) (find_all (λ _, true) m))) f).

Definition create (e : Escrow) : action (hydrated Escrow) :=
  id ← fresh_id;
  atomic_try (λ w, match w.(escrows) !! id with
                   | Some _ => (inl DuplicateKey, w)
                   | None => store id e w
                   end).

(** [doc.save()] of a document [d] that was read and then changed by [f]:
    only the changed fields are written; the caller keeps its own copy. *)
Definition save (d : hydrated Escrow) (f : Escrow → Escrow) : action (hydrated Escrow) :=
  atomic_try (λ w,
    match w.(escrows) !! _id d with
    | None => (inl (PlainError "No document found for query"), w)
    | Some e =>
        match store (_id d) (f e) w with
        | (inl e', w') => (inl e', w')
        | (inr _, w') => (inr (Doc (_id d) (f (body d) <| e_updatedAt := w.(now_ms) |>)), w')
        end
    end).

(** [Escrow.updateMany]. *)
Definition updateMany (U : string → Escrow → bool) (f : Escrow → Escrow) : action unit :=
  writes (λ w, w <| escrows ::= update_many U
                      (λ e, f e <| e_updatedAt := w.(now_ms) |>) |>).
End Ops.

Lemma run_escrow_findById `{Env} id w :
  run (model_findById id) w = (inr (Doc id <$> escrows w !! id), w).
Proof. done. Qed.

(** The indexes hold of a collection: no two documents clash. *)
Definition indexed (m : gmap string Escrow) : Prop :=
  ∀ k1 e1 k2 e2, m !! k1 = Some e1 → m !! k2 = Some e2 → k1 ≠ k2 →
    clash e1 e2 = false.

Lemma clash_false e1 e2 :
  clash e1 e2 = false ↔
  delivery e1 ≠ delivery e2 ∧
  (∀ c, e_contractId e1 = Some c → e_contractId e2 ≠ Some c) ∧
  (∀ h, h ∈ hashes e1 → h ∉ hashes e2).
Proof.
  unfold clash. rewrite !orb_false_iff, String.eqb_neq, some_false. split.
  - intros [[Hd Hc] Hh]. split; [done|]. split.
    + intros c Hc1. rewrite Hc1 in Hc. by apply bool_decide_eq_false in Hc.
    + intros h Hh1. specialize (Hh h Hh1). by apply bool_decide_eq_false in Hh.
  - intros (Hd & Hc & Hh). repeat split; [done| |].
    + destruct (e_contractId e1); [|done]. apply bool_decide_eq_false. auto.
    + intros h Hh1. apply bool_decide_eq_false. auto.
Qed.

Lemma clash_sym e1 e2 : clash e1 e2 = false → clash e2 e1 = false.
Proof.
  rewrite !clash_false. intros (? & Hc & Hh). repeat split; [by auto| |].
  - intros c H1 H2. by eapply Hc.
  - intros h H1 H2. by eapply Hh.
Qed.

Lemma conflicts_false id e m :
  conflicts id e m = false ↔
  ∀ k e', m !! k = Some e' → k ≠ id → clash e e' = false.
Proof.
  unfold conflicts. rewrite some_false. split.
  - intros Hs k e' Hk Hne. specialize (Hs (k, e')). cbn in Hs.
    apply String.eqb_neq in Hne. rewrite Hne in Hs. apply Hs.
    by apply elem_of_map_to_list.
  - intros Hs [k e'] Hk%elem_of_map_to_list. cbn.
    destruct (String.eqb_spec k id); [done|]. by apply (Hs k).
Qed.

Lemma indexed_insert id e m :
  indexed m → conflicts id e m = false → indexed (<[id := e]> m).
Proof.
  intros Hm Hc k1 e1 k2 e2 H1 H2 Hne. rewrite conflicts_false in Hc.
  destruct (decide (id = k1)) as [<-|]; destruct (decide (id = k2)) as [<-|];
    simplify_map_eq; eauto using clash_sym.
Qed.

Lemma clash_updatedAt e1 e2 t : clash (e1 <| e_updatedAt := t |>) e2 = clash e1 e2.
Proof. done. Qed.

Lemma conflicts_updatedAt id e t m :
  conflicts id (e <| e_updatedAt := t |>) m = conflicts id e m.
Proof. done. Qed.

Lemma store_inv id e w r w' :
  store id e w = (r, w') →
  (r = inl DuplicateKey ∧ w' = w ∧ conflicts id e (escrows w) = true) ∨
  (∃ e', e' = e <| e_updatedAt := now_ms w |> ∧ r = inr (Doc id e') ∧
     w' = w <| escrows ::= <[id := e']> |> ∧ conflicts id e (escrows w) = false).
Proof.
  unfold store. destruct (conflicts _ _ _) eqn:Hc; intros [= <- <-]; [by left|].
  right. by eexists.
Qed.

Lemma store_indexed id e w r w' :
  store id e w = (r, w') → indexed (escrows w) → indexed (escrows w').
Proof.
  intros [(_ & -> & _)|(e' & -> & _ & -> & Hc)]%store_inv Hm; [done|].
  by apply indexed_insert.
Qed.

Lemma run_escrow_save_inv `{Env} d f w r w' :
  run (save d f) w = (r, w') →
  (∃ er, r = inl er ∧ w' = w) ∨
  (∃ e, escrows w !! _id d = Some e ∧ conflicts (_id d) (f e) (escrows w) = false ∧
     r = inr (Doc (_id d) (f (body d) <| e_updatedAt := now_ms w |>)) ∧
     w' = w <| escrows ::= <[_id d := f e <| e_updatedAt := now_ms w |>]> |>).
Proof.
  unfold save. rewrite run_atomic_try. destruct (escrows w !! _id d) as [e|] eqn:He.
  2: { intros [= <- <-]. left. by eexists. }
  destruct (store _ _ w) as [[er|d'] w1] eqn:Hs; apply store_inv in Hs
    as [(Hr & -> & Hc)|(e' & -> & Hr & -> & Hc)]; simplify_eq; intros [= <- <-].
  - left. by eexists.
  - right. by exists e.
Qed.

Lemma run_updateById_inv `{Env} id f w r w' :
  run (updateById id f) w = (r, w') →
  (∃ er, r = inl er ∧ w' = w) ∨ (r = inr None ∧ w' = w) ∨
  (∃ e, escrows w !! id = Some e ∧ conflicts id (f e) (escrows w) = false ∧
     r = inr (Some (Doc id (f e <| e_updatedAt := now_ms w |>))) ∧
     w' = w <| escrows ::= <[id := f e <| e_updatedAt := now_ms w |>]> |>).
Proof.
  unfold updateById. destruct (isValidObjectId id); [|intros [= <- <-]; by right; left].
  rewrite run_atomic_try. unfold find_and_update, find_by_id.
  destruct (escrows w !! id) as [e|] eqn:He; cbn [fmap option_fmap option_map];
    [|intros [= <- <-]; by right; left]. cbn [_id body].
  destruct (store _ _ w) as [[er|d'] w1] eqn:Hs; apply store_inv in Hs
    as [(Hr & -> & Hc)|(e' & -> & Hr & -> & Hc)]; simplify_eq; intros [= <- <-].
  - left. by eexists.
  - right; right. by exists e.
Qed.

Lemma run_escrow_create_inv `{Env} e w r w' :
  run (create e) w = (r, w') →
  let w1 := w <| nextId ::= S |> in
  (∃ er, r = inl er ∧ w' = w1) ∨
  (∃ id, escrows w !! id = None ∧ conflicts id e (escrows w) = false ∧
     r = inr (Doc id (e <| e_updatedAt := now_ms w |>)) ∧
     w' = w1 <| escrows ::= <[id := e <| e_updatedAt := now_ms w |>]> |>).
Proof.
  unfold create, fresh_id. rewrite run_bind, run_atomic. cbn [fst snd].
  rewrite run_atomic_try. change (escrows (w <| nextId ::= S |>)) with (escrows w).
  destruct (escrows w !! _) eqn:Hid; [intros [= <- <-]; left; by eexists|].
  destruct (store _ _ _) as [[er|d'] w1] eqn:Hs; apply store_inv in Hs
    as [(Hr & -> & Hc)|(e' & -> & Hr & -> & Hc)]; simplify_eq; intros [= <- <-].
  - left. by eexists.
  - right. by eexists.
Qed.
End EscrowRepository.

(** ** The [Delivery] collection *)
Module DeliveryRepository.
(** The unique sparse indexes on [trackingNumber] and [deliveryId]. *)
Definition clash (d1 d2 : Delivery) : bool :=
  (match d1.(trackingNumber) with
   | Some t => bool_decide (d2.(trackingNumber) = Some t)
   | None => false
   end)
  || (match d1.(deliveryId) with
      | Some t => bool_decide (d2.(deliveryId) = Some t)
      | None => false
      end).

(** Replace the fields of the selected document; [f] does not touch an
    indexed field, so no index can reject the update. *)
Definition find_and_update (sel : gmap string Delivery → option (hydrated Delivery))
    (f : Delivery → Delivery) (w : World) : option (hydrated Delivery) * World :=
  match sel w.(deliveries) with
  | None => (None, w)
  | Some d =>
      let d' := f (body d) <| d_updatedAt := w.(now_ms) |> in
      (Some (Doc (_id d) d'), w <| deliveries ::= <[_id d := d']> |>)
  end.

Definition by_id_if (id : string) (P : Delivery → bool) (m : gmap string Delivery)
    : option (hydrated Delivery) :=
  d ← find_by_id id m; if P (body d) then Some d else None.

Section Ops.
Context `{Env}.

Definition model_findById (id : string) : action (option (hydrated Delivery)) :=
  reads (λ w, find_by_id id w.(deliveries)).
Definition findById (id : string) : action (option (hydrated Delivery)) :=
  if isValidObjectId id then model_findById id else mret None.
Definition findOne (P : Delivery → bool) : action (option (hydrated Delivery)) :=
  reads (λ w, find_one P w.(deliveries)).
Definition find (P : Delivery → bool) : action (list (hydrated Delivery)) :=
  reads (λ w, find_all P w.(deliveries)).

(** [findByIdAndUpdate] of the model, and of the repository. *)
Definition findByIdAndUpdate (id : string) (f : Delivery → Delivery)
    : action (option (hydrated Delivery)) :=
  atomic (find_and_update (find_by_id id) f).
Definition updateById (id : string) (f : Delivery → Delivery)
    : action (option (hydrated Delivery)) :=
  if isValidObjectId id then findByIdAndUpdate id f else mret None.

(** [updateOne({_id: id, ...P}, f)]. *)
Definition updateOneById (id : string) (P : Delivery → bool) (f : Delivery → Delivery)
    : action (option (hydrated Delivery)) :=
  atomic (find_and_update (by_id_if id P) f).

(** The conditional status update: the expected status is in the filter. *)
Definition transitionStatus (id : string) (from to : DeliveryStatus.t)
    : action (option (hydrated Delivery)) :=
  if isValidObjectId id then
    updateOneById id (λ d, bool_decide (d.(status) = from)) (set status (λ _, to))
  else mret None.

Definition create (d : Delivery) : action (hydrated Delivery) :=
  id ← fresh_id;
  atomic_try (λ w,
    if bool_decide (is_Some (w.(deliveries) !! id))
       || some (λ kv, clash d kv.2) (map_to_list w.(deliveries))
    then (inl DuplicateKey, w)
    else let d' := d <| d_createdAt := w.(now_ms) |> <| d_updatedAt := w.(now_ms) |> in
         (inr (Doc id d'), w <| deliveries ::= <[id := d']> |>)).

(** [doc.save()] of a document [d] that was read and then changed by [f]. *)
Definition save (d : hydrated Delivery) (f : Delivery → Delivery)
    : action (hydrated Delivery) :=
  atomic_try (λ w,
    match w.(deliveries) !! _id d with
    | None => (inl (PlainError "No document found for query"), w)
    | Some d0 =>
        (inr (Doc (_id d) (f (body d) <| d_updatedAt := w.(now_ms) |>)),
         w <| deliveries ::= <[_id d := f d0 <| d_updatedAt := w.(now_ms) |>]> |>)
    end).
End Ops.

Lemma run_model_findById `{Env} id w :
  run (model_findById id) w = (inr (Doc id <$> deliveries w !! id), w).
Proof. done. Qed.

#[export] Hint Rewrite @run_model_findById : prog.

Lemma run_findByIdAndUpdate `{Env} id f d w :
  deliveries w !! id = Some d →
  let d' := f d <| d_updatedAt := now_ms w |> in
  run (findByIdAndUpdate id f) w =
    (inr (Some (Doc id d')), w <| deliveries ::= <[id := d']> |>).
Proof.
  intros Hd d'. unfold findByIdAndUpdate. rewrite run_atomic.
  unfold find_and_update, find_by_id. by rewrite Hd.
Qed.

Lemma run_save `{Env} id f d w :
  deliveries w !! id = Some d →
  let d' := f d <| d_updatedAt := now_ms w |> in
  run (save (Doc id d) f) w = (inr (Doc id d'), w <| deliveries ::= <[id := d']> |>).
Proof. intros Hd d'. unfold save. rewrite run_atomic_try. cbn. by rewrite Hd. Qed.

Lemma find_and_update_inv sel f w o w' :
  find_and_update sel f w = (o, w') →
  (o = None ∧ w' = w ∧ sel (deliveries w) = None) ∨
  (∃ d d', sel (deliveries w) = Some d ∧
     d' = f (body d) <| d_updatedAt := now_ms w |> ∧
     o = Some (Doc (_id d) d') ∧ w' = w <| deliveries ::= <[_id d := d']> |>).
Proof.
  unfold find_and_update. destruct (sel _) as [d|] eqn:Hs; intros [= <- <-]; [|by left].
  right. by exists d, (f (body d) <| d_updatedAt := now_ms w |>).
Qed.

(** The unique indexes hold of a collection. *)
Definition indexed (m : gmap string Delivery) : Prop :=
  ∀ k1 d1 k2 d2, m !! k1 = Some d1 → m !! k2 = Some d2 → k1 ≠ k2 → clash d1 d2 = false.

Lemma delivery_clash_sym d1 d2 : clash d1 d2 = clash d2 d1.
Proof.
  unfold clash. f_equal; repeat case_match; try done;
    repeat case_bool_decide; congruence.
Qed.

Lemma run_create_inv `{Env} d w r w' :
  run (create d) w = (r, w') →
  (r = inl DuplicateKey ∧ deliveries w' = deliveries w ∧ escrows w' = escrows w) ∨
  (∃ id, let d' := d <| d_createdAt := now_ms w |> <| d_updatedAt := now_ms w |> in
     r = inr (Doc id d') ∧ deliveries w !! id = None ∧
     (∀ k e, deliveries w !! k = Some e → clash d e = false) ∧
     deliveries w' = <[id := d']> (deliveries w) ∧ escrows w' = escrows w ∧
     now_ms w' = now_ms w ∧ deliveryEvents w' = deliveryEvents w).
Proof.
  unfold create, fresh_id. rewrite run_bind, run_atomic. cbn [fst snd].
  rewrite run_atomic_try.
  change (deliveries (w <| nextId ::= S |>)) with (deliveries w).
  case_bool_decide as Hin; cbn [orb]; [by intros [= <- <-]; left|].
  destruct (some _ _) eqn:Hs; intros [= <- <-]; [by left|]. right.
  eexists. split; [done|]. split; [by apply eq_None_not_Some|].
  split; [|done]. intros k e Hk. rewrite some_false in Hs.
  by apply (Hs (k, e)), elem_of_map_to_list.
Qed.

Lemma indexed_insert_new id d m :
  indexed m → m !! id = None → (∀ k e, m !! k = Some e → clash d e = false) →
  indexed (<[id := d]> m).
Proof.
  intros Hm Hid Hc k1 d1 k2 d2 H1 H2 Hne.
  destruct (decide (id = k1)) as [<-|]; destruct (decide (id = k2)) as [<-|];
    simplify_map_eq; eauto. rewrite delivery_clash_sym. eauto.
Qed.

Lemma by_id_if_Some id P m d :
  by_id_if id P m = Some d ↔
  d = Doc id (body d) ∧ m !! id = Some (body d) ∧ P (body d) = true.
Proof.
  unfold by_id_if. rewrite bind_Some. setoid_rewrite find_by_id_Some. split.
  - intros (d' & [Hd Hm] & HP). destruct (P (body d')) eqn:?; by simplify_eq.
  - intros (Hd & Hm & HP). exists d. by rewrite HP.
Qed.
End DeliveryRepository.

(** ** The milestone log *)
Module DeliveryEventRepository.
(** Highest seq recorded for a delivery, or 0 when it has no events yet. *)
Definition last_seq (id : string) (l : list DeliveryEvent) : Z :=
  foldr (λ e m, if String.eqb e.(ev_delivery) id then Z.max e.(seq) m else m) 0%Z l.

Definition getLastSeq (id : string) : action Z :=
  reads (λ w, last_seq id w.(deliveryEvents)).

Definition occupied (id : string) (s : Z) (l : list DeliveryEvent) : bool :=
  some (λ e, String.eqb e.(ev_delivery) id && (e.(seq) =? s)%Z) l.

(** Insert, under the unique index on [(delivery, seq)]. *)
Definition create (e : DeliveryEvent) : action DeliveryEvent :=
  atomic_try (λ w,
    if occupied e.(ev_delivery) e.(seq) w.(deliveryEvents) then (inl DuplicateKey, w)
    else (inr e, w <| deliveryEvents ::= (.++ [e]) |>)).

Definition MAX_SEQ_ATTEMPTS : nat := 5.

Record AppendInput := mkAppendInput {
  in_delivery : string;
  in_event : DeliveryMilestone.t;
  in_fromStatus : option DeliveryStatus.t;
  in_toStatus : DeliveryStatus.t;
  in_payload : option (list (string * json));
  in_actor : MilestoneActor
}.

Definition event_of (i : AppendInput) (t s : Z) : DeliveryEvent :=
  mkDeliveryEvent i.(in_delivery) i.(in_event) i.(in_fromStatus) i.(in_toStatus)
    (nullish i.(in_payload) []) i.(in_actor) t s.

(** The retry loop of [append]; [attempts] attempts are left. *)
Fixpoint append_loop (i : AppendInput) (attempts : nat) (lastError : error)
    : action DeliveryEvent :=
  match attempts with
  | O => throw lastError
  | S attempts' =>
      last ← getLastSeq i.(in_delivery);
      t ← now;
      r ← try_catch (ev ← create (event_of i t (last + 1)); mret (inr ev))
            (λ e, if decide (e = DuplicateKey) then mret (inl e) else throw e);
      match r with
      | inr ev => mret ev
      | inl e => append_loop i attempts' e
      end
  end.

Definition append (i : AppendInput) : action DeliveryEvent :=
  append_loop i MAX_SEQ_ATTEMPTS DuplicateKey.
End DeliveryEventRepository.

(** *** The log is append-only and gapless, whoever writes it *)
Module MilestoneLog.
Import DeliveryEventRepository.

(** The seqs of one delivery, in the order they were written. *)
Definition seqs (id : string) (l : list DeliveryEvent) : list Z :=
  seq <$> filter (λ e, ev_delivery e = id) l.

Definition gapless (l : list DeliveryEvent) : Prop :=
  ∀ id, seqs id l = seqZ 1 (Z.of_nat (length (seqs id l))).

(** How any step may change the log. *)
Definition evolves (w w' : World) : Prop :=
  deliveryEvents w `prefix_of` deliveryEvents w' ∧
  (gapless (deliveryEvents w) → gapless (deliveryEvents w')).

#[global] Instance evolves_preorder : PreOrder evolves.
Proof.
  split.
  - intros w. done.
  - intros w1 w2 w3 [? ?] [? ?]. split; [by etrans|auto].
Qed.

Lemma seqs_app id l1 l2 : seqs id (l1 ++ l2) = seqs id l1 ++ seqs id l2.
Proof. unfold seqs. by rewrite filter_app, fmap_app. Qed.

Lemma seqs_one id e :
  seqs id [e] = if decide (ev_delivery e = id) then [seq e] else [].
Proof. unfold seqs. rewrite filter_cons. by case_decide. Qed.

Lemma last_seq_seqs id l : last_seq id l = foldr Z.max 0%Z (seqs id l).
Proof.
  induction l as [|e l IH]; [done|]. unfold seqs in *. cbn [last_seq foldr].
  rewrite filter_cons. fold (last_seq id l). rewrite IH.
  destruct (String.eqb_spec (ev_delivery e) id); case_decide; done.
Qed.

Lemma foldr_max_nonneg z l : (0 ≤ z → 0 ≤ foldr Z.max z l)%Z.
Proof. induction l; cbn; lia. Qed.
Lemma foldr_max_mono z1 z2 l : (z1 ≤ z2 → foldr Z.max z1 l ≤ foldr Z.max z2 l)%Z.
Proof. induction l; cbn; lia. Qed.

Lemma foldr_max_seqZ n : foldr Z.max 0%Z (seqZ 1 (Z.of_nat n)) = Z.of_nat n.
Proof.
  assert (∀ k, foldr Z.max 0%Z (seqZ k (Z.of_nat n)) =
               if decide (n = 0%nat) then 0%Z else Z.max 0 (k + Z.of_nat n - 1)) as Hk.
  { induction n as [|n IH]; intros k; [done|].
    rewrite seqZ_cons by lia. replace (Z.pred (Z.of_nat (S n))) with (Z.of_nat n) by lia.
    cbn [foldr]. rewrite IH. repeat case_decide; lia. }
  rewrite Hk. case_decide; lia.
Qed.

Lemma gapless_last_seq id l :
  gapless l → last_seq id l = Z.of_nat (length (seqs id l)).
Proof. intros Hl. rewrite last_seq_seqs, (Hl id), foldr_max_seqZ, length_seqZ. lia. Qed.

Lemma occupied_spec id s l : occupied id s l = true ↔ s ∈ seqs id l.
Proof.
  unfold occupied, seqs. rewrite some_true, list_elem_of_fmap. split.
  - intros (e & He & Hb). apply andb_true_iff in Hb as [Hd Hs].
    apply String.eqb_eq in Hd. apply Z.eqb_eq in Hs. exists e.
    by rewrite list_elem_of_filter.
  - intros (e & -> & [Hd He]%list_elem_of_filter). exists e. split; [done|].
    by rewrite Hd, String.eqb_refl, Z.eqb_refl.
Qed.

(** The step of [append]: a seq computed from an older log is either taken,
    and rejected by the index, or the next one. *)
Lemma create_gapless l1 l2 e :
  l1 `prefix_of` l2 → gapless l2 → seq e = (last_seq (ev_delivery e) l1 + 1)%Z →
  occupied (ev_delivery e) (seq e) l2 = false → gapless (l2 ++ [e]).
Proof.
  intros [k ->] Hl Hs Ho id. rewrite seqs_app, seqs_one.
  case_decide as Hid; [|by rewrite app_nil_r]. subst id.
  set (d := ev_delivery e) in *.
  assert (seq e ∉ seqs d (l1 ++ k)) as Hn
    by (by rewrite <-occupied_spec, Ho).
  pose proof (Hl d) as Hld. set (n := length (seqs d (l1 ++ k))) in *.
  assert (last_seq d l1 ≤ Z.of_nat n)%Z as Hle.
  { rewrite last_seq_seqs. rewrite <-(foldr_max_seqZ n), <-Hld, seqs_app, foldr_app.
    apply foldr_max_mono, foldr_max_nonneg; done. }
  assert (0 ≤ last_seq d l1)%Z by (rewrite last_seq_seqs; by apply foldr_max_nonneg).
  assert (seq e = Z.of_nat n + 1)%Z as He.
  { rewrite Hld, elem_of_seqZ in Hn. lia. }
  rewrite length_app. cbn [length]. fold n.
  replace (Z.of_nat (n + 1)) with (Z.of_nat n + 1)%Z by lia.
  rewrite seqZ_app by lia. rewrite <-Hld, seqZ_cons, He by lia. do 2 f_equal. lia.
Qed.

Lemma append_loop_safe i n e0 w :
  safe evolves (append_loop i n e0) w
    (λ r w', ∀ ev, r = inr ev → ev ∈ deliveryEvents w').
Proof.
  revert e0 w. induction n as [|n IH]; intros e0 w; [done|]. cbn.
  intros w1 H1. split; [done|]. intros w2 H2. split; [done|].
  intros w3 H3. case_match eqn:Ho; cbn.
  { split; [done|]. apply IH. }
  split.
  - split; [by eexists|]. intros Hg. apply (create_gapless (deliveryEvents w1)); try done.
    etrans; [apply H2|apply H3].
  - intros w4 H4 ev [= <-]. destruct H4 as [[k Hk] _]. rewrite Hk. rec_simpl.
    rewrite !elem_of_app, list_elem_of_singleton. by left; right.
Qed.

Lemma append_safe i w :
  safe evolves (append i) w (λ r w', ∀ ev, r = inr ev → ev ∈ deliveryEvents w').
Proof. apply append_loop_safe. Qed.

(** Run alone, [append] succeeds at its first attempt with the next seq. *)
Lemma append_run i w :
  gapless (deliveryEvents w) →
  let ev := event_of i (now_ms w) (Z.of_nat (length (seqs (in_delivery i) (deliveryEvents w))) + 1) in
  run (append i) w = (inr ev, w <| deliveryEvents ::= (.++ [ev]) |>).
Proof.
  intros Hg ev. unfold append, MAX_SEQ_ATTEMPTS. cbn.
  rewrite (gapless_last_seq _ _ Hg). destruct (occupied _ _ (deliveryEvents w)) eqn:Ho; [|done].
  exfalso. apply occupied_spec in Ho. pose proof (Hg (in_delivery i)) as Hd.
  set (n := length _) in *. rewrite Hd, elem_of_seqZ in Ho. lia.
Qed.
End MilestoneLog.
