(* ===== verification/Pagination.v ===== *)
(** * Pagination

    [BaseRepository.paginate] and the skip/limit arithmetic the services
    repeat: sorting, clamping, and the theorem that the pages of a listing
    partition it. *)
From S2P Require Import Prelude JsLib Models.

Record Page (A : Type) := mkPage {
  data : list A;
  total : Z;
  page : Z;
  limit : Z;
  totalPages : Z
}.
Arguments mkPage {A}. Arguments data {A}. Arguments total {A}. Arguments page {A}.
Arguments limit {A}. Arguments totalPages {A}.

(** [Math.ceil(total / limit)] for a positive limit. *)
Definition ceil_div (n d : Z) : Z := (- ((- n) / d))%Z.

(** [.sort(cmp).skip(k).limit(n)] of a query. *)
Definition ordered {A} (cmp : A → A → bool) : relation A := λ a b, cmp a b = true.
#[export] Instance ordered_dec {A} (cmp : A → A → bool) : RelDecision (ordered cmp) :=
  λ a b, bool_eq_dec (cmp a b) true.
Definition sort_by {A} (cmp : A → A → bool) (l : list A) : list A :=
  merge_sort (ordered cmp) l.
Definition skip_limit {A} (skip lim : Z) (l : list A) : list A :=
  take (Z.to_nat lim) (drop (Z.to_nat skip) l).

Definition page_of {A} (l : list A) (pg lim : Z) : Page A :=
  mkPage (skip_limit ((pg - 1) * lim) lim l) (Z.of_nat (length l)) pg lim
    (ceil_div (Z.of_nat (length l)) lim).

(** [Math.max(1, page)] and [Math.min(Math.max(1, limit), cap)]. *)
Definition clamp_page (pg : Z) : Z := Z.max 1 pg.
Definition clamp_limit (cap lim : Z) : Z := Z.min (Z.max 1 lim) cap.

(** [BaseRepository.paginate]: [Math.floor(limit) || 10] replaces a zero limit. *)
Definition paginate {A} (l : list A) (pg lim : Z) : Page A :=
  page_of l (clamp_page pg) (clamp_limit 100 (if (lim =? 0)%Z then 10 else lim)%Z).

(** ** The pages partition the listing *)
Definition pages {A} (l : list A) (lim : Z) : list (list A) :=
  (λ pg, data (page_of l pg lim)) <$> seqZ 1 (ceil_div (Z.of_nat (length l)) lim).

Lemma ceil_div_step n d : (0 < d → 0 < n → ceil_div n d = 1 + ceil_div (n - d) d)%Z.
Proof.
  intros Hd Hn. unfold ceil_div.
  replace (- (n - d))%Z with (- n + 1 * d)%Z by lia. rewrite Z.div_add by lia. lia.
Qed.
Lemma ceil_div_nonpos n d : (0 < d → - d < n → n ≤ 0 → ceil_div n d = 0)%Z.
Proof. intros. unfold ceil_div. rewrite Z.div_small by lia. lia. Qed.
Lemma ceil_div_spec n d : (0 < d → d * (ceil_div n d - 1) < n ≤ d * ceil_div n d)%Z.
Proof.
  intros Hd. unfold ceil_div. pose proof (Z.mul_div_le (- n) d Hd).
  pose proof (Z.mul_succ_div_gt (- n) d Hd). lia.
Qed.

Lemma pages_aux {A} (lim : Z) (n : nat) (l : list A) (k : Z) :
  (0 < lim)%Z → (length l ≤ n)%nat → (1 ≤ k)%Z →
  concat ((λ pg, skip_limit ((pg - k) * lim) lim l) <$>
          seqZ k (ceil_div (Z.of_nat (length l)) lim)) = l.
Proof.
  intros Hlim. revert l k. induction n as [|n IH]; intros l k Hl Hk.
  { destruct l; [|cbn in Hl; lia]. by rewrite ceil_div_nonpos by (cbn; lia). }
  destruct l as [|a l]; [by rewrite ceil_div_nonpos by (cbn; lia)|].
  set (m := a :: l) in *. assert (0 < length m)%nat by (cbn; lia).
  rewrite ceil_div_step by lia.
  pose proof (ceil_div_spec (Z.of_nat (length m) - lim) lim Hlim).
  rewrite seqZ_cons by nia. cbn [fmap list_fmap concat].
  rewrite <-(take_drop (Z.to_nat lim) m) at 3. f_equal.
  { unfold skip_limit. by replace ((k - k) * lim)%Z with 0%Z by lia. }
  rewrite <-(IH (drop (Z.to_nat lim) m) (k + 1)%Z); [|rewrite length_drop; lia|lia].
  replace (Z.pred (1 + ceil_div (Z.of_nat (length m) - lim) lim))
    with (ceil_div (Z.of_nat (length m) - lim) lim) by lia.
  replace (Z.succ k) with (k + 1)%Z by lia. rewrite length_drop.
  replace (ceil_div (Z.of_nat (length m - Z.to_nat lim)) lim)
    with (ceil_div (Z.of_nat (length m) - lim) lim).
  - f_equal. apply list_fmap_ext. intros i pg Hpg%list_elem_of_lookup_2.
    apply elem_of_seqZ in Hpg. unfold skip_limit. rewrite drop_drop. f_equal. f_equal. nia.
  - destruct (decide (Z.of_nat (length m) ≤ lim)%Z) as [Hle|].
    + replace (length m - Z.to_nat lim)%nat with 0%nat by lia.
      rewrite (ceil_div_nonpos (_ - lim)), (ceil_div_nonpos (Z.of_nat 0)) by lia. done.
    + f_equal. lia.
Qed.

Lemma pages_concat {A} (l : list A) lim : (0 < lim)%Z → concat (pages l lim) = l.
Proof.
  intros. unfold pages, page_of. cbn [data]. by apply (pages_aux lim (length l)).
Qed.

Lemma page_length {A} (l : list A) pg lim :
  (0 < lim)%Z → (Z.of_nat (length (data (page_of l pg lim))) ≤ lim)%Z.
Proof. intros. cbn. unfold skip_limit. rewrite length_take. lia. Qed.

Lemma sort_by_perm {A} (cmp : A → A → bool) l : sort_by cmp l ≡ₚ l.
Proof. apply merge_sort_Permutation. Qed.

Lemma clamp_limit_range cap lim : (1 ≤ cap → 1 ≤ clamp_limit cap lim ≤ cap)%Z.
Proof. unfold clamp_limit. lia. Qed.

(** ** What a page contains *)
Lemma elem_of_skip_limit {A} (x : A) k n l : x ∈ skip_limit k n l → x ∈ l.
Proof.
  intros (i & Hi & _)%elem_of_take. rewrite lookup_drop in Hi.
  by eapply list_elem_of_lookup_2.
Qed.

Lemma Sorted_drop {A} (R : relation A) n l : Sorted R l → Sorted R (drop n l).
Proof.
  intros Hl. revert n. induction Hl; intros [|n]; cbn; eauto using Sorted_nil, Sorted_cons.
Qed.
Lemma Sorted_take {A} (R : relation A) n l : Sorted R l → Sorted R (take n l).
Proof.
  intros Hl. revert n. induction Hl as [|a l Hl IH Ha]; intros [|n]; cbn;
    try apply Sorted_nil.
  apply Sorted_cons; [done|]. destruct n, Ha; cbn; constructor; done.
Qed.

Lemma paginate_elem {A} (l : list A) pg lim x : x ∈ data (paginate l pg lim) → x ∈ l.
Proof. apply elem_of_skip_limit. Qed.
Lemma paginate_length {A} (l : list A) pg lim :
  (Z.of_nat (length (data (paginate l pg lim))) ≤ 100)%Z.
Proof.
  pose proof (clamp_limit_range 100 (if (lim =? 0)%Z then 10 else lim)).
  etrans; [apply page_length; lia|lia].
Qed.
Lemma paginate_sorted {A} (cmp : A → A → bool) l pg lim :
  Total (ordered cmp) → Sorted (ordered cmp) (data (paginate (sort_by cmp l) pg lim)).
Proof. intros. apply Sorted_take, Sorted_drop. apply (Sorted_merge_sort _). Qed.
