(* ===== verification/NumDiv.v ===== *)
(** * Arithmetic on safe integers in binary64

    Sums and differences of integers below [2^53] are exact, and the quotient of
    two of them, although rounded, lies between the same integers as the exact
    one: rounding it up gives the exact result. *)
From S2P Require Import Prelude JsLib NumBounds Pagination.
From Stdlib Require Import SpecFloat.

#[local] Open Scope Z_scope.

(** ** Shift records that stand for a fraction *)

(** [r] holds the quotient of [N] by [B], its half bit and its sticky bit. *)
Record rep (N B : Z) (r : shr_record) : Prop := {
  rep_m : shr_m r = N / B;
  rep_r : shr_r r = (B <=? 2 * (N mod B));
  rep_s : shr_s r = negb (N mod B =? 0) && negb (2 * (N mod B) =? B)
}.

Lemma double_div N B : 0 < B →
  (2 * N / B = 2 * (N / B) ∧ (2 * N) mod B = 2 * (N mod B) ∧ 2 * (N mod B) < B) ∨
  (2 * N / B = 2 * (N / B) + 1 ∧ (2 * N) mod B = 2 * (N mod B) - B ∧ B ≤ 2 * (N mod B)).
Proof.
  intros HB. pose proof (Z.div_mod N B ltac:(lia)) as HN. pose proof (Z.mod_pos_bound N B HB) as Hr.
  destruct (Z_lt_le_dec (2 * (N mod B)) B) as [Hlt|Hge]; [left|right].
  - destruct (Z.div_mod_unique B (2 * N / B) (2 * (N / B)) ((2 * N) mod B) (2 * (N mod B))) as [-> ->]; [..|done].
    + left. apply Z.mod_pos_bound. lia.
    + left. lia.
    + rewrite <-Z.div_mod by lia. lia.
  - destruct (Z.div_mod_unique B (2 * N / B) (2 * (N / B) + 1) ((2 * N) mod B) (2 * (N mod B) - B)) as [-> ->]; [..|done].
    + left. apply Z.mod_pos_bound. lia.
    + left. lia.
    + rewrite <-Z.div_mod by lia. lia.
Qed.

Lemma shr_1_bits r : 0 ≤ shr_m r →
  shr_r (shr_1 r) = Z.odd (shr_m r) ∧ shr_s (shr_1 r) = shr_r r || shr_s r.
Proof. destruct r as [m rb sb]. cbn. destruct m as [|[p|p|]|p]; cbn; intros; try done; lia. Qed.

Lemma shr_1_rep N B r : 0 < B → 0 ≤ N → rep (2 * N) B r → rep N B (shr_1 r).
Proof.
  intros HB HN [Hm Hr Hs]. assert (0 ≤ shr_m r) as Hm0 by (rewrite Hm; apply Z.div_pos; lia).
  destruct (shr_1_bits r Hm0) as [Hr1 Hs1]. pose proof (Z.mod_pos_bound N B HB).
  split.
  - rewrite shr_1_m, Hm, Z.div_div by lia. rewrite (Z.mul_comm B 2). by rewrite Z.div_mul_cancel_l by lia.
  - rewrite Hr1, Hm. destruct (double_div N B HB) as [(-> & _ & H2)|(-> & _ & H2)].
    + rewrite Z.odd_mul. symmetry. apply Z.leb_gt. lia.
    + rewrite Z.add_comm, Z.odd_add_mul_2. symmetry. apply Z.leb_le. lia.
  - rewrite Hs1, Hr, Hs. apply Bool.eq_iff_eq_true.
    rewrite orb_true_iff, !andb_true_iff, !negb_true_iff, Z.leb_le, !Z.eqb_neq.
    destruct (double_div N B HB) as [(_ & -> & H2)|(_ & -> & H2)]; lia.
Qed.

Lemma shr_n_rep n N B r : 0 < B → 0 ≤ N → rep (2 ^ Z.of_nat n * N) B r → rep N B (Nat.iter n shr_1 r).
Proof.
  intros HB. revert N r. induction n as [|n IH]; intros N r HN Hr.
  { cbn. by rewrite Z.mul_1_l in Hr. }
  cbn [Nat.iter nat_rect]. apply shr_1_rep; [done..|]. apply IH; [lia|].
  rewrite Nat2Z.inj_succ, Z.pow_succ_r in Hr by lia. by rewrite Z.mul_assoc, (Z.mul_comm _ 2).
Qed.

(** The location a division computes from its remainder. *)
Lemma location_rep N B : 0 < B → rep N B (shr_record_of_loc (N / B) (new_location B (N mod B))).
Proof.
  intros HB. pose proof (Z.mod_pos_bound N B HB) as Hr. remember (N mod B) as r eqn:Er.
  assert (new_location B r =
    if r =? 0 then loc_Exact else loc_Inexact (Z.compare (2 * r) B)) as ->.
  { unfold new_location, new_location_even, new_location_odd.
    destruct (Z.even B) eqn:Heven; [done|]. destruct (r =? 0); [done|]. f_equal.
    assert (2 * r ≠ B) as Hne by (intros <-; rewrite Z.even_mul in Heven; done).
    destruct (Z.compare_spec (2 * r + 1) B), (Z.compare_spec (2 * r) B); try done; lia. }
  destruct (Z.eqb_spec r 0) as [H0|H0].
  - split; cbn; rewrite <-?Er, ?H0; try done. symmetry. apply Z.leb_gt. lia.
  - destruct (Z.compare_spec (2 * r) B) as [He|Hl|Hg]; split; cbn; rewrite <-?Er; try done; symmetry;
      rewrite ?andb_false_iff, ?andb_true_iff, ?negb_true_iff, ?negb_false_iff, ?Z.leb_gt, ?Z.leb_le, ?Z.eqb_eq, ?Z.eqb_neq; lia.
Qed.

(** Rounding takes a nearest integer. *)
Lemma round_near N B r : 0 < B → rep N B r →
  let n := round_nearest_even (shr_m r) (loc_of_shr_record r) in
  N / B ≤ n ∧ 2 * (N - n * B) ≤ B ∧ 2 * (n * B - N) ≤ B.
Proof.
  intros HB [Hm Hr Hs]. destruct r as [m rb sb]. cbn [shr_m shr_r shr_s] in *. subst m.
  pose proof (Z.div_mod N B ltac:(lia)) as HN. pose proof (Z.mod_pos_bound N B HB) as Hb.
  destruct rb, sb; symmetry in Hr, Hs;
    rewrite ?andb_false_iff, ?andb_true_iff, ?negb_true_iff, ?negb_false_iff, ?Z.leb_gt, ?Z.leb_le, ?Z.eqb_eq, ?Z.eqb_neq in Hr, Hs;
    cbn [loc_of_shr_record round_nearest_even]; try (destruct (Z.even _)); cbv zeta; lia.
Qed.

Lemma pow_pos k : 0 ≤ k → 0 < 2 ^ k.
Proof. intros. apply Z.pow_pos_nonneg; lia. Qed.

(** The shift of [shr_fexp], with the fraction it leaves. *)
Lemma shr_fexp_rep N B m e l : 0 < B → 0 ≤ N →
  rep (2 ^ dropped m e * N) B (shr_record_of_loc m l) →
  ∃ r, shr_fexp 53 1024 m e l = (r, e + dropped m e) ∧ rep N B r.
Proof.
  intros HB HN Hrep. unfold shr_fexp, dropped, shr in *.
  destruct (fexp 53 1024 (Zdigits2 m + e) - e) as [|p|p] eqn:Hk.
  - eexists. split; [f_equal; lia|]. by rewrite Z.mul_1_l in Hrep.
  - eexists. split; [f_equal; lia|]. rewrite iter_pos_iter. apply shr_n_rep; [done..|].
    by rewrite positive_nat_Z.
  - eexists. split; [f_equal; lia|]. by rewrite Z.mul_1_l in Hrep.
Qed.

Lemma digits_of m d : 0 < d → 2 ^ (d - 1) ≤ m < 2 ^ d → Zdigits2 m = d.
Proof.
  intros Hd [Hlo Hhi]. assert (0 < m) by (pose proof (pow_pos (d - 1)); lia).
  pose proof (Zdigits2_bounds m ltac:(lia)) as [Blo Bhi].
  destruct (Z.lt_trichotomy (Zdigits2 m) d) as [Hl|[->|Hg]]; [|done|]; exfalso.
  - assert (2 ^ Zdigits2 m ≤ 2 ^ (d - 1)) by (apply Z.pow_le_mono_r; lia). lia.
  - assert (2 ^ d ≤ 2 ^ (Zdigits2 m - 1)) by (apply Z.pow_le_mono_r; lia). lia.
Qed.

(** The last step of rounding: a mantissa that fits, or carried once. *)
Lemma fit_mantissa m e : 2 ^ 52 ≤ m ≤ 2 ^ 53 → -1000 ≤ e ≤ 900 →
  ∃ m' k, 0 ≤ k ≤ 1 ∧ Z.pos m' * 2 ^ k = m ∧ 2 ^ 52 ≤ Z.pos m' < 2 ^ 53 ∧
    (let '(r, e') := shr_fexp 53 1024 m e loc_Exact in
     match shr_m r with
     | Z0 => S754_zero false
     | Zpos m => if Z.leb e' (Z.sub 1024 53) then S754_finite false m e' else S754_infinity false
     | _ => S754_nan
     end) = S754_finite false m' (e + k).
Proof.
  intros Hm He. destruct (shr_fexp_spec m e) as (r & -> & Hr & _); [lia|]. rewrite Hr. clear Hr r.
  destruct (decide (m = 2 ^ 53)) as [->|Hne].
  - exists (Z.to_pos (2 ^ 52)), 1. split; [lia|]. split; [done|]. split; [done|].
    assert (dropped (2 ^ 53) e = 1) as -> by (unfold dropped; change (Zdigits2 (2 ^ 53)) with 54; unfold fexp, emin; lia).
    cbn. by rewrite (proj2 (Z.leb_le _ _)) by lia.
  - assert (Zdigits2 m = 53) as Hd by (apply digits_of; lia).
    assert (dropped m e = 0) as -> by (unfold dropped; rewrite Hd; unfold fexp, emin; lia).
    exists (Z.to_pos m), 0. rewrite Z2Pos.id by lia. split; [lia|]. split; [lia|]. split; [lia|].
    rewrite Z.div_1_r, Z.add_0_r. destruct m as [|p|p]; [lia| |lia].
    by rewrite (proj2 (Z.leb_le _ _)) by lia.
Qed.

(** ** Sums *)

(** A number with 53 digits is the value of its mantissa and exponent. *)
Lemma round_exact m e : 2 ^ 52 ≤ Z.pos m < 2 ^ 53 → -1000 ≤ e ≤ 900 →
  binary_round_aux 53 1024 false (Z.pos m) e loc_Exact = S754_finite false m e.
Proof.
  intros Hm He. unfold binary_round_aux.
  assert (Zdigits2 (Z.pos m) = 53) as Hd by (apply digits_of; lia).
  assert (shr_fexp 53 1024 (Z.pos m) e loc_Exact = ({| shr_m := Z.pos m; shr_r := false; shr_s := false |}, e)) as ->.
  { unfold shr_fexp. rewrite Hd. replace (fexp 53 1024 (53 + e) - e) with 0 by (unfold fexp, emin; lia). done. }
  cbn [shr_m loc_of_shr_record round_nearest_even].
  destruct (fit_mantissa (Z.pos m) e) as (m' & k & Hk & Hv & Hm' & ->); [lia..|].
  assert (k = 0 ∨ k = 1) as [->| ->] by lia; [|exfalso; lia].
  rewrite Z.mul_1_r in Hv. rewrite Z.add_0_r. by simplify_eq.
Qed.

Lemma of_Z_norm z : 0 < z < 2 ^ 53 →
  ∃ m d, Num.of_Z z = S754_finite false m (d - 53) ∧ 1 ≤ d ≤ 53 ∧ Zdigits2 z = d ∧
    Z.pos m = z * 2 ^ (53 - d) ∧ 2 ^ 52 ≤ Z.pos m < 2 ^ 53.
Proof.
  intros Hz. destruct (Num.of_Z_form z Hz) as (m & Hof & Hm).
  destruct z as [|p|p]; [lia| |lia]. cbn [Z.to_pos] in *.
  pose proof (Zdigits2_bounds (Z.pos p) ltac:(lia)) as [Hlo Hhi]. cbn [Zdigits2] in Hlo, Hhi.
  exists m, (Z.pos (digits2_pos p)). cbn [Zdigits2]. set (d := Z.pos (digits2_pos p)) in *.
  assert (1 ≤ d ≤ 53) as Hd.
  { split; [lia|]. apply (Zdigits2_le (Z.pos p) 53); lia. }
  split_and!; try done; try lia.
  - rewrite Hm. replace (2 ^ 52) with (2 ^ (d - 1) * 2 ^ (53 - d)) by (rewrite <-Z.pow_add_r by lia; f_equal; lia).
    apply Z.mul_le_mono_nonneg_r; [|done]. pose proof (pow_pos (53 - d)). lia.
  - rewrite Hm. replace (2 ^ 53) with (2 ^ d * 2 ^ (53 - d)) by (rewrite <-Z.pow_add_r by lia; f_equal; lia).
    apply Z.mul_lt_mono_pos_r; [|done]. apply pow_pos. lia.
Qed.

(** The one form of an integer with 53 digits. *)
Lemma of_Z_unique z m e : -52 ≤ e ≤ 0 → Z.pos m = z * 2 ^ (- e) → 2 ^ 52 ≤ Z.pos m < 2 ^ 53 →
  Num.of_Z z = S754_finite false m e.
Proof.
  intros He Hm Hb. assert (0 < 2 ^ (- e)) as Hp by (apply pow_pos; lia).
  assert (0 < z) as Hz by nia.
  assert (z < 2 ^ 53) as Hz2 by nia.
  assert (Zdigits2 z = 53 + e) as Hd.
  { apply digits_of; [lia|]. split.
    - apply (Z.mul_le_mono_pos_r _ _ (2 ^ (- e))); [done|]. rewrite <-Hm, <-Z.pow_add_r by lia.
      replace (53 + e - 1 + - e) with 52 by lia. lia.
    - apply (Z.mul_lt_mono_pos_r (2 ^ (- e))); [done|]. rewrite <-Hm, <-Z.pow_add_r by lia.
      replace (53 + e + - e) with 53 by lia. lia. }
  destruct (of_Z_norm z) as (m' & d & -> & _ & Hd' & Hm' & _); [lia|]. rewrite Hd in Hd'. subst d.
  replace (53 - (53 + e)) with (- e) in Hm' by lia. rewrite <-Hm in Hm'.
  replace (53 + e - 53) with e by lia. by simplify_eq.
Qed.

Lemma shl_align_value m e e' : e' ≤ e → Z.pos (fst (shl_align m e e')) = Z.pos m * 2 ^ (e - e').
Proof.
  intros He. unfold shl_align. destruct (e' - e) as [|p|p] eqn:Hd; [|lia|]; cbn [fst].
  - replace (e - e') with 0 by lia. lia.
  - rewrite Num.shift_value. do 2 f_equal. lia.
Qed.

Lemma digits_shift z k : 0 < z → 0 ≤ k → Zdigits2 (z * 2 ^ k) = Zdigits2 z + k.
Proof.
  intros Hz Hk. pose proof (Zdigits2_bounds z Hz) as [Hlo Hhi]. pose proof (pow_pos k Hk).
  assert (0 < Zdigits2 z) by (destruct z; cbn in *; lia).
  apply digits_of; [lia|]. split.
  - replace (Zdigits2 z + k - 1) with (Zdigits2 z - 1 + k) by lia. rewrite Z.pow_add_r by lia. nia.
  - rewrite Z.pow_add_r by lia. nia.
Qed.

Lemma normalize_exact z e : 0 < z < 2 ^ 53 → -60 ≤ e ≤ 0 →
  binary_normalize 53 1024 (z * 2 ^ (- e)) e false = Num.of_Z z.
Proof.
  intros Hz He. destruct (of_Z_norm z Hz) as (m & d & -> & Hd & Hdz & Hm & Hb).
  pose proof (pow_pos (- e) ltac:(lia)). destruct (z * 2 ^ (- e)) as [|p|p] eqn:Hp; [nia| |nia].
  cbn [binary_normalize]. unfold binary_round.
  assert (Z.pos (digits2_pos p) = d - e) as Hdp.
  { change (Z.pos (digits2_pos p)) with (Zdigits2 (Z.pos p)). rewrite <-Hp, digits_shift by lia. lia. }
  rewrite Hdp. replace (fexp 53 1024 (d - e + e)) with (d - 53) by (unfold fexp, emin; lia).
  destruct (Z_le_gt_dec e (d - 53)) as [Hle|Hgt].
  - assert (shl_align p e (d - 53) = (p, e)) as ->.
    { unfold shl_align. destruct (d - 53 - e) eqn:Hx; [done|done|lia]. }
    unfold binary_round_aux. destruct (shr_fexp_spec (Z.pos p) e) as (r & -> & Hr & Hx); [lia|].
    assert (dropped (Z.pos p) e = d - 53 - e) as Hdr.
    { unfold dropped. cbn [Zdigits2]. rewrite Hdp. unfold fexp, emin. lia. }
    rewrite Hdr in *. pose proof (pow_pos (d - 53 - e) ltac:(lia)).
    assert (Z.pos p = Z.pos m * 2 ^ (d - 53 - e)) as Hpm.
    { rewrite <-Hp, Hm, <-Z.mul_assoc, <-Z.pow_add_r by lia. do 2 f_equal. lia. }
    rewrite Hpm, Z.mod_mul, Z.div_mul in * by lia. rewrite Hx, Hr by done. cbn [round_nearest_even].
    replace (e + (d - 53 - e)) with (d - 53) by lia.
    destruct (fit_mantissa (Z.pos m) (d - 53)) as (m' & k & Hk & Hv & Hm' & ->); [lia..|].
    assert (k = 0 ∨ k = 1) as [->| ->] by lia; [|exfalso; lia].
    rewrite Z.mul_1_r in Hv. rewrite Z.add_0_r. by simplify_eq.
  - pose proof (shl_align_value p e (d - 53) ltac:(lia)) as Hv.
    destruct (shl_align p e (d - 53)) as [p' e'] eqn:Hs.
    assert (e' = d - 53) as ->.
    { unfold shl_align in Hs. destruct (d - 53 - e) eqn:Hx; [lia|lia|]. by simplify_eq. }
    cbn [fst] in Hv. rewrite <-Hp, <-Z.mul_assoc, <-Z.pow_add_r in Hv by lia.
    replace (- e + (e - (d - 53))) with (53 - d) in Hv by lia. rewrite <-Hm in Hv. simplify_eq.
    apply round_exact; lia.
Qed.

(** Sums and differences of safe integers. *)
Lemma aligned z m d e : Z.pos m = z * 2 ^ (53 - d) → e ≤ d - 53 → d ≤ 53 →
  Z.pos (fst (shl_align m (d - 53) e)) = z * 2 ^ (- e).
Proof.
  intros Hm He Hd. rewrite shl_align_value by done. rewrite Hm, <-Z.mul_assoc, <-Z.pow_add_r by lia.
  do 2 f_equal. lia.
Qed.

Lemma add_of_Z a b : 0 < a → 0 < b → a + b < 2 ^ 53 → Num.add (Num.of_Z a) (Num.of_Z b) = Num.of_Z (a + b).
Proof.
  intros Ha Hb Hab. destruct (of_Z_norm a) as (ma & da & -> & Hda & _ & Hma & _); [lia|].
  destruct (of_Z_norm b) as (mb & db & -> & Hdb & _ & Hmb & _); [lia|].
  unfold Num.add, SFadd, cond_Zopp. rewrite !(aligned _ _ _ _ Hma), !(aligned _ _ _ _ Hmb) by lia.
  rewrite <-Z.mul_add_distr_r. apply normalize_exact; lia.
Qed.

Lemma sub_of_Z a b : 0 < b < a → a < 2 ^ 53 → Num.sub (Num.of_Z a) (Num.of_Z b) = Num.of_Z (a - b).
Proof.
  intros Hba Ha. destruct (of_Z_norm a) as (ma & da & -> & Hda & _ & Hma & _); [lia|].
  destruct (of_Z_norm b) as (mb & db & -> & Hdb & _ & Hmb & _); [lia|].
  unfold Num.sub, SFsub, cond_Zopp. rewrite !(aligned _ _ _ _ Hma), !(aligned _ _ _ _ Hmb) by lia.
  rewrite <-Z.mul_sub_distr_r. apply normalize_exact; lia.
Qed.

(** ** Quotients *)

(** The division of normal mantissas, up to rounding. *)
Lemma div_core ma mb ea eb : 2 ^ 52 ≤ Z.pos ma < 2 ^ 53 → 2 ^ 52 ≤ Z.pos mb < 2 ^ 53 → -60 ≤ ea ≤ 0 → -60 ≤ eb ≤ 0 →
  ∃ q l, SFdiv_core_binary 53 1024 (Z.pos ma) ea (Z.pos mb) eb = (q, ea - eb - 53, l) ∧
    2 ^ 52 ≤ q < 2 ^ 54 ∧ rep (Z.pos ma * 2 ^ 53) (Z.pos mb) (shr_record_of_loc q l).
Proof.
  intros Ha Hb Hea Heb. unfold SFdiv_core_binary.
  rewrite (digits_of (Z.pos ma) 53), (digits_of (Z.pos mb) 53) by lia.
  replace (Z.min (fexp 53 1024 (53 + ea - (53 + eb))) (ea - eb)) with (ea - eb - 53) by (unfold fexp, emin; lia).
  replace (ea - eb - (ea - eb - 53)) with 53 by lia. rewrite Z.shiftl_mul_pow2 by lia.
  destruct (Z.div_eucl (Z.pos ma * 2 ^ 53) (Z.pos mb)) as [q r] eqn:Hqr.
  assert (q = Z.pos ma * 2 ^ 53 / Z.pos mb) as Hq by (unfold Z.div; by rewrite Hqr).
  assert (r = (Z.pos ma * 2 ^ 53) mod Z.pos mb) as Hr by (unfold Z.modulo; by rewrite Hqr).
  exists q, (new_location (Z.pos mb) r). split; [done|]. split.
  - rewrite Hq. split; [apply Z.div_le_lower_bound; lia|apply Z.div_lt_upper_bound; lia].
  - rewrite Hq, Hr. by apply location_rep.
Qed.

(** Rounding a quotient that has 53 or 54 digits. *)
Lemma round_quotient N0 B q e l : 0 < N0 → 0 < B → 2 ^ 52 ≤ q < 2 ^ 54 → rep (2 * N0) B (shr_record_of_loc q l) →
  -900 ≤ e ≤ 800 →
  ∃ j k m m3, binary_round_aux 53 1024 false q e l = S754_finite false m (e + j + k) ∧
    0 ≤ j ≤ 1 ∧ 0 ≤ k ≤ 1 ∧ 2 ^ 52 ≤ Z.pos m < 2 ^ 53 ∧ Z.pos m * 2 ^ k = m3 ∧
    let N := N0 * 2 ^ (1 - j) in
    2 ^ 52 * B ≤ N ∧ 2 * (N - m3 * B) ≤ B ∧ 2 * (m3 * B - N) ≤ B.
Proof.
  intros HN HB Hq Hrep He.
  set (j := dropped q e). assert (0 ≤ j ≤ 1 ∧ 2 ^ (52 + j) ≤ q < 2 ^ (53 + j)) as [Hj Hqj].
  { subst j. unfold dropped, fexp, emin. destruct (Z_lt_le_dec q (2 ^ 53)).
    - rewrite (digits_of q 53) by lia. replace (Z.max 0 _) with 0 by lia. cbn. lia.
    - rewrite (digits_of q 54) by lia. replace (Z.max 0 _) with 1 by lia. cbn. lia. }
  set (N := N0 * 2 ^ (1 - j)). assert (0 < N) by (unfold N; pose proof (pow_pos (1 - j) ltac:(lia)); nia).
  assert (2 * N0 = 2 ^ j * N) as HNj.
  { unfold N. rewrite Z.mul_assoc, (Z.mul_comm (2 ^ j)), <-Z.mul_assoc, <-Z.pow_add_r by lia.
    replace (j + (1 - j)) with 1 by lia. lia. }
  rewrite HNj in Hrep. assert (q = 2 ^ j * N / B) as HqN.
  { destruct Hrep as [Hm _ _]. rewrite <-Hm. by destruct l as [|[]]. }
  destruct (shr_fexp_rep N B q e l HB ltac:(lia) Hrep) as (r & Hs & Hr). fold j in Hs.
  destruct (round_near N B r HB Hr) as (R1 & R2 & R3).
  set (m3 := round_nearest_even (shr_m r) (loc_of_shr_record r)) in *.
  pose proof (pow_pos j ltac:(lia)) as Hpj.
  assert (2 ^ 52 * B ≤ N ∧ N < 2 ^ 53 * B) as [Hlo Hhi].
  { pose proof (Z.mul_div_le (2 ^ j * N) B HB) as D1. pose proof (Z.mul_succ_div_gt (2 ^ j * N) B HB) as D2.
    rewrite <-HqN in D1, D2. rewrite !Z.pow_add_r in Hqj by lia. split; [|].
    - apply (Z.mul_le_mono_pos_l _ _ (2 ^ j)); nia.
    - apply (Z.mul_lt_mono_pos_l (2 ^ j)); nia. }
  destruct (fit_mantissa m3 (e + j)) as (m & k & Hk & Hv & Hm & Hf); [nia|lia|].
  exists j, k, m, m3. unfold binary_round_aux. rewrite Hs. fold m3. rewrite Hf. by split_and!; try lia.
Qed.

(** What a rounded quotient of safe integers is: 53 digits, and within the same
    integers as the exact quotient. *)
Lemma div_of_Z a b : 0 < a < 2 ^ 53 → 0 < b < 2 ^ 53 →
  let n := ceil_div a b in
  ∃ m e, Num.div (Num.of_Z a) (Num.of_Z b) = S754_finite false m e ∧ 2 ^ 52 ≤ Z.pos m < 2 ^ 53 ∧
    -200 ≤ e ≤ 0 ∧ (n - 1) * 2 ^ (- e) < Z.pos m ≤ n * 2 ^ (- e).
Proof.
  intros Ha Hb n. destruct (of_Z_norm a Ha) as (ma & da & -> & Hda & _ & Hma & Bma).
  destruct (of_Z_norm b Hb) as (mb & db & -> & Hdb & _ & Hmb & Bmb).
  unfold Num.div, SFdiv. cbn [xorb].
  destruct (div_core ma mb (da - 53) (db - 53)) as (q & l & -> & Hq & Hrep); [lia..|].
  replace (Z.pos ma * 2 ^ 53) with (2 * (Z.pos ma * 2 ^ 52)) in Hrep by lia.
  destruct (round_quotient (Z.pos ma * 2 ^ 52) (Z.pos mb) q (da - 53 - (db - 53) - 53) l ltac:(lia) ltac:(lia) Hq Hrep)
    as (j & k & m & m3 & -> & Hj & Hk & Hm & Hm3 & HN); [lia|].
  set (e := da - 53 - (db - 53) - 53 + j) in *. set (g := 2 ^ (53 - db)) in *.
  set (P := 2 ^ (- e)). assert (0 < g ∧ 0 < P) as [Hg HP] by (split; apply pow_pos; lia).
  assert (Z.pos ma * 2 ^ 52 * 2 ^ (1 - j) = a * g * P) as HNe.
  { rewrite Hma. unfold g, P. rewrite <-!Z.mul_assoc, <-!Z.pow_add_r by lia. do 2 f_equal. lia. }
  rewrite HNe, Hmb in HN. fold g in HN. destruct HN as (N1 & N2 & N3).
  pose proof (ceil_div_spec a b ltac:(lia)) as [C1 C2]. fold n in C1, C2.
  assert (-105 ≤ e ≤ 0) as He by (unfold e; lia).
  assert (P = 2 ^ (- e)) as HPe by done. clearbody n e g P.
  assert (0 < b * g) as HX by nia. set (X := b * g) in *. set (Q := g * P) in *.
  assert (0 < Q) as HQ by (unfold Q; nia).
  replace (a * g * P) with (a * Q) in * by (unfold Q; ring).
  assert (a * Q ≤ n * P * X) as A1 by (unfold Q, X; replace (n * P * (b * g)) with (b * n * (g * P)) by ring; nia).
  assert ((n - 1) * P * X + Q ≤ a * Q) as A2.
  { unfold X. replace ((n - 1) * P * (b * g)) with (b * (n - 1) * Q) by (unfold Q; ring). nia. }
  assert (X < 2 * Q) as A3 by nia.
  assert (m3 ≤ n * P) as Hup by nia.
  assert ((n - 1) * P < m3) as Hlo by nia.
  clear A1 A2 A3 N1 N2 N3 HNe Hrep Hma Hmb C2. assert (n ≤ a) as Hna by nia.
  exists m, (e + k). split; [done|]. split; [done|]. assert (k = 0 ∨ k = 1) as [->| ->] by lia.
  - rewrite Z.add_0_r, <-HPe. lia.
  - assert (e ≠ 0) as He0 by (intros ->; change (2 ^ (- 0)) with 1 in HPe; subst P; lia).
    assert (P = 2 * 2 ^ (- (e + 1))) as HP2.
    { rewrite HPe, <-Z.pow_succ_r by lia. f_equal. lia. }
    split; [lia|]. rewrite HP2 in Hup, Hlo. lia.
Qed.

(** The page count of a listing. *)
Lemma ceil_range m e n : 2 ^ 52 ≤ Z.pos m < 2 ^ 53 → e < 0 → (n - 1) * 2 ^ (- e) < Z.pos m ≤ n * 2 ^ (- e) →
  - (- Z.pos m / 2 ^ (- e)) = n.
Proof.
  intros Hm He Hn. pose proof (pow_pos (- e) ltac:(lia)) as HP.
  assert (- Z.pos m / 2 ^ (- e) = - n) as ->; [|lia].
  symmetry. apply Z.div_unique with (r := n * 2 ^ (- e) - Z.pos m); lia.
Qed.
