(* ===== verification/QueryOptions.v ===== *)
(** * List queries ([src/src/middlewares/queryMiddleware.ts],
      [src/src/types/query.ts])

    The query string of a listing becomes a page, a sort order and a filter over
    the fields a route declares.  A parsed query string is a list of parameters
    with JSON values (strings, arrays, nested objects).  [new Date(text)] accepts
    formats that depend on the engine, so it is a field of [QueryEnv]. *)
From S2P Require Import Prelude JsLib NumBounds NumDiv Models Pagination.
From Stdlib Require Import SpecFloat Ascii.

(** ** Data *)
Inductive FilterableFieldType := type_string | type_number | type_boolean | type_date | type_objectId.

Record QueryFeatureConfig := mkQueryConfig {
  sortableFields : list string;
  filterableFields : list (string * FilterableFieldType);
  searchableFields : list string;
  defaultSort : option (list (string * Z));
  defaultLimit : option number;
  maxLimit : option number
}.

Inductive FilterOperator := eq_ | ne_ | gt_ | gte_ | lt_ | lte_ | in_ | nin_.
#[export] Instance FilterOperator_eq_dec : EqDecision FilterOperator.
Proof. solve_decision. Defined.
Definition ALLOWED_OPERATORS : list (string * FilterOperator) :=
  [("eq", eq_); ("ne", ne_); ("gt", gt_); ("gte", gte_); ("lt", lt_); ("lte", lte_); ("in", in_); ("nin", nin_)].
Definition filter_operator (s : string) : option FilterOperator :=
  snd <$> List.find (λ o, String.eqb o.1 s) ALLOWED_OPERATORS.

(** A value a query compares with, and what it asks of a field. *)
Inductive operand :=
  | op_string (s : string)
  | op_number (x : number)
  | op_boolean (b : bool)
  | op_date (t : Z)
  | op_objectId (s : string).
Inductive condition :=
  | equals (v : operand)
  | compares (l : list (FilterOperator * (operand + list operand))).

(** A filter: conditions on fields, and a pattern that one of some fields has to
    contain in either case ([{ $and: [filter, { $or: ... }] }]). *)
Inductive FilterQuery :=
  | conditions (l : list (string * condition))
  | both (l : list (string * condition)) (fields : list string) (pattern : string).

Record QueryOptions := mkQueryOptions {
  qo_page : number;
  qo_limit : number;
  qo_skip : number;
  qo_sort : list (string * Z);
  qo_filter : FilterQuery
}.

Record PaginationMeta := mkMeta {
  totalItems : number;
  meta_totalPages : number;
  currentPage : number;
  meta_limit : number;
  hasNextPage : bool;
  hasPreviousPage : bool;
  nextPage : option number;
  previousPage : option number
}.

Definition DEFAULT_PAGE : number := Num.of_Z 1.
Definition DEFAULT_LIMIT : number := Num.of_Z 20.
Definition DEFAULT_MAX_LIMIT : number := Num.of_Z 100.

Class QueryEnv := {
  (** The time value of [new Date(text)], unless it is NaN. *)
  parseDate : string → option Z
}.

(** [obj[k] = v]: an existing property keeps its place. *)
Fixpoint assign {A} (k : string) (v : A) (l : list (string * A)) : list (string * A) :=
  match l with
  | [] => [(k, v)]
  | (k', v') :: l => if String.eqb k' k then (k', v) :: l else (k', v') :: assign k v l
  end.

(** [s.split(',')]. *)
Fixpoint split_aux (c : ascii) (acc : list ascii) (l : list ascii) : list string :=
  match l with
  | [] => [Str.of_chars (rev acc)]
  | x :: l => if Ascii.eqb x c then Str.of_chars (rev acc) :: split_aux c [] l else split_aux c (x :: acc) l
  end.
Definition split (c : ascii) (s : string) : list string := split_aux c [] (Str.chars s).

Section QueryOptions.
Context `{Env, QueryEnv}.

(** A parsed query string: [req.query[name]]. *)
Abbreviation query := (list (string * json)).
Definition param (name : string) (q : query) : option json := Json.field name (JObj q).
(** [raw === undefined || raw === '']. *)
Definition absent (raw : option json) : bool :=
  match raw with None => true | Some (JStr s) => negb (Str.truthy s) | _ => false end.

(** An [ApiError] carries a message and a status, as an [AppError] does. *)
Definition badRequest {A} (m : string) : error + A := inl (AppError m Http.BAD_REQUEST).

(** ** Parameters *)
Definition parsePositiveInt (raw : option json) (field : string) (fallback : number) : error + number :=
  if absent raw then inr fallback else
  match raw with
  | Some (JStr s) =>
      let parsed := NumParse.of_string s in
      if negb (Num.isInteger parsed) || Num.ltb parsed (Num.of_Z 1)
      then badRequest ("`" +:+ field +:+ "` must be a positive integer")
      else inr parsed
  | _ => badRequest ("`" +:+ field +:+ "` must be a single numeric value")
  end.

Definition coerceValue (raw : string) (type : FilterableFieldType) (field : string) : error + operand :=
  let refuse what := badRequest ("`" +:+ field +:+ "` must be " +:+ what) in
  match type with
  | type_number =>
      let parsed := NumParse.of_string raw in
      if negb (Num.isFinite parsed) then refuse "a valid number" else inr (op_number parsed)
  | type_boolean =>
      if String.eqb raw "true" then inr (op_boolean true)
      else if String.eqb raw "false" then inr (op_boolean false)
      else badRequest ("`" +:+ field +:+ "` must be either " +:+ Str.quote "true" +:+ " or " +:+ Str.quote "false")
  | type_date => match parseDate raw with None => refuse "a valid ISO 8601 date" | Some t => inr (op_date t) end
  | type_objectId => if isValidObjectId raw then inr (op_objectId raw) else refuse "a valid identifier"
  | type_string => inr (op_string raw)
  end.

(** [/[.*+?^${}()|[\]\\]/g], each match preceded by a backslash. *)
Definition syntax_character (c : ascii) : bool :=
  includes c (Str.chars ".*+?^${}()|[]\").
Definition escapeRegExp (value : string) : string :=
  Str.of_chars (flat_map (λ c, if syntax_character c then ["\"%char; c] else [c]) (Str.chars value)).

(** ** Sorting *)
Definition default_sort (config : QueryFeatureConfig) : list (string * Z) :=
  nullish (defaultSort config) [("createdAt", (-1)%Z)].

Definition parse_token (config : QueryFeatureConfig) (sort : list (string * Z)) (token : string)
    : error + list (string * Z) :=
  let trimmed := Str.trim token in
  if negb (Str.truthy trimmed) then inr sort else
  let descending := Str.startsWith trimmed "-" in
  let field := if descending then String.substring 1 (String.length trimmed) trimmed else trimmed in
  if includes field (sortableFields config)
  then inr (assign field (if descending then -1 else 1)%Z sort)
  else badRequest ("Cannot sort by `" +:+ field +:+ "`. Sortable fields: " +:+ Str.join ", " (sortableFields config)).

Fixpoint parse_tokens (config : QueryFeatureConfig) (sort : list (string * Z)) (l : list string)
    : error + list (string * Z) :=
  match l with
  | [] => inr sort
  | t :: l => match parse_token config sort t with inl e => inl e | inr sort => parse_tokens config sort l end
  end.

Definition parseSort (raw : option json) (config : QueryFeatureConfig) : error + list (string * Z) :=
  if absent raw then inr (default_sort config) else
  match raw with
  | Some (JStr s) =>
      match parse_tokens config [] (split "," s) with
      | inl e => inl e
      | inr [] => inr (default_sort config)
      | inr sort => inr sort
      end
  | _ => badRequest "`sort` must be a single comma-separated string"
  end.

(** ** Searching and filtering *)
Definition buildSearchClause (raw : option json) (config : QueryFeatureConfig)
    : error + option (list string * string) :=
  if absent raw || bool_decide (searchableFields config = []) then inr None else
  match raw with
  | Some (JStr s) =>
      let term := Str.trim s in
      if Str.truthy term then inr (Some (searchableFields config, escapeRegExp term)) else inr None
  | _ => badRequest "`search` must be a single string value"
  end.

Definition coerce_list (type : FilterableFieldType) (field value : string) : error + list operand :=
  mapM (M:=sum error) (λ entry, coerceValue entry type field)
    (List.filter Str.truthy (map Str.trim (split "," value))).

Definition parse_condition (type : FilterableFieldType) (field : string) (o : string * json)
    : error + FilterOperator * (operand + list operand) :=
  match filter_operator o.1 with
  | None => badRequest ("Unsupported operator `" +:+ o.1 +:+ "` on `" +:+ field +:+ "`. Supported operators: "
              +:+ Str.join ", " (map fst ALLOWED_OPERATORS))
  | Some op =>
      match o.2 with
      | JStr value =>
          if bool_decide (op = in_) || bool_decide (op = nin_)
          then l ← coerce_list type field value; inr (op, inr l)
          else v ← coerceValue value type field; inr (op, inl v)
      | _ => badRequest ("`" +:+ field +:+ "[" +:+ o.1 +:+ "]` must be a single value")
      end
  end.

(** The condition on one declared field, if the query has one. *)
Definition field_condition (q : query) (f : string * FilterableFieldType) : error + option (string * condition) :=
  let raw := param f.1 q in
  if absent raw then inr None else
  match raw with
  | Some (JStr s) => v ← coerceValue s f.2 f.1; inr (Some (f.1, equals v))
  | Some (JObj entries) =>
      l ← mapM (M:=sum error) (parse_condition f.2 f.1) entries;
      inr (match l with [] => None | _ => Some (f.1, compares l) end)
  | _ => badRequest ("`" +:+ f.1 +:+ "` was supplied in an unsupported format")
  end.

Definition buildFilter (q : query) (config : QueryFeatureConfig) : error + list (string * condition) :=
  l ← mapM (M:=sum error) (field_condition q) (filterableFields config);
  inr (omap (M:=list) (λ x, x) l).

(** ** The middleware *)
Definition min_number (x y : number) : number := if Num.leb x y then x else y.

Definition buildQueryOptions (config : QueryFeatureConfig) (q : query) : error + QueryOptions :=
  let maxLimit := nullish (maxLimit config) DEFAULT_MAX_LIMIT in
  page ← parsePositiveInt (param "page" q) "page" DEFAULT_PAGE;
  requestedLimit ← parsePositiveInt (param "limit" q) "limit" (nullish (defaultLimit config) DEFAULT_LIMIT);
  let limit := min_number requestedLimit maxLimit in
  filter ← buildFilter q config;
  searchClause ← buildSearchClause (param "search" q) config;
  sort ← parseSort (param "sort" q) config;
  inr (mkQueryOptions page limit (Num.mul (Num.sub page (Num.of_Z 1)) limit) sort
         (match searchClause with Some s => both filter s.1 s.2 | None => conditions filter end)).

Definition resolveQueryOptions (o : option QueryOptions) : QueryOptions :=
  nullish o (mkQueryOptions DEFAULT_PAGE DEFAULT_LIMIT Num.zero [("createdAt", (-1)%Z)] (conditions [])).

(** One flat object of the conditions, with the alternatives of a search. *)
Definition flattenQueryFilter (f : FilterQuery) : list (string * condition) * option (list string * string) :=
  match f with
  | conditions l => (l, None)
  | both l fields pattern => (l, Some (fields, pattern))
  end.

(** [Math.ceil] of a finite number. *)
Definition ceil (x : number) : number :=
  match x with
  | S754_finite s m e =>
      if (0 <=? e)%Z then x else
      let n := (- (- (if s then Z.neg m else Z.pos m) / 2 ^ (- e)))%Z in
      if (n =? 0)%Z then S754_zero s else Num.of_Z n
  | _ => x
  end.

Definition buildPaginationMeta (total page limit : number) : PaginationMeta :=
  let totalPages := if Num.ltb Num.zero limit then ceil (Num.div total limit) else Num.zero in
  let hasNext := Num.ltb page totalPages in
  let hasPrevious := Num.ltb (Num.of_Z 1) page && Num.ltb Num.zero total in
  mkMeta total totalPages page limit hasNext hasPrevious
    (if hasNext then Some (Num.add page (Num.of_Z 1)) else None)
    (if hasPrevious then Some (Num.sub page (Num.of_Z 1)) else None).

(** ** Page counts *)
Lemma ceil_quotient a b : (0 < a < 2 ^ 53)%Z → (0 < b < 2 ^ 53)%Z →
  ceil (Num.div (Num.of_Z a) (Num.of_Z b)) = Num.of_Z (ceil_div a b).
Proof.
  intros Ha Hb. destruct (div_of_Z a b Ha Hb) as (m & e & -> & Hm & He & Hn).
  set (n := ceil_div a b) in *. unfold ceil. destruct (Z.leb_spec 0 e) as [He0|He0].
  - assert (e = 0%Z) as -> by lia. symmetry. apply of_Z_unique; [lia| |lia].
    change (2 ^ (- 0))%Z with 1%Z in *. lia.
  - rewrite (ceil_range m e n Hm He0 Hn).
    assert (0 < n)%Z by (pose proof (pow_pos (- e) ltac:(lia)); nia).
    by destruct (Z.eqb_spec n 0) as [|_]; [lia|].
Qed.

(** The metadata computed on integers. *)
Definition exact_meta (total page limit : Z) : PaginationMeta :=
  let pages := ceil_div total limit in
  let hasNext := (page <? pages)%Z in
  let hasPrevious := (1 <? page)%Z && (0 <? total)%Z in
  mkMeta (Num.of_Z total) (Num.of_Z pages) (Num.of_Z page) (Num.of_Z limit) hasNext hasPrevious
    (if hasNext then Some (Num.of_Z (page + 1)) else None)
    (if hasPrevious then Some (Num.of_Z (page - 1)) else None).

Lemma ltb_zero z : (0 < z < 2 ^ 53)%Z → Num.ltb Num.zero (Num.of_Z z) = true ∧ Num.ltb (Num.of_Z z) Num.zero = false.
Proof. intros Hz. by destruct (Num.of_Z_form z Hz) as (m & -> & _). Qed.

(** C32: On totals, pages and limits below 2^53 the metadata of a listing,
    although computed with a rounded division, is exactly that of integer
    arithmetic: the number of pages is the ceiling of the quotient, and the next
    and previous page are given exactly when they exist. *)
Theorem buildPaginationMeta_exact total page limit :
  (0 ≤ total < 2 ^ 53)%Z → (0 < page < 2 ^ 53)%Z → (0 < limit < 2 ^ 53)%Z →
  buildPaginationMeta (Num.of_Z total) (Num.of_Z page) (Num.of_Z limit) = exact_meta total page limit.
Proof.
  intros Ht Hp Hl. unfold buildPaginationMeta, exact_meta.
  rewrite (proj1 (ltb_zero limit Hl)).
  assert ((if true then ceil (Num.div (Num.of_Z total) (Num.of_Z limit)) else Num.zero)
    = Num.of_Z (ceil_div total limit) ∧ 0 ≤ ceil_div total limit ≤ total)%Z as [-> Hc].
  { destruct (decide (total = 0%Z)) as [->|].
    - rewrite ceil_div_nonpos by lia. by destruct (Num.of_Z_form limit Hl) as (m & -> & _).
    - rewrite ceil_quotient by lia. pose proof (ceil_div_spec total limit ltac:(lia)). split; [done|nia]. }
  set (n := ceil_div total limit) in *. clearbody n.
  assert (Num.ltb (Num.of_Z page) (Num.of_Z n) = (page <? n)%Z) as ->.
  { destruct (decide (n = 0%Z)) as [->|]; [|by apply Num.of_Z_ltb; lia].
    change (Num.of_Z 0) with Num.zero. rewrite (proj2 (ltb_zero page Hp)). symmetry. apply Z.ltb_ge. lia. }
  rewrite Num.of_Z_ltb by lia.
  assert (Num.ltb Num.zero (Num.of_Z total) = (0 <? total)%Z) as ->.
  { destruct (decide (total = 0%Z)) as [->|]; [done|]. rewrite (proj1 (ltb_zero total ltac:(lia))).
    symmetry. apply Z.ltb_lt. lia. }
  f_equal.
  - destruct (Z.ltb_spec page n); [|done]. f_equal. apply add_of_Z; lia.
  - destruct (Z.ltb_spec 1 page), (Z.ltb_spec 0 total); cbn [andb]; try done. f_equal. apply sub_of_Z; lia.
Qed.

(** ** What the middleware lets through *)

(** Refusals are client errors. *)
Definition refused (e : error) : Prop := error_status e = Some Http.BAD_REQUEST.
Definition accepts {A} (r : error + A) (P : A → Prop) : Prop :=
  match r with inl e => refused e | inr a => P a end.

Lemma accepts_bind {A B} (r : error + A) (f : A → error + B) P Q :
  accepts r P → (∀ a, P a → accepts (f a) Q) → accepts (r ≫= f) Q.
Proof. destruct r; cbn; auto. Qed.
Lemma accepts_mono {A} (r : error + A) (P Q : A → Prop) : accepts r P → (∀ a, P a → Q a) → accepts r Q.
Proof. destruct r; cbn; auto. Qed.
Lemma accepts_mapM {A B} (f : A → error + B) (P : A → B → Prop) l :
  (∀ a, a ∈ l → accepts (f a) (P a)) → accepts (mapM (M:=sum error) f l) (Forall2 P l).
Proof.
  induction l as [|a l IH]; intros Hf; [constructor|]. cbn [mapM].
  eapply accepts_bind; [apply Hf; by left|]. intros b Hb.
  eapply accepts_bind; [apply IH; intros; apply Hf; by right|]. intros bs Hbs. by constructor.
Qed.
Lemma accepts_inv {A} (r : error + A) P a : accepts r P → r = inr a → P a.
Proof. by intros Hr ->. Qed.
Lemma refused_message e : refused e → ∃ m, e = AppError m Http.BAD_REQUEST.
Proof. destruct e; cbn; intros [= ->]. eauto. Qed.

(** The values of a declared type. *)
Definition has_type (t : FilterableFieldType) (v : operand) : Prop :=
  match t, v with
  | type_string, op_string _ => True
  | type_number, op_number x => Num.isFinite x = true
  | type_boolean, op_boolean _ => True
  | type_date, op_date _ => True
  | type_objectId, op_objectId s => isValidObjectId s = true
  | _, _ => False
  end.
Definition takes_list (o : FilterOperator) : Prop := o = in_ ∨ o = nin_.
Definition comparison_typed (t : FilterableFieldType) (o : FilterOperator * (operand + list operand)) : Prop :=
  match o.2 with
  | inl v => ¬ takes_list o.1 ∧ has_type t v
  | inr vs => takes_list o.1 ∧ Forall (has_type t) vs
  end.
Definition condition_typed (t : FilterableFieldType) (c : condition) : Prop :=
  match c with equals v => has_type t v | compares l => l ≠ [] ∧ Forall (comparison_typed t) l end.

Lemma coerceValue_typed raw t f : accepts (coerceValue raw t f) (has_type t).
Proof.
  destruct t; cbn; try done.
  - by destruct (Num.isFinite _) eqn:Hf.
  - by repeat case_match.
  - by case_match.
  - by destruct (isValidObjectId raw) eqn:Hv.
Qed.

Lemma coerce_list_typed t f v : accepts (coerce_list t f v) (Forall (has_type t)).
Proof.
  unfold coerce_list. eapply accepts_mono.
  - apply (accepts_mapM _ (λ _, has_type t)). intros. apply coerceValue_typed.
  - intros l Hl. induction Hl; constructor; done.
Qed.

Lemma parse_condition_typed t f o : accepts (parse_condition t f o) (comparison_typed t).
Proof.
  unfold parse_condition. destruct (filter_operator o.1) as [op|]; [|done].
  destruct o.2; try done. case_match eqn:Hop.
  - eapply accepts_bind; [apply coerce_list_typed|]. intros l Hl. split; [|done].
    apply orb_true_iff in Hop. unfold takes_list. by rewrite !bool_decide_eq_true in Hop.
  - eapply accepts_bind; [apply coerceValue_typed|]. intros v Hv. split; [|done]. cbn.
    apply orb_false_iff in Hop. rewrite !bool_decide_eq_false in Hop. unfold takes_list. tauto.
Qed.

Definition declared_condition (f : string * FilterableFieldType) (c : option (string * condition)) : Prop :=
  ∀ x, c = Some x → x.1 = f.1 ∧ condition_typed f.2 x.2.

Lemma field_condition_typed q f : accepts (field_condition q f) (declared_condition f).
Proof.
  unfold field_condition, declared_condition. destruct (absent _); [done|].
  destruct (param _ _) as [[]|]; try done.
  - eapply accepts_bind; [apply coerceValue_typed|]. intros v Hv x Hx. by simplify_eq/=.
  - eapply accepts_bind.
    { apply (accepts_mapM _ (λ _, comparison_typed f.2)). intros. apply parse_condition_typed. }
    intros l Hl [k c] Hx. destruct Hl as [|o c' os l Hc Hl]; [done|]. simplify_eq/=.
    split; [done|]. split; [done|]. constructor; [done|]. clear -Hl. induction Hl; by constructor.
Qed.

Lemma buildFilter_typed q config :
  accepts (buildFilter q config) (λ l, ∀ f c, (f, c) ∈ l →
    ∃ t, (f, t) ∈ filterableFields config ∧ condition_typed t c).
Proof.
  unfold buildFilter. eapply accepts_bind.
  { apply (accepts_mapM _ declared_condition). intros. apply field_condition_typed. }
  intros l Hl f c (x & Hx & Hfc)%list_elem_of_omap. subst x.
  apply list_elem_of_lookup in Hx as [i Hi]. destruct (Forall2_lookup_r _ _ _ _ _ Hl Hi) as ([f' t] & Hi' & Hd).
  destruct (Hd _ eq_refl) as [Hf Hc]. cbn in Hf, Hc. subst f'.
  exists t. split; [by eapply list_elem_of_lookup_2|done].
Qed.

Lemma parsePositiveInt_spec raw f d : Num.isInteger d = true → Num.leb (Num.of_Z 1) d = true →
  accepts (parsePositiveInt raw f d) (λ n, Num.isInteger n = true ∧ Num.leb (Num.of_Z 1) n = true).
Proof.
  intros Hd1 Hd2. unfold parsePositiveInt. destruct (absent raw); [done|]. destruct raw as [[]|]; try done.
  set (x := NumParse.of_string s). destruct (Num.isInteger x) eqn:Hi; [|done]. cbn [negb orb].
  destruct (Num.ltb x (Num.of_Z 1)) eqn:Hl; [done|]. split; [done|].
  rewrite Num.ltb_leb in Hl; [by destruct (Num.leb (Num.of_Z 1) x)|intros Hx; by rewrite Hx in Hi|done].
Qed.

(** A sort order over declared fields, each once. *)
Definition declared_sort (config : QueryFeatureConfig) (sort : list (string * Z)) : Prop :=
  NoDup (map fst sort) ∧ ∀ f d, (f, d) ∈ sort → f ∈ sortableFields config ∧ (d = 1 ∨ d = -1)%Z.

Lemma assign_keys {A} k (v : A) l :
  map fst (assign k v l) = if includes k (map fst l) then map fst l else map fst l ++ [k].
Proof.
  induction l as [|[k' v'] l IH]; [done|]. cbn [assign map fst]. destruct (String.eqb_spec k' k) as [->|Hne].
  - assert (includes k (k :: map fst l) = true) as -> by (apply includes_true; by left). done.
  - cbn [map fst]. rewrite IH. assert (includes k (k' :: map fst l) = includes k (map fst l)) as ->.
    { apply Bool.eq_iff_eq_true. rewrite !includes_true, elem_of_cons. naive_solver. }
    by destruct (includes k _).
Qed.
Lemma elem_of_assign {A} k (v : A) l x : x ∈ assign k v l → x = (k, v) ∨ x ∈ l.
Proof.
  induction l as [|[k' v'] l IH]; cbn [assign]; [by intros ->%list_elem_of_singleton; left|].
  destruct (String.eqb_spec k' k) as [->|Hne]; rewrite !elem_of_cons; intros [?|?]; [by left|by right; right| |].
  - right. by left.
  - destruct IH; auto.
Qed.

Lemma assign_declared config f d sort : declared_sort config sort → f ∈ sortableFields config → (d = 1 ∨ d = -1)%Z →
  declared_sort config (assign f d sort).
Proof.
  intros [Hnd Hs] Hf Hd. split.
  - rewrite assign_keys. destruct (includes f (map fst sort)) eqn:Hi; [done|].
    apply NoDup_app. split; [done|]. split; [|apply NoDup_singleton].
    intros x Hx ->%list_elem_of_singleton. apply includes_true in Hx. congruence.
  - intros f' d' [Heq|Hin]%elem_of_assign; [by simplify_eq|by apply Hs].
Qed.

Lemma parse_tokens_declared config sort l : declared_sort config sort →
  accepts (parse_tokens config sort l) (declared_sort config).
Proof.
  revert sort. induction l as [|t l IH]; intros sort Hs; [done|]. cbn [parse_tokens]. unfold parse_token.
  destruct (Str.truthy (Str.trim t)); cbn [negb]; [|by apply IH].
  destruct (Str.startsWith (Str.trim t) "-"); (destruct (includes _ _) eqn:Hi; [|done]);
    apply includes_true in Hi; apply IH; apply assign_declared; auto.
Qed.

Lemma parseSort_declared config raw :
  accepts (parseSort raw config) (λ s, s = default_sort config ∨ declared_sort config s).
Proof.
  unfold parseSort. destruct (absent raw); [by left|]. destruct raw as [[]|]; try done.
  assert (declared_sort config []) as H0' by (split; [constructor|]; intros ? ? ?%elem_of_nil; done).
  pose proof (parse_tokens_declared config [] (split "," s) H0') as Hp.
  destruct (parse_tokens config [] (split "," s)) as [e|[|x l]]; cbn in *; auto.
Qed.

(** A route's configuration: whole limits from one up. *)
Definition whole_from_1 (x : number) : Prop := Num.isInteger x = true ∧ Num.leb (Num.of_Z 1) x = true.
Definition config_ok (config : QueryFeatureConfig) : Prop :=
  whole_from_1 (nullish (maxLimit config) DEFAULT_MAX_LIMIT) ∧ whole_from_1 (nullish (defaultLimit config) DEFAULT_LIMIT).

Record admissible (config : QueryFeatureConfig) (o : QueryOptions) : Prop := {
  ad_page : whole_from_1 (qo_page o);
  ad_limit : whole_from_1 (qo_limit o);
  ad_bounded : Num.leb (qo_limit o) (nullish (maxLimit config) DEFAULT_MAX_LIMIT) = true;
  ad_skip : qo_skip o = Num.mul (Num.sub (qo_page o) (Num.of_Z 1)) (qo_limit o);
  ad_sort : qo_sort o = default_sort config ∨ declared_sort config (qo_sort o);
  ad_filter f c : (f, c) ∈ (flattenQueryFilter (qo_filter o)).1 →
    ∃ t, (f, t) ∈ filterableFields config ∧ condition_typed t c;
  ad_search fields p : (flattenQueryFilter (qo_filter o)).2 = Some (fields, p) →
    fields = searchableFields config ∧ ∃ term, Str.truthy term = true ∧ p = escapeRegExp term
}.

Lemma isInteger_finite x : Num.isInteger x = true → Num.isFinite x = true.
Proof. by destruct x. Qed.

Lemma min_number_spec x y : whole_from_1 x → whole_from_1 y →
  whole_from_1 (min_number x y) ∧ Num.leb (min_number x y) y = true.
Proof.
  intros Hx Hy. unfold min_number. destruct (Num.leb x y) eqn:Hl; [done|]. split; [done|].
  destruct Hy as [Hy%isInteger_finite _]. by destruct (Num.leb_total y y Hy Hy).
Qed.

Lemma buildSearchClause_spec raw config :
  accepts (buildSearchClause raw config) (λ c, ∀ fields p, c = Some (fields, p) →
    fields = searchableFields config ∧ ∃ term, Str.truthy term = true ∧ p = escapeRegExp term).
Proof.
  unfold buildSearchClause. destruct (absent raw || _); [done|]. destruct raw as [[]|]; try done.
  destruct (Str.truthy (Str.trim s)) eqn:Ht; [|done]. intros fields p Heq. simplify_eq. eauto.
Qed.

Lemma buildQueryOptions_admissible config q : config_ok config →
  accepts (buildQueryOptions config q) (admissible config).
Proof.
  intros [Hmax Hdef]. unfold buildQueryOptions.
  eapply accepts_bind; [by apply parsePositiveInt_spec|]. intros page Hpage.
  eapply accepts_bind; [by apply parsePositiveInt_spec; apply Hdef|]. intros lim Hlim.
  eapply accepts_bind; [apply buildFilter_typed|]. intros filter Hf.
  eapply accepts_bind; [apply buildSearchClause_spec|]. intros c Hc.
  eapply accepts_bind; [apply parseSort_declared|]. intros sort Hs.
  destruct (min_number_spec lim _ Hlim Hmax) as [H1 H2].
  destruct c as [[fields p]|]; split; try done.
Qed.

(** The parameters a route reads. *)
Definition read_params (config : QueryFeatureConfig) : list string :=
  ["page"; "limit"; "search"; "sort"] ++ map fst (filterableFields config).

Lemma buildFilter_ext q q' config : (∀ k, k ∈ map fst (filterableFields config) → param k q = param k q') →
  buildFilter q config = buildFilter q' config.
Proof.
  unfold buildFilter. intros Hk. f_equal. revert Hk.
  induction (filterableFields config) as [|f l IH]; intros Hk; [done|]. cbn [mapM].
  assert (field_condition q f = field_condition q' f) as ->.
  { unfold field_condition. rewrite (Hk f.1); [done|by left]. }
  rewrite IH; [done|]. intros k Hin. apply Hk. by right.
Qed.

Lemma buildQueryOptions_ext config q q' : (∀ k, k ∈ read_params config → param k q = param k q') →
  buildQueryOptions config q = buildQueryOptions config q'.
Proof.
  intros Hk. unfold buildQueryOptions. rewrite (buildFilter_ext q q') by (intros; apply Hk, elem_of_app; auto).
  assert (∀ k, k ∈ ["page"; "limit"; "search"; "sort"] → param k q = param k q') as Hp
    by (intros; apply Hk, elem_of_app; auto).
  by rewrite !(Hp "page"), !(Hp "limit"), !(Hp "search"), !(Hp "sort") by set_solver.
Qed.

(** ** What a query asks for *)

(** A parameter that is a positive integer, or is not given. *)
Definition count_given (raw : option json) (fallback n : number) : Prop :=
  if absent raw then n = fallback
  else ∃ s, raw = Some (JStr s) ∧ n = NumParse.of_string s ∧ Num.isInteger n = true ∧ Num.ltb n (Num.of_Z 1) = false.

(** A text that denotes a value of a type. *)
Definition denotes (t : FilterableFieldType) (text : string) (v : operand) : Prop :=
  match t with
  | type_string => v = op_string text
  | type_number => v = op_number (NumParse.of_string text) ∧ Num.isFinite (NumParse.of_string text) = true
  | type_boolean => text = "true" ∧ v = op_boolean true ∨ text = "false" ∧ v = op_boolean false
  | type_date => ∃ d, parseDate text = Some d ∧ v = op_date d
  | type_objectId => v = op_objectId text ∧ isValidObjectId text = true
  end.

(** The non-empty entries of a comma-separated text. *)
Definition comma_entries (text : string) : list string :=
  List.filter Str.truthy (map Str.trim (split "," text)).

(** [field[name]=text]: an operator of the list, on values of the field's type. *)
Definition compares_as (t : FilterableFieldType) (given : string * json) (c : FilterOperator * (operand + list operand)) : Prop :=
  filter_operator given.1 = Some c.1 ∧ ∃ text, given.2 = JStr text ∧
    match c.2 with
    | inl v => ¬ takes_list c.1 ∧ denotes t text v
    | inr vs => takes_list c.1 ∧ Forall2 (denotes t) (comma_entries text) vs
    end.

(** The condition the query puts on a declared field: none when the parameter is
    absent or an object without operators. *)
Definition condition_given (q : query) (f : string * FilterableFieldType) (c : option (string * condition)) : Prop :=
  if absent (param f.1 q) then c = None
  else (∃ s v, param f.1 q = Some (JStr s) ∧ denotes f.2 s v ∧ c = Some (f.1, equals v)) ∨
    (∃ given l, param f.1 q = Some (JObj given) ∧ Forall2 (compares_as f.2) given l ∧
       c = match l with [] => None | _ => Some (f.1, compares l) end).

(** The sort order: every entry names a sortable field, in either direction. *)
Definition sort_key (entry : string) : string * Z :=
  if Str.startsWith entry "-" then (String.substring 1 (String.length entry) entry, (-1)%Z) else (entry, 1%Z).
Definition assign_keys_of (sort : list (string * Z)) (entries : list string) : list (string * Z) :=
  fold_left (λ s e, assign (sort_key e).1 (sort_key e).2 s) entries sort.
Definition sort_given (config : QueryFeatureConfig) (raw : option json) (sort : list (string * Z)) : Prop :=
  if absent raw then sort = default_sort config
  else ∃ s, raw = Some (JStr s) ∧ (∀ e, e ∈ comma_entries s → (sort_key e).1 ∈ sortableFields config) ∧
    sort = match comma_entries s with [] => default_sort config | l => assign_keys_of [] l end.

(** The search: the trimmed text over the searchable fields. *)
Definition search_given (config : QueryFeatureConfig) (raw : option json) (c : option (list string * string)) : Prop :=
  if absent raw || bool_decide (searchableFields config = []) then c = None
  else ∃ s, raw = Some (JStr s) ∧
    c = if Str.truthy (Str.trim s) then Some (searchableFields config, escapeRegExp (Str.trim s)) else None.

(** The options a well-formed query asks for.  A query is malformed when it asks
    for none. *)
Definition asks_for (config : QueryFeatureConfig) (q : query) (o : QueryOptions) : Prop :=
  ∃ page, count_given (param "page" q) DEFAULT_PAGE page ∧
  ∃ requested, count_given (param "limit" q) (nullish (defaultLimit config) DEFAULT_LIMIT) requested ∧
  ∃ filter, (∃ cs, Forall2 (condition_given q) (filterableFields config) cs ∧ filter = omap (M:=list) (λ x, x) cs) ∧
  ∃ search, search_given config (param "search" q) search ∧
  ∃ sort, sort_given config (param "sort" q) sort ∧
  let limit := min_number requested (nullish (maxLimit config) DEFAULT_MAX_LIMIT) in
  o = mkQueryOptions page limit (Num.mul (Num.sub page (Num.of_Z 1)) limit) sort
        (match search with Some s => both filter s.1 s.2 | None => conditions filter end).

(** A result that is the one with a property, or a refusal when nothing has it. *)
Definition computes {A} (r : error + A) (P : A → Prop) : Prop :=
  match r with inl e => refused e ∧ ∀ a, ¬ P a | inr a => ∀ a', P a' ↔ a' = a end.

Lemma computes_equiv {A} (r : error + A) (P Q : A → Prop) : (∀ a, P a ↔ Q a) → computes r P → computes r Q.
Proof. destruct r; cbn; intros Heq; [intros [? Hno]; split; [done|]; intros a ?%Heq; by eapply Hno|intros HP a'; by rewrite <-Heq]. Qed.
Lemma computes_ret {A} (a : A) : computes (inr a) (λ x, x = a).
Proof. done. Qed.
Lemma computes_bind {A B} (r : error + A) (f : A → error + B) P Q :
  computes r P → (∀ a, P a → computes (f a) (Q a)) → computes (r ≫= f) (λ b, ∃ a, P a ∧ Q a b).
Proof.
  destruct r as [e|a]; cbn; intros Hr Hf.
  - split; [apply Hr|]. intros b (a & Ha & _). by apply (proj2 Hr a).
  - eapply computes_equiv; [|apply (Hf a); by apply Hr]. intros b. split; [intros; exists a; by rewrite Hr|].
    intros (a' & ->%Hr & HQ). done.
Qed.
Lemma computes_mapM {A B} (f : A → error + B) (P : A → B → Prop) l :
  (∀ a, computes (f a) (P a)) → computes (mapM (M:=sum error) f l) (Forall2 P l).
Proof.
  intros Hf. induction l as [|a l IH]; cbn [mapM].
  - intros bs. split; [by intros ->%Forall2_nil_inv_l|by intros ->].
  - eapply computes_equiv; [|apply (computes_bind _ _ (P a) (λ b bs, ∃ bs', Forall2 P l bs' ∧ bs = b :: bs')); [apply Hf|]].
    + intros bs. split.
      * intros (b & Hb & bs' & Hbs & ->). by constructor.
      * intros (b & bs' & Hb & Hbs & ->)%Forall2_cons_inv_l. eauto.
    + intros b _. apply (computes_bind _ _ (Forall2 P l) (λ bs' bs, bs = b :: bs')); [done|]. intros. apply computes_ret.
Qed.
Lemma computes_iff {A} (r : error + A) P a : computes r P → r = inr a ↔ P a.
Proof. destruct r; cbn; [intros [_ Hno]; split; [done|by intros ?%Hno]|]. intros ->. split; congruence. Qed.

Lemma parsePositiveInt_computes raw f d : computes (parsePositiveInt raw f d) (count_given raw d).
Proof.
  unfold parsePositiveInt, count_given. destruct (absent raw); [done|].
  destruct raw as [[]|]; try (split; [done|]; by intros n (s' & ? & _)).
  set (x := NumParse.of_string s). destruct (Num.isInteger x) eqn:Hi; cbn [negb orb].
  - destruct (Num.ltb x (Num.of_Z 1)) eqn:Hl.
    + split; [done|]. intros n (s' & [= <-] & -> & _ & Hn). unfold x in Hl. congruence.
    + intros n. split; [by intros (s' & [= <-] & -> & _)|intros ->; eauto].
  - split; [done|]. intros n (s' & [= <-] & -> & Hn & _). unfold x in Hi. congruence.
Qed.

Lemma coerceValue_computes t text f : computes (coerceValue text t f) (denotes t text).
Proof.
  unfold denotes. destruct t; cbn [coerceValue].
  - done.
  - generalize (NumParse.of_string text). intros x. destruct (Num.isFinite x); [intros v; split; [by intros [-> _]|by intros ->]|].
    split; [done|]. by intros v [_ ?].
  - destruct (String.eqb_spec text "true") as [->|]; [cbn; naive_solver|].
    destruct (String.eqb_spec text "false") as [->|]; cbn; naive_solver.
  - destruct (parseDate text); cbn; naive_solver.
  - destruct (isValidObjectId text); cbn; [naive_solver|split; [done|naive_solver]].
Qed.

Lemma coerce_list_computes t f text : computes (coerce_list t f text) (Forall2 (denotes t) (comma_entries text)).
Proof. apply computes_mapM. intros entry. apply coerceValue_computes. Qed.

Lemma compares_as_computes t f given : computes (parse_condition t f given) (compares_as t given).
Proof.
  unfold parse_condition, compares_as. destruct (filter_operator given.1) as [op|]; [|split; [done|]; by intros c [? _]].
  destruct given.2 as [| | |text| |]; try (split; [done|]; by intros c (_ & ? & ? & _)).
  assert (bool_decide (op = in_) || bool_decide (op = nin_) = true ↔ takes_list op) as Hop
    by (rewrite orb_true_iff, !bool_decide_eq_true; done).
  destruct (bool_decide _ || bool_decide _).
  - eapply computes_equiv; [|apply (computes_bind _ _ (Forall2 (denotes t) (comma_entries text)) (λ l c, c = (op, inr l))); [apply coerce_list_computes|done]].
    intros [op' [v|vs]]; cbn; naive_solver.
  - eapply computes_equiv; [|apply (computes_bind _ _ (denotes t text) (λ v c, c = (op, inl v))); [apply coerceValue_computes|done]].
    assert (¬ takes_list op) by (intros ?%Hop; done).
    intros [op' [v|vs]]; cbn; naive_solver.
Qed.

Lemma condition_given_computes q f : computes (field_condition q f) (condition_given q f).
Proof.
  unfold field_condition, condition_given. destruct (absent _); [done|].
  destruct (param f.1 q) as [[| | |s| |given]|]; try (split; [done|]; intros c [(? & ? & ? & _)|(? & ? & ? & _)]; done).
  - eapply computes_equiv; [|apply (computes_bind _ _ (denotes f.2 s) (λ v c, c = Some (f.1, equals v))); [apply coerceValue_computes|done]].
    intros c. naive_solver.
  - eapply computes_equiv; [|apply (computes_bind _ _ (Forall2 (compares_as f.2) given)
      (λ l c, c = match l with [] => None | _ => Some (f.1, compares l) end)); [apply computes_mapM|done]].
    + intros c. naive_solver.
    + intros. apply compares_as_computes.
Qed.

Lemma parse_tokens_computes config sort l :
  computes (parse_tokens config sort l) (λ r,
    (∀ e, e ∈ List.filter Str.truthy (map Str.trim l) → (sort_key e).1 ∈ sortableFields config) ∧
    r = assign_keys_of sort (List.filter Str.truthy (map Str.trim l))).
Proof.
  revert sort. induction l as [|t l IH]; intros sort; [split; [by intros [_ ->]|intros ->; split; [by intros ? ?%elem_of_nil|done]]|].
  cbn [parse_tokens map List.filter]. unfold parse_token.
  destruct (Str.truthy (Str.trim t)); cbn [negb]; [|apply IH].
  set (e := Str.trim t).
  assert ((sort_key e).1 = if Str.startsWith e "-" then String.substring 1 (String.length e) e else e) as Hk
    by (unfold sort_key; by destruct (Str.startsWith e "-")).
  assert ((sort_key e).2 = if Str.startsWith e "-" then -1 else 1)%Z as Hd
    by (unfold sort_key; by destruct (Str.startsWith e "-")).
  rewrite <-Hk, <-Hd. destruct (includes (sort_key e).1 (sortableFields config)) eqn:Hi.
  - eapply computes_equiv; [|apply IH]. intros r. cbn [assign_keys_of fold_left].
    apply includes_true in Hi. setoid_rewrite elem_of_cons. naive_solver.
  - split; [done|]. intros r [Hall _]. rewrite <-not_true_iff_false, includes_true in Hi.
    apply Hi, Hall. by left.
Qed.

Lemma assign_keys_of_cons l e : assign_keys_of [] (e :: l) ≠ [].
Proof.
  unfold assign_keys_of. cbn [fold_left]. assert (assign (sort_key e).1 (sort_key e).2 [] ≠ []) as Hne by done.
  revert Hne. generalize (assign (sort_key e).1 (sort_key e).2 []). induction l as [|e' l IH]; intros s Hs; [done|].
  cbn [fold_left]. apply IH. destruct s as [|[k v] s]; [done|]. cbn [assign]. by destruct (String.eqb _ _).
Qed.

Lemma sort_given_computes config raw : computes (parseSort raw config) (sort_given config raw).
Proof.
  unfold parseSort, sort_given. destruct (absent raw); [done|].
  destruct raw as [[| | |s| |]|]; try (split; [done|]; by intros r (? & ? & _)).
  pose proof (parse_tokens_computes config [] (split "," s)) as Hp. unfold comma_entries.
  set (es := List.filter _ _) in *. destruct (parse_tokens config [] (split "," s)) as [e|r].
  - split; [apply Hp|]. intros r (s' & [= <-] & Hall & _). by apply (proj2 Hp (assign_keys_of [] es)).
  - cbn in Hp. destruct (proj2 (Hp r) eq_refl) as [Hall Hr].
    assert (match r with [] => default_sort config | _ => r end
      = match es with [] => default_sort config | l => assign_keys_of [] l end) as Heq.
    { destruct es as [|e es]; [by subst r|]. destruct r; [|by rewrite Hr]. by destruct (assign_keys_of_cons es e). }
    assert (match r with [] => inr (default_sort config) | _ => inr r end
      = inr (A:=error) (match r with [] => default_sort config | _ => r end)) as -> by by destruct r.
    rewrite Heq. intros r'. split; [intros (s' & [= <-] & _ & ->); fold es; by destruct es|].
    intros ->. exists s. split_and!; [done..|]. fold es. by destruct es.
Qed.

Lemma search_given_computes config raw : computes (buildSearchClause raw config) (search_given config raw).
Proof.
  unfold buildSearchClause, search_given. destruct (absent raw || _); [done|].
  destruct raw as [[| | |s| |]|]; try (split; [done|]; by intros r (? & ? & _)).
  destruct (Str.truthy (Str.trim s)) eqn:Ht; cbn; intros c;
    (split; [intros (s' & [= <-] & ->); by rewrite Ht|intros ->; exists s; by rewrite Ht]).
Qed.

Lemma buildFilter_computes config q : computes (buildFilter q config)
  (λ l, ∃ cs, Forall2 (condition_given q) (filterableFields config) cs ∧ l = omap (M:=list) (λ x, x) cs).
Proof.
  apply (computes_bind _ _ (Forall2 (condition_given q) (filterableFields config))); [|done].
  apply computes_mapM. intros. apply condition_given_computes.
Qed.

Lemma buildQueryOptions_computes config q : computes (buildQueryOptions config q) (asks_for config q).
Proof.
  unfold buildQueryOptions, asks_for.
  apply (computes_bind _ _ (count_given _ _)); [apply parsePositiveInt_computes|intros page _].
  apply (computes_bind _ _ (count_given _ _)); [apply parsePositiveInt_computes|intros requested _].
  apply (computes_bind _ _ (λ l, ∃ cs, _ ∧ l = _)); [apply buildFilter_computes|intros filter _].
  apply (computes_bind _ _ (search_given _ _)); [apply search_given_computes|intros search _].
  apply (computes_bind _ _ (sort_given _ _)); [apply sort_given_computes|intros sort _].
  apply computes_ret.
Qed.

(** C31: A listing succeeds exactly on the queries that ask for something: page
    and limit are positive integers, every sort entry names a sortable field, and
    every condition on a declared field is a value of its type or values under the
    allowed operators, all taken over as given.  Everything else, a malformed
    number, an unsortable field, an unknown operator or a value of another type
    or format, is refused as a bad request and not ignored.  What comes out is
    always a positive page, a limit between one and the route's maximum, an order
    over sortable fields and typed conditions on filterable fields, and
    parameters that the route does not declare change nothing. *)
Theorem listing_whitelist config q : config_ok config →
  (∀ o, buildQueryOptions config q = inr o ↔ asks_for config q o) ∧
  (∀ o, asks_for config q o → admissible config o) ∧
  ((¬ ∃ o, asks_for config q o) ↔ ∃ m, buildQueryOptions config q = inl (AppError m Http.BAD_REQUEST)) ∧
  (∀ q', (∀ k, k ∈ read_params config → param k q = param k q') →
    buildQueryOptions config q' = buildQueryOptions config q).
Proof.
  intros Hc. pose proof (buildQueryOptions_admissible config q Hc) as Ha.
  pose proof (buildQueryOptions_computes config q) as Hs.
  assert (∀ o, buildQueryOptions config q = inr o ↔ asks_for config q o) as Hiff
    by (intros; by apply computes_iff).
  split; [done|]. split; [|split].
  - intros o Ho%Hiff. by apply (accepts_inv _ _ _ Ha).
  - split; [|intros [m Hm] [o Ho%Hiff]; congruence]. intros Hno.
    destruct (buildQueryOptions config q) as [e|o] eqn:Hr; [|by destruct Hno; exists o; apply Hiff].
    destruct (refused_message _ Ha) as [m ->]. by exists m.
  - intros q' Hk. symmetry. by apply buildQueryOptions_ext.
Qed.

(** ** A search term is matched literally *)

(** The text a regular expression without operators matches: a syntax character
    stands for itself only after a backslash. *)
Fixpoint literal_pattern (l : list ascii) : option (list ascii) :=
  match l with
  | [] => Some []
  | "\"%char :: c :: l => if syntax_character c then (c ::.) <$> literal_pattern l else None
  | c :: l => if syntax_character c then None else (c ::.) <$> literal_pattern l
  end.

(** The pattern of a search is read as its term. *)
Lemma escapeRegExp_literal (term : string) : literal_pattern (Str.chars (escapeRegExp term)) = Some (Str.chars term).
Proof.
  unfold escapeRegExp, Str.chars, Str.of_chars. rewrite String.list_ascii_of_string_of_list_ascii.
  induction (String.list_ascii_of_string term) as [|c l IH]; [done|]. cbn [flat_map].
  destruct (syntax_character c) eqn:Hc; cbn [app].
  - cbn [literal_pattern]. by rewrite Hc, IH.
  - destruct (ascii_dec c "\"%char) as [->|Hne]; [by vm_compute in Hc|].
    assert (∀ r, literal_pattern (c :: r) = if syntax_character c then None else (c ::.) <$> literal_pattern r) as ->.
    { intros r. destruct c as [[] [] [] [] [] [] [] []]; done. }
    by rewrite Hc, IH.
Qed.

(** ** Witnesses *)
End QueryOptions.

Module QueryExamples.
Import ExampleEnv.

#[export] Instance query_env : QueryEnv := {| parseDate := λ _, None |}.
(** The configuration of [routes/fleetRoutes.ts]. *)
Definition fleetListQuery : QueryFeatureConfig :=
  mkQueryConfig ["createdAt"; "name"] [("isActive", type_boolean)] ["name"] (Some [("createdAt", (-1)%Z)])
    (Some (Num.of_Z 10)) None.
Definition query : list (string * json) :=
  [("page", JStr "4"); ("limit", JStr "500"); ("sort", JStr "-name, createdAt,-name"); ("isActive", JStr "false");
   ("search", JStr " a.b "); ("$where", JStr "1")].
Definition options : QueryOptions :=
  mkQueryOptions (Num.of_Z 4) (Num.of_Z 100) (Num.of_Z 300) [("name", (-1)%Z); ("createdAt", 1%Z)]
    (both [("isActive", equals (op_boolean false))] ["name"] "a\.b").

Example parsed : buildQueryOptions fleetListQuery query = inr options.
Proof. vm_compute. reflexivity. Qed.
Example unsortable : ∃ m, buildQueryOptions fleetListQuery [("sort", JStr "ownerId")] = inl (AppError m 400).
Proof. eexists. vm_compute. reflexivity. Qed.
Example unknown_operator :
  ∃ m, buildQueryOptions fleetListQuery [("isActive", JObj [("$where", JStr "1")])] = inl (AppError m 400).
Proof. eexists. vm_compute. reflexivity. Qed.
(** A huge page is a positive integer, but what it skips is no finite number. *)
Example skip_overflows :
  ∃ o, buildQueryOptions fleetListQuery [("page", JStr "1e308")] = inr o ∧ Num.isFinite (qo_skip o) = false.
Proof. eexists. split; [vm_compute; reflexivity|reflexivity]. Qed.

(** A well-formed query is understood, and a malformed page is no query. *)
Lemma listing_whitelist_witness :
  config_ok fleetListQuery ∧ asks_for fleetListQuery query options ∧ admissible fleetListQuery options ∧
  ¬ ∃ o, asks_for fleetListQuery [("page", JStr "0")] o.
Proof.
  assert (config_ok fleetListQuery) as Hc by (repeat split; reflexivity).
  destruct (listing_whitelist fleetListQuery query Hc) as (Hiff & Hadm & _).
  assert (asks_for fleetListQuery query options) as Ho by (apply Hiff; vm_compute; reflexivity).
  split; [exact Hc|]. split; [exact Ho|]. split; [by apply Hadm|].
  apply (proj1 (proj2 (proj2 (listing_whitelist fleetListQuery [("page", JStr "0")] Hc)))).
  eexists. vm_compute. reflexivity.
Defined.

Lemma buildPaginationMeta_exact_witness :
  buildPaginationMeta (Num.of_Z 42) (Num.of_Z 5) (Num.of_Z 10) = exact_meta 42 5 10 ∧
  meta_totalPages (exact_meta 42 5 10) = Num.of_Z 5 ∧ nextPage (exact_meta 42 5 10) = None.
Proof. split; [apply buildPaginationMeta_exact; lia|]. split; reflexivity. Defined.
End QueryExamples.
