(* ===== verification/Currency.v ===== *)
(** * Assets ([src/src/services/currencyService.ts])

    Validation and normalisation of Stellar assets, and the comparison used
    before an escrow is funded. *)
From S2P Require Import Prelude JsLib Models.
From Stdlib Require Import Ascii.

Section Currency.
Context `{Env}.

(** The pattern [/^[A-Z0-9]{1,12}$/]. *)
Definition code_char (c : ascii) : bool :=
  let n := N_of_ascii c in
  (((65 <=? n) && (n <=? 90)) || ((48 <=? n) && (n <=? 57)))%N.
Definition code_ok (s : string) : bool :=
  forallb code_char (Str.chars s)
  && (1 <=? Str.length s)%Z && (Str.length s <=? 12)%Z.

Definition opt_truthy (o : option string) : bool :=
  if o is Some s then Str.truthy s else false.

(** The issued tokens the configuration supports. *)
Definition supported_assets : list (option string * option string) :=
  [(Some "USDC", USDC_ASSET_ISSUER);
   (Str.toUpperCase <$> NATIVE_TOKEN_CODE, NATIVE_TOKEN_ISSUER)].

Definition find_supported (c : string) : option (option string * option string) :=
  head (filter (λ a, bool_decide (a.1 = Some c) && opt_truthy a.2 = true) supported_assets).

Definition validateAsset (input : Asset) : error + Asset :=
  let c := Str.toUpperCase (Str.trim input.(code)) in
  let i := Str.trim <$> input.(issuer) in
  if negb (code_ok c) then inl (AppError "Invalid asset" Http.BAD_REQUEST)
  else if String.eqb c "XLM" then
    if opt_truthy i then inl (AppError "XLM must not have an issuer" Http.BAD_REQUEST)
    else inr (mkAsset c None)
  else
    let unsupported := AppError ("Unsupported asset or issuer: " +:+ c) Http.BAD_REQUEST in
    match find_supported c with
    | None => inl unsupported
    | Some s =>
        if opt_truthy i && bool_decide (i = s.2) then inr (mkAsset c i)
        else inl unsupported
    end.

Definition assertSameAsset (expected actual : Asset) : error + unit :=
  match validateAsset expected with
  | inl e => inl e
  | inr lft =>
      match validateAsset actual with
      | inl e => inl e
      | inr rgt =>
          if decide (code lft = code rgt ∧ issuer lft = issuer rgt) then inr tt
          else inl (AppError "Escrow asset must match the delivery escrow asset" Http.CONFLICT)
      end
  end.

Definition assertLockContractAsset (asset : Asset) : error + unit :=
  match validateAsset asset with
  | inl e => inl e
  | inr a =>
      if String.eqb (code a) "XLM" then inr tt
      else inl (AppError "Soroban escrow lock contract does not support this asset yet"
                  Http.UNPROCESSABLE_ENTITY)
  end.

(** ** Normal forms *)
Lemma code_char_upper c : code_char c = true → Str.upper c = c.
Proof. by destruct c as [[] [] [] [] [] [] [] []]. Qed.
Lemma code_char_solid c : code_char c = true → Str.solid c = true.
Proof. by destruct c as [[] [] [] [] [] [] [] []]. Qed.

Lemma trim_code l : forallb code_char l = true → Str.trim_list l = l.
Proof. intros Hl. apply Str.trim_solid. rewrite forallb_forall in *. intros c Hc. by apply code_char_solid, Hl. Qed.

Lemma code_ok_normal s : code_ok s = true → Str.toUpperCase (Str.trim s) = s.
Proof.
  unfold code_ok. rewrite !andb_true_iff. intros [[Hs _] _].
  assert (Str.trim s = s) as ->.
  { unfold Str.trim. by rewrite trim_code, Str.of_chars_chars. }
  unfold Str.toUpperCase. rewrite <-(Str.of_chars_chars s) at 2. f_equal.
  revert Hs. induction (Str.chars s) as [|c l IH]; [done|]. cbn.
  intros [Hc Hl]%andb_true_iff. by rewrite code_char_upper, IH.
Qed.

(** What an accepted asset is: native XLM, or a configured token with
    its configured issuer. *)
Lemma validateAsset_inv a b :
  validateAsset a = inr b →
  code_ok (code b) = true ∧
  ((b = mkAsset "XLM" None) ∨
   (code b ≠ "XLM" ∧ ∃ s i, find_supported (code b) = Some s ∧ s.2 = Some i ∧
      issuer b = Some i ∧ Str.truthy i = true ∧ Str.trim i = i)).
Proof.
  unfold validateAsset. set (c := Str.toUpperCase _).
  destruct (code_ok c) eqn:Hc; [|done]. cbn [negb].
  destruct (String.eqb_spec c "XLM") as [HX|HX].
  { destruct (opt_truthy _); intros [= <-]. cbn. rewrite HX. split; [done|by left]. }
  destruct (find_supported c) as [s|] eqn:Hs; [|done].
  destruct (issuer a) as [i|]; [|done]. cbn.
  destruct (Str.truthy (Str.trim i)) eqn:Ht; [|done]. cbn.
  case_bool_decide as Hi; intros [= <-]. cbn. split; [done|]. right. split; [done|].
  exists s, (Str.trim i). by rewrite Str.trim_idemp.
Qed.

Lemma validateAsset_idemp a b : validateAsset a = inr b → validateAsset b = inr b.
Proof.
  intros Hv. destruct (validateAsset_inv _ _ Hv) as [Hc [->|(HX & s & i & Hs & Hi & Hb & Ht & Htr)]].
  { done. }
  unfold validateAsset. rewrite code_ok_normal, Hc by done. cbn [negb].
  apply String.eqb_neq in HX. rewrite HX, Hs, Hb. cbn. rewrite Htr, Ht, Hi.
  rewrite bool_decide_true by done. destruct b; cbn in *. by subst.
Qed.
End Currency.
