(* ===== verification/ProofOfDelivery.v ===== *)
(** * Proof of delivery ([src/src/services/proofOfDeliveryService.ts])

    The photographic evidence a driver uploads, and the guard that completion
    and escrow release use.  The storage backend is a parameter. *)
From S2P Require Import Prelude JsLib Models Repositories.

(** What a storage driver answers to [upload(buffer, path, mimeType)]: the
    object's key and URL, or an error. *)
Class StorageDriver := {
  upload : string → string → string → error + (string * string)
}.

Record UploadProofInput := mkUploadProofInput {
  u_deliveryId : string;
  u_uploadedBy : string;
  u_originalName : string;
  u_mimeType : string;
  u_buffer : string;
  u_sizeBytes : Z
}.

Definition ALLOWED_PROOF_MIME_TYPES : list string :=
  ["image/jpeg"; "image/png"; "image/webp"].

(** A delivery to which nothing more may happen. *)
Definition is_finished (s : DeliveryStatus.t) : bool :=
  includes s [DeliveryStatus.COMPLETED; DeliveryStatus.CANCELLED].

Section ProofOfDelivery.
Context `{Env, StorageDriver}.

(** [delivery.driverId && delivery.driverId !== uploadedBy]. *)
Definition foreign_uploader (d : Delivery) (by_ : string) : bool :=
  match d.(driverId) with
  | Some i => Str.truthy i && negb (String.eqb i by_)
  | None => false
  end.

Definition uploadProofOfDelivery (input : UploadProofInput) : action (hydrated Delivery) :=
  let id := input.(u_deliveryId) in
  _ ← throw_if (negb (isValidObjectId id))
        (AppError "Invalid delivery ID format." Http.BAD_REQUEST);
  found ← DeliveryRepository.model_findById id;
  d ← or_throw found (AppError "Delivery not found." Http.NOT_FOUND);
  _ ← throw_if (is_finished (status (body d)))
        (AppError ("Cannot upload proof of delivery for a delivery with status '"
           +:+ DeliveryStatus.to_string (status (body d)) +:+ "'.") Http.CONFLICT);
  _ ← throw_if (foreign_uploader (body d) input.(u_uploadedBy))
        (AppError "Only the driver assigned to this delivery may upload proof of delivery."
           Http.FORBIDDEN);
  _ ← throw_if (negb (includes input.(u_mimeType) ALLOWED_PROOF_MIME_TYPES))
        (AppError ("Unsupported file type " +:+ Str.quote input.(u_mimeType) +:+ ". Allowed types: "
           +:+ Str.join ", " ALLOWED_PROOF_MIME_TYPES +:+ ".") Http.UNSUPPORTED_MEDIA_TYPE);
  _ ← throw_if (PROOF_OF_DELIVERY_MAX_SIZE_MB * 1024 * 1024 <? input.(u_sizeBytes))%Z
        (AppError ("File exceeds the maximum allowed size of "
           +:+ pretty PROOF_OF_DELIVERY_MAX_SIZE_MB +:+ "MB.") Http.REQUEST_TOO_LONG);
  stored ← Done (upload input.(u_buffer)
                   ("proof-of-delivery/" +:+ id +:+ "/" +:+ input.(u_originalName))
                   input.(u_mimeType));
  t ← now;
  let proof := mkProofOfDelivery stored.1 stored.2 UPLOAD_STORAGE_DRIVER
                 input.(u_mimeType) input.(u_sizeBytes) input.(u_uploadedBy) t in
  DeliveryRepository.save d (λ d, d <| proofOfDelivery := Some proof |>).

Definition getProofOfDelivery (id : string) : action (option ProofOfDelivery) :=
  _ ← throw_if (negb (isValidObjectId id))
        (AppError "Invalid delivery ID format." Http.BAD_REQUEST);
  found ← DeliveryRepository.model_findById id;
  d ← or_throw found (AppError "Delivery not found." Http.NOT_FOUND);
  mret (proofOfDelivery (body d)).

Definition proof_required : error :=
  AppError "Proof of delivery is required before this delivery can be completed or its escrow released."
    Http.UNPROCESSABLE_ENTITY.

Definition assertProofOfDeliveryExists (id : string) : action unit :=
  _ ← throw_if (negb (isValidObjectId id))
        (AppError "Invalid delivery ID format." Http.BAD_REQUEST);
  found ← DeliveryRepository.model_findById id;
  throw_if (negb (bool_decide (is_Some (found ≫= λ d, proofOfDelivery (body d)))))
    proof_required.

(** ** Laws used by the clients *)

Definition has_proof (id : string) (w : World) : Prop :=
  ∃ d, deliveries w !! id = Some d ∧ is_Some (proofOfDelivery d).

Lemma assertProof_run id w :
  run (assertProofOfDeliveryExists id) w =
    (if negb (isValidObjectId id) then inl (AppError "Invalid delivery ID format." Http.BAD_REQUEST)
     else if bool_decide (is_Some (deliveries w !! id ≫= proofOfDelivery)) then inr tt
     else inl proof_required, w).
Proof.
  unfold assertProofOfDeliveryExists, DeliveryRepository.model_findById.
  run_simpl. unfold find_by_id. destruct (isValidObjectId id); cbn; [|done].
  destruct (deliveries w !! id) as [d|]; cbn; [|done].
  by destruct (proofOfDelivery d).
Qed.

Lemma assertProof_ok id w w' u :
  run (assertProofOfDeliveryExists id) w = (inr u, w') →
  w' = w ∧ isValidObjectId id = true ∧ has_proof id w.
Proof.
  rewrite assertProof_run. destruct (isValidObjectId id); [|done]. cbn.
  case_bool_decide as Hp; intros [= <- <-]. split; [done|]. split; [done|].
  destruct Hp as [p Hp]. apply bind_Some in Hp as (d & Hd & Hp).
  exists d. split; [done|]. by eexists.
Qed.

Lemma assertProof_safe (R : relation World) `{!PreOrder R} id w :
  safe R (assertProofOfDeliveryExists id) w (λ _ _, True).
Proof.
  unfold assertProofOfDeliveryExists. destruct (isValidObjectId id); cbn; [|done].
  intros w' _. split; [done|]. by case_bool_decide.
Qed.
End ProofOfDelivery.
