(* ===== verification/RedisLock.v ===== *)
(** * Distributed locks ([src/src/config/redis.ts])

    [acquireLock] and [withLock]: a lock is a resource name bound to the token
    of its holder; releasing compares the token.  The time to live of a lock is
    not modelled: a holder is taken to finish before its lock expires. *)
From S2P Require Import Prelude JsLib Models.

Section RedisLock.
Context `{E : Env}.

Definition lock_error (resource : string) : error :=
  PlainError ("Failed to acquire lock for " +:+ resource +:+ ": " +:+ REDLOCK_QUORUM_ERROR).

(** One attempt: set the key with a fresh token unless it is set. *)
Definition try_acquire (resource : string) : action (option nat) :=
  atomic (λ w,
    match w.(redisLocks) !! resource with
    | Some _ => (None, w)
    | None => (Some w.(nextId),
               w <| redisLocks ::= <[resource := w.(nextId)]> |> <| nextId ::= S |>)
    end).

Fixpoint acquire_loop (resource : string) (retries : nat) : action nat :=
  r ← try_acquire resource;
  match r, retries with
  | Some token, _ => mret token
  | None, S retries => acquire_loop resource retries
  | None, O => throw (lock_error resource)
  end.

Definition acquireLock (resource : string) : action nat :=
  acquire_loop resource REDIS_LOCK_RETRY_COUNT.

Definition unlock (resource : string) (token : nat) (w : World) : World :=
  if bool_decide (w.(redisLocks) !! resource = Some token)
  then w <| redisLocks ::= delete resource |> else w.

Definition release_lock (resource : string) (token : nat) : action unit :=
  writes (unlock resource token).

Definition withLock {A} (resource : string) (fn : action A) : action A :=
  token ← acquireLock resource;
  finally fn (release_lock resource token).

(** ** Laws *)
Definition lock_taken (resource : string) (w : World) : World :=
  w <| redisLocks ::= <[resource := w.(nextId)]> |> <| nextId ::= S |>.

Lemma run_acquireLock resource w :
  run (acquireLock resource) w =
    match redisLocks w !! resource with
    | Some _ => (inl (lock_error resource), w)
    | None => (inr (nextId w), lock_taken resource w)
    end.
Proof.
  unfold acquireLock. induction REDIS_LOCK_RETRY_COUNT as [|n IH]; cbn [acquire_loop];
    unfold try_acquire; rewrite run_bind, run_atomic; cbn [fst snd];
    destruct (redisLocks w !! resource); done || apply IH.
Qed.

Lemma run_withLock {A} resource (fn : action A) w :
  run (withLock resource fn) w =
    match redisLocks w !! resource with
    | Some _ => (inl (lock_error resource), w)
    | None =>
        let x := run fn (lock_taken resource w) in
        (x.1, unlock resource (nextId w) x.2)
    end.
Proof.
  unfold withLock. rewrite run_bind, run_acquireLock.
  destruct (redisLocks w !! resource); [done|]. cbn [fst snd].
  by rewrite run_finally.
Qed.

(** The lock map comes back as it was if the body leaves it alone. *)
Lemma unlock_restores resource w w' :
  redisLocks w !! resource = None →
  redisLocks w' = redisLocks (lock_taken resource w) →
  redisLocks (unlock resource (nextId w) w') = redisLocks w.
Proof.
  intros Hn Hl. unfold unlock. rewrite Hl. unfold lock_taken. rec_simpl.
  rewrite lookup_insert_eq, bool_decide_true by done. rec_simpl. rewrite Hl.
  unfold lock_taken. rec_simpl. by rewrite delete_insert_id.
Qed.

Lemma run_withLock_inv {A} resource (fn : action A) w r w' :
  run (withLock resource fn) w = (r, w') →
  (∀ w1, redisLocks (run fn w1).2 = redisLocks w1) →
  (r = inl (lock_error resource) ∧ w' = w ∧ is_Some (redisLocks w !! resource)) ∨
  (redisLocks w !! resource = None ∧ redisLocks w' = redisLocks w ∧
   ∃ w1, run fn (lock_taken resource w) = (r, w1) ∧ w' = unlock resource (nextId w) w1).
Proof.
  rewrite run_withLock. destruct (redisLocks w !! resource) eqn:Hr.
  { intros [= <- <-] _. left. by repeat split. }
  destruct (run fn _) as [r1 w1] eqn:Hf. cbn [fst snd]. intros [= <- <-] Hk. right.
  split; [done|]. split; [|by exists w1]. apply unlock_restores; [done|].
  specialize (Hk (lock_taken resource w)). by rewrite Hf in Hk.
Qed.

Lemma unlock_fields resource t w :
  now_ms (unlock resource t w) = now_ms w ∧
  deliveries (unlock resource t w) = deliveries w ∧
  escrows (unlock resource t w) = escrows w ∧
  deliveryEvents (unlock resource t w) = deliveryEvents w ∧
  auditLogs (unlock resource t w) = auditLogs w.
Proof. unfold unlock. by case_bool_decide. Qed.
End RedisLock.
