(* ===== verification/DeliveryService.v ===== *)
(** * The delivery service ([src/src/services/delivery.service.ts])

    The delivery lifecycle: creation, reads, the status state machine with its
    conditional update, driver assignment, archiving, and the milestone
    fan-out that follows every committed status change. *)
From S2P Require Import Prelude JsLib Models Repositories Pagination Currency ProofOfDelivery.

(** ** The interface to the fan-out consumers

    What [emitMilestone] calls: the push notification service, the webhook
    service and the socket server.  The laws are what the delivery and escrow
    services rely on: the consumers leave the core collections alone. *)
Record StatusUpdatedPayload := mkStatusUpdated {
  su_contractId : option string;
  su_status : DeliveryStatus.t;
  su_event : DeliveryMilestone.t;
  su_seq : option Z
}.

Class DeliveryConsumers := {
  notifyDeliveryTransition : hydrated Delivery → DeliveryStatus.t → action unit;
  dispatchDeliveryEvent : hydrated Delivery → DeliveryStatus.t → action unit;
  emitDeliveryStatusUpdated : string → StatusUpdatedPayload → action unit
}.

(** Two worlds that agree on everything but the transports' own state. *)
Record same_core (w w' : World) : Prop := {
  sc_now : now_ms w' = now_ms w;
  sc_deliveries : deliveries w' = deliveries w;
  sc_escrows : escrows w' = escrows w;
  sc_events : deliveryEvents w' = deliveryEvents w;
  sc_audit : auditLogs w' = auditLogs w;
  sc_locks : redisLocks w' = redisLocks w;
  sc_eventLogs : eventLogs w' = eventLogs w;
  sc_checkpoints : checkpoints w' = checkpoints w;
  sc_dlq : dlqEntries w' = dlqEntries w;
  sc_ids : (nextId w ≤ nextId w')%nat
}.
#[export] Instance same_core_preorder : PreOrder same_core.
Proof.
  split; [by intros w|]. intros w1 w2 w3 [] []. split; first [by etrans|lia].
Qed.

Class DeliveryConsumersOk `{DeliveryConsumers} : Prop := {
  notify_confined d s : confined same_core (notifyDeliveryTransition d s);
  dispatch_confined d s : confined same_core (dispatchDeliveryEvent d s);
  emit_confined id p : confined same_core (emitDeliveryStatusUpdated id p)
}.

(** [socketServer.emitDeliveryStatusUpdated] ([sockets/connectionHandler.ts]):
    a broadcast to the delivery's room; nothing when no server is running. *)
Definition socket_broadcast (live : bool) (id : string) (p : StatusUpdatedPayload) : action unit :=
  if live then
    writes (λ w, w <| sent ::= (.++ [SocketStatusUpdated id p.(su_status) p.(su_event) p.(su_seq)]) |>)
  else mret tt.

Lemma socket_broadcast_confined live id p : confined same_core (socket_broadcast live id p).
Proof. by destruct live. Qed.

(** ** The state machine *)
Definition ALLOWED_TRANSITIONS (s : DeliveryStatus.t) : list DeliveryStatus.t :=
  match s with
  | DeliveryStatus.PENDING =>
      [DeliveryStatus.FUNDED; DeliveryStatus.ASSIGNED; DeliveryStatus.CANCELLED]
  | DeliveryStatus.FUNDED => [DeliveryStatus.ASSIGNED; DeliveryStatus.CANCELLED]
  | DeliveryStatus.ASSIGNED => [DeliveryStatus.IN_PROGRESS; DeliveryStatus.CANCELLED]
  | DeliveryStatus.IN_PROGRESS => [DeliveryStatus.COMPLETED; DeliveryStatus.CANCELLED]
  | DeliveryStatus.COMPLETED => []
  | DeliveryStatus.CANCELLED => []
  end.

Lemma no_self_transition s : s ∉ ALLOWED_TRANSITIONS s.
Proof. apply (bool_decide_eq_false_1 _). by destruct s. Qed.

Inductive allowed : relation DeliveryStatus.t :=
  allowed_intro s s' : s' ∈ ALLOWED_TRANSITIONS s → allowed s s'.

(** ** Inputs *)
Record MilestoneInput := mkMilestoneInput {
  name : DeliveryMilestone.t;
  m_fromStatus : option DeliveryStatus.t;
  m_payload : option (list (string * json))
}.

Record MilestoneRequester := mkRequester { r_id : string; role : string }.

Record CreateDeliveryInput := mkCreateInput {
  c_trackingNumber : string;
  c_customer : json;
  c_pickup : json;
  c_dropoff : json;
  c_package : json;
  c_deliveryFee : number;
  c_deliveryFeeAsset : option Asset;
  c_escrowAmount : number;
  c_escrowAsset : option Asset;
  c_notes : option string;
  c_fundBy : option Z
}.

Record UpdateDeliveryInput := mkUpdateInput {
  up_status : option DeliveryStatus.t;
  up_driver : option string;
  up_estimatedDistance : option number;
  up_estimatedDuration : option number;
  up_stellarTransactionId : option string;
  up_notes : option string
}.

(** A list request: the whitelisted filter, which may itself constrain
    [isDeleted] and then replaces the service's own condition. *)
Record DeliveryFilter := mkDeliveryFilter {
  f_isDeleted : option bool;
  f_rest : hydrated Delivery → bool;
  f_page : Z;
  f_limit : Z;
  f_sort : hydrated Delivery → hydrated Delivery → bool
}.

Section DeliveryService.
Context `{E : Env, C : DeliveryConsumers}.

Definition invalid_id : error := AppError "Invalid delivery ID" Http.BAD_REQUEST.
Definition delivery_not_found : error := AppError "Delivery not found" Http.NOT_FOUND.

(** Run one fan-out consumer; failures are logged, never propagated. *)
Definition runConsumer (p : action unit) : action unit := try_catch p (λ _, mret tt).

(** The consumers run in a fixed order, each isolated. *)
Definition fan_out (d : hydrated Delivery) (m : DeliveryMilestone.t)
    (record : option DeliveryEvent) : action unit :=
  let to := status (body d) in
  _ ← runConsumer (notifyDeliveryTransition d to);
  _ ← runConsumer (dispatchDeliveryEvent d to);
  runConsumer (emitDeliveryStatusUpdated (_id d)
    (mkStatusUpdated (d_contractId (body d)) to m (seq <$> record))).

Definition emitMilestone (d : hydrated Delivery) (ev : MilestoneInput)
    (a : MilestoneActor) : action (option DeliveryEvent) :=
  let id := _id d in
  let to := status (body d) in
  record ← try_catch
    (r ← DeliveryEventRepository.append
           (DeliveryEventRepository.mkAppendInput id ev.(name) ev.(m_fromStatus) to
              ev.(m_payload) a);
     mret (Some r))
    (λ _, mret None);
  _ ← fan_out d ev.(name) record;
  mret record.

Definition is_participant (d : Delivery) (r : string) : bool :=
  some (λ o, bool_decide (o = Some r)) [d.(userId); d.(driverId); d.(sender)].

Definition listMilestones (id : string) (r : MilestoneRequester) (pg lim : Z)
    : action (Page DeliveryEvent) :=
  _ ← throw_if (negb (isValidObjectId id)) invalid_id;
  found ← DeliveryRepository.findById id;
  d ← or_throw found delivery_not_found;
  _ ← throw_if (negb (String.eqb r.(role) "admin") && negb (is_participant (body d) r.(r_id)))
        (AppError "You are not allowed to view this delivery's events." Http.FORBIDDEN);
  evs ← reads (λ w, filter (λ e, ev_delivery e = id) w.(deliveryEvents));
  mret (paginate (sort_by (λ e1 e2, seq e1 <=? seq e2)%Z evs) pg lim).

(** [typeof x === 'number' && Number.isFinite(x) && x > 0]. *)
Definition escrowConfigured (i : CreateDeliveryInput) : bool := Num.positive i.(c_escrowAmount).

Definition new_delivery (i : CreateDeliveryInput) (fee esc : Asset) (fundBy : option Z)
    : Delivery :=
  mkDelivery None None None None None None None (Some i.(c_trackingNumber)) i.(c_customer)
    i.(c_pickup) i.(c_dropoff) i.(c_package) (Some i.(c_deliveryFee)) (Some fee)
    (Some i.(c_escrowAmount)) (Some esc) fundBy None i.(c_notes) DeliveryStatus.PENDING
    None None None None false None None 0 0.

Definition XLM : Asset := mkAsset "XLM" None.

Definition create (i : CreateDeliveryInput) : action (hydrated Delivery) :=
  existing ← DeliveryRepository.findOne
               (λ d, bool_decide (d.(trackingNumber) = Some i.(c_trackingNumber)));
  _ ← throw_if (bool_decide (is_Some existing))
        (AppError "Delivery with this tracking number already exists" Http.CONFLICT);
  fee ← Done (validateAsset (nullish i.(c_deliveryFeeAsset) XLM));
  esc ← Done (validateAsset (nullish i.(c_escrowAsset) XLM));
  t ← now;
  let window := (t + ESCROW_FUNDING_WINDOW_SECONDS * 1000)%Z in
  d ← DeliveryRepository.create (new_delivery i fee esc
        (if escrowConfigured i then Some (nullish i.(c_fundBy) window) else None));
  _ ← emitMilestone d (mkMilestoneInput (MILESTONE_BY_STATUS (status (body d))) None None)
        system_actor;
  mret d.

Definition getById (id : string) : action (hydrated Delivery) :=
  _ ← throw_if (negb (isValidObjectId id)) invalid_id;
  found ← reads (λ w, DeliveryRepository.by_id_if id (λ d, negb d.(isDeleted)) w.(deliveries));
  or_throw found delivery_not_found.

Definition listDeliveries (f : DeliveryFilter) : action (Page (hydrated Delivery)) :=
  docs ← DeliveryRepository.find (λ d,
           match f.(f_isDeleted) with
           | None => negb d.(isDeleted)
           | Some b => Bool.eqb d.(isDeleted) b
           end);
  mret (page_of (sort_by f.(f_sort) (filter (λ d, f.(f_rest) d = true) docs))
          f.(f_page) f.(f_limit)).

(** [$set: input]: only the fields that are present. *)
Definition apply_update (i : UpdateDeliveryInput) (d : Delivery) : Delivery :=
  d <| status ::= λ s, nullish i.(up_status) s |>
    <| driver ::= λ x, if i.(up_driver) is Some y then Some y else x |>
    <| estimatedDistance ::= λ x, if i.(up_estimatedDistance) is Some y then Some y else x |>
    <| estimatedDuration ::= λ x, if i.(up_estimatedDuration) is Some y then Some y else x |>
    <| stellarTransactionId ::= λ x, if i.(up_stellarTransactionId) is Some y then Some y else x |>
    <| notes ::= λ x, if i.(up_notes) is Some y then Some y else x |>.

Definition update (id : string) (i : UpdateDeliveryInput) : action (hydrated Delivery) :=
  _ ← throw_if (negb (isValidObjectId id)) invalid_id;
  found ← DeliveryRepository.findByIdAndUpdate id (apply_update i);
  or_throw found delivery_not_found.

(** [softDelete(userId)] of the model. *)
Definition softDelete (t : Z) (by_ : option string) (d : Delivery) : Delivery :=
  let d := d <| isDeleted := true |> <| deletedAt := Some t |> in
  match by_ with
  | Some u => if Str.truthy u then d <| deletedBy := Some u |> else d
  | None => d
  end.

Definition archive (id : string) (by_ : option string) : action (hydrated Delivery) :=
  _ ← throw_if (negb (isValidObjectId id)) invalid_id;
  found ← DeliveryRepository.model_findById id;
  d ← or_throw found delivery_not_found;
  _ ← throw_if (isDeleted (body d)) (AppError "Delivery is already archived" Http.CONFLICT);
  t ← now;
  DeliveryRepository.save d (softDelete t by_).

(** [restore()] of the model. *)
Definition undelete (d : Delivery) : Delivery :=
  d <| isDeleted := false |> <| deletedAt := None |> <| deletedBy := None |>.

Definition restore (id : string) : action (hydrated Delivery) :=
  _ ← throw_if (negb (isValidObjectId id)) invalid_id;
  found ← DeliveryRepository.model_findById id;
  d ← or_throw found delivery_not_found;
  _ ← throw_if (negb (isDeleted (body d))) (AppError "Delivery is not archived" Http.CONFLICT);
  DeliveryRepository.save d undelete.

Definition listArchived (pg lim : Z) (cmp : hydrated Delivery → hydrated Delivery → bool)
    : action (Page (hydrated Delivery)) :=
  docs ← DeliveryRepository.find isDeleted;
  mret (page_of (sort_by cmp docs) pg lim).

Definition illegal_transition (from to : DeliveryStatus.t) : error :=
  AppError ("Cannot transition a delivery from '" +:+ DeliveryStatus.to_string from +:+ "' to '"
    +:+ DeliveryStatus.to_string to +:+ "'."
    +:+ match ALLOWED_TRANSITIONS from with
        | [] => " This is a terminal state."
        | l => " Allowed next states: " +:+ Str.join ", " (DeliveryStatus.to_string <$> l) +:+ "."
        end) Http.BAD_REQUEST.

Definition updateStatus (id : string) (next : DeliveryStatus.t) (a : MilestoneActor)
    : action (hydrated Delivery) :=
  _ ← throw_if (negb (isValidObjectId id)) invalid_id;
  found ← DeliveryRepository.findById id;
  current ← or_throw found delivery_not_found;
  let from := status (body current) in
  _ ← throw_if (bool_decide (from = next))
        (AppError ("Delivery is already in status '" +:+ DeliveryStatus.to_string next +:+ "'.")
           Http.CONFLICT);
  _ ← throw_if (negb (includes next (ALLOWED_TRANSITIONS from))) (illegal_transition from next);
  _ ← (if bool_decide (next = DeliveryStatus.COMPLETED)
       then assertProofOfDeliveryExists id else mret tt);
  updated ← DeliveryRepository.transitionStatus id from next;
  d ← or_throw updated
        (AppError "Delivery status changed concurrently. Retry with the current state."
           Http.CONFLICT);
  _ ← emitMilestone d (mkMilestoneInput (MILESTONE_BY_STATUS next) (Some from) None) a;
  mret d.

(** Why an escrow that is not locked blocks an assignment. *)
Definition status_description (s : EscrowStatus.t) : string :=
  match s with
  | EscrowStatus.PENDING =>
      "the escrow contract initialisation is still pending — funds have not been locked yet"
  | EscrowStatus.LOCKED => ""
  | EscrowStatus.RELEASED => "the escrowed funds have already been released"
  | EscrowStatus.REFUNDED => "the escrowed funds have been refunded"
  | EscrowStatus.DISPUTED => "the escrow is currently under dispute"
  | EscrowStatus.EXPIRED => "the escrow lock has expired and is awaiting admin resolution"
  | EscrowStatus.RESOLVED => "the expired escrow has already been resolved by an admin"
  end.

Definition assignDriver (id driver_ : string) : action (hydrated Delivery) :=
  _ ← throw_if (negb (isValidObjectId id)) invalid_id;
  found ← DeliveryRepository.model_findById id;
  d ← or_throw found delivery_not_found;
  let from := status (body d) in
  _ ← throw_if (is_finished from)
        (AppError ("Cannot assign a driver to a delivery with status '"
           +:+ DeliveryStatus.to_string from +:+ "'.") Http.CONFLICT);
  _ ← throw_if (bool_decide (from = DeliveryStatus.ASSIGNED))
        (AppError "A driver has already been assigned to this delivery." Http.CONFLICT);
  found_e ← EscrowRepository.findOne (λ e, String.eqb e.(delivery) id);
  e ← or_throw found_e
        (AppError "Driver assignment is not allowed: the Soroban escrow contract for this delivery has not been initialised. Ensure the escrow is funded on-chain before assigning a driver."
           Http.UNPROCESSABLE_ENTITY);
  _ ← throw_if (negb (bool_decide (e_status (body e) = EscrowStatus.LOCKED)))
        (AppError ("Driver assignment rejected: " +:+ status_description (e_status (body e))
           +:+ ". The escrow contract must be in the LOCKED state before a driver can be assigned.")
           Http.CONFLICT);
  d' ← DeliveryRepository.save d
         (λ x, x <| driverId := Some driver_ |> <| status := DeliveryStatus.ASSIGNED |>);
  _ ← emitMilestone d'
        (mkMilestoneInput (MILESTONE_BY_STATUS DeliveryStatus.ASSIGNED) (Some from)
           (Some [("driverId", JStr driver_)])) system_actor;
  mret d'.
End DeliveryService.
#[global] Arguments emitMilestone : simpl never.

(** ** Milestones never disturb the committed change *)

(** What [emitMilestone] may change: the milestone log and the transports. *)
Record logs_only (w w' : World) : Prop := {
  lo_now : now_ms w' = now_ms w;
  lo_deliveries : deliveries w' = deliveries w;
  lo_escrows : escrows w' = escrows w;
  lo_audit : auditLogs w' = auditLogs w;
  lo_locks : redisLocks w' = redisLocks w;
  lo_eventLogs : eventLogs w' = eventLogs w;
  lo_checkpoints : checkpoints w' = checkpoints w;
  lo_dlq : dlqEntries w' = dlqEntries w;
  lo_ids : (nextId w ≤ nextId w')%nat
}.
#[export] Instance logs_only_preorder : PreOrder logs_only.
Proof. split; [by intros w|]. intros w1 w2 w3 [] []. split; first [by etrans|lia]. Qed.

Lemma same_core_logs_only w w' : same_core w w' → logs_only w w'.
Proof. by intros []. Qed.

Lemma append_loop_confined i n e : confined logs_only (DeliveryEventRepository.append_loop i n e).
Proof.
  revert e. induction n as [|n IH]; intros e; [done|].
  cbn [DeliveryEventRepository.append_loop]. apply confined_bind; [apply confined_reads, _|].
  intros last. apply confined_bind; [apply confined_reads, _|]. intros t.
  apply confined_bind.
  - apply confined_try_catch; [|intros e'; by case_decide].
    intros w. cbn. by case_match; cbn; split.
  - intros [e'|ev]; [apply IH|done].
Qed.

Section EmitFacts.
Context `{E : Env, C : DeliveryConsumers, COk : !DeliveryConsumersOk}.

Lemma runConsumer_confined (G : relation World) p : confined G p → confined G (runConsumer p).
Proof. intros. by apply confined_try_catch. Qed.

Lemma fan_out_confined d m r : confined same_core (fan_out d m r).
Proof.
  repeat (apply confined_bind; [|intros _]); apply runConsumer_confined;
    [apply notify_confined|apply dispatch_confined|apply emit_confined].
Qed.

Lemma emitMilestone_confined d ev a : confined logs_only (emitMilestone d ev a).
Proof.
  unfold emitMilestone. apply confined_bind; [|intros record].
  - apply confined_try_catch; [|done]. apply confined_bind; [|done].
    apply append_loop_confined.
  - apply confined_bind; [|done].
    eapply confined_mono; [apply same_core_logs_only|apply fan_out_confined].
Qed.

Lemma runConsumer_run (p : action unit) w :
  run (runConsumer p) w = (inr tt, (run p w).2).
Proof. unfold runConsumer. rewrite run_try_catch. by destruct (run p w) as [[|[]] ?]. Qed.

Lemma fan_out_run d m r w :
  ∃ w', run (fan_out d m r) w = (inr tt, w') ∧ same_core w w'.
Proof.
  pose proof (confined_run same_core _ w (fan_out_confined d m r)) as Hc.
  unfold fan_out in *. revert Hc.
  repeat (rewrite run_bind, runConsumer_run; cbn [fst snd]). rewrite runConsumer_run.
  intros Hc. by eexists.
Qed.

(** It never throws. *)
Lemma emitMilestone_run d ev a w :
  ∃ r w', run (emitMilestone d ev a) w = (inr r, w') ∧ logs_only w w'.
Proof.
  pose proof (confined_run logs_only _ w (emitMilestone_confined d ev a)) as Hc.
  unfold emitMilestone in *. revert Hc. rewrite run_bind, run_try_catch.
  destruct (run (DeliveryEventRepository.append _ ≫= _) w) as [[e|r] w1]; cbn [fst snd];
    [rewrite run_ret; cbn [fst snd]|]; rewrite run_bind;
    match goal with |- context [fan_out d ?m ?r] =>
      destruct (fan_out_run d m r w1) as (w2 & -> & _)
    end; cbn [fst snd]; rewrite run_ret; intros Hc; eauto.
Qed.

(** With a gapless log the milestone is recorded with the next seq. *)
Lemma emitMilestone_records d ev a w :
  MilestoneLog.gapless (deliveryEvents w) →
  ∃ e w', run (emitMilestone d ev a) w = (inr (Some e), w') ∧ logs_only w w' ∧
    deliveryEvents w' = deliveryEvents w ++ [e] ∧
    e = mkDeliveryEvent (_id d) ev.(name) ev.(m_fromStatus) (status (body d))
          (nullish ev.(m_payload) []) a (now_ms w)
          (Z.of_nat (length (MilestoneLog.seqs (_id d) (deliveryEvents w))) + 1).
Proof.
  intros Hg.
  pose proof (confined_run logs_only _ w (emitMilestone_confined d ev a)) as Hc.
  unfold emitMilestone in *. revert Hc. rewrite run_bind, run_try_catch, run_bind.
  rewrite (MilestoneLog.append_run _ _ Hg). cbn [fst snd]. rewrite run_ret.
  cbn [fst snd]. rewrite run_bind.
  match goal with |- context [run (fan_out d ?m ?r) ?w1] =>
    destruct (fan_out_run d m r w1) as (w2 & -> & Hs)
  end.
  cbn [fst snd]. rewrite run_ret. intros Hc. eexists _, _. split; [done|].
  split; [done|]. split; [|done]. by rewrite (sc_events _ _ Hs).
Qed.
End EmitFacts.

(** ** The status state machine *)
Section StatusFacts.
Context `{E : Env, C : DeliveryConsumers, COk : !DeliveryConsumersOk}.

(** How the deliveries may evolve: along [ALLOWED_TRANSITIONS], never losing
    a proof of delivery, and completing only with one. *)
Record moves (d d' : Delivery) : Prop := {
  mv_status : rtc allowed (status d) (status d');
  mv_proof : is_Some (proofOfDelivery d) → is_Some (proofOfDelivery d');
  mv_completed : status d ≠ DeliveryStatus.COMPLETED →
    status d' = DeliveryStatus.COMPLETED → is_Some (proofOfDelivery d')
}.
Definition lifecycle (w w' : World) : Prop :=
  ∀ id d, deliveries w !! id = Some d →
    ∃ d', deliveries w' !! id = Some d' ∧ moves d d'.

#[export] Instance moves_preorder : PreOrder moves.
Proof.
  split; [by intros d|]. intros d1 d2 d3 [S1 P1 C1] [S2 P2 C2].
  split; [by etrans|by auto|]. intros H1 H3.
  destruct (decide (status d2 = DeliveryStatus.COMPLETED)); auto.
Qed.
#[export] Instance lifecycle_preorder : PreOrder lifecycle.
Proof.
  split; [intros w id d Hd; by exists d|].
  intros w1 w2 w3 H1 H2 id d Hd. destruct (H1 _ _ Hd) as (d' & Hd' & Hm).
  destruct (H2 _ _ Hd') as (d'' & Hd'' & Hm'). exists d''. split; [done|by etrans].
Qed.

Lemma logs_only_lifecycle w w' : logs_only w w' → lifecycle w w'.
Proof. intros Hl id d Hd. exists d. by rewrite (lo_deliveries _ _ Hl). Qed.

Lemma lifecycle_update id d f w :
  deliveries w !! id = Some d → moves d (f d <| d_updatedAt := now_ms w |>) →
  lifecycle w (w <| deliveries ::= <[id := f d <| d_updatedAt := now_ms w |>]> |>).
Proof.
  intros Hd Hm id' d' Hd'. rec_simpl. destruct (decide (id = id')) as [<-|].
  - simplify_eq. eexists. by rewrite lookup_insert_eq.
  - exists d'. by rewrite lookup_insert_ne.
Qed.

Lemma moves_transition d next t :
  allowed (status d) next →
  (next = DeliveryStatus.COMPLETED → is_Some (proofOfDelivery d)) →
  moves d (d <| status := next |> <| d_updatedAt := t |>).
Proof. intros Ha Hp. split; [by apply rtc_once|done|]. intros _ Hn. by apply Hp. Qed.

Lemma emitMilestone_safe d ev a w :
  safe lifecycle (emitMilestone d ev a) w (λ _ _, True).
Proof.
  eapply confined_safe; [apply emitMilestone_confined|apply logs_only_lifecycle].
Qed.

(** The conditional update moves a delivery along the transition it was
    checked for, whatever happened since the check. *)
Lemma transitionStatus_safe id from next w :
  allowed from next →
  (next = DeliveryStatus.COMPLETED → has_proof id w) →
  safe lifecycle (DeliveryRepository.transitionStatus id from next) w (λ _ _, True).
Proof.
  intros Ha Hp. unfold DeliveryRepository.transitionStatus.
  destruct (isValidObjectId id); [|done]. cbn. intros w1 H1.
  destruct (DeliveryRepository.find_and_update _ _ w1) as [o w2] eqn:Hu. cbn.
  split; [|done]. apply DeliveryRepository.find_and_update_inv in Hu
    as [(_ & -> & _)|(d & d' & Hs & -> & _ & ->)]; [done|].
  apply DeliveryRepository.by_id_if_Some in Hs as (-> & Hd & Hf). cbn in *.
  apply bool_decide_eq_true in Hf as <-.
  apply (lifecycle_update id (body d) (set status (λ _, next))); [done|].
  apply moves_transition; [done|]. intros ->.
  destruct (Hp eq_refl) as (d0 & Hd0 & Hp0).
  destruct (H1 _ _ Hd0) as (d1 & Hd1 & Hm). simplify_eq. by apply (mv_proof _ _ Hm).
Qed.

Lemma updateStatus_safe id next a w :
  safe lifecycle (updateStatus id next a) w (λ _ _, True).
Proof.
  unfold updateStatus, DeliveryRepository.findById.
  destruct (isValidObjectId id) eqn:Hv; [|done]. cbn. intros w1 _. split; [done|].
  destruct (find_by_id id (deliveries w1)) as [d|] eqn:Hd; [|done]. cbn.
  destruct (bool_decide (status (body d) = next)); cbn; [done|].
  destruct (includes next _) eqn:Hi; cbn; [|done].
  apply includes_true in Hi.
  eapply (safe_bind _ _ _ _ (λ r w', ∀ u, r = inr u →
    next = DeliveryStatus.COMPLETED → has_proof id w')).
  - case_bool_decide as Hn; [|by cbn; intros].
    unfold assertProofOfDeliveryExists. rewrite Hv. cbn. intros w2 H2.
    split; [done|]. case_bool_decide as Hp; [|by cbn; intros].
    cbn. intros w3 H3 _ _ _. destruct Hp as [p Hp].
    apply bind_Some in Hp as (d2 & [_ Hd2]%find_by_id_Some & Hp).
    destruct (H3 _ _ Hd2) as (d3 & Hd3 & Hm). exists d3. split; [done|].
    apply (mv_proof _ _ Hm). by eexists.
  - intros [] w2 _ Hp. eapply (safe_bind _ _ _ _ (λ _ _, True)); [|intros o w3 _ _|done].
    { apply transitionStatus_safe; [done|]. by apply (Hp tt). }
    destruct o as [d'|]; cbn; [|done].
    by eapply (safe_bind _ _ _ _ (λ _ _, True)); [apply emitMilestone_safe| |].
  - done.
Qed.
End StatusFacts.

(** ** A concrete environment, for the witnesses *)
Module Example_.
Export ExampleEnv.
#[export] Instance consumers : DeliveryConsumers := {|
  notifyDeliveryTransition _ _ := mret tt;
  dispatchDeliveryEvent _ _ := throw (PlainError "webhook endpoint unreachable");
  emitDeliveryStatusUpdated := socket_broadcast true
|}.
#[export] Instance consumers_ok : DeliveryConsumersOk.
Proof. by split. Qed.

Definition did : string := "64b7f0c2a1d3e4f500000001".
Definition eid : string := "64b7f0c2a1d3e4f500000002".
Definition t0 : Z := 1700000000000.
Definition proof : ProofOfDelivery :=
  mkProofOfDelivery "k" "https://cdn/k" "local" "image/png" 1024 "driver-1" t0.
(** A delivery of 150 XLM in a given status. *)
Definition dlv (s : DeliveryStatus.t) (p : option ProofOfDelivery) : Delivery :=
  mkDelivery None (Some "driver-1") None (Some "customer-1") None None None (Some "TRK-1")
    JNull JNull JNull JNull (Some (Num.of_Z 15)) (Some XLM) (Some (Num.of_Z 150))
    (Some XLM) (Some (t0 + 1000)%Z) None None s None None None p false None None t0 t0.
Definition with_delivery (d : Delivery) : World :=
  empty_world t0 <| deliveries := {[did := d]} |>.
Definition tx (h : string) : EscrowTransaction :=
  mkEscrowTransaction h fund (Some (Num.of_Z 7)) t0.
Definition esc (s : EscrowStatus.t) : Escrow :=
  mkEscrow did s (Num.of_Z 150) "XLM" None (Some "CESCROW") (Some "GPAYER") None None
    (Some t0) None None None (Some (t0 + 86400000)%Z) None None None None None None
    [tx "tx-1"] t0.
Definition with_escrow (d : Delivery) (e : Escrow) : World :=
  with_delivery d <| escrows := {[eid := e]} |>.
End Example_.

(** ** Properties *)
Section Properties.
Context `{E : Env, C : DeliveryConsumers, COk : !DeliveryConsumersOk}.

(** The committed part of a status change. *)
Definition moved (next : DeliveryStatus.t) (t : Z) (d : Delivery) : Delivery :=
  d <| status := next |> <| d_updatedAt := t |>.

Lemma emitMilestone_ret d ev a w :
  run (_ ← emitMilestone d ev a; mret d) w = (inr d, (run (emitMilestone d ev a) w).2).
Proof.
  rewrite run_bind. by destruct (emitMilestone_run d ev a w) as (r & w' & -> & _).
Qed.

(** The outcome of [updateStatus], branch by branch. *)
Lemma updateStatus_run id next a w :
  run (updateStatus id next a) w =
    if negb (isValidObjectId id) then (inl invalid_id, w) else
    match deliveries w !! id with
    | None => (inl delivery_not_found, w)
    | Some d =>
        if bool_decide (status d = next) then
          (inl (AppError ("Delivery is already in status '"
                  +:+ DeliveryStatus.to_string next +:+ "'.") Http.CONFLICT), w)
        else if negb (includes next (ALLOWED_TRANSITIONS (status d))) then
          (inl (illegal_transition (status d) next), w)
        else if bool_decide (next = DeliveryStatus.COMPLETED) &&
                negb (bool_decide (is_Some (proofOfDelivery d))) then
          (inl proof_required, w)
        else
          let d' := Doc id (moved next (now_ms w) d) in
          (inr d', (run (emitMilestone d'
              (mkMilestoneInput (MILESTONE_BY_STATUS next) (Some (status d)) None) a)
            (w <| deliveries ::= <[id := body d']> |>)).2)
    end.
Proof.
  unfold updateStatus, DeliveryRepository.findById, DeliveryRepository.transitionStatus.
  destruct (isValidObjectId id) eqn:Hv; [|done]. cbn [negb]. run_simpl.
  unfold DeliveryRepository.model_findById. run_simpl. unfold find_by_id.
  destruct (deliveries w !! id) as [d|] eqn:Hd; [|done]. cbn [fmap option_fmap option_map body].
  destruct (bool_decide (status d = next)); [done|].
  destruct (includes next _) eqn:Hi; [|done]. cbn [negb].
  assert (run (updated ← DeliveryRepository.updateOneById id
                 (λ x, bool_decide (status x = status d)) (set status (λ _, next));
               d0 ← or_throw updated (AppError
                 "Delivery status changed concurrently. Retry with the current state."
                 Http.CONFLICT);
               _ ← emitMilestone d0 (mkMilestoneInput (MILESTONE_BY_STATUS next)
                 (Some (status d)) None) a; mret d0) w =
          (inr (Doc id (moved next (now_ms w) d)),
           (run (emitMilestone (Doc id (moved next (now_ms w) d))
              (mkMilestoneInput (MILESTONE_BY_STATUS next) (Some (status d)) None) a)
            (w <| deliveries ::= <[id := moved next (now_ms w) d]> |>)).2)) as Hcommit.
  { rewrite run_bind. unfold DeliveryRepository.updateOneById. rewrite run_atomic.
    unfold DeliveryRepository.find_and_update, DeliveryRepository.by_id_if, find_by_id.
    rewrite Hd. cbn [fmap option_fmap option_map mbind option_bind body].
    rewrite bool_decide_true by done. cbn [fst snd _id body].
    rewrite run_bind, run_or_throw. cbn [fst snd]. apply emitMilestone_ret. }
  do 2 (rewrite run_bind, run_throw_if; cbn [fst snd]).
  destruct (bool_decide (next = DeliveryStatus.COMPLETED)); cbn [andb].
  - rewrite run_bind, assertProof_run, Hv, Hd. cbn [negb mbind option_bind].
    case_bool_decide; cbn [fst snd negb]; [|done]. exact Hcommit.
  - rewrite run_bind, run_ret. exact Hcommit.
Qed.

(** C1: [updateStatus] succeeds exactly when its id is well formed, the
    delivery exists, the transition is in [ALLOWED_TRANSITIONS] and, for a
    completion, a proof of delivery is on record.  Then only that delivery
    changes, in its status and update time, the milestone is appended to the
    log with the next number, and a failing consumer of the milestone cannot
    undo either.  Otherwise it fails with the documented HTTP status and leaves
    the world untouched. *)
Theorem updateStatus_correct id next a w :
  let legal d := allowed (status d) next ∧
    (next = DeliveryStatus.COMPLETED → is_Some (proofOfDelivery d)) in
  (∀ d, isValidObjectId id = true → deliveries w !! id = Some d → legal d →
    ∃ w', run (updateStatus id next a) w = (inr (Doc id (moved next (now_ms w) d)), w') ∧
      deliveries w' = <[id := moved next (now_ms w) d]> (deliveries w) ∧
      escrows w' = escrows w ∧
      (MilestoneLog.gapless (deliveryEvents w) →
       deliveryEvents w' = deliveryEvents w ++
         [mkDeliveryEvent id (MILESTONE_BY_STATUS next) (Some (status d)) next [] a (now_ms w)
            (Z.of_nat (length (MilestoneLog.seqs id (deliveryEvents w))) + 1)])) ∧
  (∀ r w', run (updateStatus id next a) w = (inr r, w') →
    ∃ d, isValidObjectId id = true ∧ deliveries w !! id = Some d ∧ legal d) ∧
  (∀ e w', run (updateStatus id next a) w = (inl e, w') →
    w' = w ∧
    error_status e = Some (
      if isValidObjectId id then
        match deliveries w !! id with
        | None => Http.NOT_FOUND
        | Some d =>
            if decide (status d = next) then Http.CONFLICT
            else if decide (next ∈ ALLOWED_TRANSITIONS (status d))
            then Http.UNPROCESSABLE_ENTITY else Http.BAD_REQUEST
        end
      else Http.BAD_REQUEST)).
Proof.
  intros legal. rewrite updateStatus_run. split; [|split].
  - intros d -> -> [Hal Hp]. destruct Hal as [s next Hin]. cbn [negb].
    rewrite bool_decide_false by (intros <-; by apply (no_self_transition s)).
    rewrite (proj2 (includes_true _ _)) by done. cbn [negb].
    replace (bool_decide _ && _) with false; [|symmetry].
    { match goal with |- context [run (emitMilestone ?d ?ev a) ?w1] =>
        destruct (emitMilestone_run d ev a w1) as (r & w' & Hr & Hl);
        pose proof (emitMilestone_records d ev a w1) as Hrec end.
      rewrite Hr in Hrec |- *. cbn [snd]. eexists. split; [done|].
      rewrite (lo_deliveries _ _ Hl), (lo_escrows _ _ Hl). do 2 (split; [done|]).
      intros Hg. destruct (Hrec Hg) as (e & w2 & [= _ <-] & _ & -> & ->). done. }
    case_bool_decide; [|done]. cbn. by rewrite bool_decide_true by auto.
  - intros r w' Hr. unfold includes in Hr. destruct (isValidObjectId id); [|done].
    destruct (deliveries w !! id) as [d|]; [|done]. cbn [negb] in Hr. exists d.
    do 2 (split; [done|]). case_bool_decide; [done|].
    destruct (bool_decide_reflect (next ∈ ALLOWED_TRANSITIONS (status d))) as [Hin|]; [|done].
    cbn [negb] in Hr. split; [by constructor|]. intros ->.
    rewrite bool_decide_true in Hr by done. cbn [andb] in Hr. by case_bool_decide.
  - intros e w' Hr. unfold includes in Hr. destruct (isValidObjectId id); [|by simplify_eq/=].
    destruct (deliveries w !! id) as [d|]; [|by simplify_eq/=]. cbn [negb] in Hr.
    repeat case_bool_decide; repeat case_decide; by simplify_eq/=.
Qed.

(** C2: However any number of concurrent [updateStatus] requests interleave,
    at every point each delivery has moved only along [ALLOWED_TRANSITIONS],
    has kept its proof of delivery, and has become [COMPLETED] only with a
    proof on record. *)
Theorem updateStatus_interleaved
    (reqs : list (string * DeliveryStatus.t * MilestoneActor)) sched w :
  lifecycle w
    (interleave sched ((λ r, updateStatus r.1.1 r.1.2 r.2) <$> reqs) w).2.
Proof.
  refine (proj1 (safe_interleave lifecycle (λ _ _ _, True) sched _ w _)).
  intros i p Hp. apply list_lookup_fmap_Some_1 in Hp as (r & -> & _).
  apply updateStatus_safe.
Qed.

Lemma emitMilestone_evolves d ev a w :
  safe MilestoneLog.evolves (emitMilestone d ev a) w (λ _ _, True).
Proof.
  unfold emitMilestone. eapply (safe_bind _ _ _ _ (λ _ _, True)); [| |done].
  - eapply (safe_try_catch _ _ _ _ (λ _ _, True)); [|by intros|done].
    eapply (safe_bind _ _ _ _ (λ _ _, True)); [|by intros|done].
    eapply safe_mono; [apply _| |done]. apply MilestoneLog.append_safe.
  - intros r w' _ _. eapply (safe_bind _ _ _ _ (λ _ _, True)); [|by intros|done].
    eapply confined_safe; [apply fan_out_confined|].
    intros w1 w2 Hs. by unfold MilestoneLog.evolves; rewrite (sc_events _ _ Hs).
Qed.

(** C8: However concurrent milestone emissions interleave, the milestone log
    is append-only and the seqs of every delivery stay 1, 2, ..., n without a
    gap or a repetition. *)
Theorem milestones_gapless_interleaved
    (ems : list (hydrated Delivery * MilestoneInput * MilestoneActor)) sched w :
  MilestoneLog.gapless (deliveryEvents w) →
  let w' := (interleave sched ((λ m, emitMilestone m.1.1 m.1.2 m.2) <$> ems) w).2 in
  deliveryEvents w `prefix_of` deliveryEvents w' ∧
  MilestoneLog.gapless (deliveryEvents w').
Proof.
  intros Hg w'. cut (MilestoneLog.evolves w w'); [by intros [? ?]; auto|].
  refine (proj1 (safe_interleave _ (λ _ _ _, True) sched _ w _)).
  intros i p Hp. apply list_lookup_fmap_Some_1 in Hp as (m & -> & _).
  apply emitMilestone_evolves.
Qed.

(** What [assignDriver] does to a delivery. *)
Definition assigned (driver_ : string) (t : Z) (d : Delivery) : Delivery :=
  d <| driverId := Some driver_ |> <| status := DeliveryStatus.ASSIGNED |>
    <| d_updatedAt := t |>.

Lemma assignDriver_run id driver_ w :
  run (assignDriver id driver_) w =
    if negb (isValidObjectId id) then (inl invalid_id, w) else
    match deliveries w !! id with
    | None => (inl delivery_not_found, w)
    | Some d =>
        if is_finished (status d) then
          (inl (AppError ("Cannot assign a driver to a delivery with status '"
                  +:+ DeliveryStatus.to_string (status d) +:+ "'.") Http.CONFLICT), w)
        else if bool_decide (status d = DeliveryStatus.ASSIGNED) then
          (inl (AppError "A driver has already been assigned to this delivery."
                  Http.CONFLICT), w)
        else match find_one (λ e, String.eqb (delivery e) id) (escrows w) with
        | None => (inl (AppError "Driver assignment is not allowed: the Soroban escrow contract for this delivery has not been initialised. Ensure the escrow is funded on-chain before assigning a driver."
                    Http.UNPROCESSABLE_ENTITY), w)
        | Some e =>
            if negb (bool_decide (e_status (body e) = EscrowStatus.LOCKED)) then
              (inl (AppError ("Driver assignment rejected: "
                      +:+ status_description (e_status (body e))
                      +:+ ". The escrow contract must be in the LOCKED state before a driver can be assigned.")
                      Http.CONFLICT), w)
            else
              let d' := Doc id (assigned driver_ (now_ms w) d) in
              (inr d', (run (emitMilestone d'
                  (mkMilestoneInput DeliveryMilestone.ASSIGNED (Some (status d))
                     (Some [("driverId", JStr driver_)])) system_actor)
                (w <| deliveries ::= <[id := body d']> |>)).2)
        end
    end.
Proof.
  unfold assignDriver, EscrowRepository.findOne.
  destruct (isValidObjectId id) eqn:Hv; [|done]. cbn [negb].
  rewrite run_bind, run_throw_if. cbn [fst snd].
  rewrite run_bind, DeliveryRepository.run_model_findById. cbn [fst snd]. destruct (deliveries w !! id) as [d|] eqn:Hd; [|done].
  cbn [fmap option_fmap option_map body]. rewrite run_bind, run_or_throw. cbn [fst snd body _id].
  destruct (is_finished (status d)); [done|]. rewrite run_bind, run_throw_if. cbn [fst snd body _id].
  destruct (bool_decide (status d = _)); [done|]. rewrite run_bind, run_throw_if. cbn [fst snd body _id].
  rewrite run_bind, run_reads. cbn [fst snd].
  destruct (find_one _ (escrows w)) as [e|]; [|done]. rewrite run_bind, run_or_throw. cbn [fst snd].
  destruct (bool_decide (e_status _ = _)); [|done]. cbn [negb].
  rewrite run_bind, run_throw_if. cbn [fst snd]. rewrite run_bind.
  rewrite (DeliveryRepository.run_save _ _ _ _ Hd). apply emitMilestone_ret.
Qed.

(** What a caller composes: a refusal changes nothing, a success sets the
    document and then only writes logs. *)
Lemma assignDriver_outcome id driver_ w r w' :
  run (assignDriver id driver_) w = (r, w') →
  match r with
  | inl _ => w' = w
  | inr d' =>
      ∃ d, deliveries w !! id = Some d ∧ d' = Doc id (assigned driver_ (now_ms w) d) ∧
        logs_only (w <| deliveries ::= <[id := assigned driver_ (now_ms w) d]> |>) w'
  end.
Proof.
  rewrite assignDriver_run. destruct (isValidObjectId id); [|by intros [= <- <-]].
  cbn [negb]. destruct (deliveries w !! id) as [d|]; [|by intros [= <- <-]].
  destruct (is_finished (status d)); [by intros [= <- <-]|].
  case_bool_decide; [by intros [= <- <-]|].
  destruct (find_one _ _); [|by intros [= <- <-]].
  case_bool_decide; [|by intros [= <- <-]]. cbn [negb].
  match goal with |- context [run (emitMilestone ?d ?ev ?a) ?w1] =>
    destruct (emitMilestone_run d ev a w1) as (rec & w2 & -> & Hlo) end.
  intros [= <- <-]. by exists d.
Qed.

(** When [assignDriver] accepts. *)
Record assignable (id : string) (d : Delivery) (w : World) : Prop := {
  an_id : isValidObjectId id = true;
  an_delivery : deliveries w !! id = Some d;
  an_open : is_finished (status d) = false;
  an_unassigned : status d ≠ DeliveryStatus.ASSIGNED;
  an_escrow : ∃ e, find_one (λ e, String.eqb (delivery e) id) (escrows w) = Some e ∧
    e_status (body e) = EscrowStatus.LOCKED
}.

Lemma assignDriver_accepts id d driver_ w :
  assignable id d w → ∃ d' w', run (assignDriver id driver_) w = (inr d', w').
Proof.
  intros [Hv Hd Hf Ha (e & He & Hl)]. rewrite assignDriver_run, Hv, Hd, Hf, He, Hl. cbn [negb].
  rewrite (bool_decide_false _ Ha), bool_decide_true by done. by do 2 eexists.
Qed.

(** C9: [assignDriver] succeeds exactly for an existing delivery that is
    neither finished nor already assigned and whose escrow is [LOCKED]; it
    sets the driver and the status together and changes no other document.
    Every refusal leaves the world untouched. *)
Theorem assignDriver_correct id driver_ w r w' :
  run (assignDriver id driver_) w = (r, w') →
  match r with
  | inr d' =>
      ∃ d ek e, deliveries w !! id = Some d ∧ isValidObjectId id = true ∧
        is_finished (status d) = false ∧ status d ≠ DeliveryStatus.ASSIGNED ∧
        escrows w !! ek = Some e ∧ delivery e = id ∧ e_status e = EscrowStatus.LOCKED ∧
        d' = Doc id (assigned driver_ (now_ms w) d) ∧
        deliveries w' = <[id := assigned driver_ (now_ms w) d]> (deliveries w) ∧
        escrows w' = escrows w
  | inl e =>
      w' = w ∧ error_status e = Some (
        if isValidObjectId id then
          match deliveries w !! id with
          | None => Http.NOT_FOUND
          | Some d =>
              if is_finished (status d) || bool_decide (status d = DeliveryStatus.ASSIGNED)
              then Http.CONFLICT
              else if find_one (λ e, String.eqb (delivery e) id) (escrows w) is Some _
              then Http.CONFLICT else Http.UNPROCESSABLE_ENTITY
          end
        else Http.BAD_REQUEST)
  end.
Proof.
  rewrite assignDriver_run. destruct (isValidObjectId id) eqn:Hv; [|by intros [= <- <-]].
  cbn [negb]. destruct (deliveries w !! id) as [d|] eqn:Hd; [|by intros [= <- <-]].
  destruct (is_finished (status d)) eqn:Hf; [by intros [= <- <-]|].
  case_bool_decide as Ha; [by intros [= <- <-]|].
  destruct (find_one _ _) as [e|] eqn:He; [|by intros [= <- <-]].
  case_bool_decide as Hl; [|by intros [= <- <-]]. cbn [negb].
  apply find_one_Some in He as [He Hid%String.eqb_eq].
  match goal with |- context [run (emitMilestone ?d ?ev ?a) ?w1] =>
    destruct (emitMilestone_run d ev a w1) as (rec & w2 & -> & Hlo) end.
  intros [= <- <-]. exists d, (_id e), (body e). cbn [snd].
  by rewrite (lo_deliveries _ _ Hlo), (lo_escrows _ _ Hlo).
Qed.

(** Archiving and then restoring a delivery gives it back unchanged,
    but for [deletedBy], which is cleared, and the update time; archiving
    twice, or restoring what is not archived, is refused with 409. *)
Theorem archive_restore_roundtrip id by_ d w :
  isValidObjectId id = true → deliveries w !! id = Some d →
  isDeleted d = false → deletedAt d = None →
  ∃ d1 w1, run (archive id by_) w = (inr d1, w1) ∧
    isDeleted (body d1) = true ∧ deletedAt (body d1) = Some (now_ms w) ∧
    (∃ e, run (archive id by_) w1 = (inl e, w1) ∧ error_status e = Some Http.CONFLICT) ∧
    run (restore id) w1 =
      (inr (Doc id (d <| deletedBy := None |> <| d_updatedAt := now_ms w |>)),
       w <| deliveries ::= <[id := d <| deletedBy := None |> <| d_updatedAt := now_ms w |>]> |>) ∧
    (∃ e, run (restore id) w = (inl e, w) ∧ error_status e = Some Http.CONFLICT).
Proof.
  intros Hv Hd Hdel Hat.
  set (d1 := softDelete (now_ms w) by_ d <| d_updatedAt := now_ms w |>).
  exists (Doc id d1), (w <| deliveries ::= <[id := d1]> |>).
  assert (isDeleted d1 = true ∧ deletedAt d1 = Some (now_ms w) ∧
    undelete d1 <| d_updatedAt := now_ms w |> =
      d <| deletedBy := None |> <| d_updatedAt := now_ms w |>) as (H1 & H2 & H3).
  { unfold d1, softDelete. destruct d; cbn in *; subst.
    destruct by_ as [u|]; [destruct (Str.truthy u)|]; done. }
  set (w1 := w <| deliveries ::= <[id := d1]> |>).
  assert (deliveries w1 !! id = Some d1) as Hd1 by apply lookup_insert_eq.
  unfold archive, restore. rewrite Hv. cbn [negb].
  split; [|split; [done|]; split; [done|]; split; [|split]];
    run_simpl; rewrite ?DeliveryRepository.run_model_findById, ?Hd, ?Hd1;
    cbn [fst snd fmap option_fmap option_map]; run_simpl; cbn [body];
    rewrite ?Hdel, ?H1; cbn [negb fst snd].
  - by apply DeliveryRepository.run_save.
  - by eexists.
  - rewrite (DeliveryRepository.run_save _ _ d1 w1) by done.
    change (now_ms w1) with (now_ms w). rewrite H3. f_equal.
    trans (w <| deliveries := <[id := d <| deletedBy := None |> <| d_updatedAt := now_ms w |>]>
             (<[id := d1]> (deliveries w)) |>); [done|].
    by rewrite insert_insert_eq.
  - by eexists.
Qed.

(** C15: [create] accepts a delivery exactly when its tracking number is not
    taken by any delivery, archived ones included; it is stored [PENDING],
    with validated assets and, precisely when the escrow amount is a positive
    finite number, a funding deadline: the one given, or now plus the
    configured window.  The unique indexes are preserved, and no other
    document changes. *)
Theorem create_correct i w d w' :
  run (create i) w = (inr d, w') →
  (∀ k e, deliveries w !! k = Some e → trackingNumber e ≠ Some (c_trackingNumber i)) ∧
  deliveries w !! _id d = None ∧
  deliveries w' = <[_id d := body d]> (deliveries w) ∧ escrows w' = escrows w ∧
  status (body d) = DeliveryStatus.PENDING ∧ isDeleted (body d) = false ∧
  fundBy (body d) =
    (if Num.positive (c_escrowAmount i)
     then Some (nullish (c_fundBy i) (now_ms w + ESCROW_FUNDING_WINDOW_SECONDS * 1000)%Z)
     else None) ∧
  (∃ a, escrowAsset (body d) = Some a ∧ validateAsset (nullish (c_escrowAsset i) XLM) = inr a ∧
     validateAsset a = inr a) ∧
  (DeliveryRepository.indexed (deliveries w) → DeliveryRepository.indexed (deliveries w')).
Proof.
  unfold create, DeliveryRepository.findOne. rewrite run_bind, run_reads. cbn [fst snd].
  destruct (find_one _ _) as [e|] eqn:Hf; [done|].
  rewrite bool_decide_false by (by intros [? ?]). rewrite run_bind, run_throw_if. cbn [fst snd].
  rewrite run_bind. cbn [run fst snd].
  destruct (validateAsset (nullish (c_deliveryFeeAsset i) XLM)) as [?|fee]; [done|].
  rewrite run_bind. cbn [run fst snd].
  destruct (validateAsset (nullish (c_escrowAsset i) XLM)) as [?|esc] eqn:He; [done|].
  rewrite run_bind, run_now. cbn [fst snd]. rewrite run_bind.
  destruct (run (DeliveryRepository.create _) w) as [[er|d0] w1] eqn:Hc; [done|].
  cbn [fst snd]. rewrite emitMilestone_ret.
  match goal with |- context [run (emitMilestone ?d ?ev ?a) ?w1] =>
    destruct (emitMilestone_run d ev a w1) as (rec & w2 & -> & Hlo) end.
  cbn [snd]. intros [= <- <-].
  apply DeliveryRepository.run_create_inv in Hc
    as [(? & _)|(id & [= ->] & Hid & Hcl & Hd & Hes & _)]; [done|].
  cbn [_id body]. rewrite (lo_deliveries _ _ Hlo), (lo_escrows _ _ Hlo), Hd, Hes.
  repeat split; try done.
  - intros k e Hk Ht. pose proof (find_one_None _ _ Hf _ _ Hk) as Hb. cbn in Hb.
    by rewrite bool_decide_true in Hb.
  - exists esc. split; [done|]. split; [done|]. by eapply validateAsset_idemp.
  - intros Hx. by apply DeliveryRepository.indexed_insert_new.
Qed.

(** The milestone log of a delivery is only ever shown to an admin, its
    customer account, its sender or its assigned driver; they get a page of
    that delivery's own events, sorted by seq, of at most 100 entries. *)
Theorem listMilestones_authorised id rq pg lim w p w' :
  run (listMilestones id rq pg lim) w = (inr p, w') →
  w' = w ∧ isValidObjectId id = true ∧
  (∃ d, deliveries w !! id = Some d ∧
     (role rq = "admin" ∨ userId d = Some (r_id rq) ∨ driverId d = Some (r_id rq) ∨
      sender d = Some (r_id rq))) ∧
  (∀ e, e ∈ data p → e ∈ deliveryEvents w ∧ ev_delivery e = id) ∧
  (Z.of_nat (length (data p)) ≤ 100)%Z ∧
  Sorted (ordered (λ e1 e2, seq e1 <=? seq e2)%Z) (data p).
Proof.
  unfold listMilestones, DeliveryRepository.findById.
  destruct (isValidObjectId id); [|done]. cbn [negb]. rewrite run_bind, run_throw_if.
  cbn [fst snd]. rewrite run_bind, DeliveryRepository.run_model_findById. cbn [fst snd].
  destruct (deliveries w !! id) as [d|] eqn:Hd; [|done]. cbn [fmap option_fmap option_map].
  rewrite run_bind, run_or_throw. cbn [fst snd body].
  destruct (_ && _) eqn:Ha; [done|]. rewrite run_bind, run_throw_if. cbn [fst snd].
  rewrite run_bind, run_reads. cbn [fst snd]. rewrite run_ret. intros [= <- <-].
  split; [done|]. split; [done|]. split; [|split; [|split]].
  - exists d. split; [done|]. apply andb_false_iff in Ha as [Ha|Ha];
      apply negb_false_iff in Ha; [left; by apply String.eqb_eq|right].
    unfold is_participant, some in Ha. cbn in Ha.
    rewrite !orb_true_iff, !bool_decide_eq_true in Ha.
    by destruct Ha as [?|[?|[?|?]]]; auto.
  - intros e He. apply paginate_elem in He. rewrite sort_by_perm in He.
    by apply list_elem_of_filter in He as [? ?].
  - apply paginate_length.
  - apply paginate_sorted. intros e1 e2. unfold ordered.
    rewrite !Z.leb_le. lia.
Qed.
End Properties.

Section Witnesses.
Import Example_.

Lemma updateStatus_correct_witness :
  ∃ w', run (updateStatus did DeliveryStatus.COMPLETED system_actor)
          (with_delivery (dlv DeliveryStatus.IN_PROGRESS (Some proof))) =
        (inr (Doc did (moved DeliveryStatus.COMPLETED t0
                         (dlv DeliveryStatus.IN_PROGRESS (Some proof)))), w').
Proof.
  destruct (updateStatus_correct did DeliveryStatus.COMPLETED system_actor
    (with_delivery (dlv DeliveryStatus.IN_PROGRESS (Some proof)))) as [Hok _].
  destruct (Hok (dlv DeliveryStatus.IN_PROGRESS (Some proof))) as (w' & Hr & _);
    [reflexivity|reflexivity| |by exists w'].
  split; [constructor; by left|by eexists].
Defined.

(** Two requests race to cancel and to start the same assigned delivery. *)
Lemma updateStatus_interleaved_witness :
  let w := with_delivery (dlv DeliveryStatus.ASSIGNED None) in
  let w' := (interleave [0; 1; 0; 1; 1; 0]%nat
    ((λ r, updateStatus r.1.1 r.1.2 r.2) <$>
       [(did, DeliveryStatus.CANCELLED, system_actor); (did, DeliveryStatus.IN_PROGRESS, system_actor)])
    w).2 in
  ∃ d', deliveries w' !! did = Some d' ∧ moves (dlv DeliveryStatus.ASSIGNED None) d'.
Proof.
  intros w w'.
  apply (updateStatus_interleaved
    [(did, DeliveryStatus.CANCELLED, system_actor); (did, DeliveryStatus.IN_PROGRESS, system_actor)]
    [0; 1; 0; 1; 1; 0]%nat w did (dlv DeliveryStatus.ASSIGNED None)).
  reflexivity.
Defined.

Lemma milestones_gapless_interleaved_witness :
  let d := Doc did (dlv DeliveryStatus.FUNDED None) in
  let m := mkMilestoneInput DeliveryMilestone.FUNDED None None in
  let w' := (interleave [0; 1; 0; 1; 1; 0; 0; 0; 0; 0; 1; 1]%nat
               ((λ m, emitMilestone m.1.1 m.1.2 m.2) <$> [(d, m, system_actor); (d, m, system_actor)])
               (with_delivery (body d))).2 in
  MilestoneLog.gapless (deliveryEvents w') ∧ (seq <$> deliveryEvents w') = [1; 2]%Z.
Proof.
  intros d m w'. split; [|vm_compute; reflexivity].
  apply (milestones_gapless_interleaved [(d, m, system_actor); (d, m, system_actor)]
           [0; 1; 0; 1; 1; 0; 0; 0; 0; 0; 1; 1]%nat (with_delivery (body d))).
  intros id. reflexivity.
Defined.

Lemma assignDriver_correct_witness :
  let w := with_escrow (dlv DeliveryStatus.FUNDED None) (esc EscrowStatus.LOCKED) in
  ∃ d' w', run (assignDriver did "driver-2") w = (inr d', w') ∧
    status (body d') = DeliveryStatus.ASSIGNED ∧ escrows w' = escrows w.
Proof.
  intros w. destruct (run (assignDriver did "driver-2") w) as [[e|d'] w'] eqn:Hr.
  { exfalso. vm_compute in Hr. discriminate Hr. }
  exists d', w'. split; [reflexivity|].
  destruct (assignDriver_correct did "driver-2" w (inr d') w' Hr)
    as (d & ek & e & _ & _ & _ & _ & _ & _ & _ & -> & _ & He).
  split; [reflexivity|exact He].
Defined.

Lemma archive_restore_roundtrip_witness :
  let d := dlv DeliveryStatus.COMPLETED (Some proof) in
  let w := with_delivery d in
  ∃ d1 w1, run (archive did (Some "admin-1")) w = (inr d1, w1) ∧
    run (restore did) w1 = (inr (Doc did d), w).
Proof.
  intros d w.
  destruct (archive_restore_roundtrip did (Some "admin-1") d w)
    as (d1 & w1 & Ha & _ & _ & _ & Hr & _); [reflexivity..|].
  exists d1, w1. split; [exact Ha|]. rewrite Hr. reflexivity.
Defined.

Definition new_input : CreateDeliveryInput :=
  mkCreateInput "TRK-2" JNull JNull JNull JNull (Num.of_Z 15) None (Num.of_Z 150)
    (Some (mkAsset " xlm " None)) None None.

Lemma create_correct_witness :
  ∃ d w', run (create new_input) (with_delivery (dlv DeliveryStatus.FUNDED None)) = (inr d, w') ∧
    fundBy (body d) = Some (t0 + 86400000)%Z.
Proof.
  set (w := with_delivery _).
  destruct (run (create new_input) w) as [[e|d] w'] eqn:Hr.
  { exfalso. vm_compute in Hr. discriminate Hr. }
  exists d, w'. split; [reflexivity|].
  destruct (create_correct new_input w d w' Hr) as (_ & _ & _ & _ & _ & _ & Hf & _).
  rewrite Hf. reflexivity.
Defined.

Lemma listMilestones_authorised_witness :
  let w := with_delivery (dlv DeliveryStatus.FUNDED None) in
  ∃ p, run (listMilestones did (mkRequester "customer-1" "user") 1 50) w = (inr p, w) ∧
    (Z.of_nat (length (data p)) ≤ 100)%Z.
Proof.
  intros w.
  destruct (run (listMilestones did (mkRequester "customer-1" "user") 1 50) w)
    as [[e|p] w'] eqn:Hr.
  { exfalso. vm_compute in Hr. discriminate Hr. }
  destruct (listMilestones_authorised _ _ _ _ w p w' Hr) as (-> & _ & _ & _ & Hl & _).
  exists p. split; [reflexivity|exact Hl].
Defined.
End Witnesses.
