(* ===== verification/EscrowService.v ===== *)
(** * The escrow service ([src/src/services/escrow.service.ts])

    Funding, release, expiry and administrative resolution of the escrows that
    secure deliveries, and the lapse of unfunded deliveries. *)
From S2P Require Import Prelude JsLib Models Repositories Pagination Currency ProofOfDelivery RedisLock DeliveryService.

(** ** Inputs, results and constants *)
Definition FUNDING_WINDOW_LAPSED_REASON : string :=
  "Escrow funding window lapsed: the escrow was not funded before the fundBy deadline.".

Record EscrowFundedInput := mkEscrowFundedInput {
  ef_contractId : string;
  ef_deliveryId : string;
  ef_amount : number;
  ef_asset : string;
  ef_assetIssuer : option string;
  ef_fundedBy : option string;
  ef_transactionHash : string;
  ef_ledger : option number
}.

Record ReleaseEscrowInput := mkReleaseEscrowInput {
  re_escrowId : string;
  re_transactionHash : string;
  re_ledger : option number
}.

Record ScanExpiredEscrowsResult := mkScanExpired {
  scannedAt : string;
  flaggedCount : Z;
  flaggedEscrows : list (hydrated Escrow)
}.

Record ScanLapsedFundingWindowsResult := mkScanLapsed {
  sl_scannedAt : string;
  cancelledCount : Z;
  cancelledDeliveryIds : list string
}.

Inductive FlaggedEscrowFilter := disputed | expired | suspicious.

Record GetFlaggedEscrowsInput := mkGetFlagged {
  gf_page : option Z;
  gf_limit : option Z;
  gf_type : option FlaggedEscrowFilter;
  gf_sort : option (hydrated Escrow → hydrated Escrow → bool)
}.

Module EscrowResolution.
Inductive t := RELEASE_TO_DRIVER | REFUND_TO_PAYER | KEEP_LOCKED.
Definition to_string (r : t) : string :=
  match r with
  | RELEASE_TO_DRIVER => "release_to_driver" | REFUND_TO_PAYER => "refund_to_payer"
  | KEEP_LOCKED => "keep_locked"
  end.
(** [Object.values(EscrowResolution).includes(s)]. *)
Definition of_string (s : string) : option t :=
  list_find (λ v, to_string v = s) [RELEASE_TO_DRIVER; REFUND_TO_PAYER; KEEP_LOCKED]
    ≫= λ p, Some p.2.
End EscrowResolution.

Record ResolveEscrowInput := mkResolveEscrowInput {
  rs_escrowId : string;
  rs_adminId : string;
  rs_resolution : string;
  rs_reason : string
}.

Module ExpiredEscrowAction.
Inductive t := REFUND | CANCEL.
#[global] Instance eq_dec : EqDecision t.
Proof. solve_decision. Defined.
Definition to_string (r : t) : string :=
  match r with REFUND => "refund" | CANCEL => "cancel" end.
Definition of_string (s : string) : option t :=
  list_find (λ v, to_string v = s) [REFUND; CANCEL] ≫= λ p, Some p.2.
End ExpiredEscrowAction.

Record RetryExpiredEscrowInput := mkRetryExpiredEscrowInput {
  rt_escrowId : string;
  rt_adminId : string;
  rt_action : string;
  rt_reason : string
}.

Definition RESOLVABLE_STATUSES : list EscrowStatus.t :=
  [EscrowStatus.LOCKED; EscrowStatus.DISPUTED; EscrowStatus.EXPIRED].
Definition EXPIRABLE_STATUSES : list EscrowStatus.t :=
  [EscrowStatus.PENDING; EscrowStatus.LOCKED].
Definition FLAGGED_ESCROWS_MAX_LIMIT : Z := 100.

(** A field of a [$set]: an [undefined] value leaves the stored one. *)
Definition set_defined {A} (new : option A) (old : option A) : option A :=
  match new with Some a => Some a | None => old end.

Section EscrowService.
Context `{E : Env, C : DeliveryConsumers}.

Definition computeExpiresAt (locked : Z) : Z :=
  (locked + ESCROW_LOCK_TTL_SECONDS * 1000)%Z.

(** ** The funding window *)
Definition window_lapsed (t : Z) (d : Delivery) : bool :=
  bool_decide (status d = DeliveryStatus.PENDING)
  && match fundBy d with Some f => (f <=? t)%Z | None => false end.

Definition isFundingWindowLapsed (d : hydrated Delivery) : action bool :=
  t ← now; mret (window_lapsed t (body d)).

Definition fundingRejectedMessage (d : hydrated Delivery) : string :=
  let reason := nullish (cancellationReason (body d)) FUNDING_WINDOW_LAPSED_REASON in
  let deadline :=
    match fundBy (body d) with
    | Some f => " The funding window closed at " +:+ Date.toISOString f +:+ "."
    | None => ""
    end in
  "Delivery " +:+ _id d +:+ " is cancelled and can no longer be funded: " +:+ reason
    +:+ deadline +:+ " Create a new delivery to fund it.".

Definition opt_json {A} (f : A → json) (o : option A) : json :=
  match o with Some a => f a | None => JNull end.

Definition recordFundingWindowAudit (d : hydrated Delivery) (reason : string)
    (previous : DeliveryStatus.t) (deadline : Z) : action unit :=
  try_catch
    (createAuditLog (mkAuditLog "funding_window_lapsed" None "delivery" (_id d) reason
       [("deliveryId", JStr (_id d));
        ("trackingNumber", opt_json JStr (trackingNumber (body d)));
        ("fromStatus", JStr (DeliveryStatus.to_string previous));
        ("toStatus", JStr (DeliveryStatus.to_string DeliveryStatus.CANCELLED));
        ("fundBy", JStr (Date.toISOString deadline));
        ("escrowAmount", opt_json JNum (escrowAmount (body d)))]))
    (λ _, mret tt).

Definition lapse_update (reason : string) (d : Delivery) : Delivery :=
  d <| status := DeliveryStatus.CANCELLED |> <| cancellationReason := Some reason |>.

Definition cancelLapsedFundingWindow (d : hydrated Delivery) (reason : string)
    : action (hydrated Delivery) :=
  lapsed ← isFundingWindowLapsed d;
  match lapsed, fundBy (body d) with
  | true, Some deadline =>
      let previous := status (body d) in
      updated ← DeliveryRepository.updateOneById (_id d)
                  (λ x, bool_decide (status x = previous)) (lapse_update reason);
      match updated with
      | None => mret d
      | Some u =>
          _ ← recordFundingWindowAudit u reason previous deadline;
          _ ← emitMilestone u
                (mkMilestoneInput DeliveryMilestone.FUNDING_WINDOW_LAPSED (Some previous)
                   (Some [("reason", JStr reason);
                          ("fundBy", JStr (Date.toISOString deadline));
                          ("fundingWindowSeconds", JNum (Num.of_Z ESCROW_FUNDING_WINDOW_SECONDS));
                          ("escrowAmount", opt_json JNum (escrowAmount (body u)))]))
                system_actor;
          mret u
      end
  | _, _ => mret d
  end.

Definition lapsed_candidate (t : Z) (d : Delivery) : bool :=
  bool_decide (status d = DeliveryStatus.PENDING)
  && match fundBy d with Some f => (f <=? t)%Z | None => false end
  && negb (isDeleted d).

Definition fundBy_le (d1 d2 : hydrated Delivery) : bool :=
  match fundBy (body d1), fundBy (body d2) with
  | Some a, Some b => (a <=? b)%Z
  | None, _ => true
  | _, None => false
  end.

Definition scan_one (ids : list string) (d : hydrated Delivery) : action (list string) :=
  try_catch
    (u ← cancelLapsedFundingWindow d FUNDING_WINDOW_LAPSED_REASON;
     mret (if bool_decide (status (body u) = DeliveryStatus.CANCELLED)
           then ids ++ [_id u] else ids))
    (λ _, mret ids).

Definition scanLapsedFundingWindows : action ScanLapsedFundingWindowsResult :=
  t ← now;
  lapsed ← DeliveryRepository.find (lapsed_candidate t);
  ids ← fold_prog scan_one [] (sort_by fundBy_le lapsed);
  mret (mkScanLapsed (Date.toISOString t) (Z.of_nat (length ids)) ids).

(** ** Funding *)
Definition fund_update (i : EscrowFundedInput) (a : Asset) (locked : Z)
    (tx : EscrowTransaction) (e : Escrow) : Escrow :=
  e <| amount := ef_amount i |> <| assetCode := code a |>
    <| assetIssuer ::= set_defined (issuer a) |>
    <| payerAddress ::= set_defined (ef_fundedBy i) |>
    <| e_status := EscrowStatus.LOCKED |> <| lockedAt := Some locked |>
    <| expiresAt := Some (computeExpiresAt locked) |> <| transactions ::= (.++ [tx]) |>.

Definition new_escrow (i : EscrowFundedInput) (did : string) (a : Asset) (locked : Z)
    (tx : EscrowTransaction) : Escrow :=
  mkEscrow did EscrowStatus.LOCKED (ef_amount i) (code a) (issuer a)
    (Some (ef_contractId i)) (ef_fundedBy i) None None (Some locked) None None None
    (Some (computeExpiresAt locked)) None None None None None None [tx] 0.

(** [escrow.assetCode && (assetCode or assetIssuer differ)]. *)
Definition asset_changed (e : Escrow) (a : Asset) : bool :=
  Str.truthy (assetCode e)
  && (negb (String.eqb (assetCode e) (code a))
      || negb (bool_decide (assetIssuer e = issuer a))).

Definition has_tx (h : string) (e : Escrow) : bool :=
  some (λ tx, String.eqb (hash tx) h) (transactions e).

(** The checks of a funding event against the escrows on record. *)
Definition funding_conflict (i : EscrowFundedInput) (did : string) (a : Asset)
    (escrow deliveryEscrow : option (hydrated Escrow)) : option error :=
  if (match deliveryEscrow with
      | Some de => negb (bool_decide (e_contractId (body de) = Some (ef_contractId i)))
      | None => false
      end)
  then Some (AppError "Delivery already has a different escrow contract" Http.CONFLICT)
  else match escrow with
       | None => None
       | Some e =>
           if negb (String.eqb (delivery (body e)) did)
           then Some (AppError "Contract is already linked to another delivery" Http.CONFLICT)
           else if asset_changed (body e) a
           then Some (AppError "Escrow asset cannot change" Http.CONFLICT)
           else None
       end.

Definition fundable (s : EscrowStatus.t) : bool :=
  bool_decide (s = EscrowStatus.LOCKED) || bool_decide (s = EscrowStatus.PENDING).

(** Write the escrow: lock the one on record, or create it. *)
Definition lock_escrow (i : EscrowFundedInput) (did : string) (a : Asset)
    (escrow : option (hydrated Escrow)) : action (hydrated Escrow) :=
  t ← now;
  let tx := mkEscrowTransaction (ef_transactionHash i) fund (ef_ledger i) t in
  match escrow with
  | Some e =>
      t' ← now;
      let locked := nullish (lockedAt (body e)) t' in
      updated ← EscrowRepository.updateById (_id e) (fund_update i a locked tx);
      or_throw updated (AppError "Escrow changed while funding" Http.CONFLICT)
  | None =>
      locked ← now;
      EscrowRepository.create (new_escrow i did a locked tx)
  end.

(** Mark the delivery funded and raise its milestone. *)
Definition mark_funded (i : EscrowFundedInput) (d : hydrated Delivery) : action unit :=
  if bool_decide (status (body d) = DeliveryStatus.FUNDED) then mret tt else
  _ ← DeliveryRepository.updateById (_id d) (set status (λ _, DeliveryStatus.FUNDED));
  _ ← emitMilestone (Doc (_id d) (body d <| status := DeliveryStatus.FUNDED |>))
        (mkMilestoneInput (MILESTONE_BY_STATUS DeliveryStatus.FUNDED) (Some (status (body d)))
           (Some [("contractId", JStr (ef_contractId i));
                  ("transactionHash", JStr (ef_transactionHash i))]))
        system_actor;
  mret tt.

Definition fund_escrow (i : EscrowFundedInput) (d : hydrated Delivery) (a : Asset)
    (escrow : option (hydrated Escrow)) : action (hydrated Escrow) :=
  e' ← lock_escrow i (_id d) a escrow;
  _ ← mark_funded i d;
  mret e'.

Definition recordEscrowFunded (i : EscrowFundedInput) : action (hydrated Escrow) :=
  _ ← throw_if (negb (isValidObjectId (ef_deliveryId i)))
        (AppError "Invalid deliveryId" Http.BAD_REQUEST);
  found ← DeliveryRepository.findById (ef_deliveryId i);
  d ← or_throw found (AppError "Delivery not found for escrow_funded event" Http.NOT_FOUND);
  _ ← throw_if (bool_decide (status (body d) = DeliveryStatus.CANCELLED))
        (AppError (fundingRejectedMessage d) Http.CONFLICT);
  lapsed ← isFundingWindowLapsed d;
  _ ← (if lapsed : bool
       then _ ← cancelLapsedFundingWindow d FUNDING_WINDOW_LAPSED_REASON;
            throw (AppError (fundingRejectedMessage d) Http.CONFLICT)
       else mret tt);
  a ← Done (validateAsset (mkAsset (ef_asset i) (ef_assetIssuer i)));
  _ ← Done (assertSameAsset (nullish (escrowAsset (body d)) XLM) a);
  _ ← throw_if (negb (Num.positive (ef_amount i)))
        (AppError "Escrow amount must be positive and finite" Http.BAD_REQUEST);
  _ ← throw_if (match escrowAmount (body d) with
                | Some x => negb (Num.eqb x (ef_amount i))
                | None => false
                end) (AppError "Escrow amount must match the delivery" Http.CONFLICT);
  escrow ← EscrowRepository.findByContractId (ef_contractId i);
  deliveryEscrow ← EscrowRepository.findByDeliveryId (_id d);
  _ ← match funding_conflict i (_id d) a escrow deliveryEscrow with
      | Some e => throw e
      | None => mret tt
      end;
  match escrow with
  | Some e =>
      if has_tx (ef_transactionHash i) (body e) then mret e else
      _ ← throw_if (negb (fundable (e_status (body e))))
            (AppError "Settled escrow cannot be funded again" Http.CONFLICT);
      fund_escrow i d a (Some e)
  | None => fund_escrow i d a None
  end.

(** ** Reads *)
Definition getByDeliveryId (did : string) : action (hydrated Escrow) :=
  _ ← throw_if (negb (isValidObjectId did)) (AppError "Invalid deliveryId" Http.BAD_REQUEST);
  found ← EscrowRepository.findOne (λ e, String.eqb (delivery e) did);
  or_throw found (AppError "Escrow not found for delivery" Http.NOT_FOUND).

Definition getByContractId (c : string) : action (hydrated Escrow) :=
  found ← EscrowRepository.findOne (λ e, bool_decide (e_contractId e = Some c));
  or_throw found (AppError "Escrow not found for contract" Http.NOT_FOUND).

(** ** Release *)
Definition release_update (i : ReleaseEscrowInput) (t1 t2 : Z) (e : Escrow) : Escrow :=
  e <| e_status := EscrowStatus.RELEASED |> <| releasedAt := Some t2 |>
    <| transactions ::= (.++ [mkEscrowTransaction (re_transactionHash i) release (re_ledger i) t1]) |>.

Definition find_escrow (id : string) : action (option (hydrated Escrow)) :=
  if isValidObjectId id then EscrowRepository.model_findById id
  else EscrowRepository.findOne (λ e, bool_decide (e_contractId e = Some id)).

(** The related delivery moves to [COMPLETED] unless it is already. *)
Definition complete_delivery (did : string) : action unit :=
  found ← DeliveryRepository.model_findById did;
  match found with
  | Some d =>
      if bool_decide (status (body d) = DeliveryStatus.COMPLETED) then mret tt else
      _ ← DeliveryRepository.save d (set status (λ _, DeliveryStatus.COMPLETED));
      mret tt
  | None => mret tt
  end.

(** The body of the critical section. *)
Definition release_locked (i : ReleaseEscrowInput) : action (hydrated Escrow) :=
  found ← find_escrow (re_escrowId i);
  e ← or_throw found (AppError "Escrow not found" Http.NOT_FOUND);
  if has_tx (re_transactionHash i) (body e) then mret e else
  _ ← throw_if (bool_decide (e_status (body e) = EscrowStatus.RELEASED))
        (AppError "Escrow has already been released" Http.CONFLICT);
  _ ← throw_if (negb (bool_decide (e_status (body e) = EscrowStatus.LOCKED)))
        (AppError ("Escrow cannot be released from status: "
           +:+ EscrowStatus.to_string (e_status (body e))) Http.CONFLICT);
  _ ← assertProofOfDeliveryExists (delivery (body e));
  t1 ← now;
  t2 ← now;
  e' ← EscrowRepository.save e (release_update i t1 t2);
  _ ← complete_delivery (delivery (body e'));
  mret e'.

Definition releaseEscrow (i : ReleaseEscrowInput) : action (hydrated Escrow) :=
  _ ← throw_if (negb (isValidObjectId (re_escrowId i))
                && negb (Str.startsWith (re_escrowId i) "C"))
        (AppError "Invalid escrowId format" Http.BAD_REQUEST);
  withLock ("escrow:release:" +:+ re_escrowId i) (release_locked i).

(** ** Expiry *)
Definition due (t : Z) (o : option Z) : bool :=
  match o with Some x => (x <=? t)%Z | None => false end.

Definition expirable (t : Z) (e : Escrow) : bool :=
  includes (e_status e) EXPIRABLE_STATUSES && due t (expiresAt e).

Definition expire_update (t : Z) (ledger : option Z) (e : Escrow) : Escrow :=
  e <| e_status := EscrowStatus.EXPIRED |> <| expiredAt := Some t |>
    <| flaggedAt := Some t |> <| flaggedLedger ::= set_defined ledger |>.

(** [Promise.allSettled] of the two stakeholder channels. *)
Definition notify_stakeholders (d : hydrated Delivery) (s : DeliveryStatus.t) : action unit :=
  _ ← runConsumer (notifyDeliveryTransition d s);
  runConsumer (dispatchDeliveryEvent d s).

Definition cancelDeliveryForExpiredEscrow (e : hydrated Escrow) : action unit :=
  try_catch
    (found ← DeliveryRepository.model_findById (delivery (body e));
     match found with
     | None => mret tt
     | Some d =>
         if bool_decide (status (body d) = DeliveryStatus.COMPLETED) then mret tt else
         d' ← (if bool_decide (status (body d) = DeliveryStatus.CANCELLED) then mret d
               else DeliveryRepository.save d (set status (λ _, DeliveryStatus.CANCELLED)));
         notify_stakeholders d' DeliveryStatus.CANCELLED
     end)
    (λ _, mret tt).

Definition scanForExpiredEscrows : action ScanExpiredEscrowsResult :=
  t ← now;
  candidates ← EscrowRepository.find (expirable t);
  match candidates with
  | [] => mret (mkScanExpired (Date.toISOString t) 0 [])
  | _ :: _ =>
      ledger ← try_catch (t' ← now; Done (getLatestLedger t')) (λ _, mret None);
      let ids := _id <$> candidates in
      _ ← EscrowRepository.updateMany
            (λ id e, includes id ids && includes (e_status e) EXPIRABLE_STATUSES)
            (expire_update t ledger);
      flagged ← reads (λ w, filter (λ d, includes (_id d) ids = true)
                   (find_all (λ e, bool_decide (e_status e = EscrowStatus.EXPIRED)) w.(escrows)));
      _ ← for_each flagged cancelDeliveryForExpiredEscrow;
      mret (mkScanExpired (Date.toISOString t) (Z.of_nat (length flagged)) flagged)
  end.

(** ** Administration *)
Definition buildFlaggedFilter (type : option FlaggedEscrowFilter) (t : Z) (e : Escrow) : bool :=
  let is_disputed := bool_decide (e_status e = EscrowStatus.DISPUTED) in
  let is_expired := bool_decide (e_status e = EscrowStatus.EXPIRED) in
  let is_suspicious :=
    bool_decide (e_status e = EscrowStatus.LOCKED)
    && (due t (expiresAt e)
        || match payerAddress e with Some p => String.eqb p "" | None => true end) in
  match type with
  | Some disputed => is_disputed
  | Some expired => is_expired
  | Some suspicious => is_suspicious
  | None => is_disputed || is_expired || is_suspicious
  end.

Definition by_updatedAt_desc (e1 e2 : hydrated Escrow) : bool :=
  (e_updatedAt (body e2) <=? e_updatedAt (body e1))%Z.

Definition getFlaggedEscrows (i : GetFlaggedEscrowsInput) : action (Page (hydrated Escrow)) :=
  let pg := Z.max 1 (nullish (gf_page i) 1%Z) in
  let lim := Z.min FLAGGED_ESCROWS_MAX_LIMIT (Z.max 1 (nullish (gf_limit i) 20%Z)) in
  t ← now;
  docs ← EscrowRepository.find (buildFlaggedFilter (gf_type i) t);
  mret (page_of (sort_by (nullish (gf_sort i) by_updatedAt_desc) docs) pg lim).

Definition writeAuditLog (action_ admin : string) (e : hydrated Escrow) (reason : string)
    (meta : list (string * json)) : action unit :=
  try_catch
    (createAuditLog (mkAuditLog action_ (if isValidObjectId admin then Some admin else None)
       "Escrow" (_id e) reason (meta ++ [("deliveryId", JStr (delivery (body e)))])))
    (λ _, mret tt).

Definition applyDeliveryStatus (e : hydrated Escrow) (s : DeliveryStatus.t) : action unit :=
  found ← DeliveryRepository.model_findById (delivery (body e));
  match found with
  | None => mret tt
  | Some d =>
      if bool_decide (status (body d) = s) then mret tt else
      d' ← DeliveryRepository.save d (set status (λ _, s));
      notify_stakeholders d' s
  end.

Definition stamp_resolution (t : Z) (admin reason : string) (e : Escrow) : Escrow :=
  e <| resolvedAt := Some t |> <| resolvedBy := Some admin |>
    <| resolutionNotes := Some reason |>.

Definition resolve_update (r : EscrowResolution.t) (t : Z) (e : Escrow) : Escrow :=
  match r with
  | EscrowResolution.RELEASE_TO_DRIVER =>
      e <| e_status := EscrowStatus.RELEASED |> <| releasedAt := Some t |>
  | EscrowResolution.REFUND_TO_PAYER =>
      e <| e_status := EscrowStatus.REFUNDED |> <| refundedAt := Some t |>
  | EscrowResolution.KEEP_LOCKED =>
      e <| e_status := EscrowStatus.LOCKED |> <| expiresAt := Some (computeExpiresAt t) |>
  end.

(** The delivery status a resolution implies. *)
Definition resolution_delivery (r : EscrowResolution.t) : option DeliveryStatus.t :=
  match r with
  | EscrowResolution.RELEASE_TO_DRIVER => Some DeliveryStatus.COMPLETED
  | EscrowResolution.REFUND_TO_PAYER => Some DeliveryStatus.CANCELLED
  | EscrowResolution.KEEP_LOCKED => None
  end.

Definition resolve_locked (i : ResolveEscrowInput) (r : EscrowResolution.t)
    : action (hydrated Escrow) :=
  found ← EscrowRepository.model_findById (rs_escrowId i);
  e ← or_throw found (AppError "Escrow not found." Http.NOT_FOUND);
  let previous := e_status (body e) in
  _ ← throw_if (negb (includes previous RESOLVABLE_STATUSES))
        (AppError ("Escrow cannot be resolved from status: " +:+ EscrowStatus.to_string previous)
           Http.CONFLICT);
  t ← now;
  e' ← EscrowRepository.save e
         (λ x, stamp_resolution t (rs_adminId i) (rs_reason i) (resolve_update r t x));
  _ ← match resolution_delivery r with
      | Some s => applyDeliveryStatus e' s
      | None => mret tt
      end;
  _ ← writeAuditLog "escrow.resolve" (rs_adminId i) e' (rs_reason i)
        [("resolution", JStr (EscrowResolution.to_string r));
         ("previousStatus", JStr (EscrowStatus.to_string previous));
         ("newStatus", JStr (EscrowStatus.to_string (e_status (body e'))))];
  mret e'.

Definition resolveEscrow (i : ResolveEscrowInput) : action (hydrated Escrow) :=
  _ ← throw_if (negb (isValidObjectId (rs_escrowId i)))
        (AppError "Invalid escrow ID format." Http.BAD_REQUEST);
  r ← or_throw (EscrowResolution.of_string (rs_resolution i))
        (AppError "Invalid resolution." Http.BAD_REQUEST);
  withLock ("escrow:resolve:" +:+ rs_escrowId i) (resolve_locked i r).

Definition retry_update (a : ExpiredEscrowAction.t) (t : Z) (e : Escrow) : Escrow :=
  match a with
  | ExpiredEscrowAction.REFUND =>
      e <| e_status := EscrowStatus.LOCKED |> <| lockedAt := Some t |>
        <| expiresAt := Some (computeExpiresAt t) |> <| expiredAt := None |>
        <| flaggedAt := None |>
  | ExpiredEscrowAction.CANCEL => e <| e_status := EscrowStatus.RESOLVED |>
  end.

Definition retry_delivery (a : ExpiredEscrowAction.t) : DeliveryStatus.t :=
  if bool_decide (a = ExpiredEscrowAction.REFUND) then DeliveryStatus.FUNDED
  else DeliveryStatus.CANCELLED.

Definition retry_locked (i : RetryExpiredEscrowInput) (a : ExpiredEscrowAction.t)
    : action (hydrated Escrow) :=
  found ← EscrowRepository.model_findById (rt_escrowId i);
  e ← or_throw found (AppError "Escrow not found." Http.NOT_FOUND);
  _ ← throw_if (negb (bool_decide (e_status (body e) = EscrowStatus.EXPIRED)))
        (AppError "Only expired escrows can be retried." Http.CONFLICT);
  t ← now;
  e' ← EscrowRepository.save e
         (λ x, stamp_resolution t (rt_adminId i) (rt_reason i) (retry_update a t x));
  _ ← applyDeliveryStatus e' (retry_delivery a);
  _ ← writeAuditLog "escrow.expired_retry" (rt_adminId i) e' (rt_reason i)
        [("action", JStr (ExpiredEscrowAction.to_string a));
         ("newStatus", JStr (EscrowStatus.to_string (e_status (body e'))))];
  mret e'.

Definition retryExpiredEscrow (i : RetryExpiredEscrowInput) : action (hydrated Escrow) :=
  _ ← throw_if (negb (isValidObjectId (rt_escrowId i)))
        (AppError "Invalid escrow ID format." Http.BAD_REQUEST);
  a ← or_throw (ExpiredEscrowAction.of_string (rt_action i))
        (AppError "Invalid action." Http.BAD_REQUEST);
  withLock ("escrow:resolve:" +:+ rt_escrowId i) (retry_locked i a).
End EscrowService.
