(* ===== verification/EscrowFacts.v ===== *)
(** * Correctness of the escrow service

    Functional specifications of funding, release, expiry, resolution and the
    funding-window lapse, and the invariants of the escrow collection over any
    sequence of service operations. *)
From S2P Require Import Prelude JsLib Models Repositories Pagination Currency ProofOfDelivery RedisLock DeliveryService EscrowService.

(** What a helper that only works on deliveries, milestones and audit entries
    leaves alone. *)
Record keeps_escrows (w w' : World) : Prop := {
  ke_escrows : escrows w' = escrows w;
  ke_now : now_ms w' = now_ms w;
  ke_locks : redisLocks w' = redisLocks w
}.
#[export] Instance keeps_escrows_preorder : PreOrder keeps_escrows.
Proof. split; [by intros w|]. intros w1 w2 w3 [] []. split; by etrans. Qed.

Lemma logs_only_keeps w w' : logs_only w w' → keeps_escrows w w'.
Proof. by intros []. Qed.
Lemma same_core_keeps w w' : same_core w w' → keeps_escrows w w'.
Proof. by intros []. Qed.

Section Helpers.
Context `{E : Env, C : DeliveryConsumers, COk : !DeliveryConsumersOk}.

(** *** Footprints *)
Lemma notify_stakeholders_confined d s : confined same_core (notify_stakeholders d s).
Proof.
  apply confined_bind; [|intros _]; apply runConsumer_confined;
    [apply notify_confined|apply dispatch_confined].
Qed.

Lemma notify_stakeholders_run d s w :
  ∃ w', run (notify_stakeholders d s) w = (inr tt, w') ∧ same_core w w'.
Proof.
  pose proof (confined_run same_core _ w (notify_stakeholders_confined d s)) as Hc.
  unfold notify_stakeholders in *. revert Hc.
  rewrite run_bind, runConsumer_run. cbn [fst snd]. rewrite runConsumer_run.
  intros Hc. by eexists.
Qed.

Lemma delivery_save_confined d f : confined keeps_escrows (DeliveryRepository.save d f).
Proof. intros w. cbn. by case_match. Qed.
Lemma delivery_update_confined id P f :
  confined keeps_escrows (DeliveryRepository.updateOneById id P f).
Proof.
  intros w. cbn. split; [|done].
  destruct (DeliveryRepository.find_and_update _ _ w) as [o w'] eqn:Hu.
  apply DeliveryRepository.find_and_update_inv in Hu as [(_ & -> & _)|(d & d' & _ & _ & _ & ->)];
    done.
Qed.

Lemma emit_keeps d ev a : confined keeps_escrows (emitMilestone d ev a).
Proof. eapply confined_mono; [apply logs_only_keeps|apply emitMilestone_confined]. Qed.

Lemma audit_confined l : confined keeps_escrows (createAuditLog l).
Proof. by intros w. Qed.

Lemma cancelLapsed_confined d reason :
  confined keeps_escrows (cancelLapsedFundingWindow d reason).
Proof.
  unfold cancelLapsedFundingWindow. apply confined_bind; [by intros w|].
  intros [|]; [|done]. destruct (fundBy (body d)); [|done].
  apply confined_bind; [apply delivery_update_confined|]. intros [u|]; [|done].
  apply confined_bind; [by apply confined_try_catch; [apply audit_confined|]|].
  intros _. by apply confined_bind; [apply emit_keeps|].
Qed.

Lemma complete_delivery_confined did : confined keeps_escrows (complete_delivery did).
Proof.
  apply confined_bind; [by intros w|]. intros [d|]; [|done]. case_bool_decide; [done|].
  by apply confined_bind; [apply delivery_save_confined|].
Qed.

Lemma applyDeliveryStatus_confined e s : confined keeps_escrows (applyDeliveryStatus e s).
Proof.
  apply confined_bind; [by intros w|]. intros [d|]; [|done]. case_bool_decide; [done|].
  apply confined_bind; [apply delivery_save_confined|]. intros d'.
  eapply confined_mono; [apply same_core_keeps|apply notify_stakeholders_confined].
Qed.

Lemma writeAuditLog_confined a ad e r m : confined keeps_escrows (writeAuditLog a ad e r m).
Proof. by apply confined_try_catch; [apply audit_confined|]. Qed.

Lemma cancelExpired_confined e : confined keeps_escrows (cancelDeliveryForExpiredEscrow e).
Proof.
  apply confined_try_catch; [|done]. apply confined_bind; [by intros w|].
  intros [d|]; [|done]. case_bool_decide; [done|].
  apply confined_bind; [case_bool_decide; [done|apply delivery_save_confined]|]. intros d'.
  eapply confined_mono; [apply same_core_keeps|apply notify_stakeholders_confined].
Qed.

(** *** The helpers run *)
Lemma writeAuditLog_run a ad e r m w :
  run (writeAuditLog a ad e r m) w =
    (inr tt, w <| auditLogs ::= (.++ [mkAuditLog a (if isValidObjectId ad then Some ad else None)
        "Escrow" (_id e) r (m ++ [("deliveryId", JStr (delivery (body e)))]) (now_ms w)]) |>).
Proof. done. Qed.

Definition delivery_after (did : string) (s : DeliveryStatus.t) (w : World)
    : gmap string Delivery :=
  alter (λ d, if bool_decide (status d = s) then d
              else d <| status := s |> <| d_updatedAt := now_ms w |>) did (deliveries w).

Lemma alter_insert_if (m : gmap string Delivery) k d f :
  m !! k = Some d → alter f k m = <[k := f d]> m.
Proof.
  intros Hd. apply map_eq. intros j. destruct (decide (k = j)) as [<-|].
  - by rewrite lookup_alter_eq, lookup_insert_eq, Hd.
  - by rewrite lookup_alter_ne, lookup_insert_ne.
Qed.
Lemma alter_missing (m : gmap string Delivery) k f : m !! k = None → alter f k m = m.
Proof.
  intros Hd. apply map_eq. intros j. destruct (decide (k = j)) as [<-|].
  - by rewrite lookup_alter_eq, Hd.
  - by rewrite lookup_alter_ne.
Qed.
Lemma alter_same (m : gmap string Delivery) k d f :
  m !! k = Some d → f d = d → alter f k m = m.
Proof. intros Hd Hf. by rewrite (alter_insert_if _ _ d), Hf, insert_id. Qed.

Lemma applyDeliveryStatus_run e s w :
  ∃ w', run (applyDeliveryStatus e s) w = (inr tt, w') ∧ keeps_escrows w w' ∧
    deliveries w' = delivery_after (delivery (body e)) s w ∧ auditLogs w' = auditLogs w.
Proof.
  pose proof (confined_run keeps_escrows _ w (applyDeliveryStatus_confined e s)) as Hc.
  unfold applyDeliveryStatus, delivery_after in *. revert Hc.
  rewrite run_bind, DeliveryRepository.run_model_findById. cbn [fst snd].
  destruct (deliveries w !! delivery (body e)) as [d|] eqn:Hd.
  2: { intros Hc. exists w. by rewrite alter_missing. }
  cbn [fmap option_fmap option_map body].
  case_bool_decide as Hs.
  { intros Hc. exists w. rewrite (alter_same _ _ d); [done..|].
    by rewrite bool_decide_true. }
  rewrite run_bind, (DeliveryRepository.run_save _ _ _ _ Hd). cbn [fst snd].
  match goal with |- context [run (notify_stakeholders ?d ?s) ?w1] =>
    destruct (notify_stakeholders_run d s w1) as (w2 & -> & Hsc) end.
  intros Hc. exists w2. split; [done|]. split; [done|].
  rewrite (sc_deliveries _ _ Hsc), (sc_audit _ _ Hsc). split; [|done].
  rewrite (alter_insert_if _ _ d); [|done]. by rewrite bool_decide_false.
Qed.

Lemma complete_delivery_run did w :
  ∃ w', run (complete_delivery did) w = (inr tt, w') ∧ keeps_escrows w w' ∧
    deliveries w' = delivery_after did DeliveryStatus.COMPLETED w ∧
    auditLogs w' = auditLogs w ∧ deliveryEvents w' = deliveryEvents w.
Proof.
  pose proof (confined_run keeps_escrows _ w (complete_delivery_confined did)) as Hc.
  unfold complete_delivery, delivery_after in *. revert Hc.
  rewrite run_bind, DeliveryRepository.run_model_findById. cbn [fst snd].
  destruct (deliveries w !! did) as [d|] eqn:Hd.
  2: { intros Hc. exists w. by rewrite alter_missing. }
  cbn [fmap option_fmap option_map body]. case_bool_decide as Hs.
  { intros Hc. exists w. rewrite (alter_same _ _ d); [done..|].
    by rewrite bool_decide_true. }
  rewrite run_bind, (DeliveryRepository.run_save _ _ _ _ Hd). cbn [fst snd].
  rewrite run_ret. cbn [snd]. intros Hc. eexists. split; [done|]. split; [done|].
  rewrite (alter_insert_if _ _ d) by done. by rewrite bool_decide_false.
Qed.

Lemma mark_funded_run i id d w :
  isValidObjectId id = true → deliveries w !! id = Some d →
  ∃ w', run (mark_funded i (Doc id d)) w = (inr tt, w') ∧ keeps_escrows w w' ∧
    deliveries w' = delivery_after id DeliveryStatus.FUNDED w ∧ auditLogs w' = auditLogs w.
Proof.
  intros Hv Hd. unfold mark_funded, delivery_after. cbn [body _id].
  rewrite (alter_insert_if _ _ d) by done. case_bool_decide as Hs.
  { exists w. by rewrite insert_id. }
  unfold DeliveryRepository.updateById. rewrite Hv, run_bind.
  rewrite (DeliveryRepository.run_findByIdAndUpdate _ _ d) by done. cbn [fst snd].
  rewrite run_bind.
  match goal with |- context [run (emitMilestone ?d ?ev ?a) ?w1] =>
    destruct (emitMilestone_run d ev a w1) as (rec & w2 & -> & Hlo) end.
  cbn [fst snd]. exists w2. rewrite run_ret. split; [done|].
  rewrite (lo_deliveries _ _ Hlo), (lo_audit _ _ Hlo). split; [|done].
  by destruct Hlo; split.
Qed.
End Helpers.

(** ** Operations under a lock *)
Section Locked.
Context `{E : Env, C : DeliveryConsumers, COk : !DeliveryConsumersOk}.

Definition same_locks (w w' : World) : Prop :=
  redisLocks w' = redisLocks w ∧ now_ms w' = now_ms w.
#[local] Instance same_locks_preorder : PreOrder same_locks.
Proof. split; [done|]. intros w1 w2 w3 [] []. split; by etrans. Qed.

Lemma keeps_same_locks w w' : keeps_escrows w w' → same_locks w w'.
Proof. by intros []. Qed.

Lemma escrow_save_locks d f : confined same_locks (EscrowRepository.save d f).
Proof.
  intros w. split; [|done]. change (same_locks w (run (EscrowRepository.save d f) w).2).
  destruct (run _ w) as [r w'] eqn:Hr.
  apply EscrowRepository.run_escrow_save_inv in Hr as [(? & _ & ->)|(? & _ & _ & _ & ->)]; done.
Qed.

Lemma release_locked_locks i : confined same_locks (release_locked i).
Proof.
  unfold release_locked, find_escrow.
  apply confined_bind; [by case_match; intros w|]. intros o.
  apply confined_bind; [apply confined_or_throw|]. intros e. case_match; [done|].
  apply confined_bind; [apply confined_throw_if|]. intros _.
  apply confined_bind; [apply confined_throw_if|]. intros _.
  apply confined_bind.
  { unfold assertProofOfDeliveryExists. apply confined_bind; [apply confined_throw_if|].
    intros _. apply confined_bind; [by intros w|]. intros. apply confined_throw_if. }
  intros _. apply confined_bind; [by intros w|]. intros t1.
  apply confined_bind; [by intros w|]. intros t2.
  apply confined_bind; [apply escrow_save_locks|]. intros e'.
  apply confined_bind; [|done]. eapply confined_mono; [apply keeps_same_locks|].
  apply complete_delivery_confined.
Qed.

Lemma resolve_locked_locks i x : confined same_locks (resolve_locked i x).
Proof.
  unfold resolve_locked. apply confined_bind; [by intros w|]. intros o.
  apply confined_bind; [apply confined_or_throw|]. intros e.
  apply confined_bind; [apply confined_throw_if|]. intros _.
  apply confined_bind; [by intros w|]. intros t.
  apply confined_bind; [apply escrow_save_locks|]. intros e'.
  apply confined_bind; [case_match; [|done]|intros _; apply confined_bind; [|done]];
    (eapply confined_mono; [apply keeps_same_locks|]);
    [apply applyDeliveryStatus_confined|apply writeAuditLog_confined].
Qed.

Lemma retry_locked_locks i x : confined same_locks (retry_locked i x).
Proof.
  unfold retry_locked. apply confined_bind; [by intros w|]. intros o.
  apply confined_bind; [apply confined_or_throw|]. intros e.
  apply confined_bind; [apply confined_throw_if|]. intros _.
  apply confined_bind; [by intros w|]. intros t.
  apply confined_bind; [apply escrow_save_locks|]. intros e'.
  apply confined_bind; [|intros _; apply confined_bind; [|done]];
    (eapply confined_mono; [apply keeps_same_locks|]);
    [apply applyDeliveryStatus_confined|apply writeAuditLog_confined].
Qed.

Lemma withLock_confined_inv {A} resource (fn : action A) w r w' :
  confined same_locks fn →
  run (withLock resource fn) w = (r, w') →
  (r = inl (lock_error resource) ∧ w' = w ∧ is_Some (redisLocks w !! resource)) ∨
  (redisLocks w !! resource = None ∧ redisLocks w' = redisLocks w ∧
   ∃ w1, run fn (lock_taken resource w) = (r, w1) ∧ w' = unlock resource (nextId w) w1).
Proof.
  intros Hc Hr. eapply run_withLock_inv; [done|]. intros w1.
  by apply (confined_run same_locks _ w1 Hc).
Qed.

(** *** The bodies *)
Definition released (i : ReleaseEscrowInput) (t : Z) (e : Escrow) : Escrow :=
  release_update i t t e <| e_updatedAt := t |>.

Lemma find_escrow_run id w :
  ∃ o, run (find_escrow id) w = (inr o, w) ∧
    ∀ d, o = Some d → escrows w !! _id d = Some (body d) ∧
      (if isValidObjectId id then _id d = id else e_contractId (body d) = Some id).
Proof.
  unfold find_escrow. destruct (isValidObjectId id).
  - eexists. split; [apply EscrowRepository.run_escrow_findById|].
    intros d (e & He & ->)%fmap_Some. done.
  - eexists. split; [apply run_reads|]. intros d Hd.
    apply find_one_Some in Hd as [Hd Hc]. by apply bool_decide_eq_true in Hc.
Qed.

Lemma release_locked_inv i w r w' :
  run (release_locked i) w = (r, w') →
  (∃ er, r = inl er ∧ w' = w) ∨
  (∃ e, r = inr e ∧ w' = w ∧ escrows w !! _id e = Some (body e) ∧
     has_tx (re_transactionHash i) (body e) = true) ∨
  (∃ eid e, escrows w !! eid = Some e ∧ e_status e = EscrowStatus.LOCKED ∧
     (if isValidObjectId (re_escrowId i) then eid = re_escrowId i
      else e_contractId e = Some (re_escrowId i)) ∧
     has_tx (re_transactionHash i) e = false ∧ has_proof (delivery e) w ∧
     r = inr (Doc eid (released i (now_ms w) e)) ∧
     EscrowRepository.conflicts eid (released i (now_ms w) e) (escrows w) = false ∧
     escrows w' = <[eid := released i (now_ms w) e]> (escrows w) ∧
     deliveries w' = delivery_after (delivery e) DeliveryStatus.COMPLETED w ∧
     auditLogs w' = auditLogs w ∧ deliveryEvents w' = deliveryEvents w).
Proof.
  unfold release_locked. rewrite run_bind.
  destruct (find_escrow_run (re_escrowId i) w) as (o & -> & Ho). cbn [fst snd].
  rewrite run_bind, run_or_throw. cbn [fst snd]. destruct o as [[eid e]|].
  2: { intros [= <- <-]. left. by eexists. }
  destruct (Ho _ eq_refl) as [He Hid]. cbn [_id body] in *.
  destruct (has_tx _ e) eqn:Htx.
  { intros [= <- <-]. right; left. by exists (Doc eid e). }
  rewrite run_bind, run_throw_if. cbn [fst snd]. case_bool_decide as Hr.
  { intros [= <- <-]. left. by eexists. }
  rewrite run_bind, run_throw_if. cbn [fst snd]. case_bool_decide as Hl; cbn [negb].
  2: { intros [= <- <-]. left. by eexists. }
  rewrite run_bind. destruct (run (assertProofOfDeliveryExists (delivery e)) w) as [[er|[]] w0] eqn:Hp;
    cbn [fst snd].
  { intros [= <- <-]. left. eexists. split; [done|].
    rewrite assertProof_run in Hp. by simplify_eq. }
  apply assertProof_ok in Hp as (-> & Hdv & Hp).
  do 2 (rewrite run_bind, run_now; cbn [fst snd]). rewrite run_bind.
  destruct (run (EscrowRepository.save _ _) w) as [r1 w1] eqn:Hs.
  apply EscrowRepository.run_escrow_save_inv in Hs
    as [(er & -> & ->)|(e0 & He0 & Hcf & -> & ->)]; cbn [fst snd].
  { intros [= <- <-]. left. by eexists. }
  cbn [_id body] in *. assert (e0 = e) as -> by congruence.
  rewrite run_bind. cbn [fst snd body].
  match goal with |- context [run (complete_delivery ?d) ?w1] =>
    destruct (complete_delivery_run d w1) as (w2 & -> & Hk & Hd & Ha & Hev) end.
  cbn [fst snd]. rewrite run_ret. intros [= <- <-]. right; right.
  exists eid, e. rewrite (ke_escrows _ _ Hk), Hd, Ha, Hev. by repeat split.
Qed.

Definition resolved_as (i : ResolveEscrowInput) (x : EscrowResolution.t) (t : Z) (e : Escrow)
    : Escrow :=
  stamp_resolution t (rs_adminId i) (rs_reason i) (resolve_update x t e)
    <| e_updatedAt := t |>.

Lemma resolve_locked_inv i x w r w' :
  run (resolve_locked i x) w = (r, w') →
  let eid := rs_escrowId i in
  (∃ er, r = inl er ∧ w' = w) ∨
  (∃ e, escrows w !! eid = Some e ∧ e_status e ∈ RESOLVABLE_STATUSES ∧
     let e' := resolved_as i x (now_ms w) e in
     r = inr (Doc eid e') ∧ EscrowRepository.conflicts eid e' (escrows w) = false ∧
     escrows w' = <[eid := e']> (escrows w) ∧
     deliveries w' = match resolution_delivery x with
                     | Some s => delivery_after (delivery e) s w
                     | None => deliveries w
                     end ∧
     auditLogs w' = auditLogs w ++
       [mkAuditLog "escrow.resolve"
          (if isValidObjectId (rs_adminId i) then Some (rs_adminId i) else None)
          "Escrow" eid (rs_reason i)
          [("resolution", JStr (EscrowResolution.to_string x));
           ("previousStatus", JStr (EscrowStatus.to_string (e_status e)));
           ("newStatus", JStr (EscrowStatus.to_string (e_status e')));
           ("deliveryId", JStr (delivery e))] (now_ms w)]).
Proof.
  intros H eid. revert H. unfold resolve_locked.
  rewrite run_bind, EscrowRepository.run_escrow_findById. cbn [fst snd].
  rewrite run_bind, run_or_throw. cbn [fst snd]. fold eid.
  destruct (escrows w !! eid) as [e|] eqn:He; cbn [fmap option_fmap option_map].
  2: { intros [= <- <-]. left. by eexists. }
  cbn [body]. rewrite run_bind, run_throw_if. cbn [fst snd].
  destruct (includes (e_status e) _) eqn:Hi; cbn [negb].
  2: { intros [= <- <-]. left. by eexists. }
  apply includes_true in Hi. rewrite run_bind, run_now. cbn [fst snd]. rewrite run_bind.
  destruct (run (EscrowRepository.save _ _) w) as [r1 w1] eqn:Hs.
  apply EscrowRepository.run_escrow_save_inv in Hs
    as [(er & -> & ->)|(e0 & He0 & Hcf & -> & ->)]; cbn [fst snd].
  { intros [= <- <-]. left. by eexists. }
  cbn [_id body] in *. assert (e0 = e) as -> by congruence. rewrite run_bind. intros H. right. exists e.
  split; [done|]. split; [done|]. fold (resolved_as i x (now_ms w) e) in H.
  set (e' := resolved_as i x (now_ms w) e) in *.
  set (w1 := w <| escrows ::= <[eid := e']> |>) in *.
  assert (∃ w2, run (match resolution_delivery x with
                     | Some s => applyDeliveryStatus (Doc eid e') s
                     | None => mret tt end) w1 = (inr tt, w2) ∧ keeps_escrows w1 w2 ∧
            deliveries w2 = match resolution_delivery x with
                     | Some s => delivery_after (delivery e) s w
                     | None => deliveries w end ∧ auditLogs w2 = auditLogs w)
    as (w2 & Hrun & Hk & Hd & Ha).
  { destruct (resolution_delivery x) as [s|]; [|by eexists].
    destruct (applyDeliveryStatus_run (Doc eid e') s w1) as (w2 & Hr & Hk & Hd & Ha).
    exists w2. split; [done|]. split; [done|]. split; [|done]. rewrite Hd. cbn [body].
    assert (delivery e' = delivery e) as -> by (by destruct x). done. }
  rewrite Hrun in H. cbn [fst snd] in H. rewrite run_bind, writeAuditLog_run in H.
  cbn [fst snd] in H. rewrite run_ret in H. simplify_eq. split; [done|]. split; [done|].
  split; [apply Hk|]. split; [done|]. rec_simpl. rewrite Ha, (ke_now _ _ Hk).
  assert (delivery e' = delivery e) as -> by (by destruct x). done.
Qed.

Definition retried_as (i : RetryExpiredEscrowInput) (x : ExpiredEscrowAction.t) (t : Z)
    (e : Escrow) : Escrow :=
  stamp_resolution t (rt_adminId i) (rt_reason i) (retry_update x t e)
    <| e_updatedAt := t |>.

Lemma retry_locked_inv i x w r w' :
  run (retry_locked i x) w = (r, w') →
  let eid := rt_escrowId i in
  (∃ er, r = inl er ∧ w' = w) ∨
  (∃ e, escrows w !! eid = Some e ∧ e_status e = EscrowStatus.EXPIRED ∧
     let e' := retried_as i x (now_ms w) e in
     r = inr (Doc eid e') ∧ EscrowRepository.conflicts eid e' (escrows w) = false ∧
     escrows w' = <[eid := e']> (escrows w) ∧
     deliveries w' = delivery_after (delivery e) (retry_delivery x) w ∧
     length (auditLogs w') = S (length (auditLogs w))).
Proof.
  intros H eid. revert H. unfold retry_locked.
  rewrite run_bind, EscrowRepository.run_escrow_findById. cbn [fst snd].
  rewrite run_bind, run_or_throw. cbn [fst snd]. fold eid.
  destruct (escrows w !! eid) as [e|] eqn:He; cbn [fmap option_fmap option_map].
  2: { intros [= <- <-]. left. by eexists. }
  cbn [body]. rewrite run_bind, run_throw_if. cbn [fst snd].
  case_bool_decide as Hi; cbn [negb].
  2: { intros [= <- <-]. left. by eexists. }
  rewrite run_bind, run_now. cbn [fst snd]. rewrite run_bind.
  destruct (run (EscrowRepository.save _ _) w) as [r1 w1] eqn:Hs.
  apply EscrowRepository.run_escrow_save_inv in Hs
    as [(er & -> & ->)|(e0 & He0 & Hcf & -> & ->)]; cbn [fst snd].
  { intros [= <- <-]. left. by eexists. }
  cbn [_id body] in *. assert (e0 = e) as -> by congruence. rewrite run_bind. intros H. right. exists e.
  split; [done|]. split; [done|]. fold (retried_as i x (now_ms w) e) in H.
  set (e' := retried_as i x (now_ms w) e) in *.
  assert (delivery e' = delivery e) as Hde by (by destruct x).
  match type of H with context [run (applyDeliveryStatus ?d ?s) ?w1] =>
    destruct (applyDeliveryStatus_run d s w1) as (w2 & Hr & Hk & Hd & Ha) end.
  rewrite Hr in H. cbn [fst snd] in H. rewrite run_bind, writeAuditLog_run in H.
  cbn [fst snd] in H. rewrite run_ret in H. simplify_eq. split; [done|]. split; [done|].
  split; [apply Hk|]. split.
  - rec_simpl. rewrite Hd. cbn [body]. by rewrite Hde.
  - rec_simpl. rewrite length_app, Ha. rec_simpl. lia.
Qed.
End Locked.

(** ** Release *)
Section Release.
Context `{E : Env, C : DeliveryConsumers, COk : !DeliveryConsumersOk}.

Definition release_key (i : ReleaseEscrowInput) : string :=
  "escrow:release:" +:+ re_escrowId i.

Lemma releaseEscrow_valid i :
  isValidObjectId (re_escrowId i) = true →
  releaseEscrow i = withLock (release_key i) (release_locked i).
Proof. intros Hv. unfold releaseEscrow. by rewrite Hv. Qed.

Lemma releaseEscrow_inv i w r w' :
  run (releaseEscrow i) w = (r, w') →
  redisLocks w' = redisLocks w ∧
  ((∃ er, r = inl er ∧ w' = w) ∨
   (redisLocks w !! release_key i = None ∧
    ∃ w1, run (release_locked i) (lock_taken (release_key i) w) = (r, w1) ∧
      w' = unlock (release_key i) (nextId w) w1)).
Proof.
  unfold releaseEscrow. destruct (_ && _) eqn:Hb; cbn [throw_if].
  { intros [= <- <-]. split; [done|]. left. by eexists. }
  rewrite run_bind, run_ret. cbn [fst snd]. intros Hr.
  apply withLock_confined_inv in Hr; [|apply release_locked_locks].
  destruct Hr as [(-> & -> & _)|(Hn & Hl & w1 & Hr & ->)].
  - split; [done|]. left. by eexists.
  - split; [done|]. right. split; [done|]. by exists w1.
Qed.

(** The critical section succeeds on a locked escrow with a proof. *)
Lemma release_locked_run i e w :
  isValidObjectId (re_escrowId i) = true → isValidObjectId (delivery e) = true →
  escrows w !! re_escrowId i = Some e → e_status e = EscrowStatus.LOCKED →
  has_tx (re_transactionHash i) e = false → has_proof (delivery e) w →
  EscrowRepository.conflicts (re_escrowId i) (released i (now_ms w) e) (escrows w) = false →
  ∃ w', run (release_locked i) w = (inr (Doc (re_escrowId i) (released i (now_ms w) e)), w').
Proof.
  intros Hv Hdv He Hl Htx (d & Hd & Hp) Hc.
  unfold release_locked, find_escrow. rewrite Hv.
  rewrite run_bind, EscrowRepository.run_escrow_findById, He. cbn [fst snd fmap option_fmap option_map].
  rewrite run_bind, run_or_throw. cbn [fst snd body]. rewrite Htx, Hl.
  rewrite run_bind, run_throw_if, bool_decide_false by done. cbn [fst snd].
  rewrite run_bind, run_throw_if, bool_decide_true by done. cbn [fst snd negb].
  rewrite run_bind, assertProof_run, Hdv, Hd. cbn [negb].
  change (Some d ≫= proofOfDelivery) with (proofOfDelivery d). rewrite bool_decide_true by done. cbn [fst snd].
  do 2 (rewrite run_bind, run_now; cbn [fst snd]). rewrite run_bind.
  unfold EscrowRepository.save. rewrite run_atomic_try. cbn [_id body]. rewrite He.
  unfold EscrowRepository.store.
  change (EscrowRepository.conflicts (re_escrowId i) (release_update i (now_ms w) (now_ms w) e) (escrows w))
    with (EscrowRepository.conflicts (re_escrowId i) (released i (now_ms w) e) (escrows w)).
  rewrite Hc. cbn [fst snd]. rewrite run_bind. cbn [body].
  match goal with |- context [run (complete_delivery ?d) ?w1] =>
    destruct (complete_delivery_run d w1) as (w2 & -> & _) end.
  cbn [fst snd]. rewrite run_ret. by eexists.
Qed.

Lemma release_key_eq i i2 : re_escrowId i = re_escrowId i2 → release_key i = release_key i2.
Proof. unfold release_key. by intros ->. Qed.

(** Three outcomes, by the state of the escrow, when the lock is free. *)
Lemma releaseEscrow_fresh i e w :
  isValidObjectId (re_escrowId i) = true → isValidObjectId (delivery e) = true →
  escrows w !! re_escrowId i = Some e → e_status e = EscrowStatus.LOCKED →
  has_tx (re_transactionHash i) e = false → has_proof (delivery e) w →
  EscrowRepository.conflicts (re_escrowId i) (released i (now_ms w) e) (escrows w) = false →
  redisLocks w !! release_key i = None →
  ∃ w1, run (releaseEscrow i) w = (inr (Doc (re_escrowId i) (released i (now_ms w) e)), w1) ∧
    escrows w1 !! re_escrowId i = Some (released i (now_ms w) e) ∧
    redisLocks w1 !! release_key i = None.
Proof.
  intros Hv Hdv He Hs Htx Hp Hc Hk. set (e1 := released i (now_ms w) e) in *.
  destruct (release_locked_run i e (lock_taken (release_key i) w)) as (wa & Ha); try done.
  exists (unlock (release_key i) (nextId w) wa).
  assert (run (releaseEscrow i) w =
    (inr (Doc (re_escrowId i) e1), unlock (release_key i) (nextId w) wa)) as Hr.
  { rewrite (releaseEscrow_valid i) by done. rewrite run_withLock, Hk. cbv zeta.
    by rewrite Ha. }
  split; [done|]. destruct (releaseEscrow_inv _ _ _ _ Hr) as [-> _]. split; [|done].
  destruct (unlock_fields (release_key i) (nextId w) wa) as (_ & _ & -> & _).
  apply release_locked_inv in Ha
    as [(er & [=] & _)|[(e2 & [= <-] & -> & He2 & Ht2)|(eid & e2 & He2 & _ & Hid & _ & _ & _ & _ & -> & _)]].
  - exfalso. assert (Some e = Some e1) as [= Heq] by (rewrite <-He; exact He2).
    change (has_tx (re_transactionHash i) e1 = true) in Ht2. rewrite <-Heq in Ht2. congruence.
  - rewrite Hv in Hid. subst eid. assert (Some e2 = Some e) as [= ->] by (rewrite <-He2; exact He).
    apply lookup_insert_eq.
Qed.

Lemma releaseEscrow_replay i e w :
  isValidObjectId (re_escrowId i) = true → escrows w !! re_escrowId i = Some e →
  has_tx (re_transactionHash i) e = true → redisLocks w !! release_key i = None →
  ∃ w2, run (releaseEscrow i) w = (inr (Doc (re_escrowId i) e), w2) ∧
    escrows w2 = escrows w ∧ deliveries w2 = deliveries w.
Proof.
  intros Hv He Htx Hk. rewrite (releaseEscrow_valid i) by done. rewrite run_withLock, Hk.
  cbv zeta. unfold release_locked, find_escrow. rewrite Hv, run_bind.
  rewrite EscrowRepository.run_escrow_findById.
  change (escrows (lock_taken (release_key i) w)) with (escrows w). rewrite He.
  cbn [fst snd fmap option_fmap option_map]. rewrite run_bind, run_or_throw.
  cbn [fst snd body]. rewrite Htx, run_ret. eexists. split; [done|]. cbn [snd].
  by destruct (unlock_fields (release_key i) (nextId w) (lock_taken (release_key i) w))
    as (_ & -> & -> & _).
Qed.

Lemma releaseEscrow_refused i e w :
  isValidObjectId (re_escrowId i) = true → escrows w !! re_escrowId i = Some e →
  has_tx (re_transactionHash i) e = false → e_status e = EscrowStatus.RELEASED →
  redisLocks w !! release_key i = None →
  ∃ w2, run (releaseEscrow i) w =
      (inl (AppError "Escrow has already been released" Http.CONFLICT), w2) ∧
    escrows w2 = escrows w ∧ deliveries w2 = deliveries w.
Proof.
  intros Hv He Htx Hs Hk. rewrite (releaseEscrow_valid i) by done. rewrite run_withLock, Hk.
  cbv zeta. unfold release_locked, find_escrow. rewrite Hv, run_bind.
  rewrite EscrowRepository.run_escrow_findById.
  change (escrows (lock_taken (release_key i) w)) with (escrows w). rewrite He.
  cbn [fst snd fmap option_fmap option_map]. rewrite run_bind, run_or_throw.
  cbn [fst snd body]. rewrite Htx, run_bind, run_throw_if, bool_decide_true by done.
  cbn [fst snd]. eexists. split; [done|].
  by destruct (unlock_fields (release_key i) (nextId w) (lock_taken (release_key i) w))
    as (_ & -> & -> & _).
Qed.

(** C3: [releaseEscrow] frees its lock whatever happens.  When it fails no
    document has changed.  When it succeeds, either the transaction was
    already recorded and nothing changes, or the escrow was [LOCKED] with a
    proof of delivery on record: it becomes [RELEASED], exactly one release
    transaction is appended to its trail, its delivery is [COMPLETED], no
    other document changes and the unique indexes still hold. *)
Theorem releaseEscrow_correct i w r w' :
  run (releaseEscrow i) w = (r, w') →
  redisLocks w' = redisLocks w ∧
  match r with
  | inl _ => deliveries w' = deliveries w ∧ escrows w' = escrows w ∧ auditLogs w' = auditLogs w
  | inr e' =>
      (has_tx (re_transactionHash i) (body e') = true ∧
       escrows w !! _id e' = Some (body e') ∧
       deliveries w' = deliveries w ∧ escrows w' = escrows w) ∨
      (∃ e, escrows w !! _id e' = Some e ∧ e_status e = EscrowStatus.LOCKED ∧
         has_proof (delivery e) w ∧
         body e' = e <| e_status := EscrowStatus.RELEASED |>
                     <| releasedAt := Some (now_ms w) |>
                     <| transactions := transactions e ++
                          [mkEscrowTransaction (re_transactionHash i) release (re_ledger i) (now_ms w)] |>
                     <| e_updatedAt := now_ms w |> ∧
         escrows w' = <[_id e' := body e']> (escrows w) ∧
         deliveries w' = delivery_after (delivery e) DeliveryStatus.COMPLETED w ∧
         (EscrowRepository.indexed (escrows w) → EscrowRepository.indexed (escrows w')))
  end.
Proof.
  intros Hr. destruct (releaseEscrow_inv _ _ _ _ Hr) as [Hl Hcase]. split; [done|].
  destruct Hcase as [(er & -> & ->)|(_ & w1 & Hb & ->)]; [done|].
  destruct (unlock_fields (release_key i) (nextId w) w1) as (_ & -> & -> & _ & ->).
  apply release_locked_inv in Hb
    as [(er & -> & ->)|[(e & -> & -> & He & Ht)|(eid & e & He & Hs & _ & Ht & Hp & -> & Hc & Hes & Hd & _)]].
  - done.
  - left. done.
  - right. exists e. cbn [_id body]. rewrite Hes. repeat split; try done.
    intros Hx. by apply EscrowRepository.indexed_insert.
Qed.

(** C4: a locked escrow whose delivery has a proof, and whose release
    transaction is new, can be released when the lock is free; and from then
    on a release with any other transaction is refused with 409 and a replay
    of the same one returns the same escrow, neither changing a document. *)
Theorem releaseEscrow_once i i2 e w :
  isValidObjectId (re_escrowId i) = true → isValidObjectId (delivery e) = true →
  escrows w !! re_escrowId i = Some e → e_status e = EscrowStatus.LOCKED →
  has_proof (delivery e) w →
  has_tx (re_transactionHash i) e = false →
  EscrowRepository.conflicts (re_escrowId i) (released i (now_ms w) e) (escrows w) = false →
  redisLocks w !! release_key i = None →
  re_escrowId i2 = re_escrowId i →
  has_tx (re_transactionHash i2) (released i (now_ms w) e) = false →
  ∃ e' w1, run (releaseEscrow i) w = (inr e', w1) ∧
    e_status (body e') = EscrowStatus.RELEASED ∧
    (∃ w2, run (releaseEscrow i) w1 = (inr e', w2) ∧
       escrows w2 = escrows w1 ∧ deliveries w2 = deliveries w1) ∧
    (∃ w2, run (releaseEscrow i2) w1 =
             (inl (AppError "Escrow has already been released" Http.CONFLICT), w2) ∧
       escrows w2 = escrows w1 ∧ deliveries w2 = deliveries w1).
Proof.
  intros Hv Hdv He Hs Hp Htx Hc Hk Hi2 Htx2.
  destruct (releaseEscrow_fresh i e w) as (w1 & Hr & He1 & Hk1); try done.
  exists (Doc (re_escrowId i) (released i (now_ms w) e)), w1.
  split; [done|]. split; [done|]. split.
  - apply releaseEscrow_replay; try done. unfold has_tx. apply some_true.
    exists (mkEscrowTransaction (re_transactionHash i) release (re_ledger i) (now_ms w)).
    split; [|by apply String.eqb_refl]. apply elem_of_app. right.
    by apply list_elem_of_singleton.
  - eapply releaseEscrow_refused; rewrite ?Hi2; try done.
    by rewrite (release_key_eq i2 i).
Qed.
End Release.

(** ** Administrative resolution *)
Section Resolution.
Context `{E : Env, C : DeliveryConsumers, COk : !DeliveryConsumersOk}.

Lemma unlock_now k t w : now_ms (unlock k t w) = now_ms w.
Proof. by destruct (unlock_fields k t w). Qed.

Lemma resolveEscrow_inv i w r w' :
  run (resolveEscrow i) w = (r, w') →
  redisLocks w' = redisLocks w ∧
  ((∃ er, r = inl er ∧ w' = w) ∨
   ∃ x w1 k, EscrowResolution.of_string (rs_resolution i) = Some x ∧
     run (resolve_locked i x) (lock_taken k w) = (r, w1) ∧ w' = unlock k (nextId w) w1).
Proof.
  unfold resolveEscrow. rewrite run_bind, run_throw_if.
  destruct (negb _); cbn [fst snd]; [intros [= <- <-]; split; [done|left; by eexists]|].
  rewrite run_bind, run_or_throw. cbn [fst snd].
  destruct (EscrowResolution.of_string _) as [x|] eqn:Hx;
    [|intros [= <- <-]; split; [done|left; by eexists]].
  intros Hr. apply withLock_confined_inv in Hr; [|apply resolve_locked_locks].
  destruct Hr as [(-> & -> & _)|(Hn & Hl & w1 & Hr & ->)].
  - split; [done|]. left. by eexists.
  - split; [done|]. right. by eexists x, w1, _.
Qed.

Lemma retryExpiredEscrow_inv i w r w' :
  run (retryExpiredEscrow i) w = (r, w') →
  redisLocks w' = redisLocks w ∧
  ((∃ er, r = inl er ∧ w' = w) ∨
   ∃ x w1 k, ExpiredEscrowAction.of_string (rt_action i) = Some x ∧
     run (retry_locked i x) (lock_taken k w) = (r, w1) ∧ w' = unlock k (nextId w) w1).
Proof.
  unfold retryExpiredEscrow. rewrite run_bind, run_throw_if.
  destruct (negb _); cbn [fst snd]; [intros [= <- <-]; split; [done|left; by eexists]|].
  rewrite run_bind, run_or_throw. cbn [fst snd].
  destruct (ExpiredEscrowAction.of_string _) as [x|] eqn:Hx;
    [|intros [= <- <-]; split; [done|left; by eexists]].
  intros Hr. apply withLock_confined_inv in Hr; [|apply retry_locked_locks].
  destruct Hr as [(-> & -> & _)|(Hn & Hl & w1 & Hr & ->)].
  - split; [done|]. left. by eexists.
  - split; [done|]. right. by eexists x, w1, _.
Qed.

(** An admin's [resolveEscrow] either fails and changes no document, or
    the escrow was [LOCKED], [DISPUTED] or [EXPIRED]: it becomes [RELEASED],
    [REFUNDED] or [LOCKED] with a fresh expiry, signed by the admin; its
    delivery becomes [COMPLETED] or [CANCELLED], or stays when the funds stay
    locked; one audit entry records both statuses; its funding trail and
    identity are kept, and so are the unique indexes. *)
Theorem resolveEscrow_correct i w r w' :
  run (resolveEscrow i) w = (r, w') →
  redisLocks w' = redisLocks w ∧
  match r with
  | inl _ => deliveries w' = deliveries w ∧ escrows w' = escrows w ∧ auditLogs w' = auditLogs w
  | inr e' =>
      ∃ x e l, EscrowResolution.of_string (rs_resolution i) = Some x ∧
        _id e' = rs_escrowId i ∧ escrows w !! rs_escrowId i = Some e ∧
        e_status e ∈ RESOLVABLE_STATUSES ∧
        escrows w' = <[rs_escrowId i := body e']> (escrows w) ∧
        resolvedBy (body e') = Some (rs_adminId i) ∧
        resolvedAt (body e') = Some (now_ms w) ∧
        transactions (body e') = transactions e ∧ amount (body e') = amount e ∧
        match x with
        | EscrowResolution.RELEASE_TO_DRIVER =>
            e_status (body e') = EscrowStatus.RELEASED ∧
            releasedAt (body e') = Some (now_ms w) ∧
            deliveries w' = delivery_after (delivery e) DeliveryStatus.COMPLETED w
        | EscrowResolution.REFUND_TO_PAYER =>
            e_status (body e') = EscrowStatus.REFUNDED ∧
            refundedAt (body e') = Some (now_ms w) ∧
            deliveries w' = delivery_after (delivery e) DeliveryStatus.CANCELLED w
        | EscrowResolution.KEEP_LOCKED =>
            e_status (body e') = EscrowStatus.LOCKED ∧
            expiresAt (body e') = Some (computeExpiresAt (now_ms w)) ∧
            deliveries w' = deliveries w
        end ∧
        auditLogs w' = auditLogs w ++ [l] ∧ a_targetId l = rs_escrowId i ∧
        In ("previousStatus", JStr (EscrowStatus.to_string (e_status e))) (a_meta l) ∧
        In ("newStatus", JStr (EscrowStatus.to_string (e_status (body e')))) (a_meta l) ∧
        (EscrowRepository.indexed (escrows w) → EscrowRepository.indexed (escrows w'))
  end.
Proof.
  intros Hr. destruct (resolveEscrow_inv _ _ _ _ Hr) as [Hl Hcase]. split; [done|].
  destruct Hcase as [(er & -> & ->)|(x & w1 & k & Hx & Hb & ->)]; [done|].
  destruct (unlock_fields k (nextId w) w1) as (_ & -> & -> & _ & ->).
  apply resolve_locked_inv in Hb as [(er & -> & ->)|(e & He & Hs & -> & Hc & -> & -> & ->)];
    [done|].
  eexists x, e, _. do 4 (split; [done|]). cbn [body].
  change (now_ms (lock_taken k w)) with (now_ms w) in *.
  change (escrows (lock_taken k w)) with (escrows w) in *.
  do 5 (split; [by try destruct x|]). split; [by destruct x|]. split; [done|].
  split; [done|]. split; [by right; left|]. split; [by right; right; left|].
  intros Hi. by apply EscrowRepository.indexed_insert.
Qed.

(** C12: [retryExpiredEscrow] works on [EXPIRED] escrows only: [refund] locks
    the funds again from now with a fresh expiry, clears the flag and puts
    the delivery back to [FUNDED]; [cancel] closes the escrow for good
    ([RESOLVED]) and cancels the delivery.  A failure changes no document. *)
Theorem retryExpiredEscrow_correct i w r w' :
  run (retryExpiredEscrow i) w = (r, w') →
  redisLocks w' = redisLocks w ∧
  match r with
  | inl _ => deliveries w' = deliveries w ∧ escrows w' = escrows w ∧ auditLogs w' = auditLogs w
  | inr e' =>
      ∃ x e, ExpiredEscrowAction.of_string (rt_action i) = Some x ∧
        _id e' = rt_escrowId i ∧ escrows w !! rt_escrowId i = Some e ∧
        e_status e = EscrowStatus.EXPIRED ∧
        escrows w' = <[rt_escrowId i := body e']> (escrows w) ∧
        resolvedBy (body e') = Some (rt_adminId i) ∧
        transactions (body e') = transactions e ∧
        match x with
        | ExpiredEscrowAction.REFUND =>
            e_status (body e') = EscrowStatus.LOCKED ∧
            lockedAt (body e') = Some (now_ms w) ∧
            expiresAt (body e') = Some (computeExpiresAt (now_ms w)) ∧
            expiredAt (body e') = None ∧ flaggedAt (body e') = None ∧
            deliveries w' = delivery_after (delivery e) DeliveryStatus.FUNDED w
        | ExpiredEscrowAction.CANCEL =>
            e_status (body e') = EscrowStatus.RESOLVED ∧
            expiresAt (body e') = expiresAt e ∧
            deliveries w' = delivery_after (delivery e) DeliveryStatus.CANCELLED w
        end ∧
        length (auditLogs w') = S (length (auditLogs w)) ∧
        (EscrowRepository.indexed (escrows w) → EscrowRepository.indexed (escrows w'))
  end.
Proof.
  intros Hr. destruct (retryExpiredEscrow_inv _ _ _ _ Hr) as [Hl Hcase]. split; [done|].
  destruct Hcase as [(er & -> & ->)|(x & w1 & k & Hx & Hb & ->)]; [done|].
  destruct (unlock_fields k (nextId w) w1) as (_ & -> & -> & _ & ->).
  apply retry_locked_inv in Hb as [(er & -> & ->)|(e & He & Hs & -> & Hc & -> & -> & Ha)];
    [done|].
  exists x, e. do 4 (split; [done|]). cbn [body].
  change (now_ms (lock_taken k w)) with (now_ms w) in *.
  change (escrows (lock_taken k w)) with (escrows w) in *.
  do 3 (split; [by try destruct x|]). split; [by destruct x|]. split; [done|].
  intros Hi. by apply EscrowRepository.indexed_insert.
Qed.
End Resolution.

(** ** Funding *)
Section Funding.
Context `{E : Env, C : DeliveryConsumers, COk : !DeliveryConsumersOk}.

Definition fund_tx (i : EscrowFundedInput) (t : Z) : EscrowTransaction :=
  mkEscrowTransaction (ef_transactionHash i) fund (ef_ledger i) t.

(** The escrow after a funding event. *)
Definition funded_body (i : EscrowFundedInput) (did : string) (a : Asset) (t : Z)
    (o : option (hydrated Escrow)) : Escrow :=
  match o with
  | Some e => fund_update i a (nullish (lockedAt (body e)) t) (fund_tx i t) (body e)
  | None => new_escrow i did a t (fund_tx i t)
  end <| e_updatedAt := t |>.

Lemma lock_escrow_inv i did a o w r w' :
  run (lock_escrow i did a o) w = (r, w') →
  (∀ e, o = Some e → escrows w !! _id e = Some (body e)) →
  (deliveries w' = deliveries w ∧ now_ms w' = now_ms w ∧ redisLocks w' = redisLocks w ∧
   auditLogs w' = auditLogs w) ∧
  ((∃ er, r = inl er ∧ escrows w' = escrows w) ∨
   (∃ eid, let e' := funded_body i did a (now_ms w) o in
      r = inr (Doc eid e') ∧
      escrows w !! eid = body <$> o ∧ (∀ e, o = Some e → eid = _id e) ∧
      EscrowRepository.conflicts eid e' (escrows w) = false ∧
      escrows w' = <[eid := e']> (escrows w))).
Proof.
  intros Hr Ho. unfold lock_escrow in Hr. rewrite run_bind, run_now in Hr. cbn [fst snd] in Hr.
  destruct o as [e|].
  - specialize (Ho e eq_refl). rewrite run_bind, run_now in Hr. cbn [fst snd] in Hr.
    rewrite run_bind in Hr.
    destruct (run (EscrowRepository.updateById _ _) w) as [r1 w1] eqn:Hu. cbn [fst snd] in Hr.
    apply EscrowRepository.run_updateById_inv in Hu
      as [(er & -> & ->)|[(-> & ->)|(e0 & He0 & Hc & -> & ->)]].
    + simplify_eq. split; [done|]. left. by eexists.
    + cbn in Hr. simplify_eq. split; [done|]. left. by eexists.
    + assert (e0 = body e) as -> by congruence. cbn in Hr.
      injection Hr as <- <-. split; [done|]. right. exists (_id e).
      split; [done|]. split; [done|]. split; [by intros ? [= ->]|].
      split; [|reflexivity]. unfold funded_body.
      by rewrite EscrowRepository.conflicts_updatedAt.
  - rewrite run_bind, run_now in Hr. cbn [fst snd] in Hr.
    apply EscrowRepository.run_escrow_create_inv in Hr
      as [(er & -> & ->)|(eid & Hn & Hc & -> & ->)].
    + split; [done|]. left. by eexists.
    + split; [done|]. right. exists eid. split; [reflexivity|]. split; [done|].
      split; [done|]. split; [|reflexivity]. unfold funded_body.
      by rewrite EscrowRepository.conflicts_updatedAt.
Qed.

(** What a funding event has passed when it is not refused outright. *)
Record funding_gates (i : EscrowFundedInput) (w : World) (d : Delivery) (a : Asset) : Prop := {
  fg_id : isValidObjectId (ef_deliveryId i) = true;
  fg_delivery : deliveries w !! ef_deliveryId i = Some d;
  fg_open : status d ≠ DeliveryStatus.CANCELLED;
  fg_window : window_lapsed (now_ms w) d = false;
  fg_asset : validateAsset (mkAsset (ef_asset i) (ef_assetIssuer i)) = inr a;
  fg_same_asset : assertSameAsset (nullish (escrowAsset d) XLM) a = inr tt;
  fg_positive : Num.positive (ef_amount i) = true;
  fg_amount x : escrowAmount d = Some x → Num.eqb x (ef_amount i) = true
}.

Definition contract_escrow (i : EscrowFundedInput) (w : World) : option (hydrated Escrow) :=
  find_one (λ e, bool_decide (e_contractId e = Some (ef_contractId i))) (escrows w).
Definition delivery_escrow (i : EscrowFundedInput) (w : World) : option (hydrated Escrow) :=
  find_one (λ e, String.eqb (delivery e) (ef_deliveryId i)) (escrows w).

(** A lapsed window: the delivery is cancelled, then the event is refused. *)
Definition lapsed_outcome (did : string) (w w' : World) : Prop :=
  ∃ d, deliveries w !! did = Some d ∧ window_lapsed (now_ms w) d = true ∧
    deliveries w' = <[did := lapse_update FUNDING_WINDOW_LAPSED_REASON d
                               <| d_updatedAt := now_ms w |>]> (deliveries w).

Lemma cancelLapsed_run did d reason w :
  deliveries w !! did = Some d → window_lapsed (now_ms w) d = true →
  ∃ w', run (cancelLapsedFundingWindow (Doc did d) reason) w =
      (inr (Doc did (lapse_update reason d <| d_updatedAt := now_ms w |>)), w') ∧
    deliveries w' = <[did := lapse_update reason d <| d_updatedAt := now_ms w |>]> (deliveries w) ∧
    keeps_escrows w w' ∧ length (auditLogs w') = S (length (auditLogs w)).
Proof.
  intros Hd Hl.
  pose proof (confined_run keeps_escrows _ w (cancelLapsed_confined (Doc did d) reason)) as Hc.
  unfold cancelLapsedFundingWindow, isFundingWindowLapsed in *. revert Hc.
  rewrite !run_bind, run_now. cbn [fst snd]. rewrite run_ret. cbn [fst snd body].
  rewrite Hl. unfold window_lapsed in Hl. apply andb_true_iff in Hl as [Hs Hf].
  destruct (fundBy d) as [f|] eqn:Hfb; [|done]. rewrite run_bind.
  unfold DeliveryRepository.updateOneById. rewrite run_atomic.
  unfold DeliveryRepository.find_and_update, DeliveryRepository.by_id_if, find_by_id. cbn [_id].
  rewrite Hd. cbn [fmap option_fmap option_map mbind option_bind body].
  rewrite bool_decide_true by done. cbn [fst snd _id body]. rewrite run_bind.
  unfold recordFundingWindowAudit, createAuditLog. rewrite run_try_catch, run_writes.
  cbn [fst snd]. rewrite run_bind.
  match goal with |- context [run (emitMilestone ?d ?ev ?a) ?w1] =>
    destruct (emitMilestone_run d ev a w1) as (rec & w2 & -> & Hlo) end.
  cbn [fst snd]. rewrite run_ret. cbn [fst snd]. intros Hc. exists w2. split; [done|].
  rewrite (lo_deliveries _ _ Hlo), (lo_audit _ _ Hlo). split; [done|]. split; [done|].
  rec_simpl. rewrite length_app. cbn. lia.
Qed.

Lemma fund_escrow_inv i did d a o w r w' :
  isValidObjectId did = true → deliveries w !! did = Some d →
  (∀ e, o = Some e → escrows w !! _id e = Some (body e)) →
  run (fund_escrow i (Doc did d) a o) w = (r, w') →
  (∃ er, r = inl er ∧ escrows w' = escrows w ∧ deliveries w' = deliveries w) ∨
  (∃ eid, let e' := funded_body i did a (now_ms w) o in
     (∀ e, o = Some e → eid = _id e) ∧ escrows w !! eid = body <$> o ∧
     r = inr (Doc eid e') ∧ EscrowRepository.conflicts eid e' (escrows w) = false ∧
     escrows w' = <[eid := e']> (escrows w) ∧
     deliveries w' = delivery_after did DeliveryStatus.FUNDED w).
Proof.
  intros Hv Hd Ho Hff. unfold fund_escrow in Hff. rewrite run_bind in Hff. cbn [_id] in Hff.
  destruct (run (lock_escrow _ _ _ _) w) as [r1 w1] eqn:Hrun.
  apply lock_escrow_inv in Hrun as [(Hd1 & Hn1 & _ & _) Hcase]; [|done]. cbn [fst snd] in Hff.
  destruct Hcase as [(er & -> & Hes)|(eid & -> & Hid & Hide & Hc & Hes)].
  { simplify_eq. left. by eexists. }
  rewrite run_bind in Hff.
  destruct (mark_funded_run i did d w1) as (w2 & Hm & Hk & Hdm & _); [done|by rewrite Hd1|].
  rewrite Hm in Hff. cbn [fst snd] in Hff. rewrite run_ret in Hff. simplify_eq. right.
  exists eid. repeat split; try done; [by rewrite (ke_escrows _ _ Hk)|].
  rewrite Hdm. unfold delivery_after. by rewrite Hd1, Hn1.
Qed.

Lemma recordEscrowFunded_inv i w r w' :
  run (recordEscrowFunded i) w = (r, w') →
  (∃ er, r = inl er ∧ escrows w' = escrows w ∧
     (deliveries w' = deliveries w ∨ lapsed_outcome (ef_deliveryId i) w w')) ∨
  (∃ d a, funding_gates i w d a ∧
     funding_conflict i (ef_deliveryId i) a (contract_escrow i w) (delivery_escrow i w) = None ∧
     ((∃ e, contract_escrow i w = Some e ∧ has_tx (ef_transactionHash i) (body e) = true ∧
         r = inr e ∧ w' = w) ∨
      (∃ eid, let e' := funded_body i (ef_deliveryId i) a (now_ms w) (contract_escrow i w) in
         (∀ e, contract_escrow i w = Some e →
            eid = _id e ∧ fundable (e_status (body e)) = true ∧
            has_tx (ef_transactionHash i) (body e) = false) ∧
         escrows w !! eid = body <$> contract_escrow i w ∧
         r = inr (Doc eid e') ∧ EscrowRepository.conflicts eid e' (escrows w) = false ∧
         escrows w' = <[eid := e']> (escrows w) ∧
         deliveries w' = delivery_after (ef_deliveryId i) DeliveryStatus.FUNDED w))).
Proof.
  intros H. unfold recordEscrowFunded in H.
  assert (∀ er : error, (inl er, w) = (r, w') →
    ∃ er, r = inl er ∧ escrows w' = escrows w ∧
     (deliveries w' = deliveries w ∨ lapsed_outcome (ef_deliveryId i) w w')) as Hfail.
  { intros er [= <- <-]. eexists. split; [done|]. split; [done|by left]. }
  rewrite run_bind, run_throw_if in H. cbn [fst snd] in H.
  destruct (isValidObjectId (ef_deliveryId i)) eqn:Hv; cbn [negb] in H; [|left; by eapply Hfail].
  unfold DeliveryRepository.findById in H. rewrite Hv in H.
  rewrite run_bind, DeliveryRepository.run_model_findById in H. cbn [fst snd] in H.
  destruct (deliveries w !! ef_deliveryId i) as [d|] eqn:Hd; cbn [fmap option_fmap option_map] in H.
  2: { rewrite run_bind, run_or_throw in H. cbn [fst snd] in H. left. by eapply Hfail. }
  rewrite run_bind, run_or_throw in H. cbn [fst snd body _id] in H.
  rewrite run_bind, run_throw_if in H. cbn [fst snd] in H.
  case_bool_decide as Hcan; [left; by eapply Hfail|].
  unfold isFundingWindowLapsed at 1 in H. rewrite run_bind, run_bind, run_now in H.
  cbn [fst snd] in H. rewrite run_ret in H. cbn [fst snd body] in H.
  destruct (window_lapsed (now_ms w) d) eqn:Hl.
  { left. destruct (cancelLapsed_run (ef_deliveryId i) d FUNDING_WINDOW_LAPSED_REASON w Hd Hl)
      as (w1 & Hrun & Hdw & Hk & _).
    rewrite !run_bind, Hrun in H. cbn [fst snd] in H. simplify_eq/=.
    eexists. split; [done|]. split; [apply Hk|]. right. by exists d. }
  rewrite run_bind, run_ret in H. cbn [fst snd] in H.
  rewrite run_bind, run_done in H. cbn [fst snd] in H.
  destruct (validateAsset _) as [er|a] eqn:Ha; [left; by eapply Hfail|].
  rewrite run_bind, run_done in H. cbn [fst snd] in H.
  destruct (assertSameAsset _ _) as [er|[]] eqn:Has; [left; by eapply Hfail|].
  rewrite run_bind, run_throw_if in H. cbn [fst snd] in H.
  destruct (Num.positive (ef_amount i)) eqn:Hpos; cbn [negb] in H; [|left; by eapply Hfail].
  rewrite run_bind, run_throw_if in H. cbn [fst snd] in H.
  destruct (match escrowAmount d with Some x => _ | None => _ end) eqn:Ham; [left; by eapply Hfail|].
  assert (funding_gates i w d a) as Hg.
  { split; try done. intros x Hx. rewrite Hx in Ham. by apply negb_false_iff in Ham. }
  unfold EscrowRepository.findByContractId, EscrowRepository.findByDeliveryId,
    EscrowRepository.findOne in H. rewrite Hv in H.
  rewrite run_bind, run_reads in H. cbn [fst snd] in H.
  rewrite run_bind, run_reads in H. cbn [fst snd] in H. rewrite run_bind in H.
  fold (contract_escrow i w) (delivery_escrow i w) in H.
  destruct (funding_conflict _ _ _ _ _) as [er|] eqn:Hfc; [rewrite run_throw in H; cbn [fst snd] in H; left; by eapply Hfail|].
  rewrite run_ret in H. cbn [fst snd] in H.
  assert (∀ e, contract_escrow i w = Some e → escrows w !! _id e = Some (body e)) as Hce.
  { intros e He. by apply find_one_Some in He as [? _]. }
  destruct (contract_escrow i w) as [e|] eqn:Hco.
  - destruct (has_tx _ (body e)) eqn:Htx.
    { rewrite run_ret in H. simplify_eq. right. exists d, a. split; [done|]. split; [done|].
      left. by exists e. }
    rewrite run_bind, run_throw_if in H. cbn [fst snd] in H.
    destruct (fundable _) eqn:Hfu; cbn [negb] in H; [|left; by eapply Hfail].
    apply fund_escrow_inv in H as [(er & -> & Hes & Hds)|(eid & Hide & Hrest)]; try done.
    { left. eexists. split; [done|]. split; [done|by left]. }
    right. exists d, a. split; [done|]. split; [done|]. right. exists eid.
    split; [|done]. intros e0 [= <-]. by rewrite Hfu, Htx, (Hide e).
  - apply fund_escrow_inv in H as [(er & -> & Hes & Hds)|(eid & Hide & Hrest)]; try done.
    { left. eexists. split; [done|]. split; [done|by left]. }
    right. exists d, a. split; [done|]. split; [done|]. right. exists eid.
    split; [|done]. by intros e0 [=].
Qed.

(** C5: a funding event that is accepted either replays a transaction already
    on the escrow, and then changes nothing, or locks the escrow: the event's
    positive amount equals the delivery's escrow amount, its asset is the
    delivery's, the contract and the delivery are linked to no other escrow
    record, the expiry is the lock time plus the configured TTL, exactly one
    fund transaction is appended, the delivery becomes [FUNDED], no other
    document changes and the unique indexes still hold. *)
Theorem recordEscrowFunded_correct i w e' w' :
  run (recordEscrowFunded i) w = (inr e', w') →
  ∃ d a, funding_gates i w d a ∧ e_contractId (body e') = Some (ef_contractId i) ∧
    delivery (body e') = ef_deliveryId i ∧
    ((has_tx (ef_transactionHash i) (body e') = true ∧
      escrows w !! _id e' = Some (body e') ∧ w' = w) ∨
     (let old := escrows w !! _id e' in
      let locked := nullish (old ≫= lockedAt) (now_ms w) in
      e_status (body e') = EscrowStatus.LOCKED ∧ amount (body e') = ef_amount i ∧
      assetCode (body e') = code a ∧ lockedAt (body e') = Some locked ∧
      expiresAt (body e') = Some (locked + ESCROW_LOCK_TTL_SECONDS * 1000)%Z ∧
      transactions (body e') = nullish (transactions <$> old) [] ++
        [mkEscrowTransaction (ef_transactionHash i) fund (ef_ledger i) (now_ms w)] ∧
      (∀ e, old = Some e → e_status e = EscrowStatus.LOCKED ∨ e_status e = EscrowStatus.PENDING) ∧
      escrows w' = <[_id e' := body e']> (escrows w) ∧
      deliveries w' = delivery_after (ef_deliveryId i) DeliveryStatus.FUNDED w ∧
      (EscrowRepository.indexed (escrows w) → EscrowRepository.indexed (escrows w')))).
Proof.
  intros [(er & [=] & _)|(d & a & Hg & Hfc & Hcase)]%recordEscrowFunded_inv.
  exists d, a. split; [done|].
  assert (∀ e, contract_escrow i w = Some e →
    e_contractId (body e) = Some (ef_contractId i) ∧ delivery (body e) = ef_deliveryId i) as Hce.
  { intros e He. pose proof He as Hc. apply find_one_Some in Hc as [_ Hc%bool_decide_eq_true].
    split; [done|]. rewrite He in Hfc. unfold funding_conflict in Hfc.
    destruct (match delivery_escrow i w with Some _ => _ | None => _ end); [done|].
    destruct (String.eqb_spec (delivery (body e)) (ef_deliveryId i)); [done|]. done. }
  destruct Hcase as [(e & He & Htx & [= ->] & ->)|(eid & Hold & Hid & [= ->] & Hc & Hes & Hds)].
  - destruct (Hce _ He) as [? ?]. split; [done|]. split; [done|]. left. split; [done|].
    by apply find_one_Some in He as [? _].
  - cbn [_id body]. rewrite Hid.
    assert (EscrowRepository.indexed (escrows w) → EscrowRepository.indexed (escrows w')) as Hix.
    { intros Hx. rewrite Hes. by apply EscrowRepository.indexed_insert. }
    destruct (contract_escrow i w) as [e|] eqn:Hco; cbn [fmap option_fmap option_map].
    + destruct (Hce _ eq_refl) as [Hec Hed]. destruct (Hold _ eq_refl) as (-> & Hf & _).
      do 2 (split; [done|]). right. cbv zeta. do 6 (split; [done|]). split; [|done].
      intros e0 [= <-]. unfold fundable in Hf. apply orb_true_iff in Hf.
      rewrite !bool_decide_eq_true in Hf. done.
    + do 2 (split; [done|]). right. cbv zeta. do 6 (split; [done|]). split; [by intros e0 [=]|].
      done.
Qed.

Lemma find_one_unique (P : Escrow → bool) k e m :
  m !! k = Some e → P e = true →
  (∀ k' e', m !! k' = Some e' → P e' = true → k' = k) → find_one P m = Some (Doc k e).
Proof.
  intros Hk HP Hu. destruct (find_one_is_Some P m k e Hk HP) as [[k' e'] Hf].
  pose proof Hf as Hf'. apply find_one_Some in Hf' as [Hm HP']. cbn [_id body] in *.
  assert (k' = k) as -> by eauto. by simplify_eq.
Qed.

Lemma delivery_after_lookup did s d w :
  deliveries w !! did = Some d →
  ∃ d', delivery_after did s w !! did = Some d' ∧ status d' = s ∧
    escrowAsset d' = escrowAsset d ∧ escrowAmount d' = escrowAmount d ∧ fundBy d' = fundBy d.
Proof.
  intros Hd. unfold delivery_after. rewrite lookup_alter_eq, Hd. cbn.
  case_bool_decide; by eexists.
Qed.

Lemma recordEscrowFunded_replay i w d a e :
  funding_gates i w d a → contract_escrow i w = Some e →
  funding_conflict i (ef_deliveryId i) a (Some e) (delivery_escrow i w) = None →
  has_tx (ef_transactionHash i) (body e) = true →
  run (recordEscrowFunded i) w = (inr e, w).
Proof.
  intros [Hv Hd Ho Hw Ha Hsa Hp Ham] He Hfc Htx. unfold recordEscrowFunded.
  unfold DeliveryRepository.findById, EscrowRepository.findByContractId,
    EscrowRepository.findByDeliveryId, EscrowRepository.findOne. rewrite Hv. cbn [negb].
  rewrite run_bind, run_throw_if. cbn [fst snd].
  rewrite run_bind, DeliveryRepository.run_model_findById, Hd.
  cbn [fst snd fmap option_fmap option_map]. rewrite run_bind, run_or_throw. cbn [fst snd body _id].
  rewrite run_bind, run_throw_if, bool_decide_false by done. cbn [fst snd].
  unfold isFundingWindowLapsed. rewrite !run_bind, run_now. cbn [fst snd].
  rewrite run_ret. cbn [fst snd body]. rewrite Hw.
  rewrite run_bind, run_ret. cbn [fst snd]. rewrite run_bind, run_done, Ha. cbn [fst snd].
  rewrite run_bind, run_done, Hsa. cbn [fst snd].
  rewrite run_bind, run_throw_if, Hp. cbn [fst snd negb].
  rewrite run_bind, run_throw_if.
  assert (match escrowAmount d with Some x => negb (Num.eqb x (ef_amount i)) | None => false end
    = false) as ->.
  { destruct (escrowAmount d) as [x|] eqn:Hx; [|done]. by rewrite (Ham x). }
  cbn [fst snd]. rewrite run_bind, run_reads. cbn [fst snd]. rewrite Hv.
  rewrite run_bind, run_reads. cbn [fst snd]. rewrite run_bind.
  fold (contract_escrow i w) (delivery_escrow i w). rewrite He, Hfc, run_ret. cbn [fst snd].
  by rewrite Htx.
Qed.

Lemma has_tx_last h ty l t l0 e :
  transactions e = l0 ++ [mkEscrowTransaction h ty l t] → has_tx h e = true.
Proof.
  intros Ht. unfold has_tx. apply some_true. exists (mkEscrowTransaction h ty l t).
  rewrite Ht. split; [|by apply String.eqb_refl]. apply elem_of_app. right.
  by apply list_elem_of_singleton.
Qed.

(** The escrow that a funding event has just written passes the checks of
    the same event. *)
Lemma funded_no_conflict i a t o eid m :
  (∀ e, o = Some e → e_contractId (body e) = Some (ef_contractId i) ∧
     delivery (body e) = ef_deliveryId i ∧ assetCode (body e) ≠ "" ∧
     asset_changed (body e) a = false) →
  let e' := funded_body i (ef_deliveryId i) a t o in
  EscrowRepository.indexed m → m !! eid = Some e' →
  find_one (λ e, bool_decide (e_contractId e = Some (ef_contractId i))) m = Some (Doc eid e') ∧
  find_one (λ e, String.eqb (delivery e) (ef_deliveryId i)) m = Some (Doc eid e') ∧
  funding_conflict i (ef_deliveryId i) a (Some (Doc eid e')) (Some (Doc eid e')) = None.
Proof.
  intros Ho e' Hix He.
  assert (e_contractId e' = Some (ef_contractId i) ∧ delivery e' = ef_deliveryId i ∧
    asset_changed e' a = false) as (Hc & Hd & Ha).
  { unfold e'. destruct o as [e|].
    - destruct (Ho e eq_refl) as (Hec & Hed & Hne & Hach).
      split; [exact Hec|]. split; [exact Hed|]. unfold asset_changed in *.
      apply andb_false_iff in Hach as [Hach|Hach].
      { apply Str.truthy_spec in Hne. congruence. }
      apply orb_false_iff in Hach as [_ Hiss]. apply negb_false_iff, bool_decide_eq_true in Hiss.
      set (e1 := funded_body _ _ _ _ _).
      assert (assetCode e1 = code a) as -> by reflexivity.
      assert (assetIssuer e1 = set_defined (issuer a) (assetIssuer (body e))) as -> by reflexivity.
      rewrite String.eqb_refl, Hiss.
      rewrite bool_decide_true by (by destruct (issuer a)). apply andb_false_r.
    - split; [reflexivity|]. split; [reflexivity|]. unfold asset_changed.
      set (e1 := funded_body _ _ _ _ _).
      assert (assetCode e1 = code a) as -> by reflexivity.
      assert (assetIssuer e1 = issuer a) as -> by reflexivity.
      rewrite String.eqb_refl, bool_decide_true by done. apply andb_false_r. }
  split; [|split].
  - apply find_one_unique; [done|by apply bool_decide_eq_true|].
    intros k e2 Hk Hk2%bool_decide_eq_true. destruct (decide (k = eid)) as [|Hne]; [done|].
    pose proof (Hix _ _ _ _ Hk He Hne) as Hcl. apply EscrowRepository.clash_false in Hcl
      as (_ & Hcc & _). exfalso. by apply (Hcc _ Hk2).
  - apply find_one_unique; [done|by apply String.eqb_eq|].
    intros k e2 Hk Hk2%String.eqb_eq. destruct (decide (k = eid)) as [|Hne]; [done|].
    pose proof (Hix _ _ _ _ Hk He Hne) as Hcl. apply EscrowRepository.clash_false in Hcl
      as (Hcc & _). congruence.
  - unfold funding_conflict. cbn [body]. rewrite bool_decide_true by done. cbn [negb].
    rewrite Hd, String.eqb_refl. cbn [negb]. by rewrite Ha.
Qed.

(** A late funding attempt never resurrects a delivery.  On a delivery
    whose window has lapsed it is refused with 409 after cancelling the
    delivery with the lapse reason; on a cancelled delivery it is refused
    with 409 and changes nothing; no escrow is ever touched. *)
Theorem late_funding_refused i d w r w' :
  isValidObjectId (ef_deliveryId i) = true → deliveries w !! ef_deliveryId i = Some d →
  status d = DeliveryStatus.CANCELLED ∨ window_lapsed (now_ms w) d = true →
  run (recordEscrowFunded i) w = (r, w') →
  (∃ m, r = inl (AppError m Http.CONFLICT)) ∧ escrows w' = escrows w ∧
  deliveries w' = <[ef_deliveryId i :=
    if decide (status d = DeliveryStatus.CANCELLED) then d
    else lapse_update FUNDING_WINDOW_LAPSED_REASON d <| d_updatedAt := now_ms w |>]>
    (deliveries w).
Proof.
  intros Hv Hd Hlate H. unfold recordEscrowFunded, DeliveryRepository.findById in H.
  rewrite Hv in H. cbn [negb] in H. rewrite run_bind, run_throw_if in H. cbn [fst snd] in H.
  rewrite run_bind, DeliveryRepository.run_model_findById, Hd in H.
  cbn [fst snd fmap option_fmap option_map] in H.
  rewrite run_bind, run_or_throw in H. cbn [fst snd body _id] in H.
  rewrite run_bind, run_throw_if in H. cbn [fst snd] in H.
  case_bool_decide as Hcan.
  { simplify_eq. rewrite decide_True by done. rewrite insert_id by done. split; [by eexists|done]. }
  destruct Hlate as [|Hl]; [done|].
  destruct (cancelLapsed_run (ef_deliveryId i) d FUNDING_WINDOW_LAPSED_REASON w Hd Hl)
    as (w1 & Hrun & Hdw & Hk & _).
  unfold isFundingWindowLapsed in H. rewrite !run_bind, run_now in H. cbn [fst snd] in H.
  rewrite run_ret in H. cbn [fst snd body] in H. rewrite Hl, !run_bind, Hrun in H.
  cbn [fst snd] in H. rewrite run_throw in H. simplify_eq/=. rewrite decide_False by done.
  split; [by eexists|]. split; [apply Hk|done].
Qed.
End Funding.

(** ** Instances *)
Section EscrowWitnesses.
Import Example_.

Definition fund_input : EscrowFundedInput :=
  mkEscrowFundedInput "CESCROW" did (Num.of_Z 150) "xlm" None (Some "GPAYER") "tx-1" (Some (Num.of_Z 7)).
Definition release_input (h : string) : ReleaseEscrowInput :=
  mkReleaseEscrowInput eid h (Some (Num.of_Z 9)).
Definition resolve_input : ResolveEscrowInput :=
  mkResolveEscrowInput eid "admin-1" "refund_to_payer" "payer asked".
Definition retry_input : RetryExpiredEscrowInput :=
  mkRetryExpiredEscrowInput eid "admin-1" "refund" "still wanted".

(** A funded delivery under way, with its proof. *)
Definition under_way : World :=
  with_escrow (dlv DeliveryStatus.IN_PROGRESS (Some proof)) (esc EscrowStatus.LOCKED).

Lemma one_escrow_indexed d e : EscrowRepository.indexed (escrows (with_escrow d e)).
Proof.
  change (escrows (with_escrow d e)) with ({[eid := e]} : gmap string Escrow).
  by intros k1 e1 k2 e2 [<- <-]%lookup_singleton_Some [<- <-]%lookup_singleton_Some.
Qed.

Lemma no_escrows_indexed d : EscrowRepository.indexed (escrows (with_delivery d)).
Proof.
  change (escrows (with_delivery d)) with (∅ : gmap string Escrow).
  intros k1 e1 k2 e2 H1. by rewrite lookup_empty in H1.
Qed.
Lemma no_escrows_coded d k e : escrows (with_delivery d) !! k = Some e → assetCode e ≠ "".
Proof.
  change (escrows (with_delivery d)) with (∅ : gmap string Escrow). by rewrite lookup_empty.
Qed.

Ltac run_ok r w' Hr :=
  match goal with |- context [run ?p ?w] =>
    destruct (run p w) as [[?|r] w'] eqn:Hr;
    [exfalso; vm_compute in Hr; discriminate Hr|]
  end.

Lemma releaseEscrow_correct_witness :
  ∃ e' w', run (releaseEscrow (release_input "tx-2")) under_way = (inr e', w') ∧
    redisLocks w' = ∅ ∧ e_status (body e') = EscrowStatus.RELEASED.
Proof.
  run_ok e' w' Hr. exists e', w'. split; [reflexivity|].
  destruct (releaseEscrow_correct (release_input "tx-2") under_way (inr e') w' Hr)
    as [Hl [(_ & He & _)|(e & _ & _ & _ & Hb & _)]].
  - exfalso. vm_compute in Hr. injection Hr as <- _. vm_compute in He. discriminate He.
  - split; [exact Hl|]. rewrite Hb. reflexivity.
Defined.

Lemma releaseEscrow_once_witness :
  ∃ e' w1, run (releaseEscrow (release_input "tx-2")) under_way = (inr e', w1) ∧
    e_status (body e') = EscrowStatus.RELEASED ∧
    ∃ w2, run (releaseEscrow (release_input "tx-3")) w1 =
      (inl (AppError "Escrow has already been released" Http.CONFLICT), w2).
Proof.
  destruct (releaseEscrow_once (release_input "tx-2") (release_input "tx-3")
    (esc EscrowStatus.LOCKED) under_way) as (e' & w1 & Hr & Hs & _ & w2 & Hr2 & _);
    [reflexivity..| |reflexivity|reflexivity|reflexivity|reflexivity|reflexivity|].
  - exists (dlv DeliveryStatus.IN_PROGRESS (Some proof)). split; [reflexivity|by eexists].
  - exists e', w1. split; [exact Hr|]. split; [exact Hs|]. by exists w2.
Defined.

Lemma resolveEscrow_correct_witness :
  let w := with_escrow (dlv DeliveryStatus.CANCELLED None) (esc EscrowStatus.EXPIRED) in
  ∃ e' w', run (resolveEscrow resolve_input) w = (inr e', w') ∧
    redisLocks w' = ∅ ∧ resolvedBy (body e') = Some "admin-1".
Proof.
  intros w. run_ok e' w' Hr. exists e', w'. split; [reflexivity|].
  destruct (resolveEscrow_correct resolve_input w (inr e') w' Hr)
    as [Hl (x & e & l & _ & _ & _ & _ & _ & Hb & _)].
  split; [exact Hl|exact Hb].
Defined.

Lemma retryExpiredEscrow_correct_witness :
  let w := with_escrow (dlv DeliveryStatus.CANCELLED None) (esc EscrowStatus.EXPIRED) in
  ∃ e' w', run (retryExpiredEscrow retry_input) w = (inr e', w') ∧
    redisLocks w' = ∅ ∧ resolvedBy (body e') = Some "admin-1".
Proof.
  intros w. run_ok e' w' Hr. exists e', w'. split; [reflexivity|].
  destruct (retryExpiredEscrow_correct retry_input w (inr e') w' Hr)
    as [Hl (x & e & _ & _ & _ & _ & _ & Hb & _)].
  split; [exact Hl|exact Hb].
Defined.

Lemma recordEscrowFunded_correct_witness :
  ∃ e' w', run (recordEscrowFunded fund_input) (with_delivery (dlv DeliveryStatus.PENDING None)) =
      (inr e', w') ∧
    delivery (body e') = did ∧ e_contractId (body e') = Some "CESCROW".
Proof.
  run_ok e' w' Hr. exists e', w'. split; [reflexivity|].
  destruct (recordEscrowFunded_correct fund_input _ e' w' Hr) as (d & a & _ & Hc & Hd & _).
  split; [exact Hd|exact Hc].
Defined.

Lemma late_funding_refused_witness :
  let w := with_delivery (dlv DeliveryStatus.PENDING None) <| now_ms := (t0 + 2000)%Z |> in
  ∃ m w', run (recordEscrowFunded fund_input) w = (inl (AppError m Http.CONFLICT), w') ∧
    escrows w' = ∅.
Proof.
  intros w. destruct (run (recordEscrowFunded fund_input) w) as [r w'] eqn:Hr.
  destruct (late_funding_refused fund_input (dlv DeliveryStatus.PENDING None) w r w')
    as ((m & ->) & He & _); [reflexivity|reflexivity|right; reflexivity|exact Hr|].
  exists m, w'. split; [reflexivity|exact He].
Defined.
End EscrowWitnesses.
