(* ===== verification/EscrowInvariants.v ===== *)
(** * Scans and invariants of the escrow service

    The two periodic scans, what they change and what they leave alone; then
    the escrow state machine over any sequence of service operations. *)
From S2P Require Import Prelude JsLib Models Repositories Pagination Currency ProofOfDelivery RedisLock DeliveryService EscrowService EscrowFacts.

(** ** The expiry scan *)
Section Scans.
Context `{E : Env, C : DeliveryConsumers, COk : !DeliveryConsumersOk}.

Definition cancelled_at (t : Z) (d : Delivery) : Delivery :=
  d <| status := DeliveryStatus.CANCELLED |> <| d_updatedAt := t |>.

Definition cancel_open (t : Z) (d : Delivery) : Delivery :=
  if is_finished (status d) then d else cancelled_at t d.

Lemma is_finished_true s :
  is_finished s = true ↔ s = DeliveryStatus.COMPLETED ∨ s = DeliveryStatus.CANCELLED.
Proof.
  split; [|by intros [-> | ->]].
  destruct s; first [by auto | by intros Hx; vm_compute in Hx].
Qed.

Lemma cancel_open_idemp t d : cancel_open t (cancel_open t d) = cancel_open t d.
Proof.
  unfold cancel_open. destruct (is_finished (status d)) eqn:Hf; [by rewrite Hf|].
  change (status (cancelled_at t d)) with DeliveryStatus.CANCELLED. done.
Qed.

Lemma cancelExpired_run e w :
  ∃ w', run (cancelDeliveryForExpiredEscrow e) w = (inr tt, w') ∧ keeps_escrows w w' ∧
    deliveries w' = alter (cancel_open (now_ms w)) (delivery (body e)) (deliveries w).
Proof.
  pose proof (confined_run keeps_escrows _ w (cancelExpired_confined e)) as Hc.
  unfold cancelDeliveryForExpiredEscrow in *. revert Hc. rewrite run_try_catch.
  rewrite run_bind, DeliveryRepository.run_model_findById. cbn [fst snd].
  destruct (deliveries w !! delivery (body e)) as [d|] eqn:Hd; cbn [fmap option_fmap option_map].
  2: { intros Hc. exists w. by rewrite alter_missing. }
  cbn [body]. rewrite (alter_insert_if _ _ d) by done. unfold cancel_open.
  case_bool_decide as Hs.
  { rewrite (proj2 (is_finished_true _)) by auto. intros Hc. exists w. by rewrite insert_id. }
  rewrite run_bind. case_bool_decide as Hs2.
  - rewrite (proj2 (is_finished_true _)) by auto. rewrite run_ret. cbn [fst snd].
    destruct (notify_stakeholders_run (Doc (delivery (body e)) d) DeliveryStatus.CANCELLED w)
      as (w2 & -> & Hsc). intros Hc. exists w2. rewrite insert_id by done.
    by rewrite (sc_deliveries _ _ Hsc).
  - rewrite (DeliveryRepository.run_save _ _ _ _ Hd). cbn [fst snd].
    match goal with |- context [run (notify_stakeholders ?d ?s) ?w1] =>
      destruct (notify_stakeholders_run d s w1) as (w2 & -> & Hsc) end.
    intros Hc. exists w2. rewrite (sc_deliveries _ _ Hsc).
    destruct (is_finished (status d)) eqn:Hf; [|done].
    by apply is_finished_true in Hf as [Hf|Hf].
Qed.

Lemma cancelExpired_all l w :
  ∃ w', run (for_each l cancelDeliveryForExpiredEscrow) w = (inr tt, w') ∧ keeps_escrows w w' ∧
    ∀ did, deliveries w' !! did =
      (λ d, if bool_decide (did ∈ ((λ e, delivery (body e)) <$> l)) then cancel_open (now_ms w) d
            else d) <$> deliveries w !! did.
Proof.
  revert w. induction l as [|e l IH]; intros w; cbn [for_each].
  { exists w. split; [done|]. split; [done|]. intros did.
    rewrite bool_decide_false by apply not_elem_of_nil. by destruct (deliveries w !! did). }
  rewrite run_bind. destruct (cancelExpired_run e w) as (w1 & -> & Hk & Hd). cbn [fst snd].
  destruct (IH w1) as (w2 & -> & Hk2 & Hd2). exists w2. split; [done|].
  split; [by etrans|]. intros did. rewrite Hd2, Hd, (ke_now _ _ Hk). clear.
  rewrite fmap_cons. destruct (decide (delivery (body e) = did)) as [<-|Hne].
  - rewrite lookup_alter_eq, (bool_decide_true (_ ∈ _ :: _)) by by left.
    destruct (deliveries w !! _) as [d|]; cbn; [|done]. f_equal.
    case_bool_decide; [apply cancel_open_idemp|done].
  - rewrite lookup_alter_ne by done.
    destruct (deliveries w !! did) as [d|]; cbn; [|done]. f_equal.
    rewrite (bool_decide_ext (did ∈ delivery (body e) :: _)
      (did ∈ ((λ e, delivery (body e)) <$> l))); [done|].
    rewrite elem_of_cons. split; [intros [->|]|]; auto; done.
Qed.

Definition expired_at (t : Z) (ledger : option Z) (e : Escrow) : Escrow :=
  expire_update t ledger e <| e_updatedAt := t |>.

(** The escrows after a scan. *)
Definition after_expiry (t : Z) (ledger : option Z) (m : gmap string Escrow)
    : gmap string Escrow :=
  (λ e, if expirable t e then expired_at t ledger e else e) <$> m.

(** The deliveries a scan may cancel: those of an escrow it flags. *)
Definition guarded (t : Z) (m : gmap string Escrow) (did : string) : Prop :=
  ∃ k e, m !! k = Some e ∧ expirable t e = true ∧ delivery e = did.

Lemma expired_not_expirable t ledger e : expirable t (expired_at t ledger e) = false.
Proof. done. Qed.

(** The ledger stamp: nothing when the node fails or is degraded. *)
Definition ledger_stamp (t : Z) : option Z :=
  match getLatestLedger t with inr o => o | inl _ => None end.

Lemma expirable_status t e : expirable t e = true → includes (e_status e) EXPIRABLE_STATUSES = true.
Proof. unfold expirable. by intros [? _]%andb_true_iff. Qed.

Lemma flag_lookup t ledger (w : World) ids k :
  (∀ k, includes k ids = true ↔ ∃ e, escrows w !! k = Some e ∧ expirable t e = true) →
  now_ms w = t →
  update_many (λ id e, includes id ids && includes (e_status e) EXPIRABLE_STATUSES)
    (λ e, expire_update t ledger e <| e_updatedAt := now_ms w |>) (escrows w) !! k =
  after_expiry t ledger (escrows w) !! k.
Proof.
  intros Hids Ht. rewrite lookup_update_many. unfold after_expiry. rewrite lookup_fmap, Ht.
  destruct (escrows w !! k) as [e|] eqn:He; [|done]. cbn. f_equal.
  destruct (expirable t e) eqn:Hx.
  - rewrite (expirable_status _ _ Hx). rewrite (proj2 (Hids k)) by eauto. done.
  - destruct (includes k ids) eqn:Hi; [|done]. apply Hids in Hi as (e2 & He2 & Hx2). congruence.
Qed.

Lemma scan_flagged t ledger m ids d :
  (∀ k, includes k ids = true ↔ ∃ e, m !! k = Some e ∧ expirable t e = true) →
  d ∈ filter (λ d, includes (_id d) ids = true)
        (find_all (λ e, bool_decide (e_status e = EscrowStatus.EXPIRED)) (after_expiry t ledger m)) ↔
  ∃ e, m !! _id d = Some e ∧ expirable t e = true ∧ body d = expired_at t ledger e.
Proof.
  intros Hids. rewrite list_elem_of_filter, elem_of_find_all, Hids. unfold after_expiry.
  rewrite lookup_fmap, fmap_Some, bool_decide_eq_true. split.
  - intros [(e & He & Hx) [(e2 & He2 & ->) _]]. assert (e2 = e) as -> by congruence.
    exists e. by rewrite Hx.
  - intros (e & He & Hx & Hb). split; [by eauto|]. split; [|by rewrite Hb].
    exists e. by rewrite Hx.
Qed.

Lemma after_expiry_none t ledger m :
  (∀ k e, m !! k = Some e → expirable t e = false) → after_expiry t ledger m = m.
Proof.
  intros Hno. apply map_eq. intros k. unfold after_expiry. rewrite lookup_fmap.
  destruct (m !! k) as [e|] eqn:He; [|done]. cbn. by rewrite (Hno k e).
Qed.

(** Reading the ledger: a failure only loses the stamp. *)
Lemma ledger_read {B} w (k : option Z → action B) :
  run (o ← try_catch (t' ← now; Done (getLatestLedger t')) (λ _, mret None); k o) w =
  run (k (ledger_stamp (now_ms w))) w.
Proof.
  rewrite run_bind, run_try_catch, run_bind, run_now. cbn [fst snd]. rewrite run_done.
  unfold ledger_stamp. by destruct (getLatestLedger (now_ms w)).
Qed.

(** The deliveries after the scan, from the escrows it reports. *)
Definition cancels (t : Z) (flagged : list (hydrated Escrow)) (w w' : World) : Prop :=
  ∀ did, deliveries w' !! did =
    (λ d, if bool_decide (did ∈ ((λ e, delivery (body e)) <$> flagged)) then cancel_open t d
          else d) <$> deliveries w !! did.

Lemma scan_expired_run w :
  let t := now_ms w in
  ∃ res w', run scanForExpiredEscrows w = (inr res, w') ∧
    escrows w' = after_expiry t (ledger_stamp t) (escrows w) ∧
    (∀ d, d ∈ flaggedEscrows res ↔ ∃ e, escrows w !! _id d = Some e ∧
       expirable t e = true ∧ body d = expired_at t (ledger_stamp t) e) ∧
    flaggedCount res = Z.of_nat (length (flaggedEscrows res)) ∧
    cancels t (flaggedEscrows res) w w'.
Proof.
  intros t. unfold scanForExpiredEscrows, EscrowRepository.find.
  rewrite run_bind, run_now. cbn [fst snd]. fold t. rewrite run_bind, run_reads. cbn [fst snd].
  set (cands := find_all (expirable t) (escrows w)).
  assert (∀ k, includes k (_id <$> cands) = true ↔
    ∃ e, escrows w !! k = Some e ∧ expirable t e = true) as Hids.
  { intros k. rewrite includes_true, list_elem_of_fmap. split.
    - intros (d & -> & Hd%elem_of_find_all). by eexists.
    - intros (e & He & Hx). exists (Doc k e). split; [done|]. by apply elem_of_find_all. }
  destruct cands as [|c cs] eqn:Hc.
  - assert (∀ k e, escrows w !! k = Some e → expirable t e = false) as Hno.
    { intros k e He. apply not_true_iff_false. intros Hx.
      assert (includes k [] = true) as Hi by (apply (Hids k); eauto).
      by apply includes_true, not_elem_of_nil in Hi. }
    rewrite run_ret. eexists _, w. split; [done|]. rewrite after_expiry_none by done.
    split; [done|]. cbn [flaggedEscrows flaggedCount]. split; [|split; [done|]].
    + intros d. split; [by intros ?%not_elem_of_nil|]. intros (e & He & Hx & _).
      by rewrite (Hno _ _ He) in Hx.
    + intros did. rewrite bool_decide_false by apply not_elem_of_nil.
      by destruct (deliveries w !! did).
  - rewrite <-Hc in *. clear c cs Hc. rewrite ledger_read. fold t.
    unfold EscrowRepository.updateMany. rewrite run_bind, run_writes. cbn [fst snd].
    rewrite run_bind, run_reads. cbn [fst snd]. set (w1 := w <| escrows ::= _ |>).
    assert (escrows w1 = after_expiry t (ledger_stamp t) (escrows w)) as Hw1.
    { apply map_eq. intros k. by apply (flag_lookup t (ledger_stamp t) w _ k Hids). }
    rewrite Hw1. set (flagged := filter _ _).
    rewrite run_bind. destruct (cancelExpired_all flagged w1) as (w2 & -> & Hk & Hd).
    cbn [fst snd]. rewrite run_ret. eexists _, w2. split; [done|].
    rewrite (ke_escrows _ _ Hk), Hw1. split; [done|]. cbn [flaggedEscrows flaggedCount].
    split; [intros d; by apply scan_flagged|]. done.
Qed.

(** The expiry scan never fails, even when the ledger cannot be read: it
    flags exactly the [PENDING] and [LOCKED] escrows whose expiry has passed
    (status, time and, when known, ledger) and leaves every other escrow as
    it was; it reports exactly the flagged ones; it cancels exactly their
    deliveries that are not yet finished, and no other; and a second scan at
    the same time finds nothing. *)
Theorem scanForExpiredEscrows_correct w :
  let t := now_ms w in
  ∃ res w', run scanForExpiredEscrows w = (inr res, w') ∧
    escrows w' = after_expiry t (ledger_stamp t) (escrows w) ∧
    (∀ d, d ∈ flaggedEscrows res ↔ ∃ e, escrows w !! _id d = Some e ∧
       expirable t e = true ∧ body d = expired_at t (ledger_stamp t) e) ∧
    flaggedCount res = Z.of_nat (length (flaggedEscrows res)) ∧
    (∀ did d, deliveries w !! did = Some d → guarded t (escrows w) did →
       deliveries w' !! did = Some (cancel_open t d)) ∧
    (∀ did, ¬ guarded t (escrows w) did → deliveries w' !! did = deliveries w !! did) ∧
    (∀ k e, escrows w' !! k = Some e → expirable t e = false).
Proof.
  intros t. destruct (scan_expired_run w) as (res & w' & Hr & Hes & Hfl & Hn & Hd).
  unfold cancels in Hd. fold t in Hes, Hfl, Hd.
  assert (∀ did, did ∈ ((λ e, delivery (body e)) <$> flaggedEscrows res) ↔
    guarded t (escrows w) did) as Hg.
  { intros did. rewrite list_elem_of_fmap. split.
    - intros (d & -> & (e & He & Hx & Hb)%Hfl). exists (_id d), e. by rewrite Hb.
    - intros (k & e & He & Hx & <-). exists (Doc k (expired_at t (ledger_stamp t) e)).
      split; [done|]. apply Hfl. by exists e. }
  exists res, w'. do 4 (split; [done|]). split; [|split].
  - intros did d Hdd Hgd. rewrite Hd, Hdd. cbn. by rewrite bool_decide_true by by apply Hg.
  - intros did Hgd. rewrite Hd, bool_decide_false by by rewrite Hg.
    by destruct (deliveries w !! did).
  - intros k e. rewrite Hes. unfold after_expiry. rewrite lookup_fmap, fmap_Some.
    intros (e0 & _ & ->). destruct (expirable t e0) eqn:Hx; [apply expired_not_expirable|done].
Qed.
End Scans.

(** ** The funding-window scan *)
Section LapsedScan.
Context `{E : Env, C : DeliveryConsumers, COk : !DeliveryConsumersOk}.

Definition lapsed_at (t : Z) (d : Delivery) : Delivery :=
  lapse_update FUNDING_WINDOW_LAPSED_REASON d <| d_updatedAt := t |>.

Lemma candidate_lapsed t d : lapsed_candidate t d = true → window_lapsed t d = true.
Proof. unfold lapsed_candidate. by intros [? _]%andb_true_iff. Qed.

Lemma scan_one_run ids id d w :
  deliveries w !! id = Some d → window_lapsed (now_ms w) d = true →
  ∃ w', run (scan_one ids (Doc id d)) w = (inr (ids ++ [id]), w') ∧
    deliveries w' = <[id := lapsed_at (now_ms w) d]> (deliveries w) ∧ keeps_escrows w w'.
Proof.
  intros Hd Hl. unfold scan_one.
  destruct (cancelLapsed_run id d FUNDING_WINDOW_LAPSED_REASON w Hd Hl)
    as (w1 & Hr & Hd1 & Hk & _).
  rewrite run_try_catch, run_bind, Hr. cbn [fst snd]. rewrite run_ret. cbn [fst snd body _id].
  rewrite bool_decide_true by done. by exists w1.
Qed.

Lemma scan_all_run l ids w :
  NoDup (_id <$> l) →
  (∀ d, d ∈ l → deliveries w !! _id d = Some (body d) ∧
     window_lapsed (now_ms w) (body d) = true) →
  ∃ w', run (fold_prog scan_one ids l) w = (inr (ids ++ (_id <$> l)), w') ∧
    keeps_escrows w w' ∧
    ∀ did, deliveries w' !! did =
      (λ d, if bool_decide (did ∈ (_id <$> l)) then lapsed_at (now_ms w) d else d)
        <$> deliveries w !! did.
Proof.
  revert ids w. induction l as [|[id d] l IH]; intros ids w Hnd Hl; cbn [fold_prog].
  { exists w. rewrite app_nil_r. split; [done|]. split; [done|]. intros did.
    rewrite bool_decide_false by apply not_elem_of_nil. by destruct (deliveries w !! did). }
  rewrite fmap_cons in *. cbn [_id] in *. apply NoDup_cons in Hnd as [Hni Hnd].
  destruct (Hl (Doc id d)) as [Hd Hw]; [by left|]. cbn [_id body] in *.
  rewrite run_bind. destruct (scan_one_run ids id d w Hd Hw) as (w1 & -> & Hd1 & Hk).
  cbn [fst snd]. destruct (IH (ids ++ [id]) w1 Hnd) as (w2 & -> & Hk2 & Hd2).
  { intros d2 Hin. destruct (Hl d2) as [H1 H2]; [by right|]. rewrite (ke_now _ _ Hk), Hd1.
    split; [|done]. rewrite lookup_insert_ne; [done|]. intros ->. apply Hni.
    apply list_elem_of_fmap. by exists d2. }
  exists w2. rewrite <-(assoc_L (++)). split; [done|]. split; [by etrans|].
  intros did. rewrite Hd2, Hd1, (ke_now _ _ Hk). destruct (decide (id = did)) as [->|Hne].
  - rewrite lookup_insert_eq, Hd. cbn. rewrite bool_decide_false by done.
    by rewrite bool_decide_true by by left.
  - rewrite lookup_insert_ne by done. destruct (deliveries w !! did); cbn; [|done]. f_equal.
    rewrite (bool_decide_ext (did ∈ id :: (_id <$> l)) (did ∈ (_id <$> l))); [done|].
    rewrite elem_of_cons. split; [intros [->|]|]; auto; done.
Qed.

Lemma scan_lapsed_run w :
  let t := now_ms w in
  ∃ res w', run scanLapsedFundingWindows w = (inr res, w') ∧ escrows w' = escrows w ∧
    cancelledDeliveryIds res ≡ₚ (_id <$> find_all (lapsed_candidate t) (deliveries w)) ∧
    cancelledCount res = Z.of_nat (length (cancelledDeliveryIds res)) ∧
    ∀ did, deliveries w' !! did =
      (λ d, if bool_decide (did ∈ cancelledDeliveryIds res) then lapsed_at t d else d)
        <$> deliveries w !! did.
Proof.
  intros t. unfold scanLapsedFundingWindows, DeliveryRepository.find.
  rewrite run_bind, run_now. cbn [fst snd]. fold t. rewrite run_bind, run_reads. cbn [fst snd].
  set (l := sort_by fundBy_le _). assert (l ≡ₚ find_all (lapsed_candidate t) (deliveries w)) as Hp
    by apply sort_by_perm.
  assert (NoDup (_id <$> l)) as Hnd by (rewrite Hp; apply find_all_NoDup).
  destruct (scan_all_run l [] w) as (w' & Hr & Hk & Hd); [done| |].
  { intros d. rewrite Hp, elem_of_find_all. intros [? ?]. split; [done|].
    by apply candidate_lapsed. }
  rewrite run_bind, Hr. cbn [fst snd]. rewrite run_ret. cbn [app].
  eexists _, w'. split; [done|]. split; [apply Hk|]. cbn [cancelledDeliveryIds cancelledCount].
  split; [by apply fmap_Permutation|]. done.
Qed.

(** The funding-window scan never fails: it cancels, with the lapse
    reason, exactly the unfunded ([PENDING]), unarchived deliveries whose
    deadline has passed, reports exactly those, and changes no other delivery
    and no escrow; a second scan at the same time finds nothing. *)
Theorem scanLapsedFundingWindows_correct w :
  let t := now_ms w in
  ∃ res w', run scanLapsedFundingWindows w = (inr res, w') ∧
    deliveries w' = (λ d, if lapsed_candidate t d then lapsed_at t d else d) <$> deliveries w ∧
    escrows w' = escrows w ∧
    (∀ id, id ∈ cancelledDeliveryIds res ↔
       ∃ d, deliveries w !! id = Some d ∧ lapsed_candidate t d = true) ∧
    NoDup (cancelledDeliveryIds res) ∧
    cancelledCount res = Z.of_nat (length (cancelledDeliveryIds res)) ∧
    (∀ id d, deliveries w' !! id = Some d → lapsed_candidate t d = false).
Proof.
  intros t. destruct (scan_lapsed_run w) as (res & w' & Hr & Hes & Hp & Hn & Hd).
  fold t in Hp, Hd.
  assert (∀ id, id ∈ cancelledDeliveryIds res ↔
    ∃ d, deliveries w !! id = Some d ∧ lapsed_candidate t d = true) as Hin.
  { intros id. rewrite Hp, list_elem_of_fmap. setoid_rewrite elem_of_find_all. split.
    - intros (d & -> & ?). by eexists.
    - intros (d & ?). by exists (Doc id d). }
  assert (deliveries w' =
    (λ d, if lapsed_candidate t d then lapsed_at t d else d) <$> deliveries w) as Hds.
  { apply map_eq. intros id. rewrite Hd, lookup_fmap.
    destruct (deliveries w !! id) as [d|] eqn:Hid; [|done]. cbn. f_equal.
    destruct (lapsed_candidate t d) eqn:Hc.
    - rewrite bool_decide_true; [done|]. apply Hin. eauto.
    - rewrite bool_decide_false; [done|]. intros (d2 & Hd2 & Hc2)%Hin. congruence. }
  assert (NoDup (cancelledDeliveryIds res)) as Hnd by (rewrite Hp; apply find_all_NoDup).
  exists res, w'. do 6 (split; [done|]).
  intros id d. rewrite Hds, lookup_fmap, fmap_Some. intros (d0 & _ & ->).
  by destruct (lapsed_candidate t d0) eqn:Hc.
Qed.

(** *** The conditional cancellation, interleaved *)
Lemma cancelLapsed_safe d reason w :
  safe lifecycle (cancelLapsedFundingWindow d reason) w (λ _ _, True).
Proof.
  unfold cancelLapsedFundingWindow.
  eapply (safe_bind _ _ _ _ (λ r _, r = inr true → status (body d) = DeliveryStatus.PENDING)).
  { cbn. intros w1 _. split; [done|]. intros w2 _ [= Hl].
    unfold window_lapsed in Hl. apply andb_true_iff in Hl as [Hl _].
    by apply bool_decide_eq_true in Hl. }
  2: done.
  intros [] w1 _ Hp; [|done]. specialize (Hp eq_refl). destruct (fundBy (body d)) as [f|]; [|done].
  eapply (safe_bind _ _ _ _ (λ _ _, True)); [|intros [u|] w2 _ _; [|done]|done].
  - cbn. intros w2 _. split; [|done].
    destruct (DeliveryRepository.find_and_update _ _ w2) as [o w3] eqn:Hu. cbn.
    apply DeliveryRepository.find_and_update_inv in Hu
      as [(_ & -> & _)|(d0 & d' & Hs & -> & _ & ->)]; [done|].
    apply DeliveryRepository.by_id_if_Some in Hs as (-> & Hd & Hf%bool_decide_eq_true).
    cbn [_id body] in *.
    apply (lifecycle_update (_id d) (body d0) (lapse_update reason)); [done|].
    split; [|done|done]. apply rtc_once. constructor.
    change (status (lapse_update reason (body d0) <| d_updatedAt := now_ms w2 |>))
      with DeliveryStatus.CANCELLED.
    rewrite Hf, Hp. apply (bool_decide_eq_true_1 _). reflexivity.
  - eapply (safe_bind _ _ _ _ (λ _ _, True)); [|intros _ w3 _ _|done].
    { eapply (safe_try_catch _ _ _ _ (λ _ _, True)); [|done|done]. cbn. intros w3 _. split; [|done].
      intros id' d' Hd'. by exists d'. }
    eapply (safe_bind _ _ _ _ (λ _ _, True)); [apply emitMilestone_safe|done|done].
Qed.

(** However any number of funding-window cancellations and status
    updates interleave, every delivery only moves along
    [ALLOWED_TRANSITIONS]: a cancellation computed from a stale read never
    overwrites a delivery that was funded or assigned meanwhile. *)
Theorem cancellations_interleaved
    (reqs : list (hydrated Delivery + string * DeliveryStatus.t)) sched w :
  lifecycle w (interleave sched
    ((λ r, match r with
           | inl d => cancelLapsedFundingWindow d FUNDING_WINDOW_LAPSED_REASON
           | inr (id, s) => updateStatus id s system_actor
           end) <$> reqs) w).2.
Proof.
  apply (safe_interleave lifecycle (λ _ _ _, True)). intros i p Hp.
  rewrite list_lookup_fmap, fmap_Some in Hp. destruct Hp as ([d|[id s]] & _ & ->).
  - apply cancelLapsed_safe.
  - apply updateStatus_safe.
Qed.
End LapsedScan.

(** ** The escrow state machine over the whole service *)

(** The transitions the service may make. *)
Definition escrow_next (s : EscrowStatus.t) : list EscrowStatus.t :=
  match s with
  | EscrowStatus.PENDING => [EscrowStatus.LOCKED; EscrowStatus.EXPIRED]
  | EscrowStatus.LOCKED =>
      [EscrowStatus.RELEASED; EscrowStatus.REFUNDED; EscrowStatus.EXPIRED; EscrowStatus.LOCKED]
  | EscrowStatus.DISPUTED => [EscrowStatus.RELEASED; EscrowStatus.REFUNDED; EscrowStatus.LOCKED]
  | EscrowStatus.EXPIRED =>
      [EscrowStatus.RELEASED; EscrowStatus.REFUNDED; EscrowStatus.LOCKED; EscrowStatus.RESOLVED]
  | EscrowStatus.RELEASED | EscrowStatus.REFUNDED | EscrowStatus.RESOLVED => []
  end.

Inductive escrow_step : relation EscrowStatus.t :=
  escrow_step_intro s s' : s' ∈ escrow_next s → escrow_step s s'.

Lemma escrow_step_dec s s' : bool_decide (s' ∈ escrow_next s) = true → escrow_step s s'.
Proof. intros H. constructor. by apply bool_decide_eq_true in H. Qed.

Record escrow_moves (e e' : Escrow) : Prop := {
  em_status : rtc escrow_step (e_status e) (e_status e');
  em_delivery : delivery e' = delivery e;
  em_contract : e_contractId e' = e_contractId e;
  em_trail : transactions e `prefix_of` transactions e'
}.
#[export] Instance escrow_moves_preorder : PreOrder escrow_moves.
Proof. split; [by split|]. intros e1 e2 e3 [] []. split; by etrans. Qed.

Lemma settled_final e e' :
  isSettled e = true → escrow_moves e e' → e_status e' = e_status e.
Proof.
  intros Hs%includes_true [Hm _ _ _].
  apply rtc_inv in Hm as [Heq|(s & Hst & _)]; [by symmetry|]. exfalso.
  inversion Hst as [? ? Hn]; clear Hst; subst.
  unfold TERMINAL_STATUSES in Hs. rewrite !elem_of_cons, elem_of_nil in Hs.
  destruct Hs as [Hs|[Hs|[Hs|[]]]]; rewrite Hs in Hn; by apply not_elem_of_nil in Hn.
Qed.

(** Every status carries its time stamp. *)
Record escrow_wf (e : Escrow) : Prop := {
  wf_locked : e_status e = EscrowStatus.LOCKED → is_Some (expiresAt e);
  wf_released : e_status e = EscrowStatus.RELEASED → is_Some (releasedAt e);
  wf_refunded : e_status e = EscrowStatus.REFUNDED → is_Some (refundedAt e);
  wf_expired : e_status e = EscrowStatus.EXPIRED → is_Some (expiredAt e);
  wf_resolved : e_status e = EscrowStatus.RESOLVED → is_Some (resolvedAt e)
}.

Definition escrows_ok (m : gmap string Escrow) : Prop :=
  EscrowRepository.indexed m ∧ map_Forall (λ _, escrow_wf) m.

Definition escrows_evolve (w w' : World) : Prop :=
  (escrows_ok (escrows w) → escrows_ok (escrows w')) ∧
  ∀ k e, escrows w !! k = Some e → ∃ e', escrows w' !! k = Some e' ∧ escrow_moves e e'.
#[export] Instance escrows_evolve_preorder : PreOrder escrows_evolve.
Proof.
  split; [intros w; split; [done|by intros k e He; exists e]|].
  intros w1 w2 w3 [O1 M1] [O2 M2].
  split; [by auto|]. intros k e He. destruct (M1 _ _ He) as (e2 & He2 & Hm).
  destruct (M2 _ _ He2) as (e3 & He3 & Hm2). exists e3. split; [done|by etrans].
Qed.

Lemma evolve_same w w' : escrows w' = escrows w → escrows_evolve w w'.
Proof. unfold escrows_evolve. intros ->. split; [done|]. intros k e He. by exists e. Qed.

(** One escrow is written, old or new. *)
Lemma evolve_write w w' k e' :
  escrows w' = <[k := e']> (escrows w) →
  EscrowRepository.conflicts k e' (escrows w) = false → escrow_wf e' →
  (∀ e, escrows w !! k = Some e → escrow_moves e e') →
  escrows_evolve w w'.
Proof.
  intros Hes Hc Hwf Hm. split.
  - intros [Hi Hf]. rewrite Hes. split; [by apply EscrowRepository.indexed_insert|].
    by apply map_Forall_insert_2.
  - intros k2 e2 He2. rewrite Hes. destruct (decide (k = k2)) as [<-|].
    + exists e'. rewrite lookup_insert_eq. eauto.
    + exists e2. by rewrite lookup_insert_ne.
Qed.

Inductive EscrowOp :=
  | OpFund (i : EscrowFundedInput)
  | OpRelease (i : ReleaseEscrowInput)
  | OpResolve (i : ResolveEscrowInput)
  | OpRetry (i : RetryExpiredEscrowInput)
  | OpScanExpired
  | OpScanLapsed.

Section Reachability.
Context `{E : Env, C : DeliveryConsumers, COk : !DeliveryConsumersOk}.

Definition exec (o : EscrowOp) : action unit :=
  match o with
  | OpFund i => _ ← recordEscrowFunded i; mret tt
  | OpRelease i => _ ← releaseEscrow i; mret tt
  | OpResolve i => _ ← resolveEscrow i; mret tt
  | OpRetry i => _ ← retryExpiredEscrow i; mret tt
  | OpScanExpired => _ ← scanForExpiredEscrows; mret tt
  | OpScanLapsed => _ ← scanLapsedFundingWindows; mret tt
  end.

(** The service runs an operation, or time passes. *)
Inductive service_step : relation World :=
  | step_op o w r w' : run (exec o) w = (r, w') → service_step w w'
  | step_time w t : (now_ms w ≤ t)%Z → service_step w (w <| now_ms := t |>).

Lemma exec_inv {A} (p : action A) w r w' :
  run (_ ← p; mret tt) w = (r, w') → ∃ r', run p w = (r', w').
Proof.
  rewrite run_bind. destruct (run p w) as [[e|a] w1]; cbn [fst snd]; intros [= <- <-]; by eexists.
Qed.

Ltac one_step := apply rtc_once, escrow_step_dec; reflexivity.

Lemma fund_evolves i w r w' : run (recordEscrowFunded i) w = (r, w') → escrows_evolve w w'.
Proof.
  intros [(er & _ & He & _)|(d & a & Hg & Hfc & Hcase)]%recordEscrowFunded_inv;
    [by apply evolve_same|].
  destruct Hcase as [(e & _ & _ & _ & ->)|(eid & Hold & Hid & -> & Hc & Hes & Hds)]; [done|].
  eapply evolve_write; [exact Hes|exact Hc| |].
  - destruct (contract_escrow i w); by split; intros ?; first [done|by eexists].
  - intros e He. destruct (contract_escrow i w) as [e0|] eqn:Hco; [|cbn in Hid; congruence].
    destruct (Hold _ eq_refl) as (_ & Hf & _). cbn in Hid.
    assert (body e0 = e) as <- by congruence. split; try reflexivity.
    + unfold fundable in Hf. rewrite orb_true_iff, !bool_decide_eq_true in Hf.
      destruct Hf as [-> | ->]; one_step.
    + by eexists.
Qed.

Lemma unlock_evolves k t w w' :
  escrows_evolve (lock_taken k w) w' → escrows_evolve w (unlock k t w').
Proof.
  intros H. trans (lock_taken k w); [by apply evolve_same|]. etrans; [exact H|]. apply evolve_same. by destruct (unlock_fields k t w') as (_ & _ & ? & _).
Qed.

Lemma release_evolves i w r w' : run (releaseEscrow i) w = (r, w') → escrows_evolve w w'.
Proof.
  intros [_ [(er & _ & ->)|(_ & w1 & Hr & ->)]]%releaseEscrow_inv; [done|].
  apply unlock_evolves. apply release_locked_inv in Hr
    as [(er & _ & ->)|[(e & _ & -> & _)|(eid & e & He & Hs & _ & _ & _ & _ & Hc & Hes & _)]];
    [by apply evolve_same..|].
  eapply evolve_write; [exact Hes|exact Hc| |].
  - split; intros ?; first [done|by eexists].
  - intros e2 He2. assert (e2 = e) as -> by congruence. split; try reflexivity.
    + rewrite Hs. one_step.
    + by eexists.
Qed.

Lemma resolve_evolves i w r w' : run (resolveEscrow i) w = (r, w') → escrows_evolve w w'.
Proof.
  intros [_ [(er & _ & ->)|(x & w1 & k & _ & Hr & ->)]]%resolveEscrow_inv; [done|].
  apply unlock_evolves. apply resolve_locked_inv in Hr
    as [(er & _ & ->)|(e & He & Hs & _ & Hc & Hes & _)]; [by apply evolve_same|].
  eapply evolve_write; [exact Hes|exact Hc| |].
  - destruct x; split; intros ?; first [done|by eexists].
  - intros e2 He2. assert (e2 = e) as -> by congruence. split; try by destruct x.
    unfold RESOLVABLE_STATUSES in Hs. rewrite !elem_of_cons, elem_of_nil in Hs.
    destruct Hs as [-> |[-> |[-> |[]]]]; destruct x; one_step.
Qed.

Lemma retry_evolves i w r w' : run (retryExpiredEscrow i) w = (r, w') → escrows_evolve w w'.
Proof.
  intros [_ [(er & _ & ->)|(x & w1 & k & _ & Hr & ->)]]%retryExpiredEscrow_inv; [done|].
  apply unlock_evolves. apply retry_locked_inv in Hr
    as [(er & _ & ->)|(e & He & Hs & _ & Hc & Hes & _)]; [by apply evolve_same|].
  eapply evolve_write; [exact Hes|exact Hc| |].
  - destruct x; split; intros ?; first [done|by eexists].
  - intros e2 He2. assert (e2 = e) as -> by congruence. split; try by destruct x.
    rewrite Hs. destruct x; one_step.
Qed.

Lemma expirable_cases t e :
  expirable t e = true → e_status e = EscrowStatus.PENDING ∨ e_status e = EscrowStatus.LOCKED.
Proof.
  intros Hx%expirable_status%includes_true. unfold EXPIRABLE_STATUSES in Hx.
  rewrite !elem_of_cons, elem_of_nil in Hx. destruct Hx as [?|[?|[]]]; auto.
Qed.

Lemma expiry_evolves w w' ledger :
  escrows w' = after_expiry (now_ms w) ledger (escrows w) → escrows_evolve w w'.
Proof.
  intros Hes. unfold after_expiry in Hes. split.
  - intros [Hi Hf]. rewrite Hes. split.
    + intros k1 e1 k2 e2. rewrite !lookup_fmap, !fmap_Some.
      intros (a1 & H1 & ->) (a2 & H2 & ->) Hne. specialize (Hi _ _ _ _ H1 H2 Hne).
      by destruct (expirable _ a1), (expirable _ a2).
    + intros k e. rewrite lookup_fmap, fmap_Some. intros (e0 & He0 & ->).
      destruct (expirable _ e0); [|by apply (Hf k)]. split; intros ?; first [done|by eexists].
  - intros k e He. rewrite Hes, lookup_fmap, He. cbn. eexists. split; [done|].
    destruct (expirable (now_ms w) e) eqn:Hx; [|done].
    apply expirable_cases in Hx. split; try reflexivity.
    destruct Hx as [-> | ->]; one_step.
Qed.

Lemma op_evolves o w r w' : run (exec o) w = (r, w') → escrows_evolve w w'.
Proof.
  destruct o; cbn [exec]; intros (r' & Hr)%exec_inv.
  - by eapply fund_evolves.
  - by eapply release_evolves.
  - by eapply resolve_evolves.
  - by eapply retry_evolves.
  - destruct (scan_expired_run w) as (res & w2 & Hr2 & Hes & _). rewrite Hr2 in Hr. simplify_eq.
    by eapply expiry_evolves.
  - destruct (scan_lapsed_run w) as (res & w2 & Hr2 & Hes & _). rewrite Hr2 in Hr. simplify_eq.
    by apply evolve_same.
Qed.

(** C7: whatever sequence of funding events, releases, resolutions, retries
    and scans the service runs, and however time passes between them: the
    unique indexes hold, every escrow carries the time stamp of its status,
    escrows are never removed nor moved to another delivery or contract,
    their transaction trail only grows, their status only follows
    [escrow_next], and an escrow once settled keeps its status for ever. *)
Theorem escrow_reachability w w' :
  escrows_ok (escrows w) → rtc service_step w w' →
  escrows_ok (escrows w') ∧
  ∀ k e, escrows w !! k = Some e → ∃ e', escrows w' !! k = Some e' ∧ escrow_moves e e' ∧
    (isSettled e = true → e_status e' = e_status e).
Proof.
  intros Hok Hs. assert (escrows_evolve w w') as [Ho Hm].
  { clear Hok. induction Hs as [w|w1 w2 w3 Hstep _ IH]; [done|]. etrans; [|exact IH].
    destruct Hstep as [o w r w2 Hr|w t _]; [by eapply op_evolves|by apply evolve_same]. }
  split; [by apply Ho|]. intros k e He. destruct (Hm k e He) as (e' & He' & Hmv).
  exists e'. split; [done|]. split; [done|]. intros Hset. by apply settled_final.
Qed.
End Reachability.

Section ReachabilityWitness.
Import Example_.

Lemma one_escrow_ok d e : escrow_wf e → escrows_ok (escrows (with_escrow d e)).
Proof.
  intros He. split; [apply one_escrow_indexed|].
  change (escrows (with_escrow d e)) with ({[eid := e]} : gmap string Escrow).
  by apply map_Forall_singleton.
Qed.

(** A delivery under way is released, then an admin tries to refund it. *)
Lemma escrow_reachability_witness :
  let w := under_way in
  let w1 := (run (exec (OpRelease (release_input "tx-2"))) w).2 in
  let w2 := (run (exec (OpResolve resolve_input)) w1).2 in
  escrows_ok (escrows w2) ∧ ∃ e', escrows w2 !! eid = Some e' ∧ e_status e' = EscrowStatus.RELEASED.
Proof.
  intros w w1 w2.
  assert (escrows_ok (escrows w)) as Hok.
  { apply one_escrow_ok. split; intros ?; first [discriminate|by eexists]. }
  assert (rtc service_step w w1) as H1.
  { apply rtc_once. eapply step_op. apply surjective_pairing. }
  assert (rtc service_step w1 w2) as H2.
  { apply rtc_once. eapply step_op. apply surjective_pairing. }
  destruct (escrow_reachability w w1 Hok H1) as [Hok1 _].
  destruct (escrow_reachability w1 w2 Hok1 H2) as [Hok2 Hm].
  split; [exact Hok2|].
  assert (escrows w1 !! eid = Some (released (release_input "tx-2") t0 (esc EscrowStatus.LOCKED)))
    as He1 by reflexivity.
  destruct (Hm eid _ He1) as (e' & He' & _ & Hst). exists e'. split; [exact He'|].
  rewrite Hst; reflexivity.
Defined.

(** The clock passes the expiry of the locked escrow. *)
Lemma scanForExpiredEscrows_correct_witness :
  let w := under_way <| now_ms := (t0 + 90000000)%Z |> in
  ∃ res w', run scanForExpiredEscrows w = (inr res, w') ∧
    Doc eid (expired_at (t0 + 90000000) (Some 1000%Z) (esc EscrowStatus.LOCKED)) ∈ flaggedEscrows res.
Proof.
  intros w. destruct (scanForExpiredEscrows_correct w) as (res & w' & Hr & _ & Hf & _).
  exists res, w'. split; [exact Hr|]. apply Hf.
  exists (esc EscrowStatus.LOCKED). split; [reflexivity|]. split; reflexivity.
Defined.

Lemma scanLapsedFundingWindows_correct_witness :
  let w := with_delivery (dlv DeliveryStatus.PENDING None) <| now_ms := (t0 + 2000)%Z |> in
  ∃ res w', run scanLapsedFundingWindows w = (inr res, w') ∧ did ∈ cancelledDeliveryIds res.
Proof.
  intros w. destruct (scanLapsedFundingWindows_correct w) as (res & w' & Hr & _ & _ & Hin & _).
  exists res, w'. split; [exact Hr|]. apply Hin.
  exists (dlv DeliveryStatus.PENDING None). split; reflexivity.
Defined.

(** The lapse scan races with the assignment of the delivery it read. *)
Lemma cancellations_interleaved_witness :
  let d := dlv DeliveryStatus.PENDING None in
  let w := with_delivery d <| now_ms := (t0 + 2000)%Z |> in
  let w' := (interleave [0; 1; 1; 1; 0; 0]%nat
    ((λ r : hydrated Delivery + string * DeliveryStatus.t,
        match r with
        | inl d => cancelLapsedFundingWindow d FUNDING_WINDOW_LAPSED_REASON
        | inr (id, s) => updateStatus id s system_actor
        end) <$> [inl (Doc did d); inr (did, DeliveryStatus.ASSIGNED)]) w).2 in
  ∃ d', deliveries w' !! did = Some d' ∧ moves d d'.
Proof.
  intros d w w'.
  apply (cancellations_interleaved [inl (Doc did d); inr (did, DeliveryStatus.ASSIGNED)]
    [0; 1; 1; 1; 0; 0]%nat w did d).
  reflexivity.
Defined.
End ReachabilityWitness.
