(* ===== verification/FundingReplay.v ===== *)
(** * Funding events delivered again

    Indexers deliver an [escrow_funded] event more than once, at any distance
    in time: what [recordEscrowFunded] does with an event it has accepted
    before, whatever the escrow and delivery services did in between. *)
From S2P Require Import Prelude JsLib Models Repositories Pagination Currency ProofOfDelivery RedisLock DeliveryService EscrowService EscrowFacts EscrowInvariants.

(** ** What the checks of a funding event read is never changed *)

(** The terms of a delivery: its asset, its amount, and that it has left
    [PENDING]. *)
Record same_terms (d d' : Delivery) : Prop := {
  st_asset : escrowAsset d' = escrowAsset d;
  st_amount : escrowAmount d' = escrowAmount d;
  st_open : status d ≠ DeliveryStatus.PENDING → status d' ≠ DeliveryStatus.PENDING
}.
#[export] Instance same_terms_preorder : PreOrder same_terms.
Proof. split; [by split|]. intros d1 d2 d3 [] []. split; [by etrans..|auto]. Qed.

Record same_asset (e e' : Escrow) : Prop := {
  sa_code : assetCode e' = assetCode e;
  sa_issuer : assetIssuer e' = assetIssuer e
}.
#[export] Instance same_asset_preorder : PreOrder same_asset.
Proof. split; [by split|]. intros e1 e2 e3 [] []. split; by etrans. Qed.

(** Every document of a collection is kept up to [R]. *)
Definition kept {A} (R : relation A) (m m' : gmap string A) : Prop :=
  ∀ k a, m !! k = Some a → ∃ a', m' !! k = Some a' ∧ R a a'.
#[export] Instance kept_preorder {A} (R : relation A) `{!PreOrder R} : PreOrder (kept R).
Proof.
  split; [intros m k a Ha; by exists a|]. intros m1 m2 m3 H1 H2 k a Ha.
  destruct (H1 k a Ha) as (b & Hb & Hab). destruct (H2 k b Hb) as (c & Hc & Hbc).
  exists c. split; [done|by etrans].
Qed.

Lemma kept_insert {A} (R : relation A) `{!PreOrder R} m k a a' :
  m !! k = Some a → R a a' → kept R m (<[k := a']> m).
Proof.
  intros Ha HR j b Hb. destruct (decide (k = j)) as [<-|].
  - exists a'. rewrite lookup_insert_eq. simplify_eq. done.
  - exists b. rewrite lookup_insert_ne by done. split; [done|reflexivity].
Qed.

Definition terms_kept (w w' : World) : Prop := kept same_terms (deliveries w) (deliveries w').
Definition assets_kept (w w' : World) : Prop := kept same_asset (escrows w) (escrows w').
Definition both_kept (w w' : World) : Prop := terms_kept w w' ∧ assets_kept w w'.
#[export] Instance terms_kept_preorder : PreOrder terms_kept.
Proof.
  split; [intros w; unfold terms_kept; reflexivity|].
  intros w1 w2 w3. apply (transitivity (R := kept same_terms)).
Qed.
#[export] Instance assets_kept_preorder : PreOrder assets_kept.
Proof.
  split; [intros w; unfold assets_kept; reflexivity|].
  intros w1 w2 w3. apply (transitivity (R := kept same_asset)).
Qed.
#[export] Instance both_kept_preorder : PreOrder both_kept.
Proof. split; [intros w; by split|]. intros w1 w2 w3 [? ?] [? ?]. split; by etrans. Qed.

Lemma terms_same w w' : deliveries w' = deliveries w → terms_kept w w'.
Proof. unfold terms_kept. intros ->. reflexivity. Qed.
Lemma assets_same w w' : escrows w' = escrows w → assets_kept w w'.
Proof. unfold assets_kept. intros ->. reflexivity. Qed.
Lemma both_same w w' : deliveries w' = deliveries w → escrows w' = escrows w → both_kept w w'.
Proof. unfold both_kept, terms_kept, assets_kept. intros -> ->. split; reflexivity. Qed.

Section Footprints.
Context `{E : Env, C : DeliveryConsumers, COk : !DeliveryConsumersOk}.

Lemma both_reads {A} (f : World → A) : confined both_kept (reads f).
Proof. apply confined_reads, _. Qed.

Lemma both_delivery_save d f :
  (∀ x, same_terms x (f x)) → confined both_kept (DeliveryRepository.save d f).
Proof.
  intros Hf w. cbn. split; [|done]. destruct (deliveries w !! _id d) as [x|] eqn:Hx; [|done].
  split; [|by apply assets_same]. eapply (kept_insert same_terms); [exact Hx|]. destruct (Hf x). by split.
Qed.

Lemma both_delivery_update id P f :
  (∀ x, same_terms x (f x)) → confined both_kept (DeliveryRepository.updateOneById id P f).
Proof.
  intros Hf w. cbn. split; [|done].
  destruct (DeliveryRepository.find_and_update _ _ w) as [o w'] eqn:Hu.
  apply DeliveryRepository.find_and_update_inv in Hu as [(_ & -> & _)|(d & d' & Hs & -> & _ & ->)];
    [done|]. apply DeliveryRepository.by_id_if_Some in Hs as (-> & Hd & _).
  split; [|by apply assets_same]. eapply (kept_insert same_terms); [exact Hd|]. destruct (Hf (body d)). by split.
Qed.

Lemma both_escrow_save d f :
  (∀ x, same_asset x (f x)) → confined both_kept (EscrowRepository.save d f).
Proof.
  intros Hf w. cbn [confined]. split; [|done].
  destruct (run (EscrowRepository.save d f) w) as [r w'] eqn:Hr. pose proof Hr as Hi.
  unfold EscrowRepository.save in Hr. rewrite run_atomic_try in Hr.
  unfold EscrowRepository.save in Hi. rewrite Hr. cbn [snd]. clear Hr.
  apply EscrowRepository.run_escrow_save_inv in Hi as [(er & _ & ->)|(e & He & _ & _ & ->)]; [done|].
  split; [by apply terms_same|]. eapply (kept_insert same_asset); [exact He|]. destruct (Hf e). by split.
Qed.

Lemma both_core w w' : same_core w w' → both_kept w w'.
Proof. intros []. by apply both_same. Qed.
Lemma both_emit d ev a : confined both_kept (emitMilestone d ev a).
Proof. eapply confined_mono; [|apply emitMilestone_confined]. intros w w' []. by apply both_same. Qed.
Lemma both_notify d s : confined both_kept (notify_stakeholders d s).
Proof. eapply confined_mono; [apply both_core|apply notify_stakeholders_confined]. Qed.
Lemma both_audit l : confined both_kept (createAuditLog l).
Proof. intros w. split; [by apply both_same|done]. Qed.
Lemma both_acquire r : confined both_kept (acquireLock r).
Proof.
  unfold acquireLock. induction REDIS_LOCK_RETRY_COUNT as [|n IH]; cbn [acquire_loop];
    (apply confined_bind; [intros w; split; [cbn; case_match; by apply both_same|done]|]); by intros [t|].
Qed.
Lemma both_withLock {A} r (p : action A) : confined both_kept p → confined both_kept (withLock r p).
Proof.
  intros Hp. apply confined_bind; [apply both_acquire|]. intros t. apply confined_finally; [done|].
  intros w. split; [|done]. cbn. unfold unlock. case_bool_decide; by apply both_same.
Qed.

(** A status other than [PENDING] keeps the terms. *)
Lemma terms_status s d : s ≠ DeliveryStatus.PENDING → same_terms d (set status (λ _, s) d).
Proof. intros Hs. by split. Qed.
End Footprints.

(** Confinement of a straight-line program, access by access. *)
Ltac both_step :=
  first
    [ done
    | apply both_withLock | apply both_reads | apply both_emit | apply both_notify | apply both_audit
    | apply both_delivery_save; intros ?; by split
    | apply both_delivery_update; intros ?; by split
    | apply both_escrow_save; intros ?; by split
    | apply confined_throw_if | apply confined_or_throw
    | apply confined_bind; [|intros ?] | apply confined_try_catch; [|intros ?]
    | apply confined_for_each; intros ? | apply confined_fold_prog; intros ? ?
    | case_match ].

Section Operations.
Context `{E : Env, C : DeliveryConsumers, COk : !DeliveryConsumersOk}.

Lemma cancelLapsed_both d reason : confined both_kept (cancelLapsedFundingWindow d reason).
Proof.
  unfold cancelLapsedFundingWindow, recordFundingWindowAudit, isFundingWindowLapsed, now.
  repeat both_step.
Qed.

Lemma apply_status_both e s : s ≠ DeliveryStatus.PENDING → confined both_kept (applyDeliveryStatus e s).
Proof.
  intros Hs. unfold applyDeliveryStatus, DeliveryRepository.model_findById.
  apply confined_bind; [apply both_reads|]. intros [d|]; [|done]. case_match; [done|].
  apply confined_bind; [|intros ?; apply both_notify].
  apply both_delivery_save. intros x. by apply terms_status.
Qed.

Lemma release_both i : confined both_kept (releaseEscrow i).
Proof.
  unfold releaseEscrow, release_locked, find_escrow, complete_delivery, assertProofOfDeliveryExists, now,
    EscrowRepository.findOne, EscrowRepository.model_findById, DeliveryRepository.model_findById.
  repeat both_step.
Qed.

Lemma resolve_both i : confined both_kept (resolveEscrow i).
Proof.
  unfold resolveEscrow, resolve_locked, writeAuditLog, now, EscrowRepository.model_findById.
  apply confined_bind; [both_step|]. intros _. apply confined_bind; [both_step|]. intros r.
  assert (∀ d t, confined both_kept (EscrowRepository.save d
    (λ x, stamp_resolution t (rs_adminId i) (rs_reason i) (resolve_update r t x)))) as Hs
    by (intros d t; apply both_escrow_save; intros x; by destruct r).
  assert (∀ e, confined both_kept (match resolution_delivery r with
    | Some s => applyDeliveryStatus e s | None => mret tt end)) as Ha
    by (intros e; destruct r; [by apply apply_status_both..|done]).
  repeat first [apply Hs|apply Ha|both_step].
Qed.

Lemma retry_both i : confined both_kept (retryExpiredEscrow i).
Proof.
  unfold retryExpiredEscrow, retry_locked, writeAuditLog, now, EscrowRepository.model_findById.
  apply confined_bind; [both_step|]. intros _. apply confined_bind; [both_step|]. intros a.
  assert (∀ d t, confined both_kept (EscrowRepository.save d
    (λ x, stamp_resolution t (rt_adminId i) (rt_reason i) (retry_update a t x)))) as Hs
    by (intros d t; apply both_escrow_save; intros x; by destruct a).
  assert (∀ e, confined both_kept (applyDeliveryStatus e (retry_delivery a))) as Ha
    by (intros e; apply apply_status_both; by destruct a).
  repeat first [apply Hs|apply Ha|both_step].
Qed.

Lemma expire_both U t l : confined both_kept (EscrowRepository.updateMany U (expire_update t l)).
Proof.
  intros w. split; [|done]. split; [by apply terms_same|]. intros k e He. unfold update_many. rec_simpl.
  rewrite map_lookup_imap, He. cbn. eexists. split; [done|]. by destruct (U k e).
Qed.

Lemma scan_expired_both : confined both_kept scanForExpiredEscrows.
Proof.
  assert (∀ e, confined both_kept (cancelDeliveryForExpiredEscrow e)) as Hc.
  { intros e. unfold cancelDeliveryForExpiredEscrow, DeliveryRepository.model_findById. repeat both_step. }
  unfold scanForExpiredEscrows. apply confined_bind; [apply both_reads|]. intros t.
  apply confined_bind; [apply both_reads|]. intros [|c cs]; [done|].
  apply confined_bind; [apply confined_try_catch; [apply confined_bind; [apply both_reads|done]|done]|]. intros ledger.
  apply confined_bind; [apply expire_both|]. intros _.
  apply confined_bind; [apply both_reads|]. intros flagged.
  by apply confined_bind; [apply confined_for_each|].
Qed.

Lemma scan_lapsed_both : confined both_kept scanLapsedFundingWindows.
Proof.
  unfold scanLapsedFundingWindows. apply confined_bind; [apply both_reads|]. intros t.
  apply confined_bind; [apply both_reads|]. intros l.
  apply confined_bind; [|done]. apply confined_fold_prog. intros ids d.
  apply confined_try_catch; [|done]. by apply confined_bind; [apply cancelLapsed_both|].
Qed.

Lemma assign_both id d : confined both_kept (assignDriver id d).
Proof.
  unfold assignDriver, DeliveryRepository.model_findById, EscrowRepository.findOne. repeat both_step.
Qed.

(** A status update writes nothing, or the status of one delivery and logs. *)
Lemma updateStatus_effect id next a w r w' : run (updateStatus id next a) w = (r, w') →
  w' = w ∨ ∃ d, deliveries w !! id = Some d ∧ next ∈ ALLOWED_TRANSITIONS (status d) ∧
    logs_only (w <| deliveries ::= <[id := moved next (now_ms w) d]> |>) w'.
Proof.
  rewrite updateStatus_run. destruct (isValidObjectId id); cbn [negb]; [|intros [= _ <-]; by left].
  destruct (deliveries w !! id) as [d|]; [|intros [= _ <-]; by left].
  case_bool_decide; [intros [= _ <-]; by left|].
  destruct (includes next _) eqn:Hin; [|intros [= _ <-]; by left].
  cbn [negb]. case_match; [intros [= _ <-]; by left|].
  intros Hw%(f_equal snd). cbv zeta in Hw. cbn [snd] in Hw. rewrite <-Hw. right.
  exists d. split; [done|]. split; [by apply includes_true|].
  match goal with |- context [run (emitMilestone ?d ?ev ?b) ?w1] =>
    destruct (emitMilestone_run d ev b w1) as (r' & w2 & -> & Hl) end. exact Hl.
Qed.

Lemma updateStatus_both id next a w r w' : run (updateStatus id next a) w = (r, w') → both_kept w w'.
Proof.
  intros [->|(d & Hd & Hin & Hl)]%updateStatus_effect; [done|]. split.
  - unfold terms_kept. rewrite (lo_deliveries _ _ Hl).
    eapply (kept_insert same_terms); [exact Hd|]. split; [done..|]. intros _ Hp.
    change (next = DeliveryStatus.PENDING) in Hp. subst next. revert Hin.
    apply (bool_decide_eq_false_1 _). by destruct (status d).
  - apply assets_same. by rewrite (lo_escrows _ _ Hl).
Qed.

Lemma updateStatus_escrows id next a w r w' :
  run (updateStatus id next a) w = (r, w') → escrows w' = escrows w.
Proof. intros [->|(d & _ & _ & Hl)]%updateStatus_effect; [done|]. by rewrite (lo_escrows _ _ Hl). Qed.

(** *** An accepted event stays acceptable *)

(** What makes an event a replay: the terms of its delivery, and an escrow
    of its contract, delivery and asset that carries its transaction. *)
Record accepted (i : EscrowFundedInput) (a : Asset) (eid : string) (w : World) : Prop := {
  ac_ok : escrows_ok (escrows w);
  ac_id : isValidObjectId (ef_deliveryId i) = true;
  ac_asset : validateAsset (mkAsset (ef_asset i) (ef_assetIssuer i)) = inr a;
  ac_positive : Num.positive (ef_amount i) = true;
  ac_delivery : ∃ d, deliveries w !! ef_deliveryId i = Some d ∧ status d ≠ DeliveryStatus.PENDING ∧
    assertSameAsset (nullish (escrowAsset d) XLM) a = inr tt ∧
    (∀ x, escrowAmount d = Some x → Num.eqb x (ef_amount i) = true);
  ac_escrow : ∃ e, escrows w !! eid = Some e ∧ e_contractId e = Some (ef_contractId i) ∧
    delivery e = ef_deliveryId i ∧ assetCode e ≠ "" ∧ asset_changed e a = false ∧
    has_tx (ef_transactionHash i) e = true
}.

Lemma has_tx_prefix h e e' :
  transactions e `prefix_of` transactions e' → has_tx h e = true → has_tx h e' = true.
Proof.
  intros [l Hl] Ht. unfold has_tx in *. apply some_true in Ht as (x & Hx & Hh).
  apply some_true. exists x. rewrite Hl, elem_of_app. auto.
Qed.

(** Another funding event leaves the asset of a written escrow alone. *)
Lemma fund_asset i w r w' k e :
  run (recordEscrowFunded i) w = (r, w') → escrows w !! k = Some e → assetCode e ≠ "" →
  ∃ e', escrows w' !! k = Some e' ∧ same_asset e e'.
Proof.
  intros Hr He Hne.
  apply recordEscrowFunded_inv in Hr as [(er & _ & -> & _)|(d & a & _ & Hfc & Hcase)]; [by exists e|].
  destruct Hcase as [(e0 & _ & _ & _ & ->)|(eid & Hold & Hid & _ & _ & Hes & _)]; [by exists e|].
  rewrite Hes. destruct (decide (eid = k)) as [->|Hk]; [|exists e; by rewrite lookup_insert_ne].
  rewrite lookup_insert_eq. eexists. split; [done|].
  destruct (contract_escrow i w) as [e0|] eqn:Hco; cbn in Hid; [|congruence].
  assert (body e0 = e) as <- by congruence. unfold funding_conflict in Hfc.
  destruct (match delivery_escrow i w with Some _ => _ | None => _ end); [done|].
  destruct (String.eqb_spec (delivery (body e0)) (ef_deliveryId i)); [|done]. cbn [negb] in Hfc.
  destruct (asset_changed (body e0) a) eqn:Hach; [done|]. unfold asset_changed in Hach.
  apply andb_false_iff in Hach as [Hach|Hach].
  { apply Str.truthy_spec in Hne. congruence. }
  apply orb_false_iff in Hach as [Hc Hi].
  apply negb_false_iff, String.eqb_eq in Hc. apply negb_false_iff, bool_decide_eq_true in Hi.
  split.
  - by change (code a = assetCode (body e0)).
  - change (set_defined (issuer a) (assetIssuer (body e0)) = assetIssuer (body e0)).
    rewrite Hi. by destruct (issuer a).
Qed.

Lemma fund_terms i w r w' : run (recordEscrowFunded i) w = (r, w') → terms_kept w w'.
Proof.
  intros [(er & _ & _ & [Hd|(d & Hd & _ & Hd')])|(d & a & Hg & _ & Hcase)]%recordEscrowFunded_inv.
  - by apply terms_same.
  - unfold terms_kept. rewrite Hd'. eapply (kept_insert same_terms); [done|by split].
  - destruct Hcase as [(e & _ & _ & _ & ->)|(eid & _ & _ & _ & _ & _ & Hds)]; [by apply terms_same|].
    unfold terms_kept, delivery_after in *. rewrite Hds, (alter_insert_if _ _ d) by apply Hg.
    eapply (kept_insert same_terms); [apply Hg|]. case_bool_decide; by split.
Qed.

(** What the escrow service, the status machine and the assignment of
    drivers do, and the passing of time. *)
Inductive later_step : relation World :=
  | later_service w w' : service_step w w' → later_step w w'
  | later_status id next a w r w' : run (updateStatus id next a) w = (r, w') → later_step w w'
  | later_assign id dr w r w' : run (assignDriver id dr) w = (r, w') → later_step w w'.

Lemma exec_terms o w r w' : run (exec o) w = (r, w') →
  terms_kept w w' ∧ ∀ k e, escrows w !! k = Some e → assetCode e ≠ "" →
    ∃ e', escrows w' !! k = Some e' ∧ same_asset e e'.
Proof.
  assert (∀ A (p : action A), confined both_kept p → run (_ ← p; mret tt) w = (r, w') →
    terms_kept w w' ∧ ∀ k e, escrows w !! k = Some e → assetCode e ≠ "" →
    ∃ e', escrows w' !! k = Some e' ∧ same_asset e e') as Hboth.
  { intros A p Hp (r' & Hr)%exec_inv. pose proof (confined_run both_kept p w Hp) as [Ht Ha].
    rewrite Hr in Ht, Ha. split; [done|]. intros k e He _. by apply Ha. }
  destruct o; cbn [exec].
  - intros (r' & Hr)%exec_inv. split; [by eapply fund_terms|]. intros k e. by eapply fund_asset.
  - apply Hboth, release_both.
  - apply Hboth, resolve_both.
  - apply Hboth, retry_both.
  - apply Hboth, scan_expired_both.
  - apply Hboth, scan_lapsed_both.
Qed.

Lemma assign_escrows id dr : confined keeps_escrows (assignDriver id dr).
Proof.
  unfold assignDriver, DeliveryRepository.model_findById, EscrowRepository.findOne.
  repeat first [done|apply emit_keeps|apply delivery_save_confined|apply confined_throw_if
    |apply confined_or_throw|by apply confined_reads|apply confined_bind; [|intros ?]].
Qed.

Lemma later_keeps w w' : later_step w w' →
  escrows_evolve w w' ∧ terms_kept w w' ∧
  ∀ k e, escrows w !! k = Some e → assetCode e ≠ "" →
    ∃ e', escrows w' !! k = Some e' ∧ same_asset e e'.
Proof.
  intros [w1 w2 [o w3 r w4 Hr|w3 t _]|id next a w1 r w2 Hr|id dr w1 r w2 Hr].
  - split; [by eapply op_evolves|by eapply exec_terms].
  - split; [by apply evolve_same|]. split; [by apply terms_same|]. intros k e He _. by exists e.
  - pose proof (updateStatus_both _ _ _ _ _ _ Hr) as [Ht Ha].
    split; [|split; [done|intros k e He _; by apply Ha]].
    apply evolve_same. by eapply updateStatus_escrows.
  - pose proof (confined_run both_kept _ w1 (assign_both id dr)) as [Ht Ha]. rewrite Hr in Ht, Ha.
    split; [|split; [done|intros k e He _; by apply Ha]].
    pose proof (confined_run keeps_escrows _ w1 (assign_escrows id dr)) as Hk. rewrite Hr in Hk.
    by apply evolve_same, Hk.
Qed.

Lemma later_accepted i a eid w w' : later_step w w' → accepted i a eid w → accepted i a eid w'.
Proof.
  intros ([Hok Hmv] & Ht & Ha)%later_keeps [Hes Hid Has Hpos (d & Hd & Hs & Hsa & Ham) (e & He & Hc & Hde & Hne & Hach & Htx)].
  destruct (Ht _ _ Hd) as (d' & Hd' & [Ht1 Ht2 Ht3]).
  destruct (Ha _ _ He Hne) as (e' & He' & [Hcode Hiss]).
  destruct (Hmv _ _ He) as (e2 & He2 & Hmm). assert (e2 = e') as -> by congruence.
  destruct Hmm as [_ Hmd Hmc Hmt]. split; [by apply Hok|done..| |].
  - exists d'. rewrite Ht1. split; [done|]. split; [by apply Ht3|]. split; [done|]. intros x. rewrite Ht2. apply Ham.
  - exists e'. rewrite Hmc, Hmd, Hcode. do 4 (split; [done|]). split; [|by eapply has_tx_prefix].
    unfold asset_changed in *. by rewrite Hcode, Hiss.
Qed.

(** What an accepted event does when it comes again. *)
Lemma accepted_replay i a eid w : accepted i a eid w →
  ∃ d e, deliveries w !! ef_deliveryId i = Some d ∧ escrows w !! eid = Some e ∧
    has_tx (ef_transactionHash i) e = true ∧
    run (recordEscrowFunded i) w =
      (if decide (status d = DeliveryStatus.CANCELLED)
       then inl (AppError (fundingRejectedMessage (Doc (ef_deliveryId i) d)) Http.CONFLICT)
       else inr (Doc eid e), w).
Proof.
  intros [[Hix _] Hid Has Hpos (d & Hd & Hs & Hsa & Ham) (e & He & Hc & Hde & Hne & Hach & Htx)].
  exists d, e. do 3 (split; [done|]). case_decide as Hcan.
  { unfold recordEscrowFunded, DeliveryRepository.findById. rewrite Hid. cbn [negb].
    rewrite run_bind, run_throw_if. cbn [fst snd].
    rewrite run_bind, DeliveryRepository.run_model_findById, Hd. cbn [fst snd fmap option_fmap option_map].
    rewrite run_bind, run_or_throw. cbn [fst snd body _id].
    rewrite run_bind, run_throw_if, bool_decide_true by done. done. }
  assert (contract_escrow i w = Some (Doc eid e)) as Hco.
  { apply find_one_unique; [done|by apply bool_decide_eq_true|].
    intros k e2 Hk Hk2%bool_decide_eq_true. destruct (decide (k = eid)) as [|Hn]; [done|].
    pose proof (Hix _ _ _ _ Hk He Hn) as Hcl. apply EscrowRepository.clash_false in Hcl as (_ & Hcc & _).
    exfalso. by apply (Hcc _ Hk2). }
  assert (delivery_escrow i w = Some (Doc eid e)) as Hdo.
  { apply find_one_unique; [done|by apply String.eqb_eq|].
    intros k e2 Hk Hk2%String.eqb_eq. destruct (decide (k = eid)) as [|Hn]; [done|].
    pose proof (Hix _ _ _ _ Hk He Hn) as Hcl. apply EscrowRepository.clash_false in Hcl as (Hcc & _). congruence. }
  apply (recordEscrowFunded_replay i w d a).
  - split; try done. unfold window_lapsed. by rewrite bool_decide_false by done.
  - done.
  - rewrite Hdo. unfold funding_conflict. cbn [body]. rewrite bool_decide_true by done. cbn [negb].
    rewrite Hde, String.eqb_refl. cbn [negb]. by rewrite Hach.
  - done.
Qed.

(** An event that was accepted with an effect is a replay from then on. *)
Lemma first_accepted i w e' w' :
  escrows_ok (escrows w) → (∀ k e, escrows w !! k = Some e → assetCode e ≠ "") →
  run (recordEscrowFunded i) w = (inr e', w') → w' ≠ w → ∃ a, accepted i a (_id e') w'.
Proof.
  intros Hok Hcode Hr Hne.
  assert (escrows_ok (escrows w')) as Hok' by (by eapply fund_evolves).
  apply recordEscrowFunded_inv in Hr as [(er & [=] & _)|(d & a & Hg & Hfc & Hcase)].
  destruct Hcase as [(e & _ & _ & _ & ->)|(eid & Hold & Hid & [= ->] & Hc & Hes & Hds)]; [done|].
  cbn [_id]. exists a.
  set (e1 := funded_body i (ef_deliveryId i) a (now_ms w) (contract_escrow i w)) in *.
  assert (escrows w' !! eid = Some e1) as He1 by (by rewrite Hes, lookup_insert_eq).
  destruct Hg as [Hv Hd Ho Hw Ha Hsa Hp Ham].
  destruct (delivery_after_lookup (ef_deliveryId i) DeliveryStatus.FUNDED d w Hd)
    as (d' & Hd' & Hs' & Hea & Hem & _).
  destruct (funded_no_conflict i a (now_ms w) (contract_escrow i w) eid (escrows w'))
    as (H1 & H2 & H3); [|apply Hok'|exact He1|].
  { intros e He. pose proof He as Hf. apply find_one_Some in Hf as [Hm Hb%bool_decide_eq_true].
    split; [done|]. rewrite He in Hfc. unfold funding_conflict in Hfc.
    destruct (match delivery_escrow i w with Some _ => _ | None => _ end); [done|].
    destruct (String.eqb_spec (delivery (body e)) (ef_deliveryId i)); [|done]. cbn [negb] in Hfc.
    destruct (asset_changed (body e) a) eqn:?; [done|]. split; [done|]. by split; [eapply Hcode|]. }
  split; [done..| |].
  - exists d'. rewrite Hds. split; [done|]. split; [by rewrite Hs'|]. rewrite Hea.
    split; [done|]. intros x. rewrite Hem. apply Ham.
  - exists e1. split; [done|]. apply find_one_Some in H1 as [_ Hc1%bool_decide_eq_true].
    apply find_one_Some in H2 as [_ Hd1%String.eqb_eq]. cbn [body] in Hc1, Hd1.
    do 2 (split; [done|]). split; [|split].
    + intros Hemp. pose proof (validateAsset_inv _ _ Ha) as [Hcok _].
      assert (assetCode e1 = code a) as Hc0 by (unfold e1, funded_body; by destruct (contract_escrow i w)).
      rewrite Hc0 in Hemp. by rewrite Hemp in Hcok.
    + unfold funding_conflict in H3. cbn [body] in H3. rewrite bool_decide_true in H3 by done.
      cbn [negb] in H3. rewrite Hd1, String.eqb_refl in H3. cbn [negb] in H3.
      fold e1 in H3. by destruct (asset_changed e1 a).
    + unfold e1, funded_body. destruct (contract_escrow i w) as [e|].
      * eapply has_tx_last. reflexivity.
      * apply (has_tx_last _ fund (ef_ledger i) (now_ms w) []). reflexivity.
Qed.

(** C6: indexers deliver a funding event more than once.  After an event
    has been accepted with an effect, whatever funding events, releases,
    resolutions, retries, scans, status changes and driver assignments follow
    and however much time passes, its escrow stays on record with the event's
    transaction, and the same event changes nothing at all: it is answered
    with that escrow as it is by then, unless the delivery was cancelled in the
    meantime, in which case it is refused with 409. *)
Theorem recordEscrowFunded_idempotent i w e' w' w2 :
  escrows_ok (escrows w) → (∀ k e, escrows w !! k = Some e → assetCode e ≠ "") →
  run (recordEscrowFunded i) w = (inr e', w') → w' ≠ w → rtc later_step w' w2 →
  ∃ d e, deliveries w2 !! ef_deliveryId i = Some d ∧ escrows w2 !! _id e' = Some e ∧
    has_tx (ef_transactionHash i) e = true ∧
    run (recordEscrowFunded i) w2 =
      (if decide (status d = DeliveryStatus.CANCELLED)
       then inl (AppError (fundingRejectedMessage (Doc (ef_deliveryId i) d)) Http.CONFLICT)
       else inr (Doc (_id e') e), w2).
Proof.
  intros Hok Hcode Hr Hne Hs. destruct (first_accepted i w e' w' Hok Hcode Hr Hne) as (a & Hac).
  apply (accepted_replay i a). clear Hr Hne.
  induction Hs as [w'|w' w1 w2 Hstep _ IH]; [done|]. apply IH. by eapply later_accepted.
Qed.
End Operations.

Section ReplayWitness.
Import Example_.

(** The example's delivery is funded, a driver is assigned, a day passes and
    the event comes again; had the delivery been cancelled instead, the event
    would be refused. *)
Lemma recordEscrowFunded_idempotent_witness :
  let w := with_delivery (dlv DeliveryStatus.PENDING None) in
  let w' := (run (recordEscrowFunded fund_input) w).2 in
  let w1 := (run (assignDriver did "driver-1") w').2 <| now_ms := (t0 + 86400000)%Z |> in
  let w2 := (run (updateStatus did DeliveryStatus.CANCELLED system_actor) w1).2 in
  (∃ e, run (recordEscrowFunded fund_input) w1 = (inr e, w1)) ∧
  (∃ m, run (recordEscrowFunded fund_input) w2 = (inl (AppError m Http.CONFLICT), w2)).
Proof.
  intros w w' w1 w2.
  assert (escrows_ok (escrows w)) as Hok.
  { split; [apply no_escrows_indexed|]. change (escrows w) with (∅ : gmap string Escrow).
    apply map_Forall_empty. }
  assert (∃ e', (run (recordEscrowFunded fund_input) w).1 = inr e') as [e' Hr1]
    by (eexists; vm_compute; reflexivity).
  assert (run (recordEscrowFunded fund_input) w = (inr e', w')) as Hr
    by (rewrite <-Hr1; apply surjective_pairing).
  assert (w' ≠ w) as Hne.
  { intros Heq. apply (f_equal (λ x, length (map_to_list (escrows x)))) in Heq.
    vm_compute in Heq. discriminate Heq. }
  assert (rtc later_step w' w1) as H1.
  { eapply rtc_l; [eapply later_assign, surjective_pairing|]. apply rtc_once, later_service.
    apply step_time. vm_compute. discriminate. }
  assert (rtc later_step w' w2) as H2.
  { etrans; [exact H1|]. apply rtc_once. eapply later_status, surjective_pairing. }
  split.
  - destruct (recordEscrowFunded_idempotent fund_input w e' w' w1 Hok (no_escrows_coded _) Hr Hne H1)
      as (d & e & Hd & _ & _ & Hrun).
    exists (Doc (_id e') e). rewrite Hrun, decide_False; [reflexivity|].
    intros Hc. assert ((status <$> deliveries w1 !! did) = Some DeliveryStatus.ASSIGNED) as Hst
      by (vm_compute; reflexivity).
    change (ef_deliveryId fund_input) with did in Hd. rewrite Hd in Hst. cbn in Hst. congruence.
  - destruct (recordEscrowFunded_idempotent fund_input w e' w' w2 Hok (no_escrows_coded _) Hr Hne H2)
      as (d & e & Hd & _ & _ & Hrun).
    eexists. rewrite Hrun, decide_True; [reflexivity|].
    assert ((status <$> deliveries w2 !! did) = Some DeliveryStatus.CANCELLED) as Hst
      by (vm_compute; reflexivity).
    change (ef_deliveryId fund_input) with did in Hd. rewrite Hd in Hst. cbn in Hst. congruence.
Defined.
End ReplayWitness.
