(* ===== verification/EventLogs.v ===== *)
(** * The event log of the indexer

    The [EventLog] and [DlqEntry] collections ([src/src/models/EventLog.ts],
    [DlqEntry.ts]), the statics of the model, [src/src/services/eventLogService.ts]
    and the retry schedule of [src/src/utils/eventLogBackoff.ts]. *)
From S2P Require Import Prelude JsLib Models Pagination.

(** ** The collection *)
Module EventLogModel.
(** The unique index on [(transactionHash, eventType)]. *)
Definition same_event (tx : string) (ty : IndexedEventType) (l : EventLog) : bool :=
  String.eqb (transactionHash l) tx && bool_decide (eventType l = ty).

Definition indexed (m : gmap string EventLog) : Prop :=
  ∀ k1 l1 k2 l2, m !! k1 = Some l1 → m !! k2 = Some l2 →
    transactionHash l1 = transactionHash l2 → eventType l1 = eventType l2 → k1 = k2.

Definition stamp (t : Z) (l : EventLog) : EventLog := l <| l_updatedAt := t |>.

(** Update the selected document. *)
Definition find_and_update (sel : gmap string EventLog → option (hydrated EventLog))
    (f : EventLog → EventLog) (w : World) : option (hydrated EventLog) * World :=
  match sel w.(eventLogs) with
  | None => (None, w)
  | Some d =>
      let d' := stamp w.(now_ms) (f (body d)) in
      (Some (Doc (_id d) d'), w <| eventLogs ::= <[_id d := d']> |>)
  end.

Definition by_id_if (id : string) (P : EventLog → bool) (m : gmap string EventLog)
    : option (hydrated EventLog) :=
  d ← find_by_id id m; if P (body d) then Some d else None.

Section Ops.
Context `{Env}.

Definition findById (id : string) : action (option (hydrated EventLog)) :=
  reads (λ w, find_by_id id w.(eventLogs)).
Definition findOne (P : EventLog → bool) : action (option (hydrated EventLog)) :=
  reads (λ w, find_one P w.(eventLogs)).
Definition find (P : EventLog → bool) : action (list (hydrated EventLog)) :=
  reads (λ w, find_all P w.(eventLogs)).
Definition findByIdAndUpdate (id : string) (f : EventLog → EventLog)
  : action (option (hydrated EventLog)) :=
  atomic (find_and_update (find_by_id id) f).
Definition findOneAndUpdate (P : EventLog → bool) (f : EventLog → EventLog)
  : action (option (hydrated EventLog)) :=
  atomic (find_and_update (find_one P) f).
(** [findOneAndUpdate({_id: id, ...P}, f)]. *)
Definition updateOneById (id : string) (P : EventLog → bool) (f : EventLog → EventLog)
  : action (option (hydrated EventLog)) :=
  atomic (find_and_update (by_id_if id P) f).

(** [EventLog.create], and [new EventLog(data).save()]: the pre-save hook stamps
  [processedAt] on an entry that is already processed. *)
Definition create (l : EventLog) : action (hydrated EventLog) :=
  atomic_try (λ w,
  let id := newObjectId w.(nextId) in
  let w1 := w <| nextId ::= S |> in
  if bool_decide (is_Some (w.(eventLogs) !! id))
       || some (λ kv, same_event (transactionHash l) (eventType l) kv.2) (map_to_list w.(eventLogs))
  then (inl DuplicateKey, w1)
  else
      let l' := l <| processedAt ::= λ p,
                       if bool_decide (l_status l = EventLogStatus.processed)
                       then Some (nullish p w.(now_ms)) else p |>
                  <| l_createdAt := w.(now_ms) |> <| l_updatedAt := w.(now_ms) |> in
      (inr (Doc id l'), w1 <| eventLogs ::= <[id := l']> |>)).

(** *** Statics *)
Definition markAsProcessed (tx : string) (ty : IndexedEventType)
  : action (option (hydrated EventLog)) :=
  t ← now;
  findOneAndUpdate (same_event tx ty)
  (λ l, l <| l_status := EventLogStatus.processed |> <| processedAt := Some t |>).

Definition highest_first (l1 l2 : hydrated EventLog) : bool :=
  (ledgerSequence (body l2) <=? ledgerSequence (body l1))%Z.

Definition getLastProcessedLedger (ty : option IndexedEventType) : action Z :=
  l ← find (λ l, bool_decide (l_status l = EventLogStatus.processed)
                 && match ty with Some t => bool_decide (eventType l = t) | None => true end);
  mret (match sort_by highest_first l with d :: _ => ledgerSequence (body d) | [] => 0%Z end).

Definition eventExists (tx : string) (ty : IndexedEventType) : action bool :=
  found ← findOne (same_event tx ty);
  mret (bool_decide (is_Some found)).
End Ops.

Lemma log_find_and_update_inv sel f w o w' :
  find_and_update sel f w = (o, w') →
  (o = None ∧ w' = w ∧ sel (eventLogs w) = None) ∨
  (∃ d, sel (eventLogs w) = Some d ∧ o = Some (Doc (_id d) (stamp (now_ms w) (f (body d)))) ∧
     w' = w <| eventLogs ::= <[_id d := stamp (now_ms w) (f (body d))]> |>).
Proof.
  unfold find_and_update. destruct (sel _) as [d|] eqn:Hs; intros [= <- <-]; [|by left].
  right. by exists d.
Qed.

Lemma by_id_if_lookup id P m :
  by_id_if id P m = (l ← m !! id; if P l then Some (Doc id l) else None).
Proof.
  unfold by_id_if, find_by_id. by destruct (m !! id).
Qed.

Lemma run_findById id w : run (findById id) w = (inr (Doc id <$> eventLogs w !! id), w).
Proof. done. Qed.

Lemma run_findByIdAndUpdate_log id f w :
  run (findByIdAndUpdate id f) w =
    match eventLogs w !! id with
    | Some l => (inr (Some (Doc id (stamp (now_ms w) (f l)))),
                 w <| eventLogs ::= <[id := stamp (now_ms w) (f l)]> |>)
    | None => (inr None, w)
    end.
Proof.
  unfold findByIdAndUpdate. rewrite run_atomic. unfold find_and_update, find_by_id.
  by destruct (eventLogs w !! id).
Qed.

Lemma run_updateOneById_log id P f w :
  run (updateOneById id P f) w =
    match eventLogs w !! id with
    | Some l => if P l then (inr (Some (Doc id (stamp (now_ms w) (f l)))),
                             w <| eventLogs ::= <[id := stamp (now_ms w) (f l)]> |>)
                else (inr None, w)
    | None => (inr None, w)
    end.
Proof.
  unfold updateOneById. rewrite run_atomic. unfold find_and_update. rewrite by_id_if_lookup.
  destruct (eventLogs w !! id) as [l|]; cbn [mbind option_bind]; [|done].
  by destruct (P l).
Qed.
End EventLogModel.

(** ** The retry schedule *)
Section Backoff.
Context `{Env}.

Definition eventLogRetryDelayMs (attempt : Z) : Z :=
  let exponent := Z.max 0 (attempt - 1) in
  Z.min (EVENTLOG_RETRY_BASE_MS * 2 ^ exponent) EVENTLOG_RETRY_MAX_MS.

Definition nextEventLogRetryAt (attempt from : Z) : Z := (from + eventLogRetryDelayMs attempt)%Z.

Lemma retry_delay_bounds attempt :
  (0 < EVENTLOG_RETRY_BASE_MS ≤ EVENTLOG_RETRY_MAX_MS)%Z →
  (EVENTLOG_RETRY_BASE_MS ≤ eventLogRetryDelayMs attempt ≤ EVENTLOG_RETRY_MAX_MS)%Z.
Proof.
  intros Hb. unfold eventLogRetryDelayMs.
  assert (1 ≤ 2 ^ Z.max 0 (attempt - 1))%Z by (apply Z.pow_le_mono_r with (b := 0%Z); lia). nia.
Qed.

Lemma retry_delay_mono a1 a2 :
  (0 < EVENTLOG_RETRY_BASE_MS)%Z → (a1 ≤ a2)%Z →
  (eventLogRetryDelayMs a1 ≤ eventLogRetryDelayMs a2)%Z.
Proof.
  intros Hb Ha. unfold eventLogRetryDelayMs.
  assert (2 ^ Z.max 0 (a1 - 1) ≤ 2 ^ Z.max 0 (a2 - 1))%Z by (apply Z.pow_le_mono_r; lia). nia.
Qed.
End Backoff.

(** ** The event log service *)
Section EventLogService.
Context `{Env}.

(** The [eventData] argument: the fields a caller gives, over the schema's
    defaults. *)
Definition createEventLog (l : EventLog) : action (hydrated EventLog) :=
  exists_ ← (if Str.truthy (transactionHash l)
             then EventLogModel.eventExists (transactionHash l) (eventType l) else mret false);
  _ ← throw_if exists_ (PlainError "Event already exists");
  EventLogModel.create l.

Definition service_markAsProcessed (tx : string) (ty : IndexedEventType)
    : action (option (hydrated EventLog)) :=
  EventLogModel.markAsProcessed tx ty.

Definition service_getLastProcessedLedger (ty : option IndexedEventType) : action Z :=
  try_catch (EventLogModel.getLastProcessedLedger ty) (λ _, mret 0%Z).

Definition oldest_first (l1 l2 : hydrated EventLog) : bool :=
  (l_createdAt (body l1) <=? l_createdAt (body l2))%Z.

Definition getUnprocessedEvents (pg lim : Z)
    (cmp : option (hydrated EventLog → hydrated EventLog → bool)) : action (Page (hydrated EventLog)) :=
  try_catch
    (docs ← EventLogModel.find (λ l, bool_decide (l_status l = EventLogStatus.pending));
     mret (page_of (sort_by (nullish cmp oldest_first) docs) (clamp_page pg) (clamp_limit 100 lim)))
    (λ _, mret (mkPage [] 0 pg lim 0)).

Definition by_ledger (l1 l2 : hydrated EventLog) : bool :=
  (ledgerSequence (body l1) <=? ledgerSequence (body l2))%Z.

Definition in_range (a b : Z) (ty : option IndexedEventType) (l : EventLog) : bool :=
  (a <=? ledgerSequence l)%Z && (ledgerSequence l <=? b)%Z
  && match ty with Some t => bool_decide (eventType l = t) | None => true end.

Definition getEventsByLedgerRange (a b : Z) (ty : option IndexedEventType)
    : action (list (hydrated EventLog)) :=
  try_catch (docs ← EventLogModel.find (in_range a b ty); mret (sort_by by_ledger docs))
    (λ _, mret []).

Definition getEventByTransactionHash (tx : string) : action (option (hydrated EventLog)) :=
  try_catch (EventLogModel.findOne (λ l, String.eqb (transactionHash l) tx)) (λ _, mret None).

Definition markEventFailed (id msg : string) : action (option (hydrated EventLog)) :=
  try_catch
    (EventLogModel.findByIdAndUpdate id
       (λ l, l <| l_status := EventLogStatus.failed |> <| errorMessage := Some msg |>))
    (λ _, mret None).
End EventLogService.
