(* ===== verification/EventLogRetry.v ===== *)
(** * Retrying failed indexer events

    [src/src/services/eventLogRetryService.ts] and
    [src/src/services/dlqService.ts]: the claim of a failed entry by a
    conditional lease, its replay, the backoff, the escalation to the dead
    letter queue, and the queue's own retries.  What replays an event is an
    interface; the event poller implements it. *)
From S2P Require Import Prelude JsLib Models Pagination EventLogs.

(** ** The interface to the poller and to the payment gateway *)
Class EventReplayer := {
  (** Whether a contract is configured to replay against. *)
  replayer_available : bool;
  replay : EventLog → action unit;
  (** [stellarService.submitEscrowLock] on a dead letter's payload. *)
  submitEscrowLock : json → action json
}.

(** What replaying an event leaves alone. *)
Record keeps_log (w w' : World) : Prop := {
  kl_logs : eventLogs w' = eventLogs w;
  kl_dlq : dlqEntries w' = dlqEntries w;
  kl_checkpoints : checkpoints w' = checkpoints w;
  kl_ids : (nextId w ≤ nextId w')%nat;
  kl_now : now_ms w' = now_ms w
}.
#[export] Instance keeps_log_preorder : PreOrder keeps_log.
Proof. split; [by intros w|]. intros w1 w2 w3 [] []. split; [by etrans..|lia|by etrans]. Qed.

Class EventReplayerOk `{EventReplayer} : Prop := {
  replay_confined l : confined keeps_log (replay l);
  submit_confined i : confined keeps_log (submitEscrowLock i)
}.

(** ** Data *)
Inductive EventLogRetryOutcome := processed | scheduled | dead_lettered.
#[export] Instance EventLogRetryOutcome_eq_dec : EqDecision EventLogRetryOutcome.
Proof. solve_decision. Defined.
Definition outcome_string (o : EventLogRetryOutcome) : string :=
  match o with
  | processed => "processed" | scheduled => "scheduled" | dead_lettered => "dead_lettered"
  end.

Record EventLogRetryResult := mkRetryResult {
  outcome : EventLogRetryOutcome;
  r_event : hydrated EventLog
}.

Record EventLogRetrySweepResult := mkSweep {
  attempted : Z;
  sw_processed : Z;
  rescheduled : Z;
  deadLettered : Z
}.
#[export] Instance Sweep_eta : Settable EventLogRetrySweepResult := λ s,
  mkSweep s.(attempted) s.(sw_processed) s.(rescheduled) s.(deadLettered).

Definition CLAIM_LEASE_MS : Z := 5 * 60 * 1000.

(** ** The dead letter queue *)
Module Dlq.
Section Ops.
Context `{Env}.

Definition addEntry (p : DlqPayload) (reason : string) : action (hydrated DlqEntry) :=
  id ← fresh_id;
  atomic (λ w,
  let e := mkDlqEntry p reason 0 DlqStatus.PENDING w.(now_ms) w.(now_ms) in
  (Doc id e, w <| dlqEntries ::= <[id := e]> |>)).

Definition newest_first (e1 e2 : hydrated DlqEntry) : bool :=
  (dlq_createdAt (body e2) <=? dlq_createdAt (body e1))%Z.

Definition listEntries (pg lim : Z) : action (list (hydrated DlqEntry) * Z) :=
  docs ← reads (λ w, find_all (λ _, true) w.(dlqEntries));
  mret (skip_limit ((pg - 1) * lim) lim (sort_by newest_first docs), Z.of_nat (length docs)).

Definition save (d : hydrated DlqEntry) (f : DlqEntry → DlqEntry) : action (hydrated DlqEntry) :=
  atomic_try (λ w,
  match w.(dlqEntries) !! _id d with
  | None => (inl (PlainError "No document found for query"), w)
  | Some e =>
        (inr (Doc (_id d) (f (body d) <| dlq_updatedAt := w.(now_ms) |>)),
         w <| dlqEntries ::= <[_id d := f e <| dlq_updatedAt := w.(now_ms) |>]> |>)
  end).

(** [DlqEntry.updateMany] on the entries of one event. *)
Definition concerns (id : string) (e : DlqEntry) : bool :=
  match dlq_payload e with
  | eventlog_payload p => String.eqb (eventLogId p) id
  | other_payload _ => false
  end.

Definition resolve_event (id : string) : action unit :=
  writes (λ w, w <| dlqEntries ::= update_many (λ _, concerns id)
  (λ e, e <| dlq_status := DlqStatus.RESOLVED |> <| dlq_updatedAt := w.(now_ms) |>) |>).
End Ops.
End Dlq.

(** ** The retry service *)
Section EventLogRetry.
Context `{E : Env, R : EventReplayer}.

Definition newest_failure (l1 l2 : hydrated EventLog) : bool :=
  (l_updatedAt (body l2) <=? l_updatedAt (body l1))%Z.

Definition listFailed (pg lim : Z) : action (Page (hydrated EventLog)) :=
  docs ← EventLogModel.find (λ l, bool_decide (l_status l = EventLogStatus.failed));
  mret (page_of (sort_by newest_failure docs) (clamp_page pg)
          (clamp_limit 100 (if (lim =? 0)%Z then 20 else lim)%Z)).

Definition retry_writeAuditLog (act : string) (who : option string) (d : hydrated EventLog)
    (meta : list (string * json)) : action unit :=
  try_catch
    (createAuditLog (mkAuditLog act
       (match who with
        | Some a => if Str.truthy a && isValidObjectId a then Some a else None
        | None => None
        end) "EventLog" (_id d)
       (eventType_string (eventType (body d)) +:+ " event tx=" +:+ transactionHash (body d)) meta))
    (λ _, mret tt).

(** [{_id, status: 'failed', nextRetryAt: the value that was read}]. *)
Definition claimable (l0 l : EventLog) : bool :=
  bool_decide (l_status l = EventLogStatus.failed)
  && bool_decide (nextRetryAt l = nextRetryAt l0).

Definition claim (d : hydrated EventLog) : action (option (hydrated EventLog)) :=
  t ← now;
  EventLogModel.updateOneById (_id d) (claimable (body d))
    (set nextRetryAt (λ _, Some (t + CLAIM_LEASE_MS)%Z)).

Definition processed_update (t attempt : Z) (l : EventLog) : EventLog :=
  l <| l_status := EventLogStatus.processed |> <| processedAt := Some t |>
    <| retries := attempt |> <| errorMessage := None |> <| nextRetryAt := None |>.

Definition failure_update (attempt : Z) (msg : string) (t : Z) (exhausted escalate : bool)
    (l : EventLog) : EventLog :=
  l <| retries := attempt |> <| errorMessage := Some msg |> <| lastError := Some msg |>
    <| nextRetryAt := if exhausted then None else Some (nextEventLogRetryAt (attempt + 1) t) |>
    <| deadLetteredAt ::= λ x, if escalate then Some t else x |>.

Definition dlq_payload_of (d : hydrated EventLog) : DlqPayload :=
  eventlog_payload (mkEventLogDlqPayload (_id d) (eventType (body d))
    (transactionHash (body d)) (ledgerSequence (body d))).

Definition recordFailure (d : hydrated EventLog) (attempt : Z) (msg : string) (t : Z)
    : action EventLogRetryResult :=
  let exhausted := (EVENTLOG_RETRY_MAX_ATTEMPTS <=? attempt)%Z in
  let escalate := exhausted && bool_decide (deadLetteredAt (body d) = None) in
  event ← EventLogModel.findByIdAndUpdate (_id d) (failure_update attempt msg t exhausted escalate);
  let updated := nullish event d in
  if negb exhausted then mret (mkRetryResult scheduled updated) else
  _ ← (if escalate
       then _ ← Dlq.addEntry (dlq_payload_of d) msg;
            retry_writeAuditLog "eventlog.dead_lettered" None updated
              [("retries", JNum (Num.of_Z attempt)); ("lastError", JStr msg)]
       else mret tt);
  mret (mkRetryResult dead_lettered updated).

Definition attempt_ (d : hydrated EventLog) : action EventLogRetryResult :=
  let attempt := (retries (body d) + 1)%Z in
  t ← now;
  r ← try_catch (_ ← replay (body d); mret None) (λ e, mret (Some (error_message e)));
  match r with
  | Some msg => recordFailure d attempt msg t
  | None =>
      event ← EventLogModel.findByIdAndUpdate (_id d) (processed_update t attempt);
      _ ← (if bool_decide (deadLetteredAt (body d) = None) then mret tt
           else Dlq.resolve_event (_id d));
      mret (mkRetryResult processed (nullish event d))
  end.

Definition requireReplayer : action unit :=
  throw_if (negb replayer_available)
    (AppError "Event retries are unavailable: no escrow contract is configured to replay against."
       Http.SERVICE_UNAVAILABLE).

Definition retryById (id : string) (actorId : option string) : action EventLogRetryResult :=
  _ ← throw_if (negb (isValidObjectId id)) (AppError "Invalid event log ID" Http.BAD_REQUEST);
  found ← EventLogModel.findById id;
  d ← or_throw found (AppError "Event log entry not found" Http.NOT_FOUND);
  _ ← throw_if (negb (bool_decide (l_status (body d) = EventLogStatus.failed)))
        (AppError ("Only failed event log entries can be retried; this one is '"
           +:+ EventLogStatus.to_string (l_status (body d)) +:+ "'.") Http.CONFLICT);
  _ ← requireReplayer;
  claimed ← claim d;
  c ← or_throw claimed (AppError "This event log entry is already being retried." Http.CONFLICT);
  r ← attempt_ c;
  _ ← retry_writeAuditLog "eventlog.retry" actorId (r_event r)
        [("outcome", JStr (outcome_string (outcome r)));
         ("retries", JNum (Num.of_Z (retries (body (r_event r)))));
         ("lastError", match lastError (body (r_event r)) with Some e => JStr e | None => JNull end)];
  mret r.

Definition due_entry (t : Z) (l : EventLog) : bool :=
  bool_decide (l_status l = EventLogStatus.failed)
  && bool_decide (deadLetteredAt l = None)
  && match nextRetryAt l with Some x => (x <=? t)%Z | None => false end.

Definition due_first (l1 l2 : hydrated EventLog) : bool :=
  match nextRetryAt (body l1), nextRetryAt (body l2) with
  | Some a, Some b => (a <=? b)%Z
  | None, _ => true
  | _, None => false
  end.

Definition count_outcome (o : EventLogRetryOutcome) (s : EventLogRetrySweepResult)
    : EventLogRetrySweepResult :=
  match o with
  | processed => s <| sw_processed ::= Z.succ |>
  | scheduled => s <| rescheduled ::= Z.succ |>
  | dead_lettered => s <| deadLettered ::= Z.succ |>
  end.

Definition sweep_one (s : EventLogRetrySweepResult) (d : hydrated EventLog)
    : action EventLogRetrySweepResult :=
  claimed ← claim d;
  match claimed with
  | None => mret s
  | Some c =>
      r ← attempt_ c;
      mret (count_outcome (outcome r) (s <| attempted ::= Z.succ |>))
  end.

(** [retryDue(now)]. *)
Definition retryDue (t : Z) : action EventLogRetrySweepResult :=
  let s0 := mkSweep 0 0 0 0 in
  if negb replayer_available then mret s0 else
  docs ← EventLogModel.find (due_entry t);
  fold_prog sweep_one s0
    (take (Z.to_nat EVENTLOG_RETRY_BATCH_SIZE) (sort_by due_first docs)).

(** ** Retrying a dead letter *)
Definition retried_update (count : Z) (e : DlqEntry) : DlqEntry :=
  e <| retryCount := (count + 1)%Z |> <| dlq_status := DlqStatus.RETRIED |>.

(** What the entry's payload drives: the event log retry, or a resubmission. *)
Definition redrive (e : DlqEntry) (actorId : option string) : action (EventLogRetryResult + json) :=
  match dlq_payload e with
  | eventlog_payload p =>
      r ← retryById (eventLogId p) actorId;
      _ ← throw_if (negb (bool_decide (outcome r = processed)))
            (PlainError (nullish (lastError (body (r_event r))) "Event handler failed again"));
      mret (inl r)
  | other_payload i => j ← submitEscrowLock i; mret (inr j)
  end.

Definition retryEntry (id : string) (actorId : option string) : action (EventLogRetryResult + json) :=
  found ← reads (λ w, find_by_id id w.(dlqEntries));
  d ← or_throw found (AppError "DLQ entry not found" Http.NOT_FOUND);
  _ ← throw_if (bool_decide (dlq_status (body d) = DlqStatus.RESOLVED))
        (AppError "DLQ entry is already resolved" Http.BAD_REQUEST);
  d1 ← Dlq.save d (retried_update (retryCount (body d)));
  try_catch
    (r ← redrive (body d1) actorId;
     _ ← Dlq.save d1 (set dlq_status (λ _, DlqStatus.RESOLVED));
     mret r)
    (λ err,
      d2 ← Dlq.save d1 (λ e, e <| errorReason := error_message err |>
                               <| dlq_status := DlqStatus.PENDING |>);
      throw (AppError ("Retry failed: " +:+ errorReason (body d2)) Http.INTERNAL_SERVER_ERROR)).
End EventLogRetry.

(** ** What one attempt does *)
Section AttemptFacts.
Context `{E : Env, R : EventReplayer, ROk : !EventReplayerOk}.

(** The dead letters after an attempt on entry [l]. *)
Definition dlq_after (id : string) (l l' : EventLog) (o : EventLogRetryOutcome) (w w' : World) : Prop :=
  match o, deadLetteredAt l with
  | processed, None | scheduled, _ | dead_lettered, Some _ => dlqEntries w' = dlqEntries w
  | processed, Some _ =>
      ∀ k e, dlqEntries w !! k = Some e → ∃ e', dlqEntries w' !! k = Some e' ∧
        (Dlq.concerns id e = true → dlq_status e' = DlqStatus.RESOLVED) ∧
        (Dlq.concerns id e = false → e' = e)
  | dead_lettered, None =>
      ∃ k m, dlqEntries w' = <[k := mkDlqEntry (dlq_payload_of (Doc id l)) m 0 DlqStatus.PENDING
                                     (now_ms w) (now_ms w)]> (dlqEntries w) ∧ lastError l' = Some m
  end.

(** The entry after an attempt. *)
Record attempted_entry (l l' : EventLog) (o : EventLogRetryOutcome) (t : Z) : Prop := {
  ae_event : transactionHash l' = transactionHash l ∧ eventType l' = eventType l;
  ae_retries : retries l' = (retries l + 1)%Z;
  ae_outcome :
    match o with
    | processed =>
        l_status l' = EventLogStatus.processed ∧ processedAt l' = Some t ∧
        errorMessage l' = None ∧ nextRetryAt l' = None
    | scheduled =>
        l_status l' = l_status l ∧ (retries l' < EVENTLOG_RETRY_MAX_ATTEMPTS)%Z ∧
        nextRetryAt l' = Some (nextEventLogRetryAt (retries l' + 1) t) ∧
        deadLetteredAt l' = deadLetteredAt l ∧ is_Some (lastError l')
    | dead_lettered =>
        l_status l' = l_status l ∧ (EVENTLOG_RETRY_MAX_ATTEMPTS ≤ retries l')%Z ∧
        nextRetryAt l' = None ∧ is_Some (deadLetteredAt l') ∧ is_Some (lastError l')
    end
}.

Definition attempt_spec (id : string) (l : EventLog) (w : World) (res : EventLogRetryResult)
    (w' : World) : Prop :=
  ∃ l', r_event res = Doc id l' ∧ eventLogs w' = <[id := l']> (eventLogs w) ∧
    now_ms w' = now_ms w ∧ attempted_entry l l' (outcome res) (now_ms w) ∧
    dlq_after id l l' (outcome res) w w'.

(** The fields of an entry after a failure, and after a success. *)
Lemma failure_fields n msg t ex esc s l :
  let l' := EventLogModel.stamp s (failure_update n msg t ex esc l) in
  transactionHash l' = transactionHash l ∧ eventType l' = eventType l ∧
  retries l' = n ∧ l_status l' = l_status l ∧ lastError l' = Some msg ∧
  nextRetryAt l' = (if ex then None else Some (nextEventLogRetryAt (n + 1) t)) ∧
  deadLetteredAt l' = (if esc then Some t else deadLetteredAt l).
Proof. repeat split; reflexivity. Qed.

Lemma processed_fields n t s l :
  let l' := EventLogModel.stamp s (processed_update t n l) in
  transactionHash l' = transactionHash l ∧ eventType l' = eventType l ∧
  retries l' = n ∧ l_status l' = EventLogStatus.processed ∧ processedAt l' = Some t ∧
  errorMessage l' = None ∧ nextRetryAt l' = None.
Proof. repeat split; reflexivity. Qed.

Lemma failure_attempted n msg t ex esc s l :
  retries l = (n - 1)%Z → ex = (EVENTLOG_RETRY_MAX_ATTEMPTS <=? n)%Z →
  esc = ex && bool_decide (deadLetteredAt l = None) →
  attempted_entry l (EventLogModel.stamp s (failure_update n msg t ex esc l))
    (if ex then dead_lettered else scheduled) t.
Proof.
  intros Hn Hx Hesc. destruct (failure_fields n msg t ex esc s l)
    as (Ht & Hty & Hr & Hs & Hle & Hnx & Hdl).
  set (l' := EventLogModel.stamp _ _) in *. clearbody l'.
  split; [done|lia|]. destruct ex; cbn in *.
  - symmetry in Hx. apply Z.leb_le in Hx. rewrite Hr, Hle.
    do 3 (split; [done|]). split; [|by eexists]. rewrite Hdl, Hesc.
    case_bool_decide as Hd; [by eexists|]. destruct (deadLetteredAt l); [by eexists|done].
  - symmetry in Hx. apply Z.leb_gt in Hx. rewrite Hr, Hle, Hnx, Hdl, Hesc.
    repeat split; first [done|by eexists].
Qed.

Lemma processed_attempted n t s l :
  n = (retries l + 1)%Z →
  attempted_entry l (EventLogModel.stamp s (processed_update t n l)) processed t.
Proof.
  intros ->. destruct (processed_fields (retries l + 1) t s l) as (Ht & Hty & Hr & Hs & Hp & He & Hn).
  by split.
Qed.

Lemma replay_run l w :
  ∃ o w', run (try_catch (_ ← replay l; mret None) (λ e, mret (Some (error_message e)))) w =
      (inr o, w') ∧ keeps_log w w'.
Proof.
  rewrite run_try_catch, run_bind. pose proof (confined_run keeps_log _ w (replay_confined l)) as Hk.
  destruct (run (replay l) w) as [[e|[]] w1]; cbn [fst snd] in *; rewrite run_ret; by eexists _, w1.
Qed.

Lemma recordFailure_run id l n msg t w :
  eventLogs w !! id = Some l → retries l = (n - 1)%Z → t = now_ms w →
  ∃ res w', run (recordFailure (Doc id l) n msg t) w = (inr res, w') ∧ attempt_spec id l w res w'.
Proof.
  intros Hl Hn ->. unfold recordFailure. rewrite run_bind, EventLogModel.run_findByIdAndUpdate_log.
  cbn [_id body]. rewrite Hl. cbn [fst snd]. set (esc := bool_decide (deadLetteredAt l = None)).
  pose proof (failure_attempted n msg (now_ms w) (EVENTLOG_RETRY_MAX_ATTEMPTS <=? n)%Z
    ((EVENTLOG_RETRY_MAX_ATTEMPTS <=? n)%Z && esc) (now_ms w) l Hn eq_refl eq_refl) as Hat.
  assert (lastError (EventLogModel.stamp (now_ms w) (failure_update n msg (now_ms w)
    (EVENTLOG_RETRY_MAX_ATTEMPTS <=? n)%Z ((EVENTLOG_RETRY_MAX_ATTEMPTS <=? n)%Z && esc) l)) = Some msg)
    as Hle by reflexivity.
  set (l' := EventLogModel.stamp _ _) in *. clearbody l'.
  destruct (EVENTLOG_RETRY_MAX_ATTEMPTS <=? n)%Z; cbn [negb andb].
  - rewrite run_bind. unfold esc in *. case_bool_decide as Hd.
    + unfold Dlq.addEntry, fresh_id. rewrite !run_bind, run_atomic. cbn [fst snd].
      rewrite run_atomic. cbn [fst snd]. unfold retry_writeAuditLog, createAuditLog.
      rewrite run_try_catch, run_writes. cbn [fst snd]. rewrite run_ret.
      eexists _, _. split; [done|]. exists l'. split; [done|]. split; [done|]. split; [done|].
      split; [done|]. unfold dlq_after. cbn [outcome]. rewrite Hd. by eexists _, _.
    + rewrite run_ret. cbn [fst snd]. rewrite run_ret.
      eexists _, _. split; [done|]. exists l'. split; [done|]. split; [done|]. split; [done|].
      split; [done|]. unfold dlq_after. cbn [outcome]. by destruct (deadLetteredAt l).
  - rewrite run_ret. eexists _, _. split; [done|]. exists l'. split; [done|]. split; [done|].
    split; [done|]. by split.
Qed.

Lemma attempt_run id l w :
  eventLogs w !! id = Some l →
  ∃ res w', run (attempt_ (Doc id l)) w = (inr res, w') ∧ attempt_spec id l w res w'.
Proof.
  intros Hl. unfold attempt_. cbn [body _id]. rewrite run_bind, run_now. cbn [fst snd].
  rewrite run_bind. destruct (replay_run l w) as (o & w1 & -> & Hk). cbn [fst snd].
  assert (∀ res w', attempt_spec id l w1 res w' → attempt_spec id l w res w') as Htr.
  { unfold attempt_spec, dlq_after. by rewrite (kl_logs _ _ Hk), (kl_dlq _ _ Hk), (kl_now _ _ Hk). }
  assert (eventLogs w1 !! id = Some l) as Hl1 by by rewrite (kl_logs _ _ Hk).
  destruct o as [msg|].
  - destruct (recordFailure_run id l (retries l + 1) msg (now_ms w) w1)
      as (res & w2 & Hr & Hs); [done|lia|symmetry; apply Hk|].
    exists res, w2. auto.
  - rewrite run_bind, EventLogModel.run_findByIdAndUpdate_log, Hl1. cbn [fst snd].
    pose proof (processed_attempted (retries l + 1) (now_ms w) (now_ms w1) l eq_refl) as Hat.
    set (l' := EventLogModel.stamp _ _) in *. clearbody l'. rewrite <-(kl_now _ _ Hk) in Hat.
    rewrite run_bind. case_bool_decide as Hd.
    + rewrite run_ret. cbn [fst snd]. rewrite run_ret. eexists _, _. split; [done|]. apply Htr.
      exists l'. split; [done|]. split; [done|]. split; [done|]. split; [done|].
      unfold dlq_after. cbn [outcome]. by rewrite Hd.
    + unfold Dlq.resolve_event. rewrite run_writes. cbn [fst snd]. rewrite run_ret.
      eexists _, _. split; [done|]. apply Htr.
      exists l'. split; [done|]. split; [done|]. split; [done|]. split; [done|].
      unfold dlq_after. cbn [outcome]. destruct (deadLetteredAt l) as [x|]; [|done].
      intros k e He. eexists. split; [etrans; [apply lookup_update_many|exact (f_equal (fmap _) He)]|].
      by destruct (Dlq.concerns id e).
Qed.

Lemma claim_run d w :
  run (claim d) w =
    match eventLogs w !! _id d with
    | Some l => if claimable (body d) l
                then let l' := EventLogModel.stamp (now_ms w)
                       (l <| nextRetryAt := Some (now_ms w + CLAIM_LEASE_MS)%Z |>) in
                     (inr (Some (Doc (_id d) l')), w <| eventLogs ::= <[_id d := l']> |>)
                else (inr None, w)
    | None => (inr None, w)
    end.
Proof.
  unfold claim. rewrite run_bind, run_now. cbn [fst snd].
  apply EventLogModel.run_updateOneById_log.
Qed.
End AttemptFacts.

(** ** Properties *)
Section RetryProperties.
Context `{E : Env, R : EventReplayer, ROk : !EventReplayerOk}.

Lemma claimed_fields t x l :
  let l' := EventLogModel.stamp t (l <| nextRetryAt := x |>) in
  transactionHash l' = transactionHash l ∧ eventType l' = eventType l ∧ retries l' = retries l ∧
  l_status l' = l_status l ∧ deadLetteredAt l' = deadLetteredAt l ∧
  ledgerSequence l' = ledgerSequence l ∧ nextRetryAt l' = x.
Proof. repeat split; reflexivity. Qed.

(** A claim of an entry as it stands, followed by its attempt. *)
Lemma claimed_attempt id l w :
  eventLogs w !! id = Some l → l_status l = EventLogStatus.failed →
  ∃ c w1 res w2, run (claim (Doc id l)) w = (inr (Some c), w1) ∧
    run (attempt_ c) w1 = (inr res, w2) ∧
    ∃ l', r_event res = Doc id l' ∧ eventLogs w2 = <[id := l']> (eventLogs w) ∧
      now_ms w2 = now_ms w ∧ attempted_entry l l' (outcome res) (now_ms w) ∧
      dlq_after id l l' (outcome res) w w2.
Proof.
  intros Hl Hf. rewrite claim_run. cbn [_id body]. rewrite Hl.
  assert (claimable l l = true) as ->
    by (unfold claimable; rewrite !bool_decide_true by done; done).
  cbv zeta. pose proof (claimed_fields (now_ms w) (Some (now_ms w + CLAIM_LEASE_MS)%Z) l) as Hcf.
  set (c := EventLogModel.stamp _ _) in *. clearbody c. cbv zeta in Hcf.
  destruct Hcf as (Ht & Hty & Hr & Hs & Hdl & Hls & Hn).
  set (w1 := w <| eventLogs ::= <[id := c]> |>).
  destruct (attempt_run id c w1) as (res & w2 & Hrun & l' & Hev & Hes & Hnow & Hat & Hdq).
  { apply lookup_insert_eq. }
  exists (Doc id c), w1, res, w2. split; [done|]. split; [done|]. exists l'. split; [done|].
  split; [|split; [done|split]].
  - rewrite Hes. change (eventLogs w1) with (<[id := c]> (eventLogs w)). apply insert_insert_eq.
  - destruct Hat as [[H1 H2] H3 H4]. split; [by rewrite H1, H2, Ht, Hty|by rewrite H3, Hr|].
    rewrite <-Hs, <-Hdl. exact H4.
  - unfold dlq_after in *. rewrite <-Hdl.
    assert (dlq_payload_of (Doc id l) = dlq_payload_of (Doc id c)) as ->
      by (unfold dlq_payload_of; cbn [body _id]; by rewrite Ht, Hty, Hls).
    exact Hdq.
Qed.

Lemma retryById_ok id who l w :
  isValidObjectId id = true → replayer_available = true →
  eventLogs w !! id = Some l → l_status l = EventLogStatus.failed →
  ∃ res w' l', run (retryById id who) w = (inr res, w') ∧
    r_event res = Doc id l' ∧ eventLogs w' = <[id := l']> (eventLogs w) ∧
    attempted_entry l l' (outcome res) (now_ms w) ∧ dlq_after id l l' (outcome res) w w'.
Proof.
  intros Hv Hav Hl Hf.
  unfold retryById. rewrite run_bind, run_throw_if, Hv. cbn [fst snd negb].
  rewrite run_bind, EventLogModel.run_findById. cbn [fst snd].
  rewrite run_bind, run_or_throw, Hl. cbn [fst snd fmap option_fmap option_map body].
  rewrite run_bind, run_throw_if, bool_decide_true by done. cbn [fst snd negb].
  unfold requireReplayer. rewrite run_bind, run_throw_if, Hav. cbn [fst snd negb].
  destruct (claimed_attempt id l w Hl Hf) as (c & w1 & res & w2 & Hc & Ha & l' & Hev & Hes & Hn & Hat & Hdq).
  rewrite run_bind, Hc. cbn [fst snd]. rewrite run_bind, run_or_throw. cbn [fst snd].
  rewrite run_bind, Ha. cbn [fst snd]. rewrite run_bind. unfold retry_writeAuditLog, createAuditLog.
  rewrite run_try_catch, run_writes. cbn [fst snd]. rewrite run_ret. by eexists _, _, l'.
Qed.

(** An operator's retry either is refused (400, 404, 409 or 503) and
    changes nothing, or replays the failed entry exactly once and records the
    outcome on it alone: its retry count grows by one; a success makes it
    [processed] and resolves its dead letter; a failure with attempts left
    schedules the next retry by the backoff; the last failure stops the
    retries, marks it dead-lettered and adds one dead letter, unless it had one
    already. *)
Theorem retryById_correct id who w r w' :
  run (retryById id who) w = (r, w') →
  match r with
  | inl e =>
      w' = w ∧ error_status e ∈ [Some Http.BAD_REQUEST; Some Http.NOT_FOUND; Some Http.CONFLICT;
                                 Some Http.SERVICE_UNAVAILABLE]
  | inr res =>
      ∃ l l', eventLogs w !! id = Some l ∧ l_status l = EventLogStatus.failed ∧
        r_event res = Doc id l' ∧ eventLogs w' = <[id := l']> (eventLogs w) ∧
        attempted_entry l l' (outcome res) (now_ms w) ∧
        dlq_after id l l' (outcome res) w w'
  end.
Proof.
  destruct (isValidObjectId id && replayer_available) eqn:Hva.
  { apply andb_true_iff in Hva as [Hv Hav]. destruct (eventLogs w !! id) as [l|] eqn:Hl.
    - destruct (decide (l_status l = EventLogStatus.failed)) as [Hf|Hf].
      + destruct (retryById_ok id who l w Hv Hav Hl Hf) as (res & w1 & l' & Hr & ? & ? & ? & ?).
        rewrite Hr. intros [= <- <-]. by exists l, l'.
      + unfold retryById. rewrite run_bind, run_throw_if, Hv. cbn [fst snd negb].
        rewrite run_bind, EventLogModel.run_findById. cbn [fst snd].
        rewrite run_bind, run_or_throw, Hl. cbn [fst snd fmap option_fmap option_map body].
        rewrite run_bind, run_throw_if, bool_decide_false by done. cbn [fst snd negb].
        intros [= <- <-]. split; [done|by right; right; left].
    - unfold retryById. rewrite run_bind, run_throw_if, Hv. cbn [fst snd negb].
      rewrite run_bind, EventLogModel.run_findById. cbn [fst snd].
      rewrite run_bind, run_or_throw, Hl. cbn [fst snd fmap option_fmap option_map].
      intros [= <- <-]. split; [done|by right; left]. }
  unfold retryById. rewrite run_bind, run_throw_if. cbn [fst snd].
  destruct (isValidObjectId id); cbn [negb]; [|intros [= <- <-]; split; [done|by left]].
  cbn [andb] in Hva.
  rewrite run_bind, EventLogModel.run_findById. cbn [fst snd]. rewrite run_bind, run_or_throw.
  destruct (eventLogs w !! id) as [l|]; cbn [fst snd fmap option_fmap option_map body];
    [|intros [= <- <-]; split; [done|by right; left]].
  rewrite run_bind, run_throw_if. cbn [fst snd].
  destruct (bool_decide (l_status l = _)); cbn [negb];
    [|intros [= <- <-]; split; [done|by right; right; left]].
  unfold requireReplayer. rewrite run_bind, run_throw_if, Hva. cbn [fst snd negb].
  intros [= <- <-]. split; [done|by right; right; right; left].
Qed.

(** A lease does not protect an entry from an operator's retry: right
    after a worker claimed the entry, with its lease still running, a retry by
    id that reads it then claims it again and replays it. *)
Theorem leased_entry_retried_again id who l0 c w w1 :
  isValidObjectId id = true → replayer_available = true →
  run (claim (Doc id l0)) w = (inr (Some c), w1) →
  ∃ res w2, run (retryById id who) w1 = (inr res, w2) ∧
    retries (body (r_event res)) = (retries (body c) + 1)%Z.
Proof.
  intros Hv Hav. rewrite claim_run. cbn [_id body].
  destruct (eventLogs w !! id) as [l|] eqn:Hl; [|done].
  destruct (claimable l0 l) eqn:Hcl; [|done]. cbv zeta.
  pose proof (claimed_fields (now_ms w) (Some (now_ms w + CLAIM_LEASE_MS)%Z) l) as Hcf.
  set (l1 := EventLogModel.stamp _ _) in *. clearbody l1. cbv zeta in Hcf.
  destruct Hcf as (_ & _ & _ & Hs & _). intros [= <- <-]. cbn [body].
  apply andb_true_iff in Hcl as [Hf%bool_decide_eq_true _].
  set (w1 := w <| eventLogs ::= <[id := l1]> |>).
  destruct (retryById_ok id who l1 w1 Hv Hav) as (res & w2 & l' & Hr & Hev & _ & Hat & _).
  { apply lookup_insert_eq. }
  { by rewrite Hs. }
  exists res, w2. split; [done|]. rewrite Hev. apply Hat.
Qed.

(** *** The sweep *)
Definition sweep_total (s : EventLogRetrySweepResult) : Z :=
  (sw_processed s + rescheduled s + deadLettered s)%Z.

Lemma count_outcome_total o s :
  sweep_total (count_outcome o (s <| attempted ::= Z.succ |>)) = Z.succ (sweep_total s) ∧
  attempted (count_outcome o (s <| attempted ::= Z.succ |>)) = Z.succ (attempted s).
Proof.
  destruct s as [a p q d], o.
  all: unfold sweep_total, count_outcome, set, Z.succ. all: split; [cbn; lia|reflexivity].
Qed.

Lemma sweep_all l s w :
  NoDup (_id <$> l) →
  (∀ d, d ∈ l → eventLogs w !! _id d = Some (body d) ∧ l_status (body d) = EventLogStatus.failed) →
  ∃ s' w', run (fold_prog sweep_one s l) w = (inr s', w') ∧
    attempted s' = (attempted s + Z.of_nat (length l))%Z ∧
    (sweep_total s' - sweep_total s = Z.of_nat (length l))%Z ∧ now_ms w' = now_ms w ∧
    ∀ id, match list_find (λ d, _id d = id) l with
          | Some (_, d) => ∃ l' o, eventLogs w' !! id = Some l' ∧
                             attempted_entry (body d) l' o (now_ms w)
          | None => eventLogs w' !! id = eventLogs w !! id
          end.
Proof.
  revert s w. induction l as [|[id0 l0] l IH]; intros s w Hnd Hin; cbn [fold_prog].
  { exists s, w. cbn [length]. repeat split; try lia; done. }
  rewrite fmap_cons in Hnd. cbn [_id] in Hnd. apply NoDup_cons in Hnd as [Hni Hnd].
  destruct (Hin (Doc id0 l0)) as [Hl0 Hf0]; [by left|]. cbn [_id body] in *.
  destruct (claimed_attempt id0 l0 w Hl0 Hf0)
    as (c & w1 & res & w2 & Hc & Ha & l' & Hev & Hes & Hn & Hat & Hdq).
  assert (run (sweep_one s (Doc id0 l0)) w =
    (inr (count_outcome (outcome res) (s <| attempted ::= Z.succ |>)), w2)) as Hone.
  { unfold sweep_one. rewrite run_bind, Hc. cbn [fst snd]. rewrite run_bind, Ha. cbn [fst snd].
    apply run_ret. }
  rewrite run_bind, Hone. cbn [fst snd]. clear Hone.
  set (s1 := count_outcome _ _). destruct (count_outcome_total (outcome res) s) as [Ht1 Ha1].
  fold s1 in Ht1, Ha1.
  destruct (IH s1 w2 Hnd) as (s' & w' & Hr & Hatt & Htot & Hnow & Hlk).
  { intros d Hd. destruct (Hin d) as [H1 H2]; [by right|]. split; [|done]. rewrite Hes.
    rewrite lookup_insert_ne; [done|]. intros ->. apply Hni. apply list_elem_of_fmap. by exists d. }
  exists s', w'. split; [done|]. cbn [length]. split; [lia|]. split; [lia|]. split; [by rewrite Hnow|].
  intros id. cbn [list_find _id]. destruct (decide (id0 = id)) as [<-|Hne].
  - specialize (Hlk id0). destruct (list_find _ l) as [[i d]|] eqn:Hlf.
    + exfalso. apply list_find_Some in Hlf as (Hd & Hid & _). apply Hni.
      apply list_elem_of_fmap. exists d. split; [by symmetry|]. by eapply list_elem_of_lookup_2.
    + exists l', (outcome res). rewrite Hlk, Hes. split; [apply lookup_insert_eq|done].
  - specialize (Hlk id). destruct (list_find _ l) as [[i d]|] eqn:Hlf; cbn.
    + rewrite Hn in Hlk. exact Hlk.
    + rewrite Hlk, Hes. by apply lookup_insert_ne.
Qed.

(** A sweep never fails; it attempts the due entries, oldest first, up to
    the batch size, and only those; it counts every attempt under exactly one
    outcome; every attempted entry has advanced by one retry and every other
    entry is as it was. *)
Theorem retryDue_correct t w :
  replayer_available = true → (0 ≤ EVENTLOG_RETRY_BATCH_SIZE)%Z →
  ∃ s w', run (retryDue t) w = (inr s, w') ∧
    attempted s = Z.min EVENTLOG_RETRY_BATCH_SIZE
      (Z.of_nat (length (find_all (due_entry t) (eventLogs w)))) ∧
    attempted s = (sw_processed s + rescheduled s + deadLettered s)%Z ∧
    ∀ id l, eventLogs w !! id = Some l →
      eventLogs w' !! id = Some l ∨
      (due_entry t l = true ∧ ∃ l' o, eventLogs w' !! id = Some l' ∧
         attempted_entry l l' o (now_ms w)).
Proof.
  intros Hav Hb. unfold retryDue, EventLogModel.find. rewrite Hav. cbn [negb].
  rewrite run_bind, run_reads. cbn [fst snd].
  set (docs := find_all (due_entry t) (eventLogs w)).
  set (batch := take (Z.to_nat EVENTLOG_RETRY_BATCH_SIZE) (sort_by due_first docs)).
  assert (sort_by due_first docs ≡ₚ docs) as Hp by apply sort_by_perm.
  assert (∀ d, d ∈ batch → eventLogs w !! _id d = Some (body d) ∧ due_entry t (body d) = true) as Hbin.
  { intros d (i & Hd & _)%elem_of_take. apply list_elem_of_lookup_2 in Hd.
    rewrite Hp in Hd. by apply elem_of_find_all in Hd. }
  assert (NoDup (_id <$> batch)) as Hnd.
  { unfold batch. rewrite fmap_take. apply (sublist_NoDup _ (_id <$> sort_by due_first docs)).
    - rewrite Hp. apply find_all_NoDup.
    - apply sublist_take. }
  destruct (sweep_all batch (mkSweep 0 0 0 0) w Hnd) as (s & w' & Hr & Ha & Htot & _ & Hlk).
  { intros d [H1 H2]%Hbin. split; [done|]. unfold due_entry in H2.
    apply andb_true_iff in H2 as [[H2 _]%andb_true_iff _]. by apply bool_decide_eq_true in H2. }
  exists s, w'. split; [done|]. unfold sweep_total in Htot. cbn in Ha, Htot.
  unfold batch in Ha, Htot. rewrite length_take, (Permutation_length Hp) in Ha, Htot.
  split; [lia|]. split; [lia|]. intros id l Hl. specialize (Hlk id).
  destruct (list_find _ batch) as [[i d]|] eqn:Hlf; [|left; by rewrite Hlk].
  right. apply list_find_Some in Hlf as (Hd & <- & _). apply list_elem_of_lookup_2 in Hd.
  destruct (Hbin d Hd) as [H1 H2]. assert (body d = l) as <- by congruence. done.
Qed.

(** *** Exclusive claims *)
Definition lease_of (t : Z) : option Z := Some (t + CLAIM_LEASE_MS)%Z.

(** The stages of a claim of [id] made at time [t]. *)
Inductive claim_phase (id : string) (t : Z) : action (option (hydrated EventLog)) → Prop :=
  | phase_fresh l0 : nextRetryAt l0 ≠ lease_of t → claim_phase id t (claim (Doc id l0))
  | phase_timed l0 : nextRetryAt l0 ≠ lease_of t →
      claim_phase id t (EventLogModel.updateOneById id (claimable l0)
                          (set nextRetryAt (λ _, lease_of t)))
  | phase_over o : claim_phase id t (Done (inr o)).

Definition has_claimed (p : action (option (hydrated EventLog))) : Prop :=
  ∃ c, p = Done (inr (Some c)).
Definition leased (id : string) (t : Z) (w : World) : Prop :=
  ∃ l, eventLogs w !! id = Some l ∧ nextRetryAt l = lease_of t.

(** The second step of a claim. *)
Lemma claim_update_step id t l0 w :
  nextRetryAt l0 ≠ lease_of t →
  let x := EventLogModel.find_and_update (EventLogModel.by_id_if id (claimable l0))
             (set nextRetryAt (λ _, lease_of t)) w in
  now_ms x.2 = now_ms w ∧ (leased id t w → leased id t x.2) ∧
  (is_Some x.1 → ¬ leased id t w ∧ leased id t x.2).
Proof.
  intros Hne. cbv zeta. destruct (EventLogModel.find_and_update _ _ w) as [o w'] eqn:Hu. cbn [fst snd].
  apply EventLogModel.log_find_and_update_inv in Hu as [(-> & -> & _)|(d & Hd & -> & ->)].
  { split; [done|]. split; [done|]. by intros [? [=]]. }
  rewrite EventLogModel.by_id_if_lookup in Hd. destruct (eventLogs w !! id) as [l|] eqn:Hl; [|done].
  cbn [mbind option_bind] in Hd. destruct (claimable l0 l) eqn:Hcl; [|done]. injection Hd as <-.
  cbn [_id body]. split; [reflexivity|].
  set (w' := w <| eventLogs ::= _ |>).
  assert (leased id t w') as Hld by (eexists; split; [apply lookup_insert_eq|reflexivity]).
  split; [done|]. intros _. split; [|done]. intros (l1 & Hl1 & Hx).
  assert (l1 = l) as -> by congruence. unfold claimable in Hcl.
  apply andb_true_iff in Hcl as [_ Hcl]. apply bool_decide_eq_true in Hcl. congruence.
Qed.

Lemma claims_exclusive_steps id t :
  exclusive_steps (λ w, now_ms w = t) (leased id t) (claim_phase id t) has_claimed.
Proof.
  intros B op k w Hph Hok. remember (Step op k) as p eqn:Hp. destruct Hph as [l0 Hne|l0 Hne|o]; [| |done].
  - unfold claim, now, reads, atomic in Hp. cbn in Hp.
    assert (∀ p', Step op k = Step (λ w : World, (now_ms w, w)) p' → p' (now_ms w) = k (op w).1 ∧ (op w).2 = w)
      as Hinv.
    { intros p' Heq. pose proof (f_equal (λ q : action (option (hydrated EventLog)),
        match q with Step op k => (k (op w).1, (op w).2) | Done r => (Done r, w) end) Heq) as Hq.
      cbn in Hq. by injection Hq as -> ->. }
    symmetry in Hp. apply Hinv in Hp as [Hk ->]. rewrite <-Hk, Hok.
    split; [by apply phase_timed|]. split; [done|]. split; [done|]. intros [c Hc]. discriminate Hc.
  - pose proof (f_equal (λ q : action (option (hydrated EventLog)),
        match q with Step op k => (k (op w).1, (op w).2) | Done r => (Done r, w) end) Hp) as Hq.
    cbn in Hq. destruct (claim_update_step id t l0 w Hne) as (Hnow & Hkeep & Hwin).
    injection Hq as Hq1 Hq2. rewrite <-Hq1, <-Hq2. split; [constructor|]. split; [by rewrite Hnow|].
    split; [done|]. intros [c Hc]. right. apply Hwin. injection Hc as Hc. by exists c.
Qed.

(** However any number of workers race to claim one failed entry they all
    read before the lease was taken, at most one of them gets it. *)
Theorem claims_exclusive id (reads_ : list EventLog) sched w i j c1 c2 :
  (∀ l0, l0 ∈ reads_ → nextRetryAt l0 ≠ Some (now_ms w + CLAIM_LEASE_MS)%Z) →
  let ps := (interleave sched ((λ l0, claim (Doc id l0)) <$> reads_) w).1 in
  ps !! i = Some (Done (inr (Some c1))) → ps !! j = Some (Done (inr (Some c2))) → i = j.
Proof.
  intros Hne ps Hi Hj.
  assert (exclusive (λ w', now_ms w' = now_ms w) (leased id (now_ms w)) (claim_phase id (now_ms w))
    has_claimed ((λ l0, claim (Doc id l0)) <$> reads_) w) as Hex.
  { apply exclusive_start; [done|]. intros p (l0 & -> & Hl0)%list_elem_of_fmap.
    split; [by apply phase_fresh, Hne|]. intros [c Hc]. discriminate Hc. }
  apply (exclusive_interleave _ _ _ _ sched _ _ (claims_exclusive_steps id (now_ms w))) in Hex.
  by apply (ex_unique _ _ _ _ _ _ Hex i j _ _ Hi Hj); eexists.
Qed.
End RetryProperties.

(** ** Witnesses *)
Section RetryWitnesses.
Import ExampleEnv.

(** A replay that fails on one transaction, and a gateway that refuses. *)
#[local] Instance example_replayer : EventReplayer := {|
  replayer_available := true;
  replay l := throw_if (String.eqb (transactionHash l) "bad") (PlainError "contract read failed");
  submitEscrowLock _ := throw (PlainError "gateway unreachable")
|}.
#[local] Instance example_replayer_ok : EventReplayerOk.
Proof.
  split; [|done]. intros l. apply confined_throw_if.
Qed.

Let lid : string := "64b7f0c2a1d3e4f500000009".
Let tx0 : Z := 1700000000000.
(** An escrow event that failed [n] retries. *)
Let failed_log (tx : string) (n : Z) : EventLog :=
  mkEventLog ev_escrow_type tx 77 None (Some (mkEventData "e-1" "")) None EventLogStatus.failed
    (Some "boom") n (Some "boom") (Some tx0) None tx0 tx0.
Let with_log (l : EventLog) : World := empty_world tx0 <| eventLogs := {[lid := l]} |>.

Lemma retryById_correct_witness :
  ∃ res w' l', run (retryById lid None) (with_log (failed_log "bad" 4)) = (inr res, w') ∧
    outcome res = dead_lettered ∧ eventLogs w' !! lid = Some l' ∧ retries l' = 5%Z ∧
    nextRetryAt l' = None.
Proof.
  destruct (run (retryById lid None) (with_log (failed_log "bad" 4))) as [[e|res] w'] eqn:Hr.
  { exfalso. apply (f_equal (λ x, if x.1 is inl _ then true else false)) in Hr.
    vm_compute in Hr. discriminate Hr. }
  assert (outcome res = dead_lettered) as Ho.
  { apply (f_equal (λ x, if x.1 is inr r then outcome r else processed)) in Hr.
    vm_compute in Hr. by symmetry. }
  destruct (retryById_correct lid None _ (inr res) w' Hr) as (l & l' & Hl & _ & _ & Hes & Hat & _).
  assert (l = failed_log "bad" 4) as -> by (vm_compute in Hl; by injection Hl as <-).
  exists res, w', l'. split; [reflexivity|]. split; [exact Ho|].
  split; [rewrite Hes; apply lookup_insert_eq|].
  destruct Hat as [_ Hre Hoc]. rewrite Ho in Hoc. split; [exact Hre|]. apply Hoc.
Defined.

Lemma leased_entry_retried_again_witness :
  let w := with_log (failed_log "good" 1) in
  ∃ c w1 res w2, run (claim (Doc lid (failed_log "good" 1))) w = (inr (Some c), w1) ∧
    run (retryById lid None) w1 = (inr res, w2) ∧ retries (body (r_event res)) = 2%Z.
Proof.
  intros w.
  destruct (run (claim (Doc lid (failed_log "good" 1))) w) as [[e|[c|]] w1] eqn:Hr.
  { exfalso. vm_compute in Hr. discriminate Hr. }
  2: { exfalso. vm_compute in Hr. discriminate Hr. }
  destruct (leased_entry_retried_again lid None (failed_log "good" 1) c w w1) as (res & w2 & H1 & H2);
    [reflexivity|reflexivity|exact Hr|].
  exists c, w1, res, w2. split; [reflexivity|]. split; [exact H1|]. rewrite H2.
  vm_compute in Hr. injection Hr as <- <-. reflexivity.
Defined.

Lemma retryDue_correct_witness :
  let w := with_log (failed_log "good" 0) in
  ∃ s w', run (retryDue tx0) w = (inr s, w') ∧ attempted s = 1%Z.
Proof.
  intros w. destruct (retryDue_correct tx0 w) as (s & w' & Hr & Ha & _); [reflexivity|done|].
  exists s, w'. split; [exact Hr|]. rewrite Ha. reflexivity.
Defined.

(** Two workers that read the same entry race; the second finds the lease. *)
Lemma claims_exclusive_witness :
  let l := failed_log "good" 0 in
  let ps := (interleave [0; 1; 1; 0]%nat ((λ l0, claim (Doc lid l0)) <$> [l; l]) (with_log l)).1 in
  (∃ c, ps !! 1%nat = Some (Done (inr (Some c)))) ∧ ∀ c, ps !! 0%nat ≠ Some (Done (inr (Some c))).
Proof.
  intros l ps. assert (∃ c, ps !! 1%nat = Some (Done (inr (Some c)))) as [c1 H1].
  { eexists. vm_compute. reflexivity. }
  split; [by eexists|]. intros c2 H2.
  discriminate (claims_exclusive lid [l; l] [0; 1; 1; 0]%nat (with_log l) 0%nat 1%nat c2 c1
    ltac:(intros l0 [->|[->|[]%not_elem_of_nil]%elem_of_cons]%elem_of_cons; discriminate) H2 H1).
Defined.
End RetryWitnesses.
