(* ===== verification/EscrowIndexer.v ===== *)
(** * Escrow events from the chain

    [src/src/indexer/escrowHandlers.ts] and
    [src/src/services/escrowIndexerService.ts]: contract events, their parsing
    into typed payloads, the handlers of [escrow_funded], [escrow_released]
    and [escrow_refunded], and the one-page syncs over an RPC node. *)
From Stdlib Require Import Ascii.
From S2P Require Import Prelude JsLib Models Repositories DeliveryService EscrowService EscrowFacts.

(** ** The Stellar SDK and the RPC node *)

(** What [scValToNative] yields: a string, a number (32-bit integers), a
    bigint, an object, null, or anything else (with what [Number(x)] makes of
    it). *)
#[warnings="-register-all"] Inductive native :=
  | NStr (s : string)
  | NInt (z : Z)
  | NBig (z : Z)
  | NObj (fields : list (string * native))
  | NNull
  | NOther (coerced : number).

Class StellarSdk := {
  ScVal : Type;
  scvSymbol : string → ScVal;
  toXDR : ScVal → string;
  scValToNative : ScVal → error + native
}.

Record rpc_event `{StellarSdk} := mkRpcEvent {
  ev_id : string;
  ev_txHash : string;
  ev_ledger : Z;
  ev_closedAt : string;
  ev_topic : list ScVal;
  ev_value : ScVal
}.
Arguments mkRpcEvent {_} _ _ _ _ _ _.

Record EventFilter := mkFilter { contractIds : list string; f_topics : list (list string) }.
Record SorobanGetEventsRequest := mkGetEvents {
  filters : list EventFilter;
  startLedger : option Z;
  rq_cursor : option string;
  rq_limit : option Z
}.
Record GetEventsResponse `{StellarSdk} := mkEventsPage {
  events : list rpc_event;
  pg_cursor : string;
  latestLedger : Z
}.
Arguments mkEventsPage {_} _ _ _.
(** [getEvents] of the RPC node, at a time. *)
Class SorobanRpc `{StellarSdk} := {
  getEvents : Z → SorobanGetEventsRequest → error + GetEventsResponse
}.

(** A property of a JavaScript value, [undefined] when there is none. *)
Definition prop_of (n : native) (k : string) : option native :=
  match n with
  | NObj fields => list_find (λ kv, kv.1 = k) fields ≫= λ p, Some p.2.2
  | _ => None
  end.

(** [typeof x === 'string' ? x : undefined]. *)
Definition as_string (o : option native) : option string :=
  match o with Some (NStr s) => Some s | _ => None end.

(** ** Parsing *)
Record EscrowFundedEventData := mkFundedData {
  fd_deliveryId : string;
  fd_amount : number;
  fd_asset : string;
  fd_assetIssuer : option string;
  fd_fundedBy : option string
}.

Record EscrowResolutionEventData := mkResolutionData {
  rd_escrowId : string;
  rd_amount : string;
  rd_asset : string;
  rd_recipient : string;
  rd_transactionHash : string;
  rd_ledger : number;
  rd_timestamp : number
}.

Section Parsing.
Context `{StellarSdk}.

(** A value that may throw, inside [try { ... } catch { return null }]. *)
Definition native_of (v : ScVal) : option native :=
  match scValToNative v with inr n => Some n | inl _ => None end.

Definition nonempty_string (n : native) : option string :=
  match n with NStr s => if Str.truthy s then Some s else None | _ => None end.

Definition funded_amount (o : option native) : number :=
  match o with
  | Some (NBig z) | Some (NInt z) => Num.of_Z z
  | _ => SpecFloat.S754_nan
  end.

Definition parseEscrowFundedEvent (ev : rpc_event) : option EscrowFundedEventData :=
  topic ← ev_topic ev !! 1%nat;
  id ← native_of topic;
  deliveryId_ ← nonempty_string id;
  data ← native_of (ev_value ev);
  let amount_ := funded_amount (prop_of data "amount") in
  match as_string (prop_of data "asset") with
  | Some asset =>
      if Num.isFinite amount_ then
        Some (mkFundedData deliveryId_ amount_ asset (as_string (prop_of data "asset_issuer"))
                (as_string (prop_of data "funded_by")))
      else None
  | None => None
  end.

Definition resolution_amount (o : option native) : string :=
  match o with
  | Some (NBig z) | Some (NInt z) => pretty z
  | Some (NStr s) => s
  | _ => ""
  end.

(** [Number(x ?? 0)]. *)
Definition to_number (o : option native) : number :=
  match o with
  | None | Some NNull => Num.zero
  | Some (NInt z) | Some (NBig z) => Num.of_Z z
  | Some (NStr s) => NumParse.of_string s
  | Some (NObj _) => SpecFloat.S754_nan
  | Some (NOther x) => x
  end.

Definition is_digit (c : Ascii.ascii) : bool :=
  let n := N_of_ascii c in (48 <=? n)%N && (n <=? 57)%N.
(** The pattern [^\d+$]. *)
Definition all_digits (s : string) : bool :=
  Str.truthy s && forallb is_digit (Str.chars s).

Definition parseEscrowResolutionEvent (ev : rpc_event) : option EscrowResolutionEventData :=
  topic ← ev_topic ev !! 1%nat;
  id ← native_of topic;
  escrowId ← nonempty_string id;
  data ← native_of (ev_value ev);
  let amount_ := resolution_amount (prop_of data "amount") in
  let ledger := to_number (prop_of data "ledger") in
  let timestamp := to_number (prop_of data "timestamp") in
  asset ← as_string (prop_of data "asset");
  recipient ← as_string (prop_of data "recipient");
  txHash ← as_string (prop_of data "transaction_hash");
  if negb (Str.truthy amount_) || negb (Num.isFinite ledger) || negb (Num.isFinite timestamp)
  then None
  else if negb (all_digits amount_) then None
  else Some (mkResolutionData escrowId amount_ asset recipient txHash ledger timestamp).
End Parsing.

(** ** The escrow indexer service *)
Record EscrowResolvedEvent := mkResolvedEvent {
  rv_escrowId : string;
  rv_transactionHash : string;
  rv_ledger : number;
  rv_timestamp : number
}.

Section IndexerService.
Context `{Env}.

(** The statuses no event moves an escrow away from. *)
Definition INDEXER_TERMINAL_STATUSES : list EscrowStatus.t :=
  [EscrowStatus.RELEASED; EscrowStatus.REFUNDED].

(** [{$or: [{_id: escrowId}, {contractId: escrowId}]}]. *)
Definition refers_to (escrowId : string) (d : hydrated Escrow) : bool :=
  (isValidObjectId escrowId && String.eqb (_id d) escrowId)
  || bool_decide (e_contractId (body d) = Some escrowId).

Definition find_settled (ev : EscrowResolvedEvent) (m : gmap string Escrow) : option (hydrated Escrow) :=
  head (filter (λ d, (refers_to (rv_escrowId ev) d
                      && has_tx (rv_transactionHash ev) (body d)) = true) (find_all (λ _, true) m)).

Definition open_escrow (ev : EscrowResolvedEvent) (d : hydrated Escrow) : bool :=
  refers_to (rv_escrowId ev) d && negb (includes (e_status (body d)) INDEXER_TERMINAL_STATUSES).

(** [new Date(timestamp * 1000)]; an invalid date fails the update's cast. *)
Definition settled_date (ev : EscrowResolvedEvent) : option Z :=
  Date.of_number (Num.mul (rv_timestamp ev) (Num.of_Z 1000)).

Definition released_update (ev : EscrowResolvedEvent) (at_ t : Z) (e : Escrow) : Escrow :=
  e <| e_status := EscrowStatus.RELEASED |>
    <| releaseTransactionHash := Some (rv_transactionHash ev) |> <| releasedAt := Some at_ |>
    <| lastSyncedLedger := Some (rv_ledger ev) |>
    <| transactions ::= (.++ [mkEscrowTransaction (rv_transactionHash ev) release (Some (rv_ledger ev)) t]) |>.

Definition refunded_update (ev : EscrowResolvedEvent) (at_ t : Z) (e : Escrow) : Escrow :=
  e <| e_status := EscrowStatus.REFUNDED |>
    <| refundTransactionHash := Some (rv_transactionHash ev) |> <| refundedAt := Some at_ |>
    <| lastSyncedLedger := Some (rv_ledger ev) |>
    <| transactions ::= (.++ [mkEscrowTransaction (rv_transactionHash ev) refund (Some (rv_ledger ev)) t]) |>.

Definition settle (update : EscrowResolvedEvent → Z → Z → Escrow → Escrow)
    (ev : EscrowResolvedEvent) : action unit :=
  existing ← reads (λ w, find_settled ev w.(escrows));
  match existing with
  | Some _ => mret tt
  | None =>
      t ← now;
      at_ ← or_throw (settled_date ev) (PlainError "Cast to date failed");
      _ ← EscrowRepository.findOneAndUpdate (open_escrow ev) (update ev at_ t);
      mret tt
  end.

Definition handleEscrowReleased : EscrowResolvedEvent → action unit := settle released_update.
Definition handleEscrowRefunded : EscrowResolvedEvent → action unit := settle refunded_update.

Definition getEscrowByEscrowId (escrowId : string) : action (option (hydrated Escrow)) :=
  if isValidObjectId escrowId then EscrowRepository.model_findById escrowId
  else EscrowRepository.findOne (λ e, bool_decide (e_contractId e = Some escrowId)).
End IndexerService.

(** ** Handlers *)
Inductive EscrowEventProcessResult :=
  | Processed (ledger : Z) (transactionHash : string)
  | Ignored (ledger : Z) (reason : string).
Definition is_processed (r : EscrowEventProcessResult) : bool :=
  match r with Processed _ _ => true | Ignored _ _ => false end.

Record EscrowSyncSummary := mkSyncSummary {
  ss_latestLedger : Z;
  ss_cursor : string;
  ss_processed : Z;
  ss_ignored : Z;
  ss_results : list EscrowEventProcessResult
}.

Section Handlers.
Context `{E : Env, C : DeliveryConsumers, K : StellarSdk, N : !SorobanRpc}.

Definition unparseable (ev : rpc_event) : EscrowEventProcessResult :=
  Ignored (ev_ledger ev) "unparseable event payload".

Definition funded_input (contractId : string) (p : EscrowFundedEventData) (ev : rpc_event)
    : EscrowFundedInput :=
  mkEscrowFundedInput contractId (fd_deliveryId p) (fd_amount p) (fd_asset p)
    (fd_assetIssuer p) (fd_fundedBy p) (ev_txHash ev) (Some (Num.of_Z (ev_ledger ev))).

Definition handleEscrowFundedEvent (ev : rpc_event) (contractId : string)
    : action EscrowEventProcessResult :=
  match parseEscrowFundedEvent ev with
  | None => mret (unparseable ev)
  | Some p =>
      _ ← recordEscrowFunded (funded_input contractId p ev);
      mret (Processed (ev_ledger ev) (ev_txHash ev))
  end.

Definition resolved_event (p : EscrowResolutionEventData) : EscrowResolvedEvent :=
  mkResolvedEvent (rd_escrowId p) (rd_transactionHash p) (rd_ledger p) (rd_timestamp p).

Definition handle_resolution (service : EscrowResolvedEvent → action unit) (ev : rpc_event)
    : action EscrowEventProcessResult :=
  match parseEscrowResolutionEvent ev with
  | None => mret (unparseable ev)
  | Some p =>
      try_catch (_ ← service (resolved_event p); mret (Processed (ev_ledger ev) (rd_transactionHash p)))
        (λ _, mret (Ignored (ev_ledger ev) "service error"))
  end.
Definition handleEscrowReleasedEvent : rpc_event → action EscrowEventProcessResult :=
  handle_resolution handleEscrowReleased.
Definition handleEscrowRefundedEvent : rpc_event → action EscrowEventProcessResult :=
  handle_resolution handleEscrowRefunded.

(** One page of events, each handled in turn. *)
Definition sync_events (topic : string) (handle : rpc_event → action EscrowEventProcessResult)
    (start : Z) (contractId : string) : action EscrowSyncSummary :=
  _ ← throw_if (negb (Str.truthy contractId))
        (PlainError "No escrow contract id configured. Set ESCROW_CONTRACT_ID.");
  response ← atomic_try (λ w, (getEvents w.(now_ms)
    (mkGetEvents [mkFilter [contractId] [[toXDR (scvSymbol topic); "*"]]] (Some start) None None), w));
  results ← fold_prog (λ rs ev, r ← handle ev; mret (rs ++ [r])) [] (events response);
  let processed_ := Z.of_nat (length (filter (λ r, is_processed r = true) results)) in
  mret (mkSyncSummary (latestLedger response) (pg_cursor response) processed_
          (Z.of_nat (length results) - processed_) results).

Definition syncEscrowFundedEvents (start : Z) (contractId : string) : action EscrowSyncSummary :=
  sync_events ESCROW_FUNDED_EVENT_TOPIC (λ ev, handleEscrowFundedEvent ev contractId) start contractId.
Definition syncEscrowReleasedEvents : Z → string → action EscrowSyncSummary :=
  sync_events "escrow_released" handleEscrowReleasedEvent.
Definition syncEscrowRefundedEvents : Z → string → action EscrowSyncSummary :=
  sync_events "escrow_refunded" handleEscrowRefundedEvent.
End Handlers.

(** ** Settlement *)
Section SettlementFacts.
Context `{E : Env}.

(** What both settlement updates do. *)
Record settles_as (s : EscrowStatus.t) (ev : EscrowResolvedEvent) (at_ t : Z) (e e' : Escrow) : Prop := {
  sa_status : e_status e' = s;
  sa_key : delivery e' = delivery e ∧ e_contractId e' = e_contractId e ∧ amount e' = amount e;
  sa_txs : ∃ ty, transactions e' =
    transactions e ++ [mkEscrowTransaction (rv_transactionHash ev) ty (Some (rv_ledger ev)) t];
  sa_date : (if decide (s = EscrowStatus.RELEASED) then releasedAt e' else refundedAt e') = Some at_
}.

(** A settlement: its update and the status it sets. *)
Inductive settlement : (EscrowResolvedEvent → Z → Z → Escrow → Escrow) → EscrowStatus.t → Prop :=
  | settlement_release : settlement released_update EscrowStatus.RELEASED
  | settlement_refund : settlement refunded_update EscrowStatus.REFUNDED.

Lemma settlement_as u s ev at_ t t' e :
  settlement u s → settles_as s ev at_ t e (u ev at_ t e <| e_updatedAt := t' |>).
Proof.
  intros [].
  all: constructor; [reflexivity|split; [reflexivity|split; reflexivity]|eexists; reflexivity|reflexivity].
Qed.

Lemma settlement_terminal u s : settlement u s → includes s INDEXER_TERMINAL_STATUSES = true.
Proof. by intros []. Qed.

Lemma elem_terminal s :
  s ∈ INDEXER_TERMINAL_STATUSES ↔ s = EscrowStatus.RELEASED ∨ s = EscrowStatus.REFUNDED.
Proof. unfold INDEXER_TERMINAL_STATUSES. by rewrite elem_of_cons, list_elem_of_singleton. Qed.

Lemma elem_find_all m d : d ∈ find_all (λ _, true) m ↔ m !! _id d = Some (body d : Escrow).
Proof. rewrite elem_of_find_all. split; [by intros []|done]. Qed.

Lemma head_filter_Some {A} (P : A → bool) l d :
  head (filter (λ x, P x = true) l) = Some d → d ∈ l ∧ P d = true.
Proof.
  intros Hh. assert (d ∈ filter (λ x, P x = true) l) as [? ?]%list_elem_of_filter; [|done].
  destruct (filter _ l); simplify_eq/=. by left.
Qed.

Lemma head_filter_None {A} (P : A → bool) l d :
  head (filter (λ x, P x = true) l) = None → d ∈ l → P d = false.
Proof.
  intros Hh Hd. apply not_true_iff_false. intros HP.
  assert (d ∈ filter (λ x, P x = true) l) as Hin by by apply list_elem_of_filter.
  destruct (filter _ l); simplify_eq/=. by apply not_elem_of_nil in Hin.
Qed.

Lemma find_settled_None ev m :
  find_settled ev m = None ↔
  ∀ k e, m !! k = Some e → refers_to (rv_escrowId ev) (Doc k e) = true →
    has_tx (rv_transactionHash ev) e = false.
Proof.
  unfold find_settled. split.
  - intros Hh k e Hk Hr. apply (head_filter_None _ _ (Doc k e)) in Hh; [|by apply elem_find_all].
    cbn beta in Hh. rewrite Hr in Hh. exact Hh.
  - intros Hn. destruct (head _) as [[k e]|] eqn:Hh; [|done].
    apply head_filter_Some in Hh as [Hk%elem_find_all HP]. cbn [_id body] in *.
    apply andb_true_iff in HP as [Hr Ht]. by rewrite (Hn _ _ Hk Hr) in Ht.
Qed.

(** The outcome of the conditional update. *)
Lemma findOneAndUpdate_inv P f w r w' :
  run (EscrowRepository.findOneAndUpdate P f) w = (r, w') →
  (∃ k e, escrows w !! k = Some e ∧ P (Doc k e) = true ∧
     EscrowRepository.conflicts k (f e) (escrows w) = true ∧ r = inl DuplicateKey ∧ w' = w) ∨
  (r = inr None ∧ w' = w ∧ ∀ k e, escrows w !! k = Some e → P (Doc k e) = false) ∨
  (∃ k e, escrows w !! k = Some e ∧ P (Doc k e) = true ∧
     EscrowRepository.conflicts k (f e) (escrows w) = false ∧
     r = inr (Some (Doc k (f e <| e_updatedAt := now_ms w |>))) ∧
     w' = w <| escrows ::= <[k := f e <| e_updatedAt := now_ms w |>]> |>).
Proof.
  unfold EscrowRepository.findOneAndUpdate. rewrite run_atomic_try.
  unfold EscrowRepository.find_and_update.
  destruct (head _) as [[k e]|] eqn:Hh.
  - apply head_filter_Some in Hh as [Hk%elem_find_all HP]. cbn [_id body] in *.
    destruct (EscrowRepository.store _ _ w) as [[er|d'] w1] eqn:Hs;
      apply EscrowRepository.store_inv in Hs as [(Hr & -> & Hc)|(e' & -> & Hr & -> & Hc)]; simplify_eq;
      intros [= <- <-].
    + left. by exists k, e.
    + right; right. by exists k, e.
  - intros [= <- <-]. right; left. split; [done|]. split; [done|]. intros k e Hk.
    by apply (head_filter_None _ _ (Doc k e)) in Hh; [|apply elem_find_all].
Qed.

(** One settlement event, branch by branch. *)
Lemma settle_inv u s ev w r w' :
  settlement u s → run (settle u ev) w = (r, w') →
  (is_Some (find_settled ev (escrows w)) ∧ r = inr tt ∧ w' = w) ∨
  (find_settled ev (escrows w) = None ∧
    ((settled_date ev = None ∧ r = inl (PlainError "Cast to date failed") ∧ w' = w) ∨
     (∃ k e at_, escrows w !! k = Some e ∧ open_escrow ev (Doc k e) = true ∧
        settled_date ev = Some at_ ∧
        EscrowRepository.conflicts k (u ev at_ (now_ms w) e) (escrows w) = true ∧
        r = inl DuplicateKey ∧ w' = w) ∨
     (r = inr tt ∧ w' = w ∧ is_Some (settled_date ev) ∧
        ∀ k e, escrows w !! k = Some e → open_escrow ev (Doc k e) = false) ∨
     (∃ k e at_ e', escrows w !! k = Some e ∧ open_escrow ev (Doc k e) = true ∧
        settled_date ev = Some at_ ∧ r = inr tt ∧ settles_as s ev at_ (now_ms w) e e' ∧
        EscrowRepository.conflicts k e' (escrows w) = false ∧
        w' = w <| escrows ::= <[k := e']> |>))).
Proof.
  intros Hu. unfold settle. rewrite run_bind, run_reads. cbn [fst snd].
  destruct (find_settled ev (escrows w)) as [d|]; [intros [= <- <-]; left; by split; [eexists|]|].
  intros Hr. right. split; [done|]. revert Hr.
  rewrite run_bind, run_now. cbn [fst snd]. rewrite run_bind, run_or_throw.
  destruct (settled_date ev) as [at_|] eqn:Hd; cbn [fst snd]; [|intros [= <- <-]; by left].
  rewrite run_bind.
  destruct (run (EscrowRepository.findOneAndUpdate _ _) w) as [r1 w1] eqn:Hr. cbn [fst snd].
  apply findOneAndUpdate_inv in Hr
    as [(k & e & Hk & HP & Hc & -> & ->)|[(-> & -> & Hn)|(k & e & Hk & HP & Hc & -> & ->)]].
  - intros [= <- <-]. right; left. by exists k, e, at_.
  - rewrite run_ret. intros [= <- <-]. right; right; left. split; [done|].
    by split; [|split; [eexists|]].
  - rewrite run_ret. intros [= <- <-]. right; right; right.
    eexists k, e, at_, _. split; [done|]. split; [done|]. split; [done|]. split; [done|].
    split; [by eapply settlement_as|]. split; [|reflexivity].
    by rewrite EscrowRepository.conflicts_updatedAt.
Qed.

(** *** What one escrow may go through *)
Definition settled_once (e e' : Escrow) : Prop :=
  e' = e ∨
  (includes (e_status e) INDEXER_TERMINAL_STATUSES = false ∧
   includes (e_status e') INDEXER_TERMINAL_STATUSES = true ∧
   delivery e' = delivery e ∧ e_contractId e' = e_contractId e ∧ amount e' = amount e ∧
   ∃ tx, transactions e' = transactions e ++ [tx]).

Definition settles (w w' : World) : Prop :=
  deliveries w' = deliveries w ∧
  ∀ k, match escrows w !! k, escrows w' !! k with
       | Some e, Some e' => settled_once e e'
       | None, None => True
       | _, _ => False
       end.

#[export] Instance settles_preorder : PreOrder settles.
Proof.
  split.
  - intros w. split; [done|]. intros k. destruct (escrows w !! k); [by left|done].
  - intros w1 w2 w3 [Hd1 H1] [Hd2 H2]. split; [by etrans|]. intros k. specialize (H1 k). specialize (H2 k).
    destruct (escrows w1 !! k) as [e1|], (escrows w2 !! k) as [e2|], (escrows w3 !! k) as [e3|]; try done.
    destruct H2 as [->|(Hn & Ht & Hr)]; [done|]. destruct H1 as [->|(_ & Ht' & _)].
    + by right.
    + congruence.
Qed.

Lemma settle_update_settles u s ev at_ t k e e' w :
  settlement u s → escrows w !! k = Some e → open_escrow ev (Doc k e) = true →
  settles_as s ev at_ t e e' → settles w (w <| escrows ::= <[k := e']> |>).
Proof.
  intros Hu Hk Ho [Hs (H1 & H2 & H3) (ty & H4) _]. split; [done|]. intros k'.
  change (escrows (w <| escrows ::= <[k := e']> |>)) with (<[k := e']> (escrows w)).
  destruct (decide (k = k')) as [<-|Hne].
  - rewrite Hk, lookup_insert_eq. right. apply andb_true_iff in Ho as [_ Ho].
    apply negb_true_iff in Ho. cbn [body] in Ho. rewrite Hs.
    split; [done|]. split; [by eapply settlement_terminal|]. do 3 (split; [done|]). by eexists.
  - rewrite lookup_insert_ne by done. destruct (escrows w !! k'); [by left|done].
Qed.

Lemma settle_confined u s ev : settlement u s → confined settles (settle u ev).
Proof.
  intros Hu. unfold settle. apply confined_bind; [by intros w|]. intros [d|]; [done|].
  apply confined_bind; [by intros w|]. intros t. apply confined_bind; [apply confined_or_throw|].
  intros at_. apply confined_bind; [|done]. intros w.
  split; [|by destruct (_ : _ * _).1 as [|?]].
  destruct (run (EscrowRepository.findOneAndUpdate (open_escrow ev) (u ev at_ t)) w) as [r w'] eqn:Hr.
  pose proof Hr as Hr'. unfold EscrowRepository.findOneAndUpdate in Hr'. rewrite run_atomic_try in Hr'.
  rewrite Hr'. cbn [snd].
  apply findOneAndUpdate_inv in Hr
    as [(k & e & _ & _ & _ & _ & ->)|[(_ & -> & _)|(k & e & Hk & HP & _ & _ & ->)]];
    [reflexivity|reflexivity|].
  eapply settle_update_settles; [done..|]. by eapply settlement_as.
Qed.
End SettlementFacts.

(** ** Properties *)
Section IndexerProperties.
Context `{E : Env}.

(** An event is applied when its transaction is on an escrow it refers to. *)
Definition already_applied (ev : EscrowResolvedEvent) (m : gmap string Escrow) : Prop :=
  ∃ k e, m !! k = Some e ∧ refers_to (rv_escrowId ev) (Doc k e) = true ∧
    has_tx (rv_transactionHash ev) e = true.
(** The escrows that are neither released nor refunded, of those it refers to. *)
Definition settles_on (ev : EscrowResolvedEvent) (m : gmap string Escrow) (k : string) (e : Escrow) : Prop :=
  m !! k = Some e ∧ refers_to (rv_escrowId ev) (Doc k e) = true ∧
  e_status e ≠ EscrowStatus.RELEASED ∧ e_status e ≠ EscrowStatus.REFUNDED.

Lemma settled_applied ev m : is_Some (find_settled ev m) ↔ already_applied ev m.
Proof.
  split.
  - intros [[k e] Hs]. unfold find_settled in Hs.
    apply head_filter_Some in Hs as [Hk%elem_find_all [? ?]%andb_true_iff]. by exists k, e.
  - intros (k & e & Hk & Hr & Ht). destruct (find_settled ev m) eqn:Hf; [by eexists|].
    rewrite find_settled_None in Hf. by rewrite (Hf k e Hk Hr) in Ht.
Qed.

Lemma open_settles_on ev m k e :
  m !! k = Some e → open_escrow ev (Doc k e) = true ↔ settles_on ev m k e.
Proof.
  intros Hk. unfold open_escrow, settles_on. cbn [body].
  rewrite andb_true_iff, negb_true_iff, <-not_true_iff_false, includes_true, elem_terminal. tauto.
Qed.

(** C10: what a release or refund event does, by cases on the escrows.  If
    its transaction is already on an escrow it refers to, it succeeds and
    changes nothing.  Otherwise: an event with an invalid timestamp fails;
    with no escrow to settle (every one it refers to is released or refunded,
    or there is none) it succeeds and changes nothing; else it settles one
    open escrow it refers to, whatever its status (an administratively
    resolved one included): the status, the date from the event's timestamp
    and one transaction are recorded, neither the escrow's keys and amount
    nor any other document change, and the only failure is a transaction that
    is on an unrelated escrow, which leaves everything as it was. *)
Theorem settlement_correct u s ev w r w' :
  settlement u s → run (settle u ev) w = (r, w') →
  (already_applied ev (escrows w) → r = inr tt ∧ w' = w) ∧
  (¬ already_applied ev (escrows w) →
   match settled_date ev with
   | None => r = inl (PlainError "Cast to date failed") ∧ w' = w
   | Some at_ =>
       ((∀ k e, ¬ settles_on ev (escrows w) k e) → r = inr tt ∧ w' = w) ∧
       ((∃ k e, settles_on ev (escrows w) k e) →
        ∃ k e, settles_on ev (escrows w) k e ∧
          ((EscrowRepository.conflicts k (u ev at_ (now_ms w) e) (escrows w) = true ∧
            r = inl DuplicateKey ∧ w' = w) ∨
           (∃ e', r = inr tt ∧ settles_as s ev at_ (now_ms w) e e' ∧
              w' = w <| escrows ::= <[k := e']> |> ∧
              (EscrowRepository.indexed (escrows w) → EscrowRepository.indexed (escrows w')))))
   end).
Proof.
  intros Hu Hr. apply (settle_inv u s) in Hr; [|done]. rewrite <-settled_applied. split.
  { intros [d Hs]. destruct Hr as [(_ & -> & ->)|(Hn & _)]; [done|congruence]. }
  intros Hna. destruct Hr as [(Hs & _)|(_ & Hr)]; [done|].
  destruct Hr as [(Hd & -> & ->)|[(k & e & at_ & Hk & Ho & -> & Hc & -> & ->)
    |[(-> & -> & [at_ ->] & Ho)|(k & e & at_ & e' & Hk & Ho & -> & -> & Hsa & Hc & ->)]]].
  - by rewrite Hd.
  - apply (open_settles_on _ _ _ _ Hk) in Ho. split; [intros Hno; by destruct (Hno k e)|].
    intros _. exists k, e. split; [done|]. by left.
  - split; [done|]. intros (k & e & Hse). pose proof Hse as [Hk _].
    apply (open_settles_on _ _ _ _ Hk) in Hse. by rewrite (Ho k e Hk) in Hse.
  - apply (open_settles_on _ _ _ _ Hk) in Ho. split; [intros Hno; by destruct (Hno k e)|].
    intros _. exists k, e. split; [done|]. right. exists e'. do 3 (split; [done|]). intros Hix.
    change (escrows (w <| escrows ::= <[k := e']> |>)) with (<[k := e']> (escrows w)).
    by apply EscrowRepository.indexed_insert.
Qed.

Lemma has_tx_app h ty l t l0 e :
  transactions e = l0 ++ [mkEscrowTransaction h ty l t] → has_tx h e = true.
Proof. apply has_tx_last. Qed.

(** The indexer may replay any ledger range: an event that was handled is
    handled again at any later time, over the same escrows, without changing
    anything. *)
Theorem settlement_idempotent u s ev w w1 w2 :
  settlement u s → run (settle u ev) w = (inr tt, w1) → escrows w2 = escrows w1 →
  run (settle u ev) w2 = (inr tt, w2).
Proof.
  intros Hu Hr He. apply (settle_inv u s) in Hr; [|done].
  assert (is_Some (find_settled ev (escrows w2)) ∨
    find_settled ev (escrows w2) = None ∧ is_Some (settled_date ev) ∧
    ∀ k e, escrows w2 !! k = Some e → open_escrow ev (Doc k e) = false) as Hw2.
  { rewrite He. destruct Hr as [(Hs & _ & ->)|(Hn & Hr)]; [by left|].
    destruct Hr as [(_ & [=] & _)|[(? & ? & ? & _ & _ & _ & _ & [=] & _)
      |[(_ & -> & Hdt & Ho)|(k & e & at1 & e' & Hk & Ho & _ & _ & Hsa & _ & ->)]]]; [by right|left].
    change (escrows (w <| escrows ::= <[k := e']> |>)) with (<[k := e']> (escrows w)).
    destruct (find_settled ev (<[k := e']> (escrows w))) as [d|] eqn:Hfs; [by eexists|exfalso].
    rewrite find_settled_None in Hfs.
    destruct Hsa as [_ (_ & Hcid & _) (ty & Htx) _]. apply has_tx_app in Htx.
    rewrite (Hfs k e') in Htx; [done| |].
    - apply lookup_insert_eq.
    - apply andb_true_iff in Ho as [Ho _]. unfold refers_to in *. cbn [_id body] in *.
      by rewrite Hcid. }
  unfold settle. rewrite run_bind, run_reads. cbn [fst snd].
  destruct Hw2 as [[d ->]|(-> & [at_ Hd] & Hno)]; [apply run_ret|].
  rewrite run_bind, run_now. cbn [fst snd]. rewrite run_bind, run_or_throw, Hd. cbn [fst snd].
  rewrite run_bind.
  destruct (run (EscrowRepository.findOneAndUpdate _ _) w2) as [r3 w3] eqn:Hr3. cbn [fst snd].
  unfold EscrowRepository.findOneAndUpdate in Hr3. rewrite run_atomic_try in Hr3.
  unfold EscrowRepository.find_and_update in Hr3.
  destruct (head _) as [[k e]|] eqn:Hh.
  { apply head_filter_Some in Hh as [Hk%elem_find_all HP]. cbn [_id body] in *.
    by rewrite (Hno _ _ Hk) in HP. }
  injection Hr3 as <- <-. apply run_ret.
Qed.

(** However release and refund events for any escrows interleave, each
    escrow is settled at most once: a released or refunded escrow never
    changes again, a settlement appends exactly one transaction, and no
    delivery changes. *)
Theorem settlements_interleaved
    (evs : list ((EscrowResolvedEvent → Z → Z → Escrow → Escrow) * EscrowResolvedEvent)) sched w :
  (∀ p, p ∈ evs → ∃ s, settlement p.1 s) →
  settles w (interleave sched ((λ p, settle p.1 p.2) <$> evs) w).2.
Proof.
  intros Hev. refine (proj1 (safe_interleave settles (λ _ _ _, True) sched _ w _)).
  intros i p Hp. apply list_lookup_fmap_Some_1 in Hp as (q & -> & Hq%list_elem_of_lookup_2).
  destruct (Hev q Hq) as [s Hs]. apply (confined_safe settles); [by eapply settle_confined|done].
Qed.
End IndexerProperties.

Section FundedEvents.
Context `{E : Env, C : DeliveryConsumers, COk : !DeliveryConsumersOk, K : StellarSdk}.

(** One deployed contract can fund one delivery only: the indexer passes
    the same contract id with every event, and once an escrow is linked to
    that contract the [escrow_funded] event of any other delivery is refused
    and no escrow changes. *)
Theorem second_delivery_refused ev c p k e w r w' :
  parseEscrowFundedEvent ev = Some p → EscrowRepository.indexed (escrows w) →
  escrows w !! k = Some e → e_contractId e = Some c → delivery e ≠ fd_deliveryId p →
  run (handleEscrowFundedEvent ev c) w = (r, w') →
  (∃ er, r = inl er) ∧ escrows w' = escrows w.
Proof.
  intros Hp Hix Hk Hc Hne. unfold handleEscrowFundedEvent. rewrite Hp, run_bind.
  destruct (run (recordEscrowFunded _) w) as [r1 w1] eqn:Hr. cbn [fst snd].
  apply recordEscrowFunded_inv in Hr as [(er & -> & He & _)|(d & a & _ & Hfc & _)].
  { intros [= <- <-]. split; [by eexists|done]. }
  exfalso. revert Hfc. unfold contract_escrow.
  rewrite (find_one_unique _ k e); [|done|by apply bool_decide_eq_true|].
  - unfold funding_conflict. cbn [body].
    destruct (match delivery_escrow _ w with Some _ => _ | None => _ end); [done|].
    by destruct (String.eqb_spec (delivery e) (ef_deliveryId (funded_input c p ev))).
  - intros k' e' Hk' Hc'%bool_decide_eq_true. destruct (decide (k' = k)) as [|Hnk]; [done|].
    pose proof (Hix _ _ _ _ Hk' Hk Hnk) as Hcl. apply EscrowRepository.clash_false in Hcl
      as (_ & Hcc & _). exfalso. by apply (Hcc _ Hc').
Qed.
End FundedEvents.

(** ** Witnesses *)
Section IndexerWitnesses.
Import Example_.

Let settle_event : EscrowResolvedEvent :=
  mkResolvedEvent eid "tx-2" (Num.of_Z 1200) (Num.of_Z 1700001000).
Let w_locked : World := with_escrow (dlv DeliveryStatus.IN_PROGRESS None) (esc EscrowStatus.LOCKED).
Let w_resolved : World := with_escrow (dlv DeliveryStatus.CANCELLED None) (esc EscrowStatus.RESOLVED).

(** The settlement of the example escrow and its final status. *)
Definition final_status (r : (error + unit) * World) : option EscrowStatus.t :=
  match r.1 with inl _ => None | inr _ => e_status <$> escrows r.2 !! eid end.

(** An escrow that an administrator resolved is overturned by a refund; the
    same event then changes nothing. *)
Lemma settlement_correct_witness :
  let w1 := (run (handleEscrowRefunded settle_event) w_resolved).2 in
  (∃ e', w1 = w_resolved <| escrows ::= <[eid := e']> |> ∧ e_status e' = EscrowStatus.REFUNDED) ∧
  run (handleEscrowRefunded settle_event) w1 = (inr tt, w1).
Proof.
  intros w1.
  assert (run (handleEscrowRefunded settle_event) w_resolved = (inr tt, w1)) as Hr
    by (rewrite (surjective_pairing (run _ _)); f_equal; vm_compute; reflexivity).
  assert (escrows w_resolved = {[eid := esc EscrowStatus.RESOLVED]}) as Hes by reflexivity.
  destruct (settlement_correct _ _ settle_event w_resolved _ _ settlement_refund Hr) as [_ Hn].
  assert (¬ already_applied settle_event (escrows w_resolved)) as Hna.
  { rewrite <-settled_applied. intros [d Hd]. vm_compute in Hd. discriminate Hd. }
  specialize (Hn Hna). assert (is_Some (settled_date settle_event)) as [at_ Hdt] by (vm_compute; by eexists).
  rewrite Hdt in Hn.
  destruct Hn as [_ Hn]. destruct Hn as (k & e & (Hk & _) & Hout).
  { exists eid, (esc EscrowStatus.RESOLVED). split; [reflexivity|]. split; [reflexivity|].
    split; discriminate. }
  rewrite Hes in Hk. apply lookup_singleton_Some in Hk as [<- <-].
  destruct Hout as [(_ & [=] & _)|(e' & _ & Hsa & Hw & _)].
  split; [exists e'; split; [exact Hw|apply Hsa]|].
  assert (already_applied settle_event (escrows w1)) as Hap.
  { apply settled_applied. vm_compute. eexists. reflexivity. }
  rewrite (surjective_pairing (run _ w1)).
  destruct (settlement_correct _ _ settle_event w1 _ _ settlement_refund
    (surjective_pairing (run (handleEscrowRefunded settle_event) w1))) as [Ha _].
  destruct (Ha Hap) as [-> ->]. reflexivity.
Defined.

Lemma settlement_idempotent_witness :
  ∃ w1, run (handleEscrowReleased settle_event) w_locked = (inr tt, w1) ∧
    run (handleEscrowReleased settle_event) (w1 <| now_ms := 1800000000000%Z |>) =
      (inr tt, w1 <| now_ms := 1800000000000%Z |>).
Proof.
  destruct (run (handleEscrowReleased settle_event) w_locked) as [[er|[]] w1] eqn:Hr.
  { exfalso. assert (final_status (inl er, w1) = Some EscrowStatus.RELEASED) as Hf
      by (rewrite <-Hr; vm_compute; reflexivity). discriminate Hf. }
  exists w1. split; [reflexivity|].
  apply (settlement_idempotent _ _ settle_event w_locked w1 _ settlement_release Hr). reflexivity.
Defined.

(** A release and a refund race for the same escrow. *)
Lemma settlements_interleaved_witness :
  let evs := [(released_update, settle_event);
              (refunded_update, mkResolvedEvent eid "tx-3" (Num.of_Z 1201) (Num.of_Z 1700001005))] in
  let w' := (interleave [0; 1; 0; 1; 1; 0]%nat ((λ p, settle p.1 p.2) <$> evs) w_locked).2 in
  settles w_locked w' ∧ (e_status <$> escrows w' !! eid) = Some EscrowStatus.REFUNDED.
Proof.
  intros evs w'. split; [|vm_compute; reflexivity].
  apply (settlements_interleaved evs [0; 1; 0; 1; 1; 0]%nat w_locked).
  intros p [->|[->|[]%not_elem_of_nil]%elem_of_cons]%elem_of_cons.
  - exists EscrowStatus.RELEASED. constructor.
  - exists EscrowStatus.REFUNDED. constructor.
Defined.

(** An SDK whose contract values are the native values themselves. *)
#[local] Instance example_sdk : StellarSdk := {|
  ScVal := native;
  scvSymbol := NStr;
  toXDR v := match v with NStr s => s | _ => "" end;
  scValToNative := inr
|}.

Let other_delivery : string := "64b7f0c2a1d3e4f500000077".
Let funded_event : rpc_event :=
  mkRpcEvent "e-1" "tx-9" 1300 "" [NStr "escrow_funded"; NStr other_delivery]
    (NObj [("amount", NBig 150); ("asset", NStr "XLM")]).

Lemma second_delivery_refused_witness :
  ∃ er w', run (handleEscrowFundedEvent funded_event "CESCROW") w_locked = (inl er, w') ∧
    escrows w' = escrows w_locked.
Proof.
  destruct (run (handleEscrowFundedEvent funded_event "CESCROW") w_locked) as [r w'] eqn:Hr.
  destruct (second_delivery_refused funded_event "CESCROW"
    (mkFundedData other_delivery (Num.of_Z 150) "XLM" None None) eid (esc EscrowStatus.LOCKED)
    w_locked r w') as [[er ->] He];
    [reflexivity|apply one_escrow_indexed|reflexivity|reflexivity|discriminate|exact Hr|].
  by exists er, w'.
Defined.
End IndexerWitnesses.
