(* ===== verification/EventPoller.v ===== *)
(** * The event poller ([src/src/services/eventPoller.ts])

    The paging of contract events from the RPC node, their recording and
    dispatch, the checkpoint of the indexer, and the replay of one recorded
    event, which implements the interface of the retry service. *)
From Stdlib Require Import Ascii.
From S2P Require Import Prelude JsLib Models Repositories DeliveryService EscrowService EscrowFacts EventLogs EventLogRetry EscrowIndexer.

(** ** Options and results *)
Record EventSubscription `{StellarSdk} := mkSubscription {
  s_eventType : IndexedEventType;
  s_topic : string;
  s_handle : rpc_event → action unit
}.
Arguments mkSubscription {_} _ _ _.

Record EventPollerOptions `{StellarSdk} := mkPollerOptions {
  network : string;
  o_contractId : string;
  subscriptions : list EventSubscription;
  pageSize : Z
}.
Arguments mkPollerOptions {_} _ _ _ _.

Record PollCycleResult := mkPollResult {
  fromLedger : Z;
  toLedger : Z;
  fetched : Z;
  pr_processed : Z;
  duplicates : Z;
  pr_failed : Z
}.
#[export] Instance PollCycleResult_eta : Settable PollCycleResult := λ r,
  mkPollResult r.(fromLedger) r.(toLedger) r.(fetched) r.(pr_processed) r.(duplicates) r.(pr_failed).

Inductive EventOutcome := out_processed | out_duplicates | out_failed.

Definition DEFAULT_PAGE_SIZE : Z := 100.

(** ** Paging *)
Section Fetch.
Context `{K : StellarSdk, N : !SorobanRpc}.

Definition topicKey (topic : string) : string := toXDR (scvSymbol topic).

Definition poller_filters (o : EventPollerOptions) : list EventFilter :=
  (λ s, mkFilter [o_contractId o] [[topicKey (s_topic s); "*"]]) <$> subscriptions o.

Definition request (o : EventPollerOptions) (from : Z) (cursor : option string)
    : SorobanGetEventsRequest :=
  match cursor with
  | Some c => if Str.truthy c then mkGetEvents (poller_filters o) None (Some c) (Some (pageSize o))
              else mkGetEvents (poller_filters o) (Some from) None (Some (pageSize o))
  | None => mkGetEvents (poller_filters o) (Some from) None (Some (pageSize o))
  end.

Definition rpc_getEvents (r : SorobanGetEventsRequest) : action GetEventsResponse :=
  atomic_try (λ w, (getEvents w.(now_ms) r, w)).

(** The generator runs together with the loop that consumes it: [body] takes
    the loop's state and an event, and goes on or returns from the loop. *)
Context {S R : Type} (body : S → rpc_event → action (S + R)).

(** The events of one page, up to the first past the window: [true] when the
    window is over. *)
Fixpoint consume_page (to : Z) (evs : list rpc_event) (s : S) : action ((S * bool) + R) :=
  match evs with
  | [] => mret (inl (s, false))
  | ev :: evs =>
      if (to <? ev_ledger ev)%Z then mret (inl (s, true)) else
      r ← body s ev;
      match r with
      | inl s' => consume_page to evs s'
      | inr r => mret (inr r)
      end
  end.

Fixpoint fetchEvents (fuel : nat) (o : EventPollerOptions) (from to : Z) (cursor : option string)
    (s : S) : action (S + R) :=
  match fuel with
  | O => throw (PlainError "out of fuel")
  | Datatypes.S fuel =>
      page ← rpc_getEvents (request o from cursor);
      match events page with
      | [] => mret (inl s)
      | _ =>
          r ← consume_page to (events page) s;
          match r with
          | inr r => mret (inr r)
          | inl (s', true) => mret (inl s')
          | inl (s', false) =>
              if bool_decide (Some (pg_cursor page) = cursor) then mret (inl s')
              else fetchEvents fuel o from to (Some (pg_cursor page)) s'
          end
      end
  end.

(** The plain loop over a list of events. *)
Fixpoint for_events (evs : list rpc_event) (s : S) : action (S + R) :=
  match evs with
  | [] => mret (inl s)
  | ev :: evs =>
      r ← body s ev;
      match r with
      | inl s' => for_events evs s'
      | inr r => mret (inr r)
      end
  end.
End Fetch.

(** ** The poller *)
Section Poller.
Context `{E : Env, K : StellarSdk, N : !SorobanRpc}.

(** A [Map] from the list: the last subscription to a topic counts. *)
Definition subscriptionsByTopic (o : EventPollerOptions) : gmap string EventSubscription :=
  list_to_map (rev ((λ s, (topicKey (s_topic s), s)) <$> subscriptions o)).

Definition subscriptionForEvent (o : EventPollerOptions) (ev : rpc_event) : option EventSubscription :=
  first ← head (ev_topic ev); subscriptionsByTopic o !! toXDR first.

Definition new_log (o : EventPollerOptions) (ty : IndexedEventType) (ev : rpc_event) : EventLog :=
  mkEventLog ty (ev_txHash ev) (ev_ledger ev) (Some (o_contractId o))
    (Some (mkEventData (ev_id ev) (ev_closedAt ev))) None EventLogStatus.pending None 0 None None None 0 0.

Definition ingest_failed (msg : string) (t : Z) (l : EventLog) : EventLog :=
  l <| l_status := EventLogStatus.failed |> <| errorMessage := Some msg |>
    <| lastError := Some msg |> <| nextRetryAt := Some (nextEventLogRetryAt 1 t) |>.

Definition dispatch (sub : EventSubscription) (ev : rpc_event) : action EventOutcome :=
  let tx := ev_txHash ev in
  let ty := s_eventType sub in
  try_catch
    (_ ← s_handle sub ev;
     _ ← EventLogModel.markAsProcessed tx ty;
     mret out_processed)
    (λ e,
      t ← now;
      _ ← EventLogModel.findOneAndUpdate (EventLogModel.same_event tx ty)
            (ingest_failed (error_message e) t);
      mret out_failed).

Definition ingest (o : EventPollerOptions) (sub : EventSubscription) (ev : rpc_event)
    : action EventOutcome :=
  existing ← EventLogModel.findOne (EventLogModel.same_event (ev_txHash ev) (s_eventType sub));
  match existing with
  | Some d =>
      if bool_decide (l_status (body d) = EventLogStatus.pending) then dispatch sub ev
      else mret out_duplicates
  | None =>
      created ← try_catch (_ ← EventLogModel.create (new_log o (s_eventType sub) ev); mret true)
        (λ e, if bool_decide (e = DuplicateKey) then mret false else throw e);
      if created : bool then dispatch sub ev else mret out_duplicates
  end.

Definition count_event (out : EventOutcome) (r : PollCycleResult) : PollCycleResult :=
  match out with
  | out_processed => r <| pr_processed ::= Z.succ |>
  | out_duplicates => r <| duplicates ::= Z.succ |>
  | out_failed => r <| pr_failed ::= Z.succ |>
  end.

(** The body of the cycle's loop; it never leaves the loop early. *)
Definition poll_event (o : EventPollerOptions) (r : PollCycleResult) (ev : rpc_event)
    : action (PollCycleResult + PollCycleResult) :=
  let r := r <| fetched ::= Z.succ |> in
  match subscriptionForEvent o ev with
  | None => mret (inl r)
  | Some sub => out ← ingest o sub ev; mret (inl (count_event out r))
  end.

Definition getCheckpoint (o : EventPollerOptions) : action (option Z) :=
  reads (λ w, w.(checkpoints) !! network o).
Definition setCheckpoint (o : EventPollerOptions) (n : Z) : action unit :=
  writes (λ w, w <| checkpoints ::= <[network o := n]> |>).

Definition first_ledger (cp : option Z) (to : Z) : Z :=
  match cp with Some n => (n + 1)%Z | None => to end.

Definition pollOnce (fuel : nat) (o : EventPollerOptions) : action PollCycleResult :=
  latest ← atomic_try (λ w, (getLatestLedger w.(now_ms), w));
  to ← or_throw latest (PlainError "Cannot read properties of null (reading 'sequence')");
  cp ← getCheckpoint o;
  let from := first_ledger cp to in
  let r0 := mkPollResult from to 0 0 0 0 in
  if (to <? from)%Z then mret r0 else
  r ← fetchEvents (poll_event o) fuel o from to None r0;
  _ ← setCheckpoint o to;
  mret (match r with inl r | inr r => r end).

(** *** Replay *)
Definition matches_entry (l : EventLog) (ev : rpc_event) : bool :=
  match eventData l with
  | Some d => if Str.truthy (eventId d) then String.eqb (ev_id ev) (eventId d)
              else String.eqb (ev_txHash ev) (transactionHash l)
  | None => String.eqb (ev_txHash ev) (transactionHash l)
  end.

Definition findRecordedEvent (fuel : nat) (o : EventPollerOptions) (l : EventLog)
    : action (option rpc_event) :=
  r ← fetchEvents (λ (_ : unit) ev, mret (if matches_entry l ev then inr ev else inl tt))
        fuel o (ledgerSequence l) (ledgerSequence l) None tt;
  mret (match r with inl _ => None | inr ev => Some ev end).

Definition poller_replay (fuel : nat) (o : EventPollerOptions) (l : EventLog) : action unit :=
  found ← findRecordedEvent fuel o l;
  ev ← or_throw found (PlainError ("Event for tx=" +:+ transactionHash l
         +:+ " is no longer available at ledger " +:+ pretty (ledgerSequence l)));
  match subscriptionForEvent o ev with
  | Some sub =>
      if bool_decide (s_eventType sub = eventType l) then s_handle sub ev
      else throw (PlainError ("No " +:+ eventType_string (eventType l)
             +:+ " subscription handles the event for tx=" +:+ transactionHash l))
  | None => throw (PlainError ("No " +:+ eventType_string (eventType l)
             +:+ " subscription handles the event for tx=" +:+ transactionHash l))
  end.
End Poller.

Section DefaultPoller.
Context `{E : Env, C : DeliveryConsumers, K : StellarSdk, N : !SorobanRpc}.

(** [createDefaultPoller]. *)
Definition createDefaultPoller : EventPollerOptions :=
  mkPollerOptions STELLAR_NETWORK ESCROW_CONTRACT_ID
    [mkSubscription ev_escrow_type ESCROW_FUNDED_EVENT_TOPIC
       (λ ev, _ ← handleEscrowFundedEvent ev ESCROW_CONTRACT_ID; mret tt)] DEFAULT_PAGE_SIZE.

(** [getEventReplayer], as the interface of the retry service. *)
Definition getEventReplayer (fuel : nat) (submit : json → action json) : EventReplayer := {|
  replayer_available := Str.truthy ESCROW_CONTRACT_ID;
  replay := poller_replay fuel createDefaultPoller;
  submitEscrowLock := submit
|}.
End DefaultPoller.

(** ** Paging is transparent *)
Section FetchFacts.
Context `{K : StellarSdk, N : !SorobanRpc}.

Definition ledger_le (e1 e2 : rpc_event) : Prop := (ev_ledger e1 ≤ ev_ledger e2)%Z.

(** What a node documents of [getEvents] at a time, for one list of filters
    and one page size: the matching events form one stream in ledger order; a
    request by start ledger serves a page from the first event at or past it,
    a request by cursor the page after the cursor; a page's cursor points past
    its last event. *)
Record serves (t : Z) (o : EventPollerOptions) (stream : list rpc_event) (cur : nat → string) : Prop := {
  sv_order : StronglySorted ledger_le stream;
  sv_size : (0 < pageSize o)%Z;
  sv_cursor i : Str.truthy (cur i) = true;
  sv_cursor_inj i j : cur i = cur j → i = j;
  sv_first from : ∃ n ll,
    let page := take (Z.to_nat (pageSize o)) (drop n stream) in
    getEvents t (request o from None) = inr (mkEventsPage page (cur (n + length page)%nat) ll) ∧
    Forall (λ ev, ev_ledger ev < from)%Z (take n stream) ∧
    Forall (λ ev, from ≤ ev_ledger ev)%Z (drop n stream);
  sv_next from n : ∃ ll,
    let page := take (Z.to_nat (pageSize o)) (drop n stream) in
    getEvents t (request o from (Some (cur n))) = inr (mkEventsPage page (cur (n + length page)%nat) ll)
}.

(** The events up to a ledger. *)
Fixpoint up_to (to : Z) (l : list rpc_event) : list rpc_event :=
  match l with
  | ev :: l => if (to <? ev_ledger ev)%Z then [] else ev :: up_to to l
  | [] => []
  end.

Definition window (from to : Z) (stream : list rpc_event) : list rpc_event :=
  filter (λ ev, (from ≤ ev_ledger ev ≤ to)%Z) stream.

Lemma up_to_filter to l :
  StronglySorted ledger_le l → up_to to l = filter (λ ev, (ev_ledger ev ≤ to)%Z) l.
Proof.
  induction 1 as [|ev l Hl IH Hall]; cbn [up_to]; [done|].
  destruct (Z.ltb_spec to (ev_ledger ev)) as [Hlt|Hge].
  - rewrite filter_cons_False by lia. symmetry. apply filter_none. intros e He Hle.
    rewrite Forall_forall in Hall. specialize (Hall e He). unfold ledger_le in Hall. lia.
  - rewrite filter_cons_True by lia. by rewrite IH.
Qed.

Lemma up_to_app_all to l1 l2 :
  Forall (λ ev, ev_ledger ev ≤ to)%Z l1 → up_to to (l1 ++ l2) = l1 ++ up_to to l2.
Proof.
  induction 1 as [|ev l1 Hev _ IH]; cbn [app up_to]; [done|].
  destruct (Z.ltb_spec to (ev_ledger ev)); [lia|]. by rewrite IH.
Qed.

(** Whether a page has an event past the ledger. *)
Definition stops (to : Z) (l : list rpc_event) : bool := some (λ ev, to <? ev_ledger ev)%Z l.

Lemma up_to_app_stop to l1 l2 : stops to l1 = true → up_to to (l1 ++ l2) = up_to to l1.
Proof.
  unfold stops, some.
  induction l1 as [|ev l1 IH]; cbn [app up_to existsb]; [done|].
  destruct (Z.ltb_spec to (ev_ledger ev)); [done|]. intros Hne. f_equal. by apply IH.
Qed.

Lemma stops_false to l : stops to l = false → Forall (λ ev, ev_ledger ev ≤ to)%Z l ∧ up_to to l = l.
Proof.
  unfold stops, some. induction l as [|ev l IH]; cbn [up_to existsb]; [done|].
  destruct (Z.ltb_spec to (ev_ledger ev)); [done|]. intros [Hf ->]%IH. split; [by constructor|done].
Qed.

Lemma drop_sorted n l : StronglySorted ledger_le l → StronglySorted ledger_le (drop n l).
Proof.
  intros Hl. revert n. induction Hl as [|ev l Hl IH Hall]; intros [|n]; cbn; [constructor..| |done].
  by constructor.
Qed.

Lemma window_up_to from to n stream :
  StronglySorted ledger_le stream →
  Forall (λ ev, ev_ledger ev < from)%Z (take n stream) →
  Forall (λ ev, from ≤ ev_ledger ev)%Z (drop n stream) →
  up_to to (drop n stream) = window from to stream.
Proof.
  intros Hs Ht Hd. rewrite up_to_filter by by apply drop_sorted. unfold window.
  rewrite <-(take_drop n stream) at 2. rewrite filter_app.
  assert (filter (λ ev, (from ≤ ev_ledger ev ≤ to)%Z) (take n stream) = []) as ->.
  { apply filter_none. intros e He Hle. rewrite Forall_forall in Ht.
    specialize (Ht e He). lia. }
  cbn [app]. induction Hd as [|e l He _ IH]; [done|]. rewrite !filter_cons, IH.
  repeat case_decide; [done|lia|lia|done].
Qed.

Context {S R : Type} (body : S → rpc_event → action (S + R)).

Lemma run_for_events_app l1 l2 s w :
  run (for_events body (l1 ++ l2) s) w =
    match run (for_events body l1 s) w with
    | (inr (inl s'), w') => run (for_events body l2 s') w'
    | (inr (inr r), w') => (inr (inr r), w')
    | (inl e, w') => (inl e, w')
    end.
Proof.
  revert s w. induction l1 as [|ev l1 IH]; intros s w; cbn [for_events app]; [done|].
  rewrite !run_bind. destruct (run (body s ev) w) as [[e|[s'|r]] w1]; cbn [fst snd]; try done.
Qed.

Lemma run_consume_page to evs s w :
  run (consume_page body to evs s) w =
    match run (for_events body (up_to to evs) s) w with
    | (inr (inl s'), w') => (inr (inl (s', stops to evs)), w')
    | (inr (inr r), w') => (inr (inr r), w')
    | (inl e, w') => (inl e, w')
    end.
Proof.
  revert s w. induction evs as [|ev evs IH]; intros s w; cbn [consume_page up_to]; [done|].
  unfold stops, some. cbn [existsb]. destruct (Z.ltb_spec to (ev_ledger ev)); [done|].
  cbn [for_events orb]. rewrite !run_bind.
  destruct (run (body s ev) w) as [[e|[s'|r]] w1]; cbn [fst snd]; [done| |done].
  apply IH.
Qed.
End FetchFacts.

Section FetchEquivalence.
Context `{K : StellarSdk, N : !SorobanRpc}.
Context {S R : Type} (body : S → rpc_event → action (S + R)).
Context (Hbody : ∀ s ev w, now_ms (run (body s ev) w).2 = now_ms w).

Lemma for_events_now evs s w : now_ms (run (for_events body evs s) w).2 = now_ms w.
Proof.
  revert s w. induction evs as [|ev evs IH]; intros s w; cbn [for_events]; [done|].
  rewrite run_bind. specialize (Hbody s ev w).
  destruct (run (body s ev) w) as [[e|[s'|r]] w1]; cbn [fst snd] in *; [done| |done].
  by rewrite IH.
Qed.

(** From a position of the stream on. *)
Lemma run_fetchEvents_from fuel o from to stream cur n w cursor s ll :
  serves (now_ms w) o stream cur → (length stream - n < fuel)%nat →
  (∀ i, cursor = Some (cur i) → i = n) →
  (let page := take (Z.to_nat (pageSize o)) (drop n stream) in
   getEvents (now_ms w) (request o from cursor) = inr (mkEventsPage page (cur (n + length page)%nat) ll)) →
  run (fetchEvents body fuel o from to cursor s) w =
    run (for_events body (up_to to (drop n stream)) s) w.
Proof.
  intros Hsv. revert n cursor s w ll Hsv. induction fuel as [|fuel IH]; intros n cursor s w ll Hsv Hf Hcur Hreq;
    [lia|].
  cbn [fetchEvents]. unfold rpc_getEvents. rewrite run_bind, run_atomic_try. cbv zeta in Hreq.
  set (page := take (Z.to_nat (pageSize o)) (drop n stream)) in *. rewrite Hreq. cbn [fst snd events pg_cursor].
  pose proof (sv_size _ _ _ _ Hsv) as Hsz.
  assert (drop n stream = page ++ drop (n + length page) stream) as Hsplit.
  { rewrite <-drop_drop. unfold page at 1. rewrite <-(take_drop (Z.to_nat (pageSize o)) (drop n stream)) at 1.
    f_equal. unfold page. rewrite length_take.
    destruct (Nat.le_ge_cases (Z.to_nat (pageSize o)) (length (drop n stream))).
    - by rewrite Nat.min_l.
    - rewrite Nat.min_r by done. rewrite !drop_ge; [done|lia|done]. }
  assert (page = [] → drop n stream = []) as Hnil.
  { unfold page. intros Hp%(f_equal length). rewrite length_take in Hp. cbn in Hp.
    apply length_zero_iff_nil. lia. }
  clearbody page. destruct page as [|ev0 page'].
  { by rewrite Hnil. }
  set (page := ev0 :: page') in *.
  assert (0 < length page)%nat as Hlen by (unfold page; cbn; lia). clearbody page.
  rewrite run_bind, run_consume_page.
  destruct (stops to page) eqn:Hst; [|apply stops_false in Hst as [Hle Hall]].
  - rewrite Hsplit, up_to_app_stop by done.
    by destruct (run (for_events body (up_to to page) s) w) as [[e|[s'|r]] w1].
  - rewrite Hsplit, up_to_app_all by done. rewrite run_for_events_app, Hall.
    pose proof (for_events_now page s w) as Hnow.
    destruct (run (for_events body page s) w) as [[e|[s'|r]] w1]; cbn [fst snd] in *; [done| |done].
    rewrite bool_decide_false.
    2: { intros Hc. symmetry in Hc. apply Hcur in Hc. lia. }
    rewrite <-Hnow in Hsv. destruct (sv_next _ _ _ _ Hsv from (n + length page)%nat) as [ll' Hn].
    apply (IH _ _ _ _ ll'); [done| | |exact Hn].
    + apply (f_equal length) in Hsplit. rewrite length_app, !length_drop in Hsplit. lia.
    + intros i [= Hi]. by apply (sv_cursor_inj _ _ _ _ Hsv) in Hi.
Qed.

Lemma run_fetchEvents fuel o from to stream cur s w :
  serves (now_ms w) o stream cur → (length stream < fuel)%nat →
  run (fetchEvents body fuel o from to None s) w = run (for_events body (window from to stream) s) w.
Proof.
  intros Hsv Hf. destruct (sv_first _ _ _ _ Hsv from) as (n & ll & Hreq & Ht & Hd).
  rewrite (run_fetchEvents_from fuel o from to stream cur n w None s ll Hsv); [|lia|done|exact Hreq].
  rewrite (window_up_to from); [done|by eapply sv_order|done|done].
Qed.
End FetchEquivalence.

(** ** Recording one event *)
Section IngestFacts.
Context `{E : Env, K : StellarSdk, N : !SorobanRpc}.

(** Ids not handed out yet are free, and ids do not repeat. *)
Definition ids_fresh (w : World) : Prop :=
  ∀ n, (nextId w ≤ n)%nat → eventLogs w !! newObjectId n = None.

(** What an event's entry looks like once it was dispatched. *)
Definition recorded (tx : string) (ty : IndexedEventType) (w : World) : Prop :=
  ∃ k l, eventLogs w !! k = Some l ∧ EventLogModel.same_event tx ty l = true ∧
    l_status l ≠ EventLogStatus.pending.

(** What recording and dispatching events does to the index. *)
Record indexes (w w' : World) : Prop := {
  ix_indexed : EventLogModel.indexed (eventLogs w) → EventLogModel.indexed (eventLogs w');
  ix_kept k l : eventLogs w !! k = Some l → l_status l ≠ EventLogStatus.pending →
    eventLogs w' !! k = Some l;
  ix_fresh : ids_fresh w → ids_fresh w';
  ix_now : now_ms w' = now_ms w;
  ix_checkpoints : checkpoints w' = checkpoints w
}.
#[export] Instance indexes_preorder : PreOrder indexes.
Proof.
  split; [by intros w|]. intros w1 w2 w3 [] []. split; [auto|eauto|auto|by etrans..].
Qed.

Lemma keeps_log_indexes w w' : keeps_log w w' → indexes w w'.
Proof.
  intros [Hl _ Hc Hi Hn]. split; rewrite ?Hl; try done.
  intros Hf n Hle. rewrite Hl. apply Hf. lia.
Qed.

Lemma same_event_iff tx ty l :
  EventLogModel.same_event tx ty l = true ↔ transactionHash l = tx ∧ eventType l = ty.
Proof.
  unfold EventLogModel.same_event. by rewrite andb_true_iff, String.eqb_eq, bool_decide_eq_true.
Qed.

Lemma indexed_update k l l' m :
  EventLogModel.indexed m → m !! k = Some l →
  transactionHash l' = transactionHash l → eventType l' = eventType l →
  EventLogModel.indexed (<[k := l']> m).
Proof.
  intros Hm Hk Ht Hty k1 l1 k2 l2 H1 H2 Hte Htye.
  destruct (decide (k = k1)) as [<-|], (decide (k = k2)) as [<-|]; simplify_map_eq; [done| | |].
  - apply (Hm k l k2 l2); congruence.
  - apply (Hm k1 l1 k l); congruence.
  - by apply (Hm k1 l1 k2 l2).
Qed.

Lemma indexed_create k l m :
  EventLogModel.indexed m →
  (∀ k' l', m !! k' = Some l' → EventLogModel.same_event (transactionHash l) (eventType l) l' = false) →
  EventLogModel.indexed (<[k := l]> m).
Proof.
  intros Hm Hn k1 l1 k2 l2 H1 H2 Hte Htye.
  destruct (decide (k = k1)) as [<-|], (decide (k = k2)) as [<-|]; simplify_map_eq; [done| | |].
  - exfalso. apply (not_true_iff_false (EventLogModel.same_event (transactionHash l1) (eventType l1) l2));
      [by apply (Hn k2)|by apply same_event_iff].
  - exfalso. apply (not_true_iff_false (EventLogModel.same_event (transactionHash l2) (eventType l2) l1));
      [by apply (Hn k1)|by apply same_event_iff].
  - by apply (Hm k1 l1 k2 l2).
Qed.

Lemma find_same_event tx ty k l m :
  EventLogModel.indexed m → m !! k = Some l → EventLogModel.same_event tx ty l = true →
  find_one (EventLogModel.same_event tx ty) m = Some (Doc k l).
Proof.
  intros Hm Hk Hs. destruct (find_one_is_Some _ _ _ _ Hk Hs) as [[k' l'] Hf].
  pose proof Hf as [Hk' Hs']%find_one_Some. cbn [_id body] in *.
  apply same_event_iff in Hs as [??], Hs' as [??].
  assert (k' = k) as -> by (apply (Hm k' l' k l); congruence). by simplify_eq.
Qed.

(** Closing the entry of an event: both updates keep its key. *)
Lemma close_entry f k l tx ty w :
  eventLogs w !! k = Some l → EventLogModel.same_event tx ty l = true →
  EventLogModel.indexed (eventLogs w) → l_status l = EventLogStatus.pending →
  (∀ x, transactionHash (f x) = transactionHash x ∧ eventType (f x) = eventType x ∧
        l_status (f x) ≠ EventLogStatus.pending) →
  ∃ w', EventLogModel.find_and_update (find_one (EventLogModel.same_event tx ty)) f w =
      (Some (Doc k (EventLogModel.stamp (now_ms w) (f l))), w') ∧
    indexes w w' ∧ recorded tx ty w'.
Proof.
  intros Hk Hs Hm Hp Hf. destruct (Hf l) as (Ht & Hty & Hst).
  unfold EventLogModel.find_and_update. rewrite (find_same_event tx ty k l) by done.
  cbn [_id body]. eexists. split; [reflexivity|].
  assert (transactionHash (EventLogModel.stamp (now_ms w) (f l)) = transactionHash l ∧
    eventType (EventLogModel.stamp (now_ms w) (f l)) = eventType l ∧
    l_status (EventLogModel.stamp (now_ms w) (f l)) ≠ EventLogStatus.pending) as (H1 & H2 & H3)
    by (split; [exact Ht|split; [exact Hty|exact Hst]]).
  set (l' := EventLogModel.stamp _ _) in *. clearbody l'.
  set (w' := w <| eventLogs ::= <[k := l']> |>).
  assert (eventLogs w' = <[k := l']> (eventLogs w)) as He by reflexivity.
  split.
  - split; rewrite ?He; [intros _; by eapply indexed_update| | |reflexivity|reflexivity].
    + intros k2 l2 Hk2 Hn. rewrite lookup_insert_ne; [done|]. intros <-. congruence.
    + intros Hfr n Hn. rewrite He. specialize (Hfr n Hn).
      rewrite lookup_insert_ne; [done|]. intros ->. congruence.
  - exists k, l'. rewrite He. split; [apply lookup_insert_eq|]. split; [|done].
    apply same_event_iff in Hs. apply same_event_iff. by rewrite H1, H2.
Qed.

Context (o : EventPollerOptions).

Lemma dispatch_run sub ev k l w :
  (∀ e, confined keeps_log (s_handle sub e)) →
  eventLogs w !! k = Some l →
  EventLogModel.same_event (ev_txHash ev) (s_eventType sub) l = true →
  EventLogModel.indexed (eventLogs w) → l_status l = EventLogStatus.pending →
  ∃ out w', run (dispatch sub ev) w = (inr out, w') ∧ indexes w w' ∧
    recorded (ev_txHash ev) (s_eventType sub) w'.
Proof.
  intros Hc Hk Hs Hm Hp. unfold dispatch. rewrite run_try_catch, run_bind.
  pose proof (confined_run keeps_log _ w (Hc ev)) as Hkl.
  destruct (run (s_handle sub ev) w) as [[e|[]] w1]; cbn [fst snd] in *;
    rewrite <-(kl_logs _ _ Hkl) in Hk, Hm; apply keeps_log_indexes in Hkl.
  - rewrite run_bind, run_now. cbn [fst snd]. rewrite run_bind.
    unfold EventLogModel.findOneAndUpdate. rewrite run_atomic.
    destruct (close_entry (ingest_failed (error_message e) (now_ms w1)) k l _ _ w1 Hk Hs Hm Hp)
      as (w2 & -> & Hi & Hr); [done|].
    cbn [fst snd]. rewrite run_ret. exists out_failed, w2. split; [done|]. split; [by etrans|done].
  - rewrite run_bind. unfold EventLogModel.markAsProcessed. rewrite run_bind, run_now.
    cbn [fst snd]. unfold EventLogModel.findOneAndUpdate. rewrite run_atomic.
    destruct (close_entry (λ l, l <| l_status := EventLogStatus.processed |>
      <| processedAt := Some (now_ms w1) |>) k l _ _ w1 Hk Hs Hm Hp) as (w2 & -> & Hi & Hr); [done|].
    cbn [fst snd]. rewrite run_ret. exists out_processed, w2. split; [done|]. split; [by etrans|done].
Qed.

Lemma create_run l w :
  EventLogModel.indexed (eventLogs w) → Inj (=) (=) newObjectId → ids_fresh w →
  l_status l = EventLogStatus.pending →
  find_one (EventLogModel.same_event (transactionHash l) (eventType l)) (eventLogs w) = None →
  ∃ k l' w', run (EventLogModel.create l) w = (inr (Doc k l'), w') ∧ indexes w w' ∧
    eventLogs w' !! k = Some l' ∧ l_status l' = EventLogStatus.pending ∧
    EventLogModel.same_event (transactionHash l) (eventType l) l' = true.
Proof.
  intros Hm Hinj Hfr Hp Hn. unfold EventLogModel.create. rewrite run_atomic_try. cbv zeta.
  set (k := newObjectId (nextId w)).
  assert (eventLogs w !! k = None) as Hk by (apply Hfr; lia).
  rewrite Hk, bool_decide_false by (by intros []). cbn [orb].
  destruct (some _ (map_to_list (eventLogs w))) eqn:Hsm.
  { exfalso. apply some_true in Hsm as ([k' l'] & Hin%elem_of_map_to_list & Hs). cbn in Hs.
    by rewrite (find_one_None _ _ Hn _ _ Hin) in Hs. }
  set (l' := set l_updatedAt _ _).
  assert (transactionHash l' = transactionHash l ∧ eventType l' = eventType l ∧
    l_status l' = l_status l) as (Ht & Hty & Hst) by (split; [|split]; reflexivity).
  clearbody l'. set (w' := w <| nextId ::= _ |> <| eventLogs ::= _ |>).
  assert (eventLogs w' = <[k := l']> (eventLogs w) ∧ nextId w' = S (nextId w)) as [He Hid]
    by (split; reflexivity).
  exists k, l', w'. split; [reflexivity|]. split.
  - split; rewrite ?He; [| | |reflexivity|reflexivity].
    + intros _. apply indexed_create; [done|]. intros k2 l2 Hk2. rewrite Ht, Hty.
      by apply (find_one_None _ _ Hn k2).
    + intros k2 l2 Hk2 _. rewrite lookup_insert_ne; [done|]. congruence.
    + intros _ n Hle. rewrite He, Hid in *. rewrite lookup_insert_ne; [apply Hfr; lia|].
      intros ?%Hinj. lia.
  - rewrite He. split; [apply lookup_insert_eq|]. split; [congruence|].
    apply same_event_iff. by rewrite Ht, Hty.
Qed.

Lemma ingest_run sub ev w :
  (∀ e, confined keeps_log (s_handle sub e)) → Inj (=) (=) newObjectId →
  EventLogModel.indexed (eventLogs w) → ids_fresh w →
  ∃ out w', run (ingest o sub ev) w = (inr out, w') ∧ indexes w w' ∧
    recorded (ev_txHash ev) (s_eventType sub) w'.
Proof.
  intros Hc Hinj Hm Hfr. unfold ingest. rewrite run_bind. unfold EventLogModel.findOne.
  rewrite run_reads. cbn [fst snd].
  destruct (find_one _ (eventLogs w)) as [[k l]|] eqn:Hf.
  - apply find_one_Some in Hf as [Hk Hs]. cbn [_id body] in *.
    case_bool_decide as Hp; [by eapply dispatch_run|].
    rewrite run_ret. exists out_duplicates, w. split; [done|]. split; [done|]. by exists k, l.
  - destruct (create_run (new_log o (s_eventType sub) ev) w Hm Hinj Hfr eq_refl Hf)
      as (k & l & w1 & Hr & Hi & Hk & Hp & Hs).
    rewrite run_bind, run_try_catch, run_bind, Hr. cbn [fst snd]. rewrite run_ret. cbn [fst snd].
    destruct (dispatch_run sub ev k l w1 Hc Hk Hs) as (out & w2 & Hd & Hi2 & Hrec);
      [by eapply ix_indexed|done|].
    exists out, w2. split; [done|]. split; [by etrans|done].
Qed.
End IngestFacts.

(** ** The funding handler leaves the index alone *)
Section FundedFootprint.
Context `{E : Env, C : DeliveryConsumers, COk : !DeliveryConsumersOk, K : StellarSdk}.

Lemma logs_only_keeps_log w w' : logs_only w w' → keeps_log w w'.
Proof. by intros []. Qed.

Lemma emitMilestone_keeps_log d ev a : confined keeps_log (emitMilestone d ev a).
Proof. eapply confined_mono; [apply logs_only_keeps_log|apply emitMilestone_confined]. Qed.

Lemma delivery_find_and_update_keeps_log sel f w :
  keeps_log w (DeliveryRepository.find_and_update sel f w).2.
Proof.
  destruct (DeliveryRepository.find_and_update sel f w) as [o w'] eqn:Hu.
  by apply DeliveryRepository.find_and_update_inv in Hu as [(_ & -> & _)|(d & d' & _ & _ & _ & ->)].
Qed.

Lemma delivery_updateOneById_keeps_log id P f :
  confined keeps_log (DeliveryRepository.updateOneById id P f).
Proof. intros w. split; [apply delivery_find_and_update_keeps_log|done]. Qed.
Lemma delivery_updateById_keeps_log id f : confined keeps_log (DeliveryRepository.updateById id f).
Proof.
  unfold DeliveryRepository.updateById. case_match; [|done]. intros w.
  split; [apply delivery_find_and_update_keeps_log|done].
Qed.

Lemma store_keeps_log id e w : keeps_log w (EscrowRepository.store id e w).2.
Proof. unfold EscrowRepository.store. by destruct (EscrowRepository.conflicts _ _ _). Qed.

Lemma escrow_updateById_keeps_log id f : confined keeps_log (EscrowRepository.updateById id f).
Proof.
  unfold EscrowRepository.updateById. case_match; [|done]. intros w. split; [|done].
  unfold EscrowRepository.find_and_update. destruct (find_by_id _ _) as [d|]; [|done].
  pose proof (store_keeps_log (_id d) (f (body d)) w) as Hs.
  by destruct (EscrowRepository.store _ _ w) as [[er|d'] w1].
Qed.
Lemma escrow_create_keeps_log e : confined keeps_log (EscrowRepository.create e).
Proof.
  unfold EscrowRepository.create. apply confined_bind.
  - intros w. split; [split; [done..|rec_simpl; lia|done]|done].
  - intros id w. split; [|done]. case_match; [done|]. apply store_keeps_log.
Qed.

Lemma cancelLapsed_keeps_log d reason : confined keeps_log (cancelLapsedFundingWindow d reason).
Proof.
  unfold cancelLapsedFundingWindow. apply confined_bind; [by intros w|].
  intros [|]; [|done]. destruct (fundBy (body d)); [|done].
  apply confined_bind; [apply delivery_updateOneById_keeps_log|]. intros [u|]; [|done].
  apply confined_bind; [by apply confined_try_catch; [by intros w|]|].
  intros _. by apply confined_bind; [apply emitMilestone_keeps_log|].
Qed.

Lemma fund_escrow_keeps_log i d a e : confined keeps_log (fund_escrow i d a e).
Proof.
  unfold fund_escrow. apply confined_bind; [|intros e'; apply confined_bind; [|done]].
  - unfold lock_escrow. apply confined_bind; [by intros w|]. intros t.
    destruct e as [e|]; (apply confined_bind; [by intros w|]); intros t';
      [|apply escrow_create_keeps_log].
    apply confined_bind; [apply escrow_updateById_keeps_log|]. intros. apply confined_or_throw.
  - unfold mark_funded. case_bool_decide; [done|].
    apply confined_bind; [apply delivery_updateById_keeps_log|]. intros _.
    by apply confined_bind; [apply emitMilestone_keeps_log|].
Qed.

Lemma recordEscrowFunded_keeps_log i : confined keeps_log (recordEscrowFunded i).
Proof.
  unfold recordEscrowFunded.
  apply confined_bind; [apply confined_throw_if|intros _].
  apply confined_bind; [unfold DeliveryRepository.findById; case_match; first [done|by intros w]|intros found].
  apply confined_bind; [apply confined_or_throw|intros d].
  apply confined_bind; [apply confined_throw_if|intros _].
  apply confined_bind; [by intros w|intros lapsed].
  apply confined_bind.
  { destruct lapsed; [|done]. by apply confined_bind; [apply cancelLapsed_keeps_log|]. }
  intros _. apply confined_bind; [done|intros a]. apply confined_bind; [done|intros _].
  apply confined_bind; [apply confined_throw_if|intros _].
  apply confined_bind; [apply confined_throw_if|intros _].
  apply confined_bind; [by intros w|intros escrow].
  apply confined_bind; [unfold EscrowRepository.findByDeliveryId; case_match; first [done|by intros w]|].
  intros de. apply confined_bind; [by case_match|intros _].
  destruct escrow as [e|]; [|apply fund_escrow_keeps_log]. case_match; [done|].
  apply confined_bind; [apply confined_throw_if|intros _]. apply fund_escrow_keeps_log.
Qed.

Lemma handleEscrowFunded_keeps_log ev c : confined keeps_log (handleEscrowFundedEvent ev c).
Proof.
  unfold handleEscrowFundedEvent. case_match; [|done].
  by apply confined_bind; [apply recordEscrowFunded_keeps_log|].
Qed.
End FundedFootprint.

(** ** Properties *)
Section PollerProperties.
Context `{E : Env, K : StellarSdk, N : !SorobanRpc}.
Context (o : EventPollerOptions).

Definition handlers_confined : Prop :=
  ∀ s ev, s ∈ subscriptions o → confined keeps_log (s_handle s ev).

Definition subscribed (ev : rpc_event) : Prop := is_Some (subscriptionForEvent o ev).
#[local] Instance subscribed_dec ev : Decision (subscribed ev) := _.

Definition ingested_total (r : PollCycleResult) : Z := (pr_processed r + duplicates r + pr_failed r)%Z.

Lemma subscription_elem ev s : subscriptionForEvent o ev = Some s → s ∈ subscriptions o.
Proof.
  unfold subscriptionForEvent. destruct (head (ev_topic ev)) as [t|]; [|done]. cbn [mbind option_bind].
  unfold subscriptionsByTopic. intros Hs%elem_of_list_to_map_2.
  apply list_elem_of_In, in_rev, list_elem_of_In, list_elem_of_fmap in Hs as (s' & [= _ <-] & Hin). done.
Qed.

Lemma count_event_fields out r :
  let r' := count_event out (r <| fetched ::= Z.succ |>) in
  ingested_total r' = (ingested_total r + 1)%Z ∧ fetched r' = (fetched r + 1)%Z ∧
  fromLedger r' = fromLedger r ∧ toLedger r' = toLedger r.
Proof.
  destruct r as [a b c d e f], out; unfold count_event, ingested_total, set, Z.succ; cbn;
    repeat split; lia.
Qed.

Lemma poll_event_run r ev w :
  handlers_confined → Inj (=) (=) newObjectId →
  EventLogModel.indexed (eventLogs w) → ids_fresh w →
  ∃ r' w', run (poll_event o r ev) w = (inr (inl r'), w') ∧ indexes w w' ∧
    fetched r' = (fetched r + 1)%Z ∧
    ingested_total r' = (ingested_total r + if decide (subscribed ev) then 1 else 0)%Z ∧
    ∀ s, subscriptionForEvent o ev = Some s → recorded (ev_txHash ev) (s_eventType s) w'.
Proof.
  intros Hh Hinj Hm Hf. unfold poll_event.
  destruct (subscriptionForEvent o ev) as [s|] eqn:Hs.
  - destruct (ingest_run o s ev w) as (out & w1 & Hr & Hi & Hrec);
      [intros e; by apply Hh, (subscription_elem ev)|done..|].
    rewrite run_bind, Hr. cbn [fst snd]. rewrite run_ret.
    destruct (count_event_fields out r) as (H1 & H2 & _).
    eexists _, w1. split; [done|]. split; [done|]. split; [done|].
    rewrite decide_True by (unfold subscribed; rewrite Hs; by eexists).
    split; [done|]. by intros s' [= <-].
  - rewrite run_ret. rewrite decide_False by (unfold subscribed; rewrite Hs; by intros []). eexists _, w. split; [done|].
    split; [done|]. split; [reflexivity|]. split; [|done].
    destruct r; unfold ingested_total, set; cbn. lia.
Qed.

Lemma recorded_kept tx ty w w' : indexes w w' → recorded tx ty w → recorded tx ty w'.
Proof. intros Hi (k & l & Hk & Hs & Hp). exists k, l. split; [by eapply ix_kept|done]. Qed.

Lemma poll_window_run evs r w :
  handlers_confined → Inj (=) (=) newObjectId →
  EventLogModel.indexed (eventLogs w) → ids_fresh w →
  ∃ r' w', run (for_events (poll_event o) evs r) w = (inr (inl r'), w') ∧ indexes w w' ∧
    fetched r' = (fetched r + Z.of_nat (length evs))%Z ∧
    ingested_total r' = (ingested_total r + Z.of_nat (length (filter subscribed evs)))%Z ∧
    ∀ ev s, ev ∈ evs → subscriptionForEvent o ev = Some s →
      recorded (ev_txHash ev) (s_eventType s) w'.
Proof.
  intros Hh Hinj. revert r w. induction evs as [|ev evs IH]; intros r w Hm Hf; cbn [for_events].
  { exists r, w. cbn. split; [done|]. split; [done|]. split; [lia|]. split; [lia|].
    by intros ev s []%not_elem_of_nil. }
  destruct (poll_event_run r ev w Hh Hinj Hm Hf) as (r1 & w1 & Hr & Hi & Hfe & Hto & Hrec).
  rewrite run_bind, Hr. cbn [fst snd].
  destruct (IH r1 w1) as (r2 & w2 & Hr2 & Hi2 & Hfe2 & Hto2 & Hrec2); [by eapply ix_indexed|by eapply ix_fresh|].
  exists r2, w2. split; [done|]. split; [by etrans|]. rewrite filter_cons. cbn [length].
  split; [lia|]. split; [case_decide; cbn [length]; lia|].
  intros ev' s [->|Hin]%elem_of_cons Hs; [|by apply (Hrec2 ev')].
  eapply recorded_kept; [done|by apply Hrec].
Qed.

Lemma poll_event_now r ev w :
  handlers_confined → now_ms (run (poll_event o r ev) w).2 = now_ms w.
Proof.
  intros Hh. assert (confined (λ w w' : World, now_ms w' = now_ms w) (poll_event o r ev)) as Hc.
  2: { refine (confined_run (λ w w' : World, now_ms w' = now_ms w) _ w Hc).
       split; [by intros ?|]. intros w1 w2 w3 H1 H2. by rewrite H2. }
  unfold poll_event. destruct (subscriptionForEvent o ev) as [s|] eqn:Hs; [|done].
  apply confined_bind; [|done].
  assert (∀ P f, confined (λ w w' : World, now_ms w' = now_ms w) (EventLogModel.findOneAndUpdate P f)) as Hfu.
  { intros P f w'. split; [|done].
    destruct (EventLogModel.find_and_update _ f w') as [o' w2] eqn:Hu.
    by apply EventLogModel.log_find_and_update_inv in Hu as [(_ & -> & _)|(d & _ & _ & ->)]. }
  assert (confined (λ w w' : World, now_ms w' = now_ms w) (dispatch s ev)) as Hd.
  { apply confined_try_catch.
    - apply confined_bind.
      + eapply confined_mono; [|by apply Hh, (subscription_elem ev)]. by intros w1 w2 [].
      + intros _. apply confined_bind; [|done]. by apply confined_bind; [by intros w'|].
    - intros e. apply confined_bind; [by intros w'|]. intros t. by apply confined_bind. }
  unfold ingest. apply confined_bind; [by intros w'|]. intros [d|]; [by case_bool_decide|].
  apply confined_bind; [|by intros []]. apply confined_try_catch; [|intros e; by case_bool_decide].
  apply confined_bind; [|done]. intros w'. split; [|done]. cbn. by case_match.
Qed.

(** C9: a cycle over a serving node never fails: it pages through exactly the
    events from the ledger after the checkpoint up to the latest one; counts
    each subscribed event under exactly one outcome; leaves every subscribed
    event of the window with an entry that is processed or failed; keeps every
    entry that was already closed and never records an event twice; and moves
    the checkpoint to the latest ledger. *)
Theorem pollOnce_correct fuel to stream cur w :
  handlers_confined → Inj (=) (=) newObjectId →
  EventLogModel.indexed (eventLogs w) → ids_fresh w →
  getLatestLedger (now_ms w) = inr (Some to) → serves (now_ms w) o stream cur →
  (length stream < fuel)%nat →
  let from := first_ledger (checkpoints w !! network o) to in
  let evs := window from to stream in
  (from ≤ to)%Z →
  ∃ r w', run (pollOnce fuel o) w = (inr r, w') ∧
    fetched r = Z.of_nat (length evs) ∧
    (pr_processed r + duplicates r + pr_failed r)%Z = Z.of_nat (length (filter subscribed evs)) ∧
    checkpoints w' = <[network o := to]> (checkpoints w) ∧
    EventLogModel.indexed (eventLogs w') ∧
    (∀ ev s, ev ∈ evs → subscriptionForEvent o ev = Some s →
       recorded (ev_txHash ev) (s_eventType s) w') ∧
    (∀ k l, eventLogs w !! k = Some l → l_status l ≠ EventLogStatus.pending →
       eventLogs w' !! k = Some l).
Proof.
  intros Hh Hinj Hm Hf Hl Hsv Hfu from evs Hle.
  destruct (poll_window_run evs (mkPollResult from to 0 0 0 0) w Hh Hinj Hm Hf)
    as (r & w1 & Hr & Hi & Hfe & Hto & Hrec).
  unfold pollOnce. rewrite run_bind, run_atomic_try. cbn [fst snd]. rewrite Hl. cbn [fst snd].
  rewrite run_bind, run_or_throw. cbn [fst snd]. unfold getCheckpoint, setCheckpoint.
  rewrite run_bind, run_reads. cbn [fst snd]. fold from.
  destruct (Z.ltb_spec to from); [lia|].
  rewrite run_bind, (run_fetchEvents _ (λ s ev w, poll_event_now s ev w Hh) fuel o from to stream cur);
    [|done|done].
  fold evs. rewrite Hr. cbn [fst snd]. rewrite run_bind, run_writes. cbn [fst snd]. rewrite run_ret.
  eexists r, _. split; [reflexivity|]. cbn in Hfe. unfold ingested_total in Hto. cbn in Hto.
  split; [lia|]. split; [lia|].
  split; [|split; [by eapply (ix_indexed w w1)|split; [exact Hrec|exact (ix_kept _ _ Hi)]]].
  rewrite <-(ix_checkpoints _ _ Hi). reflexivity.
Qed.

Lemma consume_page_confined {A R} (G : relation World) `{!Reflexive G} (body : A → rpc_event → action (A + R))
    to evs s :
  (∀ s ev, confined G (body s ev)) → confined G (consume_page body to evs s).
Proof.
  intros Hb. revert s. induction evs as [|ev evs IH]; intros s; cbn [consume_page]; [done|].
  case_match; [done|]. apply confined_bind; [apply Hb|]. intros [s'|r]; [apply IH|done].
Qed.

Lemma fetchEvents_confined {A R} (G : relation World) `{!Reflexive G} (body : A → rpc_event → action (A + R))
    fuel from to cursor s :
  (∀ s ev, confined G (body s ev)) → confined G (fetchEvents body fuel o from to cursor s).
Proof.
  intros Hb. revert cursor s. induction fuel as [|fuel IH]; intros cursor s; cbn [fetchEvents]; [done|].
  apply confined_bind; [by intros w|]. intros page. destruct (events page) as [|e evs]; [done|].
  apply confined_bind; [by apply consume_page_confined|]. intros [[s' []]|r]; [done| |done].
  case_bool_decide; [done|]. apply IH.
Qed.

(** What the loop's state keeps through the body holds of the result. *)
Lemma fetchEvents_state {A} (P : A → Prop) (body : A → rpc_event → action (A + A)) fuel from to cursor s w :
  (∀ s ev w x, P s → (run (body s ev) w).1 = inr x → P (match x with inl a | inr a => a end)) →
  P s → ∀ x, (run (fetchEvents body fuel o from to cursor s) w).1 = inr x →
  P (match x with inl a | inr a => a end).
Proof.
  intros Hb. assert (∀ evs s w x, P s → (run (consume_page body to evs s) w).1 = inr x →
    P (match x with inl (a, _) | inr a => a end)) as Hcp.
  { intros evs. induction evs as [|ev evs IH]; intros s0 w0 x Hs; cbn [consume_page]; [by intros [= <-]|].
    case_match; [by intros [= <-]|]. rewrite run_bind. specialize (Hb s0 ev w0).
    destruct (run (body s0 ev) w0) as [[e|[s1|r]] w1]; cbn [fst snd] in *; [done| |].
    - apply IH. by apply (Hb (inl s1)).
    - intros [= <-]. by apply (Hb (inr r)). }
  revert cursor s w. induction fuel as [|fuel IH]; intros cursor s w Hs x; cbn [fetchEvents]; [done|].
  rewrite run_bind. destruct (run (rpc_getEvents _) w) as [[e|page] w1]; cbn [fst snd]; [done|].
  destruct (events page) as [|e evs]; [by intros [= <-]|]. rewrite run_bind.
  specialize (Hcp (e :: evs) s w1). destruct (run (consume_page _ _ _ _) w1) as [[er|y] w2]; cbn [fst snd] in *;
    [done|]. specialize (Hcp y Hs eq_refl). destruct y as [[s' []]|r]; [by intros [= <-]| |by intros [= <-]].
  case_bool_decide; [by intros [= <-]|]. by apply IH.
Qed.

Lemma poll_event_toLedger r ev w x :
  (run (poll_event o r ev) w).1 = inr x → toLedger (match x with inl a | inr a => a end) = toLedger r.
Proof.
  unfold poll_event. destruct (subscriptionForEvent o ev) as [s|].
  - rewrite run_bind. destruct (run (ingest o s ev) w) as [[e|out] w1]; cbn [fst snd]; [done|].
    rewrite run_ret. intros [= <-]. apply (count_event_fields out r).
  - rewrite run_ret. intros [= <-]. by destruct r.
Qed.

Definition same_checkpoints (w w' : World) : Prop := checkpoints w' = checkpoints w.
#[export] Instance same_checkpoints_preorder : PreOrder same_checkpoints.
Proof. split; [by intros w|]. intros w1 w2 w3 H1 H2. unfold same_checkpoints in *. by etrans. Qed.

Lemma log_update_checkpoints P f : confined same_checkpoints (EventLogModel.findOneAndUpdate P f).
Proof.
  intros w. split; [|done].
  destruct (EventLogModel.find_and_update _ f w) as [o' w2] eqn:Hu.
  by apply EventLogModel.log_find_and_update_inv in Hu as [(_ & -> & _)|(d & _ & _ & ->)].
Qed.

Lemma poll_event_checkpoints r ev : handlers_confined → confined same_checkpoints (poll_event o r ev).
Proof.
  intros Hh. unfold poll_event. destruct (subscriptionForEvent o ev) as [s|] eqn:Hs; [|done].
  apply confined_bind; [|done].
  assert (confined same_checkpoints (dispatch s ev)) as Hd.
  { apply confined_try_catch.
    - apply confined_bind.
      + eapply confined_mono; [|by apply Hh, (subscription_elem ev)]. by intros w1 w2 [].
      + intros _. apply confined_bind; [|done].
        apply confined_bind; [by intros w'|]. intros t. apply log_update_checkpoints.
    - intros e. apply confined_bind; [by intros w'|]. intros t.
      by apply confined_bind; [apply log_update_checkpoints|]. }
  unfold ingest. apply confined_bind; [by intros w'|]. intros [d|]; [by case_bool_decide|].
  apply confined_bind; [|by intros []]. apply confined_try_catch; [|intros e; by case_bool_decide].
  apply confined_bind; [|done]. intros w'. split; [|done]. cbn. by case_match.
Qed.

(** Whatever the node answers and whichever handlers fail, a cycle that
    fails leaves every checkpoint untouched, and one that succeeds only ever
    moves its own network's checkpoint forward, to the latest ledger it
    returned. *)
Theorem pollOnce_checkpoint fuel w r w' :
  handlers_confined → run (pollOnce fuel o) w = (r, w') →
  match r with
  | inl _ => checkpoints w' = checkpoints w
  | inr res =>
      (checkpoints w' = checkpoints w ∨ checkpoints w' = <[network o := toLedger res]> (checkpoints w)) ∧
      (∀ n, checkpoints w !! network o = Some n → ∃ n', checkpoints w' !! network o = Some n' ∧ (n ≤ n')%Z)
  end.
Proof.
  intros Hh. unfold pollOnce. rewrite run_bind, run_atomic_try. cbn [fst snd].
  destruct (getLatestLedger (now_ms w)) as [e|latest]; cbn [fst snd]; [by intros [= <- <-]|].
  rewrite run_bind, run_or_throw. destruct latest as [to|]; cbn [fst snd]; [|by intros [= <- <-]].
  unfold getCheckpoint, setCheckpoint. rewrite run_bind, run_reads. cbn [fst snd].
  set (from := first_ledger _ to).
  destruct (Z.ltb_spec to from) as [Hlt|Hge].
  { rewrite run_ret. intros [= <- <-]. split; [by left|]. intros n Hn. by exists n. }
  rewrite run_bind.
  pose proof (confined_run same_checkpoints _ w (fetchEvents_confined same_checkpoints (poll_event o) fuel from to None
    (mkPollResult from to 0 0 0 0) (λ s ev, poll_event_checkpoints s ev Hh))) as Hck.
  assert (∀ r1 w1, run (fetchEvents (poll_event o) fuel o from to None (mkPollResult from to 0 0 0 0)) w = (inr r1, w1) →
    toLedger (match r1 with inl r | inr r => r end) = to) as Hto.
  { intros r1 w1 Hr. apply (fetchEvents_state (λ r, toLedger r = to) (poll_event o) fuel from to None
      (mkPollResult from to 0 0 0 0) w); [|done|by rewrite Hr].
    intros s ev w2 x Hs Hx. by rewrite (poll_event_toLedger s ev w2 x Hx). }
  destruct (run (fetchEvents _ _ _ _ _ _ _) w) as [[e|r1] w1] eqn:Hr; cbn [fst snd] in *.
  { by intros [= <- <-]. }
  rewrite run_bind, run_writes. cbn [fst snd]. rewrite run_ret. intros [= <- <-].
  specialize (Hto _ _ eq_refl). rewrite Hto.
  change (checkpoints (w1 <| checkpoints ::= <[network o := to]> |>)) with (<[network o := to]> (checkpoints w1)).
  rewrite Hck. split; [by right|]. intros n Hn. exists to. split; [apply lookup_insert_eq|].
  unfold from, first_ledger in Hge. rewrite Hn in Hge. lia.
Qed.

(** *** Replay *)
Definition replay_body (l : EventLog) (_ : unit) (ev : rpc_event) : action (unit + rpc_event) :=
  mret (if matches_entry l ev then inr ev else inl tt).

Lemma run_replay_loop l evs w :
  run (for_events (replay_body l) evs tt) w =
    (inr match head (filter (λ ev, matches_entry l ev = true) evs) with
         | Some ev => inr ev | None => inl tt end, w).
Proof.
  induction evs as [|ev evs IH]; cbn [for_events]; [done|].
  rewrite run_bind.
  change (run (replay_body l tt ev) w) with
    (@inr error _ (if matches_entry l ev then inr ev else inl tt : unit + rpc_event), w).
  cbn [fst snd]. rewrite filter_cons.
  destruct (matches_entry l ev) eqn:Hm; [by rewrite decide_True by done|].
  by rewrite decide_False by done.
Qed.

(** Replaying an entry runs the handler subscribed to its event exactly
    once, on the event the node still serves at the entry's ledger with the
    recorded id, and changes nothing else; it fails, changing nothing, when
    the node no longer serves the event or no handler of the entry's type
    subscribes to its topic. *)
Theorem poller_replay_correct fuel stream cur l w :
  serves (now_ms w) o stream cur → (length stream < fuel)%nat →
  run (poller_replay fuel o l) w =
    match head (filter (λ ev, matches_entry l ev = true)
                 (window (ledgerSequence l) (ledgerSequence l) stream)) with
    | None => (inl (PlainError ("Event for tx=" +:+ transactionHash l
                 +:+ " is no longer available at ledger " +:+ pretty (ledgerSequence l))), w)
    | Some ev =>
        match subscriptionForEvent o ev with
        | Some s =>
            if decide (s_eventType s = eventType l) then run (s_handle s ev) w
            else (inl (PlainError ("No " +:+ eventType_string (eventType l)
                    +:+ " subscription handles the event for tx=" +:+ transactionHash l)), w)
        | None => (inl (PlainError ("No " +:+ eventType_string (eventType l)
                    +:+ " subscription handles the event for tx=" +:+ transactionHash l)), w)
        end
    end.
Proof.
  intros Hsv Hf. unfold poller_replay, findRecordedEvent. rewrite !run_bind.
  rewrite (run_fetchEvents (replay_body l) (λ s ev w, eq_refl) fuel o _ _ stream cur tt w Hsv Hf).
  rewrite run_replay_loop. cbn [fst snd]. destruct (head _) as [ev|]; rewrite run_ret; cbn [fst snd];
    rewrite run_bind, run_or_throw; cbn [fst snd]; [|done].
  destruct (subscriptionForEvent o ev) as [s|]; [|done].
  by case_bool_decide; case_decide.
Qed.

Lemma poller_replay_confined fuel l : handlers_confined → confined keeps_log (poller_replay fuel o l).
Proof.
  intros Hh. unfold poller_replay, findRecordedEvent.
  apply confined_bind; [apply confined_bind; [by apply fetchEvents_confined|done]|].
  intros found. apply confined_bind; [apply confined_or_throw|]. intros ev.
  destruct (subscriptionForEvent o ev) as [s|] eqn:Hs; [|done].
  case_bool_decide; [|done]. by apply Hh, (subscription_elem ev).
Qed.
End PollerProperties.

(** The default poller implements the interface of the retry service. *)
Section DefaultPollerFacts.
Context `{E : Env, C : DeliveryConsumers, COk : !DeliveryConsumersOk, K : StellarSdk, N : !SorobanRpc}.

Lemma default_handlers_confined : handlers_confined createDefaultPoller.
Proof.
  intros s ev ->%list_elem_of_singleton. cbn [s_handle].
  by apply confined_bind; [apply handleEscrowFunded_keeps_log|].
Qed.

Lemma getEventReplayer_ok fuel submit :
  (∀ i, confined keeps_log (submit i)) → @EventReplayerOk (getEventReplayer fuel submit).
Proof.
  intros Hs. split; [|exact Hs]. intros l. apply poller_replay_confined, default_handlers_confined.
Qed.
End DefaultPollerFacts.

(** ** Exactly one dispatch per event *)
Section Dedup.
Context `{E : Env, K : StellarSdk}.

(** An event whose transaction and type are already recorded as processed
    or failed is skipped: its handler does not run and nothing changes, even
    if it is another event of the same transaction. *)
Theorem recorded_event_skipped o sub ev w :
  EventLogModel.indexed (eventLogs w) → recorded (ev_txHash ev) (s_eventType sub) w →
  run (ingest o sub ev) w = (inr out_duplicates, w).
Proof.
  intros Hm (k & l & Hk & Hs & Hp). unfold ingest, EventLogModel.findOne.
  rewrite run_bind, run_reads. cbn [fst snd]. rewrite (find_same_event _ _ k l) by done.
  cbn [body]. by rewrite bool_decide_false by done.
Qed.
End Dedup.

(** ** Witnesses *)
Section PollerWitnesses.
#[local] Existing Instance example_sdk.

(** The example environment with ids of any length. *)
#[local] Instance poll_env : Env :=
  let e := ExampleEnv.env in {|
  isValidObjectId := @isValidObjectId e;
  newObjectId n := "id-" +:+ pretty n;
  ESCROW_LOCK_TTL_SECONDS := @ESCROW_LOCK_TTL_SECONDS e;
  ESCROW_FUNDING_WINDOW_SECONDS := @ESCROW_FUNDING_WINDOW_SECONDS e;
  USDC_ASSET_ISSUER := @USDC_ASSET_ISSUER e;
  NATIVE_TOKEN_CODE := @NATIVE_TOKEN_CODE e;
  NATIVE_TOKEN_ISSUER := @NATIVE_TOKEN_ISSUER e;
  PROOF_OF_DELIVERY_MAX_SIZE_MB := @PROOF_OF_DELIVERY_MAX_SIZE_MB e;
  UPLOAD_STORAGE_DRIVER := @UPLOAD_STORAGE_DRIVER e;
  REDIS_LOCK_RETRY_COUNT := @REDIS_LOCK_RETRY_COUNT e;
  REDLOCK_QUORUM_ERROR := @REDLOCK_QUORUM_ERROR e;
  EVENTLOG_RETRY_BASE_MS := @EVENTLOG_RETRY_BASE_MS e;
  EVENTLOG_RETRY_MAX_MS := @EVENTLOG_RETRY_MAX_MS e;
  EVENTLOG_RETRY_MAX_ATTEMPTS := @EVENTLOG_RETRY_MAX_ATTEMPTS e;
  EVENTLOG_RETRY_BATCH_SIZE := @EVENTLOG_RETRY_BATCH_SIZE e;
  ESCROW_CONTRACT_ID := @ESCROW_CONTRACT_ID e;
  ESCROW_FUNDED_EVENT_TOPIC := @ESCROW_FUNDED_EVENT_TOPIC e;
  STELLAR_NETWORK := @STELLAR_NETWORK e;
  getLatestLedger _ := inr (Some 103%Z)
|}.

Let cursor_of (n : nat) : string := Str.of_chars (replicate (S n) "c"%char).
Let chain_event (id tx : string) (ledger : Z) : rpc_event :=
  mkRpcEvent id tx ledger "" [NStr "escrow_funded"; NStr "d"] NNull.
(** Four events; the third one's handler fails, the fourth is past the head. *)
Let chain : list rpc_event :=
  [chain_event "e1" "tx-1" 100; chain_event "e2" "tx-2" 102; chain_event "e3" "bad" 103;
   chain_event "e4" "tx-4" 104].
Let position (r : SorobanGetEventsRequest) : nat :=
  match rq_cursor r with
  | Some c => pred (length (Str.chars c))
  | None => length (filter (λ ev, (ev_ledger ev < default 0 (startLedger r))%Z) chain)
  end.
(** A node that serves this chain. *)
#[local] Instance example_rpc : SorobanRpc := {|
  getEvents _ r :=
    let page := take (Z.to_nat (default 100%Z (rq_limit r))) (drop (position r) chain) in
    inr (mkEventsPage page (cursor_of (position r + length page)) 104)
|}.
Let poller : EventPollerOptions :=
  mkPollerOptions "testnet" "CESCROW"
    [mkSubscription ev_escrow_type "escrow_funded"
       (λ ev, throw_if (String.eqb (ev_txHash ev) "bad") (PlainError "handler failed"))] 2.
Let t1 : Z := 1700000000000.
Let w_synced : World := empty_world t1 <| checkpoints := {["testnet" := 101%Z]} |>.

Lemma chars_cursor n : Str.chars (cursor_of n) = replicate (S n) "c"%char.
Proof. apply Str.chars_of_chars. Qed.

Lemma position_cursor from n : position (request poller from (Some (cursor_of n))) = n.
Proof.
  change (pred (length (Str.chars (cursor_of n))) = n). by rewrite chars_cursor, length_replicate.
Qed.

Lemma position_first from :
  position (request poller from None) = length (filter (λ ev, (ev_ledger ev < from)%Z) chain).
Proof. reflexivity. Qed.

Lemma chain_served t : serves t poller chain cursor_of.
Proof.
  split.
  - repeat constructor; unfold ledger_le; cbn; lia.
  - done.
  - intros i. reflexivity.
  - intros i j Hij. apply (f_equal (λ s, length (Str.chars s))) in Hij.
    rewrite !chars_cursor, !length_replicate in Hij. lia.
  - intros from. exists (position (request poller from None)), 104%Z. split; [reflexivity|].
    rewrite position_first. unfold chain. rewrite !filter_cons. cbn [ev_ledger chain_event].
    repeat case_decide; cbn in *; try lia; split; repeat constructor; cbn; lia.
  - intros from n. exists 104%Z. cbv zeta.
    change (inr (mkEventsPage (take 2 (drop (position (request poller from (Some (cursor_of n)))) chain))
      (cursor_of (position (request poller from (Some (cursor_of n))) +
        length (take 2 (drop (position (request poller from (Some (cursor_of n)))) chain)))) 104%Z)
      = @inr error _ (mkEventsPage (take 2 (drop n chain)) (cursor_of (n + length (take 2 (drop n chain)))) 104%Z)).
    by rewrite position_cursor.
Qed.

Lemma poller_confined : handlers_confined poller.
Proof. intros s ev ->%list_elem_of_singleton. apply confined_throw_if. Qed.

Lemma poll_ids_inj : Inj (=) (=) (@newObjectId poll_env).
Proof. intros n m Hnm. by apply (inj (String.append "id-")), (inj pretty) in Hnm. Qed.

Lemma pollOnce_correct_witness :
  ∃ r w', run (pollOnce 5 poller) w_synced = (inr r, w') ∧ fetched r = 2%Z ∧
    checkpoints w' !! "testnet" = Some 103%Z ∧ recorded "bad" ev_escrow_type w'.
Proof.
  destruct (pollOnce_correct poller 5 103 chain cursor_of w_synced)
    as (r & w' & Hr & Hf & _ & Hc & _ & Hrec & _);
    [exact poller_confined|exact poll_ids_inj| |intros n _; reflexivity|reflexivity|apply chain_served
    |cbn; lia|vm_compute; discriminate|].
  { intros k1 l1 k2 l2 H. discriminate H. }
  exists r, w'. split; [exact Hr|]. split; [exact Hf|].
  split; [rewrite Hc; reflexivity|].
  apply (Hrec (chain_event "e3" "bad" 103) (mkSubscription ev_escrow_type "escrow_funded"
    (λ ev, throw_if (String.eqb (ev_txHash ev) "bad") (PlainError "handler failed")))); [|reflexivity].
  right. left.
Defined.

Lemma pollOnce_checkpoint_witness :
  ∃ r w', run (pollOnce 5 poller) w_synced = (inr r, w') ∧
    ∃ n, checkpoints w' !! "testnet" = Some n ∧ (101 ≤ n)%Z.
Proof.
  destruct (run (pollOnce 5 poller) w_synced) as [[e|r] w'] eqn:Hr.
  { exfalso. apply (f_equal (λ x, if x.1 is inl _ then true else false)) in Hr.
    vm_compute in Hr. discriminate Hr. }
  exists r, w'. split; [reflexivity|].
  destruct (pollOnce_checkpoint poller 5 w_synced (inr r) w' poller_confined Hr) as [_ Hn].
  by apply (Hn 101%Z).
Defined.

Lemma poller_replay_correct_witness :
  let l := mkEventLog ev_escrow_type "bad" 103 None (Some (mkEventData "e3" "")) None
             EventLogStatus.failed None 1 None None None t1 t1 in
  run (poller_replay 5 poller l) w_synced = (inl (PlainError "handler failed"), w_synced).
Proof.
  intros l. etrans; [apply (poller_replay_correct poller 5 chain cursor_of l w_synced)|reflexivity];
    [apply chain_served|cbn; lia].
Defined.

Lemma recorded_event_skipped_witness :
  let l := mkEventLog ev_escrow_type "tx-1" 100 None None None
             EventLogStatus.processed None 0 None None None t1 t1 in
  let w := w_synced <| eventLogs := {["id-0" := l]} |> in
  run (ingest poller (mkSubscription ev_escrow_type "escrow_funded" (λ _, throw (PlainError "called")))
         (chain_event "e7" "tx-1" 100)) w = (inr out_duplicates, w).
Proof.
  intros l w. apply recorded_event_skipped.
  - change (eventLogs w) with ({["id-0" := l]} : gmap string EventLog).
    by intros k1 l1 k2 l2 [<- <-]%lookup_singleton_Some [<- <-]%lookup_singleton_Some.
  - exists "id-0", l. split; [reflexivity|]. split; [reflexivity|discriminate].
Defined.
End PollerWitnesses.
