(* ===== verification/Idempotency.v ===== *)
(** * Idempotent requests

    [src/src/services/idempotency.service.ts] and
    [src/src/middlewares/idempotency.ts]: the records of idempotency keys in
    Redis, with the database as a shadow and a fallback, and the middleware
    that runs a handler once per key and replays its response. *)
From S2P Require Import Prelude JsLib.

(** ** The two stores *)
Module IdempotencyStatus.
Inductive t := processing | completed | failed.
#[global] Instance eq_dec : EqDecision t.
Proof. solve_decision. Defined.
End IdempotencyStatus.

Record IdempotencyPayload := mkPayload {
  i_status : IdempotencyStatus.t;
  responseStatus : option Z;
  responseBody : option json
}.

(** The connection to Redis: down, up, or up with every command failing. *)
Inductive RedisState := NotReady | Ready | Failing.
#[export] Instance RedisState_eq_dec : EqDecision RedisState.
Proof. solve_decision. Defined.

(** Values carry their expiry.  Redis hides an expired value; the database
    keeps a record until its TTL monitor removes it. *)
Record Store := mkStore {
  s_now : Z;
  redis : RedisState;
  redis_kv : gmap string (IdempotencyPayload * Z);
  records : gmap (string * string) (IdempotencyPayload * Z);
  started : list (string * string)
}.
#[export] Instance Store_eta : Settable Store := λ s,
  mkStore s.(s_now) s.(redis) s.(redis_kv) s.(records) s.(started).

Class IdempotencyConfig := { IDEMPOTENCY_TTL_SECONDS : Z }.

(** ** The service *)
Section IdempotencyService.
Context `{IdempotencyConfig}.

Definition redisKey (key endpoint : string) : string :=
  "idempotency:" +:+ endpoint +:+ ":" +:+ key.

Definition isRedisReady : prog Store bool := reads (λ s, bool_decide (s.(redis) ≠ NotReady)).

Definition live (t : Z) (v : option (IdempotencyPayload * Z)) : option IdempotencyPayload :=
  '(p, exp) ← v; if (t <? exp)%Z then Some p else None.

(** A Redis command. *)
Definition redis_command {A} (f : Store → A * Store) : prog Store A :=
  atomic_try (λ s, match s.(redis) with
                   | Ready => (inr (f s).1, (f s).2)
                   | _ => (inl (PlainError "Redis command failed"), s)
                   end).

Definition ttl_end (s : Store) : Z := (s.(s_now) + IDEMPOTENCY_TTL_SECONDS * 1000)%Z.

Definition getFromRedis (key endpoint : string) : prog Store (option IdempotencyPayload) :=
  ready ← isRedisReady;
  if ready : bool then
    try_catch (redis_command (λ s, (live s.(s_now) (s.(redis_kv) !! redisKey key endpoint), s)))
      (λ _, mret None)
  else mret None.

Definition setInRedis (key endpoint : string) (p : IdempotencyPayload) : prog Store bool :=
  ready ← isRedisReady;
  if ready : bool then
    try_catch
      (_ ← redis_command (λ s, (tt, s <| redis_kv ::= <[redisKey key endpoint := (p, ttl_end s)]> |>));
       mret true)
      (λ _, mret false)
  else mret false.

Definition updateInRedis : string → string → IdempotencyPayload → prog Store bool := setInRedis.

Definition payload_of (v : option (IdempotencyPayload * Z)) : option IdempotencyPayload := fst <$> v.

Definition getFromMongo (key endpoint : string) : prog Store (option IdempotencyPayload) :=
  reads (λ s, payload_of (s.(records) !! (key, endpoint))).

Definition setInMongo (key endpoint : string) (p : IdempotencyPayload) : prog Store unit :=
  atomic_try (λ s, match s.(records) !! (key, endpoint) with
                   | Some _ => (inl DuplicateKey, s)
                   | None => (inr tt, s <| records ::= <[(key, endpoint) := (p, ttl_end s)]> |>)
                   end).

Definition updateInMongo (key endpoint : string) (p : IdempotencyPayload) : prog Store unit :=
  writes (λ s, s <| records ::= alter (λ _, (p, ttl_end s)) (key, endpoint) |>).

Definition get (key endpoint : string) : prog Store (option IdempotencyPayload) :=
  fromRedis ← getFromRedis key endpoint;
  match fromRedis with
  | Some p => mret (Some p)
  | None => getFromMongo key endpoint
  end.

Definition in_flight : IdempotencyPayload := mkPayload IdempotencyStatus.processing None None.

Definition already_processing : error :=
  AppError "A request with this Idempotency-Key is already being processed. Please wait and retry."
    Http.CONFLICT.

(** [SET key value EX ttl NX]: whether the key was set. *)
Definition set_nx (key endpoint : string) : prog Store bool :=
  redis_command (λ s,
    match live s.(s_now) (s.(redis_kv) !! redisKey key endpoint) with
    | Some _ => (false, s)
    | None => (true, s <| redis_kv ::= <[redisKey key endpoint := (in_flight, ttl_end s)]> |>)
    end).

Definition set_on_insert (key endpoint : string) : prog Store unit :=
  writes (λ s, match s.(records) !! (key, endpoint) with
               | Some _ => s
               | None => s <| records ::= <[(key, endpoint) := (in_flight, ttl_end s)]> |>
               end).

(** What follows an accepted [NX]: the shadow write. *)
Definition shadow (key endpoint : string) : prog Store bool :=
  try_catch (_ ← setInMongo key endpoint in_flight; mret true) (λ _, mret true).

(** The [Redis] branch: [true] when it is done, [false] to fall through. *)
Definition mark_in_redis (key endpoint : string) : prog Store bool :=
  try_catch
    (fresh ← set_nx key endpoint;
     _ ← throw_if (negb fresh) already_processing;
     shadow key endpoint)
    (λ e, match e with AppError _ _ => throw e | _ => mret false end).

Definition markProcessing (key endpoint : string) : prog Store unit :=
  ready ← isRedisReady;
  done_ ← (if ready : bool then mark_in_redis key endpoint else mret false);
  if done_ : bool then mret tt else
  try_catch (set_on_insert key endpoint)
    (λ e, if bool_decide (e = DuplicateKey) then throw already_processing else throw e).

Definition mark_response (st : IdempotencyStatus.t) (key endpoint : string) (code : Z) (body : json)
    : prog Store unit :=
  let p := mkPayload st (Some code) (Some body) in
  _ ← updateInRedis key endpoint p;
  try_catch (updateInMongo key endpoint p) (λ _, mret tt).
Definition markCompleted : string → string → Z → json → prog Store unit :=
  mark_response IdempotencyStatus.completed.
Definition markFailed : string → string → Z → json → prog Store unit :=
  mark_response IdempotencyStatus.failed.
End IdempotencyService.

(** ** The middleware *)
Inductive Header := absent | single (v : string) | several (vs : list string).

Inductive RequestOutcome :=
  | Executed (code : Z) (body : json)
  | Replayed (st : IdempotencyStatus.t) (code : Z) (body : json).

Definition MAX_KEY_LENGTH : Z := 128.

Section Middleware.
Context `{IdempotencyConfig}.
(** The route's handler with the error handler behind it: it always answers. *)
Context (handler : prog Store (Z * json)).

Definition header_key (h : Header) : error + string :=
  let missing := AppError "Missing required header: Idempotency-Key. Include a unique UUID (v4 recommended) with every request to this endpoint." Http.UNPROCESSABLE_ENTITY in
  let blank := AppError "Idempotency-Key header must not be blank." Http.UNPROCESSABLE_ENTITY in
  let check k :=
    if negb (Str.truthy (Str.trim k)) then inl blank
    else if (MAX_KEY_LENGTH <? Str.length k)%Z
    then inl (AppError ("Idempotency-Key exceeds the maximum allowed length of "
                +:+ pretty MAX_KEY_LENGTH +:+ " characters.") Http.UNPROCESSABLE_ENTITY)
    else inr k in
  match h with
  | absent => inl missing
  | single k => if Str.truthy k then check k else inl missing
  | several [] => inl blank
  | several (k :: _) => check k
  end.

Definition is_success (code : Z) : bool := (200 <=? code)%Z && (code <? 300)%Z.

Definition null_as_empty (body : json) : json := match body with JNull => JObj [] | b => b end.

(** [next()] and the wrapped [res.json]. *)
Definition execute (key endpoint : string) : prog Store RequestOutcome :=
  _ ← writes (λ s, s <| started ::= (.++ [(key, endpoint)]) |>);
  '(code, body) ← handler;
  _ ← (if is_success code then markCompleted key endpoint code (null_as_empty body)
       else markFailed key endpoint code (null_as_empty body));
  mret (Executed code body).

Definition requireIdempotencyKey (endpoint : string) (h : Header) : prog Store RequestOutcome :=
  key ← Done (header_key h);
  existing ← get key endpoint;
  match existing with
  | Some p =>
      if bool_decide (i_status p = IdempotencyStatus.processing) then
        throw (AppError "A request with this Idempotency-Key is already being processed. Please wait for the original request to complete, then retry if needed." Http.CONFLICT)
      else mret (Replayed (i_status p) (nullish (responseStatus p) Http.OK)
                   (nullish (responseBody p) (JObj [])))
  | None =>
      _ ← markProcessing key endpoint;
      execute key endpoint
  end.
End Middleware.

(** ** Facts *)
Section IdempotencyFacts.
Context `{IdempotencyConfig}.

Lemma run_redis_command {A} (f : Store → A * Store) s :
  run (redis_command f) s =
    match redis s with
    | Ready => (inr (f s).1, (f s).2)
    | _ => (inl (PlainError "Redis command failed"), s)
    end.
Proof. unfold redis_command. rewrite run_atomic_try. by destruct (redis s). Qed.

Lemma run_get key endpoint s :
  run (get key endpoint) s =
    (inr (match redis s with
          | Ready => match live (s_now s) (redis_kv s !! redisKey key endpoint) with
                     | Some p => Some p
                     | None => payload_of (records s !! (key, endpoint))
                     end
          | _ => payload_of (records s !! (key, endpoint))
          end), s).
Proof.
  unfold get, getFromRedis, isRedisReady, getFromMongo. rewrite !run_bind, run_reads. cbn [fst snd].
  destruct (redis s) eqn:Hr.
  - rewrite bool_decide_false by auto. rewrite run_ret. cbn [fst snd]. by rewrite run_reads.
  - rewrite bool_decide_true by done. rewrite run_try_catch, run_redis_command, Hr. cbn [fst snd].
    destruct (live _ _); cbn [fst snd]; [by rewrite run_ret|by rewrite run_reads].
  - rewrite bool_decide_true by done. rewrite run_try_catch, run_redis_command, Hr. cbn [fst snd].
    rewrite run_ret. cbn [fst snd]. by rewrite run_reads.
Qed.

(** Where a payload was written to. *)
Definition stored_in (key endpoint : string) (p : IdempotencyPayload) (s s' : Store) : Prop :=
  s_now s' = s_now s ∧ redis s' = redis s ∧ started s' = started s ∧
  (redis_kv s' = if decide (redis s = Ready)
                 then <[redisKey key endpoint := (p, ttl_end s)]> (redis_kv s) else redis_kv s).

Lemma run_setInRedis key endpoint p s :
  ∃ b s', run (setInRedis key endpoint p) s = (inr b, s') ∧ stored_in key endpoint p s s' ∧
    records s' = records s.
Proof.
  unfold setInRedis, isRedisReady. rewrite run_bind, run_reads. cbn [fst snd].
  unfold stored_in. destruct (redis s) eqn:Hr.
  - rewrite bool_decide_false by auto. rewrite run_ret. by eexists _, s.
  - rewrite bool_decide_true by done. rewrite run_try_catch, run_bind, run_redis_command, Hr.
    cbn [fst snd]. rewrite run_ret. cbn [fst snd]. eexists _, _. split; [reflexivity|].
    split; [|reflexivity]. by split; [|split; [exact Hr|]].
  - rewrite bool_decide_true by done. rewrite run_try_catch, run_bind, run_redis_command, Hr.
    cbn [fst snd]. rewrite run_ret. cbn [fst snd]. by eexists _, s.
Qed.

(** A key that was marked: it has a record, and a live value in Redis if Redis
    took it. *)
Lemma run_markProcessing_fresh key endpoint s :
  (redis s = Ready → live (s_now s) (redis_kv s !! redisKey key endpoint) = None) →
  ∃ s', run (markProcessing key endpoint) s = (inr tt, s') ∧
    stored_in key endpoint in_flight s s' ∧ is_Some (records s' !! (key, endpoint)).
Proof.
  intros Hl. unfold markProcessing, isRedisReady. rewrite run_bind, run_reads. cbn [fst snd].
  assert (∀ s1 s' : Store, stored_in key endpoint in_flight s s1 → s' = s1 →
    ∃ s2, (run (set_on_insert key endpoint) s') = (inr tt, s2) ∧
      stored_in key endpoint in_flight s s2 ∧ is_Some (records s2 !! (key, endpoint))) as Hmongo.
  { intros s1 s' Hs ->. unfold set_on_insert. rewrite run_writes. eexists. split; [reflexivity|].
    destruct (records s1 !! (key, endpoint)) as [r|] eqn:Hrec; [by split; [|eexists]|].
    split; [done|]. eexists. apply lookup_insert_eq. }
  unfold stored_in in *. destruct (redis s) eqn:Hr.
  - rewrite bool_decide_false by auto. rewrite run_bind, run_ret. cbn [fst snd].
    rewrite run_try_catch. destruct (Hmongo s s) as (s2 & -> & Hs2); [by rewrite Hr|done|]. by exists s2.
  - rewrite bool_decide_true by done. unfold mark_in_redis, shadow, setInMongo, set_nx.
    rewrite run_bind, run_try_catch, run_bind, run_redis_command, Hr, Hl by done. cbn [fst snd].
    rewrite run_bind, run_throw_if. cbn [fst snd negb]. rewrite run_try_catch, run_bind, run_atomic_try.
    change (records (s <| redis_kv ::= _ |>)) with (records s).
    destruct (records s !! (key, endpoint)) as [r|] eqn:Hrec; cbn [fst snd]; rewrite run_ret;
      cbn [fst snd]; rewrite run_ret; eexists; (split; [reflexivity|]).
    + split; [done|]. change (records (s <| redis_kv ::= _ |>)) with (records s). by eexists.
    + split; [done|]. eexists. apply lookup_insert_eq.
  - rewrite bool_decide_true by done. unfold mark_in_redis, set_nx.
    rewrite run_bind, run_try_catch, run_bind, run_redis_command, Hr. cbn [fst snd].
    rewrite run_ret. cbn [fst snd]. rewrite run_try_catch.
    destruct (Hmongo s s) as (s2 & -> & Hs2); [by rewrite Hr|done|]. by exists s2.
Qed.

Lemma run_mark_response st key endpoint code body s :
  let p := mkPayload st (Some code) (Some body) in
  ∃ s', run (mark_response st key endpoint code body) s = (inr tt, s') ∧
    stored_in key endpoint p s s' ∧
    records s' = alter (λ _, (p, ttl_end s)) (key, endpoint) (records s).
Proof.
  intros p. unfold mark_response, updateInRedis, updateInMongo. rewrite run_bind.
  destruct (run_setInRedis key endpoint p s) as (b & s1 & Hr & (Hn & Hrs & Hst & Hkv) & Hrec).
  fold p. rewrite Hr. cbn [fst snd]. rewrite run_try_catch, run_writes. cbn [fst snd].
  eexists. split; [reflexivity|]. split.
  - split; [exact Hn|]. split; [exact Hrs|]. split; [exact Hst|exact Hkv].
  - assert (ttl_end s = ttl_end s1) as -> by (unfold ttl_end; by rewrite Hn). by rewrite <-Hrec.
Qed.
End IdempotencyFacts.

(** ** Properties *)
Section IdempotencyProperties.
Context `{IdempotencyConfig}.

(** What a handler may not touch. *)
Record keeps_keys (s s' : Store) : Prop := {
  kk_redis : redis s' = redis s;
  kk_kv : redis_kv s' = redis_kv s;
  kk_records : records s' = records s
}.
#[export] Instance keeps_keys_preorder : PreOrder keeps_keys.
Proof. split; [by intros s|]. intros s1 s2 s3 [] []. split; by etrans. Qed.

Lemma run_execute handler key endpoint s code body s' :
  confined keeps_keys handler →
  run (execute handler key endpoint) s = (inr (Executed code body), s') →
  is_Some (records s !! (key, endpoint)) →
  let st := if is_success code then IdempotencyStatus.completed else IdempotencyStatus.failed in
  let p := mkPayload st (Some code) (Some (null_as_empty body)) in
  (∃ exp, records s' !! (key, endpoint) = Some (p, exp)) ∧
  (if decide (redis s = Ready) then ∃ exp, redis_kv s' !! redisKey key endpoint = Some (p, exp)
   else redis_kv s' = redis_kv s).
Proof.
  intros Hc Hr Hrec. unfold execute in Hr. rewrite run_bind, run_writes in Hr. cbn [fst snd] in Hr.
  set (s0 := s <| started ::= _ |>) in *. rewrite run_bind in Hr.
  pose proof (confined_run keeps_keys _ s0 Hc) as [Hk1 Hk2 Hk3].
  destruct (run handler s0) as [[e|[c b]] s1]; cbn [fst snd] in *; [done|].
  assert (∃ st, st = (if is_success c then IdempotencyStatus.completed else IdempotencyStatus.failed) ∧
    (if is_success c then markCompleted key endpoint c (null_as_empty b)
     else markFailed key endpoint c (null_as_empty b)) = mark_response st key endpoint c (null_as_empty b))
    as (st & Hst & Hm) by (by destruct (is_success c); eexists).
  rewrite run_bind, Hm in Hr.
  destruct (run_mark_response st key endpoint c (null_as_empty b) s1)
    as (s2 & Hr2 & (_ & _ & _ & Hkv) & Hrec2).
  rewrite Hr2 in Hr. cbn [fst snd] in Hr. rewrite run_ret in Hr. injection Hr as <- <- <-.
  cbv zeta. rewrite <-Hst. split.
  - rewrite Hrec2, Hk3. destruct Hrec as [r Hrec].
    change (records s0) with (records s). rewrite lookup_alter_eq, Hrec. by eexists.
  - rewrite Hkv, Hk1. change (redis s0) with (redis s).
    destruct (decide (redis s = Ready)) as [Hd|Hd].
    + eexists. apply lookup_insert_eq.
    + by rewrite Hk2.
Qed.

(** A request that ran its handler is never run again: the same key on the
    same endpoint answers with the recorded status and body, and touches
    nothing, at any later time and whatever has become of the Redis connection
    in between, as long as both stores keep what they hold. *)
Theorem request_replayed handler handler' endpoint h key s code body s1 s2 :
  confined keeps_keys handler → header_key h = inr key →
  redis_kv s !! redisKey key endpoint = None →
  run (requireIdempotencyKey handler endpoint h) s = (inr (Executed code body), s1) →
  redis_kv s2 = redis_kv s1 → records s2 = records s1 →
  run (requireIdempotencyKey handler' endpoint h) s2 =
    (inr (Replayed (if is_success code then IdempotencyStatus.completed else IdempotencyStatus.failed)
            code (null_as_empty body)), s2).
Proof.
  intros Hc Hh Hnone Hr Hkv Hrec. unfold requireIdempotencyKey in *. rewrite Hh in *.
  rewrite run_bind, run_done in Hr. cbn [fst snd] in Hr. rewrite run_bind, run_get in Hr.
  cbn [fst snd] in Hr.
  assert (match redis s with
          | Ready => match live (s_now s) (redis_kv s !! redisKey key endpoint) with
                     | Some p => Some p
                     | None => payload_of (records s !! (key, endpoint))
                     end
          | _ => payload_of (records s !! (key, endpoint)) end = payload_of (records s !! (key, endpoint)))
    as Hget by (rewrite Hnone; by destruct (redis s)).
  rewrite Hget in Hr. destruct (payload_of _) as [p|]; [destruct (bool_decide _); discriminate Hr|].
  rewrite run_bind in Hr.
  destruct (run_markProcessing_fresh key endpoint s) as (sm & Hm & (Hn & Hrs & _ & Hkvm) & Hsome).
  { intros _. by rewrite Hnone. }
  rewrite Hm in Hr. cbn [fst snd] in Hr. apply run_execute in Hr as [[exp He] Hre]; [|done|done].
  set (p := mkPayload _ _ _) in *.
  assert (payload_of (records s2 !! (key, endpoint)) = Some p) as Hmongo by (by rewrite Hrec, He).
  assert (match redis s2 with
          | Ready => match live (s_now s2) (redis_kv s2 !! redisKey key endpoint) with
                     | Some p => Some p
                     | None => payload_of (records s2 !! (key, endpoint))
                     end
          | _ => payload_of (records s2 !! (key, endpoint)) end = Some p) as Hg.
  { destruct (redis s2); try done. rewrite Hkv, Hmongo. rewrite Hrs in Hre.
    destruct (decide (redis s = Ready)) as [Hrd|Hrd].
    - destruct Hre as [exp' ->]. unfold live. cbn. by destruct (s_now s2 <? exp')%Z.
    - by rewrite Hre, Hkvm, Hnone. }
  rewrite run_bind, run_done. cbn [fst snd]. rewrite run_bind, run_get, Hg. cbn [fst snd].
  unfold p. cbn [i_status responseStatus responseBody nullish default].
  destruct (is_success code); cbn; by rewrite bool_decide_false.
Qed.

(** *** Concurrent first requests *)
Definition after_nx (key endpoint : string) : prog Store unit :=
  done_ ← try_catch (shadow key endpoint) (λ e, match e with AppError _ _ => throw e | _ => mret false end);
  if done_ : bool then mret tt else
  try_catch (set_on_insert key endpoint)
    (λ e, if bool_decide (e = DuplicateKey) then throw already_processing else throw e).

Definition in_redis (key endpoint : string) : prog Store unit :=
  done_ ← mark_in_redis key endpoint;
  if done_ : bool then mret tt else
  try_catch (set_on_insert key endpoint)
    (λ e, if bool_decide (e = DuplicateKey) then throw already_processing else throw e).

Inductive mark_phase (key endpoint : string) : prog Store unit → Prop :=
  | mark_start : mark_phase key endpoint (markProcessing key endpoint)
  | mark_ready : mark_phase key endpoint (in_redis key endpoint)
  | mark_shadow : mark_phase key endpoint (after_nx key endpoint)
  | mark_over r : mark_phase key endpoint (Done r).

Definition admitted (key endpoint : string) (p : prog Store unit) : Prop :=
  p = after_nx key endpoint ∨ p = Done (inr tt).

Definition key_taken (key endpoint : string) (s : Store) : Prop :=
  is_Some (live (s_now s) (redis_kv s !! redisKey key endpoint)).

Let probe : Store := mkStore 0 Ready ∅ ∅ [].

Lemma not_admitted key endpoint p :
  redis_kv (run p probe).2 !! redisKey key endpoint ≠ None → ¬ admitted key endpoint p.
Proof.
  intros Hp Ha. unfold admitted in Ha. destruct Ha as [-> | ->]; apply Hp; [|done]. unfold after_nx, shadow, setInMongo.
  rewrite run_bind, !run_try_catch, run_bind, run_atomic_try. cbn [fst snd records probe].
  rewrite lookup_empty. cbn [fst snd]. rewrite run_ret. cbn [fst snd]. by rewrite run_ret.
Qed.

Lemma start_not_admitted key endpoint :
  ¬ admitted key endpoint (markProcessing key endpoint) ∧ ¬ admitted key endpoint (in_redis key endpoint).
Proof.
  assert (redis_kv (run (markProcessing key endpoint) probe).2 !! redisKey key endpoint ≠ None) as Hp.
  { destruct (run_markProcessing_fresh key endpoint probe) as (s' & -> & (_ & _ & _ & Hkv) & _); [done|].
    cbn [snd]. rewrite Hkv. rewrite decide_True by done. by rewrite lookup_insert_eq. }
  split; apply not_admitted; exact Hp.
Qed.

Lemma mark_exclusive_steps key endpoint :
  (0 < IDEMPOTENCY_TTL_SECONDS)%Z →
  exclusive_steps (λ s, redis s = Ready) (key_taken key endpoint) (mark_phase key endpoint)
    (admitted key endpoint).
Proof.
  intros Httl B op k s Hph Hok.
  cut (mark_phase key endpoint (step1 (Step op k) s).1 ∧ redis (step1 (Step op k) s).2 = Ready ∧
    (key_taken key endpoint s → key_taken key endpoint (step1 (Step op k) s).2) ∧
    (admitted key endpoint (step1 (Step op k) s).1 → admitted key endpoint (Step op k) ∨
       ¬ key_taken key endpoint s ∧ key_taken key endpoint (step1 (Step op k) s).2)); [done|].
  destruct Hph as [| | |r].
  - assert (step1 (markProcessing key endpoint) s = (in_redis key endpoint, s)) as ->.
    { unfold markProcessing, isRedisReady. cbn. by rewrite Hok. }
    cbn [fst snd]. split; [constructor|].
    split; [done|]. split; [done|]. by intros ?%start_not_admitted.
  - unfold in_redis, mark_in_redis, set_nx, redis_command. cbn. rewrite Hok. cbn.
    unfold key_taken. destruct (live (s_now s) (redis_kv s !! redisKey key endpoint)) as [p|] eqn:Hl; cbn.
    + split; [constructor|]. split; [done|]. split; [by rewrite Hl|]. by intros [?|?].
    + split; [apply mark_shadow|]. split; [done|]. split; [by intros []|]. intros _. right.
      split; [by intros []|].
      change (is_Some (live (s_now s) (<[redisKey key endpoint := (in_flight, ttl_end s)]> (redis_kv s)
        !! redisKey key endpoint))).
      rewrite lookup_insert_eq. unfold live, ttl_end. cbn.
      destruct (Z.ltb_spec (s_now s) (s_now s + IDEMPOTENCY_TTL_SECONDS * 1000)); [by eexists|lia].
  - unfold after_nx, shadow, setInMongo. cbn. unfold key_taken.
    destruct (records s !! (key, endpoint)); cbn; (split; [constructor|]); (split; [done|]);
      (split; [done|]); intros _; left; by left.
  - cbn. split; [constructor|]. split; [done|]. split; [done|]. intros ?. by left.
Qed.

(** C26: while Redis answers, however many requests with one key race, at most
    one is admitted to its handler; every other one is refused with 409. *)
Theorem markProcessing_exclusive key endpoint n sched s i j :
  redis s = Ready → (0 < IDEMPOTENCY_TTL_SECONDS)%Z →
  let ps := (interleave sched (replicate n (markProcessing key endpoint)) s).1 in
  ps !! i = Some (Done (inr tt)) → ps !! j = Some (Done (inr tt)) → i = j.
Proof.
  intros Hr Httl ps Hi Hj.
  assert (exclusive (λ s, redis s = Ready) (key_taken key endpoint) (mark_phase key endpoint)
    (admitted key endpoint) (replicate n (markProcessing key endpoint)) s) as Hex.
  { apply exclusive_start; [done|]. intros p [-> _]%elem_of_replicate.
    split; [constructor|]. apply start_not_admitted. }
  apply (exclusive_interleave _ _ _ _ sched _ _ (mark_exclusive_steps key endpoint Httl)) in Hex.
  by apply (ex_unique _ _ _ _ _ _ Hex i j _ _ Hi Hj); right.
Qed.

(** Without Redis the guard admits everyone: the upsert of the database
    path never fails, so a request is admitted even while another one with
    the same key is in flight. *)
Theorem mongo_only_not_exclusive key endpoint s :
  redis s ≠ Ready → ∃ s', run (markProcessing key endpoint) s = (inr tt, s').
Proof.
  intros Hr. destruct (run_markProcessing_fresh key endpoint s) as (s' & Hs & _); [done|]. by exists s'.
Qed.
End IdempotencyProperties.

(** ** Witnesses *)
Section IdempotencyWitnesses.
#[local] Instance example_ttl : IdempotencyConfig := {| IDEMPOTENCY_TTL_SECONDS := 86400 |}.
Let store (r : RedisState) : Store := mkStore 1700000000000 r ∅ ∅ [].
Let respond (code : Z) : prog Store (Z * json) := mret (code, JStr "created").

(** Redis fails during the request, and is back for its repetition. *)
Lemma request_replayed_witness :
  ∃ s1, run (requireIdempotencyKey (respond 201) "POST:/api/deliveries" (single "k-1")) (store Failing) =
      (inr (Executed 201 (JStr "created")), s1) ∧
    run (requireIdempotencyKey (respond 500) "POST:/api/deliveries" (single "k-1")) (s1 <| redis := Ready |>) =
      (inr (Replayed IdempotencyStatus.completed 201 (JStr "created")), s1 <| redis := Ready |>).
Proof.
  destruct (run (requireIdempotencyKey (respond 201) "POST:/api/deliveries" (single "k-1")) (store Failing))
    as [r s1] eqn:Hr.
  assert (r = inr (Executed 201 (JStr "created"))) as ->.
  { apply (f_equal fst) in Hr. vm_compute in Hr. by symmetry. }
  exists s1. split; [reflexivity|].
  apply (request_replayed (respond 201) (respond 500) "POST:/api/deliveries" (single "k-1") "k-1"
    (store Failing) 201 (JStr "created") s1); [done|reflexivity|reflexivity|exact Hr|reflexivity|reflexivity].
Defined.

Lemma markProcessing_exclusive_witness :
  let ps := (interleave [0; 1; 0; 1; 1; 0; 0]%nat
    (replicate 2 (markProcessing "k-1" "POST:/api/deliveries")) (store Ready)).1 in
  ps !! 0%nat = Some (Done (inr tt)) ∧ ps !! 1%nat ≠ Some (Done (inr tt)).
Proof.
  intros ps. assert (ps !! 0%nat = Some (Done (inr tt))) as H0 by (vm_compute; reflexivity).
  split; [exact H0|]. intros H1.
  assert (0 < IDEMPOTENCY_TTL_SECONDS)%Z as Httl by reflexivity.
  discriminate (markProcessing_exclusive "k-1" "POST:/api/deliveries" 2 [0; 1; 0; 1; 1; 0; 0]%nat
    (store Ready) 0 1 eq_refl Httl H0 H1).
Defined.

(** A request is in flight; another one with its key is admitted. *)
Lemma mongo_only_not_exclusive_witness :
  let s := store NotReady <| records := {[("k-1", "POST:/api/deliveries") := (in_flight, 1800000000000%Z)]} |> in
  ∃ s', run (markProcessing "k-1" "POST:/api/deliveries") s = (inr tt, s').
Proof. intros s. apply mongo_only_not_exclusive. discriminate. Defined.
End IdempotencyWitnesses.
