(* ===== verification/MessageQueue.v ===== *)
(** * The socket message queue ([src/src/sockets/messageQueue.ts])

    The in-memory queue that gives driver-bound socket messages at-least-once
    delivery: enqueueing with a bound, delivery and its ACK timers, retries,
    reconnect flushes and disconnects.  Every method is synchronous, so a
    method is a function on the service's state; the event loop is the
    sequence of calls.  Objects that only matter by identity (emitters and
    sockets) are numbers. *)
From S2P Require Import Prelude JsLib.

(** ** Messages and state *)
Inductive MessageStatus := m_pending | m_in_flight | m_exhausted.
#[export] Instance MessageStatus_eq_dec : EqDecision MessageStatus.
Proof. solve_decision. Defined.

Record QueuedSocketMessage := mkMessage {
  m_id : string;
  m_userId : string;
  m_event : string;
  m_payload : json;
  queuedAt : Z;
  m_updatedAt : Z;
  ackRequired : bool;
  m_retries : Z;
  ackTimeoutMs : Z;
  m_maxRetries : Z;
  deliveredConnectionId : option nat;
  m_status : MessageStatus;
  lastAttemptAt : option Z
}.
#[export] Instance Message_eta : Settable QueuedSocketMessage := λ m,
  mkMessage m.(m_id) m.(m_userId) m.(m_event) m.(m_payload) m.(queuedAt) m.(m_updatedAt)
    m.(ackRequired) m.(m_retries) m.(ackTimeoutMs) m.(m_maxRetries)
    m.(deliveredConnectionId) m.(m_status) m.(lastAttemptAt).

Record EnqueueSocketMessageOptions := mkEnqueueOptions {
  o_ackRequired : option bool;
  o_ackTimeoutMs : option Z;
  o_maxRetries : option Z
}.

(** What reached a client: the emitter it went through and the message. *)
Record Emission := mkEmission { em_emitter : nat; em_user : string; em_message : string }.

Record MessageQueue := mkQueue {
  mq_now : Z;
  uuids : nat;
  queues : gmap string (list QueuedSocketMessage);
  timers : gset (string * string);
  emitters : gmap string nat;
  activeConnectionId : gmap string nat;
  connectionIds : gmap nat nat;
  connectionSeq : nat;
  emitted : list Emission
}.
#[export] Instance MessageQueue_eta : Settable MessageQueue := λ s,
  mkQueue s.(mq_now) s.(uuids) s.(queues) s.(timers) s.(emitters) s.(activeConnectionId)
    s.(connectionIds) s.(connectionSeq) s.(emitted).

Class MessageQueueOptions := {
  defaultAckTimeoutMs : Z;
  maxQueueSize : Z;
  maxRetries : Z;
  (** [env.ts] refuses a bound below one ([enqueue] would not return). *)
  maxQueueSize_min : (1 ≤ maxQueueSize)%Z;
  (** [randomUUID]: the [n]-th id it hands out; it hands none out twice. *)
  randomUUID : nat → string;
  randomUUID_inj : Inj (=) (=) randomUUID
}.

Definition empty_queue (t : Z) : MessageQueue := mkQueue t 0 ∅ ∅ ∅ ∅ ∅ 0 [].

(** ** Operations *)
Section Operations.
Context `{MessageQueueOptions}.
Implicit Types (s : MessageQueue) (u : string).

Definition queue_of s u : list QueuedSocketMessage := default [] (s.(queues) !! u).

Definition clearTimer u (id : string) s : MessageQueue :=
  s <| timers ::= λ ts, ts ∖ {[(u, id)]} |>.

(** Mutate the queued message object with an id. *)
Definition mutate u (id : string) (f : QueuedSocketMessage → QueuedSocketMessage) s : MessageQueue :=
  s <| queues ::= alter (fmap (λ m, if String.eqb (m_id m) id then f m else m)) u |>.

(** [acknowledge]. *)
Definition acknowledge (userId messageId : string) s : bool * MessageQueue :=
  let u := Str.trim userId in
  match (if Str.truthy u then s.(queues) !! u else None) with
  | Some q =>
      match list_find (λ m, m_id m = messageId) q with
      | None => (false, s)
      | Some (i, _) =>
          let q' := delete i q in
          let s := clearTimer u messageId s in
          (true, s <| queues ::= λ qs, if decide (q' = []) then delete u qs else <[u := q']> qs |>)
      end
  | None => (false, s)
  end.

(** The eviction loop: drop the oldest while the queue is at its bound. *)
Fixpoint evict u (q : list QueuedSocketMessage) s : list QueuedSocketMessage * MessageQueue :=
  match q with
  | m :: q' =>
      if (maxQueueSize <=? Z.of_nat (length q))%Z then evict u q' (clearTimer u (m_id m) s) else (q, s)
  | [] => ([], s)
  end.

Definition new_message u (event : string) (payload : json) (o : EnqueueSocketMessageOptions) s
    : QueuedSocketMessage :=
  mkMessage (randomUUID s.(uuids)) u event payload s.(mq_now) s.(mq_now) (nullish (o_ackRequired o) true)
    0 (nullish (o_ackTimeoutMs o) defaultAckTimeoutMs) (nullish (o_maxRetries o) maxRetries)
    None m_pending None.

Definition enqueue (userId event : string) (payload : json) (o : EnqueueSocketMessageOptions) s
    : (error + QueuedSocketMessage) * MessageQueue :=
  let u := Str.trim userId in
  if negb (Str.truthy u) then (inl (PlainError "userId is required to queue a socket message"), s)
  else if negb (Str.truthy (Str.trim event))
  then (inl (PlainError "event name is required to queue a socket message"), s)
  else
    let m := new_message u event payload o s in
    let '(q, s) := evict u (queue_of s u) (s <| uuids ::= S |>) in
    (inr m, s <| queues ::= <[u := q ++ [m]]> |>).

Definition getPending (userId : string) s : list QueuedSocketMessage := queue_of s (Str.trim userId).

(** [resolveConnectionId]. *)
Definition resolveConnectionId (owner : nat) s : nat * MessageQueue :=
  match s.(connectionIds) !! owner with
  | Some c => (c, s)
  | None =>
      let c := S s.(connectionSeq) in
      (c, s <| connectionSeq := c |> <| connectionIds ::= <[owner := c]> |>)
  end.

Definition armAckTimer u (m : QueuedSocketMessage) s : MessageQueue :=
  if negb (ackRequired m) || (ackTimeoutMs m <=? 0)%Z then s
  else let s := clearTimer u (m_id m) s in s <| timers ::= λ ts, {[(u, m_id m)]} ∪ ts |>.

Definition emit (e : nat) u (m : QueuedSocketMessage) s : MessageQueue :=
  s <| emitted ::= (.++ [mkEmission e u (m_id m)]) |>.

Definition attempted_on (conn : option nat) (t : Z) (m : QueuedSocketMessage) : QueuedSocketMessage :=
  m <| m_updatedAt := t |> <| lastAttemptAt := Some t |> <| deliveredConnectionId := conn |>.

Definition deliver u (m : QueuedSocketMessage) (e : nat) (conn : option nat) s : MessageQueue :=
  let s := mutate u (m_id m) (attempted_on conn s.(mq_now)) s in
  if negb (ackRequired m) then (acknowledge u (m_id m) (emit e u m s)).2
  else
    let s := mutate u (m_id m) (set m_status (λ _, m_in_flight)) s in
    armAckTimer u m (emit e u m s).

(** The loop of [flush] over a copy of the queue. *)
Fixpoint flush_loop u (e c : nat) (l : list QueuedSocketMessage) s : nat * MessageQueue :=
  match l with
  | [] => (0%nat, s)
  | m :: l =>
      if bool_decide (deliveredConnectionId m = Some c) then flush_loop u e c l s
      else let '(n, s) := flush_loop u e c l (deliver u m e (Some c) s) in (S n, s)
  end.

Definition flush (userId : string) (e owner : nat) s : nat * MessageQueue :=
  let u := Str.trim userId in
  if negb (Str.truthy u) then (0%nat, s) else
  match queue_of s u with
  | [] => (0%nat, s)
  | q =>
      let '(c, s) := resolveConnectionId owner s in
      let s := s <| emitters ::= <[u := e]> |> <| activeConnectionId ::= <[u := c]> |> in
      flush_loop u e c q s
  end.

Definition ack_required_options : EnqueueSocketMessageOptions := mkEnqueueOptions (Some true) None None.

(** [sendWithAck] on a socket with its emitter; no message for an anonymous
    socket.  An emitter is a function that emits and returns.  The code takes
    [socket.emit] off its socket, so here the socket has to be one whose [emit]
    does without its receiver, as its declared type allows; the method of a
    Socket.IO socket throws when it is called like this. *)
Definition sendWithAck (userId : string) (e socket : nat) (event : string) (payload : json) s
    : (error + option QueuedSocketMessage) * MessageQueue :=
  let u := Str.trim userId in
  if negb (Str.truthy u) then (inr None, s) else
  match enqueue u event payload ack_required_options s with
  | (inl er, s) => (inl er, s)
  | (inr m, s) =>
      let '(c, s) := resolveConnectionId socket s in
      let s := s <| emitters ::= <[u := e]> |> <| activeConnectionId ::= <[u := c]> |> in
      (inr (Some m), deliver u m e (Some c) s)
  end.

Definition rewind (t : Z) (m : QueuedSocketMessage) : QueuedSocketMessage :=
  if bool_decide (m_status m = m_in_flight)
  then m <| m_status := m_pending |> <| deliveredConnectionId := None |> <| m_updatedAt := t |>
  else m.

Definition clear_timers u (q : list QueuedSocketMessage) s : MessageQueue :=
  foldl (λ s m, clearTimer u (m_id m) s) s q.

Definition in_flight_count (q : list QueuedSocketMessage) : nat :=
  length (filter (λ m, m_status m = m_in_flight) q).

Definition handleDisconnect (userId : string) s : nat * MessageQueue :=
  let u := Str.trim userId in
  if negb (Str.truthy u) then (0%nat, s) else
  let s := s <| emitters ::= delete u |> <| activeConnectionId ::= delete u |> in
  match s.(queues) !! u with
  | None => (0%nat, s)
  | Some q =>
      (in_flight_count q, clear_timers u q s <| queues ::= <[u := rewind s.(mq_now) <$> q]> |>)
  end.

(** [clear]: one user's messages, or all of them. *)
Definition clear (userId : option string) s : nat * MessageQueue :=
  match userId with
  | Some raw =>
      if Str.truthy raw then
        let u := Str.trim raw in
        let q := queue_of s u in
        (length q, clear_timers u q s <| queues ::= delete u |> <| emitters ::= delete u |>
                     <| activeConnectionId ::= delete u |>)
      else
        (sum_list (length ∘ snd <$> map_to_list s.(queues)),
         foldl (λ s kv, foldl (λ s m, clearTimer (m_userId m) (m_id m) s) s kv.2) s
           (map_to_list s.(queues)) <| queues := ∅ |> <| emitters := ∅ |> <| activeConnectionId := ∅ |>)
  | None =>
      (sum_list (length ∘ snd <$> map_to_list s.(queues)),
       foldl (λ s kv, foldl (λ s m, clearTimer (m_userId m) (m_id m) s) s kv.2) s
         (map_to_list s.(queues)) <| queues := ∅ |> <| emitters := ∅ |> <| activeConnectionId := ∅ |>)
  end.

(** [handleAckTimeout], when an armed timer fires. *)
Definition handleAckTimeout u (id : string) s : MessageQueue :=
  let s := clearTimer u id s in
  match list_find (λ m, m_id m = id) (queue_of s u) with
  | None => s
  | Some (_, m) =>
      if negb (ackRequired m) || bool_decide (m_status m = m_exhausted) then s
      else if (m_maxRetries m <=? m_retries m)%Z
      then mutate u id (λ m, m <| m_status := m_exhausted |> <| m_updatedAt := s.(mq_now) |>) s
      else match s.(emitters) !! u with
           | None => mutate u id (λ m, m <| m_status := m_pending |> <| deliveredConnectionId := None |>) s
           | Some e =>
               let s := mutate u id (set m_retries Z.succ) s in
               deliver u m e (s.(activeConnectionId) !! u) s
           end
  end.

Definition fire_timer u (id : string) s : MessageQueue :=
  if decide ((u, id) ∈ s.(timers)) then handleAckTimeout u id s else s.

(** *** The service as a transition system *)
Inductive queue_op :=
  | op_enqueue (userId event : string) (payload : json) (o : EnqueueSocketMessageOptions)
  | op_flush (userId : string) (e owner : nat)
  | op_send (userId : string) (e socket : nat) (event : string) (payload : json)
  | op_ack (userId messageId : string)
  | op_timer (u id : string)
  | op_disconnect (userId : string)
  | op_clear (userId : option string)
  | op_wait (ms : Z).

Definition exec (op : queue_op) s : MessageQueue :=
  match op with
  | op_enqueue u ev p o => (enqueue u ev p o s).2
  | op_flush u e o => (flush u e o s).2
  | op_send u e so ev p => (sendWithAck u e so ev p s).2
  | op_ack u id => (acknowledge u id s).2
  | op_timer u id => fire_timer u id s
  | op_disconnect u => (handleDisconnect u s).2
  | op_clear u => (clear u s).2
  | op_wait ms => s <| mq_now ::= Z.add (Z.max 0 ms) |>
  end.

Definition trace (ops : list queue_op) s : MessageQueue := foldl (λ s op, exec op s) s ops.
End Operations.

(** ** One user's part of the state *)
Section UserState.
Context `{MessageQueueOptions}.
Implicit Types (s : MessageQueue) (u : string).

(** The keys the service files a user under: trimmed and not blank. *)
Definition normal u : Prop := Str.trim u = u ∧ Str.truthy u = true.

Definition has_timer s u id : Prop := (u, id) ∈ s.(timers).

Record message_ok u s (m : QueuedSocketMessage) : Prop := {
  mo_user : m_userId m = u;
  mo_retries : (0 ≤ m_retries m ≤ Z.max 0 (m_maxRetries m))%Z;
  mo_id : ∃ n, (n < uuids s)%nat ∧ m_id m = randomUUID n;
  mo_conn c : deliveredConnectionId m = Some c → (c ≤ connectionSeq s)%nat;
  mo_flight : m_status m = m_in_flight →
    ackRequired m = true ∧ is_Some (emitters s !! u) ∧ is_Some (deliveredConnectionId m) ∧
    is_Some (lastAttemptAt m) ∧ ((0 < ackTimeoutMs m)%Z → has_timer s u (m_id m))
}.

(** The guarantees about one user: the bound, distinct ids, retry budgets, and
    that timers and in-flight messages go together. *)
Record user_ok u s : Prop := {
  uo_nonempty : queues s !! u ≠ Some [];
  uo_bound : (Z.of_nat (length (queue_of s u)) ≤ maxQueueSize)%Z;
  uo_ids : NoDup (m_id <$> queue_of s u);
  uo_messages : Forall (message_ok u s) (queue_of s u);
  uo_timers id : has_timer s u id →
    ∃ m, m ∈ queue_of s u ∧ m_id m = id ∧ m_status m = m_in_flight;
  uo_active : is_Some (emitters s !! u) ↔ is_Some (activeConnectionId s !! u);
  uo_conn c : activeConnectionId s !! u = Some c → (c ≤ connectionSeq s)%nat;
  uo_normal : queue_of s u ≠ [] → normal u
}.

Record conns_ok s : Prop := {
  co_range o c : connectionIds s !! o = Some c → (1 ≤ c ≤ connectionSeq s)%nat;
  co_inj o1 o2 c : connectionIds s !! o1 = Some c → connectionIds s !! o2 = Some c → o1 = o2
}.

Definition wf s : Prop := (∀ u, user_ok u s) ∧ conns_ok s.

(** What a change leaves alone of a user. *)
Record same_user u s s' : Prop := {
  su_queue : queues s' !! u = queues s !! u;
  su_timers id : has_timer s' u id ↔ has_timer s u id;
  su_emitter : emitters s' !! u = emitters s !! u;
  su_active : activeConnectionId s' !! u = activeConnectionId s !! u
}.
(** The counters only grow. *)
Record grows s s' : Prop := {
  gr_uuids : (uuids s ≤ uuids s')%nat;
  gr_conns : (connectionSeq s ≤ connectionSeq s')%nat
}.
#[export] Instance grows_preorder : PreOrder grows.
Proof. split; [by intros s|]. intros s1 s2 s3 [] []. split; lia. Qed.
#[export] Instance same_user_preorder u : PreOrder (same_user u).
Proof.
  split; [by intros s|]. intros s1 s2 s3 [Q1 T1 E1 A1] [Q2 T2 E2 A2].
  split; [by rewrite Q2|intros id; by rewrite T2|by rewrite E2|by rewrite A2].
Qed.

(** A method called for [u] touches no other user. *)
Definition only_user u s s' : Prop := grows s s' ∧ ∀ u', u' ≠ u → same_user u' s s'.
#[export] Instance only_user_preorder u : PreOrder (only_user u).
Proof.
  split; [by intros s|]. intros s1 s2 s3 [G1 S1] [G2 S2]. split; [by etrans|].
  intros u' Hu. etrans; [by apply S1|by apply S2].
Qed.

Lemma queue_of_same u s s' : queues s' !! u = queues s !! u → queue_of s' u = queue_of s u.
Proof. unfold queue_of. by intros ->. Qed.

(** An ACK is owed for a queued message. *)
Definition owed u id s : Prop := ∃ m, m ∈ queue_of s u ∧ m_id m = id ∧ ackRequired m = true.

(** A change that queues nothing and loses no message an ACK is owed for. *)
Record steady u s s' : Prop := {
  st_order : (m_id <$> queue_of s' u) `sublist_of` (m_id <$> queue_of s u);
  st_owed id : owed u id s → owed u id s'
}.
#[export] Instance steady_preorder u : PreOrder (steady u).
Proof. split; [by intros s|]. intros s1 s2 s3 [] []. split; [by etrans|auto]. Qed.

Lemma steady_same u s s' : queue_of s' u = queue_of s u → steady u s s'.
Proof. intros Hq. split; unfold owed; by rewrite Hq. Qed.

Lemma message_ok_mono u s s' m :
  grows s s' → emitters s' !! u = emitters s !! u →
  (∀ id, has_timer s u id → has_timer s' u id) → message_ok u s m → message_ok u s' m.
Proof.
  intros [Hu Hc] He Ht [Mu Mr (n & Hn & Mi) Mc Mf]. split; [done|done| | |].
  - exists n. split; [lia|done].
  - intros c Hd. specialize (Mc c Hd). lia.
  - rewrite He. intros Hs. destruct (Mf Hs) as (? & ? & ? & ? & Htm).
    do 4 (split; [done|]). auto.
Qed.

Lemma user_ok_same u s s' : grows s s' → same_user u s s' → user_ok u s → user_ok u s'.
Proof.
  intros Hg [Hq Ht He Ha] [Un Ub Ui Um Ut Ue Uc Utr]. pose proof (queue_of_same _ _ _ Hq) as Hqo.
  split; rewrite ?Hq, ?Hqo, ?He, ?Ha; try done.
  - eapply Forall_impl; [exact Um|]. intros m. apply message_ok_mono; [done|done|].
    intros id. by rewrite Ht.
  - intros id. rewrite Ht. apply Ut.
  - intros c Hc. specialize (Uc c Hc). destruct Hg. lia.
Qed.

Lemma wf_only_user u s s' :
  wf s → only_user u s s' → user_ok u s' → conns_ok s' → wf s'.
Proof.
  intros [Hw _] [Hg Hs] Hu Hc. split; [|done]. intros u'.
  destruct (decide (u' = u)) as [->|Hne]; [done|]. eapply user_ok_same; eauto.
Qed.

(** *** Small steps *)
Lemma clearTimer_only u id s : only_user u s (clearTimer u id s).
Proof.
  split; [by split|]. intros u' Hu. split; [done| |done|done]. intros id'. unfold has_timer.
  change (timers (clearTimer u id s)) with (timers s ∖ {[(u, id)]}).
  rewrite elem_of_difference, elem_of_singleton. split; [by intros []|]. intros Hi. split; [done|].
  by intros [= ? _].
Qed.

Lemma mutate_only u id f s : only_user u s (mutate u id f s).
Proof.
  split; [by split|]. intros u' Hu. split; [|done|done|done].
  change (queues (mutate u id f s)) with
    (alter (fmap (λ m, if String.eqb (m_id m) id then f m else m)) u (queues s)).
  by apply lookup_alter_ne.
Qed.

Lemma queue_of_mutate u id f s :
  queue_of (mutate u id f s) u = (λ m, if String.eqb (m_id m) id then f m else m) <$> queue_of s u.
Proof.
  unfold queue_of. change (queues (mutate u id f s)) with
    (alter (fmap (λ m, if String.eqb (m_id m) id then f m else m)) u (queues s)).
  rewrite lookup_alter_eq. by destruct (queues s !! u).
Qed.

Lemma mutate_nonempty u id f s : queues s !! u ≠ Some [] → queues (mutate u id f s) !! u ≠ Some [].
Proof.
  change (queues (mutate u id f s)) with
    (alter (fmap (λ m, if String.eqb (m_id m) id then f m else m)) u (queues s)).
  rewrite lookup_alter_eq. by destruct (queues s !! u) as [[]|].
Qed.

Lemma mutate_ids id f (q : list QueuedSocketMessage) :
  (∀ m, m_id (f m) = m_id m) →
  m_id <$> ((λ m, if String.eqb (m_id m) id then f m else m) <$> q) = m_id <$> q.
Proof.
  intros Hf. rewrite <-list_fmap_compose. apply list_fmap_ext. intros i m _. cbn.
  by destruct (String.eqb (m_id m) id).
Qed.

Lemma armAckTimer_eq u m s :
  armAckTimer u m s =
    if negb (ackRequired m) || (ackTimeoutMs m <=? 0)%Z then s
    else s <| timers := {[(u, m_id m)]} ∪ (timers s ∖ {[(u, m_id m)]}) |>.
Proof. unfold armAckTimer. by destruct (_ || _). Qed.

(** *** Removing a message *)
Definition remove u (id : string) s : MessageQueue := (acknowledge u id s).2.

Lemma trim_fixed u : Str.trim (Str.trim u) = Str.trim u.
Proof. apply Str.trim_idemp. Qed.

Lemma find_message_by_id id (q : list QueuedSocketMessage) i m :
  NoDup (m_id <$> q) → q !! i = Some m → m_id m = id →
  list_find (λ m, m_id m = id) q = Some (i, m).
Proof.
  intros Hnd Hi Hid. apply list_find_Some. split; [done|]. split; [done|].
  intros j y Hj Hlt Hy. assert (j = i); [|lia].
  eapply (NoDup_lookup _ _ _ (m_id m) Hnd); rewrite list_lookup_fmap; [rewrite Hj|rewrite Hi];
    cbn; congruence.
Qed.

Lemma acknowledge_inv u id s b s' :
  normal u → acknowledge u id s = (b, s') →
  (b = false ∧ s' = s ∧ ∀ m, m ∈ queue_of s u → m_id m ≠ id) ∨
  (b = true ∧ ∃ i m, queue_of s u !! i = Some m ∧ m_id m = id ∧
     queue_of s' u = delete i (queue_of s u) ∧ queues s' !! u ≠ Some [] ∧ only_user u s s' ∧
     emitters s' = emitters s ∧ activeConnectionId s' = activeConnectionId s ∧
     connectionIds s' = connectionIds s ∧ emitted s' = emitted s ∧
     ∀ id', has_timer s' u id' ↔ has_timer s u id' ∧ id' ≠ id).
Proof.
  intros [Hu Htr]. unfold acknowledge, queue_of. rewrite Hu, Htr.
  destruct (queues s !! u) as [q|] eqn:Hq.
  2: { intros [= <- <-]. left. split; [done|]. split; [done|]. by intros m []%not_elem_of_nil. }
  cbn [default]. destruct (list_find _ q) as [[i m]|] eqn:Hf.
  - intros [= <- <-]. right. split; [done|]. apply list_find_Some in Hf as (Hi & Hid & _).
    exists i, m. split; [done|]. split; [done|].
    set (s1 := clearTimer u id s <| queues ::= _ |>).
    assert (queues s1 = if decide (delete i q = []) then delete u (queues s)
      else <[u := delete i q]> (queues s)) as Hqs by reflexivity.
    split; [|split; [|split; [|do 4 (split; [reflexivity|])]]].
    + rewrite Hqs. case_decide as Hd;
        [rewrite lookup_delete_eq; by symmetry|by rewrite lookup_insert_eq].
    + rewrite Hqs. case_decide as Hd; [by rewrite lookup_delete_eq|]. rewrite lookup_insert_eq. congruence.
    + etrans; [apply (clearTimer_only u id)|]. split; [by split|]. intros u' Hne.
      split; [|done|done|done]. rewrite Hqs.
      change (queues (clearTimer u id s)) with (queues s).
      case_decide; [by rewrite lookup_delete_ne|by rewrite lookup_insert_ne].
    + intros id'. unfold has_timer. change (timers s1) with (timers s ∖ {[(u, id)]}).
      rewrite elem_of_difference, elem_of_singleton. split; intros [Ht1 Hne]; (split; [done|]); congruence.
  - intros [= <- <-]. left. split; [done|]. split; [done|]. intros m Hm Hid.
    apply list_find_None in Hf. rewrite Forall_forall in Hf. by apply (Hf m).
Qed.

Lemma same_id u s m1 m2 :
  user_ok u s → m1 ∈ queue_of s u → m2 ∈ queue_of s u → m_id m1 = m_id m2 → m1 = m2.
Proof.
  intros Hu (i & Hi)%list_elem_of_lookup_1 (j & Hj)%list_elem_of_lookup_1 Hid.
  assert (i = j) as ->; [|congruence].
  eapply (NoDup_lookup _ _ _ (m_id m1) (uo_ids _ _ Hu)); rewrite list_lookup_fmap; [by rewrite Hi|].
  rewrite Hj. cbn. congruence.
Qed.

(** *** Delivering *)
Definition delivered (conn : option nat) (t : Z) (m : QueuedSocketMessage) : QueuedSocketMessage :=
  attempted_on conn t m <| m_status := m_in_flight |>.

(** The state after the delivery of a message that wants an ACK. *)
Record delivered_state u (m : QueuedSocketMessage) (e : nat) (conn : option nat) s s' : Prop := {
  ds_queue : queue_of s' u =
    (λ x, if String.eqb (m_id x) (m_id m) then delivered conn (mq_now s) x else x) <$> queue_of s u;
  ds_nonempty : queues s !! u ≠ Some [] → queues s' !! u ≠ Some [];
  ds_only : only_user u s s';
  ds_emitters : emitters s' = emitters s;
  ds_active : activeConnectionId s' = activeConnectionId s;
  ds_conns : connectionIds s' = connectionIds s;
  ds_seq : connectionSeq s' = connectionSeq s;
  ds_emitted : emitted s' = emitted s ++ [mkEmission e u (m_id m)];
  ds_timer id : has_timer s' u id ↔
    has_timer s u id ∨ (id = m_id m ∧ (0 < ackTimeoutMs m)%Z)
}.

Lemma deliver_acked u m e conn s :
  ackRequired m = true → delivered_state u m e conn s (deliver u m e conn s).
Proof.
  intros Hack. unfold deliver. rewrite Hack. cbn [negb].
  set (s1 := mutate u (m_id m) (attempted_on conn (mq_now s)) s).
  set (s2 := mutate u (m_id m) (set m_status (λ _, m_in_flight)) s1).
  set (s3 := emit e u m s2). rewrite armAckTimer_eq, Hack. cbn [negb orb].
  assert (queue_of s3 u =
    (λ x, if String.eqb (m_id x) (m_id m) then delivered conn (mq_now s) x else x) <$> queue_of s u) as Hq.
  { change (queue_of s3 u) with (queue_of s2 u). unfold s2, s1. rewrite !queue_of_mutate.
    rewrite <-list_fmap_compose. apply list_fmap_ext. intros i x _. cbn.
    destruct (String.eqb (m_id x) (m_id m)) eqn:Hx.
    - change (m_id (attempted_on conn (mq_now s) x)) with (m_id x). by rewrite Hx.
    - by rewrite Hx. }
  assert (only_user u s s3) as Ho.
  { etrans; [apply (mutate_only u (m_id m) (attempted_on conn (mq_now s)))|].
    etrans; [apply (mutate_only u (m_id m) (set m_status (λ _, m_in_flight)))|].
    split; [by split|]. intros u' _. by split. }
  assert (queues s !! u ≠ Some [] → queues s3 !! u ≠ Some []) as Hne.
  { intros Hne. by do 2 apply mutate_nonempty. }
  destruct (Z.leb_spec (ackTimeoutMs m) 0).
  - split; try done. intros id. split; [by left|]. intros [?|[_ ?]]; [done|lia].
  - set (s4 := s3 <| timers := _ |>).
    assert (∀ u' id, has_timer s4 u' id ↔ has_timer s u' id ∨ (u' = u ∧ id = m_id m)) as Ht.
    { intros u' id. unfold has_timer.
      change (timers s4) with ({[(u, m_id m)]} ∪ (timers s ∖ {[(u, m_id m)]})).
      rewrite elem_of_union, elem_of_difference, !elem_of_singleton.
      destruct (decide ((u', id) = (u, m_id m))) as [[= -> ->]|Hd]; [split; [by right|by left]|].
      split; [intros [?|[? _]]; [done|by left]|]. intros [?|[-> ->]]; [by right|done]. }
    split; try done.
    + etrans; [exact Ho|]. split; [by split|]. intros u' Hu'. split; [done| |done|done].
      intros id. rewrite Ht. change (has_timer s3 u' id) with (has_timer s u' id). tauto.
    + intros id. rewrite Ht. split; intros [?|[? ?]]; auto.
Qed.

Lemma deliver_fire_forget u m e conn s :
  ackRequired m = false →
  deliver u m e conn s = remove u (m_id m) (emit e u m (mutate u (m_id m) (attempted_on conn (mq_now s)) s)).
Proof. intros Hack. unfold deliver. by rewrite Hack. Qed.

(** What [deliver] keeps: everything about the queue's other messages. *)
Record delivery u (id : string) (e c : nat) s s' : Prop := {
  dl_ok : user_ok u s';
  dl_only : only_user u s s';
  dl_emitters : emitters s' = emitters s;
  dl_active : activeConnectionId s' = activeConnectionId s;
  dl_conns : connectionIds s' = connectionIds s;
  dl_emitted : emitted s' = emitted s ++ [mkEmission e u id];
  dl_others m : m ∈ queue_of s u → m_id m ≠ id → m ∈ queue_of s' u;
  dl_steady : steady u s s';
  dl_back m : m ∈ queue_of s' u →
    (m_id m = id ∧ deliveredConnectionId m = Some c) ∨ (m ∈ queue_of s u ∧ m_id m ≠ id)
}.

Lemma delivered_ok u m c t x s s' :
  message_ok u s x → grows s s' → ackRequired x = true → is_Some (emitters s' !! u) →
  (c ≤ connectionSeq s)%nat → ((0 < ackTimeoutMs x)%Z → has_timer s' u (m_id x)) → m_id x = m_id m →
  message_ok u s' (delivered (Some c) t x).
Proof.
  intros [Mu Mr (n & Hn & Mi) Mc Mf] [G1 G2] Hack He Hc Ht Hid. split.
  - exact Mu.
  - exact Mr.
  - exists n. split; [lia|exact Mi].
  - intros c' [= <-]. lia.
  - intros _. split; [exact Hack|]. split; [done|]. split; [by eexists|]. split; [by eexists|exact Ht].
Qed.

Lemma elem_of_delete_id (q : list QueuedSocketMessage) i m x :
  NoDup (m_id <$> q) → q !! i = Some m → x ∈ delete i q ↔ x ∈ q ∧ m_id x ≠ m_id m.
Proof.
  intros Hnd Hi. rewrite (list_elem_of_lookup (delete i q)), (list_elem_of_lookup q).
  assert (∀ j y, q !! j = Some y → m_id y = m_id m → j = i) as Hu.
  { intros j y Hj Hy. eapply (NoDup_lookup _ _ _ (m_id m) Hnd); rewrite list_lookup_fmap;
      [by rewrite Hj; cbn; rewrite Hy|by rewrite Hi]. }
  split.
  - intros [j Hj]. destruct (decide (j < i)%nat).
    + rewrite list_lookup_delete_lt in Hj by done. split; [by exists j|]. intros Hx.
      pose proof (Hu _ _ Hj Hx). lia.
    + rewrite list_lookup_delete_ge in Hj by lia. split; [by exists (S j)|]. intros Hx.
      pose proof (Hu _ _ Hj Hx). lia.
  - intros [[j Hj] Hne]. destruct (decide (j < i)%nat).
    + exists j. by rewrite list_lookup_delete_lt.
    + exists (pred j). assert (j ≠ i) by congruence. rewrite list_lookup_delete_ge by lia.
      by replace (S (pred j)) with j by lia.
Qed.

Lemma remove_ok u id s :
  user_ok u s → normal u →
  user_ok u (remove u id s) ∧ only_user u s (remove u id s) ∧
  emitters (remove u id s) = emitters s ∧ activeConnectionId (remove u id s) = activeConnectionId s ∧
  connectionIds (remove u id s) = connectionIds s ∧ emitted (remove u id s) = emitted s ∧
  ∀ m, m ∈ queue_of (remove u id s) u ↔ m ∈ queue_of s u ∧ m_id m ≠ id.
Proof.
  intros Huo Hu. unfold remove. destruct (acknowledge u id s) as [b s'] eqn:Hack. cbn [snd].
  apply acknowledge_inv in Hack as [(_ & -> & Hno)|(_ & i & m & Hi & Hid & Hq & Hne & Ho & He & Ha & Hcn & Hem & Ht)];
    [|idtac|done].
  { split; [done|]. split; [done|]. do 4 (split; [done|]). intros m. split; [|by intros []].
    intros Hm. split; [done|by apply Hno]. }
  destruct Huo as [Un Ub Ui Um Ut Ue Uc Utr]. rewrite Forall_forall in Um.
  assert (∀ x, x ∈ queue_of s' u ↔ x ∈ queue_of s u ∧ m_id x ≠ id) as Hel.
  { intros x. by rewrite Hq, (elem_of_delete_id _ _ m), Hid. }
  split; [|by do 5 (split; [done|])]. pose proof Ho as [Hg _]. split.
  - done.
  - rewrite Hq, length_delete by by eexists. lia.
  - rewrite Hq. apply (sublist_NoDup _ (m_id <$> queue_of s u)); [done|]. apply fmap_sublist, sublist_delete.
  - apply Forall_forall. intros x [Hx Hxi]%Hel. destruct (Um x Hx) as [Mu Mr (n & Hn & Mi) Mc Mf].
    destruct Hg as [G1 G2]. split; [done|done|exists n; split; [lia|done]| |].
    + intros c Hc. specialize (Mc c Hc). lia.
    + intros Hs. destruct (Mf Hs) as (? & ? & ? & ? & Htm). rewrite He. do 4 (split; [done|]).
      intros Hpos. apply Ht. auto.
  - intros id' [Hi' Hne']%Ht. destruct (Ut id' Hi') as (x & Hx & Hxi & Hxs). exists x.
    split; [|done]. apply Hel. split; [done|congruence].
  - by rewrite He, Ha.
  - rewrite Ha. intros c Hc. specialize (Uc c Hc). destruct Hg. lia.
  - done.
Qed.

Lemma remove_order u id s :
  user_ok u s → normal u → (m_id <$> queue_of (remove u id s) u) `sublist_of` (m_id <$> queue_of s u).
Proof.
  intros _ Hu. unfold remove. destruct (acknowledge u id s) as [b s'] eqn:Hack. cbn [snd].
  apply acknowledge_inv in Hack as [(_ & -> & _)|(_ & i & m & _ & _ & -> & _)]; [done| |done].
  apply fmap_sublist, sublist_delete.
Qed.

Lemma deliver_ok u m m0 e c s :
  user_ok u s → normal u → m0 ∈ queue_of s u → m_id m0 = m_id m →
  ackRequired m0 = ackRequired m → ackTimeoutMs m0 = ackTimeoutMs m →
  is_Some (emitters s !! u) → (c ≤ connectionSeq s)%nat →
  delivery u (m_id m) e c s (deliver u m e (Some c) s).
Proof.
  intros Huo Hu Hm0 Hid Hack Htm He Hc. pose proof Huo as [Un Ub Ui Um Ut Ue Uc Utr].
  rewrite Forall_forall in Um.
  destruct (ackRequired m) eqn:Ha.
  - pose proof (deliver_acked u m e (Some c) s Ha) as [Dq Dn Do De Da Dc Ds Dem Dt].
    set (s' := deliver u m e (Some c) s) in *. clearbody s'. pose proof Do as [Hg _].
    assert (∀ x, x ∈ queue_of s u → m_id x = m_id m → x = m0) as Hx0.
    { intros x Hx Hxi. apply (same_id u s); [done..|congruence]. }
    split; try done.
    + split.
      * auto.
      * by rewrite Dq, length_fmap.
      * by rewrite Dq, mutate_ids.
      * rewrite Dq. apply Forall_fmap, Forall_forall. intros x Hx. cbn.
        destruct (String.eqb_spec (m_id x) (m_id m)) as [Hxi|Hxi].
        -- rewrite (Hx0 x Hx Hxi). apply (delivered_ok u m c (mq_now s) m0 s);
             [by apply Um|done|congruence|by rewrite De|done| |done].
           intros Hpos. apply Dt. right. split; [done|]. by rewrite <-Htm.
        -- apply (message_ok_mono u s); [done|by rewrite De| |by apply Um].
           intros id Hi. apply Dt. by left.
      * intros id [Hi|[-> Hpos]]%Dt.
        -- destruct (Ut id Hi) as (x & Hx & Hxi & Hxs). rewrite Dq.
           destruct (String.eqb_spec (m_id x) (m_id m)) as [Hxm|Hxm].
           ++ exists (delivered (Some c) (mq_now s) x). split; [|by split].
              apply list_elem_of_fmap. exists x. split; [|done].
              by rewrite (proj2 (String.eqb_eq _ _) Hxm).
           ++ exists x. split; [|done]. apply list_elem_of_fmap. exists x. split; [|done].
              by rewrite (proj2 (String.eqb_neq _ _) Hxm).
        -- exists (delivered (Some c) (mq_now s) m0). split; [|by split]. rewrite Dq.
           apply list_elem_of_fmap. exists m0. split; [|done].
           by rewrite (proj2 (String.eqb_eq _ _) Hid).
      * by rewrite De, Da.
      * rewrite Da, Ds. exact Uc.
      * done.
    + intros x Hx Hxi. rewrite Dq. apply list_elem_of_fmap. exists x. split; [|done].
      by rewrite (proj2 (String.eqb_neq _ _) Hxi).
    + split; [by rewrite Dq, mutate_ids|]. intros id (x & Hx & Hxi & Hxa).
      destruct (String.eqb_spec (m_id x) (m_id m)) as [Hxm|Hxm].
      * exists (delivered (Some c) (mq_now s) x). split; [|by split]. rewrite Dq.
        apply list_elem_of_fmap. exists x. split; [|done]. by rewrite (proj2 (String.eqb_eq _ _) Hxm).
      * exists x. split; [|done]. rewrite Dq. apply list_elem_of_fmap. exists x. split; [|done].
        by rewrite (proj2 (String.eqb_neq _ _) Hxm).
    + intros x. rewrite Dq. intros (y & -> & Hy)%list_elem_of_fmap.
      destruct (String.eqb_spec (m_id y) (m_id m)); [by left|by right].
  - rewrite (deliver_fire_forget u m e (Some c) s Ha).
    set (s1 := emit e u m (mutate u (m_id m) (attempted_on (Some c) (mq_now s)) s)).
    assert (queue_of s1 u = (λ x, if String.eqb (m_id x) (m_id m)
      then attempted_on (Some c) (mq_now s) x else x) <$> queue_of s u) as Hq
      by apply queue_of_mutate.
    assert (only_user u s s1) as Ho.
    { etrans; [apply (mutate_only u (m_id m) (attempted_on (Some c) (mq_now s)))|].
      split; [by split|]. intros u' _. by split. }
    assert (user_ok u s1) as Hok1.
    { split.
      - by apply (mutate_nonempty u (m_id m) (attempted_on (Some c) (mq_now s))).
      - by rewrite Hq, length_fmap.
      - by rewrite Hq, mutate_ids.
      - rewrite Hq. apply Forall_fmap, Forall_forall. intros x Hx. cbn.
        destruct (String.eqb_spec (m_id x) (m_id m)) as [Hxi|Hxi].
        + assert (x = m0) as -> by (apply (same_id u s); [done..|congruence]).
          destruct (Um m0 Hm0) as [Mu Mr Mi Mc Mf]. split; [done|done|done|by intros c' [= <-]|].
          intros Hs. destruct (Mf Hs) as [Hbad _]. congruence.
        + apply (message_ok_mono u s); [by destruct Ho|done|done|by apply Um].
      - intros id Hi. destruct (Ut id Hi) as (x & Hx & Hxi & Hxs).
        destruct (String.eqb_spec (m_id x) (m_id m)) as [Hxm|Hxm].
        + assert (x = m0) as -> by (apply (same_id u s); [done..|congruence]).
          destruct (mo_flight _ _ _ (Um m0 Hm0) Hxs) as [Hbad _]. congruence.
        + exists x. split; [|done]. rewrite Hq. apply list_elem_of_fmap. exists x. split; [|done].
          by rewrite (proj2 (String.eqb_neq _ _) Hxm).
      - exact Ue.
      - exact Uc.
      - done. }
    destruct (remove_ok u (m_id m) s1 Hok1 Hu) as (Hok2 & Ho2 & He2 & Ha2 & Hc2 & Hem2 & Hel).
    split; [done|by etrans|done|done|done|done| | |].
    + intros x Hx Hxi. apply Hel. split; [|done]. rewrite Hq. apply list_elem_of_fmap. exists x.
      split; [|done]. by rewrite (proj2 (String.eqb_neq _ _) Hxi).
    + split.
      * etrans; [apply remove_order; [exact Hok1|exact Hu]|]. by rewrite Hq, mutate_ids.
      * intros id (x & Hx & Hxi & Hax). assert (m_id x ≠ m_id m) as Hxm.
        { intros Hxm. assert (x = m0) as -> by (apply (same_id u s); [done..|congruence]). congruence. }
        exists x. split; [|done]. apply Hel. split; [|done]. rewrite Hq. apply list_elem_of_fmap.
        exists x. split; [|done]. by rewrite (proj2 (String.eqb_neq _ _) Hxm).
    + intros x [Hx Hxi]%Hel. right. split; [|done]. rewrite Hq in Hx.
      apply list_elem_of_fmap in Hx as (y & -> & Hy).
      by destruct (String.eqb_spec (m_id y) (m_id m)).
Qed.

(** *** Flushing *)
Lemma resolve_spec owner s c s' :
  conns_ok s → resolveConnectionId owner s = (c, s') →
  conns_ok s' ∧ (1 ≤ c ≤ connectionSeq s')%nat ∧ connectionIds s' !! owner = Some c ∧ grows s s' ∧
  (connectionIds s !! owner = None → c = S (connectionSeq s)) ∧
  (connectionIds s !! owner = Some c → s' = s) ∧
  mq_now s' = mq_now s ∧ queues s' = queues s ∧ timers s' = timers s ∧ emitters s' = emitters s ∧
  activeConnectionId s' = activeConnectionId s ∧ emitted s' = emitted s.
Proof.
  intros [Hr Hi]. unfold resolveConnectionId. destruct (connectionIds s !! owner) as [c0|] eqn:Ho.
  - intros [= <- <-]. split; [by split|]. split; [by eapply Hr|]. repeat (split; [done|]). done.
  - intros [= <- <-]. set (s' := s <| connectionSeq := _ |> <| connectionIds ::= _ |>).
    assert (connectionIds s' = <[owner := S (connectionSeq s)]> (connectionIds s) ∧
      connectionSeq s' = S (connectionSeq s)) as [Hc Hs] by done.
    split; [|split; [lia|split; [by rewrite Hc, lookup_insert_eq|split; [split; [done|lia]|done]]]].
    split.
    + intros o c. rewrite Hc, Hs. intros [[<- <-]|[_ Hl]]%lookup_insert_Some; [lia|].
      specialize (Hr o c Hl). lia.
    + intros o1 o2 c. rewrite Hc. intros [[<- <-]|[_ Hl1]]%lookup_insert_Some
        [[<- Hx]|[_ Hl2]]%lookup_insert_Some; [done| | |by eapply Hi].
      * specialize (Hr _ _ Hl2). lia.
      * subst c. specialize (Hr _ _ Hl1). lia.
Qed.

(** Registering the connection a user is reached through. *)
Definition connect u (e c : nat) s : MessageQueue :=
  s <| emitters ::= <[u := e]> |> <| activeConnectionId ::= <[u := c]> |>.

Lemma connect_ok u e c s :
  user_ok u s → (c ≤ connectionSeq s)%nat →
  user_ok u (connect u e c s) ∧ only_user u s (connect u e c s) ∧ emitters (connect u e c s) !! u = Some e.
Proof.
  intros [Un Ub Ui Um Ut Ue Uc Utr] Hc.
  assert (emitters (connect u e c s) !! u = Some e ∧ activeConnectionId (connect u e c s) !! u = Some c)
    as [He Ha] by (split; apply lookup_insert_eq).
  split; [|split; [|done]].
  - split; [done|done|done| |done| | |done].
    + eapply Forall_impl; [exact Um|]. intros m [Mu Mr Mi Mc Mf]. split; [done..|].
      intros Hs. destruct (Mf Hs) as (? & _ & ? & ? & ?). split; [done|].
      split; [by rewrite He; eexists|done].
    + rewrite He, Ha. split; by eexists.
    + rewrite Ha. by intros c' [= <-].
  - split; [by split|]. intros u' Hu'. split; [done|done| |].
    + by apply lookup_insert_ne.
    + by apply lookup_insert_ne.
Qed.

Definition undelivered (c : nat) (m : QueuedSocketMessage) : Prop := deliveredConnectionId m ≠ Some c.

Record flushed u (e c : nat) (l : list QueuedSocketMessage) (n : nat) s s' : Prop := {
  fl_ok : user_ok u s';
  fl_only : only_user u s s';
  fl_emitters : emitters s' = emitters s;
  fl_active : activeConnectionId s' = activeConnectionId s;
  fl_conns : connectionIds s' = connectionIds s;
  fl_count : n = length (filter (undelivered c) l);
  fl_emitted : emitted s' = emitted s ++ ((λ m, mkEmission e u (m_id m)) <$> filter (undelivered c) l);
  fl_steady : steady u s s';
  fl_queue m : m ∈ queue_of s' u →
    deliveredConnectionId m = Some c ∨ (m ∈ queue_of s u ∧ m_id m ∉ m_id <$> l)
}.

Lemma flush_loop_ok u e c l s :
  user_ok u s → normal u → is_Some (emitters s !! u) → (c ≤ connectionSeq s)%nat →
  NoDup (m_id <$> l) → (∀ m, m ∈ l → m ∈ queue_of s u) →
  flushed u e c l (flush_loop u e c l s).1 s (flush_loop u e c l s).2.
Proof.
  intros Hok Hu. revert s Hok. induction l as [|m l IH]; intros s Hok He Hc Hnd Hl; cbn [flush_loop].
  { split; try done; [by rewrite app_nil_r|]. intros m Hm. right. split; [done|]. apply not_elem_of_nil. }
  rewrite fmap_cons in Hnd. apply NoDup_cons in Hnd as [Hni Hnd].
  case_bool_decide as Hd.
  - destruct (IH s) as [F1 F2 F3 F4 F5 F6 F7 Fs F8]; [done|done|done|done|intros x Hx; apply Hl; by right|].
    split; try done; rewrite ?filter_cons_False by (unfold undelivered; tauto); try done.
    intros x Hx. destruct (F8 x Hx) as [?|[Hin Hnl]]; [by left|].
    destruct (decide (m_id x = m_id m)) as [Hxm|Hxm].
    + left. assert (x = m) as -> by (apply (same_id u s); [done..|by apply Hl; left|done]). done.
    + right. split; [done|]. rewrite fmap_cons. by apply not_elem_of_cons.
  - assert (m ∈ queue_of s u) as Hm by (apply Hl; by left).
    pose proof (deliver_ok u m m e c s Hok Hu Hm eq_refl eq_refl eq_refl He Hc)
      as [D1 D2 D3 D4 D5 D6 D7 Ds D9].
    set (s1 := deliver u m e (Some c) s) in *. clearbody s1.
    destruct (IH s1) as [F1 F2 F3 F4 F5 F6 F7 Fs F8]; [done|by rewrite D3|destruct D2 as [[] _]; lia|done| |].
    { intros x Hx. apply D7; [apply Hl; by right|]. intros Hxm. apply Hni. rewrite <-Hxm.
      apply list_elem_of_fmap. by exists x. }
    destruct (flush_loop u e c l s1) as [n s'] eqn:Hf. cbn [fst snd] in *.
    split; [done|by etrans|congruence|congruence|congruence| | |by etrans|];
      rewrite ?filter_cons_True by (unfold undelivered; done).
    + cbn [length]. by rewrite F6.
    + by rewrite F7, D6, <-app_assoc.
    + intros x Hx. destruct (F8 x Hx) as [?|[Hin Hnl]]; [by left|].
      destruct (D9 x Hin) as [[_ ?]|[Hin' Hne]]; [by left|]. right. split; [done|].
      rewrite fmap_cons. by apply not_elem_of_cons.
Qed.

(** *** Evicting and enqueueing *)
Record evicted u (q q' : list QueuedSocketMessage) (k : nat) s s' : Prop := {
  ev_queue : q' = drop k q;
  ev_room : (Z.of_nat (length q') < maxQueueSize)%Z;
  ev_least j : (j < k)%nat → (maxQueueSize ≤ Z.of_nat (length q - j))%Z;
  ev_rest : s' = s <| timers := timers s' |>;
  ev_timers u' id : has_timer s' u' id ↔ has_timer s u' id ∧ (u' = u → id ∉ m_id <$> take k q)
}.

Lemma evict_spec u q s :
  ∃ k, evicted u q (evict u q s).1 k s (evict u q s).2.
Proof.
  revert s. induction q as [|m q IH]; intros s; cbn [evict].
  { pose proof maxQueueSize_min. exists 0%nat. split; cbn [fst snd]; [done|cbn; lia|lia|by destruct s|].
    intros u' id. split; [|by intros []]. intros ?. split; [done|]. intros _. apply not_elem_of_nil. }
  destruct (Z.leb_spec maxQueueSize (Z.of_nat (length (m :: q)))) as [Hle|Hgt].
  - destruct (IH (clearTimer u (m_id m) s)) as (k & [E1 E2 E3 E4 E5]). exists (S k). split; [done|done| | |].
    + intros [|j] Hj; [by rewrite Nat.sub_0_r|]. cbn [length]. apply E3. lia.
    + rewrite E4 at 1. reflexivity.
    + intros u' id. rewrite E5. unfold has_timer at 1.
      change (timers (clearTimer u (m_id m) s)) with (timers s ∖ {[(u, m_id m)]}).
      rewrite elem_of_difference, elem_of_singleton. cbn [take]. rewrite fmap_cons.
      split.
      * intros [[Ht Hne] Hni]. split; [done|]. intros ->. apply not_elem_of_cons.
        split; [congruence|by apply Hni].
      * intros [Ht Hni]. split; [split; [done|]|].
        -- intros [= -> ->]. specialize (Hni eq_refl). apply not_elem_of_cons in Hni as [? _]. done.
        -- intros ->. specialize (Hni eq_refl). by apply not_elem_of_cons in Hni as [_ ?].
  - exists 0%nat. split; cbn [fst snd]; [done|cbn in *; lia|lia|by destruct s|].
    intros u' id. split; [|by intros []]. intros ?. split; [done|]. intros _. apply not_elem_of_nil.
Qed.

Lemma new_message_ok u event payload o s s' :
  (uuids s < uuids s')%nat → message_ok u s' (new_message u event payload o s).
Proof.
  intros Hs. split; cbn; [done|lia| |done|done]. exists (uuids s). split; [done|reflexivity].
Qed.

Record enqueued u (m : QueuedSocketMessage) (k : nat) s s' : Prop := {
  eq_ok : user_ok u s';
  eq_only : only_user u s s';
  eq_queue : queue_of s' u = drop k (queue_of s u) ++ [m];
  eq_least j : (j < k)%nat → (maxQueueSize ≤ Z.of_nat (length (queue_of s u) - j))%Z;
  eq_emitters : emitters s' = emitters s;
  eq_active : activeConnectionId s' = activeConnectionId s;
  eq_conns : connectionIds s' = connectionIds s;
  eq_seq : connectionSeq s' = connectionSeq s;
  eq_emitted : emitted s' = emitted s
}.

Lemma enqueue_ok userId event payload o s r s' :
  let u := Str.trim userId in
  user_ok u s → enqueue userId event payload o s = (r, s') →
  (∃ er, r = inl er ∧ s' = s) ∨
  (∃ k, let m := new_message u event payload o s in r = inr m ∧ enqueued u m k s s').
Proof.
  cbv zeta. set (u := Str.trim userId). intros [Un Ub Ui Um Ut Ue Uc Utr]. unfold enqueue. fold u.
  destruct (Str.truthy u) eqn:Htr; cbn [negb]; [|intros [= <- <-]; left; by eexists].
  destruct (negb (Str.truthy (Str.trim event))); [intros [= <- <-]; left; by eexists|].
  set (m := new_message u event payload o s). set (s0 := s <| uuids ::= S |>).
  destruct (evict_spec u (queue_of s u) s0) as (k & [E1 E2 E3 E4 E5]).
  destruct (evict u (queue_of s u) s0) as [q s1]. cbn [fst snd] in *.
  intros [= <- <-]. right. exists k. split; [done|].
  set (s2 := s1 <| queues ::= <[u := q ++ [m]]> |>).
  assert (queues s1 = queues s ∧ emitters s1 = emitters s ∧ activeConnectionId s1 = activeConnectionId s ∧
    connectionIds s1 = connectionIds s ∧ connectionSeq s1 = connectionSeq s ∧ emitted s1 = emitted s ∧
    uuids s1 = S (uuids s)) as (Q1 & Q2 & Q3 & Q4 & Q5 & Q6 & Q7)
    by (rewrite E4; repeat split; reflexivity).
  assert (queues s2 = <[u := q ++ [m]]> (queues s)) as Hqs by (rewrite <-Q1; reflexivity).
  assert (queue_of s2 u = q ++ [m]) as Hq by (unfold queue_of; by rewrite Hqs, lookup_insert_eq).
  assert (∀ u' id, has_timer s2 u' id ↔ has_timer s u' id ∧ (u' = u → id ∉ m_id <$> take k (queue_of s u)))
    as Ht by exact E5.
  assert (grows s s2) as Hg.
  { split; [change (uuids s2) with (uuids s1); lia|change (connectionSeq s2) with (connectionSeq s1); lia]. }
  assert (∀ x, x ∈ q → x ∈ queue_of s u ∧ m_id x ∉ m_id <$> take k (queue_of s u)) as Hsub.
  { intros x. rewrite E1. intros Hx. split; [rewrite <-(take_drop k (queue_of s u)); apply elem_of_app; by right|].
    pose proof Ui as Ui'. rewrite <-(take_drop k (queue_of s u)), fmap_app in Ui'.
    apply NoDup_app in Ui' as (_ & Hd & _). intros Hin. apply (Hd _ Hin). apply list_elem_of_fmap. by exists x. }
  rewrite Forall_forall in Um.
  split; try done; [|split; [done|]|by rewrite Hq, E1].
  - split.
    + rewrite Hqs, lookup_insert_eq. by destruct q.
    + rewrite Hq, length_app. cbn. lia.
    + rewrite Hq, fmap_app. apply NoDup_app. split; [|split].
      * rewrite E1, fmap_drop. eapply sublist_NoDup; [exact Ui|]. apply sublist_drop.
      * intros id Hid [=->]%list_elem_of_singleton. apply list_elem_of_fmap in Hid as (x & Hxi & Hx).
        apply Hsub in Hx as [Hx _]. destruct (mo_id _ _ _ (Um x Hx)) as (n & Hn & Hxn).
        rewrite Hxn in Hxi. apply randomUUID_inj in Hxi. lia.
      * apply NoDup_singleton.
    + rewrite Hq. apply Forall_app. split.
      * apply Forall_forall. intros x [Hx Hni]%Hsub. destruct (Um x Hx) as [Mu Mr (n & Hn & Mi) Mc Mf].
        destruct Hg. split; [done|done|exists n; split; [lia|done]| |].
        -- intros c Hc. specialize (Mc c Hc). lia.
        -- intros Hs. destruct (Mf Hs) as (? & ? & ? & ? & Htm).
           change (emitters s2) with (emitters s1). rewrite Q2. do 4 (split; [done|]).
           intros Hpos. apply Ht. auto.
      * apply Forall_singleton. apply new_message_ok. change (uuids s2) with (uuids s1). lia.
    + intros id [Hi Hni]%Ht. destruct (Ut id Hi) as (x & Hx & Hxi & Hxs). exists x. split; [|done].
      rewrite Hq. apply elem_of_app. left. rewrite <-(take_drop k (queue_of s u)) in Hx.
      apply elem_of_app in Hx as [Hx|Hx]; [|by rewrite E1]. exfalso. apply (Hni eq_refl).
      apply list_elem_of_fmap. by exists x.
    + change (emitters s2) with (emitters s1). change (activeConnectionId s2) with (activeConnectionId s1).
      by rewrite Q2, Q3.
    + change (activeConnectionId s2) with (activeConnectionId s1). rewrite Q3.
      change (connectionSeq s2) with (connectionSeq s1). by rewrite Q5.
    + intros _. split; [apply trim_fixed|exact Htr].
  - intros u' Hne. split.
    + by rewrite Hqs, lookup_insert_ne.
    + intros id. rewrite Ht. split; [by intros []|]. by intros ?; split.
    + change (emitters s2) with (emitters s1). by rewrite Q2.
    + change (activeConnectionId s2) with (activeConnectionId s1). by rewrite Q3.
Qed.

(** *** Settling a message: its timer goes with its in-flight status *)
Record settled (m m' : QueuedSocketMessage) : Prop := {
  sd_id : m_id m' = m_id m;
  sd_user : m_userId m' = m_userId m;
  sd_retries : (0 ≤ m_retries m' ≤ Z.max 0 (m_maxRetries m'))%Z;
  sd_ack : ackRequired m' = ackRequired m;
  sd_timeout : ackTimeoutMs m' = ackTimeoutMs m;
  sd_conn : deliveredConnectionId m' = deliveredConnectionId m ∨ deliveredConnectionId m' = None;
  sd_status : m_status m' ≠ m_in_flight
}.

Definition settle u id f s : MessageQueue := mutate u id f (clearTimer u id s).

Lemma queue_of_settle u id f s :
  queue_of (settle u id f s) u = (λ m, if String.eqb (m_id m) id then f m else m) <$> queue_of s u.
Proof. apply (queue_of_mutate u id f (clearTimer u id s)). Qed.

Lemma settle_timer u id f s u' id' :
  has_timer (settle u id f s) u' id' ↔ has_timer s u' id' ∧ (u', id') ≠ (u, id).
Proof.
  unfold has_timer. change (timers (settle u id f s)) with (timers s ∖ {[(u, id)]}).
  by rewrite elem_of_difference, elem_of_singleton.
Qed.

Lemma settle_only u id f s : only_user u s (settle u id f s).
Proof. etrans; [apply (clearTimer_only u id)|apply mutate_only]. Qed.

Lemma settle_ok u id f s :
  user_ok u s → (∀ m, m_id (f m) = m_id m) →
  (∀ m, m ∈ queue_of s u → m_id m = id → settled m (f m)) →
  user_ok u (settle u id f s) ∧ steady u s (settle u id f s).
Proof.
  intros [Un Ub Ui Um Ut Ue Uc Utr] Hid Hf. rewrite Forall_forall in Um.
  split; [split|split].
  - by apply (mutate_nonempty u id f (clearTimer u id s)).
  - by rewrite queue_of_settle, length_fmap.
  - by rewrite queue_of_settle, mutate_ids.
  - rewrite queue_of_settle. apply Forall_fmap, Forall_forall. intros m Hm. cbn.
    destruct (Um m Hm) as [Mu Mr Mi Mc Mf].
    destruct (String.eqb_spec (m_id m) id) as [Hmi|Hmi].
    + destruct (Hf m Hm Hmi) as [S1 S2 S3 S4 S5 S6 S7].
      split; [congruence|done|by rewrite S1| |done].
      intros c Hc. destruct S6 as [S6|S6]; [|congruence]. apply Mc. congruence.
    + split; [done|done|done|done|]. intros Hs. destruct (Mf Hs) as (? & ? & ? & ? & Ht).
      do 4 (split; [done|]). intros Hp. apply settle_timer. split; [auto|congruence].
  - intros id' [Ht Hne]%settle_timer. destruct (Ut id' Ht) as (m & Hm & Hmi & Hms). exists m.
    split; [|done]. rewrite queue_of_settle. apply list_elem_of_fmap. exists m. split; [|done].
    destruct (String.eqb_spec (m_id m) id); [congruence|done].
  - exact Ue.
  - exact Uc.
  - intros Hne. apply Utr. intros Hq. apply Hne. by rewrite queue_of_settle, Hq.
  - by rewrite queue_of_settle, mutate_ids.
  - intros id' (m & Hm & Hmi & Hma). destruct (String.eqb_spec (m_id m) id) as [Hx|Hx].
    + exists (f m). destruct (Hf m Hm Hx) as [S1 S2 S3 S4 S5 S6 S7].
      split; [|split; congruence]. rewrite queue_of_settle. apply list_elem_of_fmap. exists m.
      split; [|done]. by rewrite (proj2 (String.eqb_eq _ _) Hx).
    + exists m. split; [|done]. rewrite queue_of_settle. apply list_elem_of_fmap. exists m.
      split; [|done]. by rewrite (proj2 (String.eqb_neq _ _) Hx).
Qed.

(** *** An ACK timer that fires *)
Definition retried (m : QueuedSocketMessage) : QueuedSocketMessage :=
  m <| m_retries ::= Z.succ |> <| m_status := m_pending |>.

(** Two mutations of the same message are one. *)
Lemma mutate_mutate u id f g s :
  (∀ m, m_id (g m) = m_id m) → mutate u id f (mutate u id g s) = mutate u id (f ∘ g) s.
Proof.
  intros Hg. destruct s as [a b qs d e h i j k]. unfold mutate, set; cbn. f_equal.
  apply map_eq. intros u'. destruct (decide (u' = u)) as [->|Hu].
  - rewrite !lookup_alter_eq. destruct (qs !! u) as [q|]; [|done]. cbn. f_equal.
    rewrite <-list_fmap_compose. apply list_fmap_ext. intros n m _. cbn.
    destruct (String.eqb (m_id m) id) eqn:Hm; [by rewrite Hg, Hm|by rewrite Hm].
  - by rewrite !lookup_alter_ne.
Qed.

(** A retry is a settlement followed by a delivery (which overwrites the
    status anyway). *)
Lemma retry_as_delivery u id m e conn s :
  ackRequired m = true → m_id m = id →
  deliver u m e conn (mutate u id (set m_retries Z.succ) (clearTimer u id s)) =
  deliver u m e conn (settle u id retried s).
Proof.
  intros Hack <-. unfold deliver, settle. rewrite Hack. cbn [negb]. do 2 f_equal.
  by rewrite !mutate_mutate.
Qed.

Lemma fire_timer_ok u id s :
  user_ok u s → user_ok u (fire_timer u id s) ∧ only_user u s (fire_timer u id s) ∧
  steady u s (fire_timer u id s) ∧ connectionIds (fire_timer u id s) = connectionIds s.
Proof.
  intros Hok. unfold fire_timer. case_decide as Ht; [|done].
  pose proof Hok as [Un Ub Ui Um Ut Ue Uc Utr]. rewrite Forall_forall in Um.
  destruct (Ut id Ht) as (m & Hm & Hid & Hms). pose proof Hm as [i Hi]%list_elem_of_lookup_1.
  pose proof (find_message_by_id id _ _ _ Ui Hi Hid) as Hf.
  destruct (Um m Hm) as [Mu Mr Mi Mc Mf]. destruct (Mf Hms) as (Hack & [e He] & [c Hc] & _ & _).
  assert (∀ x, x ∈ queue_of s u → m_id x = id → x = m) as Huq
    by (intros x Hx Hxi; apply (same_id u s); [done..|congruence]).
  unfold handleAckTimeout. change (queue_of (clearTimer u id s) u) with (queue_of s u).
  rewrite Hf, Hack, Hms. rewrite bool_decide_eq_false_2 by done. cbn [negb orb].
  destruct (Z.leb_spec (m_maxRetries m) (m_retries m)) as [Hle|Hlt].
  - destruct (settle_ok u id (λ m, m <| m_status := m_exhausted |> <| m_updatedAt := mq_now s |>) s)
      as [H1 H2]; [done|done| |].
    { intros x Hx Hxi. rewrite (Huq x Hx Hxi). split; try done. by left. }
    split; [exact H1|]. split; [apply settle_only|]. by split; [exact H2|].
  - change (emitters (clearTimer u id s)) with (emitters s). rewrite He.
    set (s2 := mutate u id (set m_retries Z.succ) (clearTimer u id s)).
    change (activeConnectionId s2) with (activeConnectionId s).
    destruct (activeConnectionId s !! u) as [ac|] eqn:Hac.
    2: { destruct (proj1 Ue) as [? ?]; [by eexists|congruence]. }
    unfold s2. rewrite (retry_as_delivery u id m e (Some ac) s Hack Hid).
    destruct (settle_ok u id retried s) as [H1 H2]; [done|done| |].
    { intros x Hx Hxi. rewrite (Huq x Hx Hxi). split; try done; [|by left].
      change (0 ≤ Z.succ (m_retries m) ≤ Z.max 0 (m_maxRetries m))%Z. lia. }
    destruct (deliver_ok u m (retried m) e ac (settle u id retried s))
      as [D1 D2 D3 D4 D5 D6 D7 Ds D9].
    + done.
    + apply Utr. intros Hq. rewrite Hq in Hm. by apply not_elem_of_nil in Hm.
    + rewrite queue_of_settle. apply list_elem_of_fmap. exists m. split; [|done].
      by rewrite (proj2 (String.eqb_eq _ _) Hid).
    + done.
    + done.
    + done.
    + by exists e.
    + by apply Uc.
    + split; [done|]. split; [etrans; [apply settle_only|exact D2]|]. split; [by etrans|].
      by rewrite D5.
Qed.

(** *** Disconnecting and clearing *)
Lemma clear_messages_spec (g : QueuedSocketMessage → string) q s :
  ∃ ts, foldl (λ s m, clearTimer (g m) (m_id m) s) s q = s <| timers := ts |> ∧
    ∀ k, k ∈ ts ↔ k ∈ timers s ∧ k ∉ (λ m, (g m, m_id m)) <$> q.
Proof.
  revert s. induction q as [|m q IH]; intros s; cbn [foldl].
  - exists (timers s). split; [by destruct s|]. intros k. split; [|by intros []].
    intros ?. split; [done|apply not_elem_of_nil].
  - destruct (IH (clearTimer (g m) (m_id m) s)) as (ts & -> & Hts). exists ts. split; [done|].
    intros k. rewrite Hts, fmap_cons, not_elem_of_cons.
    change (timers (clearTimer (g m) (m_id m) s)) with (timers s ∖ {[(g m, m_id m)]}).
    rewrite elem_of_difference, elem_of_singleton. tauto.
Qed.

Lemma clear_timers_spec u q s :
  ∃ ts, clear_timers u q s = s <| timers := ts |> ∧
    ∀ u' id, (u', id) ∈ ts ↔ has_timer s u' id ∧ (u' = u → id ∉ m_id <$> q).
Proof.
  destruct (clear_messages_spec (λ _, u) q s) as (ts & Heq & Hts). exists ts. split; [exact Heq|].
  intros u' id. rewrite Hts. unfold has_timer. split; intros [Ht Hn]; (split; [done|]).
  - intros -> (m & -> & Hm)%list_elem_of_fmap. apply Hn. apply list_elem_of_fmap. by exists m.
  - intros (m & [= -> ->] & Hm)%list_elem_of_fmap. apply (Hn eq_refl). apply list_elem_of_fmap.
    by exists m.
Qed.

(** Without a connection: no emitter, no timer, and nothing in flight. *)
Record offline u s : Prop := {
  of_emitter : emitters s !! u = None;
  of_timers id : ¬ has_timer s u id;
  of_queue m : m ∈ queue_of s u → m_status m ≠ m_in_flight
}.

Lemma rewind_frame t m :
  m_id (rewind t m) = m_id m ∧ m_userId (rewind t m) = m_userId m ∧ m_retries (rewind t m) = m_retries m ∧
  m_maxRetries (rewind t m) = m_maxRetries m ∧ ackRequired (rewind t m) = ackRequired m ∧
  m_status (rewind t m) ≠ m_in_flight ∧
  (deliveredConnectionId (rewind t m) = None ∨ deliveredConnectionId (rewind t m) = deliveredConnectionId m).
Proof. unfold rewind. case_bool_decide; (do 6 (split; [done|])); first [by left|by right]. Qed.

Record disconnected u (n : nat) s s' : Prop := {
  dc_ok : user_ok u s';
  dc_only : only_user u s s';
  dc_steady : steady u s s';
  dc_offline : offline u s';
  dc_queue : queue_of s' u = rewind (mq_now s) <$> queue_of s u;
  dc_count : n = in_flight_count (queue_of s u);
  dc_conns : connectionIds s' = connectionIds s
}.

Lemma disconnect_ok userId s :
  let u := Str.trim userId in
  user_ok u s → Str.truthy u = true →
  disconnected u (handleDisconnect userId s).1 s (handleDisconnect userId s).2.
Proof.
  cbv zeta. set (u := Str.trim userId). intros [Un Ub Ui Um Ut Ue Uc Utr] Htr.
  rewrite Forall_forall in Um. unfold handleDisconnect. fold u. rewrite Htr. cbn [negb].
  set (s0 := s <| emitters ::= delete u |> <| activeConnectionId ::= delete u |>).
  change (queues s0) with (queues s). destruct (clear_timers_spec u (queue_of s u) s0) as (ts & Hct & Hts).
  set (q' := rewind (mq_now s) <$> queue_of s u).
  assert (∃ s' : nat * MessageQueue, s' = (match queues s !! u with
    | Some q => (in_flight_count q, clear_timers u q s0 <| queues ::= <[u:=rewind (mq_now s0) <$> q]> |>)
    | None => (0%nat, s0) end) ∧ s'.1 = in_flight_count (queue_of s u) ∧
    queue_of s'.2 u = q' ∧ queues s'.2 !! u ≠ Some [] ∧ only_user u s s'.2 ∧
    (∀ id, ¬ has_timer s'.2 u id) ∧ emitters s'.2 !! u = None ∧ activeConnectionId s'.2 !! u = None ∧
    connectionIds s'.2 = connectionIds s ∧ grows s s'.2)
    as (r & <- & H1 & H2 & H3 & H4 & H5 & H6 & H7 & H8 & H9).
  { eexists. split; [reflexivity|]. unfold queue_of, q' in *. destruct (queues s !! u) as [q|] eqn:Hq.
    - cbn [default from_option id] in *. rewrite Hct. set (s1 := s0 <| timers := ts |> <| queues ::= _ |>).
      assert (queues s1 = <[u := rewind (mq_now s) <$> q]> (queues s)) as Hqs by reflexivity.
      cbn [fst snd]. rewrite Hqs, lookup_insert_eq. split; [done|]. split; [by unfold queue_of; rewrite Hq|].
      split; [by destruct q|]. split; [|split; [|split; [apply lookup_delete_eq|
        split; [apply lookup_delete_eq|by split; [|split]]]]].
      + split; [by split|]. intros u' Hne. split.
        * by rewrite Hqs, lookup_insert_ne.
        * intros id. unfold has_timer. change (timers s1) with ts. rewrite Hts.
          change (has_timer s0 u' id) with (has_timer s u' id). split; [by intros []|by split].
        * by apply lookup_delete_ne.
        * by apply lookup_delete_ne.
      + intros id [Hi Hni]%Hts. destruct (Ut id Hi) as (m & Hm & Hmi & _).
        apply (Hni eq_refl). apply list_elem_of_fmap. by exists m.
    - cbn [fst snd default fmap list_fmap]. change (queues s0) with (queues s). rewrite Hq.
      split; [done|]. split; [by unfold queue_of; rewrite Hq|]. split; [done|].
      split; [|split; [|split; [apply lookup_delete_eq|split; [apply lookup_delete_eq|by split; [|split]]]]].
      + split; [by split|]. intros u' Hne. split; [done|done|by apply lookup_delete_ne|by apply lookup_delete_ne].
      + intros id Hi. destruct (Ut id Hi) as (m & Hm & _).
        by apply not_elem_of_nil in Hm. }
  destruct r as [n s']. cbn [fst snd] in *. clear Hct Hts. clearbody s0.
  assert (∀ m, m ∈ q' → m_status m ≠ m_in_flight) as Hst.
  { intros m (x & -> & Hx)%list_elem_of_fmap. apply rewind_frame. }
  assert (m_id <$> q' = m_id <$> queue_of s u) as Hids.
  { unfold q'. rewrite <-list_fmap_compose. apply list_fmap_ext. intros i x _. apply rewind_frame. }
  split; [split|done|split| |done|done|done].
  - done.
  - rewrite H2. unfold q'. by rewrite length_fmap.
  - by rewrite H2, Hids.
  - rewrite H2. apply Forall_fmap, Forall_forall. intros x Hx. cbn.
    destruct (Um x Hx) as [Mu Mr (k & Hk & Mi) Mc Mf], H9.
    destruct (rewind_frame (mq_now s) x) as (R1 & R2 & R3 & R4 & R5 & R6 & R7).
    split; [congruence|by rewrite R3, R4|exists k; split; [lia|congruence]| |done].
    intros c Hc. destruct R7 as [R7|R7]; [congruence|]. rewrite R7 in Hc. specialize (Mc c Hc). lia.
  - intros id Hi. by destruct (H5 id).
  - rewrite H6, H7. split; by intros [].
  - intros c. by rewrite H7.
  - rewrite H2. unfold q'. intros Hne. apply Utr. intros Hq. apply Hne. by rewrite Hq.
  - by rewrite H2, Hids.
  - intros id (m & Hm & Hmi & Hma). exists (rewind (mq_now s) m).
    destruct (rewind_frame (mq_now s) m) as (R1 & _ & _ & _ & R5 & _). rewrite R1, R5, H2.
    split; [|done]. apply list_elem_of_fmap. by exists m.
  - split; [done|done|by rewrite H2].
Qed.

Lemma clear_user_ok userId s :
  let u := Str.trim userId in
  user_ok u s → Str.truthy userId = true →
  user_ok u (clear (Some userId) s).2 ∧ only_user u s (clear (Some userId) s).2 ∧
  connectionIds (clear (Some userId) s).2 = connectionIds s.
Proof.
  cbv zeta. set (u := Str.trim userId). intros Hok Htr. unfold clear. rewrite Htr. fold u. cbn [snd].
  destruct (clear_timers_spec u (queue_of s u) s) as (ts & -> & Hts).
  set (s' := s <| timers := ts |> <| queues ::= _ |> <| emitters ::= _ |> <| activeConnectionId ::= _ |>).
  assert (queues s' !! u = None ∧ emitters s' !! u = None ∧ activeConnectionId s' !! u = None)
    as (H1 & H2 & H3) by (split; [|split]; apply lookup_delete_eq).
  assert (queue_of s' u = []) as Hq by (unfold queue_of; by rewrite H1).
  split; [split|split; [|done]].
  - by rewrite H1.
  - rewrite Hq. pose proof maxQueueSize_min. cbn. lia.
  - rewrite Hq. apply NoDup_nil_2.
  - by rewrite Hq.
  - intros id [Hi Hn]%Hts. destruct (uo_timers _ _ Hok id Hi) as (m & Hm & Hmi & _).
    destruct (Hn eq_refl). apply list_elem_of_fmap. by exists m.
  - rewrite H2, H3. split; by intros [].
  - intros c. by rewrite H3.
  - by rewrite Hq.
  - split; [by split|]. intros u' Hne. split; [by apply lookup_delete_ne| |by apply lookup_delete_ne..].
    intros id. unfold has_timer at 1. change (timers s') with ts. rewrite Hts. split; [by intros []|by split].
Qed.

Lemma foldl_concat {A B C} (f : B → A → B) (l : list (C * list A)) b :
  foldl (λ b kv, foldl f b kv.2) b l = foldl f b (concat (snd <$> l)).
Proof. revert b. induction l as [|[k x] l IH]; intros b; [done|]. cbn. by rewrite foldl_app, IH. Qed.

Lemma clear_all_wf s :
  wf s → wf (foldl (λ s kv, foldl (λ s m, clearTimer (m_userId m) (m_id m) s) s kv.2) s
    (map_to_list s.(queues)) <| queues := ∅ |> <| emitters := ∅ |> <| activeConnectionId := ∅ |>).
Proof.
  intros [Hw Hc]. rewrite foldl_concat.
  destruct (clear_messages_spec m_userId (concat (snd <$> map_to_list (queues s))) s) as (ts & -> & Hts).
  set (s' := s <| timers := ts |> <| queues := ∅ |> <| emitters := ∅ |> <| activeConnectionId := ∅ |>).
  split; [|by destruct Hc; split]. intros u.
  assert (queue_of s' u = []) as Hq by (unfold queue_of; change (queues s') with (∅ : gmap string (list QueuedSocketMessage));
    by rewrite lookup_empty).
  split; rewrite ?Hq; try done.
  - pose proof maxQueueSize_min. cbn. lia.
  - apply NoDup_nil_2.
  - intros id [Hi Hn]%Hts. destruct (uo_timers _ _ (Hw u) id Hi) as (m & Hm & Hmi & _). destruct Hn.
    pose proof (uo_messages _ _ (Hw u)) as Hms. rewrite Forall_forall in Hms.
    apply list_elem_of_fmap. exists m. rewrite (mo_user _ _ _ (Hms m Hm)), Hmi. split; [done|].
    unfold queue_of in Hm. destruct (queues s !! u) as [q|] eqn:Hl; [|by apply not_elem_of_nil in Hm].
    apply list_elem_of_In, in_concat. exists q. split; [|by apply list_elem_of_In].
    apply list_elem_of_In, list_elem_of_fmap. exists (u, q). split; [done|].
    by apply elem_of_map_to_list.
Qed.

(** *** Whole methods *)
Lemma conns_ok_frame s s' :
  conns_ok s → connectionIds s' = connectionIds s → grows s s' → conns_ok s'.
Proof.
  intros [Hr Hi] He [_ Hg]. split; rewrite He; [|done]. intros o c Ho. specialize (Hr o c Ho). lia.
Qed.

(** Resolving a connection and registering it for the user. *)
Lemma attach_ok u e owner s c s1 :
  wf s → resolveConnectionId owner s = (c, s1) →
  wf (connect u e c s1) ∧ only_user u s (connect u e c s1) ∧
  queue_of (connect u e c s1) u = queue_of s u ∧ emitters (connect u e c s1) !! u = Some e ∧
  (1 ≤ c ≤ connectionSeq (connect u e c s1))%nat ∧ connectionIds (connect u e c s1) !! owner = Some c ∧
  emitted (connect u e c s1) = emitted s ∧
  (connectionIds s !! owner = None → c = S (connectionSeq s)) ∧
  (connectionIds s !! owner = Some c → s1 = s).
Proof.
  intros [Hw Hc] Hr. destruct (resolve_spec owner s c s1 Hc Hr)
    as (R1 & R2 & R3 & R4 & R5 & R6 & R7 & R8 & R9 & R10 & R11 & R12).
  assert (∀ u', same_user u' s s1) as Hsame.
  { intros u'. split; [by rewrite R8|intros id; unfold has_timer; by rewrite R9|by rewrite R10|by rewrite R11]. }
  assert (∀ u', user_ok u' s1) as Hw1 by (intros u'; by eapply user_ok_same).
  destruct (connect_ok u e c s1 (Hw1 u) (proj2 R2)) as (C1 & C2 & C3).
  assert (wf (connect u e c s1)) as Hwf by (apply (wf_only_user u s1); [by split|done|done|by destruct R1; split]).
  split; [done|]. split; [etrans; [|exact C2]; by split|].
  split; [unfold queue_of; change (queues (connect u e c s1)) with (queues s1); by rewrite R8|].
  split; [done|]. split; [done|]. split; [done|]. split; [exact R12|]. exact (conj R5 R6).
Qed.

Lemma flush_ok userId e owner s n s' :
  let u := Str.trim userId in
  wf s → flush userId e owner s = (n, s') →
  (n = 0%nat ∧ s' = s ∧ (queue_of s u = [] ∨ Str.truthy u = false)) ∨
  (∃ c s1, normal u ∧ resolveConnectionId owner s = (c, s1) ∧
     flushed u e c (queue_of s u) n (connect u e c s1) s').
Proof.
  cbv zeta. set (u := Str.trim userId). intros Hwf. unfold flush. fold u.
  destruct (Str.truthy u) eqn:Htr; cbn [negb]; [|intros [= <- <-]; left; auto].
  destruct (queue_of s u) as [|m0 q0] eqn:Hq; [intros [= <- <-]; left; auto|].
  assert (normal u) as Hn by (split; [apply trim_fixed|done]). rewrite <-Hq.
  destruct (resolveConnectionId owner s) as [c s1] eqn:Hr. cbn zeta. fold (connect u e c s1).
  destruct (attach_ok u e owner s c s1 Hwf Hr) as ([Hw _] & _ & Hq1 & He & Hc & _).
  intros Hf. right. exists c, s1. split; [done|]. split; [done|].
  pose proof (flush_loop_ok u e c (queue_of s u) (connect u e c s1) (Hw u) Hn) as HF.
  rewrite Hf in HF. apply HF; [by eexists|by destruct Hc| |by rewrite Hq1].
  rewrite <-Hq1. apply uo_ids, Hw.
Qed.

Lemma send_ok userId e socket event payload s r s' :
  let u := Str.trim userId in
  wf s → sendWithAck userId e socket event payload s = (r, s') →
  s' = s ∨
  (∃ k s1 c s2, let m := new_message u event payload ack_required_options s in
     r = inr (Some m) ∧ enqueued u m k s s1 ∧ wf s1 ∧ resolveConnectionId socket s1 = (c, s2) ∧
     delivery u (m_id m) e c (connect u e c s2) s').
Proof.
  cbv zeta. set (u := Str.trim userId). intros Hwf. unfold sendWithAck. fold u.
  destruct (Str.truthy u) eqn:Htr; cbn [negb]; [|intros [= _ <-]; by left].
  destruct (enqueue u event payload ack_required_options s) as [re s1] eqn:He.
  pose proof (enqueue_ok u event payload ack_required_options s re s1) as Hen. cbv zeta in Hen.
  assert (Str.trim u = u) as Hn by apply trim_fixed. rewrite !Hn in Hen.
  destruct (Hen (proj1 Hwf u) He) as [(er & -> & ->)|(k & -> & Hk)]; [intros [= _ <-]; by left|].
  set (m := new_message u event payload ack_required_options s) in *.
  assert (wf s1) as Hw1.
  { eapply wf_only_user; [done|apply Hk|apply Hk|]. eapply conns_ok_frame; [apply Hwf|apply Hk|apply Hk]. }
  destruct (resolveConnectionId socket s1) as [c s2] eqn:Hr. cbn zeta. fold (connect u e c s2).
  intros [= <- <-]. right. exists k, s1, c, s2. split; [done|]. split; [done|]. split; [done|].
  split; [done|].
  destruct (attach_ok u e socket s1 c s2 Hw1 Hr) as ([Hw _] & _ & Hq1 & Hem & Hc & _).
  apply (deliver_ok u m m); [apply Hw|split; [apply trim_fixed|done]| |done..|by eexists|by destruct Hc].
  rewrite Hq1, (eq_queue _ _ _ _ _ Hk). apply elem_of_app. right. by apply list_elem_of_singleton.
Qed.

(** Every operation keeps the invariant. *)
Lemma exec_wf op s : wf s → wf (exec op s).
Proof.
  intros Hwf. pose proof Hwf as [Hw Hc]. destruct op as [u ev p o|u e o|u e so ev p|u id|u id|u|u|ms]; cbn [exec].
  - destruct (enqueue u ev p o s) as [r s'] eqn:He. cbn [snd].
    destruct (enqueue_ok _ _ _ _ _ _ _ (Hw _) He) as [(er & _ & ->)|(k & _ & Hk)]; [done|].
    eapply wf_only_user; [done|apply Hk|apply Hk|]. eapply conns_ok_frame; [done|apply Hk|apply Hk].
  - destruct (flush u e o s) as [n s'] eqn:He. cbn [snd].
    destruct (flush_ok _ _ _ _ _ _ Hwf He) as [(_ & -> & _)|(c & s1 & _ & Hr & Hf)]; [done|].
    destruct (attach_ok (Str.trim u) e _ _ _ _ Hwf Hr) as (Hw1 & _).
    eapply wf_only_user; [exact Hw1|apply Hf|apply Hf|].
    eapply conns_ok_frame; [apply Hw1|apply Hf|apply Hf].
  - destruct (sendWithAck u e so ev p s) as [r s'] eqn:He. cbn [snd].
    destruct (send_ok _ _ _ _ _ _ _ _ Hwf He) as [->|(k & s1 & c & s2 & _ & _ & Hw1 & Hr & Hd)]; [done|].
    destruct (attach_ok (Str.trim u) e _ _ _ _ Hw1 Hr) as (Hw2 & _).
    eapply wf_only_user; [exact Hw2|apply Hd|apply Hd|].
    eapply conns_ok_frame; [apply Hw2|apply Hd|apply Hd].
  - destruct (Str.truthy (Str.trim u)) eqn:Htr.
    2: { unfold acknowledge. by rewrite Htr. }
    assert (normal (Str.trim u)) as Hn by (split; [apply trim_fixed|done]).
    assert ((acknowledge u id s).2 = remove (Str.trim u) id s) as ->
      by (unfold remove, acknowledge; by rewrite !trim_fixed).
    destruct (remove_ok (Str.trim u) id s (Hw _) Hn) as (H1 & H2 & _ & _ & H3 & _).
    eapply wf_only_user; [done..|]. eapply conns_ok_frame; [done..|apply H2].
  - destruct (fire_timer_ok u id s (Hw u)) as (H1 & H2 & _ & H3).
    eapply wf_only_user; [done..|]. eapply conns_ok_frame; [done..|apply H2].
  - destruct (Str.truthy (Str.trim u)) eqn:Htr; [|unfold handleDisconnect; by rewrite Htr].
    pose proof (disconnect_ok u s (Hw _) Htr) as Hd.
    eapply wf_only_user; [done|apply Hd|apply Hd|]. eapply conns_ok_frame; [done|apply Hd|apply Hd].
  - destruct u as [u|]; [|by apply clear_all_wf].
    destruct (Str.truthy u) eqn:Htr; [|unfold clear; rewrite Htr; by apply clear_all_wf].
    destruct (clear_user_ok u s (Hw _) Htr) as (H1 & H2 & H3).
    eapply wf_only_user; [done..|]. eapply conns_ok_frame; [done..|apply H2].
  - split; [|by destruct Hc; split]. intros u. by apply (user_ok_same u s).
Qed.

Lemma empty_wf t : wf (empty_queue t).
Proof.
  split; [|by split]. intros u. pose proof maxQueueSize_min.
  assert (queue_of (empty_queue t) u = []) as Hq by reflexivity.
  split; rewrite ?Hq; try done; [cbn; lia|apply NoDup_nil_2].
Qed.

Lemma trace_wf ops s : wf s → wf (trace ops s).
Proof. revert s. induction ops as [|op ops IH]; intros s Hs; [done|]. by apply IH, exec_wf. Qed.

(** *** Messages survive until acknowledged *)
(** A message an ACK is owed for, with at most [n] messages queued after it. *)
Definition behind u id (n : nat) s : Prop :=
  owed u id s ∧ ∃ l1 l2, m_id <$> queue_of s u = l1 ++ id :: l2 ∧ (length l2 ≤ n)%nat.

(** How many messages an operation queues for a user. *)
Definition queues_for u (op : queue_op) : nat :=
  match op with
  | op_enqueue u' _ _ _ | op_send u' _ _ _ _ => if decide (Str.trim u' = u) then 1%nat else 0%nat
  | _ => 0%nat
  end.

(** Neither the acknowledgement of the message nor a [clear] of its queue. *)
Definition spares u id (op : queue_op) : bool :=
  match op with
  | op_ack u' id' => negb (String.eqb (Str.trim u') u && String.eqb id' id)
  | op_clear (Some u') => Str.truthy u' && negb (String.eqb (Str.trim u') u)
  | op_clear None => false
  | _ => true
  end.

Lemma sublist_split (l l' l1 l2 : list string) id :
  NoDup l → l = l1 ++ id :: l2 → l' `sublist_of` l → id ∈ l' →
  ∃ l1' l2', l' = l1' ++ id :: l2' ∧ (length l2' ≤ length l2)%nat.
Proof.
  intros Hnd -> (k1 & k2 & -> & H1 & H2)%sublist_app_r Hin.
  apply NoDup_app in Hnd as (_ & Hd & [Hn2 _]%NoDup_cons).
  apply elem_of_app in Hin as [Hin|Hin].
  { destruct (Hd id); [by eapply elem_of_sublist|by left]. }
  apply sublist_cons_r in H2 as [H2|(k2' & -> & H2)].
  { destruct Hn2. by eapply elem_of_sublist. }
  exists k1, k2'. split; [done|]. by apply sublist_length.
Qed.

Lemma behind_keeps u id n s s' :
  user_ok u s → (m_id <$> queue_of s' u) `sublist_of` (m_id <$> queue_of s u) → owed u id s' →
  behind u id n s → behind u id n s'.
Proof.
  intros Hok Hsub Ho (_ & l1 & l2 & Hl & Hn). split; [done|].
  destruct (sublist_split _ (m_id <$> queue_of s' u) l1 l2 id (uo_ids _ _ Hok) Hl Hsub) as (l1' & l2' & Hl' & Hn').
  { destruct Ho as (m & Hm & <- & _). apply list_elem_of_fmap. by exists m. }
  exists l1', l2'. split; [done|lia].
Qed.

Lemma behind_steady u id n s s' : user_ok u s → steady u s s' → behind u id n s → behind u id n s'.
Proof. intros Hok [H1 H2] Hb. apply (behind_keeps _ _ _ s); [done|done|apply H2, Hb|done]. Qed.

Lemma behind_other u u' id n s s' : only_user u' s s' → u ≠ u' → behind u id n s → behind u id n s'.
Proof.
  intros [_ Hs] Hne. destruct (Hs u Hne) as [Hq _ _ _]. unfold behind, owed.
  by rewrite (queue_of_same _ _ _ Hq).
Qed.

Lemma behind_enqueued u id n m k s s' :
  user_ok u s → enqueued u m k s s' → (Z.of_nat (S n) < maxQueueSize)%Z →
  behind u id n s → behind u id (S n) s'.
Proof.
  intros Hok [E1 E2 E3 E4 _ _ _ _ _] Hn ((m0 & Hm0 & Hid & Ha) & l1 & l2 & Hl & Hl2).
  assert (length (queue_of s u) = (length l1 + S (length l2))%nat) as Hlen.
  { rewrite <-(length_fmap m_id), Hl, length_app. done. }
  assert (k ≤ length l1)%nat as Hk.
  { destruct (Nat.le_gt_cases k (length l1)) as [|Hgt]; [done|]. specialize (E4 _ Hgt). lia. }
  assert (m_id <$> queue_of s' u = drop k l1 ++ id :: (l2 ++ [m_id m])) as Hl'.
  { rewrite E3, fmap_app, fmap_drop, Hl, drop_app_le by done. by rewrite <-app_assoc. }
  split.
  - exists m0. split; [|done]. rewrite E3. apply elem_of_app. left.
    apply list_elem_of_lookup_1 in Hm0 as [i Hi]. destruct (Nat.le_gt_cases k i) as [Hki|Hki].
    + apply (list_elem_of_lookup_2 _ (i - k)). rewrite lookup_drop. by replace (k + (i - k))%nat with i by lia.
    + assert ((m_id <$> queue_of s u) !! i = Some id) as Hx by (rewrite list_lookup_fmap, Hi; cbn; congruence).
      assert ((m_id <$> queue_of s u) !! length l1 = Some id) as Hy by (rewrite Hl; by apply list_lookup_middle).
      pose proof (NoDup_lookup _ _ _ _ (uo_ids _ _ Hok) Hx Hy). lia.
  - exists (drop k l1), (l2 ++ [m_id m]). split; [done|]. rewrite length_app. cbn. lia.
Qed.

Lemma exec_behind u id n op s :
  wf s → spares u id op = true → (Z.of_nat (queues_for u op + n) < maxQueueSize)%Z →
  behind u id n s → behind u id (queues_for u op + n) (exec op s).
Proof.
  intros Hwf Hsp Hn Hb. pose proof Hwf as [Hw _].
  destruct op as [u' ev p o|u' e o|u' e so ev p|u' id'|u' id'|u'|u'|ms];
    cbn [exec queues_for spares Nat.add] in *.
  - destruct (enqueue u' ev p o s) as [r s'] eqn:He. cbn [snd].
    destruct (enqueue_ok _ _ _ _ _ _ _ (Hw _) He) as [(er & _ & ->)|(k & _ & Hk)].
    + destruct Hb as (Ho & l1 & l2 & Hl & Hl2). split; [done|]. exists l1, l2. split; [done|lia].
    + case_decide as Hu; [|by eapply behind_other; [apply Hk|congruence|]].
      subst u. by eapply behind_enqueued.
  - destruct (flush u' e o s) as [n' s'] eqn:He. cbn [snd].
    destruct (flush_ok _ _ _ _ _ _ Hwf He) as [(_ & -> & _)|(c & s1 & _ & Hr & Hf)]; [done|].
    destruct (attach_ok (Str.trim u') e _ _ _ _ Hwf Hr) as (Hw1 & Hon & Hq & _).
    destruct (decide (Str.trim u' = u)) as [<-|Hu].
    + eapply behind_steady; [apply Hw1|apply Hf|]. apply (behind_steady _ _ _ s); [apply Hw|by apply steady_same|done].
    + eapply behind_other; [apply Hf|congruence|]. eapply behind_other; [exact Hon|congruence|done].
  - destruct (sendWithAck u' e so ev p s) as [r s'] eqn:He. cbn [snd].
    destruct (send_ok _ _ _ _ _ _ _ _ Hwf He) as [->|(k & s1 & c & s2 & _ & Hk & Hw1 & Hr & Hd)].
    { destruct Hb as (Ho & l1 & l2 & Hl & Hl2). split; [done|]. exists l1, l2. split; [done|lia]. }
    destruct (attach_ok (Str.trim u') e _ _ _ _ Hw1 Hr) as (Hw2 & Hon & Hq & _). case_decide as Hu.
    + subst u. eapply behind_steady; [apply Hw2|apply Hd|].
      apply (behind_steady _ _ _ s1); [apply Hw1|by apply steady_same|]. by eapply behind_enqueued.
    + eapply behind_other; [apply Hd|congruence|]. eapply behind_other; [exact Hon|congruence|].
      by eapply behind_other; [apply Hk|congruence|].
  - destruct (Str.truthy (Str.trim u')) eqn:Htr; [|unfold acknowledge; by rewrite Htr].
    assert (normal (Str.trim u')) as Hnm by (split; [apply trim_fixed|done]).
    assert ((acknowledge u' id' s).2 = remove (Str.trim u') id' s) as ->
      by (unfold remove, acknowledge; by rewrite !trim_fixed).
    destruct (remove_ok (Str.trim u') id' s (Hw _) Hnm) as (H1 & H2 & _ & _ & _ & _ & Hel).
    destruct (decide (Str.trim u' = u)) as [<-|Hu]; [|by eapply behind_other; [done|congruence|]].
    rewrite String.eqb_refl in Hsp. apply negb_true_iff, String.eqb_neq in Hsp.
    eapply behind_keeps; [apply Hw|by apply remove_order| |done].
    destruct Hb as [(m & Hm & Hid & Ha) _]. exists m. split; [|done]. apply Hel. split; [done|congruence].
  - destruct (fire_timer_ok u' id' s (Hw u')) as (H1 & H2 & H3 & _).
    destruct (decide (u' = u)) as [<-|Hu]; [by apply (behind_steady _ _ _ s); [apply Hw|..]|by eapply behind_other; [done|congruence|]].
  - destruct (Str.truthy (Str.trim u')) eqn:Htr; [|unfold handleDisconnect; by rewrite Htr].
    pose proof (disconnect_ok u' s (Hw _) Htr) as Hd.
    destruct (decide (Str.trim u' = u)) as [<-|Hu].
    + by eapply behind_steady; [apply Hw|apply Hd|].
    + by eapply behind_other; [apply Hd|congruence|].
  - destruct u' as [u'|]; [|done]. apply andb_true_iff in Hsp as [Htr Hne].
    apply negb_true_iff, String.eqb_neq in Hne.
    destruct (clear_user_ok u' s (Hw _) Htr) as (_ & H2 & _). by eapply behind_other; [done|congruence|].
  - done.
Qed.

Definition queued_for u (ops : list queue_op) : nat := sum_list (queues_for u <$> ops).

Lemma trace_behind u id n ops s :
  wf s → forallb (spares u id) ops = true → (Z.of_nat (queued_for u ops + n) < maxQueueSize)%Z →
  behind u id n s → behind u id (queued_for u ops + n) (trace ops s).
Proof.
  revert n s. induction ops as [|op ops IH]; intros n s Hwf Hsp Hn Hb; [done|].
  cbn [forallb] in Hsp. apply andb_true_iff in Hsp as [Hs1 Hs2].
  change (queued_for u (op :: ops)) with (queues_for u op + queued_for u ops)%nat in *.
  replace (queues_for u op + queued_for u ops + n)%nat with (queued_for u ops + (queues_for u op + n))%nat by lia.
  change (trace (op :: ops) s) with (trace ops (exec op s)).
  apply IH; [by apply exec_wf|done|lia|]. apply exec_behind; [done|done|lia|done].
Qed.

End UserState.

(** ** The delivery guarantees *)
Section Guarantees.
Context `{MessageQueueOptions}.
Implicit Types (s : MessageQueue) (u : string).

(** The states the service goes through. *)
Definition reachable s : Prop := ∃ t ops, s = trace ops (empty_queue t).

Lemma reachable_wf s : reachable s → wf s.
Proof. intros (t & ops & ->). apply trace_wf, empty_wf. Qed.

(** After any sequence of calls and timer firings, every user's queue is
    within [maxQueueSize], its ids are distinct, no message has been retried
    beyond its budget, every armed timer belongs to an in-flight message of
    that user, and every in-flight message wants an ACK, has a live emitter and
    (when its timeout is positive) an armed timer. *)
Theorem queue_invariant ops t u :
  let s := trace ops (empty_queue t) in
  (Z.of_nat (length (getPending u s)) ≤ maxQueueSize)%Z ∧
  NoDup (m_id <$> getPending u s) ∧
  (∀ m, m ∈ getPending u s →
     m_userId m = Str.trim u ∧ (0 ≤ m_retries m ≤ Z.max 0 (m_maxRetries m))%Z ∧
     (m_status m = m_in_flight → ackRequired m = true ∧ is_Some (emitters s !! Str.trim u) ∧
        ((0 < ackTimeoutMs m)%Z → (Str.trim u, m_id m) ∈ timers s))) ∧
  (∀ id, (Str.trim u, id) ∈ timers s →
     ∃ m, m ∈ getPending u s ∧ m_id m = id ∧ m_status m = m_in_flight).
Proof.
  intros s. destruct (trace_wf ops _ (empty_wf t)) as [Hw _]. fold s in Hw.
  destruct (Hw (Str.trim u)) as [_ Ub Ui Um Ut _ _ _]. rewrite Forall_forall in Um.
  split; [exact Ub|]. split; [exact Ui|]. split; [|exact Ut].
  intros m Hm. destruct (Um m Hm) as [Mu Mr _ _ Mf]. split; [done|]. split; [done|].
  intros Hs. by destruct (Mf Hs) as (? & ? & _ & _ & ?).
Qed.

(** C25: an enqueued message that wants an ACK is still queued after any calls,
    retries, disconnects and reconnects that neither acknowledge it nor clear
    the queue and queue fewer than [maxQueueSize] further messages for the
    user; and the next connection that flushes is sent the message. *)
Theorem owed_until_acked s userId event payload o m s1 ops :
  let u := Str.trim userId in
  reachable s → enqueue userId event payload o s = (inr m, s1) → ackRequired m = true →
  forallb (spares u (m_id m)) ops = true → (Z.of_nat (queued_for u ops) < maxQueueSize)%Z →
  let s2 := trace ops s1 in
  m_id m ∈ m_id <$> getPending userId s2 ∧
  ∀ e owner, connectionIds s2 !! owner = None →
    ∃ sent, emitted (flush userId e owner s2).2 = emitted s2 ++ sent ∧ mkEmission e u (m_id m) ∈ sent.
Proof.
  intros u Hr He Ha Hsp Hn s2. pose proof (reachable_wf _ Hr) as Hwf.
  pose proof (exec_wf (op_enqueue userId event payload o) s Hwf) as Hw1. cbn [exec] in Hw1.
  rewrite He in Hw1. cbn [snd] in Hw1.
  destruct (enqueue_ok _ _ _ _ _ _ _ (proj1 Hwf u) He) as [(er & [=] & _)|(k & [= ->] & Hk)].
  fold u in Ha, Hk, Hsp, s2 |- *. set (m := new_message u event payload o s) in *.
  assert (behind u (m_id m) 0 s1) as Hb.
  { pose proof (eq_queue _ _ _ _ _ Hk) as Hq. split.
    - exists m. rewrite Hq. split; [|done]. apply elem_of_app. right. by apply list_elem_of_singleton.
    - exists (m_id <$> drop k (queue_of s u)), []. split; [by rewrite Hq, fmap_app|done]. }
  pose proof (trace_behind u (m_id m) 0 ops s1 Hw1 Hsp ltac:(lia) Hb) as ((m' & Hm' & Hid & _) & _).
  fold s2 in Hm'. split; [apply list_elem_of_fmap; by exists m'|]. intros e owner Hown.
  pose proof (trace_wf ops s1 Hw1) as Hw2. fold s2 in Hw2.
  destruct (flush userId e owner s2) as [n s3] eqn:Hf. cbn [snd].
  destruct (flush_ok _ _ _ _ _ _ Hw2 Hf) as [(_ & _ & [Hq|Ht])|(c & s4 & _ & Hres & HF)].
  - fold u in Hq. rewrite Hq in Hm'. by apply not_elem_of_nil in Hm'.
  - fold u in Ht. destruct (uo_normal _ _ (proj1 Hw2 u)) as [_ Htr]; [|congruence].
    intros Hq. rewrite Hq in Hm'. by apply not_elem_of_nil in Hm'.
  - fold u in Hres, HF. destruct (attach_ok u e owner s2 c s4 Hw2 Hres) as (_ & _ & _ & _ & _ & _ & Hem & Hc & _).
    exists ((λ m, mkEmission e u (m_id m)) <$> filter (undelivered c) (queue_of s2 u)).
    split; [rewrite <-Hem; apply HF|]. apply list_elem_of_fmap. exists m'. split; [by rewrite Hid|].
    apply list_elem_of_filter. split; [|done]. unfold undelivered. intros Hd.
    pose proof (uo_messages _ _ (proj1 Hw2 u)) as Hms. rewrite Forall_forall in Hms.
    pose proof (mo_conn _ _ _ (Hms m' Hm') c Hd). specialize (Hc Hown). lia.
Qed.

(** A flush sends exactly the messages not yet delivered on the owner's
    connection, each once and in queue order; on a fresh connection those are all
    queued messages; flushing again for the same owner sends nothing; and no
    other user's queue, timers or connection change. *)
Theorem flush_exactly_once s userId e owner :
  reachable s →
  let u := Str.trim userId in
  let n := (flush userId e owner s).1 in let s1 := (flush userId e owner s).2 in
  ∃ c, n = length (filter (undelivered c) (getPending userId s)) ∧
    emitted s1 = emitted s ++ ((λ m, mkEmission e u (m_id m)) <$> filter (undelivered c) (getPending userId s)) ∧
    (connectionIds s !! owner = Some c ∨
     connectionIds s !! owner = None ∧ filter (undelivered c) (getPending userId s) = getPending userId s) ∧
    (∀ e', (flush userId e' owner s1).1 = 0%nat ∧ emitted (flush userId e' owner s1).2 = emitted s1) ∧
    (∀ u', u' ≠ u → same_user u' s s1).
Proof.
  intros Hr u n s1. pose proof (reachable_wf _ Hr) as Hwf. unfold getPending. fold u.
  destruct (flush userId e owner s) as [n' s1'] eqn:Hf. cbn [fst snd] in n, s1.
  destruct (flush_ok _ _ _ _ _ _ Hwf Hf) as [(-> & -> & Hno)|(c & s4 & Hnm & Hres & HF)].
  - fold u in Hno. subst n s1. assert (queue_of s u = []) as Hq.
    { destruct Hno as [Hq|Ht]; [done|]. destruct (decide (queue_of s u = [])) as [|Hne]; [done|].
      destruct (uo_normal _ _ (proj1 Hwf u) Hne). congruence. }
    assert (∀ e', flush userId e' owner s = (0%nat, s)) as H0.
    { intros e'. unfold flush. fold u. rewrite Hq. by destruct (negb _). }
    rewrite Hq. destruct (connectionIds s !! owner) as [c|] eqn:Ho; [exists c|exists 0%nat].
    + do 2 (split; [done || by rewrite app_nil_r|]). split; [by left|]. split; [|done]. intros e'. by rewrite H0.
    + do 2 (split; [done || by rewrite app_nil_r|]). split; [by right|]. split; [|done]. intros e'. by rewrite H0.
  - fold u in Hnm, Hres, HF. subst n s1. exists c.
    destruct (attach_ok u e owner s c s4 Hwf Hres) as (Hw4 & Hon & Hq & _ & Hrange & Hown & Hem & Hc & _).
    assert (wf s1') as Hw1.
    { eapply wf_only_user; [done|apply HF|apply HF|]. eapply conns_ok_frame; [apply Hw4|apply HF|apply HF]. }
    split; [apply HF|]. split; [rewrite <-Hem; apply HF|]. split; [|split].
    + destruct (connectionIds s !! owner) as [c'|] eqn:Ho.
      * left. unfold resolveConnectionId in Hres. rewrite Ho in Hres. by injection Hres as <- _.
      * right. split; [done|]. apply filter_all. intros m Hm Hd.
        pose proof (uo_messages _ _ (proj1 Hwf u)) as Hms. rewrite Forall_forall in Hms.
        pose proof (mo_conn _ _ _ (Hms m Hm) c Hd). specialize (Hc eq_refl). lia.
    + intros e'. destruct (flush userId e' owner s1') as [n2 s2] eqn:Hf2.
      destruct (flush_ok _ _ _ _ _ _ Hw1 Hf2) as [(-> & -> & _)|(c2 & s5 & _ & Hres2 & HF2)]; [done|].
      fold u in Hres2, HF2. cbn [fst snd].
      destruct (attach_ok u e' owner s1' c2 s5 Hw1 Hres2) as (_ & _ & _ & _ & _ & _ & Hem2 & _).
      unfold resolveConnectionId in Hres2. rewrite (fl_conns _ _ _ _ _ _ _ HF), Hown in Hres2.
      injection Hres2 as <- <-.
      assert (filter (undelivered c) (queue_of s1' u) = []) as Hnil.
      { apply filter_none. intros m Hm Hu. apply Hu.
        destruct (fl_queue _ _ _ _ _ _ _ HF m Hm) as [?|[Hin Hni]]; [done|]. destruct Hni.
        apply list_elem_of_fmap. exists m. by rewrite <-Hq. }
      rewrite (fl_count _ _ _ _ _ _ _ HF2), (fl_emitted _ _ _ _ _ _ _ HF2), Hnil, app_nil_r. by split.
    + intros u' Hne. etrans; [by apply Hon|]. by apply (fl_only _ _ _ _ _ _ _ HF).
Qed.

(** When the ACK timer of a message fires, the message is sent again through
    the user's emitter and its retry counted while the budget lasts; once the
    budget is spent nothing is sent, the timer is gone and the message stays
    queued for the next connection. *)
Theorem ack_timeout_correct s u m :
  reachable s → m ∈ queue_of s u → (u, m_id m) ∈ timers s →
  let s' := fire_timer u (m_id m) s in
  ((m_retries m < m_maxRetries m)%Z →
     ∃ e c, emitters s !! u = Some e ∧ activeConnectionId s !! u = Some c ∧
       emitted s' = emitted s ++ [mkEmission e u (m_id m)] ∧
       delivered (Some c) (mq_now s) (m <| m_retries ::= Z.succ |>) ∈ queue_of s' u) ∧
  ((m_maxRetries m ≤ m_retries m)%Z →
     emitted s' = emitted s ∧ ((u, m_id m) ∉ timers s') ∧
     (m <| m_status := m_exhausted |> <| m_updatedAt := mq_now s |>) ∈ queue_of s' u).
Proof.
  intros Hr Hm Ht s'. destruct (reachable_wf _ Hr) as [Hw _]. pose proof (Hw u) as Hok.
  pose proof Hok as [Un Ub Ui Um Ut Ue Uc Utr]. rewrite Forall_forall in Um.
  destruct (Ut _ Ht) as (m0 & Hm0 & Hid & Hms).
  assert (m0 = m) as -> by (by apply (same_id u s)). clear Hm0 Hid.
  pose proof Hm as [i Hi]%list_elem_of_lookup_1.
  pose proof (find_message_by_id _ _ _ _ Ui Hi eq_refl) as Hf.
  destruct (Um m Hm) as [_ _ _ _ Mf]. destruct (Mf Hms) as (Hack & [e He] & _).
  destruct (proj1 Ue) as [c Hac]; [by eexists|].
  unfold s', fire_timer. rewrite decide_True by done. unfold handleAckTimeout.
  change (queue_of (clearTimer u (m_id m) s) u) with (queue_of s u). rewrite Hf, Hack, Hms.
  rewrite bool_decide_eq_false_2 by done. cbn [negb orb]. clear s'. split.
  - intros Hlt. destruct (Z.leb_spec (m_maxRetries m) (m_retries m)) as [|_]; [lia|].
    change (emitters (clearTimer u (m_id m) s)) with (emitters s). rewrite He.
    set (s2 := mutate u (m_id m) (set m_retries Z.succ) (clearTimer u (m_id m) s)).
    change (activeConnectionId s2) with (activeConnectionId s). rewrite Hac.
    destruct (deliver_acked u m e (Some c) s2 Hack) as [Dq _ _ _ _ _ _ Dem _].
    exists e, c. do 2 (split; [done|]). split; [exact Dem|]. rewrite Dq. unfold s2.
    rewrite (queue_of_mutate u (m_id m) (set m_retries Z.succ) (clearTimer u (m_id m) s)).
    apply list_elem_of_fmap. exists (m <| m_retries ::= Z.succ |>).
    split; [by rewrite String.eqb_refl|]. apply list_elem_of_fmap. exists m. by rewrite String.eqb_refl.
  - intros Hle. destruct (Z.leb_spec (m_maxRetries m) (m_retries m)) as [_|]; [|lia].
    split; [done|]. split.
    + intros [_ Hne]%settle_timer. by destruct Hne.
    + rewrite (queue_of_mutate u (m_id m) _ (clearTimer u (m_id m) s)).
      apply list_elem_of_fmap. exists m. by rewrite String.eqb_refl.
Qed.

(** A disconnect keeps every queued message, rewinds the in-flight ones to
    [pending] (and returns how many), and leaves the user without emitter or
    armed timer, so nothing is retried until a connection flushes or sends
    again.  It does so whichever of the user's connections went away. *)
Theorem disconnect_safe s userId :
  reachable s → Str.truthy (Str.trim userId) = true →
  let u := Str.trim userId in let s' := (handleDisconnect userId s).2 in
  (handleDisconnect userId s).1 = in_flight_count (getPending userId s) ∧
  getPending userId s' = rewind (mq_now s) <$> getPending userId s ∧
  (∀ m, m ∈ getPending userId s' → m_status m ≠ m_in_flight) ∧
  emitters s' !! u = None ∧ (∀ id, fire_timer u id s' = s') ∧
  (∀ u', u' ≠ u → same_user u' s s').
Proof.
  intros Hr Htr u s'. destruct (reachable_wf _ Hr) as [Hw _].
  destruct (disconnect_ok userId s (Hw _) Htr) as [_ Do _ [Oe Ot Oq] Dq Dc _].
  split; [exact Dc|]. split; [exact Dq|]. split; [exact Oq|]. split; [exact Oe|].
  split; [|apply Do]. intros id. unfold fire_timer. rewrite decide_False; [done|]. apply (Ot id).
Qed.
End Guarantees.

(** ** A concrete configuration *)
Module ExampleQueue.
#[export] Instance options : MessageQueueOptions.
Proof.
  refine {| defaultAckTimeoutMs := 15000; maxQueueSize := 2; maxRetries := 1;
            randomUUID := λ n, ("m" +:+ pretty n)%string |}; lia.
Defined.

Definition no_options : EnqueueSocketMessageOptions := mkEnqueueOptions None None None.
Definition offer : queue_op := op_enqueue "driver" "delivery:offer" (JStr "d1") no_options.
Definition send : queue_op := op_send "driver" 1 1 "delivery:offer" (JStr "d1").

Lemma start_reachable ops : reachable (trace ops (empty_queue 0)).
Proof. by exists 0%Z, ops. Qed.
End ExampleQueue.

(** A queued offer survives a flush, two ACK timeouts, a disconnect and a
    second message, with a bound of two. *)
Lemma owed_until_acked_witness :
  let s := empty_queue 0 in
  let r := @enqueue ExampleQueue.options " driver" "delivery:offer" (JStr "d1") ExampleQueue.no_options s in
  ∃ m, r.1 = inr m ∧
  let ops := [op_flush "driver" 1 1; op_timer "driver" "m0"; op_timer "driver" "m0"; op_disconnect "driver";
              ExampleQueue.offer] in
  m_id m ∈ m_id <$> getPending " driver" (@trace ExampleQueue.options ops r.2).
Proof.
  eexists. split; [reflexivity|]. cbv zeta.
  refine (proj1 (@owed_until_acked ExampleQueue.options (empty_queue 0) " driver" "delivery:offer" (JStr "d1")
    ExampleQueue.no_options _ _ _ _ _ _ _ _)).
  - by exists 0%Z, [].
  - reflexivity.
  - reflexivity.
  - vm_compute. reflexivity.
  - vm_compute. reflexivity.
Defined.

Lemma flush_exactly_once_witness :
  let s := @trace ExampleQueue.options [ExampleQueue.offer; ExampleQueue.offer] (empty_queue 0) in
  (flush "driver" 1 1 s).1 = 2%nat ∧
  ∃ c, 2%nat = length (filter (undelivered c) (getPending "driver" s)).
Proof.
  intros s. split; [vm_compute; reflexivity|].
  destruct (@flush_exactly_once ExampleQueue.options s "driver" 1 1) as (c & Hn & _);
    [apply ExampleQueue.start_reachable|].
  exists c. etrans; [|exact Hn]. vm_compute. reflexivity.
Defined.

Lemma ack_timeout_correct_witness :
  let s := @trace ExampleQueue.options [ExampleQueue.send] (empty_queue 0) in
  ∃ m, getPending "driver" s = [m] ∧
    emitted (fire_timer "driver" (m_id m) s) = [mkEmission 1 "driver" "m0"; mkEmission 1 "driver" "m0"].
Proof.
  intros s. eexists. split; [vm_compute; reflexivity|].
  match goal with |- emitted (fire_timer _ (m_id ?m) _) = _ =>
    destruct (@ack_timeout_correct ExampleQueue.options s "driver" m) as [Hretry _] end.
  - apply ExampleQueue.start_reachable.
  - apply list_elem_of_In. vm_compute. by left.
  - apply (bool_decide_unpack _). vm_compute. exact I.
  - destruct Hretry as (e & c & He & _ & Hem & _); [vm_compute; reflexivity|].
    rewrite Hem. assert (emitters s !! "driver" = Some 1%nat) as He' by (vm_compute; reflexivity).
    replace e with 1%nat by congruence. vm_compute. reflexivity.
Defined.

Lemma disconnect_safe_witness :
  let s := @trace ExampleQueue.options [ExampleQueue.send] (empty_queue 0) in
  (handleDisconnect "driver" s).1 = 1%nat.
Proof.
  intros s. destruct (@disconnect_safe ExampleQueue.options s "driver") as [Hn _].
  - apply ExampleQueue.start_reachable.
  - reflexivity.
  - etrans; [exact Hn|]. vm_compute. reflexivity.
Defined.
