(* ===== verification/CsvParser.v ===== *)
(** * CSV parsing ([src/src/utils/csvParser.ts])

    The tokenizer as a state machine over the characters of the file, and
    [parseCsv] with its errors.  A file is the sequence of its UTF-8 bytes; the
    delimiters the tokenizer looks for are ASCII, and whether a character is white
    space is seen from the bytes of the field up to it.  Against it stands a writer of
    RFC 4180 text: cells bare or quoted, rows ended by LF or CRLF. *)
From S2P Require Import Prelude JsLib.
From Stdlib Require Import Ascii.

Definition DQUOTE : ascii := ascii_of_nat 34.
Definition LF : ascii := ascii_of_nat 10.
Definition CR : ascii := ascii_of_nat 13.
Definition COMMA : ascii := ascii_of_nat 44.

Record RawRecord := mkRaw { raw_line : Z; raw_fields : list string }.
Record CsvRow := mkCsvRow { lineNumber : Z; values : gmap string string }.
Record CsvParseResult := mkParsed { headers : list string; rows : list CsvRow }.

(** ** The tokenizer *)
Record TokenizerState := mkTok {
  records : list RawRecord;
  field : list ascii;
  fields : list string;
  inQuotes : bool;
  line : Z;
  recordStartLine : Z;
  recordHasContent : bool
}.
#[export] Instance TokenizerState_eta : Settable TokenizerState := λ s,
  mkTok s.(records) s.(field) s.(fields) s.(inQuotes) s.(line) s.(recordStartLine)
    s.(recordHasContent).

Definition start_state : TokenizerState := mkTok [] [] [] false 1 1 false.

Definition endField (s : TokenizerState) : TokenizerState :=
  s <| fields ::= (.++ [Str.of_chars s.(field)]) |> <| field := [] |>.

Definition endRecord (s : TokenizerState) : TokenizerState :=
  let s := endField s in
  let s := if s.(recordHasContent)
           then s <| records ::= (.++ [mkRaw s.(recordStartLine) s.(fields)]) |> else s in
  s <| fields := [] |> <| recordHasContent := false |> <| recordStartLine := s.(line) |>.

(** A character outside quotes.  As long as the record has no content, the field
    holds the white space seen of it ([char.trim() !== '']). *)
Definition unquoted_char (c : ascii) (s : TokenizerState) : TokenizerState :=
  if Ascii.eqb c DQUOTE then s <| inQuotes := true |> <| recordHasContent := true |>
  else if Ascii.eqb c COMMA then endField (s <| recordHasContent := true |>)
  else if Ascii.eqb c CR then s
  else if Ascii.eqb c LF then
    let s := endRecord (s <| line ::= Z.add 1 |>) in s <| recordStartLine := s.(line) |>
  else s <| recordHasContent ::= (λ b, b || negb (Str.blank (s.(field) ++ [c]))) |> <| field ::= (.++ [c]) |>.

Definition quoted_char (c : ascii) (s : TokenizerState) : TokenizerState :=
  (if Ascii.eqb c LF then s <| line ::= Z.add 1 |> else s) <| field ::= (.++ [c]) |>.

(** The loop over the input. *)
Fixpoint scan (l : list ascii) (s : TokenizerState) : TokenizerState :=
  match l with
  | [] => s
  | c :: l =>
      if s.(inQuotes) then
        if Ascii.eqb c DQUOTE then
          match l with
          | c' :: l' =>
              if Ascii.eqb c' DQUOTE then scan l' (s <| field ::= (.++ [DQUOTE]) |>)
              else scan l (s <| inQuotes := false |>)
          | [] => s <| inQuotes := false |>
          end
        else scan l (quoted_char c s)
      else scan l (unquoted_char c s)
  end.

Definition CsvParseError (m : string) : error := PlainError m.

Definition tokenize (input : list ascii) : error + list RawRecord :=
  let s := scan input start_state in
  if s.(inQuotes) then inl (CsvParseError "Malformed CSV: unterminated quoted field")
  else
    let s := if s.(recordHasContent) || negb (bool_decide (s.(fields) = [])) then endRecord s else s in
    inr s.(records).

(** ** Parsing *)
Definition normaliseHeader (h : string) : string := Str.toLowerCase (Str.trim h).

(** The UTF-8 encoding of the byte order mark. *)
Definition BOM : list ascii := [ascii_of_nat 239; ascii_of_nat 187; ascii_of_nat 191].
Definition strip_bom (l : list ascii) : list ascii :=
  if bool_decide (take 3 l = BOM) then drop 3 l else l.

(** [headers.filter((h, i) => headers.indexOf(h) !== i)]. *)
Definition duplicates_of (hs : list string) : list string :=
  snd <$> filter (λ ih, list_find (λ h, h = ih.2) hs ≫= (λ p, Some p.1) ≠ Some ih.1) (imap pair hs).

(** [[...new Set(l)]]. *)
Fixpoint distinct (seen l : list string) : list string :=
  match l with
  | [] => []
  | x :: l => if bool_decide (x ∈ seen) then distinct seen l else x :: distinct (seen ++ [x]) l
  end.

(** [values[header] = v] on an object literal: the assignment of a string to
    [__proto__] is ignored. *)
Definition set_value (h v : string) (m : gmap string string) : gmap string string :=
  if String.eqb h "__proto__" then m else <[h := v]> m.

Definition row_values (hs : list string) (fs : list string) : gmap string string :=
  foldl (λ m ih, set_value ih.2 (Str.trim (nullish (fs !! ih.1) "")) m) ∅ (imap pair hs).

Definition parseCsv (input : string) (maxRows : Z) : error + CsvParseResult :=
  let text := strip_bom (Str.chars input) in
  if bool_decide (Str.trim_list text = []) then inl (CsvParseError "CSV file is empty") else
  match tokenize text with
  | inl e => inl e
  | inr [] => inl (CsvParseError "CSV file is empty")
  | inr (r :: dataRecords) =>
      let hs := normaliseHeader <$> raw_fields r in
      if includes "" hs then inl (CsvParseError "CSV header row contains an empty column name")
      else if negb (bool_decide (duplicates_of hs = [])) then
        inl (CsvParseError ("CSV header row contains duplicate column(s): "
               +:+ Str.join ", " (distinct [] (duplicates_of hs))))
      else if bool_decide (dataRecords = [])
      then inl (CsvParseError "CSV file contains a header row but no data rows")
      else if (maxRows <? Z.of_nat (length dataRecords))%Z then
        inl (CsvParseError ("CSV file contains " +:+ pretty (length dataRecords)
               +:+ " rows, which exceeds the limit of " +:+ pretty maxRows))
      else inr (mkParsed hs ((λ r, mkCsvRow (raw_line r) (row_values hs (raw_fields r))) <$> dataRecords))
  end.

(** A byte order mark and a no-break space around a header are trimmed, and a line
    of no-break spaces is blank. *)
Definition nbsp : string := Str.of_chars [ascii_of_nat 194; ascii_of_nat 160].
Example wide_space_is_blank :
  let text := Str.of_chars BOM +:+ nbsp +:+ "Id" +:+ nbsp +:+ Str.of_chars [LF] +:+ nbsp +:+ nbsp +:+ Str.of_chars [LF] +:+ "7" in
  (λ p, (headers p, (λ r, (lineNumber r, values r !! "id")) <$> rows p)) <$>
    match parseCsv text 10 with inr p => Some p | inl _ => None end = Some (["id"], [(3%Z, Some "7")]).
Proof. vm_compute. reflexivity. Qed.

(** ** RFC 4180 text *)
Inductive Cell := bare (t : list ascii) | quoted (t : list ascii).
Definition cell_text (c : Cell) : list ascii := match c with bare t | quoted t => t end.

(** Characters a bare cell may hold. *)
Definition plain (c : ascii) : bool :=
  negb (Ascii.eqb c DQUOTE || Ascii.eqb c COMMA || Ascii.eqb c CR || Ascii.eqb c LF).
Definition cell_ok (c : Cell) : bool := match c with bare t => forallb plain t | quoted _ => true end.

(** Double the quotes. *)
Definition escape (t : list ascii) : list ascii :=
  t ≫= λ c, if Ascii.eqb c DQUOTE then [DQUOTE; DQUOTE] else [c].
Definition write_cell (c : Cell) : list ascii :=
  match c with bare t => t | quoted t => DQUOTE :: escape t ++ [DQUOTE] end.

(** A row has a first cell and more; it ends with LF or CRLF. *)
Record Row := mkRow { first_cell : Cell; more_cells : list Cell; crlf : bool }.
Definition cells (r : Row) : list Cell := first_cell r :: more_cells r.
Definition row_ok (r : Row) : bool := forallb cell_ok (cells r).
Definition write_cells (r : Row) : list ascii :=
  write_cell (first_cell r) ++ (more_cells r ≫= λ c, COMMA :: write_cell c).
Definition terminator (r : Row) : list ascii := if crlf r then [CR; LF] else [LF].
Definition write_row (r : Row) : list ascii := write_cells r ++ terminator r.
(** A file; the terminator of the last row may be missing. *)
Definition write_file (rs : list Row) (final : option Row) : list ascii :=
  (rs ≫= write_row) ++ match final with Some r => write_cells r | None => [] end.

(** Rows that are not blank lines. *)
Definition has_content (r : Row) : bool :=
  match r with
  | mkRow (bare t) [] _ => negb (Str.blank t)
  | _ => true
  end.

Definition newlines (t : list ascii) : Z := Z.of_nat (length (filter (λ c, c = LF) t)).
Definition row_newlines (r : Row) : Z := newlines (cells r ≫= cell_text).

(** What a file says: the non-blank rows with the lines they start on. *)
Fixpoint rows_from (n : Z) (rs : list Row) : list RawRecord :=
  match rs with
  | [] => []
  | r :: rs =>
      (if has_content r then [mkRaw n (Str.of_chars ∘ cell_text <$> cells r)] else [])
      ++ rows_from (n + row_newlines r + 1) rs
  end.

(** ** Facts about the tokenizer *)
Section TokenizerFacts.
Implicit Types (s : TokenizerState) (t l : list ascii).

Lemma newlines_app t1 t2 : newlines (t1 ++ t2) = (newlines t1 + newlines t2)%Z.
Proof. unfold newlines. rewrite filter_app, length_app. lia. Qed.
Lemma newlines_cons c t : newlines (c :: t) = ((if decide (c = LF) then 1 else 0) + newlines t)%Z.
Proof. unfold newlines. rewrite filter_cons. case_decide; cbn; lia. Qed.

Lemma state_eta s :
  mkTok s.(records) s.(field) s.(fields) s.(inQuotes) s.(line) s.(recordStartLine) s.(recordHasContent) = s.
Proof. by destruct s. Qed.

Lemma scan_unquoted c l s : inQuotes s = false → scan (c :: l) s = scan l (unquoted_char c s).
Proof. intros Hq. cbn [scan]. by rewrite Hq. Qed.

(** Plain characters are appended to the field. *)
Lemma scan_plain t l s :
  forallb plain t = true → inQuotes s = false → field s = [] →
  scan (t ++ l) s =
    scan l (s <| recordHasContent ::= (λ b, b || negb (Str.blank t)) |> <| field := t |>).
Proof.
  intros Ht Hq Hf. revert l Ht. induction t as [|c t IH] using rev_ind; intros l Ht.
  - cbn [app]. f_equal. destruct s; cbn in Hf; subst; unfold set; cbn. by rewrite orb_false_r.
  - rewrite forallb_app in Ht. apply andb_true_iff in Ht as [Ht [Hc _]%andb_true_iff].
    rewrite <-app_assoc, IH by done. change ([c] ++ l) with (c :: l). rewrite scan_unquoted by by destruct s.
    unfold plain in Hc. apply negb_true_iff in Hc.
    apply orb_false_iff in Hc as [[[Hc1 Hc2]%orb_false_iff Hc3]%orb_false_iff Hc4].
    unfold unquoted_char. rewrite Hc1, Hc2, Hc3, Hc4. f_equal.
    destruct s as [a b d e f g h]; unfold set; cbn. rewrite <-orb_assoc. do 2 f_equal.
    destruct (Str.blank (t ++ [c])) eqn:Hb; [|by rewrite orb_true_r]. by rewrite (Str.blank_app _ _ Hb).
Qed.

(** The text of a quoted cell up to and with its closing quote. *)
Lemma scan_escaped t l s :
  inQuotes s = true → head l ≠ Some DQUOTE →
  scan (escape t ++ DQUOTE :: l) s =
    scan l (s <| field ::= (.++ t) |> <| line ::= Z.add (newlines t) |> <| inQuotes := false |>).
Proof.
  revert s. induction t as [|c t IH]; intros s Hq Hl.
  - cbn [escape mbind list_bind app scan]. rewrite Hq, Ascii.eqb_refl.
    transitivity (scan l (s <| inQuotes := false |>)).
    + destruct l as [|c' l']; [done|]. cbn in Hl.
      destruct (Ascii.eqb_spec c' DQUOTE) as [->|]; [congruence|done].
    + f_equal. destruct s; unfold set; cbn. by rewrite app_nil_r.
  - unfold escape in *. cbn [mbind list_bind]. rewrite <-app_assoc.
    destruct (Ascii.eqb_spec c DQUOTE) as [->|Hc].
    + cbn [app scan]. rewrite Hq, !Ascii.eqb_refl. rewrite IH; [|by destruct s|done].
      f_equal. destruct s; unfold set; cbn. rewrite newlines_cons, decide_False by done.
      by rewrite <-app_assoc.
    + cbn [app scan]. rewrite Hq. rewrite (proj2 (Ascii.eqb_neq _ _) Hc).
      rewrite IH; [|unfold quoted_char; destruct s; by destruct (Ascii.eqb c LF)|done].
      f_equal. unfold quoted_char. rewrite newlines_cons.
      destruct (Ascii.eqb_spec c LF) as [->|Hlf]; destruct s; unfold set; cbn.
      * rewrite decide_True by done. rewrite <-app_assoc. f_equal; lia.
      * rewrite decide_False by done. by rewrite <-app_assoc.
Qed.

(** What reading a cell does to the state. *)
Definition cell_content (c : Cell) : bool :=
  match c with bare t => negb (Str.blank t) | quoted _ => true end.
Definition after_cell (c : Cell) s : TokenizerState :=
  s <| field ::= (.++ cell_text c) |> <| line ::= Z.add (newlines (cell_text c)) |>
    <| recordHasContent ::= (λ b, b || cell_content c) |>.

Lemma plain_no_newline t : forallb plain t = true → newlines t = 0%Z.
Proof.
  induction t as [|c t IH]; [done|]. cbn [forallb]. intros [Hc Ht]%andb_true_iff.
  rewrite newlines_cons, IH by done. rewrite decide_False; [done|]. intros ->. by cbn in Hc.
Qed.

Lemma scan_cell c l s :
  cell_ok c = true → inQuotes s = false → field s = [] → head l ≠ Some DQUOTE →
  scan (write_cell c ++ l) s = scan l (after_cell c s).
Proof.
  intros Hc Hq Hf Hl. destruct c as [t|t]; cbn [write_cell cell_ok] in *.
  - rewrite scan_plain by done. f_equal. destruct s; unfold after_cell, set; cbn.
    cbn in Hf. by rewrite plain_no_newline, Hf.
  - cbn [app scan]. rewrite Hq. unfold unquoted_char. rewrite Ascii.eqb_refl. rewrite <-app_assoc. cbn [app].
    rewrite scan_escaped; [|by destruct s|done]. f_equal. cbn in Hq.
    destruct s; unfold after_cell, set; cbn in *. by rewrite orb_true_r, Hq.
Qed.

#[local] Arguments newlines : simpl never.
#[local] Arguments Z.add : simpl never.
#[local] Arguments cell_content : simpl never.

(** The cells after the first. *)
Definition after_more (cs : list Cell) s : TokenizerState :=
  foldl (λ s c, after_cell c (endField (s <| recordHasContent := true |>))) s cs.
Definition write_more (cs : list Cell) : list ascii := cs ≫= λ c, COMMA :: write_cell c.

Lemma head_more cs l : head l ≠ Some DQUOTE → head (write_more cs ++ l) ≠ Some DQUOTE.
Proof. by destruct cs. Qed.

Lemma scan_more cs l s :
  forallb cell_ok cs = true → inQuotes s = false → head l ≠ Some DQUOTE →
  scan (write_more cs ++ l) s = scan l (after_more cs s).
Proof.
  revert s. induction cs as [|c cs IH]; intros s Hcs Hq Hl; [done|].
  cbn [forallb] in Hcs. apply andb_true_iff in Hcs as [Hc Hcs].
  change (write_more (c :: cs)) with ((COMMA :: write_cell c) ++ write_more cs).
  rewrite <-app_assoc. cbn [app scan]. rewrite Hq. cbn [unquoted_char Ascii.eqb].
  change (unquoted_char COMMA s) with (endField (s <| recordHasContent := true |>)).
  rewrite scan_cell; [|done|by destruct s|done|by apply head_more]. rewrite IH; [done|done| |done].
  by destruct s.
Qed.

Lemma end_more cs s :
  endField (after_more cs s) =
    mkTok (records s) [] (fields s ++ Str.of_chars (field s) :: (Str.of_chars ∘ cell_text <$> cs)) (inQuotes s)
      (newlines (cs ≫= cell_text) + line s) (recordStartLine s)
      (recordHasContent s || negb (bool_decide (cs = []))).
Proof.
  revert s. induction cs as [|c cs IH]; intros s; cbn [after_more foldl].
  - rewrite orb_false_r. destruct s; reflexivity.
  - rewrite orb_true_r.
    assert (after_cell c (endField (s <| recordHasContent := true |>)) =
      mkTok (records s) (cell_text c) (fields s ++ [Str.of_chars (field s)]) (inQuotes s)
        (newlines (cell_text c) + line s) (recordStartLine s) true) as -> by (destruct s; reflexivity).
    unfold after_more in IH. rewrite IH. cbn [records fields field inQuotes line recordStartLine recordHasContent orb].
    rewrite <-app_assoc. change ((c :: cs) ≫= cell_text) with (cell_text c ++ (cs ≫= cell_text)).
    rewrite newlines_app. f_equal. lia.
Qed.

(** The state before a record that starts on line [n]. *)
Definition at_record (recs : list RawRecord) (n : Z) : TokenizerState := mkTok recs [] [] false n n false.

Definition row_record (n : Z) (r : Row) : list RawRecord :=
  if has_content r then [mkRaw n (Str.of_chars ∘ cell_text <$> cells r)] else [].

Lemma has_content_cells r :
  has_content r = cell_content (first_cell r) || negb (bool_decide (more_cells r = [])).
Proof.
  destruct r as [[t|t] [|c cs] b]; cbn; try done; by rewrite ?orb_false_r, ?orb_true_r.
Qed.

(** Reading the cells of a row, up to its terminator. *)
Definition after_cells (r : Row) s : TokenizerState := after_more (more_cells r) (after_cell (first_cell r) s).

Lemma scan_cells r l s :
  row_ok r = true → inQuotes s = false → field s = [] → head l ≠ Some DQUOTE →
  scan (write_cells r ++ l) s = scan l (after_cells r s).
Proof.
  unfold row_ok, cells, write_cells. cbn [forallb]. intros [Hc Hcs]%andb_true_iff Hq Hf Hl.
  fold (write_more (more_cells r)). rewrite <-app_assoc.
  rewrite scan_cell; [|done|done|done|by apply head_more]. apply scan_more; [done|by destruct s|done].
Qed.

Lemma after_more_quotes cs s : inQuotes (after_more cs s) = inQuotes s.
Proof. revert s. induction cs as [|c cs IH]; intros s; [done|]. 
  unfold after_more in *. cbn [foldl]. by rewrite IH.
Qed.

(** Ending the record after the cells of a row, [k] further lines down. *)
Lemma end_cells r recs n k :
  endRecord (after_cells r (at_record recs n) <| line ::= Z.add k |>) =
    at_record (recs ++ row_record n r) (k + (n + row_newlines r)).
Proof.
  assert (∀ s, endRecord s =
    let s' := endField s in
    mkTok (records s' ++ if recordHasContent s' then [mkRaw (recordStartLine s') (fields s')] else [])
      (field s') [] (inQuotes s') (line s') (line s') false) as ->.
  { intros s. unfold endRecord. destruct (endField s) as [a b c d e f []]; cbn; by rewrite ?app_nil_r. }
  assert (∀ s, endField (s <| line ::= Z.add k |>) = endField s <| line ::= Z.add k |>) as -> by (by intros []).
  unfold after_cells. rewrite end_more. unfold row_record. rewrite has_content_cells.
  assert (after_cell (first_cell r) (at_record recs n) =
    mkTok recs (cell_text (first_cell r)) [] false (newlines (cell_text (first_cell r)) + n) n
      (cell_content (first_cell r))) as -> by reflexivity.
  cbv zeta. unfold set. cbn [records fields field inQuotes line recordStartLine recordHasContent app].
  unfold row_newlines, cells.
  change ((first_cell r :: more_cells r) ≫= cell_text) with (cell_text (first_cell r) ++ (more_cells r ≫= cell_text)).
  rewrite newlines_app. unfold at_record. f_equal; lia.
Qed.

Lemma scan_row r l recs n :
  row_ok r = true →
  scan (write_row r ++ l) (at_record recs n) =
    scan l (at_record (recs ++ row_record n r) (n + row_newlines r + 1)).
Proof.
  intros Hr. unfold write_row. rewrite <-app_assoc.
  rewrite scan_cells; [|done|done|done|by unfold terminator; destruct (crlf r)].
  set (s := after_cells r (at_record recs n)).
  assert (inQuotes s = false) as Hq by (unfold s, after_cells; by rewrite after_more_quotes).
  transitivity (scan (LF :: l) s).
  { unfold terminator. destruct (crlf r); [|done]. change ([CR; LF] ++ l) with (CR :: LF :: l).
    by rewrite (scan_unquoted CR). }
  rewrite (scan_unquoted LF) by done. change (unquoted_char LF s) with
    (let s' := endRecord (s <| line ::= Z.add 1 |>) in s' <| recordStartLine := line s' |>).
  unfold s. cbv zeta. rewrite end_cells. f_equal. unfold at_record, set; cbn. f_equal; lia.
Qed.

Lemma scan_rows rs l recs n :
  forallb row_ok rs = true →
  scan ((rs ≫= write_row) ++ l) (at_record recs n) =
    scan l (at_record (recs ++ rows_from n rs)
              (n + Z.of_nat (length rs) + newlines (rs ≫= λ r, cells r ≫= cell_text))).
Proof.
  revert recs n. induction rs as [|r rs IH]; intros recs n Hrs; cbn [mbind list_bind rows_from].
  - rewrite app_nil_r. cbn [app length]. change (newlines []) with 0%Z. do 2 f_equal. lia.
  - cbn [forallb] in Hrs. apply andb_true_iff in Hrs as [Hr Hrs]. rewrite <-app_assoc.
    rewrite scan_row, IH by done. fold (row_record n r). rewrite <-app_assoc. do 2 f_equal.
    rewrite newlines_app. unfold row_newlines. cbn [length].
    set (a := newlines (cells r ≫= cell_text)). set (b := newlines _). lia.
Qed.

Lemma rows_from_app n rs r :
  rows_from n (rs ++ [r]) =
    rows_from n rs ++ row_record (n + Z.of_nat (length rs) + newlines (rs ≫= λ r, cells r ≫= cell_text)) r.
Proof.
  revert n. induction rs as [|r' rs IH]; intros n; cbn [app rows_from length mbind list_bind].
  - rewrite app_nil_r. change (newlines []) with 0%Z. cbn [length].
    by assert (n + Z.of_nat 0 + 0 = n)%Z as -> by lia.
  - rewrite IH, <-app_assoc. do 3 f_equal. rewrite newlines_app. unfold row_newlines.
    set (a := newlines (cells r' ≫= cell_text)). set (b := newlines _). lia.
Qed.

Lemma content_after_cells r recs n : recordHasContent (after_cells r (at_record recs n)) = has_content r.
Proof.
  change (recordHasContent (after_cells r (at_record recs n)))
    with (recordHasContent (endField (after_cells r (at_record recs n)))).
  unfold after_cells. by rewrite end_more, has_content_cells.
Qed.
End TokenizerFacts.

(** ** The tokenizer reads what RFC 4180 writes *)
Definition file_rows (rs : list Row) (final : option Row) : list Row := rs ++ option_list final.

(** C14: a file of bare and quoted cells (quotes doubled, with commas and line
    breaks inside the quotes), its rows ended by LF or CRLF and the last one
    possibly by nothing, is read back as exactly its non-blank rows, each with
    the cells that were written and the physical line it starts on. *)
Theorem tokenize_write_file rs final :
  forallb row_ok (file_rows rs final) = true →
  tokenize (write_file rs final) = inr (rows_from 1 (file_rows rs final)).
Proof.
  unfold file_rows, write_file. rewrite forallb_app. intros [Hrs Hf]%andb_true_iff.
  unfold tokenize. change start_state with (at_record [] 1).
  rewrite scan_rows by done. set (n := (1 + _ + _)%Z). cbn [app].
  destruct final as [r|]; cbn [option_list] in *; [|by rewrite !app_nil_r].
  apply andb_true_iff in Hf as [Hf _].
  rewrite <-(app_nil_r (write_cells r)), scan_cells by done. cbn [scan].
  set (s := after_cells r (at_record (rows_from 1 rs) n)).
  assert (inQuotes s = false) as -> by (unfold s, after_cells; by rewrite after_more_quotes).
  change (option_list (Some r)) with [r]. rewrite rows_from_app. fold n. f_equal.
  assert (recordHasContent s = has_content r) as Hc by apply content_after_cells. rewrite Hc.
  destruct (has_content r) eqn:Hr; cbn [orb].
  - assert (s = s <| line ::= Z.add 0 |>) as -> by (by destruct s).
    unfold s. by rewrite end_cells.
  - assert (fields s = []) as Hfs.
    { unfold s, after_cells. destruct r as [c [|c' cs] b]; [done|]. by destruct c. }
    rewrite Hfs. unfold row_record. rewrite Hr, app_nil_r. rewrite bool_decide_eq_true_2 by done. cbn [negb].
    unfold s, after_cells. destruct r as [c [|c' cs] b]; [done|]. by destruct c.
Qed.

(** ** Parsed files *)
Section ParsedFiles.
Implicit Types (s : TokenizerState).

(** Records start on strictly increasing lines. *)
Record lines_ok (s : TokenizerState) : Prop := {
  lo_sorted : StronglySorted Z.lt (raw_line <$> records s);
  lo_before : Forall (λ r, 1 ≤ raw_line r < recordStartLine s)%Z (records s);
  lo_range : (1 ≤ recordStartLine s ≤ line s)%Z
}.

Lemma StronglySorted_snoc (l : list Z) x :
  StronglySorted Z.lt l → Forall (λ y, y < x)%Z l → StronglySorted Z.lt (l ++ [x]).
Proof.
  induction 1 as [|y l Hs IH Hy]; intros Hx; cbn; [by repeat constructor|].
  apply Forall_cons in Hx as [Hyx Hx]. constructor; [by apply IH|].
  apply Forall_app. split; [done|by apply Forall_singleton].
Qed.

(** The records after a record has been ended. *)
Lemma endRecord_sorted s :
  lines_ok s → StronglySorted Z.lt (raw_line <$> records (endRecord s)) ∧
    Forall (λ r, 1 ≤ raw_line r ≤ recordStartLine s)%Z (records (endRecord s)).
Proof.
  intros [Hs Hb Hr].
  assert (records (endRecord s) = records s ++
    if recordHasContent s then [mkRaw (recordStartLine s) (fields (endField s))] else []) as ->.
  { unfold endRecord. destruct s as [a b c d e f []]; cbn; by rewrite ?app_nil_r. }
  assert (Forall (λ r, 1 ≤ raw_line r ≤ recordStartLine s)%Z (records s)) as Hle
    by (eapply Forall_impl; [exact Hb|]; cbn; intros; lia).
  destruct (recordHasContent s); [|by rewrite app_nil_r]. rewrite fmap_app. split.
  - apply StronglySorted_snoc; [done|]. apply Forall_fmap. eapply Forall_impl; [exact Hb|]. cbn. intros; lia.
  - apply Forall_app. split; [done|]. apply Forall_singleton. cbn. lia.
Qed.

Lemma lines_ok_same s s' :
  records s' = records s → recordStartLine s' = recordStartLine s → (line s ≤ line s')%Z →
  lines_ok s → lines_ok s'.
Proof. intros H1 H2 H3 [Hs Hb Hr]. split; rewrite ?H1, ?H2; [done|done|lia]. Qed.

Lemma unquoted_lines c s : lines_ok s → lines_ok (unquoted_char c s).
Proof.
  intros Hok. unfold unquoted_char.
  destruct (Ascii.eqb c DQUOTE); [by apply (lines_ok_same s)|].
  destruct (Ascii.eqb c COMMA); [by apply (lines_ok_same s)|].
  destruct (Ascii.eqb c CR); [done|].
  destruct (Ascii.eqb c LF); [|by apply (lines_ok_same s)].
  set (s1 := s <| line ::= Z.add 1 |>).
  assert (lines_ok s1) as Hok1 by (apply (lines_ok_same s); [done|done| |done];
    change (line s1) with (1 + line s)%Z; lia).
  destruct (endRecord_sorted s1 Hok1) as [H1 H2].
  assert (line (endRecord s1) = 1 + line s)%Z as Hl by (unfold endRecord; by destruct s as [? ? ? ? ? ? []]).
  cbv zeta. split.
  - exact H1.
  - eapply Forall_impl; [exact H2|]. cbn beta. intros r Hr.
    change (recordStartLine (endRecord s1 <| recordStartLine := line (endRecord s1) |>))
      with (line (endRecord s1)). rewrite Hl. destruct Hok as [_ _ Hr']. change (recordStartLine s1)
      with (recordStartLine s) in Hr. lia.
  - change (recordStartLine (endRecord s1 <| recordStartLine := line (endRecord s1) |>))
      with (line (endRecord s1)).
    change (line (endRecord s1 <| recordStartLine := line (endRecord s1) |>)) with (line (endRecord s1)).
    rewrite Hl. destruct Hok. lia.
Qed.

Lemma scan_lines l s : lines_ok s → lines_ok (scan l s).
Proof.
  remember (length l) as n eqn:Hn. revert l Hn s.
  induction (lt_wf n) as [n _ IH]. intros [|c l] -> s Hok; [done|]. cbn [scan].
  assert (∀ l' s', (length l' < length (c :: l))%nat → lines_ok s' → lines_ok (scan l' s')) as IH'
    by (intros l' s' Hl Hs'; by apply (IH (length l'))).
  clear IH. destruct (inQuotes s); [|apply IH'; [cbn; lia|by apply unquoted_lines]].
  destruct (Ascii.eqb c DQUOTE).
  - destruct l as [|c' l]; [by apply (lines_ok_same s)|].
    destruct (Ascii.eqb c' DQUOTE); apply IH'; try (cbn [length]; lia); by apply (lines_ok_same s).
  - apply IH'; [cbn; lia|]. apply (lines_ok_same s); [..|done]; unfold quoted_char;
      destruct (Ascii.eqb c LF); try done; destruct s; unfold set; cbn -[Z.add]; lia.
Qed.

Lemma tokenize_lines l rs :
  tokenize l = inr rs →
  StronglySorted Z.lt (raw_line <$> rs) ∧ Forall (λ r, 1 ≤ raw_line r)%Z rs.
Proof.
  unfold tokenize. assert (lines_ok (scan l start_state)) as Hok.
  { apply scan_lines. split; [constructor|constructor|done]. }
  destruct (inQuotes _); [done|]. intros [= <-]. destruct (_ || _).
  - destruct (endRecord_sorted _ Hok) as [H1 H2]. split; [done|].
    eapply Forall_impl; [exact H2|]. cbn. intros; lia.
  - destruct Hok as [H1 H2 _]. split; [done|]. eapply Forall_impl; [exact H2|]. cbn. intros; lia.
Qed.
End ParsedFiles.

(** *** Headers and values *)
Lemma duplicates_of_nil hs : duplicates_of hs = [] ↔ NoDup hs.
Proof.
  unfold duplicates_of.
  assert (∀ l : list (nat * string), snd <$> l = [] ↔ l = []) as -> by (intros []; split; done).
  assert (∀ i h, hs !! i = Some h → ∃ j, list_find (λ h', h' = h) hs = Some (j, h) ∧ hs !! j = Some h ∧ (j ≤ i)%nat)
    as Hfind.
  { intros i h Hi. destruct (list_find_elem_of (λ h', h' = h) hs h) as [[j h'] Hf];
      [by eapply list_elem_of_lookup_2|done|].
    pose proof Hf as (Hj & -> & Hmin)%list_find_Some. exists j. split; [done|]. split; [done|].
    destruct (Nat.le_gt_cases j i) as [|Hgt]; [done|]. destruct (Hmin i h Hi Hgt eq_refl). }
  split.
  - intros Hnil. apply NoDup_alt. intros i j h Hi Hj. revert i j Hi Hj.
    assert (∀ i j, hs !! i = Some h → hs !! j = Some h → (i < j)%nat → False) as Hlt.
    { intros i j Hi Hj Hij. destruct (Hfind i h Hi) as (k & Hk & _ & Hle).
      assert ((j, h) ∈ filter (λ ih, list_find (λ h, h = ih.2) hs ≫= (λ p, Some p.1) ≠ Some ih.1) (imap pair hs)) as Hin.
      { apply list_elem_of_filter. split; [|by apply elem_of_lookup_imap_2]. cbn. rewrite Hk. cbn.
        intros [= ->]. lia. }
      rewrite Hnil in Hin. by apply not_elem_of_nil in Hin. }
    intros i j Hi Hj. destruct (lt_eq_lt_dec i j) as [[|]|]; [|done|]; exfalso; eauto.
  - intros Hnd. apply filter_none. intros [i h] (i' & h' & [= <- <-] & Hi)%elem_of_lookup_imap_1 Hne. apply Hne.
    cbn. destruct (Hfind i h Hi) as (k & -> & Hk & _). cbn. f_equal. by eapply NoDup_lookup.
Qed.

Lemma row_values_foldl (fs : list string) l m h :
  NoDup (snd <$> l) →
  foldl (λ m ih, set_value ih.2 (Str.trim (nullish (fs !! ih.1) "")) m) m l !! h =
    match list_find (λ ih : nat * string, ih.2 = h) l with
    | Some (_, ih) => if String.eqb h "__proto__" then m !! h else Some (Str.trim (nullish (fs !! ih.1) ""))
    | None => m !! h
    end.
Proof.
  revert m. induction l as [|[i h'] l IH]; intros m Hnd; [done|].
  rewrite fmap_cons in Hnd. apply NoDup_cons in Hnd as [Hni Hnd]. cbn [foldl list_find snd fst].
  rewrite IH by done. case_decide as Hd; cbn [snd] in Hd; [subst h'|].
  - assert (list_find (λ ih : nat * string, ih.2 = h) l = None) as ->.
    { apply list_find_None, Forall_forall. intros [j x] Hx <-. apply Hni. apply list_elem_of_fmap. by exists (j, x). }
    cbn. unfold set_value. destruct (String.eqb_spec h "__proto__"); [done|]. by rewrite lookup_insert_eq.
  - destruct (list_find _ l) as [[k ih]|]; cbn;
      unfold set_value; destruct (String.eqb_spec h' "__proto__"); destruct (String.eqb_spec h "__proto__");
      try done; by rewrite lookup_insert_ne.
Qed.

(** Every header but [__proto__] has the trimmed text of its column, or the
    empty string in a row that is too short. *)
Lemma row_values_lookup hs fs i h :
  NoDup hs → hs !! i = Some h → h ≠ "__proto__" →
  row_values hs fs !! h = Some (Str.trim (nullish (fs !! i) "")).
Proof.
  intros Hnd Hi Hp. unfold row_values.
  assert (snd <$> imap pair hs = hs) as Hsnd.
  { apply list_eq. intros j. rewrite list_lookup_fmap, list_lookup_imap. by destruct (hs !! j). }
  rewrite row_values_foldl by by rewrite Hsnd.
  destruct (list_find_elem_of (λ ih : nat * string, ih.2 = h) (imap pair hs) (i, h)) as [[k ih] Hf];
    [by apply elem_of_lookup_imap_2|done|].
  rewrite Hf. apply list_find_Some in Hf as (Hk & Hih & _).
  rewrite list_lookup_imap in Hk. destruct (hs !! k) as [h'|] eqn:Hh; [|done].
  injection Hk as <-. cbn in Hih. subst h'. rewrite (proj2 (String.eqb_neq _ _) Hp). cbn.
  by rewrite (NoDup_lookup _ _ _ _ Hnd Hh Hi).
Qed.

(** Parsing accepts a file exactly when its records tokenize, its header
    names are non-empty and distinct after trimming and lower-casing, and it
    has between one and [maxRows] data rows.  It then returns every data row
    with its physical line, in strictly increasing line order after the
    header, and gives each column the trimmed text of its cell, or the empty
    string where the row is short. *)
Theorem parseCsv_correct input maxRows :
  let text := strip_bom (Str.chars input) in
  match parseCsv input maxRows with
  | inr p =>
      ∃ r rs, tokenize text = inr (r :: rs) ∧
        headers p = (normaliseHeader <$> raw_fields r) ∧ NoDup (headers p) ∧ ("" ∉ headers p) ∧
        (1 ≤ Z.of_nat (length (rows p)) ≤ maxRows)%Z ∧
        (lineNumber <$> rows p) = (raw_line <$> rs) ∧
        StronglySorted Z.lt (raw_line r :: (lineNumber <$> rows p)) ∧
        ∀ k row rec i h, rows p !! k = Some row → rs !! k = Some rec →
          headers p !! i = Some h → h ≠ "__proto__" →
          values row !! h = Some (Str.trim (nullish (raw_fields rec !! i) ""))
  | inl e =>
      (∃ m, e = CsvParseError m) ∧
      ∀ r rs, Str.trim_list text ≠ [] → tokenize text = inr (r :: rs) →
        ¬ NoDup (normaliseHeader <$> raw_fields r) ∨ "" ∈ (normaliseHeader <$> raw_fields r) ∨
        rs = [] ∨ (maxRows < Z.of_nat (length rs))%Z
  end.
Proof.
  cbv zeta. unfold parseCsv. set (text := strip_bom (Str.chars input)).
  case_bool_decide as Hblank; [by split; [by eexists|]|].
  destruct (tokenize text) as [e|[|r rs]] eqn:Ht.
  - split; [|done]. unfold tokenize in Ht. destruct (inQuotes _); [|done]. injection Ht as <-. by eexists.
  - split; [by eexists|done].
  - set (hs := normaliseHeader <$> raw_fields r).
    destruct (includes "" hs) eqn:Hempty.
    { split; [by eexists|]. intros r' rs' _ [= <- <-]. right. left. by apply includes_true. }
    assert ("" ∉ hs) as Hne by (intros Hin%includes_true; congruence).
    case_bool_decide as Hdup; cbn [negb].
    2: { split; [by eexists|]. intros r' rs' _ [= <- <-]. left. by rewrite <-duplicates_of_nil. }
    apply duplicates_of_nil in Hdup.
    case_bool_decide as Hnil.
    { split; [by eexists|]. intros r' rs' _ [= <- <-]. tauto. }
    destruct (Z.ltb_spec maxRows (Z.of_nat (length rs))) as [Hmax|Hmax].
    { split; [by eexists|]. intros r' rs' _ [= <- <-]. tauto. }
    exists r, rs. cbn [headers rows]. rewrite length_fmap.
    assert (lineNumber <$> ((λ r, mkCsvRow (raw_line r) (row_values hs (raw_fields r))) <$> rs) = raw_line <$> rs)
      as Hln by (rewrite <-list_fmap_compose; by apply list_fmap_ext).
    do 4 (split; [done|]). split; [destruct rs; [done|cbn [length] in *; lia]|]. split; [exact Hln|].
    split; [rewrite Hln; apply (tokenize_lines text (r :: rs) Ht)|].
    intros k row rec i h Hrow Hrec Hh Hp. rewrite list_lookup_fmap, Hrec in Hrow. injection Hrow as <-.
    by apply row_values_lookup.
Qed.

Lemma StronglySorted_lt_NoDup (l : list Z) : StronglySorted Z.lt l → NoDup l.
Proof.
  induction 1 as [|x l Hs IH Hx]; constructor; [|done]. intros Hin.
  rewrite Forall_forall in Hx. specialize (Hx x Hin). lia.
Qed.

(** The data rows of a parsed file are on different lines. *)
Lemma parseCsv_lines input maxRows :
  match parseCsv input maxRows with inr p => NoDup (lineNumber <$> rows p) | inl _ => True end.
Proof.
  unfold parseCsv. case_bool_decide; [done|].
  destruct (tokenize _) as [e|[|r rs]] eqn:Ht; [done|done|].
  apply tokenize_lines in Ht as [Hs _].
  cbv zeta. destruct (includes _ _); [done|]. destruct (negb _); [done|]. case_bool_decide; [done|].
  destruct (_ <? _)%Z; [done|]. cbn [rows]. rewrite <-list_fmap_compose. apply StronglySorted_lt_NoDup. rewrite fmap_cons in Hs.
  by apply StronglySorted_inv in Hs as [? _].
Qed.

(** A header, a blank line, and a row whose cells hold a comma, a quote and a
    line break; the file does not end with a line break. *)
Lemma tokenize_write_file_witness :
  let text s := Str.chars s in
  let head := mkRow (bare (text "trackingNumber")) [bare (text "notes")] true in
  let blank := mkRow (bare (text " ")) [] false in
  let r := mkRow (quoted (text "T,1")) [quoted ([LF; DQUOTE])] false in
  tokenize (write_file [head; blank] (Some r)) =
    inr [mkRaw 1 ["trackingNumber"; "notes"]; mkRaw 3 ["T,1"; Str.of_chars [LF; DQUOTE]]].
Proof. intros text head blank r. refine (tokenize_write_file [head; blank] (Some r) _). vm_compute. reflexivity. Defined.
