(* ===== verification/BulkDelivery.v ===== *)
(** * Bulk delivery import ([src/src/services/bulkDeliveryService.ts])

    Batch creation of deliveries from a CSV file with partial success: the row
    schema, the in-file and in-database duplicate checks, the unordered insert
    and the report.  The validity of an e-mail address is the validation
    library's, and a notification is any program. *)
From S2P Require Import Prelude JsLib Models Repositories CsvParser.
From Stdlib Require Import SpecFloat.

(** ** Rows and reports *)
Record DeliveryRow := mkDeliveryRow {
  trackingnumber : string;
  customername : string;
  customerphone : string;
  customeremail : option string;
  pickupaddress : string;
  dropoffaddress : string;
  packagedescription : string;
  packageweight : number;
  deliveryfee : number;
  escrowamount : number;
  row_notes : option string
}.

Record ValidRow := mkValidRow { v_line : Z; data : DeliveryRow }.

Record BulkRowError := mkRowError {
  r_line : Z;
  r_trackingNumber : option string;
  r_field : option string;
  r_message : string
}.

Record BulkImportResult := mkImportResult {
  totalRows : Z;
  successCount : Z;
  failureCount : Z;
  created : list string;
  errors : list BulkRowError
}.

Class BulkConfig := {
  BULK_UPLOAD_MAX_ROWS : Z;
  (** The validation library's check of an e-mail address. *)
  isEmail : string → bool
}.

Definition REQUIRED_COLUMNS : list string :=
  ["trackingnumber"; "customername"; "customerphone"; "pickupaddress"; "dropoffaddress";
   "packagedescription"; "packageweight"; "deliveryfee"; "escrowamount"].

(** ** The row schema *)
Section Schema.
Context `{BulkConfig}.

(** An issue of the schema: a path and a message. *)
Definition issue : Type := string * string.

(** [z.string().trim().min(1, message)]. *)
Definition required_string (name msg : string) (vs : gmap string string) : issue + string :=
  match vs !! name with
  | None => inl (name, "Invalid input: expected string, received undefined")
  | Some v => let v := Str.trim v in if Str.truthy v then inr v else inl (name, msg)
  end.

(** [z.coerce.number({ message }).positive(...)] and [.nonnegative(...)]; a
    number is finite. *)
Definition required_number (name not_a_number out_of_range : string) (ok : number → bool)
    (vs : gmap string string) : issue + number :=
  let n := match vs !! name with Some v => NumParse.of_string v | None => S754_nan end in
  if negb (Num.isFinite n) then inl (name, not_a_number)
  else if ok n then inr n else inl (name, out_of_range).

Definition positive (n : number) : bool := Num.ltb Num.zero n.
Definition nonnegative (n : number) : bool := Num.leb Num.zero n.

(** [z.string().trim().email().optional().or(z.literal('').transform(...))]. *)
Definition optional_email (vs : gmap string string) : issue + option string :=
  match vs !! "customeremail" with
  | None => inr None
  | Some v =>
      if isEmail (Str.trim v) then inr (Some (Str.trim v))
      else if Str.truthy v then inl ("customeremail", "customerEmail must be a valid email address")
      else inr None
  end.

Definition optional_notes (vs : gmap string string) : issue + option string :=
  inr (Str.trim <$> vs !! "notes").

Definition issue_of {A} (r : issue + A) : list issue := match r with inl i => [i] | inr _ => [] end.

(** [deliveryRowSchema.safeParse]: every issue of the row, or its data. *)
Definition safeParse (vs : gmap string string) : list issue + DeliveryRow :=
  let tn := required_string "trackingnumber" "trackingNumber is required" vs in
  let cn := required_string "customername" "customerName is required" vs in
  let cp := required_string "customerphone" "customerPhone is required" vs in
  let ce := optional_email vs in
  let pa := required_string "pickupaddress" "pickupAddress is required" vs in
  let da := required_string "dropoffaddress" "dropoffAddress is required" vs in
  let pd := required_string "packagedescription" "packageDescription is required" vs in
  let pw := required_number "packageweight" "packageWeight must be a number"
              "packageWeight must be greater than zero" positive vs in
  let df := required_number "deliveryfee" "deliveryFee must be a number"
              "deliveryFee cannot be negative" nonnegative vs in
  let ea := required_number "escrowamount" "escrowAmount must be a number"
              "escrowAmount cannot be negative" nonnegative vs in
  let no := optional_notes vs in
  match tn, cn, cp, ce, pa, da, pd, pw, df, ea, no with
  | inr tn, inr cn, inr cp, inr ce, inr pa, inr da, inr pd, inr pw, inr df, inr ea, inr no =>
      inr (mkDeliveryRow tn cn cp ce pa da pd pw df ea no)
  | _, _, _, _, _, _, _, _, _, _, _ =>
      inl (issue_of tn ++ issue_of cn ++ issue_of cp ++ issue_of ce ++ issue_of pa ++ issue_of da
           ++ issue_of pd ++ issue_of pw ++ issue_of df ++ issue_of ea ++ issue_of no)
  end.
End Schema.

(** ** The service *)
Definition nonempty (s : string) : option string := if Str.truthy s then Some s else None.

Section BulkDeliveryService.
Context `{Env} `{BulkConfig}.
(** [notifications.notifyDeliveryTransition(delivery, PENDING)]. *)
Context (notifyDeliveryTransition : hydrated Delivery → action unit).

Definition parse (csvContent : string) : error + CsvParseResult :=
  match parseCsv csvContent BULK_UPLOAD_MAX_ROWS with
  | inl e => inl (AppError (error_message e) Http.BAD_REQUEST)
  | inr p => inr p
  end.

Definition missing_columns (hs : list string) : list string :=
  filter (λ c, includes c hs = false) REQUIRED_COLUMNS.

Definition assertRequiredColumns (hs : list string) : error + unit :=
  match missing_columns hs with
  | [] => inr tt
  | ms => inl (AppError ("CSV is missing required column(s): " +:+ Str.join ", " ms) Http.BAD_REQUEST)
  end.

Definition row_errors (row : CsvRow) (issues : list issue) : list BulkRowError :=
  (λ i : issue, mkRowError (lineNumber row) (values row !! "trackingnumber" ≫= nonempty)
     (nonempty i.1) i.2) <$> issues.

Fixpoint validateRows (l : list CsvRow) : list ValidRow * list BulkRowError :=
  match l with
  | [] => ([], [])
  | row :: l =>
      let '(valid, errs) := validateRows l in
      match safeParse (values row) with
      | inr d => (mkValidRow (lineNumber row) d :: valid, errs)
      | inl issues => (valid, row_errors row issues ++ errs)
      end
  end.

Definition duplicate_error (row : ValidRow) (firstSeen : Z) : BulkRowError :=
  mkRowError (v_line row) (Some (trackingnumber (data row))) (Some "trackingNumber")
    ("Duplicate tracking number within the file (first seen on line " +:+ pretty firstSeen +:+ ")").

(** The rows kept and the errors raised, given the numbers seen so far. *)
Fixpoint reject_duplicates (seen : gmap string Z) (l : list ValidRow) : list ValidRow * list BulkRowError :=
  match l with
  | [] => ([], [])
  | row :: l =>
      let tn := trackingnumber (data row) in
      match seen !! tn with
      | Some firstSeen =>
          let '(u, errs) := reject_duplicates seen l in (u, duplicate_error row firstSeen :: errs)
      | None =>
          let '(u, errs) := reject_duplicates (<[tn := v_line row]> seen) l in (row :: u, errs)
      end
  end.

Definition rejectDuplicateTrackingNumbers (l : list ValidRow) (errs : list BulkRowError)
    : list ValidRow * list BulkRowError :=
  let '(u, errs') := reject_duplicates ∅ l in (u, errs ++ errs').

(** The tracking numbers among the candidates that are taken, by archived
    deliveries too. *)
Definition findExistingTrackingNumbers (tns : list string) : action (gset string) :=
  if bool_decide (tns = []) then mret ∅ else
  reads (λ w, list_to_set (filter (λ t, t ∈ tns)
    (omap (λ kv, trackingNumber kv.2) (map_to_list (deliveries w))))).

Definition exists_error (row : ValidRow) : BulkRowError :=
  mkRowError (v_line row) (Some (trackingnumber (data row))) (Some "trackingNumber")
    "A delivery with this tracking number already exists".

Definition reject_existing (existing : gset string) (l : list ValidRow) : list ValidRow * list BulkRowError :=
  (filter (λ r, trackingnumber (data r) ∉ existing) l,
   exists_error <$> filter (λ r, trackingnumber (data r) ∈ existing) l).

Definition XLM_asset : option Asset := Some (mkAsset "XLM" None).

Definition toDeliveryDocument (row : DeliveryRow) (createdBy : string) : Delivery :=
  {| deliveryId := None; driverId := None; driver := None; userId := Some createdBy; sender := None; d_recipient := None;
     d_contractId := None; trackingNumber := Some (trackingnumber row);
     customer := JObj ([("name", JStr (customername row)); ("phone", JStr (customerphone row))]
                       ++ match customeremail row ≫= nonempty with
                          | Some e => [("email", JStr e)] | None => [] end);
     pickup := JObj [("address", JStr (pickupaddress row))];
     dropoff := JObj [("address", JStr (dropoffaddress row))];
     package := JObj [("description", JStr (packagedescription row)); ("weight", JNum (packageweight row))];
     deliveryFee := Some (deliveryfee row); deliveryFeeAsset := XLM_asset;
     escrowAmount := Some (escrowamount row); escrowAsset := XLM_asset;
     fundBy := None; cancellationReason := None; notes := row_notes row ≫= nonempty;
     status := DeliveryStatus.PENDING; estimatedDistance := None; estimatedDuration := None;
     stellarTransactionId := None; proofOfDelivery := None; isDeleted := false; deletedAt := None;
     deletedBy := None; d_createdAt := 0; d_updatedAt := 0 |}.

(** [insertMany] with [ordered: false]: every document is tried; a failed one
    is a write error with its index. *)
Fixpoint insert_each (docs : list Delivery) : action (list (error + hydrated Delivery)) :=
  match docs with
  | [] => mret []
  | d :: docs =>
      x ← try_catch (x ← DeliveryRepository.create d; mret (inr x)) (λ e, mret (inl e));
      xs ← insert_each docs;
      mret (x :: xs)
  end.

Definition inserted_of (l : list (error + hydrated Delivery)) : list (hydrated Delivery) :=
  omap (λ x, match x with inr d => Some d | inl _ => None end) l.
Definition writeErrors_of (l : list (error + hydrated Delivery)) : list (nat * string) :=
  omap (λ ix : nat * (error + hydrated Delivery),
    match ix.2 with inl e => Some (ix.1, error_message e) | inr _ => None end) (imap pair l).

(** The driver's error: what was inserted, and the write errors. *)
Record BulkWriteError := mkBulkWriteError {
  insertedDocs : list (hydrated Delivery);
  writeErrors : list (nat * string)
}.

Definition createMany (docs : list Delivery) : action (BulkWriteError + list (hydrated Delivery)) :=
  match docs with
  | [] => mret (inr [])
  | _ =>
      res ← insert_each docs;
      mret (match writeErrors_of res with
            | [] => inr (inserted_of res)
            | we => inl (mkBulkWriteError (inserted_of res) we)
            end)
  end.

Definition humaniseWriteError (m : string) : string :=
  if String.index 0 "E11000" m is Some _ then "A delivery with this tracking number already exists" else m.

Definition write_error (l : list ValidRow) (we : nat * string) : BulkRowError :=
  mkRowError (nullish (v_line <$> l !! we.1) 0%Z) ((λ r, trackingnumber (data r)) <$> l !! we.1) None
    (humaniseWriteError we.2).

Definition notifyCreated (ds : list (hydrated Delivery)) : action unit :=
  for_each ds (λ d, try_catch (notifyDeliveryTransition d) (λ _, mret tt)).

Definition insert_rows (l : list ValidRow) (createdBy : string) (errs : list BulkRowError)
    : action (list (hydrated Delivery) * list BulkRowError) :=
  match l with
  | [] => mret ([], errs)
  | _ =>
      res ← createMany ((λ r, toDeliveryDocument (data r) createdBy) <$> l);
      match res with
      | inr ds => _ ← notifyCreated ds; mret (ds, errs)
      | inl e =>
          _ ← notifyCreated (insertedDocs e);
          mret (insertedDocs e, errs ++ (write_error l <$> writeErrors e))
      end
  end.

(** [errors.sort((a, b) => a.line - b.line)]. *)
Definition by_line (a b : BulkRowError) : Prop := (r_line a ≤ r_line b)%Z.
#[export] Instance by_line_dec : RelDecision by_line.
Proof. intros a b. unfold by_line. apply _. Defined.

Definition importFromCsv (csvContent createdBy : string) : action BulkImportResult :=
  parsed ← Done (parse csvContent);
  _ ← Done (assertRequiredColumns (headers parsed));
  let '(valid, errs) := validateRows (rows parsed) in
  let '(deduped, errs) := rejectDuplicateTrackingNumbers valid errs in
  existing ← findExistingTrackingNumbers ((λ r, trackingnumber (data r)) <$> deduped);
  let '(insertable, errs') := reject_existing existing deduped in
  '(ds, errs) ← insert_rows insertable createdBy (errs ++ errs');
  let failedLines : gset Z := list_to_set (r_line <$> errs) in
  mret {| totalRows := Z.of_nat (length (rows parsed));
          successCount := Z.of_nat (length ds);
          failureCount := Z.of_nat (size failedLines);
          created := (λ d, nullish (trackingNumber (body d)) (_id d)) <$> ds;
          errors := merge_sort by_line errs |}.
End BulkDeliveryService.

(** ** Accounting for rows *)
Section Accounting.
Context `{Env} `{BulkConfig}.

(** Every line is either a surviving row's or has an error, never both. *)
Record accounts (all : list Z) (surv : list ValidRow) (errs : list BulkRowError) : Prop := {
  ac_nodup : NoDup (v_line <$> surv);
  ac_disjoint x : x ∈ v_line <$> surv → x ∉ r_line <$> errs;
  ac_all x : x ∈ all ↔ x ∈ (v_line <$> surv) ∨ x ∈ (r_line <$> errs)
}.

Lemma accounts_count all surv errs :
  NoDup all → accounts all surv errs →
  (length surv + size (list_to_set (r_line <$> errs) : gset Z))%nat = length all.
Proof.
  intros Hnd [H1 H2 H3].
  assert ((list_to_set all : gset Z) = list_to_set (v_line <$> surv) ∪ list_to_set (r_line <$> errs)) as Hset.
  { apply set_eq. intros x. rewrite elem_of_union, !elem_of_list_to_set. apply H3. }
  rewrite <-(size_list_to_set (C := gset Z) all Hnd), Hset, size_union.
  - rewrite (size_list_to_set (C := gset Z) (v_line <$> surv)) by done. by rewrite length_fmap.
  - intros x. rewrite !elem_of_list_to_set. apply H2.
Qed.

(** A stage that turns some survivors into errors. *)
Lemma accounts_stage all surv errs surv' errs' :
  accounts all surv errs →
  (v_line <$> surv') ++ (r_line <$> errs') ≡ₚ (v_line <$> surv) →
  accounts all surv' (errs ++ errs').
Proof.
  intros [H1 H2 H3] Hp. pose proof H1 as Hnd. rewrite <-Hp in Hnd. apply NoDup_app in Hnd as (Hn1 & Hn2 & _).
  assert (∀ x, x ∈ v_line <$> surv ↔ x ∈ (v_line <$> surv') ∨ x ∈ (r_line <$> errs')) as Hel.
  { intros x. by rewrite <-Hp, elem_of_app. }
  split; [done| |].
  - intros x Hx. rewrite fmap_app, elem_of_app. intros [He|He].
    + apply (H2 x); [|done]. apply Hel. by left.
    + by apply (Hn2 x).
  - intros x. rewrite fmap_app, elem_of_app, H3, Hel. tauto.
Qed.

Lemma safeParse_issues vs issues : safeParse vs = inl issues → issues ≠ [].
Proof. unfold safeParse. repeat case_match; intros [= <-]; discriminate. Qed.

Lemma validateRows_elem l row d :
  safeParse (values row) = inr d → row ∈ l → mkValidRow (lineNumber row) d ∈ (validateRows l).1.
Proof.
  intros Hd. induction l as [|r l IH]; [by intros []%not_elem_of_nil|]. cbn [validateRows].
  destruct (validateRows l) as [valid errs]. cbn [fst] in *. intros [->|Hin]%elem_of_cons.
  - rewrite Hd. by left.
  - destruct (safeParse (values r)); [by apply IH|]. right. by apply IH.
Qed.

Lemma validateRows_back l v :
  v ∈ (validateRows l).1 → ∃ row, row ∈ l ∧ lineNumber row = v_line v ∧ safeParse (values row) = inr (data v).
Proof.
  induction l as [|r l IH]; [by intros []%not_elem_of_nil|]. cbn [validateRows].
  destruct (validateRows l) as [valid errs]. cbn [fst] in *.
  assert (v ∈ valid → ∃ row, row ∈ r :: l ∧ lineNumber row = v_line v ∧ safeParse (values row) = inr (data v)) as IH'.
  { intros Hv. destruct (IH Hv) as (row & ? & ? & ?). exists row. split; [by right|done]. }
  destruct (safeParse (values r)) as [issues|d] eqn:Hs; cbn [fst]; [done|].
  intros [->|Hin]%elem_of_cons; [|by apply IH']. exists r. split; [by left|done].
Qed.

Lemma validateRows_accounts l :
  NoDup (lineNumber <$> l) → accounts (lineNumber <$> l) (validateRows l).1 (validateRows l).2.
Proof.
  induction l as [|r l IH]; intros Hnd.
  { split; cbn; [constructor|by intros x []%not_elem_of_nil|]. intros x. rewrite elem_of_nil. tauto. }
  rewrite fmap_cons in *. apply NoDup_cons in Hnd as [Hni Hnd]. destruct (IH Hnd) as [H1 H2 H3]. clear IH.
  cbn [validateRows]. destruct (validateRows l) as [valid errs]. cbn [fst snd] in *.
  assert ((lineNumber r ∉ (v_line <$> valid)) ∧ lineNumber r ∉ (r_line <$> errs)) as [Hv He].
  { split; intros Hin; apply Hni, H3; [by left|by right]. }
  destruct (safeParse (values r)) as [issues|d] eqn:Hs; cbn [fst snd].
  - apply safeParse_issues in Hs.
    assert (∀ x, x ∈ r_line <$> row_errors r issues ↔ x = lineNumber r) as Hline.
    { intros x. unfold row_errors. rewrite <-list_fmap_compose, list_elem_of_fmap. cbn. split; [by intros (? & -> & _)|].
      intros ->. destruct issues as [|i issues]; [done|]. exists i. split; [done|by left]. }
    split; [done| |].
    + intros x Hx. rewrite fmap_app, elem_of_app, Hline. intros [->|?]; [done|]. by apply (H2 x).
    + intros x. rewrite elem_of_cons, fmap_app, elem_of_app, Hline, H3. tauto.
  - split; rewrite fmap_cons; cbn [v_line]; [by apply NoDup_cons| |].
    + intros x [->|Hx]%elem_of_cons; [done|by apply H2].
    + intros x. rewrite !elem_of_cons, H3. tauto.
Qed.

Lemma reject_duplicates_stage seen l :
  (v_line <$> (reject_duplicates seen l).1) ++ (r_line <$> (reject_duplicates seen l).2) ≡ₚ (v_line <$> l).
Proof.
  revert seen. induction l as [|r l IH]; intros seen; [done|]. cbn [reject_duplicates].
  destruct (seen !! trackingnumber (data r)).
  - specialize (IH seen). destruct (reject_duplicates seen l) as [u errs]. cbn [fst snd] in *.
    rewrite !fmap_cons. cbn [r_line duplicate_error]. rewrite <-Permutation_middle. by rewrite IH.
  - specialize (IH (<[trackingnumber (data r) := v_line r]> seen)).
    destruct (reject_duplicates _ l) as [u errs]. cbn [fst snd] in *. rewrite !fmap_cons. cbn [app]. by rewrite IH.
Qed.

Lemma reject_duplicates_unique seen l :
  NoDup ((λ r, trackingnumber (data r)) <$> (reject_duplicates seen l).1) ∧
  (∀ r, r ∈ (reject_duplicates seen l).1 → seen !! trackingnumber (data r) = None) ∧
  (reject_duplicates seen l).1 `sublist_of` l.
Proof.
  revert seen. induction l as [|r l IH]; intros seen.
  { split; [constructor|]. split; [by intros r []%not_elem_of_nil|done]. }
  cbn [reject_duplicates]. destruct (seen !! trackingnumber (data r)) eqn:Hs.
  - destruct (IH seen) as (H1 & H2 & H3). destruct (reject_duplicates seen l) as [u errs]. cbn [fst] in *.
    split; [done|]. split; [done|by constructor].
  - destruct (IH (<[trackingnumber (data r) := v_line r]> seen)) as (H1 & H2 & H3).
    destruct (reject_duplicates _ l) as [u errs]. cbn [fst] in *. split; [|split].
    + rewrite fmap_cons. apply NoDup_cons. split; [|done]. intros (r' & Heq & Hr')%list_elem_of_fmap.
      specialize (H2 r' Hr'). rewrite <-Heq, lookup_insert_eq in H2. done.
    + intros r' [->|Hr']%elem_of_cons; [done|]. specialize (H2 r' Hr').
      by apply lookup_insert_None in H2 as [? _].
    + by constructor.
Qed.

Lemma reject_existing_stage existing l :
  (v_line <$> (reject_existing existing l).1) ++ (r_line <$> (reject_existing existing l).2) ≡ₚ (v_line <$> l).
Proof.
  unfold reject_existing. cbn [fst snd]. induction l as [|r l IH]; [done|].
  destruct (decide (trackingnumber (data r) ∈ existing)) as [Hin|Hni].
  - rewrite (filter_cons_False (λ r, trackingnumber (data r) ∉ existing)) by tauto.
    rewrite (filter_cons_True (λ r, trackingnumber (data r) ∈ existing)) by done.
    rewrite !fmap_cons. cbn [r_line exists_error]. by rewrite <-Permutation_middle, IH.
  - rewrite (filter_cons_True (λ r, trackingnumber (data r) ∉ existing)) by done.
    rewrite (filter_cons_False (λ r, trackingnumber (data r) ∈ existing)) by done.
    rewrite !fmap_cons. cbn [app]. by rewrite IH.
Qed.
End Accounting.

(** ** The insert, whatever others do *)
Section Insert.
Context `{Env} `{BulkConfig}.
Context (notify : hydrated Delivery → action unit).

(** No assumption on the other users of the database. *)
Definition anything : relation World := λ _ _, True.
#[export] Instance anything_preorder : PreOrder anything.
Proof. by split. Qed.

Lemma any_safe {A} (p : action A) w (Q : error + A → World → Prop) :
  (∀ r w', Q r w') → safe anything p w Q.
Proof.
  intros HQ. revert w. induction p as [r|B op k IH]; intros w; cbn; [by auto|].
  intros w' _. split; [done|apply IH].
Qed.

Lemma notifyCreated_safe ds w : safe anything (notifyCreated notify ds) w (λ r _, r = inr tt).
Proof.
  revert w. induction ds as [|d ds IH]; intros w; [by intros w' _|]. cbn [notifyCreated for_each].
  apply (safe_bind _ _ _ _ (λ r _, r = inr tt)); [|intros [] w' _ _; apply IH|done].
  apply (safe_try_catch _ _ _ _ (λ r _, True)); [by apply any_safe|by intros e w' _ _ w'' _|by intros [] w' _ _].
Qed.

(** The result of one document: an error, or the document that was stored. *)
Definition stored (d : Delivery) (x : error + hydrated Delivery) : Prop :=
  match x with inr h => trackingNumber (body h) = trackingNumber d | inl _ => True end.

Lemma create_safe d w :
  safe anything (DeliveryRepository.create d) w (λ r _, stored d r).
Proof.
  cbn. intros w' _. split; [done|]. intros w2 _. split; [done|]. intros w3 _.
  by case_match.
Qed.

Lemma insert_each_safe docs w :
  safe anything (insert_each docs) w (λ r _, ∃ res, r = inr res ∧ Forall2 stored docs res).
Proof.
  revert w. induction docs as [|d docs IH]; intros w; cbn [insert_each].
  { intros w' _. by exists []. }
  apply (safe_bind _ _ _ _ (λ r _, ∃ x, r = inr x ∧ stored d x)); [|intros x w' _ (? & [= <-] & Hx)|by intros e w' _ (? & ? & _)].
  - apply (safe_try_catch _ _ _ _ (λ r _, match r with inr x => stored d x | inl _ => True end));
      [|by intros e w' _ _ w'' _; exists (inl e)|by intros x w' _ Hx; exists x].
    apply (safe_bind _ _ _ _ (λ r _, stored d r)); [apply create_safe|by intros x w' _ Hx w'' _|done].
  - apply (safe_bind _ _ _ _ (λ r _, ∃ res, r = inr res ∧ Forall2 stored docs res)); [apply IH| |].
    + intros xs w2 _ (? & [= <-] & Hxs) w3 _. exists (x :: xs). split; [done|by constructor].
    + by intros e w2 _ (? & ? & _).
Qed.

(** The rows whose documents were inserted. *)
Definition kept (l : list ValidRow) (res : list (error + hydrated Delivery)) : list ValidRow :=
  omap (λ p : ValidRow * (error + hydrated Delivery),
    match p.2 with inr _ => Some p.1 | inl _ => None end) (zip l res).

Definition write_errors_from (k : nat) (res : list (error + hydrated Delivery)) : list (nat * string) :=
  omap (λ ix : nat * (error + hydrated Delivery),
    match ix.2 with inl e => Some (ix.1, error_message e) | inr _ => None end)
    (imap (λ i x, ((k + i)%nat, x)) res).

Lemma write_errors_from_cons k x res :
  write_errors_from k (x :: res) =
    match x with inl e => [(k, error_message e)] | inr _ => [] end ++ write_errors_from (S k) res.
Proof.
  unfold write_errors_from. rewrite imap_cons, Nat.add_0_r.
  assert (imap ((λ i x, ((k + i)%nat, x)) ∘ S) res = imap (λ i x, ((S k + i)%nat, x)) res) as ->
    by (apply imap_ext; intros i y _; cbn; f_equal; lia).
  by destruct x.
Qed.

Lemma write_error_lines pre l res docs :
  Forall2 stored docs res → length docs = length l →
  (v_line <$> kept l res) ++
    (r_line <$> (write_error (pre ++ l) <$> write_errors_from (length pre) res)) ≡ₚ (v_line <$> l).
Proof.
  intros Hres. revert pre l. induction Hres as [|d x docs res Hx _ IH]; intros pre [|r l] Hl; try done.
  rewrite write_errors_from_cons. specialize (IH (pre ++ [r]) l ltac:(cbn in Hl; lia)).
  rewrite length_app, Nat.add_1_r, <-app_assoc in IH. cbn [app] in IH.
  destruct x as [e|h]; cbn [app].
  - rewrite !fmap_cons. cbn [r_line write_error fst].
    rewrite list_lookup_middle by done. cbn [nullish fmap option_fmap option_map default from_option].
    rewrite <-Permutation_middle. unfold id. cbn [kept zip zip_with omap list_omap snd]. by rewrite IH.
  - cbn [kept zip zip_with omap list_omap snd fst]. rewrite !fmap_cons. cbn [app]. by rewrite IH.
Qed.

(** Where the inserted documents and the kept rows meet. *)
Lemma inserted_kept l res docs createdBy :
  docs = (λ r, toDeliveryDocument (data r) createdBy) <$> l → Forall2 stored docs res →
  (λ d, nullish (trackingNumber (body d)) (_id d)) <$> inserted_of res =
  (λ r, trackingnumber (data r)) <$> kept l res.
Proof.
  intros -> Hres. revert res Hres. induction l as [|r l IH]; intros res Hres.
  - rewrite fmap_nil in Hres. by apply Forall2_nil_inv_l in Hres as ->.
  - rewrite fmap_cons in Hres. apply Forall2_cons_inv_l in Hres as (x & res' & Hx & Hres & ->).
    destruct x as [e|h]; cbn [inserted_of omap list_omap kept zip zip_with snd fst]; [by apply IH|].
    rewrite !fmap_cons. cbn in Hx. rewrite Hx. cbn [nullish toDeliveryDocument trackingNumber]. cbn.
    f_equal. by apply IH.
Qed.

Lemma kept_sublist l res : kept l res `sublist_of` l.
Proof.
  unfold kept. revert res. induction l as [|r l IH]; intros [|x res]; cbn; [done|done|apply sublist_nil_l|].
  destruct x; cbn; constructor; apply IH.
Qed.

(** What inserting the rows gives: the rows kept, their documents, and an
    error for every other row. *)
Lemma insert_rows_safe all l createdBy errs w :
  accounts all l errs →
  safe anything (insert_rows notify l createdBy errs) w
    (λ r _, ∃ ds errs' l', r = inr (ds, errs') ∧ accounts all l' errs' ∧ l' `sublist_of` l ∧
       (λ d, nullish (trackingNumber (body d)) (_id d)) <$> ds = (λ r, trackingnumber (data r)) <$> l').
Proof.
  intros Hacc. unfold insert_rows. destruct l as [|r0 l0] eqn:Hl.
  { intros w' _. by exists [], errs, []. }
  rewrite <-Hl in *. set (docs := (λ r, toDeliveryDocument (data r) createdBy) <$> l).
  apply (safe_bind _ _ _ _ (λ r _, ∃ res, Forall2 stored docs res ∧
    r = inr (match writeErrors_of res with [] => inr (inserted_of res)
             | we => inl (mkBulkWriteError (inserted_of res) we) end))); [| |by intros e w' _ (? & _ & ?)].
  { unfold createMany. assert (∃ d docs', docs = d :: docs') as (d & docs' & ->) by (subst l; by eexists _, _).
    apply (safe_bind _ _ _ _ (λ r _, ∃ res, r = inr res ∧ Forall2 stored (d :: docs') res));
      [apply insert_each_safe| |by intros e w' _ (? & ? & _)].
    intros res w' _ (? & [= <-] & Hres) w'' _. by exists res. }
  intros x w' _ (res & Hres & [= ->]).
  assert (length docs = length l) as Hlen by apply length_fmap.
  pose proof (write_error_lines [] l res docs Hres Hlen) as Hp. cbn [length app] in Hp.
  assert (write_errors_from 0 res = writeErrors_of res) as Hwe by reflexivity. rewrite Hwe in Hp.
  pose proof (inserted_kept l res docs createdBy eq_refl Hres) as Hins.
  pose proof (accounts_stage _ _ _ _ _ Hacc Hp) as Hacc'.
  assert (∀ ds errs', ds = inserted_of res → errs' = errs ++ (write_error l <$> writeErrors_of res) →
    safe anything (_ ← notifyCreated notify ds; mret (ds, errs')) w'
      (λ r _, ∃ ds errs' l', r = inr (ds, errs') ∧ accounts all l' errs' ∧ l' `sublist_of` l ∧
         (λ d, nullish (trackingNumber (body d)) (_id d)) <$> ds = (λ r, trackingnumber (data r)) <$> l')) as Hend.
  { intros ds errs' -> ->. apply (safe_bind _ _ _ _ (λ r _, r = inr tt)); [apply notifyCreated_safe| |done].
    intros [] w2 _ _ w3 _. exists (inserted_of res), (errs ++ (write_error l <$> writeErrors_of res)), (kept l res).
    split; [done|]. split; [done|]. split; [apply kept_sublist|done]. }
  destruct (writeErrors_of res) as [|we wes] eqn:Hw; apply Hend; try done. by rewrite app_nil_r.
Qed.
End Insert.

(** ** The report *)
Section Report.
Context `{Env} `{BulkConfig}.

(** What a report says of the rows of a file. *)
Record report_ok (p : CsvParseResult) (res : BulkImportResult) : Prop := {
  rep_total : totalRows res = Z.of_nat (length (rows p));
  rep_balance : (successCount res + failureCount res)%Z = totalRows res;
  rep_created : successCount res = Z.of_nat (length (created res)) ∧ NoDup (created res);
  rep_sorted : Sorted by_line (errors res);
  rep_lines x : x ∈ (r_line <$> errors res) → x ∈ (lineNumber <$> rows p);
  rep_rows row : row ∈ rows p →
    lineNumber row ∈ (r_line <$> errors res) ∨
    ∃ d, safeParse (values row) = inr d ∧ trackingnumber d ∈ created res;
  rep_valid t : t ∈ created res → ∃ row d, row ∈ rows p ∧ safeParse (values row) = inr d ∧
    trackingnumber d = t ∧ lineNumber row ∉ (r_line <$> errors res)
}.

#[local] Instance by_line_total : Total by_line.
Proof. intros a b. unfold by_line. lia. Qed.

Lemma report_of_accounts p ds errs l' :
  NoDup (lineNumber <$> rows p) → accounts (lineNumber <$> rows p) l' errs →
  l' `sublist_of` (validateRows (rows p)).1 → NoDup ((λ r, trackingnumber (data r)) <$> l') →
  (λ d : hydrated Delivery, nullish (trackingNumber (body d)) (_id d)) <$> ds =
    (λ r, trackingnumber (data r)) <$> l' →
  report_ok p {| totalRows := Z.of_nat (length (rows p));
                 successCount := Z.of_nat (length ds);
                 failureCount := Z.of_nat (size (list_to_set (r_line <$> errs) : gset Z));
                 created := (λ d, nullish (trackingNumber (body d)) (_id d)) <$> ds;
                 errors := merge_sort by_line errs |}.
Proof.
  intros Hnd Hacc Hsub Htn Hds. pose proof Hacc as [A1 A2 A3].
  assert (length ds = length l') as Hlen.
  { apply (f_equal length) in Hds. by rewrite !length_fmap in Hds. }
  assert (∀ x, x ∈ r_line <$> merge_sort by_line errs ↔ x ∈ r_line <$> errs) as Herr.
  { intros x. by rewrite (merge_sort_Permutation by_line errs). }
  split; cbn [totalRows successCount failureCount created errors].
  - done.
  - rewrite Hlen. pose proof (accounts_count _ _ _ Hnd Hacc) as Hc. rewrite length_fmap in Hc. lia.
  - rewrite Hds. by rewrite length_fmap, Hlen.
  - apply (Sorted_merge_sort by_line).
  - intros x Hx%Herr. apply A3. by right.
  - intros row Hrow. rewrite Herr.
    destruct (proj1 (A3 (lineNumber row))) as [Hin|Hin]; [|right|by left].
    { apply list_elem_of_fmap. by exists row. }
    apply list_elem_of_fmap in Hin as (v & Hv & Hvin).
    destruct (validateRows_back (rows p) v) as (row' & Hr1 & Hr2 & Hr3).
    { by eapply elem_of_sublist. }
    assert (row' = row) as ->.
    { apply list_elem_of_lookup_1 in Hrow as [i Hi], Hr1 as [j Hj]. assert (i = j) as ->; [|congruence].
      eapply (NoDup_lookup _ _ _ (lineNumber row) Hnd); rewrite list_lookup_fmap; [by rewrite Hi|].
      rewrite Hj. cbn. congruence. }
    exists (data v). split; [done|]. rewrite Hds. apply list_elem_of_fmap. by exists v.
  - intros t. rewrite Hds. intros (v & -> & Hv)%list_elem_of_fmap.
    destruct (validateRows_back (rows p) v) as (row & Hr1 & Hr2 & Hr3); [by eapply elem_of_sublist|].
    exists row, (data v). split; [done|]. split; [done|]. split; [done|]. rewrite Herr, Hr2.
    apply A2. apply list_elem_of_fmap. by exists v.
Qed.

Lemma parse_lines csv p : parse csv = inr p → NoDup (lineNumber <$> rows p).
Proof.
  unfold parse. pose proof (parseCsv_lines csv BULK_UPLOAD_MAX_ROWS) as Hl.
  destruct (parseCsv csv BULK_UPLOAD_MAX_ROWS) as [e|p']; [done|]. by intros [= <-].
Qed.

(** C15: whatever happens to the database between its accesses, an import either
    refuses the whole file with 400 (it does not parse, or a required column
    is missing), or returns a report in which every data row is accounted for
    once: created or rejected, successes and failures adding up to the rows;
    a created tracking number is that of a valid row without an error and
    occurs once, and the errors are in line order. *)
Theorem importFromCsv_accounts notify csvContent createdBy w :
  safe anything (importFromCsv notify csvContent createdBy) w (λ r _,
    match parse csvContent with
    | inl e => r = inl e ∧ error_status e = Some Http.BAD_REQUEST
    | inr p =>
        match assertRequiredColumns (headers p) with
        | inl e => r = inl e ∧ error_status e = Some Http.BAD_REQUEST
        | inr _ => ∃ res, r = inr res ∧ report_ok p res
        end
    end).
Proof.
  unfold importFromCsv. destruct (parse csvContent) as [e|p] eqn:Hp.
  { intros w' _. split; [done|]. unfold parse in Hp. destruct (parseCsv _ _); [|done]. by injection Hp as <-. }
  cbn [mbind prog_bind]. destruct (assertRequiredColumns (headers p)) as [e|[]] eqn:Hreq.
  { intros w' _. split; [done|]. unfold assertRequiredColumns in Hreq.
    destruct (missing_columns _); [done|]. by injection Hreq as <-. }
  apply parse_lines in Hp. pose proof (validateRows_accounts (rows p) Hp) as Hacc.
  destruct (validateRows (rows p)) as [valid errs] eqn:Hval. cbn [fst snd] in Hacc.
  unfold rejectDuplicateTrackingNumbers.
  pose proof (reject_duplicates_stage ∅ valid) as Hdup.
  pose proof (reject_duplicates_unique ∅ valid) as (Hu & _ & Hsub).
  destruct (reject_duplicates ∅ valid) as [deduped errs1]. cbn [fst snd] in *.
  pose proof (accounts_stage _ _ _ _ _ Hacc Hdup) as Hacc1.
  apply (safe_bind _ _ _ _ (λ r _, ∃ ex, r = inr ex)); [|intros existing w' _ _|by intros e w' _ (? & ?)].
  { unfold findExistingTrackingNumbers. case_bool_decide; [by intros w' _; eexists|].
    cbn. intros w1 _. split; [done|]. intros w2 _. by eexists. }
  pose proof (reject_existing_stage existing deduped) as Hex. unfold reject_existing in *. cbn [fst snd] in Hex.
  set (l := filter _ deduped) in *. set (errs2 := exists_error <$> _) in *.
  pose proof (accounts_stage _ _ _ _ _ Hacc1 Hex) as Hacc2.
  apply (safe_bind _ _ _ _ _ _ (insert_rows_safe notify _ l createdBy _ w' Hacc2)).
  - intros [ds errs'] w2 _ (? & ? & l' & [= <- <-] & Hacc3 & Hsub3 & Hds) w3 _. eexists. split; [done|].
    apply (report_of_accounts p ds errs' l'); [done|done| | |done].
    + rewrite Hval. cbn [fst]. etrans; [exact Hsub3|]. etrans; [|exact Hsub]. apply sublist_filter.
    + eapply sublist_NoDup; [exact Hu|]. apply fmap_sublist. etrans; [exact Hsub3|]. apply sublist_filter.
  - by intros e w2 _ (? & ? & ? & ? & _).
Qed.
End Report.
