(* ===== verification/Stroops.v ===== *)
(** * Stroops ([src/src/utils/stroops.ts])

    The conversion between decimal asset amounts and the smallest unit of the
    ledger, through the fixed-point text of an amount.  A [number] is the
    double the source works on, a [bigint] an integer; the texts of the error
    messages are left out. *)
From S2P Require Import Prelude JsLib.
From Stdlib Require Import SpecFloat Ascii.

Definition STELLAR_DECIMALS : nat := 7.
Definition STROOPS_PER_UNIT : Z := 10 ^ Z.of_nat STELLAR_DECIMALS.
Definition MAX_SAFE_INTEGER : Z := 2 ^ 53 - 1.

(** [Number.MAX_SAFE_INTEGER / Number(STROOPS_PER_UNIT)]. *)
Definition MAX_CONVERTIBLE_AMOUNT : number := Num.div (Num.of_Z MAX_SAFE_INTEGER) (Num.of_Z STROOPS_PER_UNIT).

(** ** [toFixed] and [BigInt] *)

(** The integer [n] for which [n / 10^f] is closest to a positive [m * 2^e];
    the larger one of two. *)
Definition scaled (f : nat) (m : positive) (e : Z) : Z :=
  if (0 <=? e)%Z then Z.pos m * 2 ^ e * 10 ^ Z.of_nat f
  else (2 * Z.pos m * 10 ^ Z.of_nat f + 2 ^ (- e)) / (2 * 2 ^ (- e)).

(** [n] as a decimal with [f] digits after the point. *)
Definition fixed_text (f : nat) (n : Z) : string :=
  pretty (n / 10 ^ Z.of_nat f)%Z +:+ "." +:+ Str.padStart f (pretty (n mod 10 ^ Z.of_nat f)%Z).

(** [x.toFixed(f)] of a positive [x] below [10^21]. *)
Definition toFixed (f : nat) (x : number) : string :=
  match x with S754_finite false m e => fixed_text f (scaled f m e) | _ => "" end.

(** [s.split('.')], for a text with one point at most. *)
Fixpoint split_point (l : list ascii) : list ascii * list ascii :=
  match l with
  | [] => ([], [])
  | c :: l => if Ascii.eqb c "." then ([], l) else let '(a, b) := split_point l in (c :: a, b)
  end.

(** [BigInt(s)] of a text of decimal digits. *)
Definition BigInt (l : list ascii) : option Z :=
  match NumParse.digits 10 0 0 l with (v, _, []) => Some v | _ => None end.

(** [s.padEnd(n, '0')]. *)
Definition padEnd (n : nat) (l : list ascii) : list ascii := l ++ replicate (n - length l) "0"%char.

(** ** The conversions *)
Inductive ConversionError := not_positive | too_large | not_an_integer.

Definition toStroops (amount : number) : ConversionError + Z :=
  if negb (Num.isFinite amount) || Num.leb amount Num.zero then inl not_positive
  else if Num.ltb MAX_CONVERTIBLE_AMOUNT amount then inl too_large
  else
    let '(whole, fraction) := split_point (Str.chars (toFixed STELLAR_DECIMALS amount)) in
    match BigInt whole, BigInt (padEnd STELLAR_DECIMALS fraction) with
    | Some w, Some f => inr (w * STROOPS_PER_UNIT + f)%Z
    | _, _ => inl not_an_integer
    end.

Definition fromStroops (stroops : Z) : string :=
  let negative := (stroops <? 0)%Z in
  let absolute := (if negative then - stroops else stroops)%Z in
  let whole := (absolute / STROOPS_PER_UNIT)%Z in
  let fraction := Str.padStart STELLAR_DECIMALS (pretty (absolute mod STROOPS_PER_UNIT)%Z) in
  (if negative then "-" else "") +:+ pretty whole +:+ "." +:+ fraction.

(** A reader of decimal texts with seven digits after the point. *)
Definition read_amount (s : string) : option Z :=
  let '(negative, l) := match Str.chars s with "-"%char :: l => (true, l) | l => (false, l) end in
  let '(whole, fraction) := split_point l in
  w ← BigInt whole; f ← BigInt fraction;
  if bool_decide (length fraction = STELLAR_DECIMALS)
  then Some (if negative then - (w * STROOPS_PER_UNIT + f) else w * STROOPS_PER_UNIT + f)%Z else None.

Example to_15_99 : toStroops (NumParse.of_string "15.99") = inr 159900000%Z.
Proof. reflexivity. Qed.
Example from_150_25 : fromStroops 1502500000 = "150.2500000".
Proof. reflexivity. Qed.
Example from_negative : fromStroops (-1) = "-0.0000001".
Proof. reflexivity. Qed.
Example to_dust : toStroops (NumParse.of_string "0.00000001") = inr 0%Z.
Proof. reflexivity. Qed.
Example to_lossy : toStroops (NumParse.of_string "600000000.0000003") = inr 6000000000000004%Z.
Proof. reflexivity. Qed.
Example max_convertible : toStroops MAX_CONVERTIBLE_AMOUNT = inr (MAX_SAFE_INTEGER + 1)%Z.
Proof. reflexivity. Qed.

(** ** Decimal digits *)
Section Digits.
Implicit Types (l ds : list ascii).

Definition digit (c : ascii) : option Z :=
  d ← NumParse.digit_val c; if (d <? 10)%Z then Some d else None.
Definition all_digits ds : Prop := Forall (λ c, is_Some (digit c)) ds.
(** The value of digits read after [acc]. *)
Definition value (acc : Z) ds : Z := foldl (λ a c, a * 10 + nullish (digit c) 0)%Z acc ds.

Lemma value_app acc ds1 ds2 : value acc (ds1 ++ ds2) = value (value acc ds1) ds2.
Proof. apply foldl_app. Qed.

Lemma value_shift acc ds : value acc ds = (acc * 10 ^ Z.of_nat (length ds) + value 0 ds)%Z.
Proof.
  induction ds as [|c ds IH] using rev_ind; [cbn; lia|]. rewrite !value_app, IH, length_app, Nat2Z.inj_add.
  cbn [length]. rewrite Z.pow_add_r by lia. cbn [value foldl]. set (p := (10 ^ Z.of_nat (length ds))%Z).
  change (Z.of_nat 1) with 1%Z. rewrite Z.pow_1_r. lia.
Qed.

Lemma digits_all acc len ds l :
  all_digits ds → (∀ c l', l = c :: l' → digit c = None) →
  NumParse.digits 10 acc len (ds ++ l) = (value acc ds, (len + Z.of_nat (length ds))%Z, l).
Proof.
  revert acc len. induction ds as [|c ds IH]; intros acc len Hds Hl; cbn [app NumParse.digits value foldl length].
  - rewrite Z.add_0_r. destruct l as [|c l]; [done|]. specialize (Hl c l eq_refl). unfold digit in Hl.
    cbn [NumParse.digits]. destruct (NumParse.digit_val c) as [d|]; [|done]. cbn in Hl.
    by destruct (d <? 10)%Z.
  - apply Forall_cons in Hds as [[d Hd] Hds]. unfold digit in Hd.
    destruct (NumParse.digit_val c) as [d'|] eqn:Hc; [|done]. cbn in Hd.
    destruct (d' <? 10)%Z eqn:Hlt; [|done]. injection Hd as ->. rewrite IH by done.
    unfold digit at 2. rewrite Hc. cbn [mbind option_bind]. rewrite Hlt. cbn [nullish default from_option].
    unfold id. f_equal. f_equal. lia.
Qed.

Lemma BigInt_digits ds : all_digits ds → BigInt ds = Some (value 0 ds).
Proof. intros Hds. unfold BigInt. rewrite <-(app_nil_r ds) at 1. by rewrite digits_all. Qed.

Lemma split_point_digits ds l : all_digits ds → split_point (ds ++ "."%char :: l) = (ds, l).
Proof.
  induction ds as [|c ds IH]; intros Hds; [done|]. apply Forall_cons in Hds as [Hc Hds].
  cbn [app split_point]. rewrite IH by done. destruct (Ascii.eqb_spec c "."%char) as [->|]; [|done].
  by destruct Hc.
Qed.

Lemma pretty_char_digit (d : N) : (d < 10)%N → digit (pretty_N_char d) = Some (Z.of_N d).
Proof.
  intros Hd. assert (d ∈ [0; 1; 2; 3; 4; 5; 6; 7; 8; 9]%N) as Hin.
  { rewrite !elem_of_cons. lia. }
  repeat (apply elem_of_cons in Hin as [->|Hin]; [reflexivity|]). by apply not_elem_of_nil in Hin.
Qed.

(** The digits a number is printed with. *)
Lemma pretty_go_digits (x : N) :
  ∃ ds, (∀ s, Str.chars (pretty_N_go x s) = ds ++ Str.chars s) ∧ all_digits ds ∧ value 0 ds = Z.of_N x ∧
    ((0 < x)%N → (0 < length ds)%nat ∧ (10 ^ Z.of_nat (pred (length ds)) ≤ Z.of_N x)%Z).
Proof.
  induction x as [x IH] using (well_founded_induction N.lt_wf_0).
  destruct (decide (0 < x)%N) as [Hx|Hx].
  - destruct (IH (x `div` 10)%N) as (ds & H1 & H2 & H3 & H4); [by apply N.div_lt|].
    assert ((x mod 10 < 10)%N) as Hmod by (by apply N.mod_lt).
    assert (Z.of_N (x `div` 10) * 10 + Z.of_N (x `mod` 10) = Z.of_N x)%Z as Hdm
      by (rewrite N2Z.inj_div, N2Z.inj_mod; pose proof (Z.div_mod (Z.of_N x) 10); lia).
    exists (ds ++ [pretty_N_char (x `mod` 10)]). split; [|split; [|split]].
    + intros s. rewrite pretty_N_go_step, H1 by done. by rewrite <-app_assoc.
    + apply Forall_app. split; [done|]. apply Forall_singleton. rewrite pretty_char_digit by done. by eexists.
    + rewrite value_app, H3. cbn [value foldl]. rewrite pretty_char_digit by done. exact Hdm.
    + intros _. rewrite length_app. cbn [length]. split; [lia|].
      replace (pred (length ds + 1)) with (length ds) by lia.
      destruct (decide (0 < x `div` 10)%N) as [Hq|Hq].
      * destruct (H4 Hq) as [Hl Hp]. replace (length ds) with (S (pred (length ds))) by lia.
        rewrite Nat2Z.inj_succ, Z.pow_succ_r by lia. pose proof (N2Z.is_nonneg (x `mod` 10)) as Hr.
        revert Hp Hdm Hr. generalize (Z.of_N (x `div` 10)) (Z.of_N (x `mod` 10)). lia.
      * assert (x `div` 10 = 0)%N as Hq0 by lia. destruct ds as [|c ds]; [cbn; lia|].
        specialize (H1 ""). rewrite Hq0, pretty_N_go_0 in H1. done.
  - assert (x = 0%N) as -> by lia. exists []. split; [done|]. split; [constructor|]. split; [done|lia].
Qed.

Lemma pretty_digits (z : Z) :
  (0 ≤ z)%Z →
  all_digits (Str.chars (pretty z)) ∧ value 0 (Str.chars (pretty z)) = z ∧
  ∀ f, (0 < f)%nat → (z < 10 ^ Z.of_nat f)%Z → (length (Str.chars (pretty z)) ≤ f)%nat.
Proof.
  intros Hz. destruct z as [|p|p]; [|clear Hz|lia].
  - split; [|split; [done|cbn; lia]]. apply Forall_singleton. by exists 0%Z.
  - destruct (pretty_go_digits (N.pos p)) as (ds & H1 & H2 & H3 & H4).
    assert (Str.chars (pretty (Z.pos p)) = ds) as ->.
    { specialize (H1 ""). rewrite app_nil_r in H1. exact H1. }
    split; [done|]. split; [done|]. intros f Hf Hlt. destruct (H4 ltac:(lia)) as [Hl Hp].
    destruct (Nat.le_gt_cases (length ds) f) as [|Hgt]; [done|].
    assert (10 ^ Z.of_nat f ≤ 10 ^ Z.of_nat (pred (length ds)))%Z as Hmono by (apply Z.pow_le_mono_r; lia). lia.
Qed.


Lemma length_chars s : length (Str.chars s) = String.length s.
Proof. induction s as [|c s IH]; [done|]. cbn. by f_equal. Qed.

(** A number padded to [f] digits. *)
Lemma padded_digits f (z : Z) :
  (0 < f)%nat → (0 ≤ z < 10 ^ Z.of_nat f)%Z →
  let l := Str.chars (Str.padStart f (pretty z)) in all_digits l ∧ value 0 l = z ∧ length l = f.
Proof.
  intros Hf [Hz Hlt]. destruct (pretty_digits z Hz) as (H1 & H2 & H3). specialize (H3 f Hf Hlt).
  cbv zeta. unfold Str.padStart. rewrite chars_app, Str.chars_of_chars, <-length_chars.
  assert (∀ n, value 0 (replicate n "0"%char) = 0%Z) as Hzero.
  { intros n. induction n as [|n IH]; [done|]. exact IH. }
  split; [|split].
  - apply Forall_app. split; [|done]. apply Forall_replicate. by exists 0%Z.
  - by rewrite value_app, Hzero.
  - rewrite length_app, length_replicate. lia.
Qed.
End Digits.

(** ** The conversions are exact *)
Section Conversions.

Lemma units_pos : (0 < STROOPS_PER_UNIT)%Z.
Proof. done. Qed.

(** Reading a whole part and seven digits. *)
Lemma fixed_parts (n : Z) :
  (0 ≤ n)%Z →
  let '(whole, fraction) := split_point (Str.chars (fixed_text STELLAR_DECIMALS n)) in
  BigInt whole = Some (n / STROOPS_PER_UNIT)%Z ∧ BigInt fraction = Some (n mod STROOPS_PER_UNIT)%Z ∧
  length fraction = STELLAR_DECIMALS.
Proof.
  intros Hn. unfold fixed_text. fold STROOPS_PER_UNIT. rewrite !chars_app.
  destruct (pretty_digits (n / STROOPS_PER_UNIT)) as (W1 & W2 & _); [by apply Z.div_pos|].
  destruct (padded_digits STELLAR_DECIMALS (n mod STROOPS_PER_UNIT)) as (F1 & F2 & F3);
    [unfold STELLAR_DECIMALS; lia|by apply Z.mod_pos_bound|].
  change (Str.chars ".") with ["."%char]. cbn [app]. rewrite split_point_digits by done.
  split; [by rewrite BigInt_digits, W2|]. split; [by rewrite BigInt_digits, F2|done].
Qed.

(** The decimal text of any amount of stroops, negative ones included, reads
    back as that amount. *)
Theorem fromStroops_roundtrip stroops : read_amount (fromStroops stroops) = Some stroops.
Proof.
  unfold read_amount, fromStroops. set (neg := (stroops <? 0)%Z).
  set (n := (if neg then - stroops else stroops)%Z).
  assert (0 ≤ n)%Z as Hn by (unfold n, neg; destruct (Z.ltb_spec stroops 0); lia).
  fold (fixed_text STELLAR_DECIMALS n). pose proof (fixed_parts n Hn) as Hp.
  assert (Str.chars (pretty (n / STROOPS_PER_UNIT)%Z +:+ "." +:+
    Str.padStart STELLAR_DECIMALS (pretty (n mod STROOPS_PER_UNIT)%Z)) = Str.chars (fixed_text STELLAR_DECIMALS n))
    as Htext by reflexivity.
  assert (∃ c l, Str.chars (fixed_text STELLAR_DECIMALS n) = c :: l ∧ is_Some (digit c)) as (c & l & Hcl & Hc).
  { unfold fixed_text. rewrite chars_app.
    destruct (pretty_digits (n / 10 ^ Z.of_nat STELLAR_DECIMALS)) as (W1 & W2 & _); [by apply Z.div_pos|].
    destruct (Str.chars (pretty _)) as [|c l] eqn:Hl; [|apply Forall_cons in W1 as [Hc _]; by exists c, (l ++ Str.chars ("." +:+ Str.padStart STELLAR_DECIMALS (pretty (n mod 10 ^ Z.of_nat STELLAR_DECIMALS)%Z)))].
    exfalso. destruct (n / 10 ^ Z.of_nat STELLAR_DECIMALS)%Z eqn:Hd; [done| |].
    - cbn in W2. lia.
    - pose proof (Z.div_pos n (10 ^ Z.of_nat STELLAR_DECIMALS) Hn ltac:(done)). lia. }
  assert (match Str.chars ((if neg then "-" else "") +:+ pretty (n / STROOPS_PER_UNIT)%Z +:+ "." +:+
    Str.padStart STELLAR_DECIMALS (pretty (n mod STROOPS_PER_UNIT)%Z)) with
    | "-"%char :: l => (true, l) | l => (false, l) end = (neg, Str.chars (fixed_text STELLAR_DECIMALS n))) as Hsign.
  { destruct neg.
    - reflexivity.
    - change ("" +:+ ?s) with s. rewrite Htext, Hcl.
      destruct c as [[] [] [] [] [] [] [] []]; try done; by destruct Hc. }
  rewrite Hsign. destruct (split_point _) as [whole fraction]. destruct Hp as (Hw & Hf & Hlen).
  rewrite Hw, Hf. cbn [mbind option_bind]. rewrite bool_decide_eq_true_2 by done. f_equal.
  pose proof (Z.div_mod n STROOPS_PER_UNIT ltac:(done)) as Hdm.
  unfold n, neg in *. destruct (Z.ltb_spec stroops 0); lia.
Qed.

(** The integer closest to [m * 2^e * 10^7]. *)
Definition nearest (m : positive) (e n : Z) : Prop :=
  if (0 <=? e)%Z then n = (Z.pos m * 2 ^ e * STROOPS_PER_UNIT)%Z
  else (2 * Z.abs (n * 2 ^ (- e) - Z.pos m * STROOPS_PER_UNIT) ≤ 2 ^ (- e))%Z.

Lemma scaled_nearest m e : nearest m e (scaled STELLAR_DECIMALS m e) ∧ (0 ≤ scaled STELLAR_DECIMALS m e)%Z.
Proof.
  unfold nearest, scaled. fold STROOPS_PER_UNIT. pose proof units_pos as Hu. destruct (Z.leb_spec 0 e) as [He|He].
  - split; [done|]. assert (0 < 2 ^ e)%Z by (by apply Z.pow_pos_nonneg). nia.
  - assert (0 < 2 ^ (- e))%Z as Hp by (apply Z.pow_pos_nonneg; lia).
    set (d := (2 ^ (- e))%Z) in *. set (a := (Z.pos m * STROOPS_PER_UNIT)%Z).
    replace (2 * Z.pos m * STROOPS_PER_UNIT)%Z with (2 * a)%Z by (unfold a; lia).
    assert (0 < a)%Z by (unfold a; nia).
    pose proof (Z.div_mod (2 * a + d) (2 * d) ltac:(lia)) as Hdm.
    pose proof (Z.mod_pos_bound (2 * a + d) (2 * d) ltac:(lia)) as Hb.
    set (q := ((2 * a + d) / (2 * d))%Z) in *. split; [lia|]. apply Z.div_pos; lia.
Qed.


(** A double that is not above the limit is below [2^53] stroops. *)
Lemma convertible_bound m e :
  valid_binary 53 1024 (S754_finite false m e) = true →
  Num.ltb MAX_CONVERTIBLE_AMOUNT (S754_finite false m e) = false →
  (scaled STELLAR_DECIMALS m e ≤ 2 ^ 53)%Z.
Proof.
  intros Hv Hlt. cbn in Hv. apply andb_true_iff in Hv as [Hc _].
  unfold canonical_mantissa, fexp in Hc. apply Z.eqb_eq in Hc.
  assert (Z.pos (digits2_pos m) ≤ 53)%Z as Hd by lia. pose proof (proj2 (Num.digits2_bounds m)) as Hm.
  assert (Z.pos m < 2 ^ 53)%Z as Hm53.
  { eapply Z.lt_le_trans; [exact Hm|]. by apply Z.pow_le_mono_r. }
  assert (e < -23 ∨ (e = -23 ∧ Z.pos m ≤ 7555786372591432))%Z as Hcmp.
  { revert Hlt. unfold Num.ltb, SFltb.
    assert (MAX_CONVERTIBLE_AMOUNT = S754_finite false 7555786372591432 (-23)) as -> by reflexivity.
    cbn [SFcompare]. destruct (Z.compare_spec (-23) e) as [<-|Hlt|Hgt]; [|by intros ?|intros _; left; lia].
    destruct (Pos.compare_cont Eq 7555786372591432 m) eqn:Hm'; [| by intros ?|]; intros _; right;
      (split; [done|]).
    - apply Pos.compare_eq in Hm'. rewrite <-Hm'. apply Z.le_refl.
    - apply Pos2Z.pos_le_pos, Pos.lt_le_incl. by apply Pos.compare_gt_iff in Hm'. }
  unfold scaled. fold STROOPS_PER_UNIT. destruct (Z.leb_spec 0 e); [lia|].
  apply Z.lt_succ_r, Z.div_lt_upper_bound; [assert (0 < 2 ^ (- e))%Z by (apply Z.pow_pos_nonneg; lia); lia|].
  unfold STROOPS_PER_UNIT. change (10 ^ Z.of_nat STELLAR_DECIMALS)%Z with 10000000%Z.
  destruct Hcmp as [Hlow|[-> Hm']].
  - assert (2 ^ 24 ≤ 2 ^ (- e))%Z as Hp by (apply Z.pow_le_mono_r; lia).
    change (2 ^ 24)%Z with 16777216%Z in Hp. change (2 ^ 53)%Z with 9007199254740992%Z in *.
    set (d := (2 ^ (- e))%Z) in *. lia.
  - change (2 ^ (- (-23)))%Z with 8388608%Z. change (2 ^ 53)%Z with 9007199254740992%Z. lia.
Qed.

(** An amount is refused exactly when it is not a finite positive number or
    is above the limit; any other amount becomes the integer number of stroops
    closest to its exact value, between [0] and [2^53]. *)
Theorem toStroops_correct amount :
  valid_binary 53 1024 amount = true →
  match toStroops amount with
  | inl not_positive => Num.positive amount = false
  | inl too_large => Num.positive amount = true ∧ Num.ltb MAX_CONVERTIBLE_AMOUNT amount = true
  | inl not_an_integer => False
  | inr n => Num.ltb MAX_CONVERTIBLE_AMOUNT amount = false ∧ (0 ≤ n ≤ 2 ^ 53)%Z ∧
      ∃ m e, amount = S754_finite false m e ∧ nearest m e n
  end.
Proof.
  intros Hv. unfold toStroops.
  assert (negb (Num.isFinite amount) || Num.leb amount Num.zero = negb (Num.positive amount)) as ->.
  { unfold Num.positive. by destruct (Num.isFinite amount), (Num.leb amount Num.zero). }
  destruct (Num.positive amount) eqn:Hp; cbn [negb]; [|done].
  destruct (Num.ltb MAX_CONVERTIBLE_AMOUNT amount) eqn:Hlt; [exact (conj eq_refl eq_refl)|].
  apply Num.positive_spec in Hp as (m & e & ->). cbn [toFixed].
  destruct (scaled_nearest m e) as [Hnear Hpos]. pose proof (fixed_parts _ Hpos) as Hparts.
  destruct (split_point _) as [whole fraction]. destruct Hparts as (Hw & Hf & Hlen).
  assert (padEnd STELLAR_DECIMALS fraction = fraction) as ->.
  { unfold padEnd. rewrite Hlen, Nat.sub_diag. apply app_nil_r. }
  rewrite Hw, Hf. split; [exact eq_refl|].
  assert (scaled STELLAR_DECIMALS m e / STROOPS_PER_UNIT * STROOPS_PER_UNIT +
    scaled STELLAR_DECIMALS m e mod STROOPS_PER_UNIT = scaled STELLAR_DECIMALS m e)%Z as ->
    by (pose proof (Z.div_mod (scaled STELLAR_DECIMALS m e) STROOPS_PER_UNIT ltac:(done)); lia).
  split; [split; [exact Hpos|by apply convertible_bound]|]. exists m, e. split; [exact eq_refl|exact Hnear].
Qed.
End Conversions.

Lemma toStroops_correct_witness :
  let amount := NumParse.of_string "15.99" in
  ∃ m e, amount = S754_finite false m e ∧ nearest m e 159900000.
Proof.
  intros amount. pose proof (toStroops_correct amount ltac:(vm_compute; reflexivity)) as H.
  assert (toStroops amount = inr 159900000%Z) as Heq by (vm_compute; reflexivity).
  rewrite Heq in H. exact (proj2 (proj2 H)).
Defined.
