(* ===== verification/WebhookService.v ===== *)
(** * Webhooks ([src/src/services/webhookService.ts])

    The registry of merchants' endpoints, the dispatch of delivery events to
    them, signed and one by one or in batches, and the retry sweep.  The HTTP
    client, the HMAC and the random sources are fields of [WebhookConfig];
    length limits and trimming by the schemas are left out. *)
From S2P Require Import Prelude JsLib Models Pagination.
From Stdlib Require Import Ascii.

(** ** Data *)
Inductive WebhookEvent :=
  | DELIVERY_PENDING | DELIVERY_FUNDED | DELIVERY_ASSIGNED | DELIVERY_IN_PROGRESS
  | DELIVERY_COMPLETED | DELIVERY_CANCELLED | DELIVERY_BATCH.
#[export] Instance WebhookEvent_eq_dec : EqDecision WebhookEvent.
Proof. solve_decision. Defined.
Definition event_string (e : WebhookEvent) : string :=
  match e with
  | DELIVERY_PENDING => "delivery.pending" | DELIVERY_FUNDED => "delivery.funded"
  | DELIVERY_ASSIGNED => "delivery.assigned" | DELIVERY_IN_PROGRESS => "delivery.in_progress"
  | DELIVERY_COMPLETED => "delivery.completed" | DELIVERY_CANCELLED => "delivery.cancelled"
  | DELIVERY_BATCH => "delivery.batch"
  end.

Definition STATUS_EVENTS (s : DeliveryStatus.t) : option WebhookEvent :=
  match s with
  | DeliveryStatus.PENDING => Some DELIVERY_PENDING
  | DeliveryStatus.FUNDED => Some DELIVERY_FUNDED
  | DeliveryStatus.ASSIGNED => Some DELIVERY_ASSIGNED
  | DeliveryStatus.IN_PROGRESS => Some DELIVERY_IN_PROGRESS
  | DeliveryStatus.COMPLETED => Some DELIVERY_COMPLETED
  | DeliveryStatus.CANCELLED => Some DELIVERY_CANCELLED
  end.

(** A subscription; its secret is absent from a document that was queried
    without selecting it. *)
Record Subscription := mkSubscription {
  s_merchantId : string;
  s_url : string;
  s_secret : option string;
  s_events : list WebhookEvent;
  s_allowBatch : bool;
  s_isActive : bool;
  s_description : option string;
  s_createdAt : Z
}.
#[export] Instance Subscription_eta : Settable Subscription := λ s,
  mkSubscription s.(s_merchantId) s.(s_url) s.(s_secret) s.(s_events) s.(s_allowBatch)
    s.(s_isActive) s.(s_description) s.(s_createdAt).
Definition unselected (d : hydrated Subscription) : hydrated Subscription :=
  Doc (_id d) (body d <| s_secret := None |>).

(** The payload of one event, and what is sent: an event or a batch. *)
Record EventPayload := mkEventPayload {
  ep_event : WebhookEvent;
  ep_schemaVersion : string;
  ep_timestamp : string;
  ep_deliveryId : string;
  ep_trackingNumber : option string;
  ep_status : string;
  ep_driverId : option string
}.
Inductive Payload :=
  | single (p : EventPayload)
  | batch (schemaVersion timestamp : string) (items : list EventPayload).

Module WebhookDeliveryStatus.
Inductive t := PENDING | SUCCESS | FAILED | EXHAUSTED.
#[global] Instance eq_dec : EqDecision t.
Proof. solve_decision. Defined.
End WebhookDeliveryStatus.

Record Attempt := mkAttempt {
  w_webhook : string;
  w_merchantId : string;
  w_event : WebhookEvent;
  w_delivery : string;
  w_payload : EventPayload;
  w_status : WebhookDeliveryStatus.t;
  w_attempts : Z;
  w_maxAttempts : Z;
  w_lastAttemptAt : option Z;
  w_lastStatusCode : option Z;
  w_lastError : option string;
  w_nextRetryAt : option Z
}.
#[export] Instance Attempt_eta : Settable Attempt := λ a,
  mkAttempt a.(w_webhook) a.(w_merchantId) a.(w_event) a.(w_delivery) a.(w_payload) a.(w_status)
    a.(w_attempts) a.(w_maxAttempts) a.(w_lastAttemptAt) a.(w_lastStatusCode) a.(w_lastError)
    a.(w_nextRetryAt).

(** A request as the endpoint receives it. *)
Record Post := mkPost {
  q_url : string;
  q_event : WebhookEvent;
  q_ids : option (string * string);
  q_batchSize : option nat;
  q_signature : string;
  q_timestamp : string;
  q_body : string
}.
(** How a request fails: the status of the response, if any, and a message. *)
Record PostError := mkPostError { pe_status : option Z; pe_message : string }.

Record BatchItem := mkBatchItem { bi_attempt : hydrated Attempt; bi_payload : EventPayload }.
Record PendingBatch := mkPendingBatch {
  pb_webhook : hydrated Subscription;
  pb_items : list BatchItem;
  pb_timer : option Z
}.

Record Hooks := mkHooks {
  h_now : Z;
  h_nextId : nat;
  subscriptions : gmap string Subscription;
  attempts : gmap string Attempt;
  pendingBatches : gmap string PendingBatch;
  flushWindowMs : Z;
  requests : list Post;
  draws : nat
}.
#[export] Instance Hooks_eta : Settable Hooks := λ h,
  mkHooks h.(h_now) h.(h_nextId) h.(subscriptions) h.(attempts) h.(pendingBatches)
    h.(flushWindowMs) h.(requests) h.(draws).

Class WebhookConfig := {
  WEBHOOK_MAX_RETRIES : Z;
  WEBHOOK_RETRY_BASE_MS : Z;
  WEBHOOK_RETRY_MAX_MS : Z;
  WEBHOOK_RETRY_BATCH_SIZE : Z;
  production : bool;
  webhookBatching : bool;
  (** [createHmac('sha256', secret).update(body).digest('hex')]. *)
  hmac_sha256_hex : string → string → string;
  (** [randomBytes(32).toString('hex')] and [Math.random()], by draw. *)
  random_hex : nat → string;
  random : nat → number;
  (** [new URL(url).protocol], unless the text is not a URL. *)
  url_protocol : string → option string;
  (** [axios.post] with a [validateStatus]: the answer to the n-th request. *)
  axios_post : (Z → bool) → nat → Post → PostError + Z;
  axios_validates f n p s : axios_post f n p = inr s → f s = true;
  max_retries_min : (1 ≤ WEBHOOK_MAX_RETRIES)%Z;
  batch_size_min : (1 ≤ WEBHOOK_RETRY_BATCH_SIZE)%Z
}.

Abbreviation hook := (prog Hooks).

(** ** JSON texts *)
Module Json.
Definition hex_digit (n : N) : ascii := ascii_of_N (if (n <? 10)%N then 48 + n else 87 + n).
Definition backslash : ascii := ascii_of_N 92.

(** One character of a JSON string. *)
Definition escape (c : ascii) : list ascii :=
  let n := N_of_ascii c in
  if (n =? 34)%N then [backslash; c]
  else if (n =? 92)%N then [backslash; c]
  else if (n =? 8)%N then [backslash; "b"%char]
  else if (n =? 9)%N then [backslash; "t"%char]
  else if (n =? 10)%N then [backslash; "n"%char]
  else if (n =? 12)%N then [backslash; "f"%char]
  else if (n =? 13)%N then [backslash; "r"%char]
  else if (n <? 32)%N then
    [backslash; "u"%char; "0"%char; "0"%char; hex_digit (n / 16); hex_digit (n mod 16)]
  else [c].
Definition string_text (s : string) : string :=
  Str.quote (Str.of_chars (Str.chars s ≫= escape)).

(** An object of the members that are not [undefined]. *)
Definition object (members : list (string * option string)) : string :=
  "{" +:+ Str.join "," (omap (λ m, (λ v, string_text m.1 +:+ ":" +:+ v) <$> m.2) members) +:+ "}".
Definition array (l : list string) : string := "[" +:+ Str.join "," l +:+ "]".
End Json.

Definition event_text (p : EventPayload) : string :=
  Json.object
    [("event", Some (Json.string_text (event_string (ep_event p))));
     ("schemaVersion", Some (Json.string_text (ep_schemaVersion p)));
     ("timestamp", Some (Json.string_text (ep_timestamp p)));
     ("data", Some (Json.object
       [("deliveryId", Some (Json.string_text (ep_deliveryId p)));
        ("trackingNumber", Json.string_text <$> ep_trackingNumber p);
        ("status", Some (Json.string_text (ep_status p)));
        ("driverId", Json.string_text <$> ep_driverId p)]))].

(** [JSON.stringify(payload)]. *)
Definition stringify (p : Payload) : string :=
  match p with
  | single p => event_text p
  | batch v t items =>
      Json.object
        [("event", Some (Json.string_text (event_string DELIVERY_BATCH)));
         ("schemaVersion", Some (Json.string_text v));
         ("timestamp", Some (Json.string_text t));
         ("data", Some (Json.object
           [("batchSize", Some (pretty (length items)));
            ("events", Some (Json.array (event_text <$> items)))]))]
  end.

(** ** The service *)
Section WebhookService.
Context `{Env} `{WebhookConfig}.

Definition hook_now : hook Z := reads h_now.
Definition hook_id : hook string :=
  atomic (λ h, (newObjectId h.(h_nextId), h <| h_nextId ::= S |>)).
Definition hook_random : hook number :=
  atomic (λ h, (random h.(draws), h <| draws ::= S |>)).

Definition setFlushWindowMs (ms : Z) : hook unit := writes (set flushWindowMs (λ _, ms)).
Definition getFlushWindowMs : hook Z := reads flushWindowMs.
Definition clearPendingBatches : hook unit := writes (set pendingBatches (λ _, ∅)).

(** *** Checks *)
Definition assertValidObjectId (value field : string) : hook unit :=
  throw_if (negb (isValidObjectId value))
    (AppError (field +:+ " must be a valid ObjectId.") Http.BAD_REQUEST).

Definition valid_url (url : string) : bool :=
  match url_protocol url with
  | Some p => String.eqb p "https:" || negb production
  | None => false
  end.
Definition assertValidUrl (url : string) : hook unit :=
  throw_if (negb (valid_url url)) (AppError "url must be a valid HTTPS URL." Http.BAD_REQUEST).

Definition no_events : error := AppError "At least one event must be selected." Http.BAD_REQUEST.
Definition webhook_not_found : error := AppError "Webhook not found." Http.NOT_FOUND.

(** *** Signing *)
Definition sign (text secret : string) : string := "sha256=" +:+ hmac_sha256_hex secret text.

(** The buffers are compared when their lengths agree. *)
Definition verifySignature (text signatureHeader secret : string) : bool :=
  let expected := sign text secret in
  if negb (Nat.eqb (String.length expected) (String.length signatureHeader)) then false
  else String.eqb expected signatureHeader.

(** [sign] of a document: a secret that was not selected is a type error. *)
Definition sign_with (text : string) (secret : option string) : hook string :=
  s ← or_throw secret (PlainError "The key argument must not be undefined");
  mret (sign text s).

Definition generateSecret : hook string :=
  atomic (λ h, (random_hex h.(draws), h <| draws ::= S |>)).

(** *** Registry *)
Record RegisterWebhookInput := mkRegister {
  rw_merchantId : string;
  rw_url : string;
  rw_events : list WebhookEvent;
  rw_allowBatch : option bool;
  rw_description : option string
}.
Record UpdateWebhookInput := mkUpdate {
  u_url : option string;
  u_events : option (list WebhookEvent);
  u_allowBatch : option bool;
  u_isActive : option bool;
  u_description : option string
}.

Definition create_subscription (s : Subscription) : hook (hydrated Subscription) :=
  id ← hook_id;
  atomic_try (λ h,
    match h.(subscriptions) !! id with
    | Some _ => (inl DuplicateKey, h)
    | None => let s' := s <| s_createdAt := h.(h_now) |> in
              (inr (Doc id s'), h <| subscriptions ::= <[id := s']> |>)
    end).

Definition registerWebhook (i : RegisterWebhookInput) : hook (hydrated Subscription * string) :=
  _ ← assertValidObjectId (rw_merchantId i) "merchantId";
  _ ← assertValidUrl (rw_url i);
  _ ← throw_if (bool_decide (rw_events i = [])) no_events;
  secret ← generateSecret;
  webhook ← create_subscription
    (mkSubscription (rw_merchantId i) (rw_url i) (Some secret) (rw_events i)
       (nullish (rw_allowBatch i) false) true (rw_description i) 0);
  mret (webhook, secret).

(** [createdAt: -1]. *)
Definition newest_webhook (a b : hydrated Subscription) : bool :=
  (s_createdAt (body b) <=? s_createdAt (body a))%Z.

(** The filter is any, the merchant is added to it. *)
Definition listForMerchant (merchantId : string) (P : Subscription → bool) (pg lim : Z)
    : hook (Page (hydrated Subscription)) :=
  _ ← assertValidObjectId merchantId "merchantId";
  docs ← reads (λ h, find_all (λ s, P s && String.eqb (s_merchantId s) merchantId) h.(subscriptions));
  mret (page_of (sort_by newest_webhook (unselected <$> docs)) pg lim).

(** [findOne({ _id: id, merchantId })]. *)
Definition owned (merchantId id : string) (m : gmap string Subscription) : option (hydrated Subscription) :=
  d ← find_by_id id m; if String.eqb (s_merchantId (body d)) merchantId then Some d else None.

Definition getById (merchantId id : string) : hook (hydrated Subscription) :=
  _ ← assertValidObjectId merchantId "merchantId";
  _ ← assertValidObjectId id "id";
  found ← reads (λ h : Hooks, owned merchantId id h.(subscriptions));
  d ← or_throw found webhook_not_found;
  mret (unselected d).

Definition apply_update (i : UpdateWebhookInput) (s : Subscription) : Subscription :=
  s <| s_url ::= λ x, nullish (u_url i) x |> <| s_events ::= λ x, nullish (u_events i) x |>
    <| s_allowBatch ::= λ x, nullish (u_allowBatch i) x |>
    <| s_isActive ::= λ x, nullish (u_isActive i) x |>
    <| s_description ::= λ x, match u_description i with Some d => Some d | None => x end |>.

(** [doc.save()]: the changed fields are written to the stored document. *)
Definition save_subscription (d : hydrated Subscription) (f : Subscription → Subscription)
    : hook (hydrated Subscription) :=
  atomic_try (λ h,
    match h.(subscriptions) !! _id d with
    | None => (inl (PlainError "No document found for query"), h)
    | Some s => (inr (Doc (_id d) (f (body d))), h <| subscriptions ::= <[_id d := f s]> |>)
    end).

Definition updateWebhook (merchantId id : string) (i : UpdateWebhookInput) : hook (hydrated Subscription) :=
  _ ← match u_url i with Some url => assertValidUrl url | None => mret tt end;
  _ ← throw_if (bool_decide (u_events i = Some [])) no_events;
  d ← getById merchantId id;
  save_subscription d (apply_update i).

Definition deleteWebhook (merchantId id : string) : hook unit :=
  d ← getById merchantId id;
  writes (set subscriptions (delete (_id d))).

Definition rotateSecret (merchantId id : string) : hook (hydrated Subscription * string) :=
  _ ← assertValidObjectId merchantId "merchantId";
  _ ← assertValidObjectId id "id";
  secret ← generateSecret;
  updated ← atomic (λ h,
    match owned merchantId id h.(subscriptions) with
    | None => (None, h)
    | Some d => let s' := body d <| s_secret := Some secret |> in
                (Some (unselected (Doc id s')), h <| subscriptions ::= <[id := s']> |>)
    end);
  webhook ← or_throw updated webhook_not_found;
  mret (webhook, secret).

(** *** Attempts *)
Definition create_attempt (a : Attempt) : hook (hydrated Attempt) :=
  id ← hook_id;
  atomic_try (λ h,
    match h.(attempts) !! id with
    | Some _ => (inl DuplicateKey, h)
    | None => (inr (Doc id a), h <| attempts ::= <[id := a]> |>)
    end).

(** [attempt.save()]: a field is written when the caller changed it. *)
Definition pick `{EqDecision A} (old new stored : A) : A := if decide (new = old) then stored else new.
Definition merge (old new stored : Attempt) : Attempt :=
  mkAttempt (w_webhook stored) (w_merchantId stored) (w_event stored) (w_delivery stored) (w_payload stored)
    (pick (w_status old) (w_status new) (w_status stored))
    (pick (w_attempts old) (w_attempts new) (w_attempts stored))
    (w_maxAttempts stored)
    (pick (w_lastAttemptAt old) (w_lastAttemptAt new) (w_lastAttemptAt stored))
    (pick (w_lastStatusCode old) (w_lastStatusCode new) (w_lastStatusCode stored))
    (pick (w_lastError old) (w_lastError new) (w_lastError stored))
    (pick (w_nextRetryAt old) (w_nextRetryAt new) (w_nextRetryAt stored)).
Definition save_attempt (d : hydrated Attempt) (new : Attempt) : hook unit :=
  atomic_try (λ h,
    match h.(attempts) !! _id d with
    | None => (inl (PlainError "No document found for query"), h)
    | Some a => (inr tt, h <| attempts ::= <[_id d := merge (body d) new a]> |>)
    end).

Definition new_attempt (webhook : hydrated Subscription) (e : WebhookEvent) (delivery : string)
    (p : EventPayload) : Attempt :=
  mkAttempt (_id webhook) (s_merchantId (body webhook)) e delivery p WebhookDeliveryStatus.PENDING
    0 WEBHOOK_MAX_RETRIES None None None None.

(** Exponential backoff, capped, with a jitter of a fifth. *)
Definition computeNextRetry (attemptNumber : Z) (draw : number) (t : Z) : option Z :=
  let exponential := Num.mul (Num.of_Z WEBHOOK_RETRY_BASE_MS) (Num.of_Z (2 ^ (attemptNumber - 1))) in
  let max := Num.of_Z WEBHOOK_RETRY_MAX_MS in
  let capped := if Num.ltb max exponential then max else exponential in
  let jitter := Num.mul (Num.mul capped (NumParse.of_string "0.2"))
                  (Num.sub (Num.mul draw (Num.of_Z 2)) (Num.of_Z 1)) in
  Date.of_number (Num.add (Num.add (Num.of_Z t) capped) jitter).

Definition success_update (t code : Z) (a : Attempt) : Attempt :=
  a <| w_attempts ::= Z.succ |> <| w_status := WebhookDeliveryStatus.SUCCESS |>
    <| w_lastAttemptAt := Some t |> <| w_lastStatusCode := Some code |>
    <| w_lastError := None |> <| w_nextRetryAt := None |>.
(** [next]: the time of the next retry, or none when the attempts are spent. *)
Definition failure_update (t : Z) (e : PostError) (next : option Z) (a : Attempt) : Attempt :=
  a <| w_attempts ::= Z.succ |>
    <| w_status := if next is Some _ then WebhookDeliveryStatus.FAILED else WebhookDeliveryStatus.EXHAUSTED |>
    <| w_lastAttemptAt := Some t |> <| w_lastStatusCode := pe_status e |>
    <| w_lastError := Some (pe_message e) |> <| w_nextRetryAt := next |>.
Definition closed_update (a : Attempt) : Attempt :=
  a <| w_status := WebhookDeliveryStatus.EXHAUSTED |>
    <| w_lastError := Some "Webhook subscription is missing or inactive." |> <| w_nextRetryAt := None |>.

(** A failed send; an invalid date throws, when it is logged or saved. *)
Definition record_failure (d : hydrated Attempt) (t : Z) (e : PostError) : hook unit :=
  let n := (w_attempts (body d) + 1)%Z in
  if (w_maxAttempts (body d) <=? n)%Z
  then save_attempt d (failure_update t e None (body d))
  else
    draw ← hook_random;
    t' ← hook_now;
    next ← or_throw (computeNextRetry n draw t') (PlainError "Invalid time value");
    save_attempt d (failure_update t e (Some next) (body d)).

Definition validateStatus (statusCode : Z) : bool := (200 <=? statusCode)%Z && (statusCode <? 300)%Z.
Definition post (p : Post) : hook (PostError + Z) :=
  atomic (λ h, (axios_post validateStatus (length h.(requests)) p, h <| requests ::= (.++ [p]) |>)).

Definition attempt_post (webhook : Subscription) (d : hydrated Attempt) (text signature : string) (t : Z) : Post :=
  mkPost (s_url webhook) (w_event (body d)) (Some (w_delivery (body d), _id d)) None signature
    (Date.toISOString t) text.

Definition send_to (webhook : Subscription) (d : hydrated Attempt) : hook unit :=
  let text := stringify (single (w_payload (body d))) in
  signature ← sign_with text (s_secret webhook);
  t ← hook_now;
  response ← post (attempt_post webhook d text signature t);
  t' ← hook_now;
  match response with
  | inr code =>
      try_catch (save_attempt d (success_update t' code (body d)))
        (λ e, record_failure d t' (mkPostError None (error_message e)))
  | inl e => record_failure d t' e
  end.

Definition sendAttempt (d : hydrated Attempt) (webhookInput : option (hydrated Subscription)) : hook unit :=
  webhook ← match webhookInput with
            | Some s => mret (Some s)
            | None => reads (λ h, find_by_id (w_webhook (body d)) h.(subscriptions))
            end;
  match webhook with
  | Some s =>
      if s_isActive (body s) then send_to (body s) d else save_attempt d (closed_update (body d))
  | None => save_attempt d (closed_update (body d))
  end.

Definition createAndSendAttempt (webhook : hydrated Subscription) (e : WebhookEvent) (delivery : string)
    (p : EventPayload) : hook unit :=
  d ← create_attempt (new_attempt webhook e delivery p);
  sendAttempt d (Some webhook).

(** *** Batches *)
Definition enqueue_item (webhook : hydrated Subscription) (i : BatchItem) (h : Hooks) : Hooks :=
  let q := nullish (h.(pendingBatches) !! _id webhook) (mkPendingBatch webhook [] None) in
  let timer := match pb_timer q with Some t => t | None => (h.(h_now) + h.(flushWindowMs))%Z end in
  h <| pendingBatches ::= <[_id webhook := mkPendingBatch (pb_webhook q) (pb_items q ++ [i]) (Some timer)]> |>.

Definition queueBatchedAttempt (webhook : hydrated Subscription) (e : WebhookEvent) (delivery : string)
    (p : EventPayload) : hook (hydrated Attempt) :=
  d ← create_attempt (new_attempt webhook e delivery p);
  _ ← writes (enqueue_item webhook (mkBatchItem d p));
  mret d.

(** Take the queue of a subscription, unless it is empty. *)
Definition take_batch (id : string) (h : Hooks) : option PendingBatch * Hooks :=
  match h.(pendingBatches) !! id with
  | Some q => if bool_decide (pb_items q = []) then (None, h)
              else (Some q, h <| pendingBatches ::= delete id |>)
  | None => (None, h)
  end.

Definition DEFAULT_WEBHOOK_SCHEMA_VERSION : string := "1.0".

Definition buildPayload (d : hydrated Delivery) (e : WebhookEvent) (s : DeliveryStatus.t) (t : Z) : EventPayload :=
  mkEventPayload e DEFAULT_WEBHOOK_SCHEMA_VERSION (Date.toISOString t) (_id d)
    (trackingNumber (body d)) (DeliveryStatus.to_string s) (driverId (body d)).

Definition buildBatchPayload (items : list BatchItem) (t : Z) : Payload :=
  batch DEFAULT_WEBHOOK_SCHEMA_VERSION (Date.toISOString t) (bi_payload <$> items).

Definition batch_post (webhook : Subscription) (size : nat) (text signature : string) (t : Z) : Post :=
  mkPost (s_url webhook) DELIVERY_BATCH None (Some size) signature (Date.toISOString t) text.

Definition fail_items (items : list (hydrated Attempt)) (t : Z) (e : PostError) : hook unit :=
  promise_all items (λ d, record_failure d t e).

Definition settle_items (items : list (hydrated Attempt)) (t : Z) (response : PostError + Z) : hook unit :=
  match response with
  | inr code =>
      try_catch (promise_all items (λ d, save_attempt d (success_update t code (body d))))
        (λ e, t' ← hook_now;
              fail_items ((λ d, Doc (_id d) (success_update t code (body d))) <$> items) t'
                (mkPostError None (error_message e)))
  | inl e => fail_items items t e
  end.

Definition flushBatch (webhookId : string) : hook unit :=
  taken ← atomic (take_batch webhookId);
  match taken with
  | None => mret tt
  | Some q =>
      t ← hook_now;
      let text := stringify (buildBatchPayload (pb_items q) t) in
      signature ← sign_with text (s_secret (body (pb_webhook q)));
      t1 ← hook_now;
      response ← post (batch_post (body (pb_webhook q)) (length (pb_items q)) text signature t1);
      t2 ← hook_now;
      settle_items (bi_attempt <$> pb_items q) t2 response
  end.

Definition flushAllBatches : hook unit :=
  ids ← reads (λ h, (map_to_list h.(pendingBatches)).*1);
  promise_all ids flushBatch.

(** *** Dispatch *)
(** [delivery.sender ?? delivery.userId], when it identifies a merchant. *)
Definition merchant_of (d : Delivery) : option string :=
  m ← match sender d with Some s => Some s | None => userId d end;
  if Str.truthy m && isValidObjectId m then Some m else None.

Definition subscribed (merchantId : string) (e : WebhookEvent) (s : Subscription) : bool :=
  String.eqb (s_merchantId s) merchantId && s_isActive s && includes e (s_events s).

Definition notify_one (e : WebhookEvent) (d : hydrated Delivery) (p : EventPayload)
    (webhook : hydrated Subscription) : hook unit :=
  if s_allowBatch (body webhook) then _ ← queueBatchedAttempt webhook e (_id d) p; mret tt
  else createAndSendAttempt webhook e (_id d) p.

Definition dispatchDeliveryEvent (d : hydrated Delivery) (s : DeliveryStatus.t) : hook unit :=
  match STATUS_EVENTS s, merchant_of (body d) with
  | Some e, Some m =>
      try_catch
        (subs ← reads (λ h, find_all (subscribed m e) h.(subscriptions));
         if bool_decide (subs = []) then mret tt else
         t ← hook_now;
         promise_all subs (notify_one e d (buildPayload d e s t)))
        (λ _, mret tt)
  | _, _ => mret tt
  end.

(** *** The retry sweep *)
Definition due_attempt (t : Z) (a : Attempt) : bool :=
  bool_decide (w_status a = WebhookDeliveryStatus.FAILED)
  && match w_nextRetryAt a with Some x => (x <=? t)%Z | None => false end.
Definition next_first (a b : hydrated Attempt) : bool :=
  match w_nextRetryAt (body a), w_nextRetryAt (body b) with
  | Some x, Some y => (x <=? y)%Z
  | None, _ => true
  | _, None => false
  end.
Definition due_batch (h : Hooks) : list (hydrated Attempt) :=
  take (Z.to_nat WEBHOOK_RETRY_BATCH_SIZE)
    (sort_by next_first (find_all (due_attempt h.(h_now)) h.(attempts))).

Definition retryDueAttempts : hook Z :=
  if negb webhookBatching then mret 0%Z else
  due ← reads due_batch;
  if bool_decide (due = []) then mret 0%Z else
  _ ← promise_all due (λ d, sendAttempt d None);
  mret (Z.of_nat (length due)).
End WebhookService.

(** ** Attempts, one send at a time *)
Section AttemptFacts.
Context `{Env} `{WebhookConfig}.
Implicit Types (a : Attempt) (h : Hooks) (d : hydrated Attempt).

Lemma pick_self `{EqDecision A} (x y : A) : pick x y x = y.
Proof. unfold pick. by case_decide. Qed.

Definition same_event a a' : Prop :=
  (w_webhook a', w_merchantId a', w_event a', w_delivery a', w_payload a', w_maxAttempts a') =
  (w_webhook a, w_merchantId a, w_event a, w_delivery a, w_payload a, w_maxAttempts a).

Lemma merge_fresh a new : same_event a new → merge a new a = new.
Proof.
  unfold same_event, merge. rewrite !pick_self. destruct new. cbn. by intros [= <- <- <- <- <- <-].
Qed.

Lemma run_save_attempt d new h :
  attempts h !! _id d = Some (body d) → same_event (body d) new →
  run (save_attempt d new) h = (inr tt, h <| attempts ::= <[_id d := new]> |>).
Proof. intros Ha Hs. unfold save_attempt. rewrite run_atomic_try, Ha. by rewrite merge_fresh. Qed.

(** What the stored outcome of an attempt may be. *)
Record attempt_ok a : Prop := {
  ok_bounds : (0 ≤ w_attempts a ≤ w_maxAttempts a)%Z;
  ok_status :
    match w_status a with
    | WebhookDeliveryStatus.PENDING =>
        w_attempts a = 0%Z ∧ (0 < w_maxAttempts a)%Z ∧ w_nextRetryAt a = None
    | WebhookDeliveryStatus.FAILED =>
        (0 < w_attempts a < w_maxAttempts a)%Z ∧ is_Some (w_nextRetryAt a) ∧ is_Some (w_lastError a)
    | WebhookDeliveryStatus.SUCCESS =>
        (0 < w_attempts a)%Z ∧ w_nextRetryAt a = None ∧
        ∃ code, w_lastStatusCode a = Some code ∧ validateStatus code = true
    | WebhookDeliveryStatus.EXHAUSTED => w_nextRetryAt a = None ∧ is_Some (w_lastError a)
    end
}.

(** An attempt that may still be sent. *)
Definition open_attempt a : Prop :=
  attempt_ok a ∧ (w_status a = WebhookDeliveryStatus.PENDING ∨ w_status a = WebhookDeliveryStatus.FAILED).

Lemma open_room a : open_attempt a → (w_attempts a < w_maxAttempts a)%Z.
Proof. intros [[Hb Hs] [Hst|Hst]]; rewrite Hst in Hs; lia. Qed.

(** An attempt after a send. *)
Record attempt_step a a' : Prop := {
  as_event : same_event a a';
  as_ok : attempt_ok a';
  as_sent : w_status a' ≠ WebhookDeliveryStatus.PENDING;
  as_count : (w_attempts a ≤ w_attempts a' ≤ w_attempts a + 1)%Z;
  as_failed : w_status a' = WebhookDeliveryStatus.FAILED → w_attempts a' = (w_attempts a + 1)%Z
}.

Lemma success_step t code a :
  open_attempt a → validateStatus code = true → attempt_step a (success_update t code a).
Proof.
  intros Ho Hc. pose proof (open_room a Ho). destruct Ho as [[Hb _] _].
  assert (w_attempts (success_update t code a) = Z.succ (w_attempts a)) as Hn by reflexivity.
  split; [by destruct a|split|done|lia|done].
  - rewrite Hn. change (w_maxAttempts (success_update t code a)) with (w_maxAttempts a). lia.
  - change (w_status (success_update t code a)) with WebhookDeliveryStatus.SUCCESS. cbn iota. rewrite Hn.
    split; [lia|]. split; [done|]. by exists code.
Qed.

Lemma failure_step t e next a :
  open_attempt a → (is_Some next ↔ (w_attempts a + 1 < w_maxAttempts a)%Z) →
  attempt_step a (failure_update t e next a).
Proof.
  intros Ho Hnx. pose proof (open_room a Ho). destruct Ho as [[Hb _] _].
  assert (w_attempts (failure_update t e next a) = Z.succ (w_attempts a)) as Hn by reflexivity.
  assert (w_maxAttempts (failure_update t e next a) = w_maxAttempts a) as Hm by reflexivity.
  assert (w_status (failure_update t e next a) =
    if next is Some _ then WebhookDeliveryStatus.FAILED else WebhookDeliveryStatus.EXHAUSTED) as Hs by reflexivity.
  split; [by destruct a|split| |lia|lia].
  - rewrite Hn, Hm. lia.
  - rewrite Hs, Hn, Hm. destruct next as [x|].
    + split; [|by split; eexists]. assert (is_Some (Some x)) as Hx by done. apply Hnx in Hx. lia.
    + split; [done|by eexists].
  - rewrite Hs. by destruct next.
Qed.

Lemma closed_step a : open_attempt a → attempt_step a (closed_update a).
Proof.
  intros Ho. destruct Ho as [[Hb Hs] _].
  assert (w_attempts (closed_update a) = w_attempts a) as Hn by reflexivity.
  split; [by destruct a|split|done|lia|done].
  - rewrite Hn. exact Hb.
  - cbn. split; [done|by eexists].
Qed.

(** What sending leaves alone. *)
Record send_frame h h' : Prop := {
  sf_subscriptions : subscriptions h' = subscriptions h;
  sf_pending : pendingBatches h' = pendingBatches h;
  sf_now : h_now h' = h_now h;
  sf_ids : h_nextId h' = h_nextId h;
  sf_requests : ∃ ps, requests h' = requests h ++ ps ∧ (length ps ≤ 1)%nat
}.

(** A send of one attempt: it is stored again, or left as it is by an error. *)
Definition sent_one id a h (r : error + unit) h' : Prop :=
  send_frame h h' ∧
  match r with
  | inl _ => attempts h' = attempts h
  | inr _ => ∃ a', attempts h' = <[id := a']> (attempts h) ∧ attempt_step a a'
  end.

Lemma no_requests (ps : list Post) : ∃ ps', ps = ps ++ ps' ∧ (length ps' ≤ 1)%nat.
Proof. exists []. rewrite app_nil_r. split; [done|cbn; lia]. Qed.
Lemma send_frame_set h f :
  send_frame h (h <| attempts ::= f |>).
Proof. split; try reflexivity. apply no_requests. Qed.

Lemma record_failure_run id a t e h :
  open_attempt a → attempts h !! id = Some a →
  let r := run (record_failure (Doc id a) t e) h in
  sent_one id a h r.1 r.2 ∧ requests r.2 = requests h ∧
  match r.1 with
  | inl _ => (w_attempts a + 1 < w_maxAttempts a)%Z ∧
             computeNextRetry (w_attempts a + 1) (random (draws h)) (h_now h) = None
  | inr _ => ∃ next, attempts r.2 = <[id := failure_update t e next a]> (attempts h) ∧
      next = if (w_maxAttempts a <=? w_attempts a + 1)%Z then None
             else computeNextRetry (w_attempts a + 1) (random (draws h)) (h_now h)
  end.
Proof.
  intros Ho Ha. pose proof (open_room a Ho). unfold record_failure. cbn [body].
  destruct (Z.leb_spec (w_maxAttempts a) (w_attempts a + 1)) as [Hle|Hlt].
  - rewrite run_save_attempt by (by destruct a). cbn [fst snd _id].
    split; [split; [apply send_frame_set|]|split; [done|by eexists]].
    eexists. split; [reflexivity|]. apply failure_step; [done|]. split; [intros [? ?]; discriminate|lia].
  - unfold hook_random. rewrite run_bind, run_atomic. cbn [fst snd].
    unfold hook_now. rewrite run_bind, run_reads. cbn [fst snd].
    set (h1 := h <| draws ::= S |>). change (h_now h1) with (h_now h).
    rewrite run_bind, run_or_throw.
    destruct (computeNextRetry _ _ _) as [next|] eqn:Hnx; cbn [fst snd].
    + rewrite run_save_attempt; [|exact Ha|by destruct a]. cbn [fst snd _id].
      split; [split|].
      * split; try reflexivity. apply no_requests.
      * eexists. split; [reflexivity|]. apply failure_step; [done|]. split; [by intros _|by eexists].
      * split; [done|]. by eexists.
    + split; [split; [split; try reflexivity; apply no_requests|done]|done].
Qed.

(** The record of an answer. *)
Definition next_retry a h : option Z :=
  if (w_maxAttempts a <=? w_attempts a + 1)%Z then None
  else computeNextRetry (w_attempts a + 1) (random (draws h)) (h_now h).

Definition answered id a h (answer : PostError + Z) (r : error + unit) h' : Prop :=
  match answer, r with
  | inr code, _ => r = inr tt ∧ attempts h' = <[id := success_update (h_now h) code a]> (attempts h)
  | inl e, inr _ => attempts h' = <[id := failure_update (h_now h) e (next_retry a h) a]> (attempts h)
  | inl _, inl _ => (w_attempts a + 1 < w_maxAttempts a)%Z ∧ next_retry a h = None ∧ attempts h' = attempts h
  end.

(** The request made for an attempt. *)
Definition request_for (s : Subscription) id a (k : string) h : Post :=
  let text := stringify (single (w_payload a)) in
  attempt_post s (Doc id a) text (sign text k) (h_now h).

Lemma sent_one_post id a h p r h' :
  sent_one id a (h <| requests ::= (.++ [p]) |>) r h' → requests h' = requests h ++ [p] → sent_one id a h r h'.
Proof. intros [[] Hr] Hp. split; [split; try done|exact Hr]. exists [p]. split; [done|cbn; lia]. Qed.

Lemma send_to_run s k id a h :
  open_attempt a → attempts h !! id = Some a → s_secret s = Some k →
  let p := request_for s id a k h in
  let r := run (send_to s (Doc id a)) h in
  sent_one id a h r.1 r.2 ∧ requests r.2 = requests h ++ [p] ∧
  answered id a h (axios_post validateStatus (length (requests h)) p) r.1 r.2.
Proof.
  intros Ho Ha Hk p. unfold send_to, sign_with. rewrite Hk, run_bind, run_bind, run_or_throw. cbn [fst snd body].
  rewrite run_ret. cbn [fst snd]. unfold hook_now. rewrite run_bind, run_reads. cbn [fst snd].
  change (attempt_post s _ _ _ _) with p. unfold post. rewrite run_bind, run_atomic. cbn [fst snd].
  set (h1 := h <| requests ::= (.++ [p]) |>).
  rewrite run_bind, run_reads. cbn [fst snd]. change (h_now h1) with (h_now h).
  assert (requests h1 = requests h ++ [p]) as Hq by reflexivity.
  destruct (axios_post _ _ p) as [e|code] eqn:Hpost.
  - destruct (record_failure_run id a (h_now h) e h1 Ho Ha) as (H1 & H2 & H3).
    rewrite H2. split; [by apply (sent_one_post id a h p); rewrite ?H2|]. split; [done|].
    unfold answered, next_retry.
    destruct (run (record_failure _ _ _) h1) as [[er|[]] h2]; cbn [fst snd] in *.
    + destruct H1 as [_ Hat]. destruct H3 as [Hlt Hn]. split; [done|].
      rewrite (proj2 (Z.leb_gt _ _)) by done. by split.
    + destruct H3 as (next & Hat & ->). exact Hat.
  - rewrite run_try_catch, run_save_attempt; [|exact Ha|by destruct a]. cbn [fst snd _id].
    split; [|by split]. apply (sent_one_post id a h p); [|reflexivity].
    split; [apply send_frame_set|]. eexists. split; [reflexivity|]. apply success_step; [done|].
    by eapply axios_validates.
Qed.

(** Whom an attempt is sent to: an active subscription. *)
Definition active_target a h : option Subscription :=
  s ← subscriptions h !! w_webhook a; if s_isActive s then Some s else None.

(** A send of a stored attempt makes at most one request. With an active
    subscription it is one POST to the subscription's URL whose body is the
    attempt's payload and whose signature verifies under the subscription's
    secret; a 2xx answer stores a success, any other answer or none counts one
    more attempt and schedules a retry by the backoff, or exhausts the attempt
    when it was the last. Without an active subscription nothing is sent and the
    attempt is exhausted. All other attempts and subscriptions stay as they are. *)
Theorem sendAttempt_correct id a h r h' :
  open_attempt a → attempts h !! id = Some a →
  (∀ s, active_target a h = Some s → is_Some (s_secret s)) →
  run (sendAttempt (Doc id a) None) h = (r, h') →
  sent_one id a h r h' ∧
  match active_target a h with
  | None => r = inr tt ∧ requests h' = requests h ∧ attempts h' = <[id := closed_update a]> (attempts h)
  | Some s => ∃ k p, s_secret s = Some k ∧ requests h' = requests h ++ [p] ∧ q_url p = s_url s ∧
      q_body p = stringify (single (w_payload a)) ∧ verifySignature (q_body p) (q_signature p) k = true ∧
      answered id a h (axios_post validateStatus (length (requests h)) p) r h'
  end.
Proof.
  intros Ho Ha Hsec. unfold sendAttempt. rewrite run_bind, run_reads. cbn [fst snd body].
  revert Hsec. unfold active_target, find_by_id. destruct (subscriptions h !! w_webhook a) as [s|] eqn:Hs.
  2: { intros _. cbn [fmap option_fmap option_map mbind option_bind].
       intros Hr. rewrite run_save_attempt in Hr by (done || by destruct a).
       injection Hr as <- <-. split; [|by repeat split].
       split; [apply send_frame_set|]. eexists. split; [reflexivity|by apply closed_step]. }
  cbn [fmap option_fmap option_map mbind option_bind body]. destruct (s_isActive s) eqn:Hact.
  2: { intros _ Hr. rewrite run_save_attempt in Hr by (done || by destruct a).
       injection Hr as <- <-. split; [|by repeat split].
       split; [apply send_frame_set|]. eexists. split; [reflexivity|by apply closed_step]. }
  intros Hsec Hr. destruct (Hsec s eq_refl) as [k Hk].
  pose proof (send_to_run s k id a h Ho Ha Hk) as (H1 & H2 & H3). rewrite Hr in H1, H2, H3. cbn [fst snd] in *.
  split; [done|]. exists k, (request_for s id a k h). do 4 (split; [done|]). split; [|done].
  unfold verifySignature. cbn. by rewrite Nat.eqb_refl, String.eqb_refl.
Qed.
End AttemptFacts.

(** ** The retry sweep *)
Section Sweep.
Context `{Env} `{WebhookConfig}.
Implicit Types (a : Attempt) (h : Hooks) (d : hydrated Attempt).

Lemma run_closed id a h :
  attempts h !! id = Some a →
  run (save_attempt (Doc id a) (closed_update a)) h = (inr tt, h <| attempts ::= <[id := closed_update a]> |>).
Proof. intros Ha. by apply run_save_attempt; [|destruct a]. Qed.

(** A send to any subscription, or to the one found. *)
Lemma sendAttempt_sent id a wi h :
  open_attempt a → attempts h !! id = Some a →
  let r := run (sendAttempt (Doc id a) wi) h in sent_one id a h r.1 r.2.
Proof.
  intros Ho Ha.
  assert (sent_one id a h (inr tt) (h <| attempts ::= <[id := closed_update a]> |>)) as Hcl.
  { split; [apply send_frame_set|]. eexists. split; [reflexivity|by apply closed_step]. }
  assert (∀ s, let r := run (send_to s (Doc id a)) h in sent_one id a h r.1 r.2) as Hto.
  { intros s. destruct (s_secret s) as [k|] eqn:Hk; [by apply (send_to_run s k)|].
    unfold send_to, sign_with. rewrite Hk. cbn. split; [|done]. split; try done. apply no_requests. }
  unfold sendAttempt. cbv zeta. rewrite run_bind.
  destruct wi as [s|]; [rewrite run_ret|rewrite run_reads]; cbn [fst snd].
  - destruct (s_isActive (body s)); [apply Hto|]. by rewrite run_closed.
  - destruct (find_by_id _ _) as [s|]; [destruct (s_isActive (body s)); [apply Hto|]|];
      by rewrite run_closed.
Qed.

(** The attempts left to a failed entry, and to all of them. *)
Definition remaining a : nat :=
  match w_status a with
  | WebhookDeliveryStatus.FAILED => Z.to_nat (w_maxAttempts a - w_attempts a)
  | _ => 0
  end.
Definition budget (m : gmap string Attempt) : nat := map_fold (λ _ a n, (remaining a + n)%nat) 0%nat m.

Lemma budget_lookup m id a : m !! id = Some a → budget m = (remaining a + budget (delete id m))%nat.
Proof. intros Hm. unfold budget. rewrite (map_fold_delete_L _ _ id a m); [done|intros; lia|done]. Qed.
Lemma budget_insert m id a a' :
  m !! id = Some a → (budget (<[id := a']> m) + remaining a = budget m + remaining a')%nat.
Proof.
  intros Hm. rewrite (budget_lookup m id a Hm), (budget_lookup (<[id := a']> m) id a') by apply lookup_insert_eq.
  rewrite delete_insert_eq. lia.
Qed.

Lemma step_remaining a a' :
  open_attempt a → w_status a = WebhookDeliveryStatus.FAILED → attempt_step a a' →
  (remaining a' < remaining a)%nat.
Proof.
  intros Ho Hf Hst. pose proof (open_room a Ho). destruct Hst as [Hev _ _ _ Hfl].
  assert (w_maxAttempts a' = w_maxAttempts a) as Hm by (by unfold same_event in Hev; injection Hev).
  unfold remaining. rewrite Hf. destruct (w_status a'); try lia. rewrite Hfl by done. lia.
Qed.

(** A batch of failed attempts, each as it is stored. *)
Definition stored_failed h d : Prop :=
  attempts h !! _id d = Some (body d) ∧ attempt_ok (body d) ∧ w_status (body d) = WebhookDeliveryStatus.FAILED.

(** An attempt of a batch after its send. *)
Definition after_send h' d : Prop :=
  ∃ a', attempts h' !! _id d = Some a' ∧ (a' = body d ∨ attempt_step (body d) a').

Record sweep_result (l : list (hydrated Attempt)) h (r : error + unit) h' : Prop := {
  sr_subscriptions : subscriptions h' = subscriptions h;
  sr_pending : pendingBatches h' = pendingBatches h;
  sr_now : h_now h' = h_now h;
  sr_requests : ∃ ps, requests h' = requests h ++ ps ∧ (length ps ≤ length l)%nat;
  sr_others id : id ∉ _id <$> l → attempts h' !! id = attempts h !! id;
  sr_sent d : d ∈ l → after_send h' d;
  sr_budget : (budget (attempts h') ≤ budget (attempts h))%nat;
  sr_progress : r = inr tt → (budget (attempts h') + length l ≤ budget (attempts h))%nat
}.

Lemma sweep_run l h :
  NoDup (_id <$> l) → (∀ d, d ∈ l → stored_failed h d) →
  let r := run (promise_all l (λ d, sendAttempt d None)) h in sweep_result l h r.1 r.2.
Proof.
  revert h. induction l as [|[id a] l IH]; intros h Hnd Hst.
  { split; try done; [exists []; by rewrite app_nil_r|by intros d ?%not_elem_of_nil|cbn; lia]. }
  rewrite fmap_cons in Hnd. cbn [_id] in Hnd. apply NoDup_cons in Hnd as [Hni Hnd].
  destruct (Hst (Doc id a)) as (Ha & Hok & Hf); [by left|]. cbn [_id body] in *.
  assert (open_attempt a) as Ho by (split; [done|by right]).
  pose proof (sendAttempt_sent id a None h Ho Ha) as Hs. cbv zeta. rewrite run_promise_all_cons. cbn [fst snd].
  destruct (run (sendAttempt (Doc id a) None) h) as [r1 h1]. cbn [fst snd] in *.
  assert (∀ k, k ≠ id → attempts h1 !! k = attempts h !! k) as Hoth.
  { intros k Hk. destruct Hs as [_ Hs]. destruct r1; [by rewrite Hs|].
    destruct Hs as (a' & -> & _). by rewrite lookup_insert_ne. }
  assert (∃ a', attempts h1 !! id = Some a' ∧ (a' = a ∨ attempt_step a a')) as Hid.
  { destruct Hs as [_ Hs]. destruct r1; [exists a; rewrite Hs; by split; [|left]|].
    destruct Hs as (a' & -> & Hs). exists a'. split; [apply lookup_insert_eq|by right]. }
  assert ((budget (attempts h1) ≤ budget (attempts h))%nat ∧
          (∀ u, r1 = inr u → (budget (attempts h1) < budget (attempts h))%nat)) as [Hb Hb'].
  { destruct Hs as [_ Hs]. destruct r1; [rewrite Hs; by split|]. destruct Hs as (a' & -> & Hs).
    pose proof (budget_insert (attempts h) id a a' Ha). pose proof (step_remaining a a' Ho Hf Hs).
    split; intros; lia. }
  destruct Hs as [[F1 F2 F3 _ (ps & F5 & F6)] _].
  specialize (IH h1 Hnd). cbv zeta in IH.
  destruct (run (promise_all l _) h1) as [r2 h2]. cbn [fst snd] in *.
  destruct IH as [I1 I2 I3 (ps' & I4 & I5) I6 I7 I8 I9].
  { intros d Hd. destruct (Hst d) as (H1 & H2 & H3); [by right|]. split; [|done]. rewrite Hoth; [done|].
    intros Heq. apply Hni. rewrite <-Heq. apply list_elem_of_fmap. by exists d. }
  split.
  - by rewrite I1.
  - by rewrite I2.
  - by rewrite I3.
  - exists (ps ++ ps'). rewrite I4, F5, app_assoc. split; [done|]. rewrite length_app. cbn [length]. lia.
  - intros k. rewrite fmap_cons, not_elem_of_cons. intros [H1 H2]. by rewrite I6, Hoth.
  - intros d [->|Hd]%elem_of_cons; [|by apply I7]. unfold after_send. cbn [_id body]. by rewrite I6.
  - lia.
  - cbn [length]. destruct r1 as [|u]; [done|]. intros Hr. specialize (I9 Hr). specialize (Hb' u eq_refl). lia.
Qed.

(** The batch of a sweep: due attempts, without repetition. *)
Lemma due_batch_elem h d :
  d ∈ due_batch h → attempts h !! _id d = Some (body d) ∧ due_attempt (h_now h) (body d) = true.
Proof.
  unfold due_batch. intros (i & Hd & _)%elem_of_take. apply list_elem_of_lookup_2 in Hd.
  rewrite sort_by_perm in Hd. by apply elem_of_find_all in Hd.
Qed.
Lemma due_batch_NoDup h : NoDup (_id <$> due_batch h).
Proof.
  unfold due_batch. rewrite fmap_take.
  eapply (sublist_NoDup _ (_id <$> sort_by next_first _)); [|apply sublist_take].
  rewrite sort_by_perm. apply find_all_NoDup.
Qed.
Lemma due_failed t a : due_attempt t a = true → w_status a = WebhookDeliveryStatus.FAILED.
Proof. unfold due_attempt. intros [Hf _]%andb_true_iff. by apply bool_decide_eq_true in Hf. Qed.

Definition all_ok h : Prop := map_Forall (λ _, attempt_ok) (attempts h).

Lemma due_stored h d : all_ok h → d ∈ due_batch h → stored_failed h d.
Proof.
  intros Hok [Hd Hdue]%due_batch_elem. split; [done|]. split; [by apply (Hok (_id d))|by eapply due_failed].
Qed.

Lemma retryDueAttempts_run h r h' :
  webhookBatching = true → all_ok h → run retryDueAttempts h = (r, h') →
  ∃ r1, sweep_result (due_batch h) h r1 h' ∧
    match r with inl e => r1 = inl e | inr n => r1 = inr tt ∧ n = Z.of_nat (length (due_batch h)) end.
Proof.
  intros Hb Hok. unfold retryDueAttempts. rewrite Hb. cbn [negb]. rewrite run_bind, run_reads. cbn [fst snd].
  case_bool_decide as Hnil.
  - rewrite run_ret. intros [= <- <-]. exists (inr tt). rewrite Hnil. split; [|done].
    split; try done; [exists []; by rewrite app_nil_r|by intros d ?%not_elem_of_nil|cbn; lia].
  - rewrite run_bind. pose proof (sweep_run (due_batch h) h (due_batch_NoDup h)) as Hs.
    assert (∀ d, d ∈ due_batch h → stored_failed h d) as Hst by (intros d; by apply due_stored).
    specialize (Hs Hst). cbv zeta in Hs.
    destruct (run (promise_all _ _) h) as [[e|[]] h1]; cbn [fst snd] in *.
    + intros [= <- <-]. by exists (inl e).
    + rewrite run_ret. intros [= <- <-]. by exists (inr tt).
Qed.

Lemma sweep_all_ok l h r h' :
  all_ok h → (∀ d, d ∈ l → stored_failed h d) → sweep_result l h r h' → all_ok h'.
Proof.
  intros Hok Hst [_ _ _ _ Ho Hs _ _] id a Ha.
  destruct (decide (id ∈ _id <$> l)) as [(d & -> & Hd)%list_elem_of_fmap|Hni].
  - destruct (Hs d Hd) as (a' & Ha' & Hor). assert (a' = a) as -> by congruence.
    destruct Hor as [->|[]]; [|done]. by destruct (Hst d Hd) as (_ & ? & _).
  - rewrite Ho in Ha by done. by apply (Hok id).
Qed.

(** A sweep at some later time that completes and finds work to do. *)
Definition sweep_at (t : Z) h : Hooks := h <| h_now := t |>.
Definition productive_sweep h h' : Prop :=
  ∃ t n, (h_now h ≤ t)%Z ∧ (0 < n)%Z ∧ run retryDueAttempts (sweep_at t h) = (inr n, h').

Lemma productive_progress h h' :
  webhookBatching = true → all_ok h → productive_sweep h h' →
  all_ok h' ∧ (S (budget (attempts h')) ≤ budget (attempts h))%nat ∧
  (length (requests h') + budget (attempts h') ≤ length (requests h) + budget (attempts h))%nat.
Proof.
  intros Hb Hok (t & n & _ & Hn & Hr).
  destruct (retryDueAttempts_run (sweep_at t h) (inr n) h' Hb Hok Hr) as (r1 & Hs & -> & ->).
  split; [apply (sweep_all_ok (due_batch (sweep_at t h)) (sweep_at t h) (inr tt) h'); [done| |done]|].
  { intros d Hd. by apply due_stored. }
  destruct Hs as [_ _ _ (ps & Hq & Hl) _ _ _ Hp]. specialize (Hp eq_refl). rewrite Hq, length_app.
  change (attempts (sweep_at t h)) with (attempts h) in Hp.
  change (requests (sweep_at t h)) with (requests h). lia.
Qed.

(** A failed attempt is due at some later time, and a sweep then has work. *)
Lemma failed_becomes_due h id a :
  all_ok h → attempts h !! id = Some a → w_status a = WebhookDeliveryStatus.FAILED →
  ∃ t, (h_now h ≤ t)%Z ∧ due_batch (sweep_at t h) ≠ [].
Proof.
  intros Hok Ha Hf. destruct (Hok id a Ha) as [_ Hs]. rewrite Hf in Hs. destruct Hs as (_ & [x Hx] & _).
  exists (Z.max (h_now h) x). split; [lia|].
  assert (due_attempt (Z.max (h_now h) x) a = true) as Hd.
  { unfold due_attempt. rewrite Hx, bool_decide_true by done. apply Z.leb_le. lia. }
  unfold due_batch. intros Hnil. change (attempts (sweep_at _ h)) with (attempts h) in Hnil.
  change (h_now (sweep_at ?t h)) with t in Hnil.
  assert (Doc id a ∈ sort_by next_first (find_all (due_attempt (Z.max (h_now h) x)) (attempts h))) as Hin.
  { rewrite sort_by_perm. by apply elem_of_find_all. }
  pose proof batch_size_min. destruct (sort_by _ _) as [|d l]; [by apply not_elem_of_nil in Hin|].
  apply (f_equal length) in Hnil. rewrite length_take in Hnil. cbn [length] in Hnil. lia.
Qed.

(** C13: retries terminate. However the endpoints answer, only as many sweeps
    can complete with work to do as the failed attempts have sends left, no more
    requests than that are made, and no attempt goes beyond its maximum; and
    while an attempt is failed there is a time from which on sweeps have work,
    so attempts only come to rest as delivered or exhausted. *)
Theorem retries_terminate n h h' :
  webhookBatching = true → all_ok h → nsteps productive_sweep n h h' →
  (n ≤ budget (attempts h))%nat ∧
  (length (requests h') ≤ length (requests h) + budget (attempts h))%nat ∧
  (∀ id a, attempts h' !! id = Some a → (w_attempts a ≤ w_maxAttempts a)%Z) ∧
  ∀ id a, attempts h' !! id = Some a → w_status a = WebhookDeliveryStatus.FAILED →
    ∃ t, (h_now h' ≤ t)%Z ∧
      match run retryDueAttempts (sweep_at t h') with
      | (inr k, h2) => productive_sweep h' h2 ∧ (0 < k)%Z
      | (inl _, _) => True
      end.
Proof.
  intros Hb Hok Hn.
  assert (all_ok h' ∧ (n + budget (attempts h') ≤ budget (attempts h))%nat ∧
    (length (requests h') + budget (attempts h') ≤ length (requests h) + budget (attempts h))%nat)
    as (Hok' & Hb1 & Hq).
  { revert Hok. induction Hn as [h|n h h1 h' Hs _ IH]; intros Hok; [split; [done|lia]|].
    destruct (productive_progress h h1 Hb Hok Hs) as (Hok1 & H1 & H2).
    destruct (IH Hok1) as (H3 & H4 & H5). split; [done|lia]. }
  split; [lia|]. split; [lia|]. split; [intros id a Ha; by destruct (Hok' id a Ha) as [[_ ?] _]|].
  intros id a Ha Hf. destruct (failed_becomes_due h' id a Hok' Ha Hf) as (t & Ht & Hne).
  exists t. split; [done|]. destruct (run retryDueAttempts (sweep_at t h')) as [[e|k] h2] eqn:Hr; [done|].
  destruct (retryDueAttempts_run (sweep_at t h') (inr k) h2 Hb Hok' Hr) as (_ & _ & _ & ->).
  assert (0 < Z.of_nat (length (due_batch (sweep_at t h'))))%Z as Hpos
    by (destruct (due_batch (sweep_at t h')); [done|cbn; lia]).
  split; [|done]. by exists t, (Z.of_nat (length (due_batch (sweep_at t h')))).
Qed.
End Sweep.

(** ** All operations *)
Section Reachability.
Context `{Env} `{WebhookConfig}.
Implicit Types (a : Attempt) (h : Hooks) (d : hydrated Attempt).

Inductive hook_op :=
  | op_register (i : RegisterWebhookInput)
  | op_update (merchantId id : string) (i : UpdateWebhookInput)
  | op_delete (merchantId id : string)
  | op_rotate (merchantId id : string)
  | op_dispatch (d : hydrated Delivery) (s : DeliveryStatus.t)
  | op_flush (id : string)
  | op_flush_all
  | op_sweep
  | op_window (ms : Z)
  | op_advance (ms : Z)
  | op_restart.

(** A restart, like [clearPendingBatches], forgets what is kept in memory. *)
Definition run_op (o : hook_op) h : Hooks :=
  match o with
  | op_register i => (run (registerWebhook i) h).2
  | op_update m id i => (run (updateWebhook m id i) h).2
  | op_delete m id => (run (deleteWebhook m id) h).2
  | op_rotate m id => (run (rotateSecret m id) h).2
  | op_dispatch d s => (run (dispatchDeliveryEvent d s) h).2
  | op_flush id => (run (flushBatch id) h).2
  | op_flush_all => (run flushAllBatches h).2
  | op_sweep => (run retryDueAttempts h).2
  | op_window ms => (run (setFlushWindowMs ms) h).2
  | op_advance ms => h <| h_now ::= Z.add (Z.abs ms) |>
  | op_restart => (run clearPendingBatches h).2
  end.
Definition run_ops (os : list hook_op) h : Hooks := foldl (λ h o, run_op o h) h os.

(** The attempts waiting in a batch are stored as they are held, unsent; a batch
    holds attempts of its own subscription, each once. *)
Record batches_ok h : Prop := {
  bo_stored b q i : pendingBatches h !! b = Some q → i ∈ pb_items q →
    attempts h !! _id (bi_attempt i) = Some (body (bi_attempt i)) ∧
    w_status (body (bi_attempt i)) = WebhookDeliveryStatus.PENDING ∧
    w_webhook (body (bi_attempt i)) = b ∧ w_payload (body (bi_attempt i)) = bi_payload i;
  bo_once b q : pendingBatches h !! b = Some q → NoDup ((λ i, _id (bi_attempt i)) <$> pb_items q)
}.
Record hooks_ok h : Prop := { ho_attempts : all_ok h; ho_batches : batches_ok h }.

(** A pending attempt that no batch holds. *)
Definition waiting h id : Prop :=
  ∃ b q i, pendingBatches h !! b = Some q ∧ i ∈ pb_items q ∧ _id (bi_attempt i) = id.
Definition orphan h id a : Prop :=
  attempts h !! id = Some a ∧ w_status a = WebhookDeliveryStatus.PENDING ∧ ¬ waiting h id.

(** Kept by an operation: the invariant, and the orphans as they are. *)
Definition keeps h h' : Prop := hooks_ok h' ∧ ∀ id a, orphan h id a → orphan h' id a.
Definition keeper {A} (p : hook A) : Prop := ∀ h, hooks_ok h → keeps h (run p h).2.

Lemma keeps_refl h : hooks_ok h → keeps h h.
Proof. by split. Qed.
Lemma keeps_trans h1 h2 h3 : keeps h1 h2 → keeps h2 h3 → keeps h1 h3.
Proof. intros [_ H1] [H2 H3]. split; [done|]. auto. Qed.

(** Attempts and batches are all that matters. *)
Lemma keeps_same h h' :
  attempts h' = attempts h → pendingBatches h' = pendingBatches h → hooks_ok h → keeps h h'.
Proof.
  intros Ha Hp [H1 [H2 H3]]. split.
  - split; [unfold all_ok; by rewrite Ha|]. split; intros b q; rewrite ?Ha, Hp; eauto.
  - intros id a (H4 & H5 & H6). split; [by rewrite Ha|]. split; [done|]. unfold waiting. by rewrite Hp.
Qed.

Lemma keeper_bind {A B} (p : hook A) (f : A → hook B) :
  keeper p → (∀ x, keeper (f x)) → keeper (p ≫= f).
Proof.
  intros Hp Hf h Hh. rewrite run_bind. pose proof (Hp h Hh) as Hk.
  destruct (run p h) as [[e|x] h1]; cbn [fst snd] in *; [done|].
  eapply keeps_trans; [exact Hk|]. apply Hf, Hk.
Qed.
Lemma keeper_try_catch {A} (p : hook A) f : keeper p → (∀ e, keeper (f e)) → keeper (try_catch p f).
Proof.
  intros Hp Hf h Hh. rewrite run_try_catch. pose proof (Hp h Hh) as Hk.
  destruct (run p h) as [[e|a] h1]; cbn [fst snd] in *; [|done].
  eapply keeps_trans; [exact Hk|]. apply Hf, Hk.
Qed.
Lemma keeper_promise_all {A} (l : list A) (f : A → hook unit) :
  (∀ x, keeper (f x)) → keeper (promise_all l f).
Proof.
  intros Hf. induction l as [|x l IH]; intros h Hh; [by apply keeps_refl|].
  rewrite run_promise_all_cons. cbn [snd]. eapply keeps_trans; [by apply Hf|]. apply IH, Hf, Hh.
Qed.
Lemma keeper_done {A} (r : error + A) : keeper (Done r).
Proof. intros h Hh. by apply keeps_refl. Qed.
Lemma keeper_throw_if b e : keeper (throw_if b e).
Proof. destruct b; apply keeper_done. Qed.
Lemma keeper_or_throw {A} (o : option A) e : keeper (or_throw o e).
Proof. destruct o; apply keeper_done. Qed.
Lemma keeper_reads {A} (f : Hooks → A) : keeper (reads f).
Proof. intros h Hh. by apply keeps_refl. Qed.

(** An access to anything but attempts and batches. *)
Lemma keeper_atomic {A} (op : Hooks → (error + A) * Hooks) :
  (∀ h, attempts (op h).2 = attempts h ∧ pendingBatches (op h).2 = pendingBatches h) →
  keeper (atomic_try op).
Proof. intros Ho h Hh. rewrite run_atomic_try. destruct (Ho h). by apply keeps_same. Qed.
Lemma keeper_atomic_ok {A} (op : Hooks → A * Hooks) :
  (∀ h, attempts (op h).2 = attempts h ∧ pendingBatches (op h).2 = pendingBatches h) →
  keeper (atomic op).
Proof. intros Ho h Hh. rewrite run_atomic. destruct (Ho h). by apply keeps_same. Qed.
Lemma keeper_writes (f : Hooks → Hooks) :
  (∀ h, attempts (f h) = attempts h ∧ pendingBatches (f h) = pendingBatches h) → keeper (writes f).
Proof. intros Ho h Hh. rewrite run_writes. destruct (Ho h). by apply keeps_same. Qed.
End Reachability.

Create HintDb keeper discriminated.
#[export] Hint Resolve keeper_bind keeper_try_catch keeper_promise_all keeper_done keeper_throw_if
  keeper_or_throw keeper_reads : keeper.
#[export] Hint Extern 2 (keeper (mret _)) => apply keeper_done : keeper.
#[export] Hint Extern 3 (keeper (match ?x with _ => _ end)) => destruct x : keeper.

Section Keepers.
Context `{Env} `{WebhookConfig}.
Implicit Types (a : Attempt) (h : Hooks) (d : hydrated Attempt).

(** *** The registry *)
Ltac registry_access :=
  lazymatch goal with
  | |- keeper (atomic_try _) => apply keeper_atomic
  | |- keeper (writes _) => apply keeper_writes
  | |- keeper (atomic _) => apply keeper_atomic_ok
  end; intros h; repeat case_match; split; reflexivity.

Lemma registerWebhook_keeps i : keeper (registerWebhook i).
Proof.
  unfold registerWebhook, create_subscription, assertValidObjectId, assertValidUrl, generateSecret, hook_id.
  repeat (apply keeper_bind; [|intros ?]); eauto with keeper; registry_access.
Qed.
Lemma getById_keeps m id : keeper (getById m id).
Proof. unfold getById, assertValidObjectId. eauto 10 with keeper. Qed.
Lemma updateWebhook_keeps m id i : keeper (updateWebhook m id i).
Proof.
  unfold updateWebhook, assertValidUrl, save_subscription. pose proof (getById_keeps m id).
  repeat (apply keeper_bind; [|intros ?]); eauto with keeper; registry_access.
Qed.
Lemma deleteWebhook_keeps m id : keeper (deleteWebhook m id).
Proof.
  unfold deleteWebhook. pose proof (getById_keeps m id).
  repeat (apply keeper_bind; [|intros ?]); eauto with keeper; registry_access.
Qed.
Lemma rotateSecret_keeps m id : keeper (rotateSecret m id).
Proof.
  unfold rotateSecret, assertValidObjectId, generateSecret.
  repeat (apply keeper_bind; [|intros ?]); eauto with keeper; registry_access.
Qed.

(** *** New attempts *)
Lemma new_attempt_ok webhook e delivery p : attempt_ok (new_attempt webhook e delivery p).
Proof. pose proof max_retries_min. split; cbn; repeat split; lia. Qed.

(** A new attempt is stored under a free id. *)
Lemma create_attempt_run a h :
  let r := run (create_attempt a) h in
  pendingBatches r.2 = pendingBatches h ∧ h_now r.2 = h_now h ∧
  match r.1 with
  | inl _ => attempts r.2 = attempts h
  | inr d => body d = a ∧ attempts h !! _id d = None ∧ attempts r.2 = <[_id d := a]> (attempts h)
  end.
Proof.
  unfold create_attempt, hook_id. rewrite run_bind, run_atomic. cbn [fst snd]. rewrite run_atomic_try.
  change (attempts (h <| h_nextId ::= S |>)) with (attempts h).
  by destruct (attempts h !! _) eqn:Hid.
Qed.

Lemma waiting_stored h id : hooks_ok h → waiting h id → is_Some (attempts h !! id).
Proof.
  intros [_ [Hs _]] (b & q & i & Hq & Hi & <-). destruct (Hs b q i Hq Hi) as [Ha _]. by eexists.
Qed.

(** The world with one more attempt. *)
Lemma insert_keeps id a h h' :
  attempt_ok a → attempts h !! id = None → attempts h' = <[id := a]> (attempts h) →
  pendingBatches h' = pendingBatches h → hooks_ok h → keeps h h' ∧ ¬ waiting h' id.
Proof.
  intros Ha Hn Hat Hp Hh. assert (¬ waiting h id) as Hnw.
  { intros Hw. apply (waiting_stored h id Hh) in Hw. rewrite Hn in Hw. by destruct Hw. }
  pose proof Hh as [H1 [H2 H3]]. split; [split|].
  - split; [unfold all_ok; rewrite Hat; by apply map_Forall_insert_2|]. split; intros b q; rewrite Hp; [|eauto].
    intros i Hq Hi. destruct (H2 b q i Hq Hi) as [H4 H5]. split; [|done]. rewrite Hat, lookup_insert_ne; [done|].
    intros ->. by rewrite Hn in H4.
  - intros id' a' (H4 & H5 & H6). split; [|split; [done|unfold waiting; by rewrite Hp]].
    rewrite Hat, lookup_insert_ne; [done|]. intros ->. by rewrite Hn in H4.
  - unfold waiting. by rewrite Hp.
Qed.

(** *** Sends *)
Definition keeps_but (ids : list string) h h' : Prop :=
  hooks_ok h' ∧ ∀ id a, id ∉ ids → orphan h id a → orphan h' id a.

Lemma sent_keeps id a h r h' :
  hooks_ok h → open_attempt a → attempts h !! id = Some a → ¬ waiting h id → sent_one id a h r h' →
  keeps_but [id] h h' ∧ pendingBatches h' = pendingBatches h ∧
  ∀ k, k ≠ id → attempts h' !! k = attempts h !! k.
Proof.
  intros Hh Ho Ha Hw [[F1 F2 F3 F4 F5] Hr].
  assert (∀ k, k ≠ id → attempts h' !! k = attempts h !! k) as Hoth.
  { intros k Hk. destruct r; [by rewrite Hr|]. destruct Hr as (a' & -> & _). by rewrite lookup_insert_ne. }
  split; [|by split]. pose proof Hh as [H1 [H2 H3]]. split.
  - split.
    + intros k b Hk. destruct (decide (k = id)) as [->|Hne]; [|rewrite Hoth in Hk by done; by apply (H1 k)].
      destruct r; [rewrite Hr in Hk; by apply (H1 id)|]. destruct Hr as (a' & Hr & []).
      rewrite Hr, lookup_insert_eq in Hk. by simplify_eq.
    + split; intros b q; rewrite F2; [|eauto]. intros i Hq Hi. destruct (H2 b q i Hq Hi) as [H4 H5].
      split; [|done]. rewrite Hoth; [done|]. intros <-. apply Hw. by exists b, q, i.
  - intros k b Hk%not_elem_of_cons (H4 & H5 & H6). split; [|split; [done|unfold waiting; by rewrite F2]].
    rewrite Hoth; [done|tauto].
Qed.

Definition sendable h d : Prop :=
  attempts h !! _id d = Some (body d) ∧ open_attempt (body d) ∧ ¬ waiting h (_id d).

(** Several sends, each of its own attempt. *)
Lemma sends_keep (f : hydrated Attempt → hook unit) l h :
  (∀ d h1, d ∈ l → open_attempt (body d) → attempts h1 !! _id d = Some (body d) →
     let r := run (f d) h1 in sent_one (_id d) (body d) h1 r.1 r.2) →
  NoDup (_id <$> l) → (∀ d, d ∈ l → sendable h d) → hooks_ok h →
  let r := run (promise_all l f) h in keeps_but (_id <$> l) h r.2.
Proof.
  intros Hf. revert h. induction l as [|d l IH]; intros h Hnd Hs Hh.
  { split; [done|]. by intros id a _. }
  rewrite fmap_cons in Hnd. apply NoDup_cons in Hnd as [Hni Hnd]. cbv zeta. rewrite run_promise_all_cons.
  cbn [snd]. destruct (Hs d) as (H1 & H2 & H3); [by left|].
  pose proof (Hf d h ltac:(by left) H2 H1) as Hone. cbv zeta in Hone.
  destruct (run (f d) h) as [r1 h1]. cbn [fst snd] in *.
  destruct (sent_keeps (_id d) (body d) h r1 h1 Hh H2 H1 H3 Hone) as ([K1 K2] & K3 & K4).
  destruct (IH (λ d1 h2 Hd, Hf d1 h2 (list_elem_of_further _ _ _ Hd)) h1 Hnd) as [L1 L2]; [|done|].
  - intros d1 Hd1. destruct (Hs d1) as (G1 & G2 & G3); [by right|]. split; [|split; [done|unfold waiting; by rewrite K3]].
    rewrite K4; [done|]. intros Heq. apply Hni. rewrite <-Heq. apply list_elem_of_fmap. by exists d1.
  - split; [done|]. intros id a. rewrite fmap_cons. intros [G1 G2]%not_elem_of_cons Hor. apply L2; [done|].
    apply K2; [|done]. by rewrite list_elem_of_singleton.
Qed.

Lemma keeps_but_fresh h h1 h2 id :
  keeps h h1 → attempts h !! id = None → keeps_but [id] h1 h2 → keeps h h2.
Proof.
  intros [_ K] Hn [L1 L2]. split; [done|]. intros k a Hk. apply L2; [|by apply K].
  rewrite list_elem_of_singleton. intros ->. destruct Hk as (Hk & _). by rewrite Hn in Hk.
Qed.

Lemma new_open webhook e delivery p : open_attempt (new_attempt webhook e delivery p).
Proof. split; [apply new_attempt_ok|by left]. Qed.

Lemma createAndSendAttempt_keeps webhook e delivery p : keeper (createAndSendAttempt webhook e delivery p).
Proof.
  intros h Hh. unfold createAndSendAttempt. rewrite run_bind.
  pose proof (create_attempt_run (new_attempt webhook e delivery p) h) as (Hp & _ & Hc).
  pose proof (new_open webhook e delivery p) as Ho.
  destruct (run (create_attempt _) h) as [[er|[id a]] h1]; cbn [fst snd _id body] in *; [by apply keeps_same|].
  destruct Hc as (-> & Hn & Hat). destruct (insert_keeps id _ h h1 (proj1 Ho) Hn Hat Hp Hh) as [Hk Hw].
  assert (attempts h1 !! id = Some (new_attempt webhook e delivery p)) as Hid
    by (rewrite Hat; apply lookup_insert_eq).
  pose proof (sendAttempt_sent id _ (Some webhook) h1 Ho Hid) as Hs. cbv zeta in Hs.
  destruct (run (sendAttempt _ _) h1) as [r h2]. cbn [fst snd] in *.
  apply (keeps_but_fresh h h1 h2 id Hk Hn). eapply sent_keeps; [apply Hk|exact Ho|done|done|exact Hs].
Qed.

(** The queue of a subscription after one more item. *)
Lemma enqueue_item_batches webhook i h :
  ∃ q t, pendingBatches (enqueue_item webhook i h) =
           <[_id webhook := mkPendingBatch q (pb_items (nullish (pendingBatches h !! _id webhook)
               (mkPendingBatch webhook [] None)) ++ [i]) (Some t)]> (pendingBatches h) ∧
         attempts (enqueue_item webhook i h) = attempts h.
Proof. unfold enqueue_item. by eexists _, _. Qed.

Lemma queueBatchedAttempt_keeps webhook e delivery p : keeper (queueBatchedAttempt webhook e delivery p).
Proof.
  intros h Hh. unfold queueBatchedAttempt. rewrite run_bind.
  pose proof (create_attempt_run (new_attempt webhook e delivery p) h) as (Hp & _ & Hc).
  destruct (run (create_attempt _) h) as [[er|[id a]] h1]; cbn [fst snd _id body] in *; [by apply keeps_same|].
  destruct Hc as (-> & Hn & Hat). pose proof (proj1 (new_open webhook e delivery p)) as Hok.
  destruct (insert_keeps id _ h h1 Hok Hn Hat Hp Hh) as [Hk Hw].
  rewrite run_bind, run_writes. cbn [fst snd]. rewrite run_ret. cbn [snd].
  set (i := mkBatchItem _ p). destruct (enqueue_item_batches webhook i h1) as (q0 & t & Hq & Ha).
  set (h2 := enqueue_item webhook i h1) in *. clearbody h2. destruct Hk as [[K1 [K2 K3]] K4].
  assert (∀ x, x ∈ pb_items (nullish (pendingBatches h1 !! _id webhook) (mkPendingBatch webhook [] None)) →
    ∃ q, pendingBatches h1 !! _id webhook = Some q ∧ x ∈ pb_items q) as Hold.
  { intros x. destruct (pendingBatches h1 !! _id webhook) as [q|]; cbn; [by exists q|by intros ?%not_elem_of_nil]. }
  split; [split; [unfold all_ok; by rewrite Ha|split]|].
  - intros b q x. rewrite Hq, Ha. intros [[<- <-]|[Hne Hb]]%lookup_insert_Some; [|by eapply K2].
    cbn [pb_items]. rewrite elem_of_app, list_elem_of_singleton. intros [Hx| ->].
    + apply Hold in Hx as (q & Hb & Hx). by eapply K2.
    + cbn [bi_attempt _id body i]. split; [by rewrite Hat, lookup_insert_eq|done].
  - intros b q. rewrite Hq. intros [[<- <-]|[Hne Hb]]%lookup_insert_Some; [|by eapply K3].
    cbn [pb_items]. rewrite fmap_app. apply NoDup_app. split; [|split; [|apply NoDup_singleton]].
    + destruct (pendingBatches h1 !! _id webhook) as [q|] eqn:Hb; cbn; [by eapply K3|constructor].
    + intros x (y & -> & Hy)%list_elem_of_fmap Hx%list_elem_of_singleton.
      apply Hold in Hy as (q & Hb & Hy). apply Hw. by exists (_id webhook), q, y.
  - intros k a Hor. pose proof (K4 k a Hor) as (G1 & G2 & G3). split; [by rewrite Ha|]. split; [done|].
    intros (b & q & x & Hb & Hx & Hid). rewrite Hq in Hb.
    apply lookup_insert_Some in Hb as [[<- <-]|[Hne Hb]]; [|apply G3; by exists b, q, x].
    cbn [pb_items] in Hx. apply elem_of_app in Hx as [Hx|Hx%list_elem_of_singleton].
    + apply Hold in Hx as (q & Hb & Hx). apply G3. by exists (_id webhook), q, x.
    + subst x. cbn in Hid. subst k. destruct Hor as (Hor & _). by rewrite Hn in Hor.
Qed.

Lemma dispatch_keeps (dv : hydrated Delivery) s : keeper (dispatchDeliveryEvent dv s).
Proof.
  unfold dispatchDeliveryEvent. destruct (STATUS_EVENTS s) as [e|]; [|apply keeper_done].
  destruct (merchant_of _) as [m|]; [|apply keeper_done].
  apply keeper_try_catch; [|intros; apply keeper_done].
  apply keeper_bind; [apply keeper_reads|intros subs]. case_bool_decide; [apply keeper_done|].
  apply keeper_bind; [apply keeper_reads|intros t]. apply keeper_promise_all. intros w. unfold notify_one.
  destruct (s_allowBatch _); [|apply createAndSendAttempt_keeps].
  apply keeper_bind; [apply queueBatchedAttempt_keeps|intros; apply keeper_done].
Qed.

(** *** Flushes *)
Definition sends_ok (f : hydrated Attempt → hook unit) (l : list (hydrated Attempt)) : Prop :=
  ∀ d h1, d ∈ l → open_attempt (body d) → attempts h1 !! _id d = Some (body d) →
    let r := run (f d) h1 in sent_one (_id d) (body d) h1 r.1 r.2.

Lemma success_sends t code l :
  validateStatus code = true → sends_ok (λ d, save_attempt d (success_update t code (body d))) l.
Proof.
  intros Hc [id a] h1 _ Ho Ha. cbn [_id body] in *. rewrite run_save_attempt; [|done|by destruct a].
  split; [apply send_frame_set|]. eexists. split; [reflexivity|by apply success_step].
Qed.
Lemma failure_sends t e l : sends_ok (λ d, record_failure d t e) l.
Proof. intros [id a] h1 _ Ho Ha. by apply record_failure_run. Qed.

(** Successes are stored without an error. *)
Lemma success_all_ok t code l h :
  NoDup (_id <$> l) → (∀ d, d ∈ l → attempts h !! _id d = Some (body d)) →
  (run (promise_all l (λ d, save_attempt d (success_update t code (body d)))) h).1 = inr tt.
Proof.
  revert h. induction l as [|[id a] l IH]; intros h Hnd Hs; [done|]. rewrite fmap_cons in Hnd.
  apply NoDup_cons in Hnd as [Hni Hnd]. rewrite run_promise_all_cons. cbn [fst].
  rewrite run_save_attempt; [|by apply (Hs (Doc id a)); left|by destruct a]. cbn [fst snd].
  apply IH; [done|]. intros d Hd. cbn [_id body].
  change (<[id := success_update t code a]> (attempts h) !! _id d = Some (body d)).
  rewrite lookup_insert_ne; [by apply Hs; right|]. intros ->. apply Hni. apply list_elem_of_fmap. by exists d.
Qed.

Lemma settle_items_keeps l t response h :
  (∀ code, response = inr code → validateStatus code = true) → NoDup (_id <$> l) →
  (∀ d, d ∈ l → sendable h d) → hooks_ok h →
  keeps_but (_id <$> l) h (run (settle_items l t response) h).2.
Proof.
  intros Hv Hnd Hs Hh. unfold settle_items. destruct response as [e|code].
  - by apply sends_keep; [apply failure_sends| | |].
  - rewrite run_try_catch. pose proof (success_all_ok t code l h Hnd (λ d Hd, proj1 (Hs d Hd))) as Hok.
    pose proof (sends_keep _ l h (success_sends t code l (Hv code eq_refl)) Hnd Hs Hh) as Hk. cbv zeta in Hk.
    destruct (run (promise_all l _) h) as [[er|u] h1]; cbn [fst snd] in *; [done|]. done.
Qed.

Lemma take_batch_keeps id h q h1 :
  hooks_ok h → take_batch id h = (Some q, h1) →
  keeps h h1 ∧ (∀ d, d ∈ bi_attempt <$> pb_items q → sendable h1 d ∧ waiting h (_id d)) ∧
  NoDup (_id <$> (bi_attempt <$> pb_items q)).
Proof.
  intros Hh. unfold take_batch. destruct (pendingBatches h !! id) as [q0|] eqn:Hq; [|done].
  case_bool_decide as Hnil; [done|]. intros [= -> <-]. set (h1 := h <| pendingBatches ::= _ |>).
  pose proof Hh as [H1 [H2 H3]]. assert (∀ k, waiting h1 k → waiting h k) as Hwt.
  { intros k (b & q1 & i & Hb & Hi & Hk). change (pendingBatches h1) with (delete id (pendingBatches h)) in Hb.
    apply lookup_delete_Some in Hb as [_ Hb]. by exists b, q1, i. }
  split; [split; [split; [done|split]|]|split].
  - intros b q1 i Hb. change (pendingBatches h1) with (delete id (pendingBatches h)) in Hb.
    apply lookup_delete_Some in Hb as [_ Hb]. by apply (H2 b).
  - intros b q1 Hb. change (pendingBatches h1) with (delete id (pendingBatches h)) in Hb.
    apply lookup_delete_Some in Hb as [_ Hb]. by apply (H3 b).
  - intros k a (G1 & G2 & G3). split; [done|]. split; [done|]. auto.
  - intros d (i & -> & Hi)%list_elem_of_fmap. destruct (H2 id q i Hq Hi) as (G1 & G2 & G3 & _).
    split; [|by exists id, q, i]. split; [done|]. split; [split; [by apply (H1 _ _ G1)|by left]|].
    intros (b & q1 & x & Hb & Hx & Hid). change (pendingBatches h1) with (delete id (pendingBatches h)) in Hb.
    apply lookup_delete_Some in Hb as [Hne Hb]. destruct (H2 b q1 x Hb Hx) as (F1 & _ & F3 & _).
    rewrite Hid, G1 in F1. injection F1 as F1. apply Hne. by rewrite <-F3, <-F1, G3.
  - rewrite <-list_fmap_compose. by apply (H3 id).
Qed.

Lemma flushBatch_keeps id : keeper (flushBatch id).
Proof.
  intros h Hh. unfold flushBatch. rewrite run_bind, run_atomic. cbn [fst snd].
  destruct (take_batch id h) as [[q|] h1] eqn:Htk; cbn [fst snd].
  2: { unfold take_batch in Htk. repeat case_match; simplify_eq; by apply keeps_refl. }
  destruct (take_batch_keeps id h q h1 Hh Htk) as (Hk & Hs & Hnd). unfold hook_now, sign_with.
  rewrite run_bind, run_reads. cbn [fst snd]. rewrite run_bind, run_bind, run_or_throw.
  destruct (s_secret _) as [k|]; cbn [fst snd]; [|done]. rewrite run_ret. cbn [fst snd].
  rewrite run_bind, run_reads. cbn [fst snd]. unfold post. rewrite run_bind, run_atomic. cbn [fst snd].
  rewrite run_bind, run_reads. cbn [fst snd]. set (p := batch_post _ _ _ _ _).
  set (h2 := h1 <| requests ::= _ |>).
  assert (keeps_but (_id <$> (bi_attempt <$> pb_items q)) h2
    (run (settle_items (bi_attempt <$> pb_items q) (h_now h2)
       (axios_post validateStatus (length (requests h1)) p)) h2).2) as [L1 L2].
  { apply settle_items_keeps; [|done| |].
    - intros code Hc. by eapply axios_validates.
    - intros d Hd. by destruct (Hs d Hd) as [? _].
    - by apply (keeps_same h1 h2); [..|apply Hk]. }
  split; [done|]. intros k' a Hor. apply L2; [|by apply Hk].
  intros (d & -> & Hd)%list_elem_of_fmap. destruct (Hs d Hd) as [_ Hw]. by apply Hor.
Qed.

Lemma flushAllBatches_keeps : keeper flushAllBatches.
Proof.
  unfold flushAllBatches. apply keeper_bind; [apply keeper_reads|]. intros l.
  apply keeper_promise_all, flushBatch_keeps.
Qed.

Lemma retryDueAttempts_keeps : keeper retryDueAttempts.
Proof.
  unfold retryDueAttempts. destruct webhookBatching; [|apply keeper_done]. cbn [negb].
  intros h Hh. rewrite run_bind, run_reads. cbn [fst snd]. case_bool_decide; [by apply keeps_refl|].
  rewrite run_bind. assert (∀ d, d ∈ due_batch h → sendable h d ∧ w_status (body d) = WebhookDeliveryStatus.FAILED)
    as Hs.
  { intros d Hd. pose proof (due_stored h d (ho_attempts h Hh) Hd) as (S1 & S2 & S3).
    split; [|done]. split; [done|]. split; [split; [done|by right]|].
    intros (b & q & i & Hb & Hi & Hid). destruct (bo_stored h (ho_batches h Hh) b q i Hb Hi) as (G1 & G2 & _).
    rewrite Hid, S1 in G1. injection G1 as G1. rewrite <-G1, S3 in G2. discriminate. }
  assert (keeps_but (_id <$> due_batch h) h (run (promise_all (due_batch h) (λ d, sendAttempt d None)) h).2)
    as [L1 L2].
  { apply sends_keep; [|apply due_batch_NoDup|intros d Hd; by apply Hs|done].
    intros [id a] h1 _ Ho Ha. by apply sendAttempt_sent. }
  assert (keeps h (run (promise_all (due_batch h) (λ d, sendAttempt d None)) h).2) as Hk.
  { split; [done|]. intros id a Hor. apply L2; [|done]. intros (d & -> & Hd)%list_elem_of_fmap.
    destruct (Hs d Hd) as [(G1 & _) G2]. destruct Hor as (F1 & F2 & _). rewrite G1 in F1. injection F1 as F1.
    rewrite <-F1, G2 in F2. discriminate. }
  by destruct (run (promise_all _ _) h) as [[e|u] h1].
Qed.

Lemma no_batches h : pendingBatches h = ∅ → batches_ok h ∧ ∀ id, ¬ waiting h id.
Proof.
  intros Hp. split; [split; intros b q|intros id (b & q & i & Hq & _)].
  - intros i Hq. by rewrite Hp, lookup_empty in Hq.
  - intros Hq. by rewrite Hp, lookup_empty in Hq.
  - by rewrite Hp, lookup_empty in Hq.
Qed.

Lemma restart_keeps h : hooks_ok h → keeps h (run_op op_restart h).
Proof.
  intros [H1 H2]. destruct (no_batches (run_op op_restart h) eq_refl) as [H3 H4].
  split; [by split|]. intros id a (G1 & G2 & _). by split.
Qed.

Lemma run_op_keeps o h : hooks_ok h → keeps h (run_op o h).
Proof.
  intros Hh. destruct o; cbn [run_op].
  - by apply registerWebhook_keeps.
  - by apply updateWebhook_keeps.
  - by apply deleteWebhook_keeps.
  - by apply rotateSecret_keeps.
  - by apply dispatch_keeps.
  - by apply flushBatch_keeps.
  - by apply flushAllBatches_keeps.
  - by apply retryDueAttempts_keeps.
  - by apply keeps_same.
  - by apply keeps_same.
  - by apply restart_keeps.
Qed.

Definition fresh_hooks (t : Z) : Hooks := mkHooks t 0 ∅ ∅ ∅ 1000 [] 0.

Lemma fresh_ok t : hooks_ok (fresh_hooks t).
Proof. split; [apply map_Forall_empty|by apply no_batches]. Qed.

Lemma run_ops_keeps os h : hooks_ok h → keeps h (run_ops os h).
Proof.
  revert h. induction os as [|o os IH]; intros h Hh; [by apply keeps_refl|].
  eapply keeps_trans; [by apply (run_op_keeps o)|]. apply IH, (run_op_keeps o h Hh).
Qed.

(** C12: after any sequence of registrations, dispatches, flushes, sweeps and
    restarts, whatever the endpoints answered: a stored attempt counts between 0
    and its maximum; a pending one has not been sent, a delivered one had a 2xx
    answer, a failed one has sends left and a next retry, and delivered and
    exhausted ones have none; what waits in a batch is stored exactly as it is
    held, once, and belongs to the batch's subscription. *)
Theorem webhook_invariant t os : hooks_ok (run_ops os (fresh_hooks t)).
Proof. apply run_ops_keeps, fresh_ok. Qed.

(** A batched event does not survive a restart: an attempt that waited in a
    batch when the process restarted stays pending, exactly as it was stored,
    through any later sequence of operations, sweeps included. *)
Theorem batched_attempt_lost h id a os :
  hooks_ok h → attempts h !! id = Some a → w_status a = WebhookDeliveryStatus.PENDING →
  attempts (run_ops os (run_op op_restart h)) !! id = Some a.
Proof.
  intros Hh Ha Hp. pose proof (run_op_keeps op_restart h Hh) as [Hr _].
  apply (run_ops_keeps os (run_op op_restart h) Hr). split; [done|]. split; [done|].
  by apply (no_batches (run_op op_restart h) eq_refl).
Qed.
End Keepers.

(** ** Witnesses *)
Section WebhookWitnesses.
Import ExampleEnv.

(** An endpoint that answers 503 to the first request and 200 afterwards. *)
#[local] Program Instance example_webhooks : WebhookConfig := {|
  WEBHOOK_MAX_RETRIES := 5;
  WEBHOOK_RETRY_BASE_MS := 30000;
  WEBHOOK_RETRY_MAX_MS := 3600000;
  WEBHOOK_RETRY_BATCH_SIZE := 50;
  production := true;
  webhookBatching := true;
  hmac_sha256_hex k t := "mac:" +:+ k +:+ ":" +:+ pretty (String.length t);
  random_hex n := "secret" +:+ pretty n;
  random _ := NumParse.of_string "0.5";
  url_protocol u := if Str.startsWith u "https://" then Some "https:" else None;
  axios_post f n p :=
    if Nat.eqb n 0 then inl (mkPostError (Some 503%Z) "Request failed with status code 503")
    else if f 200%Z then inr 200%Z else inl (mkPostError (Some 200%Z) "Request failed with status code 200")
|}.
Next Obligation. intros f n p s. cbn. destruct (Nat.eqb n 0); [done|]. destruct (f 200%Z) eqn:Hf; [|done]. by intros [= <-]. Qed.
Next Obligation. done. Qed.
Next Obligation. done. Qed.

Let wid : string := "64b7f0c2a1d3e4f500000001".
Let aid : string := "64b7f0c2a1d3e4f500000002".
Let merchant : string := "64b7f0c2a1d3e4f5000000aa".
Let wt0 : Z := 1700000000000.
Let hook1 : Subscription :=
  mkSubscription merchant "https://shop.example/hook" (Some "k") [DELIVERY_FUNDED] false true None 0.
Let payload1 : EventPayload :=
  mkEventPayload DELIVERY_FUNDED "1.0" "2023-11-14T22:13:20.000Z" "64b7f0c2a1d3e4f5000000dd" (Some "SC-1") "funded" None.
Let pending1 : Attempt := new_attempt (Doc wid hook1) DELIVERY_FUNDED "64b7f0c2a1d3e4f5000000dd" payload1.
Let hooks1 : Hooks :=
  fresh_hooks wt0 <| subscriptions := {[wid := hook1]} |> <| attempts := {[aid := pending1]} |>.

(** The text of a payload, its double quotes shown as single ones. *)
Example payload_text :
  Str.of_chars ((λ c, if Ascii.eqb c (ascii_of_nat 34) then "'"%char else c) <$>
    Str.chars (stringify (single payload1))) =
  "{'event':'delivery.funded','schemaVersion':'1.0','timestamp':'2023-11-14T22:13:20.000Z',"
  +:+ "'data':{'deliveryId':'64b7f0c2a1d3e4f5000000dd','trackingNumber':'SC-1','status':'funded'}}".
Proof. reflexivity. Qed.
Example first_retry : computeNextRetry 1 (NumParse.of_string "0.75") wt0 = Some (wt0 + 33000)%Z.
Proof. reflexivity. Qed.
Example capped_retry : computeNextRetry 12 (NumParse.of_string "0") wt0 = Some (wt0 + 2880000)%Z.
Proof. reflexivity. Qed.

Lemma sendAttempt_correct_witness :
  ∃ h' a', run (sendAttempt (Doc aid pending1) None) hooks1 = (inr tt, h') ∧
    attempts h' !! aid = Some a' ∧ w_status a' = WebhookDeliveryStatus.FAILED ∧ w_attempts a' = 1%Z ∧
    w_nextRetryAt a' = Some (wt0 + 30000)%Z ∧ length (requests h') = 1%nat.
Proof.
  destruct (run (sendAttempt (Doc aid pending1) None) hooks1) as [r h'] eqn:Hr.
  destruct (sendAttempt_correct aid pending1 hooks1 r h') as [_ Hs].
  - apply new_open.
  - reflexivity.
  - intros s Hs. vm_compute in Hs. injection Hs as <-. by eexists.
  - exact Hr.
  - assert (active_target pending1 hooks1 = Some hook1) as Ht by reflexivity.
    rewrite Ht in Hs. destruct Hs as (k & p & _ & Hq & _ & _ & _ & Han).
    cbn [axios_post example_webhooks length requests hooks1] in Han.
    change (length (requests hooks1)) with 0%nat in Han. cbn [Nat.eqb] in Han.
    destruct r as [e|[]]; cbn [answered] in Han.
    + destruct Han as (_ & Hn & _). vm_compute in Hn. discriminate Hn.
    + eexists h', _. split; [reflexivity|]. rewrite Han. split; [apply lookup_insert_eq|].
      split; [reflexivity|]. split; [reflexivity|]. split; [reflexivity|]. by rewrite Hq.
Defined.

(** The endpoint answers the second request: one sweep ends the retries. *)
Let failed1 : Attempt := failure_update wt0 (mkPostError (Some 503%Z) "x") (Some wt0) pending1.
Let hooks2 : Hooks :=
  hooks1 <| attempts := {[aid := failed1]} |>
         <| requests := [mkPost "https://shop.example/hook" DELIVERY_FUNDED None None "" "" ""] |>.

Lemma hooks2_ok : all_ok hooks2.
Proof.
  apply map_Forall_singleton. split; [by vm_compute; split|]. vm_compute. split; [by split|]. by split; eexists.
Qed.

Lemma retries_terminate_witness :
  ∃ h', productive_sweep hooks2 h' ∧ (length (requests h') ≤ 1 + 4)%nat.
Proof.
  assert (productive_sweep hooks2 (run retryDueAttempts (sweep_at wt0 hooks2)).2) as Hp.
  { exists wt0, 1%Z. split; [done|]. split; [done|]. vm_compute. reflexivity. }
  eexists. split; [exact Hp|].
  assert (webhookBatching = true) as Hb by reflexivity.
  destruct (retries_terminate 1 hooks2 _ Hb hooks2_ok (nsteps_once _ _ Hp)) as (_ & Hq & _).
  etrans; [exact Hq|]. vm_compute. lia.
Defined.

(** A batched event, a restart, and a sweep and a flush after it. *)
Let hook3 : Subscription := hook1 <| s_allowBatch := true |>.
Let delivery3 : hydrated Delivery := Doc "64b7f0c2a1d3e4f5000000dd"
  {| deliveryId := None; driverId := None; driver := None; userId := None; sender := Some merchant; d_recipient := None;
     d_contractId := None; trackingNumber := Some "SC-1"; customer := JNull; pickup := JNull;
     dropoff := JNull; package := JNull; deliveryFee := None; deliveryFeeAsset := None;
     escrowAmount := None; escrowAsset := None; fundBy := None; cancellationReason := None; notes := None;
     status := DeliveryStatus.FUNDED; estimatedDistance := None; estimatedDuration := None;
     stellarTransactionId := None; proofOfDelivery := None; isDeleted := false; deletedAt := None;
     deletedBy := None; d_createdAt := wt0; d_updatedAt := wt0 |}.
Let hooks3 : Hooks := fresh_hooks wt0 <| subscriptions := {[wid := hook3]} |>.

Lemma hooks3_ok : hooks_ok hooks3.
Proof. split; [apply map_Forall_empty|by apply no_batches]. Qed.

Lemma batched_attempt_lost_witness :
  let h := run_op (op_dispatch delivery3 DeliveryStatus.FUNDED) hooks3 in
  let later := run_ops [op_advance 10000; op_flush wid; op_flush_all; op_sweep] (run_op op_restart h) in
  ∃ id a, attempts h !! id = Some a ∧ pendingBatches h ≠ ∅ ∧ attempts later !! id = Some a.
Proof.
  intros h later.
  assert (∃ id a, attempts h !! id = Some a ∧ w_status a = WebhookDeliveryStatus.PENDING) as (id & a & Ha & Hp).
  { exists (newObjectId 0). eexists. split; vm_compute; reflexivity. }
  exists id, a. split; [exact Ha|]. split.
  - intros Hn. apply (f_equal (λ m, bool_decide (m = ∅))) in Hn. vm_compute in Hn. discriminate Hn.
  - apply (batched_attempt_lost h id a); [|exact Ha|exact Hp].
    apply (run_op_keeps (op_dispatch delivery3 DeliveryStatus.FUNDED) hooks3 hooks3_ok).
Defined.
End WebhookWitnesses.
