(* ===== verification/Onboarding.v ===== *)
(** * Merchant onboarding ([src/src/services/onboardingService.ts])

    Registration of an intent with its wallet challenge, the proof of the wallet,
    and the activation that creates an owner account, a fleet and a webhook
    subscription, undone when a step fails.  Signatures, hashes and tokens are
    fields of [OnboardingConfig]; what notifies the new merchant is the class
    [MerchantNotifier]. *)
From S2P Require Import Prelude JsLib Models Pagination WebhookService.
From Stdlib Require Import Ascii.

(** ** Data *)
Inductive UserRole := USER | DRIVER | ADMIN | ENTERPRISE.
#[export] Instance UserRole_eq_dec : EqDecision UserRole.
Proof. solve_decision. Defined.
Definition role_string (r : UserRole) : string :=
  match r with USER => "user" | DRIVER => "driver" | ADMIN => "admin" | ENTERPRISE => "enterprise" end.

Record User := mkUser {
  us_email : string;
  us_password : string;
  us_firstName : string;
  us_lastName : string;
  us_role : UserRole;
  us_walletAddress : option string
}.

(** The optional fields of the business metadata are kept as they are. *)
Record BusinessMetadata := mkMetadata {
  companyName : string;
  contactEmail : string;
  other_metadata : list (string * json)
}.
Record Contact := mkContact {
  c_firstName : string;
  c_lastName : string;
  c_email : string;
  c_phone : option string
}.

Inductive MemberRole := admin_member | driver_member | viewer_member.
Record Fleet := mkFleet {
  fl_name : string;
  fl_treasuryAddress : string;
  fl_ownerId : string;
  fl_members : list (string * MemberRole);
  fl_businessMetadata : BusinessMetadata
}.

Module OnboardingStatus.
Inductive t := PENDING_WALLET | ACTIVATING | COMPLETED.
#[global] Instance eq_dec : EqDecision t.
Proof. solve_decision. Defined.
End OnboardingStatus.

Record MerchantOnboarding := mkOnboarding {
  ob_status : OnboardingStatus.t;
  ob_fleetName : string;
  ob_treasuryAddress : string;
  ob_businessMetadata : BusinessMetadata;
  ob_contact : Contact;
  ob_webhookUrl : string;
  ob_message : string;
  ob_expiresAt : Z;
  ob_failedProofAttempts : Z;
  ob_links : option (string * string * string);
  ob_completedAt : option Z
}.
#[export] Instance MerchantOnboarding_eta : Settable MerchantOnboarding := λ o,
  mkOnboarding o.(ob_status) o.(ob_fleetName) o.(ob_treasuryAddress) o.(ob_businessMetadata)
    o.(ob_contact) o.(ob_webhookUrl) o.(ob_message) o.(ob_expiresAt) o.(ob_failedProofAttempts)
    o.(ob_links) o.(ob_completedAt).

(** The collections onboarding works on; the subscriptions, the clock, the ids
    and the random draws are those of the webhook service. *)
Record OWorld := mkOWorld {
  o_hooks : Hooks;
  users : gmap string User;
  fleets : gmap string Fleet;
  onboardings : gmap string MerchantOnboarding;
  o_audit : list (string * string * string)
}.
#[export] Instance OWorld_eta : Settable OWorld := λ w,
  mkOWorld w.(o_hooks) w.(users) w.(fleets) w.(onboardings) w.(o_audit).
Definition o_now (w : OWorld) : Z := h_now (o_hooks w).
Abbreviation onboard := (prog OWorld).

Class OnboardingConfig := {
  ONBOARDING_CHALLENGE_TTL_SECONDS : Z;
  ONBOARDING_MAX_PROOF_ATTEMPTS : Z;
  JWT_SECRET : string;
  (** A user id and a role, signed with the secret. *)
  jwt_sign : string → string → string → string;
  bcrypt_hash : string → string;
  (** [randomBytes(16).toString('hex')], by draw. *)
  random_nonce : nat → string;
  sha256 : string → string;
  (** Public keys; [None] of a verification stands for an exception. *)
  Key : Type;
  fromPublicKey : string → option Key;
  verify : Key → string → string → option bool
}.

(** What tells a new owner that the account is active. *)
Class MerchantNotifier := {
  notifyMerchantOnboarded : string → string * string → onboard unit
}.
Class MerchantNotifierOk `{MerchantNotifier} : Prop := {
  notify_confined u f : confined (=) (notifyMerchantOnboarded u f)
}.

Record RegisterMerchantBody := mkRegisterMerchant {
  rm_fleetName : string;
  rm_treasuryAddress : string;
  rm_businessMetadata : BusinessMetadata;
  rm_contact : Contact;
  rm_webhookUrl : string
}.
Record BindMerchantWalletBody := mkBind {
  b_onboardingId : string;
  b_signature : string;
  b_password : string
}.
Record OnboardingChallengeResult := mkChallenge {
  ch_onboardingId : string;
  ch_status : OnboardingStatus.t;
  ch_treasuryAddress : string;
  ch_message : string;
  ch_expiresAt : Z
}.
Record MerchantActivationResult := mkActivation {
  ac_onboardingId : string;
  ac_user : hydrated User;
  ac_token : string;
  ac_fleet : hydrated Fleet;
  ac_webhook : hydrated Subscription;
  ac_secret : string
}.

(** ** The schemas of users and fleets *)
Definition in_range (a b : nat) (c : ascii) : bool :=
  let n := nat_of_ascii c in Nat.leb a n && Nat.leb n b.
Definition upper_letter (c : ascii) : bool := in_range 65 90 c.

(** [/^G[A-Z2-7]{55}$/] and [/^G[A-Z0-9]{55}$/]. *)
Definition g_address (lo hi : nat) (s : string) : bool :=
  match Str.chars s with
  | "G"%char :: l => Nat.eqb (length l) 55 && forallb (λ c, upper_letter c || in_range lo hi c) l
  | _ => false
  end.
Definition user_wallet_ok : string → bool := g_address 50 55.
Definition fleet_treasury_ok : string → bool := g_address 48 57.

(** [/^\S+@\S+\.\S+$/]: no space, an at sign after a character, a dot after one
    more, and a character after the dot. *)
Fixpoint dot_inside (l : list ascii) : bool :=
  match l with
  | "."%char :: (_ :: _) => true
  | _ :: l => dot_inside l
  | [] => false
  end.
Fixpoint at_inside (l : list ascii) : bool :=
  match l with
  | c :: l => (Ascii.eqb c "@" && dot_inside (tail l)) || at_inside l
  | [] => false
  end.
Definition email_ok (s : string) : bool :=
  negb (Str.spaced (Str.chars s)) && at_inside (tail (Str.chars s)).

Definition length_between (lo hi : Z) (s : string) : bool := (lo <=? Str.length s)%Z && (Str.length s <=? hi)%Z.

Definition user_valid (u : User) (password : string) : bool :=
  email_ok (us_email u) && (8 <=? Str.length password)%Z && length_between 1 50 (us_firstName u)
  && length_between 1 50 (us_lastName u)
  && match us_walletAddress u with Some a => user_wallet_ok a | None => true end.

Definition fleet_valid (f : Fleet) : bool :=
  length_between 2 100 (fl_name f) && fleet_treasury_ok (fl_treasuryAddress f)
  && Str.truthy (companyName (fl_businessMetadata f)) && email_ok (contactEmail (fl_businessMetadata f)).

(** The unique indexes: on e-mails, on wallets (sparse), on treasuries. *)
Definition user_clash (u1 u2 : User) : bool :=
  String.eqb (us_email u1) (us_email u2)
  || match us_walletAddress u1 with
     | Some a => bool_decide (us_walletAddress u2 = Some a)
     | None => false
     end.
Definition fleet_clash (f1 f2 : Fleet) : bool := String.eqb (fl_treasuryAddress f1) (fl_treasuryAddress f2).

(** ** The service *)
(** [Buffer.from(s, 'base64')]: characters outside the alphabets are skipped, an
    equals sign ends the text. *)
Definition base64_val (c : ascii) : option Z :=
  let n := Z.of_nat (nat_of_ascii c) in
  if in_range 65 90 c then Some (n - 65)%Z else if in_range 97 122 c then Some (n - 71)%Z
  else if in_range 48 57 c then Some (n + 4)%Z
  else if (n =? 43)%Z || (n =? 45)%Z then Some 62%Z
  else if (n =? 47)%Z || (n =? 95)%Z then Some 63%Z else None.
Fixpoint before_padding (l : list ascii) : list ascii :=
  match l with
  | c :: l => if Ascii.eqb c "=" then [] else c :: before_padding l
  | [] => []
  end.
(** Bits gathered so far and their number. *)
Fixpoint base64_bytes (acc bits : Z) (l : list Z) : list ascii :=
  match l with
  | [] => []
  | v :: l =>
      let acc := (acc * 64 + v)%Z in let bits := (bits + 6)%Z in
      if (8 <=? bits)%Z
      then ascii_of_N (Z.to_N (acc / 2 ^ (bits - 8))) :: base64_bytes (acc mod 2 ^ (bits - 8)) (bits - 8) l
      else base64_bytes acc bits l
  end.
Definition decode_base64 (s : string) : list ascii :=
  base64_bytes 0 0 (omap base64_val (before_padding (Str.chars s))).
Example base64_example : Str.of_chars (decode_base64 "aGVsbG8=") = "hello".
Proof. reflexivity. Qed.

Definition newline : string := String (ascii_of_nat 10) "".
Definition SEP53_PREFIX : string := "Stellar Signed Message:" +:+ newline.
Definition DEFAULT_WEBHOOK_EVENTS : list WebhookEvent :=
  [DELIVERY_PENDING; DELIVERY_FUNDED; DELIVERY_ASSIGNED; DELIVERY_IN_PROGRESS; DELIVERY_COMPLETED;
   DELIVERY_CANCELLED; DELIVERY_BATCH].

Definition buildChallengeMessage (onboardingId treasuryAddress nonce : string) (expiresAt : Z) : string :=
  Str.join newline
    ["SwiftChain merchant onboarding"; "Onboarding: " +:+ onboardingId; "Treasury: " +:+ treasuryAddress;
     "Nonce: " +:+ nonce; "Expires: " +:+ Date.toISOString expiresAt].

Definition withoutSecret : hydrated Subscription → hydrated Subscription := unselected.

Section OnboardingService.
Context `{Env} `{WebhookConfig} `{OnboardingConfig} `{MerchantNotifier}.

(** The signature verifies for the message, raw or as SEP-53 hashes it. *)
Definition verifyWalletSignature (treasuryAddress message signatureBase64 : string) : bool :=
  match fromPublicKey treasuryAddress with
  | None => false
  | Some k =>
      let signature := decode_base64 signatureBase64 in
      if negb (Nat.eqb (length signature) 64) then false
      else some (λ p, nullish (verify k p (Str.of_chars signature)) false)
             [message; sha256 (SEP53_PREFIX +:+ message)]
  end.

(** *** The collections *)
Definition onboard_now : onboard Z := reads o_now.
Definition onboard_id : onboard string :=
  atomic (λ w, (newObjectId (h_nextId (o_hooks w)), w <| o_hooks ::= set h_nextId S |>)).

Definition create_user (u : User) (password : string) : onboard (hydrated User) :=
  let u := mkUser (Str.toLowerCase (us_email u)) (bcrypt_hash password) (us_firstName u) (us_lastName u)
             (us_role u) (us_walletAddress u) in
  id ← onboard_id;
  _ ← throw_if (negb (user_valid u password)) (PlainError "User validation failed");
  atomic_try (λ w,
    if bool_decide (is_Some (users w !! id)) || some (λ kv, user_clash u kv.2) (map_to_list (users w))
    then (inl DuplicateKey, w)
    else (inr (Doc id u), w <| users ::= <[id := u]> |>)).

(** The owner joins the members before the first save. *)
Definition with_owner (f : Fleet) : Fleet :=
  if some (λ m, String.eqb m.1 (fl_ownerId f)) (fl_members f) then f
  else mkFleet (fl_name f) (fl_treasuryAddress f) (fl_ownerId f)
         (fl_members f ++ [(fl_ownerId f, admin_member)]) (fl_businessMetadata f).

Definition create_fleet (f : Fleet) : onboard (hydrated Fleet) :=
  id ← onboard_id;
  _ ← throw_if (negb (fleet_valid f)) (PlainError "Fleet validation failed");
  atomic_try (λ w,
    if bool_decide (is_Some (fleets w !! id)) || some (λ kv, fleet_clash f kv.2) (map_to_list (fleets w))
    then (inl DuplicateKey, w)
    else (inr (Doc id (with_owner f)), w <| fleets ::= <[id := with_owner f]> |>)).

Definition register_webhook (i : RegisterWebhookInput) : onboard (hydrated Subscription * string) :=
  zoom o_hooks (λ h w, w <| o_hooks := h |>) (registerWebhook i).

(** *** Operations *)
Definition assertNoCollision (email treasuryAddress : string) : onboard unit :=
  let taken P := reads (λ w : OWorld, bool_decide (is_Some (find_one P (users w)))) in
  emailTaken ← taken (λ u, String.eqb (us_email u) (Str.toLowerCase email));
  walletOnUser ← taken (λ u, bool_decide (us_walletAddress u = Some treasuryAddress));
  walletOnFleet ← reads (λ w : OWorld,
    bool_decide (is_Some (find_one (λ f, String.eqb (fl_treasuryAddress f) treasuryAddress) (fleets w))));
  _ ← throw_if emailTaken (AppError "An account with this email already exists." Http.CONFLICT);
  throw_if (walletOnUser || walletOnFleet)
    (AppError "This treasury address is already bound to an existing merchant." Http.CONFLICT).

Definition registerIntent (i : RegisterMerchantBody) : onboard OnboardingChallengeResult :=
  _ ← assertNoCollision (c_email (rm_contact i)) (rm_treasuryAddress i);
  id ← onboard_id;
  t ← onboard_now;
  let expiresAt := (t + ONBOARDING_CHALLENGE_TTL_SECONDS * 1000)%Z in
  nonce ← atomic (λ w, (random_nonce (draws (o_hooks w)), w <| o_hooks ::= set draws S |>));
  let message := buildChallengeMessage id (rm_treasuryAddress i) nonce expiresAt in
  let o := mkOnboarding OnboardingStatus.PENDING_WALLET (rm_fleetName i) (rm_treasuryAddress i)
             (rm_businessMetadata i) (rm_contact i) (rm_webhookUrl i) message expiresAt 0 None None in
  _ ← atomic_try (λ w, match onboardings w !! id with
                       | Some _ => (inl DuplicateKey, w)
                       | None => (inr tt, w <| onboardings ::= <[id := o]> |>)
                       end);
  mret (mkChallenge id OnboardingStatus.PENDING_WALLET (rm_treasuryAddress i) message expiresAt).

(** What was created so far. *)
Record Created := mkCreated { userId_ : option string; fleetId_ : option string; webhookId_ : option string }.

Definition delete_if {A} (del : string → OWorld → OWorld) (o : option A) (id : A → string) : onboard unit :=
  match o with Some x => writes (del (id x)) | None => mret tt end.
Definition delete_webhook (id : string) (w : OWorld) : OWorld := w <| o_hooks ::= set subscriptions (delete id) |>.
Definition delete_fleet (id : string) (w : OWorld) : OWorld := w <| fleets ::= delete id |>.
Definition delete_user (id : string) (w : OWorld) : OWorld := w <| users ::= delete id |>.

Definition rollback (c : Created) : onboard unit :=
  try_catch
    (_ ← delete_if delete_webhook (webhookId_ c) id;
     _ ← delete_if delete_fleet (fleetId_ c) id;
     delete_if delete_user (userId_ c) id)
    (λ _, mret tt).

Definition claimed_by_another : error :=
  AppError "This email or treasury address was just claimed by another merchant." Http.CONFLICT.

(** A failing step undoes what was created before it. *)
Definition or_rollback {A} (c : Created) (p : onboard A) : onboard A :=
  try_catch p (λ e, _ ← rollback c;
                    throw (if bool_decide (e = DuplicateKey) then claimed_by_another else e)).

Definition onboarding_audit (o : hydrated MerchantOnboarding) (ownerId fleetId : string) : onboard unit :=
  try_catch (writes (set o_audit (.++ [("merchant.onboarded", ownerId, fleetId)]))) (λ _, mret tt).

Definition generateToken (userId role : string) : onboard string :=
  if Str.truthy JWT_SECRET then mret (jwt_sign userId role JWT_SECRET)
  else throw (AppError "JWT secret is not configured" Http.INTERNAL_SERVER_ERROR).

Definition completed_update (t : Z) (uid fid hid : string) (o : MerchantOnboarding) : MerchantOnboarding :=
  o <| ob_status := OnboardingStatus.COMPLETED |> <| ob_links := Some (uid, fid, hid) |>
    <| ob_completedAt := Some t |>.

Definition update_onboarding (id : string) (P : MerchantOnboarding → bool)
    (f : MerchantOnboarding → MerchantOnboarding) (w : OWorld) : option MerchantOnboarding * OWorld :=
  match onboardings w !! id with
  | Some o => if P o then (Some (f o), w <| onboardings ::= <[id := f o]> |>) else (None, w)
  | None => (None, w)
  end.

(** The steps after the documents exist. *)
Definition finish (o : hydrated MerchantOnboarding) (owner : hydrated User) (fleet : hydrated Fleet)
    (webhook : hydrated Subscription) (secret : string) : onboard MerchantActivationResult :=
  t ← onboard_now;
  _ ← atomic (update_onboarding (_id o) (λ _, true)
                (completed_update t (_id owner) (_id fleet) (_id webhook)));
  _ ← notifyMerchantOnboarded (_id owner) (_id fleet, fl_name (body fleet));
  _ ← onboarding_audit o (_id owner) (_id fleet);
  token ← generateToken (_id owner) (role_string (us_role (body owner)));
  mret (mkActivation (_id o) owner token fleet (withoutSecret webhook) secret).

Definition owner_of (o : MerchantOnboarding) : User :=
  mkUser (c_email (ob_contact o)) "" (c_firstName (ob_contact o)) (c_lastName (ob_contact o)) ENTERPRISE
    (Some (ob_treasuryAddress o)).
Definition fleet_of (o : MerchantOnboarding) (ownerId : string) : Fleet :=
  mkFleet (ob_fleetName o) (ob_treasuryAddress o) ownerId [] (ob_businessMetadata o).
Definition webhook_of (o : MerchantOnboarding) (ownerId : string) : RegisterWebhookInput :=
  mkRegister ownerId (ob_webhookUrl o) DEFAULT_WEBHOOK_EVENTS None
    (Some "Default subscription created during merchant onboarding").

Definition activate (o : hydrated MerchantOnboarding) (password : string) : onboard MerchantActivationResult :=
  _ ← assertNoCollision (c_email (ob_contact (body o))) (ob_treasuryAddress (body o));
  owner ← or_rollback (mkCreated None None None) (create_user (owner_of (body o)) password);
  let uid := _id owner in
  fleet ← or_rollback (mkCreated (Some uid) None None) (create_fleet (fleet_of (body o) uid));
  let fid := _id fleet in
  '(webhook, secret) ← or_rollback (mkCreated (Some uid) (Some fid) None)
                         (register_webhook (webhook_of (body o) uid));
  or_rollback (mkCreated (Some uid) (Some fid) (Some (_id webhook))) (finish o owner fleet webhook secret).

Definition is_status (s : OnboardingStatus.t) (o : MerchantOnboarding) : bool := bool_decide (ob_status o = s).
Definition already_activating : error := AppError "This onboarding is already being activated." Http.CONFLICT.

Definition bindWallet (i : BindMerchantWalletBody) : onboard MerchantActivationResult :=
  found ← reads (λ w : OWorld, find_by_id (b_onboardingId i) (onboardings w));
  d ← or_throw found (AppError "Onboarding not found." Http.NOT_FOUND);
  let o := body d in
  _ ← throw_if (is_status OnboardingStatus.COMPLETED o)
        (AppError "This onboarding has already been completed." Http.CONFLICT);
  _ ← throw_if (is_status OnboardingStatus.ACTIVATING o) already_activating;
  _ ← throw_if (ONBOARDING_MAX_PROOF_ATTEMPTS <=? ob_failedProofAttempts o)%Z
        (AppError "Too many rejected wallet proofs. Start the onboarding again." 429);
  t ← onboard_now;
  _ ← throw_if (ob_expiresAt o <=? t)%Z
        (AppError "The wallet challenge has expired. Start the onboarding again." 410);
  if negb (verifyWalletSignature (ob_treasuryAddress o) (ob_message o) (b_signature i)) then
    _ ← atomic (update_onboarding (_id d) (λ _, true) (set ob_failedProofAttempts Z.succ));
    throw (AppError "Wallet ownership proof rejected: the signature does not match the treasury address."
             Http.UNAUTHORIZED)
  else
    claimed ← atomic (update_onboarding (_id d) (is_status OnboardingStatus.PENDING_WALLET)
                        (set ob_status (λ _, OnboardingStatus.ACTIVATING)));
    c ← or_throw claimed already_activating;
    try_catch (activate (Doc (_id d) c) (b_password i))
      (λ e, _ ← atomic (update_onboarding (_id d) (is_status OnboardingStatus.ACTIVATING)
                          (set ob_status (λ _, OnboardingStatus.PENDING_WALLET)));
            throw e).
End OnboardingService.

(** ** One step at a time *)
Section Steps.
Context `{Env} `{WebhookConfig} `{OnboardingConfig} `{MerchantNotifier} `{!MerchantNotifierOk}.
Implicit Types (w : OWorld).

Definition subs w : gmap string Subscription := subscriptions (o_hooks w).

(** The accounts, fleets and subscriptions are as they were, and so is the time. *)
Record same_docs w w' : Prop := {
  sd_users : users w' = users w;
  sd_fleets : fleets w' = fleets w;
  sd_subs : subs w' = subs w;
  sd_now : o_now w' = o_now w
}.
Definition quiet w w' : Prop := same_docs w w' ∧ onboardings w' = onboardings w.

#[export] Instance same_docs_preorder : PreOrder same_docs.
Proof. split; [by intros w|]. intros w1 w2 w3 [] []. split; by etrans. Qed.

Lemma user_clash_none u m :
  some (λ kv : string * User, user_clash u kv.2) (map_to_list m) = false ↔
  ∀ k u', m !! k = Some u' → user_clash u u' = false.
Proof.
  rewrite some_false. split; [|intros Hm [k u']; cbn; rewrite elem_of_map_to_list; apply Hm].
  intros Hm k u' Hk. by apply (Hm (k, u')), elem_of_map_to_list.
Qed.
Lemma fleet_clash_none f m :
  some (λ kv : string * Fleet, fleet_clash f kv.2) (map_to_list m) = false ↔
  ∀ k f', m !! k = Some f' → fleet_clash f f' = false.
Proof.
  rewrite some_false. split; [|intros Hm [k f']; cbn; rewrite elem_of_map_to_list; apply Hm].
  intros Hm k f' Hk. by apply (Hm (k, f')), elem_of_map_to_list.
Qed.

Definition stored_user (u : User) (password : string) : User :=
  mkUser (Str.toLowerCase (us_email u)) (bcrypt_hash password) (us_firstName u) (us_lastName u)
    (us_role u) (us_walletAddress u).

Lemma create_user_run u pw w :
  let r := run (create_user u pw) w in
  onboardings r.2 = onboardings w ∧ o_now r.2 = o_now w ∧ fleets r.2 = fleets w ∧ subs r.2 = subs w ∧
  match r.1 with
  | inl e => users r.2 = users w
  | inr d => body d = stored_user u pw ∧ users w !! _id d = None ∧
      users r.2 = <[_id d := stored_user u pw]> (users w) ∧
      ∀ k u', users w !! k = Some u' → user_clash (stored_user u pw) u' = false
  end.
Proof.
  unfold create_user, onboard_id. rewrite run_bind, run_atomic. cbn [fst snd].
  rewrite run_bind, run_throw_if. cbn [fst snd]. fold (stored_user u pw).
  destruct (user_valid _ _); cbn [negb fst snd]; [|by repeat split].
  rewrite run_atomic_try. set (w1 := w <| o_hooks ::= _ |>). change (users w1) with (users w).
  destruct (bool_decide _ || some _ _) eqn:Hc; cbn [fst snd]; [by repeat split|].
  apply orb_false_iff in Hc as [Hid%bool_decide_eq_false Hc].
  do 4 (split; [done|]). split; [done|]. split; [by apply eq_None_not_Some|]. split; [done|].
  by apply user_clash_none.
Qed.

Lemma create_fleet_run f w :
  let r := run (create_fleet f) w in
  onboardings r.2 = onboardings w ∧ o_now r.2 = o_now w ∧ users r.2 = users w ∧ subs r.2 = subs w ∧
  match r.1 with
  | inl e => fleets r.2 = fleets w
  | inr d => body d = with_owner f ∧ fleets w !! _id d = None ∧
      fleets r.2 = <[_id d := with_owner f]> (fleets w) ∧
      ∀ k f', fleets w !! k = Some f' → fleet_clash f f' = false
  end.
Proof.
  unfold create_fleet, onboard_id. rewrite run_bind, run_atomic. cbn [fst snd].
  rewrite run_bind, run_throw_if. cbn [fst snd].
  destruct (fleet_valid _); cbn [negb fst snd]; [|by repeat split].
  rewrite run_atomic_try. set (w1 := w <| o_hooks ::= _ |>). change (fleets w1) with (fleets w).
  destruct (bool_decide _ || some _ _) eqn:Hc; cbn [fst snd]; [by repeat split|].
  apply orb_false_iff in Hc as [Hid%bool_decide_eq_false Hc].
  do 4 (split; [done|]). split; [done|]. split; [by apply eq_None_not_Some|]. split; [done|].
  by apply fleet_clash_none.
Qed.

(** The subscription that is created. *)
Definition registered (i : RegisterWebhookInput) (secret : string) (t : Z) : Subscription :=
  mkSubscription (rw_merchantId i) (rw_url i) (Some secret) (rw_events i)
    (nullish (rw_allowBatch i) false) true (rw_description i) t.

Lemma registerWebhook_run i h :
  let r := run (registerWebhook i) h in
  h_now r.2 = h_now h ∧
  match r.1 with
  | inl e => subscriptions r.2 = subscriptions h
  | inr (d, secret) => body d = registered i secret (h_now h) ∧ subscriptions h !! _id d = None ∧
      subscriptions r.2 = <[_id d := registered i secret (h_now h)]> (subscriptions h)
  end.
Proof.
  unfold registerWebhook, assertValidObjectId, assertValidUrl.
  rewrite run_bind, run_throw_if. cbn [fst snd]. destruct (isValidObjectId _); cbn [negb]; [|done].
  rewrite run_bind, run_throw_if. cbn [fst snd]. destruct (valid_url _); cbn [negb]; [|done].
  rewrite run_bind, run_throw_if. cbn [fst snd]. case_bool_decide; [done|].
  unfold generateSecret. rewrite run_bind, run_atomic. cbn [fst snd].
  unfold create_subscription, hook_id. rewrite run_bind, run_bind, run_atomic. cbn [fst snd].
  rewrite run_atomic_try. set (h2 := set h_nextId S _). change (subscriptions h2) with (subscriptions h).
  by destruct (subscriptions h !! _) eqn:Hid.
Qed.

Lemma hooks_lens : lens_laws o_hooks (λ h w, w <| o_hooks := h |>).
Proof. split; [done|by intros []|done]. Qed.

Lemma register_webhook_run i w :
  let r := run (register_webhook i) w in
  onboardings r.2 = onboardings w ∧ o_now r.2 = o_now w ∧ users r.2 = users w ∧ fleets r.2 = fleets w ∧
  match r.1 with
  | inl e => subs r.2 = subs w
  | inr (d, secret) => body d = registered i secret (o_now w) ∧ subs w !! _id d = None ∧
      subs r.2 = <[_id d := registered i secret (o_now w)]> (subs w)
  end.
Proof.
  unfold register_webhook. rewrite (run_zoom _ _ _ _ hooks_lens). cbv zeta. cbn [fst snd].
  pose proof (registerWebhook_run i (o_hooks w)) as [Hn Hr]. cbv zeta in Hn, Hr.
  by destruct (run (registerWebhook i) (o_hooks w)) as [[e|[d s]] h].
Qed.

Lemma run_notify u f w : (run (notifyMerchantOnboarded u f) w).2 = w.
Proof. symmetry. apply (confined_run (=)), notify_confined. Qed.

(** Why activation can fail once its documents exist. *)
Definition late_failure (e : error) : Prop :=
  Str.truthy JWT_SECRET = false ∨ ∃ u f w, (run (notifyMerchantOnboarded u f) w).1 = inl e.

Lemma finish_run d owner fleet webhook secret w :
  onboardings w !! _id d = Some (body d) →
  let r := run (finish d owner fleet webhook secret) w in
  same_docs w r.2 ∧
  onboardings r.2 = <[_id d := completed_update (o_now w) (_id owner) (_id fleet) (_id webhook) (body d)]>
                      (onboardings w) ∧
  match r.1 with
  | inl e => late_failure e
  | inr res => ac_onboardingId res = _id d ∧ ac_user res = owner ∧ ac_fleet res = fleet ∧
               ac_webhook res = unselected webhook ∧ ac_secret res = secret
  end.
Proof.
  intros Ho. unfold finish, onboard_now. rewrite run_bind, run_reads. cbn [fst snd].
  rewrite run_bind, run_atomic. cbn [fst snd]. unfold update_onboarding. rewrite Ho. cbn [fst snd].
  set (w1 := w <| onboardings ::= _ |>). rewrite run_bind.
  pose proof (run_notify (_id owner) (_id fleet, fl_name (body fleet)) w1) as Hn.
  destruct (run (notifyMerchantOnboarded _ _) w1) as [[e|[]] w2] eqn:Hr; cbn [fst snd] in *; subst w2.
  { split; [done|]. split; [done|]. right. eexists _, _, _. by rewrite Hr. }
  unfold onboarding_audit. rewrite run_bind, run_try_catch, run_writes. cbn [fst snd].
  unfold generateToken. rewrite run_bind. destruct (Str.truthy JWT_SECRET) eqn:Hj; cbn [fst snd].
  - rewrite run_ret. cbn [fst snd]. rewrite run_ret. by repeat split.
  - rewrite run_throw. cbn [fst snd]. split; [done|]. split; [done|]. by left.
Qed.

(** *** Rolling back *)
Lemma rollback_run c w :
  let r := run (rollback c) w in
  r.1 = inr tt ∧ onboardings r.2 = onboardings w ∧ o_now r.2 = o_now w ∧
  users r.2 = (match userId_ c with Some u => delete u (users w) | None => users w end) ∧
  fleets r.2 = (match fleetId_ c with Some f => delete f (fleets w) | None => fleets w end) ∧
  subs r.2 = (match webhookId_ c with Some s => delete s (subs w) | None => subs w end).
Proof. destruct c as [[u|] [f|] [s|]]; by repeat split. Qed.

Lemma or_rollback_run {A} c (p : onboard A) w :
  run (or_rollback c p) w =
    match (run p w).1 with
    | inl e => (inl (if bool_decide (e = DuplicateKey) then claimed_by_another else e),
                (run (rollback c) (run p w).2).2)
    | inr a => (inr a, (run p w).2)
    end.
Proof.
  unfold or_rollback. rewrite run_try_catch. destruct (run p w) as [[e|a] w1]; cbn [fst snd]; [|done].
  rewrite run_bind. destruct (rollback_run c w1) as (-> & _). by rewrite run_throw.
Qed.
End Steps.

(** ** Activation and binding *)
Section Binding.
Context `{Env} `{WebhookConfig} `{OnboardingConfig} `{MerchantNotifier} `{!MerchantNotifierOk}.
Implicit Types (w : OWorld) (o : MerchantOnboarding).

(** A merchant was created: one account, one fleet and one subscription, each
    under a new id, the account and the fleet clashing with none there was. *)
Record new_merchant o (password : string) (uid fid hid secret : string) w w' : Prop := {
  nm_now : o_now w' = o_now w;
  nm_user_new : users w !! uid = None;
  nm_users : users w' = <[uid := stored_user (owner_of o) password]> (users w);
  nm_fleet_new : fleets w !! fid = None;
  nm_fleets : fleets w' = <[fid := with_owner (fleet_of o uid)]> (fleets w);
  nm_sub_new : subs w !! hid = None;
  nm_subs : subs w' = <[hid := registered (webhook_of o uid) secret (o_now w)]> (subs w);
  nm_user_free k u : users w !! k = Some u → user_clash (stored_user (owner_of o) password) u = false;
  nm_fleet_free k f : fleets w !! k = Some f → fl_treasuryAddress f ≠ ob_treasuryAddress o
}.

Definition same_world w w' : Prop := same_docs w w' ∧ onboardings w' = onboardings w.

Definition linked (t : Z) (uid fid hid : string) id o w w' : Prop :=
  onboardings w' = <[id := completed_update t uid fid hid o]> (onboardings w).

Definition activation id o (password : string) w (r : error + MerchantActivationResult) w' : Prop :=
  match r with
  | inl e => same_docs w w' ∧
      (onboardings w' = onboardings w ∨
       ∃ e' uid fid hid, late_failure e' ∧ e = (if bool_decide (e' = DuplicateKey) then claimed_by_another else e') ∧
         linked (o_now w) uid fid hid id o w w')
  | inr res => ∃ uid fid hid secret,
      new_merchant o password uid fid hid secret w w' ∧ linked (o_now w) uid fid hid id o w w' ∧
      ac_user res = Doc uid (stored_user (owner_of o) password) ∧
      ac_fleet res = Doc fid (with_owner (fleet_of o uid)) ∧
      _id (ac_webhook res) = hid ∧ s_secret (body (ac_webhook res)) = None ∧ ac_secret res = secret
  end.

Lemma assertNoCollision_run email treasury w :
  (run (assertNoCollision email treasury) w).2 = w ∧
  match (run (assertNoCollision email treasury) w).1 with
  | inl e => error_status e = Some Http.CONFLICT
  | inr _ => True
  end.
Proof.
  unfold assertNoCollision. repeat (rewrite run_bind, run_reads; cbn [fst snd]).
  rewrite run_bind, run_throw_if. cbn [fst snd]. case_bool_decide; [done|].
  rewrite run_throw_if. by destruct (_ || _).
Qed.

(** The documents created so far are deleted again. *)
Lemma rolled_back c w w1 :
  users w1 = users w ∨ (∃ k u, userId_ c = Some k ∧ users w !! k = None ∧ users w1 = <[k := u]> (users w)) →
  fleets w1 = fleets w ∧ fleetId_ c = None ∨
    (∃ k f, fleetId_ c = Some k ∧ fleets w !! k = None ∧ fleets w1 = <[k := f]> (fleets w)) →
  subs w1 = subs w ∧ webhookId_ c = None ∨
    (∃ k s, webhookId_ c = Some k ∧ subs w !! k = None ∧ subs w1 = <[k := s]> (subs w)) →
  (userId_ c = None → users w1 = users w) → (∀ k, userId_ c = Some k → users w !! k = None) →
  o_now w1 = o_now w →
  same_docs w (run (rollback c) w1).2 ∧ onboardings (run (rollback c) w1).2 = onboardings w1.
Proof.
  intros Hu Hf Hs Hu' Huk Hn. destruct (rollback_run c w1) as (_ & R1 & R2 & R3 & R4 & R5).
  split; [|done]. split; [| | |by rewrite R2].
  - rewrite R3. destruct (userId_ c) as [k|]; [|by apply Hu'].
    destruct Hu as [->|(k' & u & [= <-] & Hk & ->)]; [apply delete_id; by apply Huk|].
    by rewrite delete_insert_id.
  - rewrite R4. destruct Hf as [[-> ->]|(k & f & -> & Hk & ->)]; [done|by rewrite delete_insert_id].
  - rewrite R5. destruct Hs as [[-> ->]|(k & s & -> & Hk & ->)]; [done|by rewrite delete_insert_id].
Qed.

Lemma with_owner_treasury f : fl_treasuryAddress (with_owner f) = fl_treasuryAddress f.
Proof. unfold with_owner. by case_match. Qed.

Lemma activate_run id o password w :
  onboardings w !! id = Some o →
  let r := run (activate (Doc id o) password) w in activation id o password w r.1 r.2.
Proof.
  intros Ho. unfold activate. cbv zeta. cbn [body]. rewrite run_bind.
  destruct (assertNoCollision_run (c_email (ob_contact o)) (ob_treasuryAddress o) w) as [Hw Hc].
  destruct (run (assertNoCollision _ _) w) as [[e|[]] w']; cbn [fst snd] in *; subst w'.
  { split; [done|by left]. }
  rewrite run_bind, or_rollback_run.
  pose proof (create_user_run (owner_of o) password w) as (U1 & U2 & U3 & U4 & U5). cbv zeta in *.
  destruct (run (create_user _ _) w) as [[e|owner] w1]; cbn [fst snd] in *.
  { destruct (rolled_back (mkCreated None None None) w w1) as [D1 D2]; try (cbn; done); [by left..|].
    split; [done|left; by rewrite D2]. }
  destruct U5 as (Ub & Uid & Us & Uf). rewrite run_bind, or_rollback_run.
  pose proof (create_fleet_run (fleet_of o (_id owner)) w1) as (F1 & F2 & F3 & F4 & F5). cbv zeta in *.
  destruct (run (create_fleet _) w1) as [[e|fleet] w2]; cbn [fst snd] in *.
  { destruct (rolled_back (mkCreated (Some (_id owner)) None None) w w2) as [D1 D2]; try (cbn; done).
    - right. eexists _, _. split; [done|]. split; [done|]. by rewrite F3.
    - left. by rewrite F5.
    - left. by rewrite F4.
    - cbn. by intros k [= <-].
    - by rewrite F2.
    - split; [done|left; by rewrite D2, F1]. }
  destruct F5 as (Fb & Fid & Fs & Ff). rewrite run_bind, or_rollback_run.
  pose proof (register_webhook_run (webhook_of o (_id owner)) w2) as (S1 & S2 & S3 & S4 & S5). cbv zeta in *.
  destruct (run (register_webhook _) w2) as [[e|[hook secret]] w3]; cbn [fst snd] in *.
  { destruct (rolled_back (mkCreated (Some (_id owner)) (Some (_id fleet)) None) w w3) as [D1 D2]; try (cbn; done).
    - right. eexists _, _. split; [done|]. split; [done|]. by rewrite S3, F3.
    - right. eexists _, _. split; [done|]. split; [by rewrite <-U3|]. by rewrite S4, Fs, U3.
    - left. by rewrite S5, F4.
    - cbn. by intros k [= <-].
    - by rewrite S2, F2.
    - split; [done|left; by rewrite D2, S1, F1]. }
  destruct S5 as (Sb & Sid & Ss). rewrite or_rollback_run.
  assert (o_now w3 = o_now w) as Hn3 by (by rewrite S2, F2). assert (o_now w2 = o_now w) as Hn2 by (by rewrite F2).
  pose proof (finish_run (Doc id o) owner fleet hook secret w3) as (E1 & E2 & E3).
  { cbn. by rewrite S1, F1, U1. }
  cbv zeta in *. destruct (run (finish _ _ _ _ _) w3) as [[e|res] w4]; cbn [fst snd body _id] in *.
  { destruct (rolled_back (mkCreated (Some (_id owner)) (Some (_id fleet)) (Some (_id hook))) w w4)
      as [D1 D2]; try (cbn; done).
    - right. eexists _, _. split; [done|]. split; [done|]. by rewrite (sd_users _ _ E1), S3, F3.
    - right. eexists _, _. split; [done|]. split; [by rewrite <-U3|]. by rewrite (sd_fleets _ _ E1), S4, Fs, U3.
    - right. eexists _, _. split; [done|]. split; [by rewrite <-U4, <-F4|]. by rewrite (sd_subs _ _ E1), Ss, F4, U4.
    - cbn. by intros k [= <-].
    - by rewrite (sd_now _ _ E1).
    - split; [done|]. right. eexists e, _, _, _. split; [done|]. split; [done|]. unfold linked.
      by rewrite D2, E2, S1, F1, U1, Hn3. }
  exists (_id owner), (_id fleet), (_id hook), secret. destruct E3 as (R1 & R2 & R3 & R4 & R5).
  rewrite R2, R3, R4. split; [|split; [|by destruct owner, fleet; cbn in Ub, Fb; subst; repeat split]].
  - split.
    + by rewrite (sd_now _ _ E1).
    + done.
    + by rewrite (sd_users _ _ E1), S3, F3.
    + by rewrite <-U3.
    + by rewrite (sd_fleets _ _ E1), S4, Fs, U3.
    + by rewrite <-U4, <-F4.
    + by rewrite (sd_subs _ _ E1), Ss, F4, U4, Hn2.
    + done.
    + intros k f Hk Heq. rewrite <-U3 in Hk. specialize (Ff k f Hk). unfold fleet_clash in Ff.
      apply String.eqb_neq in Ff. by apply Ff.
  - unfold linked. by rewrite E2, S1, F1, U1, Hn3.
Qed.

(** *** Binding a wallet *)
Definition claim_of o : MerchantOnboarding := o <| ob_status := OnboardingStatus.ACTIVATING |>.
Lemma claim_fields o :
  ob_contact (claim_of o) = ob_contact o ∧ owner_of (claim_of o) = owner_of o ∧
  (∀ u, fleet_of (claim_of o) u = fleet_of o u) ∧ (∀ u, webhook_of (claim_of o) u = webhook_of o u) ∧
  ob_treasuryAddress (claim_of o) = ob_treasuryAddress o ∧
  (∀ t u f h, completed_update t u f h (claim_of o) = completed_update t u f h o) ∧
  (ob_status o = OnboardingStatus.PENDING_WALLET →
   claim_of o <| ob_status := OnboardingStatus.PENDING_WALLET |> = o).
Proof. destruct o. do 6 (split; [reflexivity|]). cbn [ob_status]. by intros ->. Qed.

Lemma update_status_run id s s' (w : OWorld) :
  run (atomic (update_onboarding id (is_status s) (set ob_status (λ _, s')))) w =
    match onboardings w !! id with
    | Some o => if is_status s o
                then (inr (Some (o <| ob_status := s' |>)), w <| onboardings ::= <[id := o <| ob_status := s' |>]> |>)
                else (inr None, w)
    | None => (inr None, w)
    end.
Proof.
  rewrite run_atomic. unfold update_onboarding. destruct (onboardings w !! id) as [o|]; [|done].
  by destruct (is_status s o).
Qed.

Definition bindable (i : BindMerchantWalletBody) o w : Prop :=
  ob_status o = OnboardingStatus.PENDING_WALLET ∧
  (ob_failedProofAttempts o < ONBOARDING_MAX_PROOF_ATTEMPTS)%Z ∧ (o_now w < ob_expiresAt o)%Z ∧
  verifyWalletSignature (ob_treasuryAddress o) (ob_message o) (b_signature i) = true.

Definition bound (i : BindMerchantWalletBody) w (r : error + MerchantActivationResult) w' : Prop :=
  let id := b_onboardingId i in
  match r with
  | inl e => same_docs w w' ∧
      (onboardings w' = onboardings w ∨
       (∃ o, onboardings w !! id = Some o ∧ error_status e = Some Http.UNAUTHORIZED ∧
          verifyWalletSignature (ob_treasuryAddress o) (ob_message o) (b_signature i) = false ∧
          onboardings w' = <[id := o <| ob_failedProofAttempts ::= Z.succ |>]> (onboardings w)) ∨
       (∃ o e' uid fid hid, onboardings w !! id = Some o ∧ bindable i o w ∧ late_failure e' ∧
          e = (if bool_decide (e' = DuplicateKey) then claimed_by_another else e') ∧
          linked (o_now w) uid fid hid id o w w'))
  | inr res => ∃ o uid fid hid secret,
      onboardings w !! id = Some o ∧ bindable i o w ∧ new_merchant o (b_password i) uid fid hid secret w w' ∧
      linked (o_now w) uid fid hid id o w w' ∧ ac_user res = Doc uid (stored_user (owner_of o) (b_password i)) ∧
      ac_fleet res = Doc fid (with_owner (fleet_of o uid)) ∧
      _id (ac_webhook res) = hid ∧ s_secret (body (ac_webhook res)) = None ∧ ac_secret res = secret
  end.

(** The claim, the activation and the release of the claim. *)
Lemma claimed_run i o w :
  onboardings w !! b_onboardingId i = Some o → bindable i o w →
  let r := run (claimed ← atomic (update_onboarding (b_onboardingId i) (is_status OnboardingStatus.PENDING_WALLET)
                        (set ob_status (λ _, OnboardingStatus.ACTIVATING)));
    c ← or_throw claimed already_activating;
    try_catch (activate (Doc (b_onboardingId i) c) (b_password i))
      (λ e, _ ← atomic (update_onboarding (b_onboardingId i) (is_status OnboardingStatus.ACTIVATING)
                          (set ob_status (λ _, OnboardingStatus.PENDING_WALLET)));
            throw e)) w in
  bound i w r.1 r.2.
Proof.
  intros Ho Hb. set (id := b_onboardingId i) in *. destruct (claim_fields o) as (_ & C1 & C2 & C3 & C4 & C5 & C6).
  pose proof (proj1 Hb) as Hst. cbv zeta. rewrite run_bind, update_status_run, Ho.
  assert (is_status OnboardingStatus.PENDING_WALLET o = true) as -> by by apply bool_decide_eq_true.
  cbn [fst snd]. fold (claim_of o).
  rewrite run_bind, run_or_throw. cbn [fst snd]. set (w1 := w <| onboardings ::= <[id := claim_of o]> |>).
  assert (same_docs w w1) as Hw1 by done.
  assert (onboardings w1 = <[id := claim_of o]> (onboardings w)) as Hon1 by reflexivity. clearbody w1.
  rewrite run_try_catch.
  pose proof (activate_run id (claim_of o) (b_password i) w1) as Ha. cbv zeta in Ha.
  rewrite Hon1, lookup_insert_eq in Ha. specialize (Ha eq_refl).
  destruct (run (activate _ _) w1) as [[e|res] w2]; cbn [fst snd activation] in *.
  - destruct Ha as [Hd Hor]. rewrite run_bind, update_status_run.
    destruct Hor as [Hon|(e' & uid & fid & hid & Hl & He & Hon)].
    + rewrite Hon, Hon1, lookup_insert_eq. unfold is_status. rewrite bool_decide_eq_true_2 by done.
      rewrite C6 by done. cbn [fst snd]. rewrite run_throw. cbn [fst snd]. split.
      { etrans; [exact Hw1|]. destruct Hd. by split. }
      left. cbn. change (<[id := o]> (onboardings w2) = onboardings w).
      rewrite Hon, Hon1, insert_insert_eq. by apply insert_id.
    + unfold linked in Hon. rewrite C5 in Hon. rewrite Hon, lookup_insert_eq. unfold is_status.
      rewrite bool_decide_eq_false_2 by done. cbn [fst snd]. rewrite run_throw. cbn [fst snd].
      split; [by etrans|]. right; right. exists o, e', uid, fid, hid. do 4 (split; [done|]).
      unfold linked. by rewrite Hon, Hon1, insert_insert_eq, (sd_now _ _ Hw1).
  - destruct Ha as (uid & fid & hid & secret & [] & Hl & R1 & R2 & R3 & R4 & R5).
    destruct Hw1 as [W1 W2 W3 W4]. exists o, uid, fid, hid, secret. do 2 (split; [done|]).
    unfold linked in *. rewrite C5, Hon1, insert_insert_eq, W4 in Hl. split; [|by repeat split].
    rewrite C1, ?C2, ?C3, ?C4 in *. split; rewrite <-?W1, <-?W2, <-?W3, <-?W4; try done.
Qed.

Lemma bindWallet_bound i w r w' : run (bindWallet i) w = (r, w') → bound i w r w'.
Proof.
  unfold bindWallet. rewrite run_bind, run_reads. cbn [fst snd]. rewrite run_bind, run_or_throw.
  unfold find_by_id. destruct (onboardings w !! b_onboardingId i) as [o|] eqn:Ho;
    cbn [fmap option_fmap option_map fst snd body _id].
  2: { intros [= <- <-]. split; [done|by left]. }
  rewrite run_bind, run_throw_if. cbn [fst snd]. unfold is_status at 1.
  case_bool_decide as Hs1; [intros [= <- <-]; split; [done|by left]|].
  rewrite run_bind, run_throw_if. cbn [fst snd]. unfold is_status at 1.
  case_bool_decide as Hs2; [intros [= <- <-]; split; [done|by left]|].
  rewrite run_bind, run_throw_if. cbn [fst snd].
  destruct (Z.leb_spec ONBOARDING_MAX_PROOF_ATTEMPTS (ob_failedProofAttempts o)) as [|Hmax];
    [intros [= <- <-]; split; [done|by left]|].
  unfold onboard_now. rewrite run_bind, run_reads. cbn [fst snd]. rewrite run_bind, run_throw_if. cbn [fst snd].
  destruct (Z.leb_spec (ob_expiresAt o) (o_now w)) as [|Hexp]; [intros [= <- <-]; split; [done|by left]|].
  destruct (verifyWalletSignature _ _ _) eqn:Hv; cbn [negb].
  - intros Hr. pose proof (claimed_run i o w Ho) as Hc. cbv zeta in Hc. rewrite Hr in Hc. apply Hc.
    split; [|done]. by destruct (ob_status o).
  - rewrite run_bind, run_atomic. cbn [fst snd]. unfold update_onboarding. rewrite Ho. cbn [snd].
    rewrite run_throw. intros [= <- <-]. split; [done|]. right; left. by exists o.
Qed.
(** Binding a wallet is all or nothing. It succeeds only for a pending
    onboarding that is neither locked nor expired and whose signature verifies,
    and then has created exactly one account, one fleet and one subscription,
    under new ids and clashing with none there was, and has completed the
    onboarding with their ids. When it fails, accounts, fleets and subscriptions
    are as before, and so is the onboarding, except that a rejected proof is
    counted, and that a failure of the steps after the completion (the
    notification, the token) leaves it completed with the ids of documents that
    were deleted. *)
Theorem bindWallet_correct i w r w' : run (bindWallet i) w = (r, w') → bound i w r w'.
Proof. apply bindWallet_bound. Qed.
End Binding.

(** ** Refinement of a registry of merchants *)
Section Registry.
Context `{Env} `{WebhookConfig} `{OnboardingConfig} `{MerchantNotifier} `{!MerchantNotifierOk}.
Implicit Types (w : OWorld).

(** The specification: merchants by treasury, each with the owner's e-mail; one
    joins at a time, with a treasury and an e-mail nobody has. *)
Abbreviation registry := (gmap string string).
Inductive spec_step : registry → option (string * string) → registry → Prop :=
  | spec_nothing m : spec_step m None m
  | spec_join m treasury email :
      m !! treasury = None → (∀ t, m !! t ≠ Some email) →
      spec_step m (Some (treasury, email)) (<[treasury := email]> m).
Inductive spec_trace : registry → list (option (string * string)) → registry → Prop :=
  | trace_nil m : spec_trace m [] m
  | trace_cons m1 a m2 l m3 : spec_step m1 a m2 → spec_trace m2 l m3 → spec_trace m1 (a :: l) m3.

(** The implementation: three documents that refer to each other. *)
Definition merchant w (treasury email : string) : Prop :=
  ∃ uid u fid f hid s,
    users w !! uid = Some u ∧ us_email u = email ∧ us_walletAddress u = Some treasury ∧
    fleets w !! fid = Some f ∧ fl_treasuryAddress f = treasury ∧ fl_ownerId f = uid ∧
    subs w !! hid = Some s ∧ s_merchantId s = uid.
Definition refines w (m : registry) : Prop := ∀ t e, m !! t = Some e ↔ merchant w t e.

Lemma same_docs_refines w w' m : same_docs w w' → refines w m → refines w' m.
Proof. intros [S1 S2 S3 _] Hm t e. unfold merchant. rewrite S1, S2, S3. apply Hm. Qed.

Lemma with_owner_owner f : fl_ownerId (with_owner f) = fl_ownerId f.
Proof. unfold with_owner. by case_match. Qed.

Lemma new_merchant_is o password uid fid hid secret w w' :
  new_merchant o password uid fid hid secret w w' →
  merchant w' (ob_treasuryAddress o) (Str.toLowerCase (c_email (ob_contact o))).
Proof.
  intros []. eexists uid, _, fid, _, hid, _. rewrite nm_users0, nm_fleets0, nm_subs0, !lookup_insert_eq.
  rewrite with_owner_owner, with_owner_treasury. by repeat split.
Qed.

(** The merchants there were are kept, and the new treasury has one merchant. *)
Lemma new_merchant_iff o password uid fid hid secret w w' t e :
  new_merchant o password uid fid hid secret w w' →
  merchant w' t e ↔
    merchant w t e ∨ (t = ob_treasuryAddress o ∧ e = Str.toLowerCase (c_email (ob_contact o))).
Proof.
  intros Hn. split; [|intros [Hm|[-> ->]]; [|by eapply new_merchant_is]].
  - intros (uid' & u & fid' & f & hid' & s & Hu & <- & Hw & Hf & Ht & Hfo & Hs & Hso). destruct Hn.
    rewrite nm_users0 in Hu. rewrite nm_fleets0 in Hf. rewrite nm_subs0 in Hs.
    apply lookup_insert_Some in Hf as [[<- <-]|[_ Hf]].
    + right. rewrite with_owner_treasury in Ht. rewrite with_owner_owner in Hfo. cbn in Ht, Hfo. subst.
      rewrite lookup_insert_eq in Hu. injection Hu as <-. done.
    + apply lookup_insert_Some in Hu as [[<- <-]|[Hne Hu]].
      { exfalso. injection Hw as Hw. apply (nm_fleet_free0 _ _ Hf). by rewrite Ht, <-Hw. }
      apply lookup_insert_Some in Hs as [[_ <-]|[_ Hs]]; [by destruct Hne|].
      left. by exists uid', u, fid', f, hid', s.
  - destruct Hm as (uid' & u & fid' & f & hid' & s & Hu & He & Hw & Hf & Ht & Hfo & Hs & Hso). destruct Hn.
    exists uid', u, fid', f, hid', s. rewrite nm_users0, nm_fleets0, nm_subs0.
    rewrite !lookup_insert_ne; [done|by intros ->; simplify_eq..].
Qed.

Lemma join_refines o password uid fid hid secret w w' m :
  new_merchant o password uid fid hid secret w w' → refines w m →
  let t := ob_treasuryAddress o in let e := Str.toLowerCase (c_email (ob_contact o)) in
  spec_step m (Some (t, e)) (<[t := e]> m) ∧ refines w' (<[t := e]> m).
Proof.
  intros Hn Hm t e. assert (∀ e', ¬ merchant w t e') as Hfree.
  { intros e' (uid' & u & fid' & f & hid' & s & _ & _ & _ & Hf & Ht & _).
    by apply (nm_fleet_free _ _ _ _ _ _ _ _ Hn _ _ Hf). }
  assert (m !! t = None) as Ht.
  { destruct (m !! t) as [e'|] eqn:Hmt; [|done]. apply Hm in Hmt. by destruct (Hfree e'). }
  split.
  - constructor; [done|]. intros t' Hmt. apply Hm in Hmt as (uid' & u & fid' & f & hid' & s & Hu & He & _).
    pose proof (nm_user_free _ _ _ _ _ _ _ _ Hn _ _ Hu) as Hc. unfold user_clash in Hc.
    apply orb_false_iff in Hc as [Hc%String.eqb_neq _]. apply Hc. by rewrite He.
  - intros t' e'. assert (m !! t' = Some e' ↔ merchant w t' e') as Hi by apply Hm.
    rewrite (new_merchant_iff o password uid fid hid secret w w' t' e' Hn), <-Hi, lookup_insert_Some.
    split; [intros [[<- <-]|[_ ?]]; [by right|by left]|].
    intros [Hmt|[-> ->]]; [|by left]. right. split; [|done]. intros <-. by rewrite Ht in Hmt.
Qed.

Lemma registerIntent_docs i w : same_docs w (run (registerIntent i) w).2.
Proof.
  unfold registerIntent. rewrite run_bind.
  destruct (assertNoCollision_run (c_email (rm_contact i)) (rm_treasuryAddress i) w) as [Hw _].
  destruct (run (assertNoCollision _ _) w) as [[e|[]] w1]; cbn [fst snd] in *; subst w1; [done|].
  unfold onboard_id, onboard_now. rewrite run_bind, run_atomic. cbn [fst snd].
  rewrite run_bind, run_reads. cbn [fst snd]. rewrite run_bind, run_atomic. cbn [fst snd].
  rewrite run_bind, run_atomic_try. set (w3 := w <| o_hooks ::= _ |> <| o_hooks ::= _ |>).
  assert (same_docs w w3) as Hw3 by done. clearbody w3.
  destruct (onboardings w3 !! _); cbn [fst snd]; [done|]. rewrite run_ret. cbn [snd]. destruct Hw3. by split.
Qed.

(** Operations, and what a run of them announces: who joined. *)
Inductive onboarding_op :=
  | do_register (i : RegisterMerchantBody)
  | do_bind (i : BindMerchantWalletBody)
  | do_wait (ms : Z).
Definition joined (r : error + MerchantActivationResult) : option (string * string) :=
  match r with
  | inr res => Some (fl_treasuryAddress (body (ac_fleet res)), us_email (body (ac_user res)))
  | inl _ => None
  end.
Definition run_onboarding (o : onboarding_op) w : option (string * string) * OWorld :=
  match o with
  | do_register i => (None, (run (registerIntent i) w).2)
  | do_bind i => (joined (run (bindWallet i) w).1, (run (bindWallet i) w).2)
  | do_wait ms => (None, w <| o_hooks ::= set h_now (Z.add (Z.abs ms)) |>)
  end.
Fixpoint run_onboardings (os : list onboarding_op) w : list (option (string * string)) * OWorld :=
  match os with
  | [] => ([], w)
  | o :: os => let '(a, w1) := run_onboarding o w in
               let '(l, w2) := run_onboardings os w1 in (a :: l, w2)
  end.

Lemma onboarding_simulation o w m :
  refines w m →
  ∃ m', spec_step m (run_onboarding o w).1 m' ∧ refines (run_onboarding o w).2 m'.
Proof.
  intros Hm. destruct o as [i|i|ms]; cbn [run_onboarding fst snd].
  - exists m. split; [constructor|]. eapply same_docs_refines; [apply registerIntent_docs|done].
  - destruct (run (bindWallet i) w) as [r w'] eqn:Hr. pose proof (bindWallet_bound i w r w' Hr) as Hb.
    destruct r as [e|res]; cbn [bound joined fst snd] in *.
    + exists m. split; [constructor|]. by eapply same_docs_refines; [apply Hb|].
    + destruct Hb as (o & uid & fid & hid & secret & _ & _ & Hn & _ & Hu & Hf & _).
      destruct (join_refines _ _ _ _ _ _ w w' m Hn Hm) as [J1 J2]. rewrite Hu, Hf. cbn [body].
      rewrite with_owner_treasury. by eexists.
  - exists m. split; [constructor|]. intros t e. apply Hm.
Qed.

(** C11: onboarding refines the registry: run from a world whose merchants are
    those of a registry, any sequence of registrations, wallet bindings (failing
    ones included) and waits is a trace of the registry, in which a merchant
    joins exactly when a binding succeeds and no treasury or e-mail joins twice,
    and ends in a world whose merchants are those of the registry it reaches. *)
Theorem onboarding_refines os w m :
  refines w m →
  ∃ m', spec_trace m (run_onboardings os w).1 m' ∧ refines (run_onboardings os w).2 m'.
Proof.
  revert w m. induction os as [|o os IH]; intros w m Hm; cbn [run_onboardings].
  { exists m. by split; [constructor|]. }
  destruct (onboarding_simulation o w m Hm) as (m1 & Hs & Hm1).
  destruct (run_onboarding o w) as [a w1]. cbn [fst snd] in *.
  destruct (IH w1 m1 Hm1) as (m2 & Ht & Hm2).
  destruct (run_onboardings os w1) as [l w2]. cbn [fst snd] in *.
  exists m2. split; [by econstructor|done].
Qed.
End Registry.

(** ** Witnesses *)
Section OnboardingWitnesses.
Import ExampleEnv.

Let owallet : string := "G" +:+ Str.of_chars (replicate 55 "A"%char).
(** 86 characters of base64: 64 bytes of zeros. *)
Let zeros : string := Str.of_chars (replicate 86 "A"%char).

#[local] Program Instance example_hooks : WebhookConfig := {|
  WEBHOOK_MAX_RETRIES := 5;
  WEBHOOK_RETRY_BASE_MS := 30000;
  WEBHOOK_RETRY_MAX_MS := 3600000;
  WEBHOOK_RETRY_BATCH_SIZE := 50;
  production := true;
  webhookBatching := true;
  hmac_sha256_hex k t := "mac";
  random_hex n := "secret" +:+ pretty n;
  random _ := NumParse.of_string "0.5";
  url_protocol u := if Str.startsWith u "https://" then Some "https:" else None;
  axios_post f n p := if f 200%Z then inr 200%Z else inl (mkPostError None "refused")
|}.
Next Obligation. intros f n p s. cbn. destruct (f 200%Z) eqn:Hf; [|done]. by intros [= <-]. Qed.
Next Obligation. done. Qed.
Next Obligation. done. Qed.

(** A verifier that accepts the SEP-53 hash of a message. *)
#[local] Instance example_onboarding : OnboardingConfig := {|
  ONBOARDING_CHALLENGE_TTL_SECONDS := 900;
  ONBOARDING_MAX_PROOF_ATTEMPTS := 5;
  JWT_SECRET := "jwt";
  jwt_sign u r s := u +:+ ":" +:+ r;
  bcrypt_hash p := "hash:" +:+ p;
  random_nonce n := "nonce" +:+ pretty n;
  sha256 s := "sha";
  Key := string;
  fromPublicKey s := if user_wallet_ok s then Some s else None;
  verify k p s := Some (String.eqb p "sha")
|}.
#[local] Instance example_notifier : MerchantNotifier := {| notifyMerchantOnboarded _ _ := mret tt |}.
#[local] Instance example_notifier_ok : MerchantNotifierOk.
Proof. by split. Qed.

Let intent (email : string) : RegisterMerchantBody :=
  mkRegisterMerchant "Acme" owallet (mkMetadata "Acme Ltd" "office@acme.example" [])
    (mkContact "Ada" "Lovelace" email None) "https://acme.example/hook".
Let start : OWorld := mkOWorld (fresh_hooks 1700000000000) ∅ ∅ ∅ [].
Let registered1 : OWorld := (run_onboardings [do_register (intent "Ada@Acme.example")] start).2.
Let bind1 : BindMerchantWalletBody := mkBind (newObjectId 0) zeros "correct horse".

Lemma bindWallet_correct_witness :
  ∃ res w' uid, run (bindWallet bind1) registered1 = (inr res, w') ∧
    (∃ u, users w' = {[uid := u]} ∧ us_email u = "ada@acme.example") ∧ size (fleets w') = 1%nat ∧ size (subs w') = 1%nat.
Proof.
  destruct (run (bindWallet bind1) registered1) as [r w'] eqn:Hr.
  pose proof (bindWallet_correct bind1 registered1 r w' Hr) as Hb.
  destruct r as [e|res].
  { exfalso. apply (f_equal (λ x, if x.1 is inl _ then true else false)) in Hr.
    vm_compute in Hr. discriminate Hr. }
  destruct Hb as (o & uid & fid & hid & secret & Ho & _ & [] & _).
  exists res, w', uid. split; [reflexivity|].
  assert (users registered1 = ∅) as E1 by (vm_compute; reflexivity).
  assert (fleets registered1 = ∅) as E2 by (vm_compute; reflexivity).
  assert (subs registered1 = ∅) as E3 by (vm_compute; reflexivity).
  rewrite E1 in nm_users0. rewrite E2 in nm_fleets0. rewrite E3 in nm_subs0. rewrite nm_users0, nm_fleets0, nm_subs0.
  split; [|split; (rewrite map_size_insert_None by apply lookup_empty); by rewrite map_size_empty].
  eexists. split; [reflexivity|]. vm_compute in Ho. injection Ho as <-. reflexivity.
Defined.

(** Two intents of one wallet: the first binding joins, the second is refused. *)
Lemma onboarding_refines_witness :
  let os := [do_register (intent "ada@acme.example"); do_register (intent "eve@evil.example");
             do_wait 1000; do_bind bind1; do_bind (mkBind (newObjectId 1) zeros "correct horse")] in
  ∃ m', spec_trace ∅ (run_onboardings os start).1 m' ∧ refines (run_onboardings os start).2 m' ∧
    (run_onboardings os start).1 = [None; None; None; Some (owallet, "ada@acme.example"); None].
Proof.
  intros os. destruct (onboarding_refines os start ∅) as (m' & Ht & Hm).
  - intros t e. split; [by rewrite lookup_empty|]. intros (uid & u & _ & _ & _ & _ & Hu & _).
    change (users start) with (∅ : gmap string User) in Hu. by rewrite lookup_empty in Hu.
  - exists m'. split; [exact Ht|]. split; [exact Hm|]. vm_compute. reflexivity.
Defined.

(** A notifier that fails, as the dispatch does when its record cannot be
    stored: the merchant's documents are gone, the onboarding is completed, and
    no later binding can succeed. *)
Example late_failure_example :
  let failing := {| notifyMerchantOnboarded _ _ := throw (PlainError "write failed") |} : MerchantNotifier in
  let '(r, w') := run (bindWallet (H2 := failing) bind1) registered1 in
  r = inl (PlainError "write failed") ∧ users w' = ∅ ∧ fleets w' = ∅ ∧ subs w' = ∅ ∧
  (run (bindWallet bind1) w').1 = inl (AppError "This onboarding has already been completed." Http.CONFLICT).
Proof. vm_compute. repeat split. Qed.

(** A first name of 51 characters is accepted with the intent, and then no
    activation succeeds. *)
Example long_name_example :
  let i := mkRegisterMerchant "Acme" owallet (mkMetadata "Acme Ltd" "office@acme.example" [])
             (mkContact (Str.of_chars (replicate 51 "A"%char)) "Lovelace" "ada@acme.example" None)
             "https://acme.example/hook" in
  (run (bindWallet bind1) (run (registerIntent i) start).2).1 = inl (PlainError "User validation failed").
Proof. vm_compute. reflexivity. Qed.
End OnboardingWitnesses.
