(* ===== verification/DriverLocations.v ===== *)
(** * Driver positions ([src/src/models/DriverLocation.ts],
    [src/src/services/driverLocationService.ts])

    One document per driver with the current position, its upsert on every
    report, and the proximity search.  The spherical distance the database
    computes is a parameter; the search is its filter, its order and its limit.
    The index reports ([explainProximityQuery], [ensureIndexes]) and the removal
    of stale documents by the database are not modelled. *)
From S2P Require Import Prelude JsLib Models.
From Stdlib Require Import SpecFloat.

Module DriverStatus.
Inductive t := online | offline | on_delivery.
#[global] Instance eq_dec : EqDecision t.
Proof. solve_decision. Defined.
End DriverStatus.

(** A GeoJSON point: longitude first. *)
Record GeoPoint := mkPoint { p_lng : number; p_lat : number }.

Record DriverLocation := mkDriverLocation {
  location : GeoPoint;
  isAvailable : bool;
  dl_status : DriverStatus.t;
  heading : option number;
  speed : option number;
  accuracy : option number;
  currentDeliveryId : option string;
  dl_recordedAt : Z;
  dl_expiresAt : Z;
  dl_updatedAt : Z
}.

(** Coordinates of a delivery: a stored document may lack either number. *)
Record Coordinates := mkCoordinates {
  lat : option number;
  lng : option number;
  address : option string
}.

(** ** The world of the dispatching services

    The collection of driver locations, by driver id (its unique index), and the
    coordinates stored in the deliveries, beside the world of the delivery
    service. *)
Record Dispatch := mkDispatch {
  base : World;
  driverLocations : gmap string DriverLocation;
  pickupCoordinates : gmap string Coordinates;
  dropoffCoordinates : gmap string Coordinates
}.

Definition with_base (b : World) (w : Dispatch) : Dispatch :=
  mkDispatch b (driverLocations w) (pickupCoordinates w) (dropoffCoordinates w).
Definition with_locations (m : gmap string DriverLocation) (w : Dispatch) : Dispatch :=
  mkDispatch (base w) m (pickupCoordinates w) (dropoffCoordinates w).

Lemma base_lens : lens_laws base with_base.
Proof. split; [done| |done]. by intros []. Qed.

(** ** Configuration and the database's geometry *)
Class DispatchEnv := {
  DRIVER_PROXIMITY_DEFAULT_RADIUS_M : Z;
  DRIVER_PROXIMITY_MAX_RADIUS_M : Z;
  DRIVER_PROXIMITY_MAX_RESULTS : Z;
  DRIVER_LOCATION_STALE_AFTER_SECONDS : Z;
  ASSIGNMENT_RADIUS_EXPANSION_STEPS : nat;
  geo_distance : GeoPoint → GeoPoint → number
}.

(** What [config/env.ts] checks at start (safe integers in their ranges), and
    that a distance is a finite number. *)
Class DispatchEnvOk `{DispatchEnv} : Prop := {
  default_radius_pos : (1 ≤ DRIVER_PROXIMITY_DEFAULT_RADIUS_M)%Z;
  default_le_max : (DRIVER_PROXIMITY_DEFAULT_RADIUS_M ≤ DRIVER_PROXIMITY_MAX_RADIUS_M)%Z;
  max_radius_safe : (DRIVER_PROXIMITY_MAX_RADIUS_M < 2 ^ 53)%Z;
  max_results_pos : (1 ≤ DRIVER_PROXIMITY_MAX_RESULTS)%Z;
  distance_finite p q : Num.isFinite (geo_distance p q) = true
}.

Record NearbyDriversQuery := mkNearbyQuery {
  q_lat : number;
  q_lng : number;
  q_radiusMeters : option number;
  q_limit : option number;
  q_availableOnly : option bool;
  q_status : option DriverStatus.t
}.

Record NearbyDriver := mkNearbyDriver {
  nd_driverId : string;
  distanceMeters : number;
  nd_location : DriverLocation
}.

Record NearbyDriversResult := mkNearbyResult {
  drivers : list NearbyDriver;
  count : nat;
  n_radiusMeters : number;
  n_center : GeoPoint
}.

Record UpsertDriverLocationInput := mkUpsertInput {
  u_driverId : string;
  u_lat : number;
  u_lng : number;
  u_isAvailable : option bool;
  u_status : option DriverStatus.t;
  u_heading : option number;
  u_speed : option number;
  u_accuracy : option number;
  u_currentDeliveryId : option (option string);
  u_recordedAt : option Z
}.

Section DriverLocationService.
Context `{E : Env, D : DispatchEnv}.

Definition bad_request (m : string) : error := AppError m Http.BAD_REQUEST.

Definition assertValidCoordinates (la ln : number) : prog Dispatch unit :=
  _ ← throw_if (negb (Num.isFinite la) || Num.ltb la (Num.of_Z (-90)) || Num.ltb (Num.of_Z 90) la)
        (bad_request "lat must be a number between -90 and 90.");
  throw_if (negb (Num.isFinite ln) || Num.ltb ln (Num.of_Z (-180)) || Num.ltb (Num.of_Z 180) ln)
    (bad_request "lng must be a number between -180 and 180.").

Definition resolveRadius (r : option number) : prog Dispatch number :=
  match r with
  | None => mret (Num.of_Z DRIVER_PROXIMITY_DEFAULT_RADIUS_M)
  | Some r =>
      _ ← throw_if (negb (Num.isFinite r) || Num.leb r Num.zero)
            (bad_request "radiusMeters must be a positive number.");
      _ ← throw_if (Num.ltb (Num.of_Z DRIVER_PROXIMITY_MAX_RADIUS_M) r)
            (bad_request ("radiusMeters cannot exceed "
               +:+ pretty DRIVER_PROXIMITY_MAX_RADIUS_M +:+ "."));
      mret r
  end.

Definition resolveLimit (l : option number) : prog Dispatch Z :=
  match l with
  | None => mret DRIVER_PROXIMITY_MAX_RESULTS
  | Some l =>
      _ ← throw_if (negb (Num.isInteger l) || Num.leb l Num.zero)
            (bad_request "limit must be a positive integer.");
      mret (Z.min (nullish (Num.trunc l) 0%Z) DRIVER_PROXIMITY_MAX_RESULTS)
  end.

Definition assertValidObjectId (v field : string) : prog Dispatch unit :=
  throw_if (negb (isValidObjectId v)) (bad_request (field +:+ " must be a valid ObjectId.")).

(** The [$geoNear] stage: the documents that match the filter within the
    radius, nearest first. *)
Definition nearer (c : GeoPoint) (a b : string * DriverLocation) : Prop :=
  Num.leb (geo_distance c (location a.2)) (geo_distance c (location b.2)) = true.
#[global] Instance nearer_dec c : RelDecision (nearer c).
Proof. intros a b. unfold nearer. apply _. Defined.

Definition within (c : GeoPoint) (r : number) (P : DriverLocation → bool)
    (kv : string * DriverLocation) : bool :=
  P kv.2 && Num.leb (geo_distance c (location kv.2)) r.

Definition geoNear (c : GeoPoint) (r : number) (P : DriverLocation → bool)
    (m : gmap string DriverLocation) : list (string * DriverLocation) :=
  merge_sort (nearer c) (filter (λ kv, within c r P kv = true) (map_to_list m)).

Definition toNearbyDriver (c : GeoPoint) (kv : string * DriverLocation) : NearbyDriver :=
  mkNearbyDriver kv.1 (Math.round (geo_distance c (location kv.2))) kv.2.

Definition matches (availableOnly : bool) (s : option DriverStatus.t) (d : DriverLocation) : bool :=
  implb availableOnly (isAvailable d) &&
  match s with Some s => bool_decide (dl_status d = s) | None => true end.

Definition findNearbyDrivers (q : NearbyDriversQuery) : prog Dispatch NearbyDriversResult :=
  _ ← assertValidCoordinates (q_lat q) (q_lng q);
  radiusMeters ← resolveRadius (q_radiusMeters q);
  limit ← resolveLimit (q_limit q);
  let availableOnly := nullish (q_availableOnly q) true in
  let c := mkPoint (q_lng q) (q_lat q) in
  rows ← reads (λ w, take (Z.to_nat limit)
    (geoNear c radiusMeters (matches availableOnly (q_status q)) (driverLocations w)));
  mret (mkNearbyResult (toNearbyDriver c <$> rows) (length rows) radiusMeters c).

(** The schema's validators that run on an update. *)
Definition in_range (lo : Z) (hi : option Z) (x : option number) : bool :=
  match x with
  | None => true
  | Some x => Num.leb (Num.of_Z lo) x &&
      match hi with Some hi => Num.leb x (Num.of_Z hi) | None => true end
  end.
Definition update_valid (i : UpsertDriverLocationInput) : bool :=
  in_range 0 (Some 360%Z) (u_heading i) && in_range 0 None (u_speed i) &&
  in_range 0 None (u_accuracy i).

Definition or_old {A} (x old : option A) : option A :=
  match x with Some _ => x | None => old end.

(** The document after [$set] over [old], or over the schema's defaults. *)
Definition upserted (i : UpsertDriverLocationInput) (recordedAt t : Z)
    (old : option DriverLocation) : DriverLocation :=
  mkDriverLocation (mkPoint (u_lng i) (u_lat i))
    (nullish (u_isAvailable i) (if old is Some d then isAvailable d else false))
    (nullish (u_status i) (if old is Some d then dl_status d else DriverStatus.offline))
    (or_old (u_heading i) (old ≫= heading))
    (or_old (u_speed i) (old ≫= speed))
    (or_old (u_accuracy i) (old ≫= accuracy))
    (match u_currentDeliveryId i with
     | Some (Some s) => if Str.truthy s then Some s else None
     | Some None => None
     | None => old ≫= currentDeliveryId
     end)
    recordedAt (recordedAt + DRIVER_LOCATION_STALE_AFTER_SECONDS * 1000)%Z t.

Definition upsertDriverLocation (i : UpsertDriverLocationInput) : prog Dispatch DriverLocation :=
  _ ← assertValidObjectId (u_driverId i) "driverId";
  _ ← assertValidCoordinates (u_lat i) (u_lng i);
  t ← reads (λ w, now_ms (base w));
  let recordedAt := nullish (u_recordedAt i) t in
  _ ← match u_currentDeliveryId i with
      | Some (Some s) => if Str.truthy s then assertValidObjectId s "currentDeliveryId" else mret tt
      | _ => mret tt
      end;
  try_catch
    (atomic_try (λ w,
       if update_valid i then
         let d := upserted i recordedAt (now_ms (base w)) (driverLocations w !! u_driverId i) in
         (inr d, with_locations (<[u_driverId i := d]> (driverLocations w)) w)
       else (inl (PlainError "Validation failed"), w)))
    (λ _, throw (AppError "Unable to record the driver location." Http.INTERNAL_SERVER_ERROR)).

Definition getDriverLocation (driverId_ : string) : prog Dispatch DriverLocation :=
  _ ← assertValidObjectId driverId_ "driverId";
  d ← reads (λ w, driverLocations w !! driverId_);
  or_throw d (AppError ("No current location on record for driver " +:+ driverId_ +:+ ".") Http.NOT_FOUND).
End DriverLocationService.

(** ** The search *)
Section GeoNear.
Context `{E : Env, D : DispatchEnv, DOk : !DispatchEnvOk}.
Implicit Types (m : gmap string DriverLocation).

#[local] Instance nearer_total c : Total (nearer c).
Proof. intros a b. apply Num.leb_total; apply distance_finite. Qed.
#[local] Instance nearer_trans c : Transitive (nearer c).
Proof.
  intros a b d. apply Num.leb_trans, Num.isFinite_not_nan, distance_finite.
Qed.

Lemma elem_of_geoNear c r P m k d :
  (k, d) ∈ geoNear c r P m ↔
    m !! k = Some d ∧ P d = true ∧ Num.leb (geo_distance c (location d)) r = true.
Proof.
  unfold geoNear. rewrite merge_sort_Permutation, list_elem_of_filter, elem_of_map_to_list.
  unfold within. cbn [snd]. rewrite andb_true_iff. tauto.
Qed.

Lemma geoNear_sorted c r P m : StronglySorted (nearer c) (geoNear c r P m).
Proof. apply StronglySorted_merge_sort; apply _. Qed.

Lemma geoNear_NoDup c r P m : NoDup (geoNear c r P m).*1.
Proof.
  unfold geoNear. rewrite merge_sort_Permutation.
  apply (NoDup_fmap_2_strong _); [|apply NoDup_filter, NoDup_map_to_list].
  intros [k1 d1] [k2 d2] [_ H1]%list_elem_of_filter [_ H2]%list_elem_of_filter Heq.
  cbn in Heq. subst k2. apply elem_of_map_to_list in H1, H2. by simplify_eq.
Qed.

Lemma geoNear_nil c r P m :
  geoNear c r P m = [] ↔
  ∀ k d, m !! k = Some d → P d = true → Num.leb (geo_distance c (location d)) r = false.
Proof.
  split.
  - intros Hn k d Hk HP. apply not_true_iff_false. intros Hd.
    assert ((k, d) ∈ geoNear c r P m) as Hin by by apply elem_of_geoNear.
    rewrite Hn in Hin. by apply not_elem_of_nil in Hin.
  - intros Hall. destruct (geoNear c r P m) as [|[k d] l] eqn:Hg; [done|].
    assert ((k, d) ∈ geoNear c r P m) as Hin by (rewrite Hg; by left).
    apply elem_of_geoNear in Hin as (Hk & HP & Hd). by rewrite (Hall k d Hk HP) in Hd.
Qed.

(** The first result is at least as near as every document that matches the
    filter, inside the radius or not. *)
Lemma geoNear_head c r P m k d l k' d' :
  geoNear c r P m = (k, d) :: l → r ≠ S754_nan → m !! k' = Some d' → P d' = true →
  Num.leb (geo_distance c (location d)) (geo_distance c (location d')) = true.
Proof.
  intros Hg Hr Hk' HP. pose proof (geoNear_sorted c r P m) as Hs. rewrite Hg in Hs.
  assert ((k, d) ∈ geoNear c r P m) as Hin by (rewrite Hg; by left).
  apply elem_of_geoNear in Hin as (_ & _ & Hd).
  destruct (Num.leb (geo_distance c (location d')) r) eqn:Hd'.
  - assert ((k', d') ∈ (k, d) :: l) as Hin by by rewrite <-Hg, elem_of_geoNear.
    apply elem_of_cons in Hin as [[= -> ->]|Hin].
    + pose proof (distance_finite c (location d)) as Hf.
      by destruct (Num.leb_total _ _ Hf Hf).
    + apply StronglySorted_inv in Hs as [_ Hs]. rewrite Forall_forall in Hs. apply (Hs _ Hin).
  - pose proof (Num.isFinite_not_nan _ (distance_finite c (location d))) as H1.
    pose proof (Num.isFinite_not_nan _ (distance_finite c (location d'))) as H2.
    apply Num.leb_key in Hd; [|done..]. apply Num.leb_key; [done..|].
    assert (¬ Num.key_le (Num.order_key (geo_distance c (location d'))) (Num.order_key r)) as Hn.
    { intros Hle. apply Num.leb_key in Hle; [|done..]. congruence. }
    unfold Num.key_le in *. lia.
Qed.

Lemma max_radius_pos : (0 < DRIVER_PROXIMITY_MAX_RADIUS_M < 2 ^ 53)%Z.
Proof. pose proof default_radius_pos. pose proof default_le_max. pose proof max_radius_safe. lia. Qed.

(** The search of the assigning services: an admissible radius, no limit given. *)
Lemma run_findNearbyDrivers (p : GeoPoint) (r : Z) w :
  (run (assertValidCoordinates (p_lat p) (p_lng p)) w).1 = inr tt →
  (1 ≤ r ≤ DRIVER_PROXIMITY_MAX_RADIUS_M)%Z →
  run (findNearbyDrivers (mkNearbyQuery (p_lat p) (p_lng p) (Some (Num.of_Z r)) None
         (Some true) (Some DriverStatus.online))) w =
  let rows := take (Z.to_nat DRIVER_PROXIMITY_MAX_RESULTS)
    (geoNear p (Num.of_Z r) (matches true (Some DriverStatus.online)) (driverLocations w)) in
  (inr (mkNearbyResult (toNearbyDriver p <$> rows) (length rows) (Num.of_Z r) p), w).
Proof.
  intros Hc Hr. pose proof max_radius_pos as Hm. unfold findNearbyDrivers. cbn [q_lat q_lng q_radiusMeters q_limit q_availableOnly q_status].
  rewrite run_bind. destruct (run (assertValidCoordinates _ _) w) as [r1 w1] eqn:Ha. cbn [fst] in Hc. subst r1.
  assert (w1 = w) as ->.
  { revert Ha. unfold assertValidCoordinates. rewrite run_bind, !run_throw_if.
    by repeat case_match; intros [= <-]. }
  cbn [fst snd]. unfold resolveRadius.
  assert (Num.isFinite (Num.of_Z r) = true ∧ Num.leb (Num.of_Z r) Num.zero = false) as [Hf Hz].
  { assert (Num.positive (Num.of_Z r) = true) as Hp by (apply Num.of_Z_positive; lia).
    unfold Num.positive in Hp. by apply andb_true_iff in Hp as [-> ->%negb_true_iff]. }
  assert (Num.ltb (Num.of_Z DRIVER_PROXIMITY_MAX_RADIUS_M) (Num.of_Z r) = false) as Hlt.
  { rewrite Num.ltb_leb by (apply Num.isFinite_not_nan; first [done |
      by destruct (Num.of_Z_form _ Hm) as (? & -> & _)]).
    rewrite Num.of_Z_leb by lia. apply negb_false_iff, Z.leb_le. lia. }
  rewrite Hf, Hz, Hlt. by destruct p.
Qed.
End GeoNear.

(** ** Well-formed positions *)
Section WellFormed.
Context `{E : Env, D : DispatchEnv}.

Definition coordinates_ok (la ln : number) : bool :=
  Num.isFinite la && negb (Num.ltb la (Num.of_Z (-90))) && negb (Num.ltb (Num.of_Z 90) la) &&
  (Num.isFinite ln && negb (Num.ltb ln (Num.of_Z (-180))) && negb (Num.ltb (Num.of_Z 180) ln)).

Record location_wf (d : DriverLocation) : Prop := {
  wf_point : coordinates_ok (p_lat (location d)) (p_lng (location d)) = true;
  wf_heading : in_range 0 (Some 360%Z) (heading d) = true;
  wf_speed : in_range 0 None (speed d) = true;
  wf_accuracy : in_range 0 None (accuracy d) = true;
  wf_expires : dl_expiresAt d = (dl_recordedAt d + DRIVER_LOCATION_STALE_AFTER_SECONDS * 1000)%Z
}.

Definition positions_wf (w : Dispatch) : Prop :=
  ∀ k d, driverLocations w !! k = Some d → isValidObjectId k = true ∧ location_wf d.

Lemma run_assertValidCoordinates la ln w :
  (run (assertValidCoordinates la ln) w).1 = inr tt ↔ coordinates_ok la ln = true.
Proof.
  unfold assertValidCoordinates, coordinates_ok. rewrite run_bind, !run_throw_if. cbn [fst snd].
  destruct (Num.isFinite la), (Num.ltb la _), (Num.ltb _ la), (Num.isFinite ln), (Num.ltb ln _),
    (Num.ltb _ ln); cbn; by split.
Qed.

Lemma assertValidCoordinates_cases la ln :
  (coordinates_ok la ln = true ∧ assertValidCoordinates la ln = mret tt) ∨
  (coordinates_ok la ln = false ∧ ∃ m, assertValidCoordinates la ln = throw (bad_request m)).
Proof.
  unfold assertValidCoordinates, coordinates_ok.
  destruct (Num.isFinite la), (Num.ltb la _), (Num.ltb _ la), (Num.isFinite ln), (Num.ltb ln _),
    (Num.ltb _ ln); cbn; first [by left | right; split; [done|by eexists]].
Qed.

Lemma in_range_or_old lo hi x old :
  in_range lo hi x = true → in_range lo hi old = true → in_range lo hi (or_old x old) = true.
Proof. by destruct x. Qed.

Lemma upserted_wf i r t (old : option DriverLocation) :
  coordinates_ok (u_lat i) (u_lng i) = true → update_valid i = true →
  (∀ d, old = Some d → location_wf d) → location_wf (upserted i r t old).
Proof.
  intros Hc [[Hh Hs]%andb_true_iff Ha]%andb_true_iff Hold. unfold upserted.
  split; cbn [location p_lat p_lng heading speed accuracy dl_expiresAt dl_recordedAt]; try done;
    apply in_range_or_old; try done; destruct old as [d|]; try done; by apply (Hold d).
Qed.

Definition keeps_positions (w w' : Dispatch) : Prop := positions_wf w → positions_wf w'.
#[export] Instance keeps_positions_preorder : PreOrder keeps_positions.
Proof. split; [by intros w ?|]. intros w1 w2 w3 H1 H2 H. by apply H2, H1. Qed.

Lemma positions_wf_insert k d w :
  isValidObjectId k = true → location_wf d → positions_wf w →
  positions_wf (with_locations (<[k := d]> (driverLocations w)) w).
Proof.
  intros Hk Hd Hw k' d'. cbn [with_locations driverLocations].
  intros [[<- <-]|[_ ?]]%lookup_insert_Some; [done|by apply Hw].
Qed.

(** An accepted report is stored; a refused one changes nothing. *)
Lemma upsertDriverLocation_run i w :
  run (upsertDriverLocation i) w =
    if negb (isValidObjectId (u_driverId i)) then (inl (bad_request "driverId must be a valid ObjectId."), w) else
    if negb (coordinates_ok (u_lat i) (u_lng i)) then run (assertValidCoordinates (u_lat i) (u_lng i) ≫= λ _, mret (upserted i 0 0 None)) w else
    if match u_currentDeliveryId i with
       | Some (Some s) => Str.truthy s && negb (isValidObjectId s) | _ => false end
    then (inl (bad_request "currentDeliveryId must be a valid ObjectId."), w) else
    if update_valid i then
      let d := upserted i (nullish (u_recordedAt i) (now_ms (base w))) (now_ms (base w))
                 (driverLocations w !! u_driverId i) in
      (inr d, with_locations (<[u_driverId i := d]> (driverLocations w)) w)
    else (inl (AppError "Unable to record the driver location." Http.INTERNAL_SERVER_ERROR), w).
Proof.
  unfold upsertDriverLocation, assertValidObjectId.
  rewrite run_bind, run_throw_if. cbn [fst snd]. destruct (isValidObjectId (u_driverId i)); [|done]. cbn [negb].
  destruct (assertValidCoordinates_cases (u_lat i) (u_lng i)) as [[-> ->]|[-> (m & ->)]]; cbn [negb]; [|done].
  rewrite run_bind, run_ret. cbn [fst snd]. rewrite run_bind, run_reads. cbn [fst snd]. cbv zeta.
  rewrite run_bind.
  destruct (u_currentDeliveryId i) as [[s|]|]; [destruct (Str.truthy s), (isValidObjectId s)| |];
    cbn [andb negb throw_if]; rewrite ?run_ret, ?run_throw; cbn [fst snd]; try done;
    rewrite run_try_catch, run_atomic_try; by destruct (update_valid i).
Qed.
End WellFormed.
