(* ===== verification/AssignmentService.v ===== *)
(** * Automatic driver assignment ([src/src/services/assignmentService.ts])

    For a delivery: search around its pickup with a radius that doubles up to a
    maximum, claim the nearest driver atomically, assign the driver through the
    delivery service, and give the claim back if that fails.  One assignment of
    a delivery runs under its lock. *)
From S2P Require Import Prelude JsLib Models Repositories RedisLock DeliveryService DriverLocations.

Record AssignNearestDriverResult := mkAssignResult {
  ar_assigned : bool;
  ar_delivery : option (hydrated Delivery);
  ar_driverId : option string;
  ar_distanceMeters : option number;
  ar_radiusMeters : Z;
  ar_reason : option string
}.

Section AssignmentService.
Context `{E : Env, D : DispatchEnv, C : DeliveryConsumers}.

(** A call of a service on the collections it owns. *)
Definition on_base {A} (p : action A) : prog Dispatch A := zoom base with_base p.

Definition withLock {A} (resource : string) (fn : prog Dispatch A) : prog Dispatch A :=
  token ← on_base (acquireLock resource);
  finally fn (on_base (release_lock resource token)).

(** The conditional update [{ driverId, isAvailable: true }]. *)
Definition claimed (t : Z) (d : DriverLocation) : DriverLocation :=
  mkDriverLocation (location d) false DriverStatus.on_delivery (heading d) (speed d) (accuracy d)
    (currentDeliveryId d) (dl_recordedAt d) (dl_expiresAt d) t.
Definition try_claim (driverId_ : string) (w : Dispatch) : bool * Dispatch :=
  match driverLocations w !! driverId_ with
  | Some d =>
      if isAvailable d then
        (true, with_locations (<[driverId_ := claimed (now_ms (base w)) d]> (driverLocations w)) w)
      else (false, w)
  | None => (false, w)
  end.

Fixpoint claimFirstAvailable (candidates : list NearbyDriver) : prog Dispatch (option NearbyDriver) :=
  match candidates with
  | [] => mret None
  | candidate :: rest =>
      ok ← atomic (try_claim (nd_driverId candidate));
      if (ok : bool) then mret (Some candidate) else claimFirstAvailable rest
  end.

Definition released (t : Z) (d : DriverLocation) : DriverLocation :=
  mkDriverLocation (location d) true DriverStatus.online (heading d) (speed d) (accuracy d)
    (currentDeliveryId d) (dl_recordedAt d) (dl_expiresAt d) t.
Definition release_claim (driverId_ : string) (w : Dispatch) : Dispatch :=
  match driverLocations w !! driverId_ with
  | Some d => with_locations (<[driverId_ := released (now_ms (base w)) d]> (driverLocations w)) w
  | None => w
  end.
(** The update does not fail here, so its error log is not reached. *)
Definition releaseClaim (driverId_ : string) : prog Dispatch unit := writes (release_claim driverId_).

(** Radii are safe integers and a doubled one is even and below [2^54], so the
    doubles of the source compute them exactly. *)
Definition next_radius (r : Z) : Z := Z.min (r * 2) DRIVER_PROXIMITY_MAX_RADIUS_M.

Definition no_driver (r : Z) : AssignNearestDriverResult :=
  mkAssignResult false None None None r
    (Some "No available driver was found within the maximum search radius.").

Definition nearby_query (center : GeoPoint) (r : Z) : NearbyDriversQuery :=
  mkNearbyQuery (p_lat center) (p_lng center) (Some (Num.of_Z r)) None (Some true)
    (Some DriverStatus.online).

(** The loop: [steps] expansions are left. *)
Fixpoint search_loop (id : string) (center : GeoPoint) (steps : nat) (r : Z)
    : prog Dispatch AssignNearestDriverResult :=
  found ← findNearbyDrivers (nearby_query center r);
  c ← claimFirstAvailable (drivers found);
  match c with
  | Some c =>
      updated ← try_catch (on_base (assignDriver id (nd_driverId c)))
        (λ e, _ ← releaseClaim (nd_driverId c); throw e);
      mret (mkAssignResult true (Some updated) (Some (nd_driverId c)) (Some (distanceMeters c)) r None)
  | None =>
      if (DRIVER_PROXIMITY_MAX_RADIUS_M <=? r)%Z then mret (no_driver r) else
      match steps with
      | O => mret (no_driver (next_radius r))
      | S steps => search_loop id center steps (next_radius r)
      end
  end.

Definition searchAndClaim (id : string) (center : GeoPoint) : prog Dispatch AssignNearestDriverResult :=
  search_loop id center ASSIGNMENT_RADIUS_EXPANSION_STEPS DRIVER_PROXIMITY_DEFAULT_RADIUS_M.

(** [Number.isFinite] of both coordinates. *)
Definition search_center (c : option Coordinates) : option GeoPoint :=
  c ← c; la ← lat c; ln ← lng c;
  if Num.isFinite la && Num.isFinite ln then Some (mkPoint ln la) else None.

Definition assignment_lock (id : string) : string := "assignment:delivery:" +:+ id.

Definition already_assigned : AssignNearestDriverResult :=
  mkAssignResult false None None None 0 (Some "Delivery already has a driver assigned.").

Definition has_driver (d : Delivery) : bool :=
  match driverId d with Some s => Str.truthy s | None => false end.

(** The document with the coordinates stored in it. *)
Definition find_dispatched (id : string) (w : Dispatch) : option (Delivery * option Coordinates) :=
  (λ d, (d, pickupCoordinates w !! id)) <$> deliveries (base w) !! id.

Definition assign_locked (id : string) : prog Dispatch AssignNearestDriverResult :=
  found ← reads (find_dispatched id);
  found ← or_throw found delivery_not_found;
  if has_driver found.1 then mret already_assigned else
  center ← or_throw (search_center found.2)
    (bad_request "Delivery has no pickup coordinates to search from.");
  searchAndClaim id center.

Definition assignNearestDriver (id : string) : prog Dispatch AssignNearestDriverResult :=
  _ ← throw_if (negb (isValidObjectId id)) invalid_id;
  withLock (assignment_lock id) (assign_locked id).

(** *** The sweep *)
Definition older (a b : hydrated Delivery) : Prop := (d_createdAt (body a) ≤ d_createdAt (body b))%Z.
#[global] Instance older_dec : RelDecision older.
Proof. intros a b. unfold older. apply _. Defined.

Definition pending_candidates (limit : nat) (w : Dispatch) : list (hydrated Delivery) :=
  take limit (merge_sort older
    (find_all (λ d, bool_decide (status d = DeliveryStatus.FUNDED) && negb (has_driver d))
      (deliveries (base w)))).

Definition attempt (assigned : nat) (d : hydrated Delivery) : prog Dispatch nat :=
  try_catch
    (result ← assignNearestDriver (_id d);
     mret (if ar_assigned result then S assigned else assigned))
    (λ _, mret assigned).

Definition autoAssignPendingDeliveries (limit : nat) : prog Dispatch (nat * nat) :=
  candidates ← reads (pending_candidates limit);
  assigned ← fold_prog attempt 0 candidates;
  mret (length candidates, assigned).
End AssignmentService.

(** ** One search *)
Section AssignmentFacts.
Context `{E : Env, D : DispatchEnv, DOk : !DispatchEnvOk, C : DeliveryConsumers, COk : !DeliveryConsumersOk}.

Lemma run_on_base {A} (p : action A) w :
  run (on_base p) w = ((run p (base w)).1, with_base (run p (base w)).2 w).
Proof. apply run_zoom, base_lens. Qed.

(** Free to take an order: available and online. *)
Definition free (d : DriverLocation) : bool := matches true (Some DriverStatus.online) d.

Lemma free_spec d : free d = true ↔ isAvailable d = true ∧ dl_status d = DriverStatus.online.
Proof. unfold free, matches. cbn [implb]. by rewrite andb_true_iff, bool_decide_eq_true. Qed.

Definition radius_at (n : nat) (r : Z) : Z := Nat.iter n next_radius r.

Lemma next_radius_bounds r :
  (1 ≤ r ≤ DRIVER_PROXIMITY_MAX_RADIUS_M)%Z → (r ≤ next_radius r ≤ DRIVER_PROXIMITY_MAX_RADIUS_M)%Z.
Proof. unfold next_radius. lia. Qed.
Lemma radius_at_bounds n r :
  (1 ≤ r ≤ DRIVER_PROXIMITY_MAX_RADIUS_M)%Z → (r ≤ radius_at n r ≤ DRIVER_PROXIMITY_MAX_RADIUS_M)%Z.
Proof.
  intros Hr. unfold radius_at. induction n as [|n IH]; [cbn; lia|]. rewrite Nat.iter_succ.
  pose proof (next_radius_bounds (Nat.iter n next_radius r)). lia.
Qed.
Lemma radius_at_succ n r : radius_at n (next_radius r) = radius_at (S n) r.
Proof. unfold radius_at. by rewrite Nat.iter_succ_r. Qed.
Lemma radius_at_max n : radius_at n DRIVER_PROXIMITY_MAX_RADIUS_M = DRIVER_PROXIMITY_MAX_RADIUS_M.
Proof.
  unfold radius_at. induction n as [|n IH]; [done|]. rewrite Nat.iter_succ, IH.
  unfold next_radius. pose proof max_radius_pos. lia.
Qed.

(** Claim, assign, and give the claim back when the assignment is refused. *)
Definition claim_and_assign (id : string) (center : GeoPoint) (k : string) (d : DriverLocation)
    (r : Z) (w : Dispatch) : (error + AssignNearestDriverResult) * Dispatch :=
  let w1 := with_locations (<[k := claimed (now_ms (base w)) d]> (driverLocations w)) w in
  match run (assignDriver id k) (base w) with
  | (inl e, b) => (inl e, release_claim k (with_base b w1))
  | (inr updated, b) =>
      (inr (mkAssignResult true (Some updated) (Some k)
         (Some (Math.round (geo_distance center (location d)))) r None), with_base b w1)
  end.

Definition found_at (center : GeoPoint) (r : Z) (w : Dispatch) : list (string * DriverLocation) :=
  geoNear center (Num.of_Z r) free (driverLocations w).

Lemma run_claim_head center k d rows w :
  driverLocations w !! k = Some d → isAvailable d = true →
  run (claimFirstAvailable (toNearbyDriver center <$> (k, d) :: rows)) w =
    (inr (Some (toNearbyDriver center (k, d))),
     with_locations (<[k := claimed (now_ms (base w)) d]> (driverLocations w)) w).
Proof.
  intros Hk Hav. cbn [fmap list_fmap claimFirstAvailable]. rewrite run_bind, run_atomic.
  unfold try_claim. change (nd_driverId (toNearbyDriver center (k, d))) with k. by rewrite Hk, Hav.
Qed.

Lemma run_assign_claimed id center k d r w :
  run (updated ← try_catch (on_base (assignDriver id (nd_driverId (toNearbyDriver center (k, d)))))
         (λ e, _ ← releaseClaim (nd_driverId (toNearbyDriver center (k, d))); throw e);
       mret (mkAssignResult true (Some updated) (Some (nd_driverId (toNearbyDriver center (k, d))))
         (Some (distanceMeters (toNearbyDriver center (k, d)))) r None))
    (with_locations (<[k := claimed (now_ms (base w)) d]> (driverLocations w)) w) =
  claim_and_assign id center k d r w.
Proof.
  change (nd_driverId (toNearbyDriver center (k, d))) with k.
  change (distanceMeters (toNearbyDriver center (k, d))) with (Math.round (geo_distance center (location d))).
  rewrite run_bind, run_try_catch, run_on_base. unfold claim_and_assign. cbn [base with_locations].
  by destruct (run (assignDriver id k) (base w)) as [[e|u] b].
Qed.

Lemma search_step id center steps r w :
  coordinates_ok (p_lat center) (p_lng center) = true →
  (1 ≤ r ≤ DRIVER_PROXIMITY_MAX_RADIUS_M)%Z →
  run (search_loop id center steps r) w =
    match found_at center r w with
    | (k, d) :: _ => claim_and_assign id center k d r w
    | [] =>
        if (DRIVER_PROXIMITY_MAX_RADIUS_M <=? r)%Z then (inr (no_driver r), w) else
        match steps with
        | O => (inr (no_driver (next_radius r)), w)
        | S steps => run (search_loop id center steps (next_radius r)) w
        end
    end.
Proof.
  intros Hc Hr. pose proof max_results_pos as Hmax.
  assert (∀ w, (run (assertValidCoordinates (p_lat center) (p_lng center)) w).1 = inr tt) as Hok.
  { intros w0. by apply run_assertValidCoordinates. }
  destruct steps as [|steps]; cbn [search_loop]; rewrite run_bind; unfold nearby_query;
    rewrite (run_findNearbyDrivers center r w (Hok w) Hr); cbv zeta; cbn [fst snd drivers];
    change (geoNear center (Num.of_Z r) _ (driverLocations w)) with (found_at center r w);
    (destruct (found_at center r w) as [|[k d] l] eqn:Hf;
      [rewrite take_nil; cbn [fmap list_fmap claimFirstAvailable];
       rewrite run_bind, run_ret; cbn [fst snd];
       by destruct (DRIVER_PROXIMITY_MAX_RADIUS_M <=? r)%Z|]);
    (assert ((k, d) ∈ found_at center r w) as Hin by (rewrite Hf; by left));
    apply elem_of_geoNear in Hin as (Hk & [Hav _]%free_spec & _);
    (destruct (Z.to_nat DRIVER_PROXIMITY_MAX_RESULTS) as [|n] eqn:Hn; [lia|]);
    cbn [take]; rewrite run_bind, (run_claim_head center k d _ w Hk Hav); apply run_assign_claimed.
Qed.

(** The search takes the nearest free driver of the first radius with one. *)
Lemma run_search_loop id center steps r w :
  coordinates_ok (p_lat center) (p_lng center) = true →
  (1 ≤ r ≤ DRIVER_PROXIMITY_MAX_RADIUS_M)%Z →
  (∃ n k d l, (n ≤ steps)%nat ∧ (∀ m, (m < n)%nat → found_at center (radius_at m r) w = []) ∧
     found_at center (radius_at n r) w = (k, d) :: l ∧
     run (search_loop id center steps r) w = claim_and_assign id center k d (radius_at n r) w) ∨
  ((∀ m, (m ≤ steps)%nat → found_at center (radius_at m r) w = []) ∧
   run (search_loop id center steps r) w = (inr (no_driver (radius_at (S steps) r)), w)).
Proof.
  intros Hc. revert r. induction steps as [|steps IH]; intros r Hr; rewrite search_step by done;
    destruct (found_at center r w) as [|[k d] l] eqn:Hf.
  2,4: (left; exists 0%nat, k, d, l; split; [lia|]; split; [intros m Hm; lia|done]).
  - right. split; [intros m Hm; by replace m with 0%nat by lia|].
    destruct (Z.leb_spec DRIVER_PROXIMITY_MAX_RADIUS_M r); [|done].
    assert (r = DRIVER_PROXIMITY_MAX_RADIUS_M) as -> by lia. by rewrite radius_at_max.
  - destruct (Z.leb_spec DRIVER_PROXIMITY_MAX_RADIUS_M r) as [Hmx|Hmx].
    { right. assert (r = DRIVER_PROXIMITY_MAX_RADIUS_M) as -> by lia. setoid_rewrite radius_at_max. done. }
    destruct (IH (next_radius r)) as [(n & k & d & l & Hn & Hbefore & Hat & ->)|[Hall ->]];
      [pose proof (next_radius_bounds r); lia| |].
    + left. exists (S n), k, d, l. rewrite <-!radius_at_succ. split; [lia|]. split; [|done].
      intros [|m] Hm; [done|]. rewrite <-radius_at_succ. apply Hbefore. lia.
    + right. rewrite radius_at_succ. split; [|done].
      intros [|m] Hm; [done|]. rewrite <-radius_at_succ. apply Hall. lia.
Qed.

(** ** What an assignment does to the world *)

(** A position without its time stamp of the last write. *)
Definition forget (d : DriverLocation) : DriverLocation :=
  mkDriverLocation (location d) (isAvailable d) (dl_status d) (heading d) (speed d) (accuracy d)
    (currentDeliveryId d) (dl_recordedAt d) (dl_expiresAt d) 0.

Record untouched (w w' : Dispatch) : Prop := {
  un_deliveries : deliveries (base w') = deliveries (base w);
  un_locations : forget <$> driverLocations w' = forget <$> driverLocations w;
  un_coords : pickupCoordinates w' = pickupCoordinates w ∧ dropoffCoordinates w' = dropoffCoordinates w;
  un_locks : redisLocks (base w') = redisLocks (base w);
  un_now : now_ms (base w') = now_ms (base w)
}.

(** Delivery [id] goes to driver [k]; nothing else moves. *)
Record assigns (id k : string) (w w' : Dispatch) : Prop := {
  as_delivery : ∃ dv, deliveries (base w) !! id = Some dv ∧
    deliveries (base w') = <[id := assigned k (now_ms (base w)) dv]> (deliveries (base w));
  as_driver : ∃ d, driverLocations w !! k = Some d ∧ free d = true ∧
    driverLocations w' = <[k := claimed (now_ms (base w)) d]> (driverLocations w);
  as_coords : pickupCoordinates w' = pickupCoordinates w ∧ dropoffCoordinates w' = dropoffCoordinates w;
  as_locks : redisLocks (base w') = redisLocks (base w);
  as_now : now_ms (base w') = now_ms (base w)
}.

Lemma untouched_refl w : untouched w w.
Proof. done. Qed.

Lemma claim_and_assign_outcome id center k d r w res w' :
  driverLocations w !! k = Some d → free d = true →
  claim_and_assign id center k d r w = (res, w') →
  match res with
  | inl _ => untouched w w'
  | inr x => assigns id k w w' ∧ ar_assigned x = true ∧ ar_driverId x = Some k ∧ ar_radiusMeters x = r ∧
      ar_distanceMeters x = Some (Math.round (geo_distance center (location d)))
  end.
Proof.
  intros Hk [Hav Hon]%free_spec. unfold claim_and_assign.
  destruct (run (assignDriver id k) (base w)) as [[e|u] b] eqn:Ha;
    apply assignDriver_outcome in Ha; intros [= <- <-].
  - subst b. unfold release_claim. cbn [driverLocations with_base with_locations].
    rewrite lookup_insert_eq. split; cbn [base with_base with_locations driverLocations]; try done.
    rewrite insert_insert_eq, fmap_insert. apply map_eq. intros k'.
    destruct (decide (k' = k)) as [->|Hne]; [|by rewrite lookup_insert_ne by done].
    rewrite lookup_insert_eq, lookup_fmap, Hk. cbn [fmap option_fmap option_map]. f_equal.
    destruct d. cbn in Hav, Hon. by subst.
  - destruct Ha as (dv & Hdv & _ & Hlo). split; [|done].
    destruct Hlo as [Hn Hd _ _ Hl _ _ _ _]. rec_simpl_in Hn. rec_simpl_in Hd. rec_simpl_in Hl.
    split; cbn [base with_base with_locations driverLocations pickupCoordinates dropoffCoordinates]; try done.
    + by exists dv.
    + exists d. by rewrite free_spec.
Qed.

Lemma run_dispatch_lock {A} resource (fn : prog Dispatch A) w :
  run (withLock resource fn) w =
    match redisLocks (base w) !! resource with
    | Some _ => (inl (lock_error resource), w)
    | None =>
        let x := run fn (with_base (lock_taken resource (base w)) w) in
        (x.1, with_base (unlock resource (nextId (base w)) (base x.2)) x.2)
    end.
Proof.
  unfold withLock. rewrite run_bind, run_on_base, run_acquireLock.
  destruct (redisLocks (base w) !! resource); cbn [fst snd]; [by destruct w|].
  rewrite run_finally, run_on_base. unfold release_lock. by rewrite run_writes.
Qed.

Lemma search_center_ok c p :
  search_center c = Some p → Num.isFinite (p_lat p) = true ∧ Num.isFinite (p_lng p) = true.
Proof.
  unfold search_center. destruct c as [[[la|] [ln|] a]|]; cbn; try done.
  case_match eqn:Hf; [|done]. intros [= <-]. by apply andb_true_iff in Hf.
Qed.

(** The driver an assignment took was the nearest free one, inside the radius. *)
Record nearest_free (c : GeoPoint) (k : string) (r : Z) (w : Dispatch) : Prop := {
  nf_inside : ∀ d, driverLocations w !! k = Some d →
    Num.leb (geo_distance c (location d)) (Num.of_Z r) = true;
  nf_nearest : ∀ d k' d', driverLocations w !! k = Some d → driverLocations w !! k' = Some d' →
    free d' = true → Num.leb (geo_distance c (location d)) (geo_distance c (location d')) = true;
  nf_radius : (DRIVER_PROXIMITY_DEFAULT_RADIUS_M ≤ r ≤ DRIVER_PROXIMITY_MAX_RADIUS_M)%Z
}.

(** No free driver within the largest radius that is searched. *)
Definition nobody_near (c : GeoPoint) (w : Dispatch) : Prop :=
  ∀ k d, driverLocations w !! k = Some d → free d = true →
    Num.leb (geo_distance c (location d))
      (Num.of_Z (radius_at ASSIGNMENT_RADIUS_EXPANSION_STEPS DRIVER_PROXIMITY_DEFAULT_RADIUS_M)) = false.

Lemma searchAndClaim_outcome id c w res w' :
  coordinates_ok (p_lat c) (p_lng c) = true → run (searchAndClaim id c) w = (res, w') →
  match res with
  | inl _ => untouched w w'
  | inr x =>
      match ar_driverId x with
      | Some k => assigns id k w w' ∧ ar_assigned x = true ∧ nearest_free c k (ar_radiusMeters x) w
      | None => w' = w ∧ ar_assigned x = false ∧ nobody_near c w
      end
  end.
Proof.
  intros Hc. pose proof default_radius_pos. pose proof default_le_max. pose proof max_radius_safe.
  unfold searchAndClaim.
  destruct (run_search_loop id c ASSIGNMENT_RADIUS_EXPANSION_STEPS DRIVER_PROXIMITY_DEFAULT_RADIUS_M w)
    as [(n & k & d & l & Hn & _ & Hat & ->)|[Hall ->]]; [done|lia| |].
  - assert ((k, d) ∈ found_at c (radius_at n DRIVER_PROXIMITY_DEFAULT_RADIUS_M) w) as Hin by (rewrite Hat; left).
    apply elem_of_geoNear in Hin as (Hk & Hfree & Hd). pose proof (radius_at_bounds n DRIVER_PROXIMITY_DEFAULT_RADIUS_M) as Hb.
    intros Hr. apply claim_and_assign_outcome in Hr; [|done..]. destruct res as [e|x]; [done|].
    destruct Hr as (Has & Hx & -> & -> & _). split; [done|]. split; [done|]. split.
    + intros d'. rewrite Hk. by intros [= <-].
    + intros d1 k' d'. rewrite Hk. intros [= <-] Hk' Hf'.
      eapply geoNear_head; [exact Hat| |exact Hk'|exact Hf'].
      destruct (Num.of_Z_form (radius_at n DRIVER_PROXIMITY_DEFAULT_RADIUS_M)) as (? & -> & _); [lia|done].
    + lia.
  - intros [= <- <-]. cbn [ar_driverId no_driver]. split; [done|]. split; [done|].
    intros k d Hk Hf. by apply (proj1 (geoNear_nil _ _ _ _) (Hall _ (Nat.le_refl _)) k d).
Qed.

Lemma searchAndClaim_bad id c w :
  coordinates_ok (p_lat c) (p_lng c) = false →
  ∃ m, run (searchAndClaim id c) w = (inl (bad_request m), w).
Proof.
  intros Hc. destruct (assertValidCoordinates_cases (p_lat c) (p_lng c)) as [[Ht _]|[_ (m & Hm)]]; [congruence|].
  exists m. unfold searchAndClaim. destruct ASSIGNMENT_RADIUS_EXPANSION_STEPS; cbn [search_loop];
    unfold findNearbyDrivers, nearby_query; cbn [q_lat q_lng]; by rewrite Hm.
Qed.

(** The lock and the clock do not touch the collections. *)
Lemma locked_untouched resource w :
  deliveries (base (with_base (lock_taken resource (base w)) w)) = deliveries (base w) ∧
  driverLocations (with_base (lock_taken resource (base w)) w) = driverLocations w ∧
  now_ms (base (with_base (lock_taken resource (base w)) w)) = now_ms (base w).
Proof. done. Qed.

Section Unlocking.
Context (resource : string) (w w1 : Dispatch).
Let w0 : Dispatch := with_base (lock_taken resource (base w)) w.
Let w' : Dispatch := with_base (unlock resource (nextId (base w)) (base w1)) w1.
Hypothesis free_lock : redisLocks (base w) !! resource = None.

Lemma unlocked_locks : redisLocks (base w1) = redisLocks (base w0) → redisLocks (base w') = redisLocks (base w).
Proof. apply unlock_restores, free_lock. Qed.

Lemma untouched_unlock : untouched w0 w1 → untouched w w'.
Proof.
  intros [Hd Hl Hc Hk Hn]. destruct (unlock_fields resource (nextId (base w)) (base w1)) as (Un & Ud & _).
  split; cbn [base w' with_base driverLocations pickupCoordinates dropoffCoordinates];
    [by rewrite Ud|done|done|by apply unlocked_locks|by rewrite Un].
Qed.

Lemma assigns_unlock id k : assigns id k w0 w1 → assigns id k w w'.
Proof.
  intros [(dv & Hdv & Hd) (d & Hk & Hf & Hl) Hc Hr Hn].
  destruct (unlock_fields resource (nextId (base w)) (base w1)) as (Un & Ud & _).
  split; cbn [base w' with_base driverLocations pickupCoordinates dropoffCoordinates].
  - exists dv. by rewrite Ud.
  - by exists d.
  - done.
  - by apply unlocked_locks.
  - by rewrite Un.
Qed.
End Unlocking.

(** The results of an assignment. *)
Definition assignment_spec (id : string) (w : Dispatch)
    (res : error + AssignNearestDriverResult) (w' : Dispatch) : Prop :=
  match res with
  | inl _ => untouched w w'
  | inr x =>
      ∃ dv, deliveries (base w) !! id = Some dv ∧
      match ar_driverId x with
      | Some k => ar_assigned x = true ∧ has_driver dv = false ∧ assigns id k w w' ∧
          ∃ c, search_center (pickupCoordinates w !! id) = Some c ∧
            nearest_free c k (ar_radiusMeters x) w
      | None => ar_assigned x = false ∧ untouched w w' ∧
          (has_driver dv = true ∨
           ∃ c, search_center (pickupCoordinates w !! id) = Some c ∧ nobody_near c w)
      end
  end.

Lemma assign_locked_outcome id w res w' :
  run (assign_locked id) w = (res, w') → assignment_spec id w res w'.
Proof.
  unfold assign_locked, find_dispatched. rewrite run_bind, run_reads. cbn [fst snd].
  destruct (deliveries (base w) !! id) as [dv|] eqn:Hdv; cbn [fmap option_fmap option_map or_throw];
    [|by intros [= <- <-]].
  rewrite run_bind, run_ret. cbn [fst snd]. destruct (has_driver dv) eqn:Hh.
  { intros [= <- <-]. exists dv. repeat split; auto. }
  destruct (search_center (pickupCoordinates w !! id)) as [c|] eqn:Hc; cbn [or_throw];
    [|by intros [= <- <-]].
  rewrite run_bind, run_ret. cbn [fst snd]. intros Hr.
  destruct (coordinates_ok (p_lat c) (p_lng c)) eqn:Hok.
  2: { destruct (searchAndClaim_bad id c w Hok) as [m Hm]. rewrite Hm in Hr. by injection Hr as <- <-. }
  apply searchAndClaim_outcome in Hr; [|done]. destruct res as [e|x]; [done|]. exists dv. split; [done|].
  destruct (ar_driverId x) as [k|].
  - destruct Hr as (? & ? & ?). split_and!; try done. by exists c.
  - destruct Hr as (-> & ? & ?). split_and!; [done|apply untouched_refl|]. right. by exists c.
Qed.

Lemma assignNearestDriver_outcome id w res w' :
  run (assignNearestDriver id) w = (res, w') → assignment_spec id w res w'.
Proof.
  unfold assignNearestDriver. rewrite run_bind, run_throw_if. cbn [fst snd].
  destruct (isValidObjectId id); cbn [negb]; [|by intros [= <- <-]].
  rewrite run_dispatch_lock. destruct (redisLocks (base w) !! _) eqn:Hlock; [by intros [= <- <-]|].
  set (w0 := with_base (lock_taken (assignment_lock id) (base w)) w).
  destruct (run (assign_locked id) w0) as [r w1] eqn:Hr. cbn [fst snd]. intros [= <- <-].
  apply assign_locked_outcome in Hr. destruct r as [e|x]; [by apply untouched_unlock|].
  destruct Hr as (dv & Hdv & Hr). exists dv. split; [exact Hdv|]. destruct (ar_driverId x) as [k|].
  - destruct Hr as (? & ? & Has & c & Hc & [? ? ?]). split_and!; [done|done|by apply assigns_unlock|].
    by exists c.
  - destruct Hr as (? & Hun & Hr). split_and!; [done|by apply untouched_unlock|exact Hr].
Qed.

(** *** An assignable delivery with a free driver in reach is assigned *)
Lemma searchAndClaim_succeeds id c dv w :
  coordinates_ok (p_lat c) (p_lng c) = true → assignable id dv (base w) → ¬ nobody_near c w →
  ∃ x w', run (searchAndClaim id c) w = (inr x, w') ∧ ar_assigned x = true.
Proof.
  intros Hc Ha Hn. pose proof default_radius_pos. pose proof default_le_max. unfold searchAndClaim.
  destruct (run_search_loop id c ASSIGNMENT_RADIUS_EXPANSION_STEPS DRIVER_PROXIMITY_DEFAULT_RADIUS_M w)
    as [(n & k & d & l & _ & _ & _ & ->)|[Hall _]]; [done|lia| |].
  - unfold claim_and_assign. destruct (assignDriver_accepts id dv k (base w) Ha) as (d' & b & ->). by do 2 eexists.
  - destruct Hn. intros k d Hk Hf. by apply (proj1 (geoNear_nil _ _ _ _) (Hall _ (Nat.le_refl _)) k d).
Qed.

Lemma assignNearestDriver_succeeds id dv c w :
  assignable id dv (base w) → has_driver dv = false →
  search_center (pickupCoordinates w !! id) = Some c → coordinates_ok (p_lat c) (p_lng c) = true →
  redisLocks (base w) !! assignment_lock id = None → ¬ nobody_near c w →
  ∃ x w', run (assignNearestDriver id) w = (inr x, w') ∧ ar_assigned x = true.
Proof.
  intros Ha Hh Hc Hok Hlock Hn. unfold assignNearestDriver. rewrite run_bind, run_throw_if. cbn [fst snd].
  rewrite (an_id _ _ _ Ha). cbn [negb]. rewrite run_dispatch_lock, Hlock. cbv zeta.
  set (w0 := with_base (lock_taken (assignment_lock id) (base w)) w).
  assert (assignable id dv (base w0)) as Ha0 by (by destruct Ha).
  destruct (searchAndClaim_succeeds id c dv w0 Hok Ha0 Hn) as (x & w1 & Hr & Hx).
  assert (run (assign_locked id) w0 = (inr x, w1)) as ->.
  { unfold assign_locked, find_dispatched. rewrite run_bind, run_reads. cbn [fst snd].
    rewrite (an_delivery _ _ _ Ha0). cbn [fmap option_fmap option_map or_throw].
    rewrite run_bind, run_ret. cbn [fst snd]. rewrite Hh.
    change (pickupCoordinates w0) with (pickupCoordinates w). by rewrite Hc. }
  by do 2 eexists.
Qed.

(** C34: [assignNearestDriver] either assigns the delivery to the nearest free
    driver there is, and changes nothing else; or leaves the world as it was,
    saying that the delivery has a driver or that no free driver is in reach;
    or throws and leaves every driver as available as before.  It does assign
    when the delivery is assignable, its lock is free and a free driver is in
    reach. *)
Theorem assignNearestDriver_correct id w :
  assignment_spec id w (run (assignNearestDriver id) w).1 (run (assignNearestDriver id) w).2 ∧
  ∀ dv c, assignable id dv (base w) → has_driver dv = false →
    search_center (pickupCoordinates w !! id) = Some c → coordinates_ok (p_lat c) (p_lng c) = true →
    redisLocks (base w) !! assignment_lock id = None → ¬ nobody_near c w →
    ∃ x w', run (assignNearestDriver id) w = (inr x, w') ∧ ar_assigned x = true.
Proof.
  split; [apply assignNearestDriver_outcome; by destruct (run _ _)|].
  intros dv c. by apply assignNearestDriver_succeeds.
Qed.

(** ** The sweep *)

(** The driver that a successful assignment took is not taken again. *)
Record swept (w : Dispatch) (ids : list string) (pairs : list (string * string)) (w' : Dispatch) : Prop := {
  sw_drivers : NoDup pairs.*2;
  sw_deliveries : pairs.*1 `sublist_of` ids;
  sw_assigned : Forall (λ p, ∃ dv, deliveries (base w') !! p.1 = Some dv ∧ driverId dv = Some p.2 ∧
    status dv = DeliveryStatus.ASSIGNED) pairs;
  sw_taken : Forall (λ p, (∃ d, driverLocations w !! p.2 = Some d ∧ free d = true) ∧
    ∃ d', driverLocations w' !! p.2 = Some d' ∧ isAvailable d' = false) pairs;
  sw_others : ∀ k, k ∉ pairs.*2 → forget <$> driverLocations w' !! k = forget <$> driverLocations w !! k;
  sw_rest : ∀ i, i ∉ pairs.*1 → deliveries (base w') !! i = deliveries (base w) !! i;
  sw_locks : redisLocks (base w') = redisLocks (base w)
}.

Lemma untouched_lookup w w' k :
  untouched w w' → forget <$> driverLocations w' !! k = forget <$> driverLocations w !! k.
Proof. intros Hu. by rewrite <-!lookup_fmap, (un_locations _ _ Hu). Qed.

Lemma forget_free d d' : forget d' = forget d → isAvailable d' = isAvailable d ∧ free d' = free d.
Proof.
  intros Hf. assert (isAvailable (forget d') = isAvailable (forget d)) as Ha by by rewrite Hf.
  assert (dl_status (forget d') = dl_status (forget d)) as Hs by by rewrite Hf.
  cbn in Ha, Hs. unfold free, matches. by rewrite Ha, Hs.
Qed.

Lemma swept_nil w : swept w [] [] w.
Proof. split; try done; constructor. Qed.

Lemma swept_skip w w1 id ids pairs w' :
  untouched w w1 → swept w1 ids pairs w' → swept w (id :: ids) pairs w'.
Proof.
  intros Hu [H1 H2 H3 H4 H5 H6 H7]. split; try done.
  - by apply sublist_cons.
  - eapply Forall_impl; [exact H4|]. intros [i k] [(d & Hd & Hf) ?]. split; [|done].
    pose proof (untouched_lookup w w1 k Hu) as Hk. cbn [snd] in Hd. rewrite Hd in Hk.
    destruct (driverLocations w !! k) as [d0|] eqn:Hd0; [|done]. apply (inj Some) in Hk.
    exists d0. split; [done|]. by rewrite <-(proj2 (forget_free _ _ Hk)).
  - intros k Hk. rewrite H5 by done. by apply untouched_lookup.
  - intros i Hi. rewrite H6 by done. by rewrite (un_deliveries _ _ Hu).
  - by rewrite H7, (un_locks _ _ Hu).
Qed.

Lemma swept_assign w w1 id k ids pairs w' :
  id ∉ ids → assigns id k w w1 → swept w1 ids pairs w' → swept w (id :: ids) ((id, k) :: pairs) w'.
Proof.
  intros Hid [(dv & Hdv & Hd) (d & Hk & Hf & Hl) _ Hlk _] [H1 H2 H3 H4 H5 H6 H7].
  assert (k ∉ pairs.*2) as Hkn.
  { intros ([i k'] & -> & Hin)%list_elem_of_fmap. rewrite Forall_forall in H4.
    destruct (H4 _ Hin) as [(d1 & Hd1 & Hf1) _]. cbn [snd] in *.
    rewrite Hl, lookup_insert_eq in Hd1. injection Hd1 as <-. done. }
  assert (id ∉ pairs.*1) as Hin1 by (intros Hin; apply Hid; by eapply elem_of_sublist).
  split; cbn [fmap list_fmap fst snd].
  - by constructor.
  - by apply sublist_skip.
  - constructor; [|done]. cbn [fst snd]. exists (assigned k (now_ms (base w)) dv).
    by rewrite (H6 id Hin1), Hd, lookup_insert_eq.
  - constructor.
    + cbn [snd]. split; [by exists d|]. pose proof (H5 k Hkn) as Hk'. rewrite Hl, lookup_insert_eq in Hk'.
      destruct (driverLocations w' !! k) as [d'|]; [|done]. exists d'. split; [done|].
      apply (inj Some) in Hk'. by rewrite (proj1 (forget_free _ _ Hk')).
    + eapply Forall_impl; [exact H4|]. intros [i k'] [(d1 & Hd1 & Hf1) ?]. split; [|done].
      cbn [snd] in *. rewrite Hl in Hd1. apply lookup_insert_Some in Hd1 as [[-> <-]|[_ Hd1]]; [done|by exists d1].
  - intros k' [Hne Hn]%not_elem_of_cons. by rewrite (H5 k' Hn), Hl, lookup_insert_ne by done.
  - intros i [Hne Hn]%not_elem_of_cons. by rewrite (H6 i Hn), Hd, lookup_insert_ne by done.
  - by rewrite H7, Hlk.
Qed.

Lemma run_attempt n x w :
  run (attempt n x) w =
    (inr (match (run (assignNearestDriver (_id x)) w).1 with
          | inr res => if ar_assigned res then S n else n
          | inl _ => n
          end), (run (assignNearestDriver (_id x)) w).2).
Proof.
  unfold attempt. rewrite run_try_catch, run_bind. by destruct (run _ w) as [[] ?].
Qed.

Lemma sweep_loop cs n w :
  NoDup (_id <$> cs) →
  ∃ pairs w', run (fold_prog attempt n cs) w = (inr (n + length pairs)%nat, w') ∧
    swept w (_id <$> cs) pairs w'.
Proof.
  revert n w. induction cs as [|x cs IH]; intros n w Hnd.
  { exists [], w. split; [by rewrite Nat.add_0_r|apply swept_nil]. }
  cbn [fmap list_fmap] in *. apply NoDup_cons in Hnd as [Hx Hnd].
  cbn [fold_prog]. rewrite run_bind, run_attempt.
  destruct (run (assignNearestDriver (_id x)) w) as [r w1] eqn:Hr.
  apply assignNearestDriver_outcome in Hr. destruct r as [e|res]; cbn [fst snd].
  { destruct (IH n w1 Hnd) as (pairs & w' & Hrun & Hsw). exists pairs, w'. split; [exact Hrun|].
    by eapply swept_skip. }
  destruct Hr as (dv & _ & Hr). destruct (ar_driverId res) as [k|].
  - destruct Hr as (-> & _ & Has & _). destruct (IH (S n) w1 Hnd) as (pairs & w' & Hrun & Hsw).
    exists ((_id x, k) :: pairs), w'. split; [|by eapply swept_assign].
    cbn [length]. rewrite Nat.add_succ_r. exact Hrun.
  - destruct Hr as (-> & Hun & _). destruct (IH n w1 Hnd) as (pairs & w' & Hrun & Hsw).
    exists pairs, w'. split; [exact Hrun|]. by eapply swept_skip.
Qed.

Lemma pending_candidates_NoDup limit w : NoDup (_id <$> pending_candidates limit w).
Proof.
  unfold pending_candidates. rewrite fmap_take.
  eapply sublist_NoDup; [|apply sublist_take].
  rewrite merge_sort_Permutation. apply find_all_NoDup.
Qed.

(** A sweep never fails, tries at most [limit] deliveries, and what it
    counts as assigned are that many deliveries, each now assigned to a driver
    who was free before and is taken after, no driver twice; every other driver
    and delivery is as before. *)
Theorem autoAssignPendingDeliveries_correct limit w :
  ∃ pairs w', let cs := pending_candidates limit w in
    run (autoAssignPendingDeliveries limit) w = (inr (length cs, length pairs), w') ∧
    (length pairs ≤ length cs ≤ limit)%nat ∧ swept w (_id <$> cs) pairs w'.
Proof.
  destruct (sweep_loop (pending_candidates limit w) 0 w (pending_candidates_NoDup limit w))
    as (pairs & w' & Hrun & Hsw).
  exists pairs, w'. cbv zeta. split; [|split; [split|done]].
  - unfold autoAssignPendingDeliveries. rewrite run_bind, run_reads. cbn [fst snd].
    rewrite run_bind, Hrun. done.
  - pose proof (sublist_length _ _ (sw_deliveries _ _ _ _ Hsw)) as Hle. by rewrite !length_fmap in Hle.
  - unfold pending_candidates. rewrite length_take. lia.
Qed.
End AssignmentFacts.

(** ** Concurrent calls *)
Section Concurrency.
Context `{E : Env, D : DispatchEnv, C : DeliveryConsumers}.

Definition candidate_of (p : prog Dispatch (option NearbyDriver)) (k : string) : Prop :=
  ∃ c, p = Done (inr (Some c)) ∧ nd_driverId c = k.
Definition claiming (p : prog Dispatch (option NearbyDriver)) : Prop :=
  (∃ cs, p = claimFirstAvailable cs) ∨ ∃ r, p = Done r.
Definition taken (k : string) (w : Dispatch) : Prop :=
  ∀ d, driverLocations w !! k = Some d → isAvailable d = false.

Lemma try_claim_taken k k' w : taken k w → taken k (try_claim k' w).2.
Proof.
  intros Ht. unfold try_claim. destruct (driverLocations w !! k') as [d|] eqn:Hd; [|done].
  destruct (isAvailable d); [|done]. intros d'. cbn [snd driverLocations with_locations].
  intros [[-> <-]|[_ ?]]%lookup_insert_Some; [done|by apply Ht].
Qed.

Lemma try_claim_wins k w : (try_claim k w).1 = true → ¬ taken k w ∧ taken k (try_claim k w).2.
Proof.
  unfold try_claim. destruct (driverLocations w !! k) as [d|] eqn:Hd; [|done].
  destruct (isAvailable d) eqn:Ha; [|done]. intros _. split.
  - intros Ht. by rewrite (Ht d Hd) in Ha.
  - intros d'. cbn [snd driverLocations with_locations]. rewrite lookup_insert_eq. by intros [= <-].
Qed.

Lemma claims_step k :
  exclusive_steps (λ _, True) (taken k) claiming (λ p, candidate_of p k).
Proof.
  intros B op kk w Hph _.
  cut (claiming (step1 (Step op kk) w).1 ∧ (taken k w → taken k (step1 (Step op kk) w).2) ∧
    (candidate_of (step1 (Step op kk) w).1 k → ¬ taken k w ∧ taken k (step1 (Step op kk) w).2)).
  { intros (H1 & H2 & H3). split_and!; [done|done|done|]. intros Hc. right. by apply H3. }
  destruct Hph as [(cs & ->)|(r & Hr)]; [|done]. destruct cs as [|c cs]; cbn.
  { split_and!; [right; by eexists|done|]. by intros (c & [=] & _). }
  pose proof (try_claim_wins (nd_driverId c) w) as Hwin.
  pose proof (try_claim_taken k (nd_driverId c) w) as Hkeep.
  destruct (try_claim (nd_driverId c) w).1.
  - split_and!; [right; by eexists|done|]. intros (c' & [= <-] & <-). by apply Hwin.
  - split_and!; [left; by eexists|done|]. intros (c' & Hc & _). by destruct cs.
Qed.

(** However the claims of concurrent searches interleave, no two of them
    end with the same driver. *)
Theorem driver_claimed_once (lists : list (list NearbyDriver)) sched w i j ci cj :
  let ps := (interleave sched (claimFirstAvailable <$> lists) w).1 in
  ps !! i = Some (Done (inr (Some ci))) → ps !! j = Some (Done (inr (Some cj))) →
  nd_driverId ci = nd_driverId cj → i = j.
Proof.
  cbv zeta. intros Hi Hj Heq.
  assert (exclusive (λ _, True) (taken (nd_driverId cj)) claiming
            (λ p, candidate_of p (nd_driverId cj)) (claimFirstAvailable <$> lists) w) as Hex.
  { apply exclusive_start; [done|]. intros p (cs & -> & _)%list_elem_of_fmap. split; [left; by eexists|].
    intros (c & Hc & _). destruct cs; discriminate Hc. }
  apply (exclusive_interleave _ _ _ _ sched _ _ (claims_step _)) in Hex.
  eapply (ex_unique _ _ _ _ _ _ Hex); [exact Hi|exact Hj| |]; by eexists.
Qed.

(** *** Positions stay well formed *)
Lemma keeps_base {A} (p : action A) : confined keeps_positions (on_base p).
Proof. apply confined_zoom. by intros b w Hw. Qed.

Lemma find_keeps q : confined keeps_positions (findNearbyDrivers q).
Proof.
  unfold findNearbyDrivers, assertValidCoordinates, resolveRadius, resolveLimit.
  destruct (q_radiusMeters q), (q_limit q); eauto 20 with confined.
  all: repeat first [apply confined_bind; [|intros ?] | apply confined_throw_if | apply confined_reads, _ | done].
Qed.

Lemma claim_keeps cs : confined keeps_positions (claimFirstAvailable cs).
Proof.
  induction cs as [|c cs IH]; cbn [claimFirstAvailable]; [done|].
  apply confined_bind; [|by intros []]. intros w. split; [|done]. unfold try_claim.
  destruct (driverLocations w !! _) as [d|] eqn:Hd; [|by intros ?]. destruct (isAvailable d); [|by intros ?].
  intros Hw. destruct (Hw _ _ Hd) as [Hv []]. by apply positions_wf_insert.
Qed.

Lemma release_keeps k : confined keeps_positions (releaseClaim k).
Proof.
  intros w. split; [|done]. cbn [snd]. unfold release_claim.
  destruct (driverLocations w !! k) as [d|] eqn:Hd; [|by intros ?].
  intros Hw. destruct (Hw _ _ Hd) as [Hv []]. by apply positions_wf_insert.
Qed.

Lemma search_keeps id c n r : confined keeps_positions (search_loop id c n r).
Proof.
  revert r. induction n as [|n IH]; intros r; cbn [search_loop];
    (apply confined_bind; [apply find_keeps|]; intros found);
    (apply confined_bind; [apply claim_keeps|]; intros [x|]).
  2,4: by case_match.
  all: apply confined_bind; [|done]; apply confined_try_catch; [apply keeps_base|]; intros e;
    apply confined_bind; [apply release_keeps|done].
Qed.

Lemma assign_keeps id : confined keeps_positions (assignNearestDriver id).
Proof.
  unfold assignNearestDriver, withLock. apply confined_bind; [apply confined_throw_if|]. intros _.
  apply confined_bind; [apply keeps_base|]. intros tok. apply confined_finally; [|apply keeps_base].
  unfold assign_locked. apply confined_bind; [apply confined_reads, _|]. intros o.
  apply confined_bind; [apply confined_or_throw|]. intros found. case_match; [done|].
  apply confined_bind; [apply confined_or_throw|]. intros c. apply search_keeps.
Qed.

Lemma sweep_keeps n : confined keeps_positions (autoAssignPendingDeliveries n).
Proof.
  unfold autoAssignPendingDeliveries. apply confined_bind; [apply confined_reads, _|]. intros cs.
  apply confined_bind; [|done]. apply confined_fold_prog. intros s x. unfold attempt.
  apply confined_try_catch; [|done]. apply confined_bind; [apply assign_keeps|done].
Qed.

Lemma upsert_keeps i : confined keeps_positions (upsertDriverLocation i).
Proof.
  unfold upsertDriverLocation, assertValidObjectId.
  destruct (isValidObjectId (u_driverId i)) eqn:Hv; [|done]. cbn [negb throw_if].
  apply confined_bind; [done|]. intros _.
  destruct (assertValidCoordinates_cases (u_lat i) (u_lng i)) as [[Hc ->]|[_ (m & ->)]]; [|done].
  apply confined_bind; [done|]. intros _. apply confined_bind; [apply confined_reads, _|]. intros t. cbv zeta.
  apply confined_bind; [by repeat case_match; try apply confined_throw_if|]. intros _.
  apply confined_try_catch; [|done]. intros w. split; [|done].
  destruct (update_valid i) eqn:Hu; [|by intros Hw]. intros Hw. cbn [snd].
  apply positions_wf_insert; [done| |done]. apply upserted_wf; [done|done|].
  intros d Hd. by apply (Hw _ _ Hd).
Qed.

(** The calls on driver positions, their results dropped. *)
Inductive dispatch_call : prog Dispatch unit → Prop :=
  | call_report i : dispatch_call (_ ← upsertDriverLocation i; mret tt)
  | call_nearby q : dispatch_call (_ ← findNearbyDrivers q; mret tt)
  | call_assign id : dispatch_call (_ ← assignNearestDriver id; mret tt)
  | call_sweep limit : dispatch_call (_ ← autoAssignPendingDeliveries limit; mret tt).

Lemma dispatch_call_keeps p : dispatch_call p → confined keeps_positions p.
Proof.
  intros []; apply confined_bind; try done; auto using upsert_keeps, find_keeps, assign_keeps, sweep_keeps.
Qed.

(** C27: Stored positions stay well formed - a point on the globe, heading,
    speed and accuracy in their ranges, an expiry that follows the report -
    whatever reports, searches, assignments and sweeps run, and however their
    accesses interleave. *)
Theorem positions_stay_wf ps sched w :
  (∀ p, p ∈ ps → dispatch_call p) → positions_wf w → positions_wf (interleave sched ps w).2.
Proof.
  intros Hps. refine (proj1 (safe_interleave keeps_positions (λ _ _ _, True) sched ps w _)).
  intros i p Hp%list_elem_of_lookup_2. eapply confined_safe; [by apply dispatch_call_keeps, Hps|done].
Qed.
End Concurrency.

(** ** Examples *)
Module AssignmentExamples.
Export Example_.
(** Distance along the axes, a stand-in for the database's. *)
Definition axes_distance (p q : GeoPoint) : number :=
  let d := Num.add (SpecFloat.SFabs (Num.sub (p_lng p) (p_lng q)))
                   (SpecFloat.SFabs (Num.sub (p_lat p) (p_lat q))) in
  if Num.isFinite d then d else Num.zero.

#[export] Instance dispatch_env : DispatchEnv := {|
  DRIVER_PROXIMITY_DEFAULT_RADIUS_M := 5;
  DRIVER_PROXIMITY_MAX_RADIUS_M := 50;
  DRIVER_PROXIMITY_MAX_RESULTS := 50;
  DRIVER_LOCATION_STALE_AFTER_SECONDS := 300;
  ASSIGNMENT_RADIUS_EXPANSION_STEPS := 3;
  geo_distance := axes_distance
|}.
#[export] Instance dispatch_env_ok : DispatchEnvOk.
Proof.
  split; try done. intros p q. cbn. unfold axes_distance. cbv zeta. by destruct (Num.isFinite (Num.add _ _)) eqn:Hf.
Qed.

Definition at_ (x y : Z) : GeoPoint := mkPoint (Num.of_Z x) (Num.of_Z y).
Definition driver_at (x y : Z) (av : bool) (s : DriverStatus.t) : DriverLocation :=
  mkDriverLocation (at_ x y) av s None None None None 0 300000 0.
Definition near : string := "64b7f0c2a1d3e4f5000000a1".
Definition far : string := "64b7f0c2a1d3e4f5000000a2".
Definition order : Delivery := Example_.dlv DeliveryStatus.FUNDED None <| driverId := None |>.
(** A funded delivery picked up at the origin; the nearest driver is offline,
    the next one is 7 away, outside the first radius. *)
Definition city : Dispatch :=
  mkDispatch (Example_.with_escrow order (Example_.esc EscrowStatus.LOCKED))
    (<[near := driver_at 1 1 true DriverStatus.offline]>
      (<[far := driver_at 3 4 true DriverStatus.online]> ∅))
    (<[Example_.did := mkCoordinates (Some Num.zero) (Some Num.zero) None]> ∅) ∅.

Lemma city_wf : positions_wf city.
Proof.
  intros k d. cbn [city driverLocations].
  intros [[<- <-]|[_ [[<- <-]|[_ Hk]]%lookup_insert_Some]]%lookup_insert_Some;
    [split; [reflexivity|by split]..|]. by rewrite lookup_empty in Hk.
Qed.

Example far_driver_found :
  let x := (run (assignNearestDriver Example_.did) city).1 in
  (match x with inr r => Some (ar_driverId r, ar_radiusMeters r, ar_distanceMeters r) | inl _ => None end)
  = Some (Some far, 10%Z, Some (Num.of_Z 7)).
Proof. vm_compute. reflexivity. Qed.

(** With nobody in reach the reported radius is one doubling past the last one
    that was searched. *)
Example reported_radius :
  let w := with_locations ∅ city in
  (match (run (assignNearestDriver Example_.did) w).1 with inr r => ar_radiusMeters r | inl _ => 0%Z end,
   radius_at ASSIGNMENT_RADIUS_EXPANSION_STEPS DRIVER_PROXIMITY_DEFAULT_RADIUS_M) = (50, 40)%Z.
Proof. vm_compute. reflexivity. Qed.
End AssignmentExamples.

Section AssignmentWitnesses.
Import AssignmentExamples.

Lemma assignNearestDriver_correct_witness :
  ∃ x w', run (assignNearestDriver did) city = (inr x, w') ∧ ar_assigned x = true.
Proof.
  apply (proj2 (assignNearestDriver_correct did city) order (mkPoint Num.zero Num.zero)).
  - split; [reflexivity|reflexivity|reflexivity|discriminate|].
    exists (Doc eid (esc EscrowStatus.LOCKED)). split; vm_compute; reflexivity.
  - reflexivity.
  - vm_compute. reflexivity.
  - reflexivity.
  - vm_compute. reflexivity.
  - intros Hn. assert (driverLocations city !! far = Some (driver_at 3 4 true DriverStatus.online)) as Hk
      by (vm_compute; reflexivity).
    specialize (Hn far _ Hk eq_refl). vm_compute in Hn. discriminate Hn.
Defined.

Lemma autoAssignPendingDeliveries_correct_witness :
  ∃ pairs w', run (autoAssignPendingDeliveries 25) city = (inr (1%nat, length pairs), w') ∧
    swept city [did] pairs w'.
Proof.
  destruct (autoAssignPendingDeliveries_correct 25 city) as (pairs & w' & H1 & _ & H2).
  assert (pending_candidates 25 city = [Doc did order]) as Hc by (vm_compute; reflexivity).
  cbv zeta in H1, H2. rewrite Hc in H1, H2. exists pairs, w'. split; [exact H1|exact H2].
Defined.

Definition claimant : NearbyDriver := toNearbyDriver (at_ 0 0) (far, driver_at 3 4 true DriverStatus.online).

Lemma driver_claimed_once_witness :
  let ps := (interleave [1; 0]%nat (claimFirstAvailable <$> [[claimant]; [claimant]]) city).1 in
  ps !! 1%nat = Some (Done (inr (Some claimant))) ∧ ps !! 0%nat ≠ Some (Done (inr (Some claimant))).
Proof.
  intros ps. assert (ps !! 1%nat = Some (Done (inr (Some claimant)))) as H1 by reflexivity.
  split; [exact H1|]. intros H0.
  discriminate (driver_claimed_once [[claimant]; [claimant]] [1; 0]%nat city 0%nat 1%nat claimant claimant
    H0 H1 eq_refl).
Defined.

Definition report : UpsertDriverLocationInput :=
  mkUpsertInput far (Num.of_Z 10) (Num.of_Z 20) (Some true) (Some DriverStatus.online)
    (Some (Num.of_Z 90)) None None None None.

Lemma positions_stay_wf_witness :
  positions_wf (interleave [0; 1; 1; 1; 0; 1; 1; 0; 1; 1]%nat
    [(_ ← upsertDriverLocation report; mret tt); (_ ← assignNearestDriver did; mret tt)] city).2.
Proof.
  apply positions_stay_wf.
  - intros p [->|[->|[]%not_elem_of_nil]%elem_of_cons]%elem_of_cons; constructor.
  - exact city_wf.
Defined.
End AssignmentWitnesses.
