(* ===== verification/PoolingService.v ===== *)
(** * Order pooling ([src/src/services/poolingService.ts], [src/src/utils/geohash.ts])

    Unassigned deliveries are clustered greedily around seeds, each cluster gets
    a route in which a parcel is picked up before it is dropped off, and a pool
    is given as a whole to one driver.  Trigonometry and powers are
    approximations of the engine and parameters here, the routing provider is
    an interface. *)
From S2P Require Import Prelude JsLib Models Repositories DeliveryService DriverLocations AssignmentService.

(** ** Geohashes *)
Definition BASE32 : string := "0123456789bcdefghjkmnpqrstuvwxyz".

Record GeohashState := mkGeohash {
  minLat : number; maxLat : number; minLng : number; maxLng : number;
  hash_ : string; bit : Z; ch : Z; isLng : bool
}.

(** The upper half of an interval sets the bit. *)
Definition halve (lo hi x : number) : bool * number * number :=
  let mid := Num.div (Num.add lo hi) (Num.of_Z 2) in
  if Num.leb mid x then (true, mid, hi) else (false, lo, mid).

Definition set_bit (b : bool) (bit ch : Z) : Z :=
  if b then Z.lor ch (Z.shiftl 1 (4 - bit)) else ch.

Definition geohash_step (la ln : number) (s : GeohashState) : GeohashState :=
  let s1 :=
    if isLng s then
      let '(b, lo, hi) := halve (minLng s) (maxLng s) ln in
      mkGeohash (minLat s) (maxLat s) lo hi (hash_ s) (bit s) (set_bit b (bit s) (ch s)) (isLng s)
    else
      let '(b, lo, hi) := halve (minLat s) (maxLat s) la in
      mkGeohash lo hi (minLng s) (maxLng s) (hash_ s) (bit s) (set_bit b (bit s) (ch s)) (isLng s) in
  let bit' := (bit s1 + 1)%Z in
  if (bit' =? 5)%Z then
    mkGeohash (minLat s1) (maxLat s1) (minLng s1) (maxLng s1)
      (hash_ s1 +:+ match String.get (Z.to_nat (ch s1)) BASE32 with
                    | Some c => String c "" | None => "undefined" end) 0 0 (negb (isLng s1))
  else mkGeohash (minLat s1) (maxLat s1) (minLng s1) (maxLng s1) (hash_ s1) bit' (ch s1) (negb (isLng s1)).

(** The [while] loop, with fuel. *)
Fixpoint geohash_loop (fuel precision : nat) (la ln : number) (s : GeohashState) : option string :=
  if (precision <=? String.length (hash_ s))%nat then Some (hash_ s) else
  match fuel with
  | O => None
  | S fuel => geohash_loop fuel precision la ln (geohash_step la ln s)
  end.

Definition geohash_start : GeohashState :=
  mkGeohash (Num.of_Z (-90)) (Num.of_Z 90) (Num.of_Z (-180)) (Num.of_Z 180) "" 0 0 true.

(** Five halvings make a character. *)
Definition encodeGeohash (la ln : number) (precision : nat) : option string :=
  geohash_loop (5 * precision) precision la ln geohash_start.

Example geohash_paris :
  encodeGeohash (NumParse.of_string "48.8566") (NumParse.of_string "2.3522") 7 = Some "u09tvw0".
Proof. vm_compute. reflexivity. Qed.

(** ** Data *)
Inductive StopType := pickup_stop | dropoff_stop.
#[export] Instance StopType_eq_dec : EqDecision StopType.
Proof. solve_decision. Defined.

Record Stop := mkStop {
  stop_delivery : string;
  stop_type : StopType;
  coordinates : option Coordinates;
  stop_address : option string
}.

(** A delivery as the lean query returns it. *)
Record PoolItem := mkPoolItem {
  item_id : string;
  item_doc : Delivery;
  item_pickup : Coordinates;
  item_dropoff : option Coordinates
}.

Record PoolingOptions := mkPoolingOptions {
  maxProximityMeters : option number;
  maxPoolSize : option number;
  statuses : option (list DeliveryStatus.t);
  po_center : option GeoPoint;
  po_radiusMeters : option number
}.

Record DeliveryPool := mkDeliveryPool {
  poolId : string;
  pool_deliveries : list PoolItem;
  centroid : GeoPoint;
  routeSequence : list Stop;
  totalEstimatedDistanceMeters : number;
  totalEstimatedDurationMinutes : number
}.

Record AssignPoolResult := mkAssignPoolResult {
  pr_assigned : bool;
  pr_pool : option DeliveryPool;
  pr_driverId : option string;
  pr_reason : option string
}.

(** ** What the service relies on *)
Class PoolingEnv := {
  pooling_enabled : bool;
  math_sin : number → number;
  math_cos : number → number;
  math_atan2 : number → number → number;
  math_pow : number → number → number;
  (** The routing provider: distance and estimated time between two points. *)
  calculateETA : option Coordinates → option Coordinates → prog Dispatch (number * number)
}.

Definition PI : number := NumParse.of_string "3.141592653589793".
Definition EARTH_RADIUS : number := Num.of_Z 6371000.
Definition DEFAULT_PROXIMITY_M : number := Num.of_Z 2000.
Definition DEFAULT_MAX_POOL_SIZE : number := Num.of_Z 5.
Definition SAFETY_LIMIT : nat := 200.

Section Distance.
Context `{P : PoolingEnv}.

(** A missing number is [undefined], which arithmetic turns into NaN. *)
Definition num (x : option number) : number := nullish x SpecFloat.S754_nan.

Definition toRad (deg : number) : number := Num.div (Num.mul deg PI) (Num.of_Z 180).

Definition haversine (a b : Coordinates) : number :=
  let dLat := toRad (Num.sub (num (lat b)) (num (lat a))) in
  let dLng := Num.sub (num (lng b)) (num (lng a)) in
  let dLng := if Num.ltb (Num.of_Z 180) dLng then Num.sub dLng (Num.of_Z 360)
              else if Num.ltb dLng (Num.of_Z (-180)) then Num.add dLng (Num.of_Z 360) else dLng in
  let dLng := toRad dLng in
  let two := Num.of_Z 2 in
  let h := Num.add (math_pow (math_sin (Num.div dLat two)) two)
             (Num.mul (Num.mul (math_cos (toRad (num (lat a)))) (math_cos (toRad (num (lat b)))))
                (math_pow (math_sin (Num.div dLng two)) two)) in
  Num.mul (Num.mul EARTH_RADIUS two)
    (math_atan2 (Math.sqrt h) (Math.sqrt (Num.sub (Num.of_Z 1) h))).

(** On a missing point the property access throws. *)
Definition haversineMeters (a b : option Coordinates) : option number :=
  match a, b with Some a, Some b => Some (haversine a b) | _, _ => None end.

(** ** Clusters *)

(** The inner loop: the pool so far and the ids already used. *)
Definition gather_step (maxSize proximity : number) (seed : Coordinates)
    (s : list PoolItem * list string) (other : PoolItem) : list PoolItem * list string :=
  let '(pool, used) := s in
  if includes (item_id other) used || Num.leb maxSize (Num.of_Z (Z.of_nat (length pool))) then s
  else if Num.leb (haversine seed (item_pickup other)) proximity
  then (pool ++ [other], item_id other :: used) else s.

Definition gather (maxSize proximity : number) (cs : list PoolItem) (used : list string)
    (seed : PoolItem) : list PoolItem * list string :=
  foldl (gather_step maxSize proximity (item_pickup seed)) ([seed], item_id seed :: used) cs.

(** ** Routes *)
Definition stops_of (d : PoolItem) : list Stop :=
  [mkStop (item_id d) pickup_stop (Some (item_pickup d)) (address (item_pickup d));
   mkStop (item_id d) dropoff_stop (item_dropoff d) (item_dropoff d ≫= address)].
Definition stops (ds : list PoolItem) : list Stop := ds ≫= stops_of.

Definition picked_up (id : string) (sequence : list Stop) : bool :=
  some (λ s, String.eqb (stop_delivery s) id && bool_decide (stop_type s = pickup_stop)) sequence.
Definition allowed_stop (sequence : list Stop) (s : Stop) : bool :=
  negb (bool_decide (stop_type s = dropoff_stop) && negb (picked_up (stop_delivery s) sequence)).

(** One scan over the remaining stops from index [i]. *)
Fixpoint scan (sequence : list Stop) (current : Stop) (remaining : list Stop)
    (i nearestIdx : nat) (nearestDist : number) : option nat :=
  match remaining with
  | [] => Some nearestIdx
  | s :: remaining =>
      if allowed_stop sequence s then
        dist ← haversineMeters (coordinates current) (coordinates s);
        if Num.ltb dist nearestDist then scan sequence current remaining (S i) i dist
        else scan sequence current remaining (S i) nearestIdx nearestDist
      else scan sequence current remaining (S i) nearestIdx nearestDist
  end.

Definition infinity : number := SpecFloat.S754_infinity false.

(** The [while] loop; [n] is the number of remaining stops. *)
Fixpoint route_loop (n : nat) (sequence : list Stop) (current : Stop) (remaining : list Stop)
    : option (list Stop) :=
  match n, remaining with
  | S n, _ :: _ =>
      idx ← scan sequence current remaining 0 0 infinity;
      next ← remaining !! idx;
      route_loop n (sequence ++ [next]) next (delete idx remaining)
  | _, _ => Some sequence
  end.

Definition buildNearestNeighbourRoute (ds : list PoolItem) : option (list Stop) :=
  match stops ds with
  | [] => None
  | current :: remaining => route_loop (length remaining) [current] current remaining
  end.

Definition calculateCentroid (points : list Coordinates) : GeoPoint :=
  let n := Num.of_Z (Z.of_nat (length points)) in
  let sum := foldl (λ acc p, mkPoint (Num.add (p_lng acc) (num (lng p))) (Num.add (p_lat acc) (num (lat p))))
               (mkPoint Num.zero Num.zero) points in
  mkPoint (Num.div (p_lng sum) n) (Num.div (p_lat sum) n).

Fixpoint route_totals (sequence : list Stop) (distance duration : number) : prog Dispatch (number * number) :=
  match sequence with
  | from :: ((to :: _) as rest) =>
      eta ← calculateETA (coordinates from) (coordinates to);
      route_totals rest (Num.add distance eta.1) (Num.add duration eta.2)
  | _ => mret (distance, duration)
  end.

Definition type_error : error := PlainError "Cannot read properties of undefined (reading 'lat')".

Definition buildPool (ds : list PoolItem) : prog Dispatch DeliveryPool :=
  let c := calculateCentroid (item_pickup <$> ds) in
  sequence ← or_throw (buildNearestNeighbourRoute ds) type_error;
  totals ← route_totals sequence Num.zero Num.zero;
  t ← reads (λ w, now_ms (base w));
  mret (mkDeliveryPool
    ("pool_" +:+ nullish (encodeGeohash (p_lat c) (p_lng c) 6) "" +:+ "_" +:+ pretty t)
    ds c sequence (Math.round totals.1) (Math.round totals.2)).
End Distance.

(** ** The service *)
Section PoolingService.
Context `{E : Env, D : DispatchEnv, C : DeliveryConsumers, P : PoolingEnv}.

(** The geographic window: half its width in degrees. *)
Definition window_degrees (r : option number) : number :=
  match r with
  | Some r => if Num.eqb r Num.zero || negb (Num.eqb r r) then NumParse.of_string "0.05"
              else Num.div r (Num.of_Z 111320)
  | None => NumParse.of_string "0.05"
  end.

Definition in_window (c x deg : number) : bool :=
  Num.leb (Num.sub c deg) x && Num.leb x (Num.add c deg).

Definition pickup_matches (o : PoolingOptions) (p : Coordinates) : bool :=
  match lat p, lng p with
  | Some la, Some ln =>
      match po_center o with
      | Some c =>
          let deg := window_degrees (po_radiusMeters o) in
          in_window (p_lat c) la deg && in_window (p_lng c) ln deg
      | None => true
      end
  | _, _ => false
  end.

Definition poolable (o : PoolingOptions) (d : Delivery) : bool :=
  includes (status d) (nullish (statuses o) [DeliveryStatus.PENDING; DeliveryStatus.FUNDED])
  && negb (isDeleted d) && negb (has_driver d).

Definition to_item (o : PoolingOptions) (w : Dispatch) (d : hydrated Delivery) : option PoolItem :=
  p ← pickupCoordinates w !! _id d;
  if pickup_matches o p then Some (mkPoolItem (_id d) (body d) p (dropoffCoordinates w !! _id d))
  else None.

Definition pool_candidates (o : PoolingOptions) (w : Dispatch) : list PoolItem :=
  take SAFETY_LIMIT
    (omap (to_item o w) (merge_sort older (find_all (poolable o) (deliveries (base w))))).

(** The outer loop: one seed. *)
Definition pool_step (maxSize proximity : number) (cs : list PoolItem)
    (s : list DeliveryPool * list string) (seed : PoolItem) : prog Dispatch (list DeliveryPool * list string) :=
  let '(pools, used) := s in
  if includes (item_id seed) used then mret s else
  let '(ds, used) := gather maxSize proximity cs used seed in
  pool ← buildPool ds;
  mret (pools ++ [pool], used).

Definition createPools (o : PoolingOptions) : prog Dispatch (list DeliveryPool) :=
  if negb pooling_enabled then mret [] else
  let proximity := nullish (maxProximityMeters o) DEFAULT_PROXIMITY_M in
  let maxSize := nullish (maxPoolSize o) DEFAULT_MAX_POOL_SIZE in
  candidates ← reads (pool_candidates o);
  s ← fold_prog (pool_step maxSize proximity candidates) ([], []) candidates;
  mret s.1.

Definition not_assigned (reason : string) : AssignPoolResult :=
  mkAssignPoolResult false None None (Some reason).

(** The claim is the one of the assignment service. *)
Definition claimNearest : list NearbyDriver → prog Dispatch (option NearbyDriver) := claimFirstAvailable.

Definition assign_all (k : string) (ds : list PoolItem) : prog Dispatch unit :=
  for_each ds (λ d, _ ← on_base (assignDriver (item_id d) k); mret tt).

Definition assignPoolToNearestDriver (pool : DeliveryPool) : prog Dispatch AssignPoolResult :=
  if negb pooling_enabled then mret (not_assigned "Delivery pooling is disabled by feature flag") else
  match pool_deliveries pool with
  | [] => mret (not_assigned "Empty pool")
  | _ =>
      found ← findNearbyDrivers (nearby_query (centroid pool) DRIVER_PROXIMITY_DEFAULT_RADIUS_M);
      match drivers found with
      | [] => mret (not_assigned "No available driver near the pool centroid")
      | ds =>
          c ← claimNearest ds;
          match c with
          | None => mret (not_assigned "Could not claim any driver (race condition)")
          | Some c =>
              try_catch
                (_ ← assign_all (nd_driverId c) (pool_deliveries pool);
                 mret (mkAssignPoolResult true (Some pool) (Some (nd_driverId c)) None))
                (λ e, _ ← writes (release_claim (nd_driverId c)); throw e)
          end
      end
  end.

Definition assign_multi (results : list AssignPoolResult) (pool : DeliveryPool)
    : prog Dispatch (list AssignPoolResult) :=
  if (length (pool_deliveries pool) <? 2)%nat then mret results else
  result ← assignPoolToNearestDriver pool;
  mret (results ++ [result]).

Definition poolAndAssign (o : PoolingOptions)
    : prog Dispatch (nat * nat * list AssignPoolResult) :=
  pools ← createPools o;
  results ← fold_prog assign_multi [] pools;
  mret (length pools, length (List.filter pr_assigned results), results).
End PoolingService.

(** ** The geohash loop ends with the length asked for *)
Section Geohash.
Record geohash_inv (n : nat) (s : GeohashState) : Prop := {
  gi_count : (Z.of_nat n = 5 * Z.of_nat (String.length (hash_ s)) + bit s)%Z;
  gi_bit : (0 ≤ bit s < 5)%Z;
  gi_ch : (0 ≤ ch s < 32)%Z
}.

Lemma lor_below a b : (0 ≤ a < 32)%Z → (0 ≤ b < 32)%Z → (0 ≤ Z.lor a b < 32)%Z.
Proof.
  intros Ha Hb. split; [apply Z.lor_nonneg; lia|]. change 32%Z with (2 ^ 5)%Z in *.
  destruct (Z.eq_dec (Z.lor a b) 0) as [->|Hne]; [lia|].
  assert (0 ≤ Z.lor a b)%Z by (apply Z.lor_nonneg; lia).
  apply Z.log2_lt_pow2; [lia|]. rewrite Z.log2_lor by lia. apply Z.max_lub_lt.
  - destruct (Z.eq_dec a 0) as [->|]; [done|]. apply Z.log2_lt_pow2; lia.
  - destruct (Z.eq_dec b 0) as [->|]; [done|]. apply Z.log2_lt_pow2; lia.
Qed.

Lemma set_bit_below b k c : (0 ≤ k < 5)%Z → (0 ≤ c < 32)%Z → (0 ≤ set_bit b k c < 32)%Z.
Proof.
  intros Hk Hc. destruct b; [|done]. apply lor_below; [done|].
  assert (k = 0 ∨ k = 1 ∨ k = 2 ∨ k = 3 ∨ k = 4)%Z as [->|[->|[->|[->| ->]]]] by lia; done.
Qed.

Lemma base32_char c : (0 ≤ c < 32)%Z → is_Some (String.get (Z.to_nat c) BASE32).
Proof.
  intros Hc. assert (Forall (λ n, is_Some (String.get n BASE32)) (List.seq 0 32)) as Hall by (repeat constructor; by eexists).
  rewrite Forall_forall in Hall. apply Hall, elem_of_seq. lia.
Qed.

Lemma string_length_app (a b : string) : String.length (a +:+ b) = (String.length a + String.length b)%nat.
Proof. induction a as [|c a IH]; [done|]. change (S (String.length (a +:+ b)) = S (String.length a + String.length b)). by rewrite IH. Qed.

Lemma geohash_step_inv n la ln s : geohash_inv n s → geohash_inv (S n) (geohash_step la ln s).
Proof.
  intros [Hn Hb Hc]. unfold geohash_step.
  set (x := if isLng s then halve (minLng s) (maxLng s) ln else halve (minLat s) (maxLat s) la).
  assert (0 ≤ set_bit x.1.1 (bit s) (ch s) < 32)%Z as Hc' by by apply set_bit_below.
  destruct (base32_char _ Hc') as [c Hget]. subst x.
  destruct (isLng s); [destruct (halve (minLng s) _ _) as [[b lo] hi]|destruct (halve (minLat s) _ _) as [[b lo] hi]];
    cbn [fst bit ch hash_ isLng] in *; (destruct (Z.eqb_spec (bit s + 1) 5) as [He|He];
      [rewrite Hget|]; split; cbn [bit ch hash_]; try lia);
    rewrite string_length_app; cbn [String.length]; lia.
Qed.

Lemma geohash_loop_ends fuel p n la ln s :
  geohash_inv n s → (n ≤ 5 * p)%nat → (5 * p ≤ n + fuel)%nat →
  ∃ h, geohash_loop fuel p la ln s = Some h ∧ String.length h = p.
Proof.
  revert n s. induction fuel as [|fuel IH]; intros n s Hinv Hn Hf; cbn [geohash_loop];
    destruct (Nat.leb_spec p (String.length (hash_ s))) as [Hle|Hlt];
    try (exists (hash_ s); split; [done|]; destruct Hinv; lia).
  - destruct Hinv. lia.
  - apply (IH (S n)); [by apply geohash_step_inv| |lia]. destruct Hinv. lia.
Qed.

Lemma encodeGeohash_length la ln p : ∃ h, encodeGeohash la ln p = Some h ∧ String.length h = p.
Proof. apply (geohash_loop_ends _ _ 0); [by split|lia|lia]. Qed.
End Geohash.

(** ** Routes *)
Section RouteFacts.
Context `{P : PoolingEnv}.

Ltac list_incl :=
  intros ?; rewrite ?elem_of_app, ?elem_of_cons, ?elem_of_app, ?elem_of_cons, ?elem_of_nil; tauto.

(** Before a drop-off in [l], after the stops [pre], its pickup was made. *)
Definition pickups_first (pre l : list Stop) : Prop :=
  ∀ l1 s l2, l = l1 ++ s :: l2 → stop_type s = dropoff_stop →
    picked_up (stop_delivery s) (pre ++ l1) = true.

Lemma picked_up_spec id l :
  picked_up id l = true ↔ ∃ s, s ∈ l ∧ stop_delivery s = id ∧ stop_type s = pickup_stop.
Proof.
  unfold picked_up. rewrite some_true. split; intros (s & Hs & H); exists s; (split; [done|]).
  - by apply andb_true_iff in H as [->%String.eqb_eq ->%bool_decide_eq_true].
  - destruct H as [<- ->]. by rewrite String.eqb_refl.
Qed.

Lemma picked_up_mono id l l' : l ⊆ l' → picked_up id l = true → picked_up id l' = true.
Proof. rewrite !picked_up_spec. intros Hl (s & ? & ?). exists s. auto. Qed.

Lemma allowed_stop_spec l s :
  allowed_stop l s = true ↔ (stop_type s = dropoff_stop → picked_up (stop_delivery s) l = true).
Proof.
  unfold allowed_stop. case_bool_decide as Hd; cbn [andb negb]; [|naive_solver].
  destruct (picked_up _ _); naive_solver.
Qed.

Lemma scan_choice sequence current rem i idx best n :
  scan sequence current rem i idx best = Some n →
  n = idx ∨ ∃ s, (i ≤ n)%nat ∧ rem !! (n - i)%nat = Some s ∧ allowed_stop sequence s = true.
Proof.
  revert i idx best. induction rem as [|s rem IH]; intros i idx best; cbn [scan]; [intros [= ->]; by left|].
  assert (∀ idx best, scan sequence current rem (S i) idx best = Some n →
    n = idx ∨ ∃ s', (i ≤ n)%nat ∧ (s :: rem) !! (n - i)%nat = Some s' ∧ allowed_stop sequence s' = true) as Hgo.
  { intros idx' best' [->|(s' & Hi & Hs' & Ha)]%IH; [by left|]. right. exists s'. split; [lia|].
    replace (n - i)%nat with (S (n - S i)) by lia. done. }
  destruct (allowed_stop sequence s) eqn:Ha; [|apply Hgo].
  destruct (haversineMeters _ _) as [d|]; [|done]. cbn [mbind option_bind].
  destruct (Num.ltb d best); [|apply Hgo]. intros [->|?]%Hgo; [|by right].
  right. exists s. replace (i - i)%nat with 0%nat by lia. done.
Qed.

Lemma scan_defined sequence current rem i idx best :
  is_Some (coordinates current) →
  is_Some (scan sequence current rem i idx best) ↔
  ∀ s, s ∈ rem → allowed_stop sequence s = true → is_Some (coordinates s).
Proof.
  intros [c Hc]. revert i idx best. induction rem as [|s rem IH]; intros i idx best; cbn [scan].
  { split; [by intros _ s ?%not_elem_of_nil|by eexists]. }
  destruct (allowed_stop sequence s) eqn:Ha.
  - unfold haversineMeters. rewrite Hc. destruct (coordinates s) as [cs|] eqn:Hcs; cbn [mbind option_bind].
    + case_match; rewrite IH; (split; intros Hall s'; [intros [->|?]%elem_of_cons; [by rewrite Hcs|by apply Hall]|
        intros Hin; apply Hall; by right]).
    + split; [by intros []|]. intros Hall. specialize (Hall s (list_elem_of_here _ _) Ha). rewrite Hcs in Hall. by destruct Hall.
  - rewrite IH. split; intros Hall s'; [intros [->|?]%elem_of_cons; [congruence|by apply Hall]|
      intros Hin; apply Hall; by right].
Qed.

(** The chosen stop is one that may be visited. *)
Lemma chosen_allowed sequence current rem n next :
  pickups_first sequence rem → scan sequence current rem 0 0 infinity = Some n → rem !! n = Some next →
  allowed_stop sequence next = true.
Proof.
  intros Hp Hs Hn. apply scan_choice in Hs as [->|(s & _ & Hs & Ha)].
  - destruct rem as [|s rem]; [done|]. injection Hn as ->. apply allowed_stop_spec. intros Hd.
    specialize (Hp [] next rem eq_refl Hd). by rewrite app_nil_r in Hp.
  - rewrite Nat.sub_0_r in Hs. congruence.
Qed.

Lemma pickups_first_delete sequence rem n next :
  pickups_first sequence rem → rem !! n = Some next →
  pickups_first (sequence ++ [next]) (delete n rem).
Proof.
  intros Hp Hn. rewrite delete_take_drop. apply take_drop_middle in Hn.
  set (a := take n rem) in *. set (b := drop (S n) rem) in *. clearbody a b. subst rem.
  intros l1 s l2 Heq Hd.
  assert (∃ l1', picked_up (stop_delivery s) (sequence ++ l1') = true ∧ l1' ⊆ next :: l1) as (l1' & Hpk & Hsub).
  { apply app_eq_app in Heq as (k & [[-> Hk]|[-> Hb]]).
    - destruct k as [|s' k]; cbn [app] in Hk.
      + subst b. exists (l1 ++ [next]). rewrite app_nil_r in Hp. split; [|list_incl].
        apply (Hp _ s l2); [|done]. by rewrite <-app_assoc.
      + injection Hk as <- ->. exists l1. split; [|list_incl].
        apply (Hp _ s (k ++ next :: b)); [|done]. by rewrite <-app_assoc.
    - exists (a ++ next :: k). subst b. split; [|list_incl].
      apply (Hp _ s l2); [|done]. by rewrite <-app_assoc. }
  eapply picked_up_mono; [|exact Hpk]. intros x. specialize (Hsub x). revert Hsub.
  rewrite !elem_of_app, list_elem_of_singleton, elem_of_cons. tauto.
Qed.

Lemma pickups_first_snoc l next :
  pickups_first [] l → allowed_stop l next = true → pickups_first [] (l ++ [next]).
Proof.
  intros Hp Ha l1 s l2 Heq Hd. cbn [app].
  destruct (decide (l2 = [])) as [->|Hne].
  - apply app_inj_tail in Heq as [-> ->]. by apply allowed_stop_spec in Ha.
  - destruct (exists_last Hne) as (l2' & z & ->). rewrite app_comm_cons, app_assoc in Heq.
    apply app_inj_tail in Heq as [-> _]. by apply (Hp l1 s l2').
Qed.

Lemma delete_perm (rem : list Stop) n next : rem !! n = Some next → rem ≡ₚ next :: delete n rem.
Proof.
  intros Hn. rewrite delete_take_drop. apply take_drop_middle in Hn. rewrite <-Hn at 1.
  by rewrite Permutation_middle.
Qed.

Lemma route_loop_sound n sequence current rem r :
  length rem = n → pickups_first sequence rem → pickups_first [] sequence →
  route_loop n sequence current rem = Some r → r ≡ₚ sequence ++ rem ∧ pickups_first [] r.
Proof.
  revert sequence current rem. induction n as [|n IH]; intros sequence current rem Hlen Hp Hs.
  { destruct rem; [|done]. intros [= <-]. by rewrite app_nil_r. }
  destruct rem as [|s0 rem0]; [done|]. set (rem := s0 :: rem0) in *.
  cbn [route_loop]. unfold rem at 1. fold rem.
  destruct (scan sequence current rem 0 0 infinity) as [idx|] eqn:Hscan; [|done]. cbn [mbind option_bind].
  destruct (rem !! idx) as [next|] eqn:Hidx; [|done]. cbn [mbind option_bind].
  pose proof (chosen_allowed _ _ _ _ _ Hp Hscan Hidx) as Ha. pose proof (delete_perm _ _ _ Hidx) as Hperm.
  intros Hr. apply IH in Hr as [Hr ?].
  - split; [|done]. rewrite Hr, <-app_assoc. cbn [app]. by apply Permutation_app_head.
  - apply Permutation_length in Hperm. cbn [length] in Hperm. lia.
  - by apply pickups_first_delete.
  - by apply pickups_first_snoc.
Qed.

Definition located (s : Stop) : Prop := is_Some (coordinates s).

Lemma route_loop_defined n sequence current rem :
  length rem = n → pickups_first sequence rem → located current →
  is_Some (route_loop n sequence current rem) ↔ Forall located rem.
Proof.
  revert sequence current rem. induction n as [|n IH]; intros sequence current rem Hlen Hp Hc.
  { destruct rem; [|done]. split; [by constructor|by eexists]. }
  destruct rem as [|s0 rem0]; [done|]. set (rem := s0 :: rem0) in *.
  cbn [route_loop]. unfold rem at 1. fold rem.
  pose proof (scan_defined sequence current rem 0 0 infinity Hc) as Hd.
  destruct (scan sequence current rem 0 0 infinity) as [idx|] eqn:Hscan; cbn [mbind option_bind].
  - assert (is_Some (rem !! idx)) as [next Hidx].
    { apply scan_choice in Hscan as [->|(s & _ & Hs & _)]; [by exists s0|rewrite Nat.sub_0_r in Hs; by eexists]. }
    rewrite Hidx. cbn [mbind option_bind].
    pose proof (chosen_allowed _ _ _ _ _ Hp Hscan Hidx) as Ha. pose proof (delete_perm _ _ _ Hidx) as Hperm.
    assert (located next) as Hloc.
    { apply (proj1 Hd); [by eexists| |done]. by eapply list_elem_of_lookup_2. }
    rewrite IH; [|apply Permutation_length in Hperm; cbn [length] in Hperm; lia|by apply pickups_first_delete|done].
    assert (Forall located rem ↔ Forall located (next :: delete idx rem)) as -> by by rewrite <-Hperm.
    rewrite Forall_cons. tauto.
  - split; [by intros []|]. intros Hall. rewrite Forall_forall in Hall.
    destruct (proj2 Hd) as [? [=]]. intros s Hs _. by apply Hall.
Qed.

Lemma stops_pickups_first ds sequence : pickups_first sequence (stops ds).
Proof.
  revert sequence. induction ds as [|d ds IH]; intros sequence l1 s l2 Heq Hd; [by destruct l1|].
  change (stops (d :: ds)) with (stops_of d ++ stops ds) in Heq. cbn [stops_of app] in Heq.
  destruct l1 as [|s1 [|s2 l1]]; cbn [app] in Heq.
  - apply (f_equal head) in Heq. injection Heq as <-. done.
  - pose proof (f_equal head Heq) as H1. pose proof (f_equal (head ∘ tail) Heq) as H2. cbn in H1, H2.
    injection H1 as <-. injection H2 as <-. apply picked_up_spec.
    exists (mkStop (item_id d) pickup_stop (Some (item_pickup d)) (address (item_pickup d))). split; [|by split].
    apply elem_of_app. right. by apply list_elem_of_singleton.
  - pose proof (f_equal (tail ∘ tail) Heq) as H3. cbn in H3.
    eapply picked_up_mono; [|by apply (IH sequence l1 s l2)]. list_incl.
Qed.

Lemma stops_located ds : Forall located (stops ds) ↔ Forall (λ d, is_Some (item_dropoff d)) ds.
Proof.
  induction ds as [|d ds IH]; [by split; constructor|].
  change (stops (d :: ds)) with (stops_of d ++ stops ds). rewrite Forall_app, IH, Forall_cons.
  unfold stops_of. rewrite !Forall_cons, Forall_nil. unfold located. cbn [coordinates].
  split; [tauto|]. intros [? ?]. split_and!; try done; by eexists.
Qed.

(** The stops of a route are the stops of its deliveries; each parcel is picked
    up before it is dropped off; a route exists unless a drop-off is missing. *)
Lemma route_correct d ds :
  (∀ r, buildNearestNeighbourRoute (d :: ds) = Some r →
     r ≡ₚ stops (d :: ds) ∧ pickups_first [] r ∧ head r = head (stops (d :: ds))) ∧
  (is_Some (buildNearestNeighbourRoute (d :: ds)) ↔ Forall (λ d, is_Some (item_dropoff d)) (d :: ds)).
Proof.
  unfold buildNearestNeighbourRoute. pose proof (stops_pickups_first (d :: ds)) as Hf.
  rewrite <-stops_located. change (stops (d :: ds)) with (stops_of d ++ stops ds) in *.
  cbn [stops_of app] in *. set (s1 := mkStop _ pickup_stop _ _) in *. set (rem := mkStop _ dropoff_stop _ _ :: stops ds) in *.
  assert (pickups_first [s1] rem) as Hp.
  { intros l1 s l2 Heq Hd. apply (Hf [] (s1 :: l1) s l2); [|done]. by rewrite Heq. }
  assert (pickups_first [] [s1]) as Hs.
  { intros [|x l1] s l2 Heq Hd; cbn [app] in Heq.
    - apply (f_equal head) in Heq. injection Heq as <-. done.
    - apply (f_equal tail) in Heq. cbn in Heq. by destruct l1. }
  split.
  - intros r Hr. pose proof (route_loop_sound _ _ _ _ _ eq_refl Hp Hs Hr) as [Hperm Hpf].
    split_and!; [exact Hperm|done|].
    assert (∀ n q c m r, route_loop n (s1 :: q) c m = Some r → head r = Some s1) as Hhead.
    { intros n. induction n as [|n IHn]; intros q c m r'; cbn [route_loop]; [by intros [= <-]|].
      destruct m; [by intros [= <-]|]. destruct (scan _ _ _ _ _ _); [|done]. cbn [mbind option_bind].
      destruct (_ !! _); [|done]. cbn [mbind option_bind app]. apply IHn. }
    apply (Hhead _ _ _ _ _ Hr).
  - rewrite route_loop_defined; [|done|done|by eexists]. rewrite Forall_cons.
    split; [intros Hr; split; [by eexists|done]|tauto].
Qed.
End RouteFacts.

(** ** Pools *)
Class RoutingOk `{PoolingEnv} : Prop :=
  eta_returns a b w : ∃ r, run (calculateETA a b) w = (inr r, w).

Lemma foldl_inv {A B} (I : A → Prop) (f : A → B → A) l a :
  I a → (∀ a x, x ∈ l → I a → I (f a x)) → I (foldl f a l).
Proof.
  revert a. induction l as [|x l IH]; intros a Ha Hf; [done|]. cbn. apply IH; [apply Hf; [left|done]|].
  intros a' y Hy. apply Hf. by right.
Qed.

Section PoolFacts.
Context `{E : Env, D : DispatchEnv, C : DeliveryConsumers, P : PoolingEnv, ROk : !RoutingOk}.

Lemma run_route_totals r w a b : ∃ t, run (route_totals r a b) w = (inr t, w).
Proof.
  revert a b. induction r as [|x [|y r] IH]; intros a b; [by eexists..|].
  change (route_totals (x :: y :: r) a b) with
    (eta ← calculateETA (coordinates x) (coordinates y);
     route_totals (y :: r) (Num.add a eta.1) (Num.add b eta.2)).
  rewrite run_bind. destruct (eta_returns (coordinates x) (coordinates y) w) as [t ->]. apply IH.
Qed.

Lemma run_buildPool ds w :
  match buildNearestNeighbourRoute ds with
  | None => run (buildPool ds) w = (inl type_error, w)
  | Some r => ∃ pool, run (buildPool ds) w = (inr pool, w) ∧ pool_deliveries pool = ds ∧ routeSequence pool = r
  end.
Proof.
  unfold buildPool. destruct (buildNearestNeighbourRoute ds) as [r|]; [|done].
  rewrite run_bind, run_or_throw. cbn [fst snd]. rewrite run_bind.
  destruct (run_route_totals r w Num.zero Num.zero) as [t ->]. cbn [fst snd].
  rewrite run_bind, run_reads. cbn [fst snd]. by eexists.
Qed.

Section Clusters.
Context (maxSize proximity : number) (n : nat) (cs : list PoolItem).
Hypothesis max_size : maxSize = Num.of_Z (Z.of_nat n).
Hypothesis size_range : (1 ≤ Z.of_nat n < 2 ^ 53)%Z.
Hypothesis ids_unique : NoDup (item_id <$> cs).

(** What a cluster is: a seed and later candidates close to it. *)
Record cluster (ds : list PoolItem) : Prop := {
  cl_members : ds ⊆ cs;
  cl_size : (1 ≤ length ds ≤ n)%nat;
  cl_near : ∀ seed d, head ds = Some seed → d ∈ tail ds →
    Num.leb (haversine (item_pickup seed) (item_pickup d)) proximity = true
}.

Lemma gather_spec used seed ds used' :
  seed ∈ cs → NoDup used → item_id seed ∉ used →
  gather maxSize proximity cs used seed = (ds, used') →
  cluster ds ∧ seed ∈ ds ∧ used' ≡ₚ (item_id <$> ds) ++ used ∧ NoDup used'.
Proof.
  intros Hseed Hnd Hn Hg.
  set (I := λ s : list PoolItem * list string,
    cluster s.1 ∧ head s.1 = Some seed ∧ s.2 ≡ₚ (item_id <$> s.1) ++ used ∧ NoDup s.2).
  assert (I (ds, used')) as (Hcl & Hhd & ? & ?).
  { rewrite <-Hg. unfold gather. apply (foldl_inv I).
    - split_and!; [split| | |]; cbn [fst snd head tail length fmap list_fmap app].
      + intros x ->%list_elem_of_singleton. done.
      + lia.
      + intros ? ? _ []%not_elem_of_nil.
      + done.
      + done.
      + by constructor.
    - intros [pool u] other Hother ([Hm Hs Hnear] & Hh & Hp & Hu). unfold gather_step. cbn [fst snd] in *.
      destruct (includes (item_id other) u) eqn:Hin; cbn [orb]; [by split_and!|].
      destruct (Num.leb maxSize _) eqn:Hfull; [by split_and!|].
      destruct (Num.leb _ proximity) eqn:Hdist; [|by split_and!].
      assert (item_id other ∉ u) as Hother' by by (intros Hi%includes_true; congruence).
      rewrite max_size, Num.of_Z_leb in Hfull by lia. apply Z.leb_gt in Hfull.
      destruct pool as [|s pool]; [done|]. injection Hh as ->. cbn [app head tail] in *.
      split_and!; cbn [fst snd head tail]; [split| | |].
      + intros x. rewrite elem_of_cons, elem_of_app, list_elem_of_singleton.
        intros [->|[Hx| ->]]; [done| |done]. apply Hm. by right.
      + cbn [length] in *. rewrite length_app. cbn [length]. lia.
      + intros s' d [= <-] [Hd|Hd%list_elem_of_singleton]%elem_of_app; [by apply Hnear|by subst d].
      + done.
      + rewrite Hp. cbn [fmap list_fmap app]. rewrite fmap_app. cbn [fmap list_fmap].
        rewrite <-!app_assoc. cbn [app]. etrans; [apply perm_swap|]. apply perm_skip, Permutation_middle.
      + by constructor. }
  split_and!; try done. by apply head_Some_elem_of.
Qed.

(** The loop over the seeds. *)
Record pooled (pools : list DeliveryPool) (used : list string) : Prop := {
  po_used : used ≡ₚ item_id <$> (pools ≫= pool_deliveries);
  po_nodup : NoDup used;
  po_clusters : Forall (λ p, cluster (pool_deliveries p) ∧
    buildNearestNeighbourRoute (pool_deliveries p) = Some (routeSequence p)) pools
}.

Lemma pooled_snoc pools used p ds used' :
  pooled pools used → cluster ds → pool_deliveries p = ds →
  buildNearestNeighbourRoute ds = Some (routeSequence p) →
  used' ≡ₚ (item_id <$> ds) ++ used → NoDup used' → pooled (pools ++ [p]) used'.
Proof.
  intros [Hu _ Hc] Hcl <- Hr Hu' Hn. split; [|done|].
  - rewrite Hu', Hu, bind_app, fmap_app. cbn [mbind list_bind]. by rewrite app_nil_r, Permutation_app_comm.
  - apply Forall_app. split; [done|]. by constructor.
Qed.

Definition has_dropoff (d : PoolItem) : Prop := is_Some (item_dropoff d).

Lemma cluster_route ds : cluster ds → Forall has_dropoff ds → is_Some (buildNearestNeighbourRoute ds).
Proof.
  intros [_ Hs _] Hd. destruct ds as [|d ds]; [cbn in Hs; lia|]. by apply route_correct.
Qed.

Lemma run_pool_step pools used seed w :
  run (pool_step maxSize proximity cs (pools, used) seed) w =
    if includes (item_id seed) used then (inr (pools, used), w) else
    let g := gather maxSize proximity cs used seed in
    match (run (buildPool g.1) w).1 with
    | inl e => (inl e, (run (buildPool g.1) w).2)
    | inr p => (inr (pools ++ [p], g.2), (run (buildPool g.1) w).2)
    end.
Proof.
  unfold pool_step. destruct (includes _ _); [done|]. destruct (gather _ _ _ _ _) as [ds u]. cbv zeta.
  rewrite run_bind. cbn [fst snd]. by destruct (run (buildPool ds) w) as [[] ?].
Qed.

Lemma pool_loop seeds pools used w :
  Forall has_dropoff cs → seeds ⊆ cs → pooled pools used →
  ∃ pools' used', run (fold_prog (pool_step maxSize proximity cs) (pools, used) seeds) w
      = (inr (pools', used'), w) ∧
    pooled pools' used' ∧ used ⊆ used' ∧ ∀ s, s ∈ seeds → item_id s ∈ used'.
Proof.
  intros Hd. revert pools used. induction seeds as [|seed seeds IH]; intros pools used Hsub Hp.
  { exists pools, used. split_and!; [done|done|done|by intros s ?%not_elem_of_nil]. }
  assert (seed ∈ cs) as Hseed by (apply Hsub; left).
  assert (seeds ⊆ cs) as Hsub' by (intros s Hs; apply Hsub; by right).
  cbn [fold_prog]. rewrite run_bind, run_pool_step.
  destruct (includes (item_id seed) used) eqn:Hin; cbn [fst snd].
  - destruct (IH pools used Hsub' Hp) as (pools' & used' & Hr & Hp' & Hu & Hs). exists pools', used'.
    split_and!; [done|done|done|]. intros s [->|?]%elem_of_cons; [|by apply Hs]. by apply Hu, includes_true.
  - assert (item_id seed ∉ used) as Hnot by by (intros Hi%includes_true; congruence).
    cbv zeta. destruct (gather maxSize proximity cs used seed) as [ds used1] eqn:Hg. cbn [fst snd].
    destruct (gather_spec _ _ _ _ Hseed (po_nodup _ _ Hp) Hnot Hg) as (Hcl & Hsd & Hu1 & Hn1).
    assert (Forall has_dropoff ds) as Hdd.
    { rewrite Forall_forall in *. intros x Hx. apply Hd. by apply (cl_members _ Hcl). }
    pose proof (run_buildPool ds w) as Hb. destruct (cluster_route ds Hcl Hdd) as [r Hr]. rewrite Hr in Hb.
    destruct Hb as (p & -> & Hpd & Hpr). cbn [fst snd].
    destruct (IH (pools ++ [p]) used1 Hsub') as (pools' & used' & Hrun & Hp' & Hu & Hs).
    { apply (pooled_snoc pools used p ds); try done. by rewrite Hpr. }
    exists pools', used'. split_and!; [done|done| |].
    + intros x Hx. apply Hu. rewrite Hu1. apply elem_of_app. by right.
    + intros s [->|?]%elem_of_cons; [|by apply Hs]. apply Hu. rewrite Hu1. apply elem_of_app. left.
      by apply list_elem_of_fmap_2.
Qed.

(** Everything is pooled once. *)
Lemma pooled_partition pools used :
  pooled pools used → (∀ c, c ∈ cs → item_id c ∈ used) → (pools ≫= pool_deliveries) ≡ₚ cs.
Proof.
  intros [Hu Hn Hc] Hall. rewrite Forall_forall in Hc.
  assert (∀ x, x ∈ pools ≫= pool_deliveries → x ∈ cs) as Hsub.
  { intros x (p & Hx & Hp)%list_elem_of_bind. by apply (cl_members _ (proj1 (Hc _ Hp))). }
  apply NoDup_Permutation.
  - apply (NoDup_fmap_1 item_id). by rewrite <-Hu.
  - by apply (NoDup_fmap_1 item_id).
  - intros x. split; [apply Hsub|]. intros Hx. pose proof (Hall x Hx) as Hi. rewrite Hu in Hi.
    apply list_elem_of_fmap in Hi as (y & Hy & Hin). pose proof (Hsub y Hin) as Hy'.
    assert (x = y) as ->; [|done].
    apply list_elem_of_lookup_1 in Hx as [i Hi], Hy' as [j Hj].
    assert (i = j) as ->; [|congruence].
    apply (NoDup_lookup (item_id <$> cs) _ _ (item_id x)); [done| |].
    + by rewrite list_lookup_fmap, Hi.
    + by rewrite list_lookup_fmap, Hj, Hy.
Qed.

(** One candidate without a drop-off stops the pooling of all. *)
Lemma pool_loop_blocked seeds c pools used w :
  c ∈ seeds → ¬ has_dropoff c → seeds ⊆ cs → pooled pools used → item_id c ∉ used →
  (run (fold_prog (pool_step maxSize proximity cs) (pools, used) seeds) w).1 = inl type_error.
Proof.
  revert pools used w. induction seeds as [|seed seeds IH]; intros pools used w Hc Hnd Hsub Hp Hcu.
  { by apply not_elem_of_nil in Hc. }
  assert (seed ∈ cs) as Hseed by (apply Hsub; left).
  assert (seeds ⊆ cs) as Hsub' by (intros s Hs; apply Hsub; by right).
  cbn [fold_prog]. rewrite run_bind, run_pool_step.
  destruct (includes (item_id seed) used) eqn:Hin; cbn [fst snd].
  { apply IH; try done. apply elem_of_cons in Hc as [->|?]; [|done]. by apply includes_true in Hin. }
  assert (item_id seed ∉ used) as Hnot by by (intros Hi%includes_true; congruence).
  cbv zeta. destruct (gather maxSize proximity cs used seed) as [ds used1] eqn:Hg. cbn [fst snd].
  destruct (gather_spec _ _ _ _ Hseed (po_nodup _ _ Hp) Hnot Hg) as (Hcl & Hsd & Hu1 & Hn1).
  pose proof (run_buildPool ds w) as Hb.
  assert (∃ d ds', ds = d :: ds') as (d & ds' & Hds) by (destruct ds; [by apply not_elem_of_nil in Hsd|by do 2 eexists]).
  destruct (buildNearestNeighbourRoute ds) as [r|] eqn:Hr; [|by rewrite Hb].
  destruct Hb as (p & -> & Hpd & Hpr). cbn [fst snd].
  assert (Forall has_dropoff ds) as Hdd.
  { rewrite Hds in Hr |- *. apply (proj1 (proj2 (route_correct d ds'))). by rewrite Hr. }
  assert (item_id c ∉ used1) as Hcu1.
  { rewrite Hu1. intros [(x & Hx & Hxd)%list_elem_of_fmap|?]%elem_of_app; [|done].
    rewrite Forall_forall in Hdd. destruct Hnd. replace c with x; [by apply Hdd|].
    assert (c ∈ cs) as Hccs by by apply Hsub. pose proof (cl_members _ Hcl _ Hxd) as Hxcs.
    apply list_elem_of_lookup_1 in Hccs as [i Hi], Hxcs as [j Hj].
    assert (i = j) as ->; [|congruence].
    apply (NoDup_lookup (item_id <$> cs) _ _ (item_id c)); [done| |].
    - by rewrite list_lookup_fmap, Hi.
    - by rewrite list_lookup_fmap, Hj, Hx. }
  apply IH; try done.
  - apply elem_of_cons in Hc as [->|?]; [|done]. destruct Hcu1. rewrite Hu1. apply elem_of_app. left.
    by apply list_elem_of_fmap_2.
  - apply (pooled_snoc pools used p ds); try done. by rewrite Hpr.
Qed.
End Clusters.

Lemma omap_NoDup (f : hydrated Delivery → option PoolItem) l :
  (∀ d x, f d = Some x → item_id x = _id d) → NoDup (_id <$> l) → NoDup (item_id <$> omap f l).
Proof.
  intros Hf. induction l as [|d l IH]; [by constructor|]. cbn [fmap list_fmap omap list_omap].
  intros [Hd Hn]%NoDup_cons. destruct (f d) as [x|] eqn:Hx; [|by apply IH].
  cbn [fmap list_fmap]. apply NoDup_cons. split; [|by apply IH]. rewrite (Hf _ _ Hx).
  intros (y & Hy & Hin)%list_elem_of_fmap. apply list_elem_of_omap in Hin as (d' & Hd' & Hfd).
  apply Hd. rewrite Hy, (Hf _ _ Hfd). by apply list_elem_of_fmap_2.
Qed.

Lemma pool_candidates_NoDup o w : NoDup (item_id <$> pool_candidates o w).
Proof.
  unfold pool_candidates. rewrite fmap_take. eapply sublist_NoDup; [|apply sublist_take].
  apply omap_NoDup.
  - intros d x. unfold to_item. destruct (pickupCoordinates w !! _id d); [|done]. cbn [mbind option_bind].
    case_match; [|done]. by intros [= <-].
  - rewrite merge_sort_Permutation. apply find_all_NoDup.
Qed.

(** A pool: a cluster of the candidates with a route over all its stops that
    picks every parcel up before dropping it off. *)
Definition sound_pool (proximity : number) (n : nat) (cs : list PoolItem) (p : DeliveryPool) : Prop :=
  cluster proximity n cs (pool_deliveries p) ∧
  routeSequence p ≡ₚ stops (pool_deliveries p) ∧ pickups_first [] (routeSequence p).

Lemma sound_pools proximity n cs pools used :
  pooled proximity n cs pools used → Forall (sound_pool proximity n cs) pools.
Proof.
  intros [_ _ Hc]. eapply Forall_impl; [exact Hc|]. intros p [Hcl Hr]. split; [done|].
  destruct Hcl as [_ Hs _]. destruct (pool_deliveries p) as [|d ds]; [cbn in Hs; lia|].
  destruct (proj1 (route_correct d ds) _ Hr) as (? & ? & _). done.
Qed.

(** When every candidate has a drop-off, [createPools] returns pools that
    share the candidates out among them, each of at most the asked size, all its
    pickups within the asked distance of its first one, with a route over all
    stops that picks a parcel up before dropping it off.  When one candidate has
    none, the whole call fails with a [TypeError]. *)
Theorem createPools_correct o n w :
  pooling_enabled = true → (1 ≤ Z.of_nat n < 2 ^ 53)%Z →
  nullish (maxPoolSize o) DEFAULT_MAX_POOL_SIZE = Num.of_Z (Z.of_nat n) →
  let cs := pool_candidates o w in
  let proximity := nullish (maxProximityMeters o) DEFAULT_PROXIMITY_M in
  (Forall has_dropoff cs →
     ∃ pools, run (createPools o) w = (inr pools, w) ∧ (pools ≫= pool_deliveries) ≡ₚ cs ∧
       Forall (sound_pool proximity n cs) pools) ∧
  (∀ c, c ∈ cs → ¬ has_dropoff c → (run (createPools o) w).1 = inl type_error).
Proof.
  intros Hen Hn Hmax. cbv zeta. pose proof (pool_candidates_NoDup o w) as Hnd.
  set (cs := pool_candidates o w) in *. set (proximity := nullish (maxProximityMeters o) _).
  assert (run (createPools o) w =
    match run (fold_prog (pool_step (nullish (maxPoolSize o) DEFAULT_MAX_POOL_SIZE) proximity cs) ([], []) cs) w with
    | (inl e, w') => (inl e, w')
    | (inr s, w') => (inr s.1, w')
    end) as ->.
  { unfold createPools. rewrite Hen. cbn [negb]. rewrite run_bind, run_reads. cbn [fst snd].
    rewrite run_bind. fold cs. fold proximity. by destruct (run (fold_prog _ _ _) w) as [[] ?]. }
  assert (pooled proximity n cs [] []) as H0 by (split; [done|constructor|constructor]).
  split.
  - intros Hd. destruct (pool_loop _ proximity n cs Hmax Hn cs [] [] w Hd) as (pools & used & Hr & Hp & _ & Hall);
      [done|done|]. rewrite Hr. exists pools. split_and!; [done| |by eapply sound_pools].
    eapply pooled_partition; [exact Hnd|exact Hp|exact Hall].
  - intros c Hc Hnone.
    pose proof (pool_loop_blocked _ proximity n cs Hmax Hn Hnd cs c [] [] w Hc Hnone) as Hb.
    specialize (Hb (λ x Hx, Hx) H0 (not_elem_of_nil _)).
    destruct (run (fold_prog _ _ _) w) as [[e|s] w1]; cbn [fst] in *; [|discriminate Hb].
    by injection Hb as ->.
Qed.
End PoolFacts.

(** ** Giving a pool to a driver *)
Section PoolAssignment.
Context `{E : Env, D : DispatchEnv, DOk : !DispatchEnvOk, C : DeliveryConsumers, COk : !DeliveryConsumersOk, P : PoolingEnv}.

(** Exactly the deliveries [ids] changed hands, to driver [k]. *)
Record handed (k : string) (ids : list string) (w w' : Dispatch) : Prop := {
  hd_assigned : ∀ i, i ∈ ids → ∃ dv, deliveries (base w') !! i = Some dv ∧ driverId dv = Some k ∧
    status dv = DeliveryStatus.ASSIGNED;
  hd_others : ∀ i, i ∉ ids → deliveries (base w') !! i = deliveries (base w) !! i
}.

Lemma run_assign_all k ds w r w' :
  run (assign_all k ds) w = (r, w') →
  driverLocations w' = driverLocations w ∧
  ∃ pre post, item_id <$> ds = pre ++ post ∧ handed k pre w w' ∧ (r = inr tt → post = []).
Proof.
  revert w. induction ds as [|d ds IH]; intros w; cbn [assign_all for_each].
  { intros [= <- <-]. split; [done|]. exists [], []. split_and!; [done| |done].
    split; [by intros i ?%not_elem_of_nil|done]. }
  rewrite run_bind, run_bind, run_on_base.
  destruct (run (assignDriver (item_id d) k) (base w)) as [[e|u] b] eqn:Ha; apply assignDriver_outcome in Ha;
    cbn [fst snd].
  { intros [= <- <-]. split; [done|]. subst b. exists [], (item_id d :: (item_id <$> ds)). split_and!; [done| |done].
    split; [by intros i ?%not_elem_of_nil|done]. }
  destruct Ha as (dv & Hdv & _ & [_ Hd _ _ _ _ _ _ _]). rec_simpl_in Hd.
  intros Hr. apply IH in Hr as (Hl & pre & post & Hids & [Hh Ho] & Hend). split; [done|].
  exists (item_id d :: pre), post. split_and!; [by cbn; rewrite Hids| |done].
  rewrite run_ret in *. cbn [fst snd base with_base] in *. split.
  - intros i Hi. destruct (decide (i ∈ pre)) as [Hp|Hp]; [by apply Hh|].
    apply elem_of_cons in Hi as [->|?]; [|done]. rewrite (Ho _ Hp), Hd, lookup_insert_eq. by eexists.
  - intros i [Hne Hp]%not_elem_of_cons. by rewrite (Ho _ Hp), Hd, lookup_insert_ne by done.
Qed.

(** C28: A pool goes to one driver who was free and now is taken, with all its
    deliveries; or nothing changes.  When it throws, every driver is as available
    as before, but the deliveries before the one that was refused stay assigned
    to the driver whose claim was given back, one who was free before. *)
Theorem assignPoolToNearestDriver_correct pool w r w' :
  run (assignPoolToNearestDriver pool) w = (r, w') →
  match r with
  | inr x =>
      match pr_driverId x with
      | Some k => pr_assigned x = true ∧ handed k (item_id <$> pool_deliveries pool) w w' ∧
          ∃ d, driverLocations w !! k = Some d ∧ free d = true ∧
            driverLocations w' = <[k := claimed (now_ms (base w)) d]> (driverLocations w)
      | None => pr_assigned x = false ∧ w' = w
      end
  | inl _ =>
      forget <$> driverLocations w' = forget <$> driverLocations w ∧
      ∃ k pre post, item_id <$> pool_deliveries pool = pre ++ post ∧ handed k pre w w' ∧
        (pre = [] ∨ ∃ d, driverLocations w !! k = Some d ∧ free d = true)
  end.
Proof.
  unfold assignPoolToNearestDriver. destruct pooling_enabled; cbn [negb]; [|by intros [= <- <-]].
  destruct (pool_deliveries pool) as [|d0 ds0] eqn:Hds; [by intros [= <- <-]|]. rewrite <-Hds. clear Hds d0 ds0.
  set (c := centroid pool). rewrite run_bind.
  destruct (coordinates_ok (p_lat c) (p_lng c)) eqn:Hok.
  2: { destruct (assertValidCoordinates_cases (p_lat c) (p_lng c)) as [[? _]|[_ (m & Hm)]]; [congruence|].
    unfold findNearbyDrivers, nearby_query. cbn [q_lat q_lng]. rewrite Hm. intros [= <- <-]. split; [done|].
    exists "", [], (item_id <$> pool_deliveries pool). split; [done|]. split; [|by left].
    split; [by intros i ?%not_elem_of_nil|done]. }
  pose proof default_radius_pos. pose proof default_le_max. unfold nearby_query.
  rewrite (run_findNearbyDrivers c DRIVER_PROXIMITY_DEFAULT_RADIUS_M w); [|by apply run_assertValidCoordinates|lia].
  cbv zeta. cbn [fst snd drivers]. change (geoNear c _ _ _) with (found_at c DRIVER_PROXIMITY_DEFAULT_RADIUS_M w).
  pose proof max_results_pos. destruct (Z.to_nat DRIVER_PROXIMITY_MAX_RESULTS) as [|n] eqn:Hn; [lia|].
  destruct (found_at c _ w) as [|[k d] l] eqn:Hf; [by intros [= <- <-]|].
  assert ((k, d) ∈ found_at c DRIVER_PROXIMITY_DEFAULT_RADIUS_M w) as Hin by (rewrite Hf; left).
  apply elem_of_geoNear in Hin as (Hk & Hfree & _). pose proof (proj1 (proj1 (free_spec d) Hfree)) as Hav.
  change (toNearbyDriver c <$> take (S n) ((k, d) :: l))
    with (toNearbyDriver c (k, d) :: (toNearbyDriver c <$> take n l)). cbv iota.
  change (toNearbyDriver c (k, d) :: (toNearbyDriver c <$> take n l))
    with (toNearbyDriver c <$> (k, d) :: take n l).
  rewrite run_bind. unfold claimNearest. rewrite (run_claim_head c k d (take n l) w Hk Hav). cbn [fst snd].
  change (nd_driverId (toNearbyDriver c (k, d))) with k. rewrite run_try_catch, run_bind.
  set (w1 := with_locations _ w).
  destruct (run (assign_all k (pool_deliveries pool)) w1) as [r1 w2] eqn:Hr.
  apply run_assign_all in Hr as (Hl & pre & post & Hids & Hh & Hend).
  assert (handed k pre w w2) as Hh' by by destruct Hh.
  destruct r1 as [e|[]]; cbn [fst snd].
  - rewrite run_bind, run_writes. cbn [fst snd]. intros [= <- <-]. split.
    + unfold release_claim. rewrite Hl. cbn [w1 driverLocations with_locations]. rewrite lookup_insert_eq.
      cbn [driverLocations with_locations].
      rewrite insert_insert_eq, fmap_insert.
      apply map_eq. intros k'. destruct (decide (k' = k)) as [->|Hne]; [|by rewrite lookup_insert_ne by done].
      rewrite lookup_insert_eq, lookup_fmap, Hk. cbn [fmap option_fmap option_map]. f_equal.
      apply free_spec in Hfree as [? Hon]. destruct d. cbn in *. by subst.
    + exists k, pre, post. split; [done|]. split; [|right; by exists d].
      unfold release_claim. case_match; [|done]. by destruct Hh'.
  - rewrite run_ret. intros [= <- <-]. cbn [pr_driverId]. split; [done|].
    rewrite (Hend eq_refl), app_nil_r in Hids. rewrite Hids. split; [done|]. exists d. split_and!; try done.
Qed.
End PoolAssignment.

(** ** Examples *)
Module PoolingExamples.
Export AssignmentExamples.
(** A flat world: the functions agree with the real ones near zero. *)
#[export] Instance pooling_env : PoolingEnv := {|
  pooling_enabled := true;
  math_sin x := x;
  math_cos _ := Num.of_Z 1;
  math_atan2 y x := Num.div y x;
  math_pow x _ := Num.mul x x;
  calculateETA _ _ := mret (Num.of_Z 1000, Num.of_Z 5)
|}.
#[export] Instance pooling_routing_ok : RoutingOk.
Proof. intros a b w. by eexists. Qed.

Definition did2 : string := "64b7f0c2a1d3e4f500000003".
Definition place (s : string) : Coordinates := mkCoordinates (Some (NumParse.of_string s)) (Some (Num.of_Z 2)) None.
Definition order2 : Delivery :=
  order <| trackingNumber := Some "TRK-2" |> <| d_createdAt := (Example_.t0 + 1)%Z |>.

(** Two funded deliveries a hundred metres apart; only the first has an escrow. *)
Definition street (drop2 : option Coordinates) : Dispatch :=
  mkDispatch
    (Example_.with_escrow order (Example_.esc EscrowStatus.LOCKED) <| deliveries ::= <[did2 := order2]> |>)
    (<[far := driver_at 2 49 true DriverStatus.online]> ∅)
    (<[Example_.did := place "48.85"]> (<[did2 := place "48.851"]> ∅))
    (<[Example_.did := place "48.90"]> (match drop2 with Some d => <[did2 := d]> ∅ | None => ∅ end)).

Definition all_options : PoolingOptions := mkPoolingOptions None None None None None.

Definition route_of (w : Dispatch) : option (list (string * StopType)) :=
  match (run (createPools all_options) w).1 with
  | inr [p] => Some ((λ s, (stop_delivery s, stop_type s)) <$> routeSequence p)
  | _ => None
  end.

Example pool_of_two :
  route_of (street (Some (place "48.80"))) =
    Some [(Example_.did, pickup_stop); (did2, pickup_stop); (Example_.did, dropoff_stop); (did2, dropoff_stop)].
Proof. vm_compute. reflexivity. Qed.

Example missing_dropoff : (run (createPools all_options) (street None)).1 = inl type_error.
Proof. vm_compute. reflexivity. Qed.

Definition two_orders : DeliveryPool :=
  mkDeliveryPool "pool" (pool_candidates all_options (street None)) (at_ 2 49) [] Num.zero Num.zero.

(** The second delivery is refused: the first stays with the driver, who is
    offered to everybody again. *)
Example half_a_pool :
  let x := run (assignPoolToNearestDriver two_orders) (street None) in
  (match x.1 with inl _ => true | inr _ => false end,
   status <$> deliveries (base x.2) !! Example_.did,
   (deliveries (base x.2) !! Example_.did) ≫= driverId,
   free <$> driverLocations x.2 !! far) =
  (true, Some DeliveryStatus.ASSIGNED, Some far, Some true).
Proof. vm_compute. reflexivity. Qed.
End PoolingExamples.

Section PoolingWitnesses.
Import PoolingExamples.

Lemma dropoffs_known l :
  forallb (λ d, match item_dropoff d with Some _ => true | None => false end) l = true → Forall has_dropoff l.
Proof.
  induction l as [|d l IH]; [by constructor|]. cbn [forallb]. intros [Hd Hl]%andb_true_iff.
  constructor; [|by apply IH]. unfold has_dropoff. destruct (item_dropoff d); [by eexists|discriminate Hd].
Qed.

Lemma createPools_correct_witness :
  let w := street (Some (place "48.80")) in
  ∃ pools, run (createPools all_options) w = (inr pools, w) ∧
    (pools ≫= pool_deliveries) ≡ₚ pool_candidates all_options w.
Proof.
  intros w. destruct (createPools_correct all_options 5 w) as [Hall _];
    [reflexivity|split; [discriminate|reflexivity]|reflexivity|].
  assert (Forall has_dropoff (pool_candidates all_options w)) as Hd
    by (apply dropoffs_known; vm_compute; reflexivity).
  destruct (Hall Hd) as (pools & Hr & Hp & _). exists pools. exact (conj Hr Hp).
Defined.

Lemma half_run :
  ∃ e w', run (assignPoolToNearestDriver two_orders) (street None) = (inl e, w').
Proof.
  assert (match (run (assignPoolToNearestDriver two_orders) (street None)).1 with inl _ => true | _ => false end = true)
    as Hi by (vm_compute; reflexivity).
  destruct (run _ _) as [[e|x] w1]; [by do 2 eexists|discriminate Hi].
Qed.

Lemma assignPoolToNearestDriver_correct_witness :
  ∃ e w', run (assignPoolToNearestDriver two_orders) (street None) = (inl e, w') ∧
    forget <$> driverLocations w' = forget <$> driverLocations (street None).
Proof.
  destruct half_run as (e & w' & Hr). exists e, w'. split; [exact Hr|].
  exact (proj1 (assignPoolToNearestDriver_correct two_orders (street None) (inl e) w' Hr)).
Defined.
End PoolingWitnesses.
