(* ===== verification/DisputeService.v ===== *)
(** * Disputes ([src/src/services/disputeService.ts],
    [src/src/indexer/disputeHandlers.ts], [src/src/models/Dispute.ts])

    Participants open a dispute about an active delivery, add evidence, support
    resolves it; the contract's own dispute events open and resolve disputes by
    their on-chain id.  A document that was read is saved field by field, and an
    array that was replaced is only written to the version that was read. *)
From S2P Require Import Prelude JsLib Models Repositories Pagination ProofOfDelivery.

Module DisputeReason.
Inductive t := DAMAGED_PACKAGE | LATE_DELIVERY | WRONG_ITEM | NON_DELIVERY | OTHER.
#[global] Instance eq_dec : EqDecision t.
Proof. solve_decision. Defined.
End DisputeReason.

Module DisputeStatus.
Inductive t := OPEN | UNDER_REVIEW | RESOLVED | REJECTED.
#[global] Instance eq_dec : EqDecision t.
Proof. solve_decision. Defined.
Definition to_string (s : t) : string :=
  match s with
  | OPEN => "open" | UNDER_REVIEW => "under_review" | RESOLVED => "resolved" | REJECTED => "rejected"
  end.
End DisputeStatus.

Record Dispute := mkDispute {
  dp_disputeId : option string;
  dp_deliveryId : string;
  openedBy : option string;
  raisedBy : string;
  reason : DisputeReason.t;
  description : string;
  evidenceUrls : list string;
  dp_status : DisputeStatus.t;
  openedLedger : option Z;
  raisedAtLedger : option Z;
  resolution : option string;
  resolvedLedger : option Z;
  dp_resolvedAt : option Z;
  dp_resolvedBy : option string;
  dp_resolutionNotes : option string;
  dp_createdAt : Z;
  dp_updatedAt : Z;
  versionKey : nat
}.
#[export] Instance Dispute_eq_dec : EqDecision Dispute.
Proof. solve_decision. Defined.

(** An uploaded file ([models/Evidence.ts]). *)
Record Evidence := mkEvidence {
  evidence_disputeId : string;
  evidence_uploadedBy : string;
  evidence_storageDriver : string;
  evidence_storageKey : string;
  evidence_url : string;
  originalName : string;
  evidence_mimeType : string;
  evidence_sizeBytes : Z;
  evidence_createdAt : Z
}.

(** Disputes and uploaded evidence beside the world of the delivery service. *)
Record DisputeWorld := mkDisputeWorld {
  dw_base : World;
  disputes : gmap string Dispute;
  evidences : list (hydrated Evidence)
}.

(** The index on [disputeId] is declared twice, once without and once with
    [unique]; whether the database enforces it is a parameter.  The alert goes
    to a webhook through an HTTP client. *)
Class DisputeEnv := {
  disputeId_unique : bool;
  DISPUTE_NOTIFICATION_WEBHOOK_URL : string;
  UPLOAD_MAX_FILE_SIZE_MB : Z;
  post_alert : string → string → prog DisputeWorld unit
}.

Record CreateDisputeInput := mkCreateDispute {
  cd_deliveryId : string;
  cd_raisedBy : option string;
  cd_reason : DisputeReason.t;
  cd_description : string;
  cd_evidenceUrls : option (list string)
}.

Record ResolveDisputeInput := mkResolveDispute {
  rd_status : DisputeStatus.t;
  rd_resolutionNotes : option string;
  rd_resolvedBy : option string
}.

Record UpdateDisputeInput := mkUpdateDispute {
  ud_reason : option DisputeReason.t;
  ud_description : option string;
  ud_evidenceUrls : option (list string)
}.

(** A parsed contract event: [dispute_opened] or [dispute_resolved]. *)
Record DisputeEvent := mkDisputeEvent {
  de_disputeId : string;
  de_deliveryId : string;
  de_openedBy : option string;
  de_reason : option string;
  de_resolution : option string;
  de_ledgerSequence : Z
}.

Abbreviation dispute_action := (prog DisputeWorld).

Section DisputeService.
Context `{E : Env, D : DisputeEnv}.

Definition ACTIVE_DELIVERY_STATUSES : list DeliveryStatus.t :=
  [DeliveryStatus.ASSIGNED; DeliveryStatus.IN_PROGRESS].

Definition unresolved (d : Dispute) : bool :=
  includes (dp_status d) [DisputeStatus.OPEN; DisputeStatus.UNDER_REVIEW].
Definition closed (d : Dispute) : bool :=
  bool_decide (dp_status d = DisputeStatus.RESOLVED) || bool_decide (dp_status d = DisputeStatus.REJECTED).

(** *** The collection *)
Definition findDispute (id : string) : dispute_action (option (hydrated Dispute)) :=
  reads (λ w, find_by_id id (disputes w)).
Definition findOneDispute (P : Dispute → bool) : dispute_action (option (hydrated Dispute)) :=
  reads (λ w, find_one P (disputes w)).

(** The required strings of the schema. *)
Definition dispute_valid (d : Dispute) : bool :=
  Str.truthy (dp_deliveryId d) && Str.truthy (raisedBy d) && Str.truthy (description d).

Definition with_disputes (m : gmap string Dispute) (w : DisputeWorld) : DisputeWorld :=
  mkDisputeWorld (dw_base w) m (evidences w).

Definition chain_id_taken (d : Dispute) (m : gmap string Dispute) : bool :=
  match dp_disputeId d with
  | Some i => some (λ kv, bool_decide (dp_disputeId kv.2 = Some i)) (map_to_list m)
  | None => false
  end.

Definition dispute_id : dispute_action string :=
  atomic (λ w, let b := dw_base w in
    (newObjectId (nextId b), mkDisputeWorld (b <| nextId ::= S |>) (disputes w) (evidences w))).

(** [Dispute.create]: [d] is built from the time of the insertion. *)
Definition createDoc (d : Z → Dispute) : dispute_action (hydrated Dispute) :=
  id ← dispute_id;
  atomic_try (λ w,
    let d := d (now_ms (dw_base w)) in
    if negb (dispute_valid d) then (inl (PlainError "Dispute validation failed"), w) else
    if bool_decide (is_Some (disputes w !! id)) || (disputeId_unique && chain_id_taken d (disputes w))
    then (inl DuplicateKey, w)
    else (inr (Doc id d), with_disputes (<[id := d]> (disputes w)) w)).

(** [doc.save()]: the fields of [new] that differ from what was read ([old])
    are set on the stored document; a replaced array asks for the version that
    was read and increments it. *)
Definition pick {A} `{EqDecision A} (old new cur : A) : A := if decide (new = old) then cur else new.

Definition merged (old new cur : Dispute) (t : Z) (v : nat) : Dispute :=
  mkDispute (dp_disputeId cur) (dp_deliveryId cur) (openedBy cur) (raisedBy cur)
    (pick (reason old) (reason new) (reason cur))
    (pick (description old) (description new) (description cur))
    (pick (evidenceUrls old) (evidenceUrls new) (evidenceUrls cur))
    (pick (dp_status old) (dp_status new) (dp_status cur))
    (openedLedger cur) (raisedAtLedger cur)
    (pick (resolution old) (resolution new) (resolution cur))
    (pick (resolvedLedger old) (resolvedLedger new) (resolvedLedger cur))
    (pick (dp_resolvedAt old) (dp_resolvedAt new) (dp_resolvedAt cur))
    (pick (dp_resolvedBy old) (dp_resolvedBy new) (dp_resolvedBy cur))
    (pick (dp_resolutionNotes old) (dp_resolutionNotes new) (dp_resolutionNotes cur))
    (dp_createdAt cur) t v.

Definition stamped (d : Dispute) (t : Z) (v : nat) : Dispute :=
  mkDispute (dp_disputeId d) (dp_deliveryId d) (openedBy d) (raisedBy d) (reason d) (description d)
    (evidenceUrls d) (dp_status d) (openedLedger d) (raisedAtLedger d) (resolution d) (resolvedLedger d)
    (dp_resolvedAt d) (dp_resolvedBy d) (dp_resolutionNotes d) (dp_createdAt d) t v.

Definition array_changed (old new : Dispute) : bool :=
  negb (bool_decide (evidenceUrls new = evidenceUrls old)).

Definition save_op (id : string) (old new : Dispute) (w : DisputeWorld)
    : (error + hydrated Dispute) * DisputeWorld :=
    if negb (dispute_valid new) then (inl (PlainError "Dispute validation failed"), w) else
    if bool_decide (new = old) then (inr (Doc id old), w) else
    match disputes w !! id with
    | None => (inl (PlainError "No document found for query"), w)
    | Some cur =>
        if array_changed old new && negb (bool_decide (versionKey cur = versionKey old))
        then (inl (PlainError "No matching document found for id and version"), w)
        else
          let t := now_ms (dw_base w) in
          let v := if array_changed old new then S (versionKey cur) else versionKey cur in
          (inr (Doc id (stamped new t v)),
           with_disputes (<[id := merged old new cur t v]> (disputes w)) w)
    end.
Definition saveDoc (id : string) (old new : Dispute) : dispute_action (hydrated Dispute) :=
  atomic_try (save_op id old new).

(** *** The API *)
Definition new_dispute (i : CreateDisputeInput) (ledger : option Z) (t : Z) : Dispute :=
  mkDispute None (cd_deliveryId i) None (nullish (cd_raisedBy i) "") (cd_reason i) (cd_description i)
    (nullish (cd_evidenceUrls i) []) DisputeStatus.OPEN None ledger None None None None None t t 0.

Definition is_dispute_participant (d : Delivery) (by_ : option string) : bool :=
  bool_decide (userId d = by_) || bool_decide (driverId d = by_).

Definition createDispute (i : CreateDisputeInput) : dispute_action (hydrated Dispute) :=
  _ ← throw_if (negb (isValidObjectId (cd_deliveryId i)))
        (AppError "Invalid delivery ID format." Http.BAD_REQUEST);
  found ← reads (λ w, find_by_id (cd_deliveryId i) (deliveries (dw_base w)));
  d ← or_throw found (AppError "Delivery not found." Http.NOT_FOUND);
  _ ← throw_if (negb (includes (status (body d)) ACTIVE_DELIVERY_STATUSES))
        (AppError ("Disputes can only be opened for deliveries that are assigned or in progress. Current status: '"
           +:+ DeliveryStatus.to_string (status (body d)) +:+ "'.") Http.UNPROCESSABLE_ENTITY);
  _ ← throw_if (negb (is_dispute_participant (body d) (cd_raisedBy i)))
        (AppError "Only the customer or driver associated with this delivery may open a dispute."
           Http.FORBIDDEN);
  existing ← findOneDispute (λ x, String.eqb (dp_deliveryId x) (cd_deliveryId i) && unresolved x);
  _ ← throw_if (bool_decide (is_Some existing))
        (AppError "An unresolved dispute already exists for this delivery." Http.CONFLICT);
  t ← reads (λ w, now_ms (dw_base w));
  let ledger := match getLatestLedger t with inr (Some l) => Some l | _ => None end in
  createDoc (new_dispute i ledger).

Definition invalid_dispute_id : error := AppError "Invalid dispute ID format." Http.BAD_REQUEST.
Definition dispute_not_found : error := AppError "Dispute not found." Http.NOT_FOUND.

Definition getDisputeById (id : string) : dispute_action (hydrated Dispute) :=
  _ ← throw_if (negb (isValidObjectId id)) invalid_dispute_id;
  found ← findDispute id;
  or_throw found dispute_not_found.

(** A list request: the whitelisted filter and its two ids. *)
Definition getDisputes (raisedBy_ deliveryId_ : option string) (f : hydrated Dispute → bool)
    (cmp : hydrated Dispute → hydrated Dispute → bool) (pg lim : Z) : dispute_action (Page (hydrated Dispute)) :=
  let bad := λ o, match o with Some i => negb (isValidObjectId i) | None => false end in
  _ ← throw_if (bad raisedBy_) (AppError "Invalid raisedBy format." Http.BAD_REQUEST);
  _ ← throw_if (bad deliveryId_) (AppError "Invalid deliveryId format." Http.BAD_REQUEST);
  reads (λ w, page_of (sort_by cmp (List.filter f (find_all (λ _, true) (disputes w)))) pg lim).

Definition closed_error (d : Dispute) : error :=
  AppError ("Dispute is already " +:+ DisputeStatus.to_string (dp_status d)
    +:+ " and cannot be resolved again.") Http.CONFLICT.

Definition resolved_with (i : ResolveDisputeInput) (t : Z) (d : Dispute) : Dispute :=
  mkDispute (dp_disputeId d) (dp_deliveryId d) (openedBy d) (raisedBy d) (reason d) (description d)
    (evidenceUrls d) (rd_status i) (openedLedger d) (raisedAtLedger d) (resolution d) (resolvedLedger d)
    (Some t) (rd_resolvedBy i) (rd_resolutionNotes i) (dp_createdAt d) (dp_updatedAt d) (versionKey d).

Definition notes_missing (i : ResolveDisputeInput) : bool :=
  bool_decide (rd_status i = DisputeStatus.RESOLVED) &&
  negb (match rd_resolutionNotes i with Some s => Str.truthy s | None => false end).

Definition resolveDispute (id : string) (i : ResolveDisputeInput) : dispute_action (hydrated Dispute) :=
  d ← getDisputeById id;
  _ ← throw_if (closed (body d)) (closed_error (body d));
  _ ← throw_if (notes_missing i)
        (AppError "resolutionNotes are required when resolving a dispute." Http.UNPROCESSABLE_ENTITY);
  t ← reads (λ w, now_ms (dw_base w));
  saveDoc (_id d) (body d) (resolved_with i t (body d)).

Definition with_evidence (urls : list string) (d : Dispute) : Dispute :=
  mkDispute (dp_disputeId d) (dp_deliveryId d) (openedBy d) (raisedBy d) (reason d) (description d)
    urls (dp_status d) (openedLedger d) (raisedAtLedger d) (resolution d) (resolvedLedger d)
    (dp_resolvedAt d) (dp_resolvedBy d) (dp_resolutionNotes d) (dp_createdAt d) (dp_updatedAt d) (versionKey d).

Definition new_urls (urls : list string) (d : Dispute) : list string :=
  List.filter (λ u, negb (includes u (evidenceUrls d))) urls.

Definition addEvidence (id : string) (urls : list string) : dispute_action (hydrated Dispute) :=
  d ← getDisputeById id;
  _ ← throw_if (closed (body d))
        (AppError "Evidence cannot be added to a resolved or rejected dispute." Http.CONFLICT);
  saveDoc (_id d) (body d) (with_evidence (evidenceUrls (body d) ++ new_urls urls (body d)) (body d)).

Definition updated_with (i : UpdateDisputeInput) (d : Dispute) : Dispute :=
  mkDispute (dp_disputeId d) (dp_deliveryId d) (openedBy d) (raisedBy d)
    (nullish (ud_reason i) (reason d)) (nullish (ud_description i) (description d))
    (nullish (ud_evidenceUrls i) (evidenceUrls d)) (dp_status d) (openedLedger d) (raisedAtLedger d)
    (resolution d) (resolvedLedger d) (dp_resolvedAt d) (dp_resolvedBy d) (dp_resolutionNotes d)
    (dp_createdAt d) (dp_updatedAt d) (versionKey d).

Definition updateDispute (id : string) (i : UpdateDisputeInput) : dispute_action (hydrated Dispute) :=
  d ← getDisputeById id;
  _ ← throw_if (closed (body d))
        (AppError "A resolved or rejected dispute cannot be modified." Http.CONFLICT);
  saveDoc (_id d) (body d) (updated_with i (body d)).

Definition listDisputes (pg lim : Z) (s : option DisputeStatus.t) : dispute_action (Page (hydrated Dispute)) :=
  reads (λ w, page_of
    (sort_by (λ a b, (dp_createdAt (body b) <=? dp_createdAt (body a))%Z)
       (find_all (λ d, match s with Some s => bool_decide (dp_status d = s) | None => true end) (disputes w)))
    pg lim).

Definition by_chain_id (i : string) (d : Dispute) : bool := bool_decide (dp_disputeId d = Some i).

Definition getDisputeByDisputeId (i : string) : dispute_action (hydrated Dispute) :=
  found ← findOneDispute (by_chain_id i);
  or_throw found (AppError ("Dispute '" +:+ i +:+ "' not found.") Http.NOT_FOUND).

(** *** The contract's events *)
Definition chain_dispute (e : DisputeEvent) (t : Z) : Dispute :=
  mkDispute (Some (de_disputeId e)) (de_deliveryId e) (Str.trim <$> de_openedBy e)
    (nullish (de_openedBy e) "on-chain") DisputeReason.OTHER
    (nullish (de_reason e) "Dispute opened on-chain.") [] DisputeStatus.OPEN
    (Some (de_ledgerSequence e)) None None None None None None t t 0.

Definition openDisputeFromEvent (e : DisputeEvent) : dispute_action (hydrated Dispute) :=
  _ ← throw_if (negb (Str.truthy (de_disputeId e)) || negb (Str.truthy (de_deliveryId e)))
        (AppError "disputeId and deliveryId are required." Http.BAD_REQUEST);
  existing ← findOneDispute (by_chain_id (de_disputeId e));
  match existing with
  | Some d => mret d
  | None => createDoc (chain_dispute e)
  end.

Definition resolved_on_chain (e : DisputeEvent) (t : Z) (d : Dispute) : Dispute :=
  mkDispute (dp_disputeId d) (dp_deliveryId d) (openedBy d) (raisedBy d) (reason d) (description d)
    (evidenceUrls d) DisputeStatus.RESOLVED (openedLedger d) (raisedAtLedger d) (de_resolution e)
    (Some (de_ledgerSequence e)) (Some t) (dp_resolvedBy d) (dp_resolutionNotes d)
    (dp_createdAt d) (dp_updatedAt d) (versionKey d).

Definition resolveDisputeFromEvent (e : DisputeEvent) : dispute_action (option (hydrated Dispute)) :=
  found ← findOneDispute (by_chain_id (de_disputeId e));
  match found with
  | None => mret None
  | Some d =>
      t ← reads (λ w, now_ms (dw_base w));
      d' ← saveDoc (_id d) (body d) (resolved_on_chain e t (body d));
      mret (Some d')
  end.

(** The alert after the change; its failure is only logged. *)
Definition alert (kind : string) : dispute_action unit :=
  if Str.truthy DISPUTE_NOTIFICATION_WEBHOOK_URL
  then try_catch (post_alert DISPUTE_NOTIFICATION_WEBHOOK_URL kind) (λ _, mret tt)
  else mret tt.

Definition handleDisputeOpened (e : DisputeEvent) : dispute_action unit :=
  if negb (Str.truthy (de_disputeId e)) || negb (Str.truthy (de_deliveryId e)) then mret tt else
  _ ← openDisputeFromEvent e;
  alert "dispute_opened".

Definition handleDisputeResolved (e : DisputeEvent) : dispute_action unit :=
  if negb (Str.truthy (de_disputeId e)) then mret tt else
  _ ← resolveDisputeFromEvent e;
  alert "dispute_resolved".

Definition dispatchDisputeEvent (kind : string) (e : DisputeEvent) : dispute_action unit :=
  if String.eqb kind "dispute_opened" then handleDisputeOpened e
  else if String.eqb kind "dispute_resolved" then handleDisputeResolved e
  else mret tt.

(** *** Evidence files ([src/src/services/evidenceService.ts]) *)
Definition ALLOWED_EVIDENCE_MIME_TYPES : list string :=
  ["image/jpeg"; "image/png"; "image/webp"; "video/mp4"; "video/quicktime"; "application/pdf"].

(** The upload's fields are those of a proof of delivery, for a dispute. *)
Definition uploadEvidence `{StorageDriver} (i : UploadProofInput) : dispute_action (hydrated Evidence) :=
  _ ← throw_if (negb (isValidObjectId (u_deliveryId i)))
        (AppError "Invalid disputeId format." Http.BAD_REQUEST);
  _ ← throw_if (negb (includes (u_mimeType i) ALLOWED_EVIDENCE_MIME_TYPES))
        (AppError ("Unsupported file type " +:+ Str.quote (u_mimeType i) +:+ ". Allowed types: "
           +:+ Str.join ", " ALLOWED_EVIDENCE_MIME_TYPES +:+ ".") Http.UNSUPPORTED_MEDIA_TYPE);
  _ ← throw_if (UPLOAD_MAX_FILE_SIZE_MB * 1024 * 1024 <? u_sizeBytes i)%Z
        (AppError ("File exceeds the maximum allowed size of " +:+ pretty UPLOAD_MAX_FILE_SIZE_MB +:+ "MB.")
           Http.REQUEST_TOO_LONG);
  stored ← Done (upload (u_buffer i) (u_originalName i) (u_mimeType i));
  id ← dispute_id;
  atomic_try (λ w,
    if negb (isValidObjectId (u_uploadedBy i)) || (u_sizeBytes i <? 1)%Z
    then (inl (PlainError "Evidence validation failed"), w)
    else
      let e := Doc id (mkEvidence (u_deliveryId i) (u_uploadedBy i) UPLOAD_STORAGE_DRIVER stored.1 stored.2
                 (u_originalName i) (u_mimeType i) (u_sizeBytes i) (now_ms (dw_base w))) in
      (inr e, mkDisputeWorld (dw_base w) (disputes w) (evidences w ++ [e]))).

Definition getEvidenceForDispute (id : string) : dispute_action (list (hydrated Evidence)) :=
  _ ← throw_if (negb (isValidObjectId id)) (AppError "Invalid disputeId format." Http.BAD_REQUEST);
  reads (λ w, sort_by (λ a b, (evidence_createdAt (body b) <=? evidence_createdAt (body a))%Z)
    (List.filter (λ e, String.eqb (evidence_disputeId (body e)) id) (evidences w))).
End DisputeService.

(** ** Evidence under interleaving *)

(** What calls may do to the evidence of a dispute, [L] being the lists that
    updates put in its place: without such a list it is only appended to, what is
    in all of them stays, and it changes only together with the version. *)
Record kept (L : list string → Prop) (d d' : Dispute) : Prop := {
  kp_appended : (∀ l, ¬ L l) → ∃ more, evidenceUrls d' = evidenceUrls d ++ more;
  kp_stays u : u ∈ evidenceUrls d → (∀ l, L l → u ∈ l) → u ∈ evidenceUrls d';
  kp_version : (versionKey d ≤ versionKey d')%nat;
  kp_same : versionKey d' = versionKey d → evidenceUrls d' = evidenceUrls d
}.
#[export] Instance kept_preorder L : PreOrder (kept L).
Proof.
  split.
  - intros d. split; [exists []; by rewrite app_nil_r|done..].
  - intros d1 d2 d3 [A1 P1 V1 S1] [A2 P2 V2 S2]. split; [|auto|lia|].
    + intros Hno. destruct (A1 Hno) as [m1 H1], (A2 Hno) as [m2 H2].
      exists (m1 ++ m2). by rewrite H2, H1, app_assoc.
    + intros Hv. rewrite S2 by lia. apply S1. lia.
Qed.

(** The same of every dispute, [R] giving the lists for each. *)
Definition grows (R : string → list string → Prop) (w w' : DisputeWorld) : Prop :=
  ∀ id d, disputes w !! id = Some d → ∃ d', disputes w' !! id = Some d' ∧ kept (R id) d d'.
#[export] Instance grows_preorder R : PreOrder (grows R).
Proof.
  split; [intros w id d Hd; by exists d|]. intros w1 w2 w3 H1 H2 id d Hd.
  destruct (H1 id d Hd) as (d2 & Hd2 & K1). destruct (H2 id d2 Hd2) as (d3 & Hd3 & K2).
  exists d3. split; [done|]. by etrans.
Qed.

Definition same_disputes (w w' : DisputeWorld) : Prop := disputes w' = disputes w.
Lemma same_grows R w w' : same_disputes w w' → grows R w w'.
Proof. intros Hs id d Hd. exists d. by rewrite Hs. Qed.

(** The alert leaves the collection alone. *)
Class DisputeEnvOk `{DisputeEnv} : Prop :=
  post_alert_confined url kind : confined same_disputes (post_alert url kind).

Lemma pick_same {A} `{EqDecision A} (x cur : A) : pick x x cur = cur.
Proof. unfold pick. by rewrite decide_True. Qed.

Lemma pick_new {A} `{EqDecision A} (old new cur : A) : new ≠ old → pick old new cur = new.
Proof. intros Hn. unfold pick. by rewrite decide_False. Qed.

(** What one save does: nothing, and then it succeeds only if there was nothing
    to write, or the merge. *)
Lemma save_step id old new w :
  ((save_op id old new w).2 = w ∧ (∀ d, (save_op id old new w).1 = inr d → new = old)) ∨
  ∃ cur v, let t := now_ms (dw_base w) in disputes w !! id = Some cur ∧
    save_op id old new w =
      (inr (Doc id (stamped new t v)), with_disputes (<[id := merged old new cur t v]> (disputes w)) w) ∧
    (array_changed old new = true ∧ versionKey cur = versionKey old ∧ v = S (versionKey cur) ∨
     array_changed old new = false ∧ v = versionKey cur).
Proof.
  unfold save_op. destruct (dispute_valid new); cbn [negb]; [|by left].
  case_bool_decide; [by left|].
  destruct (disputes w !! id) as [cur|] eqn:Hcur; [|by left].
  destruct (array_changed old new); cbn [andb].
  - case_bool_decide as Hv; cbn [negb]; [|by left].
    right. exists cur, (S (versionKey cur)). cbv zeta. split_and!; try done. by left.
  - right. exists cur, (versionKey cur). cbv zeta. split_and!; try done. by right.
Qed.

(** A change of the array: an extension of what was read, or one of the lists. *)
Definition change_allowed (L : list string → Prop) (old new : Dispute) : Prop :=
  array_changed old new = true → (∃ more, evidenceUrls new = evidenceUrls old ++ more) ∨ L (evidenceUrls new).

Lemma merged_kept L old new cur t v :
  (array_changed old new = true ∧ versionKey cur = versionKey old ∧ v = S (versionKey cur) ∨
   array_changed old new = false ∧ v = versionKey cur) →
  change_allowed L old new → (array_changed old new = true → kept L old cur) →
  kept L cur (merged old new cur t v).
Proof.
  intros [(Hc & Hv & ->)|(Hc & ->)] Ha Hk.
  - destruct (Hk Hc) as [_ _ _ Hs]. specialize (Hs Hv). specialize (Ha Hc).
    apply negb_true_iff, bool_decide_eq_false in Hc.
    split; cbn [merged evidenceUrls versionKey]; [| |lia|lia]; rewrite pick_new, Hs by done.
    + intros Hno. destruct Ha as [?|Hl]; [done|]. by destruct (Hno _ Hl).
    + intros u Hu Hall. destruct Ha as [[more ->]|Hl]; [apply elem_of_app; by left|by apply Hall].
  - apply negb_false_iff, bool_decide_eq_true in Hc.
    split; cbn [merged evidenceUrls versionKey]; rewrite ?Hc, ?pick_same; try done.
    intros _. exists []. by rewrite app_nil_r.
Qed.

Lemma insert_grows R w id cur d :
  disputes w !! id = Some cur → kept (R id) cur d → grows R w (with_disputes (<[id := d]> (disputes w)) w).
Proof.
  intros Hc Hk i x Hx. cbn [with_disputes disputes]. destruct (decide (i = id)) as [->|Hne].
  - exists d. rewrite lookup_insert_eq. split; [done|]. congruence.
  - exists x. by rewrite lookup_insert_ne.
Qed.

Section EvidenceFacts.
Context `{E : Env, D : DisputeEnv, DOk : !DisputeEnvOk} (R : string → list string → Prop).

Lemma reads_grows {A} (f : DisputeWorld → A) : confined (grows R) (reads f).
Proof. apply confined_reads, _. Qed.

Lemma saveDoc_grows id old new : array_changed old new = false → confined (grows R) (saveDoc id old new).
Proof.
  intros Hc w. split; [|done].
  destruct (save_step id old new w) as [[Hw _]|(cur & v & Hcur & Hw & Hv)]; rewrite Hw; [done|].
  eapply insert_grows; [done|]. apply merged_kept; [done|unfold change_allowed; congruence|congruence].
Qed.

Lemma createDoc_grows d : confined (grows R) (createDoc d).
Proof.
  unfold createDoc. apply confined_bind.
  - intros w. split; [|done]. by apply same_grows.
  - intros id w. split; [|done]. cbn beta.
    destruct (dispute_valid _); cbn [negb]; [|done].
    case_bool_decide as Hi; cbn [orb]; [done|]. destruct (disputeId_unique && _); [done|].
    intros i x Hx. cbn [snd with_disputes disputes]. exists x. rewrite lookup_insert_ne; [done|].
    intros ->. destruct Hi. by eexists.
Qed.

Lemma getDispute_grows id : confined (grows R) (getDisputeById id).
Proof.
  unfold getDisputeById. apply confined_bind; [apply confined_throw_if|intros _].
  apply confined_bind; [apply reads_grows|]. intros o. apply confined_or_throw.
Qed.

Lemma createDispute_grows i : confined (grows R) (createDispute i).
Proof.
  unfold createDispute.
  do 8 (apply confined_bind; [first [apply confined_throw_if|apply reads_grows|apply confined_or_throw]|intros ?]).
  apply createDoc_grows.
Qed.

Lemma resolveDispute_grows id i : confined (grows R) (resolveDispute id i).
Proof.
  unfold resolveDispute. apply confined_bind; [apply getDispute_grows|intros d].
  repeat (apply confined_bind; [first [apply confined_throw_if|apply reads_grows]|intros ?]).
  apply saveDoc_grows. unfold array_changed. by rewrite bool_decide_true.
Qed.

Lemma openEvent_grows e : confined (grows R) (openDisputeFromEvent e).
Proof.
  unfold openDisputeFromEvent. apply confined_bind; [apply confined_throw_if|intros _].
  apply confined_bind; [apply reads_grows|]. intros [d|]; [done|apply createDoc_grows].
Qed.

Lemma resolveEvent_grows e : confined (grows R) (resolveDisputeFromEvent e).
Proof.
  unfold resolveDisputeFromEvent. apply confined_bind; [apply reads_grows|]. intros [d|]; [|done].
  apply confined_bind; [apply reads_grows|]. intros t.
  apply confined_bind; [|done]. apply saveDoc_grows. unfold array_changed. by rewrite bool_decide_true.
Qed.

Lemma alert_grows kind : confined (grows R) (alert kind).
Proof.
  unfold alert. destruct (Str.truthy _); [|done]. apply confined_try_catch; [|done].
  pose proof (post_alert_confined DISPUTE_NOTIFICATION_WEBHOOK_URL kind) as Hc. revert Hc.
  generalize (post_alert DISPUTE_NOTIFICATION_WEBHOOK_URL kind). intros p. induction p as [r|B op k IH]; [done|].
  cbn. intros Hp w. destruct (Hp w) as [Hs Hk]. split; [by apply same_grows|by apply IH].
Qed.

Lemma dispatch_grows kind e : confined (grows R) (dispatchDisputeEvent kind e).
Proof.
  unfold dispatchDisputeEvent, handleDisputeOpened, handleDisputeResolved.
  repeat case_match; try done; (apply confined_bind; [|intros _; apply alert_grows]);
    [apply openEvent_grows|apply resolveEvent_grows].
Qed.

(** Those of the urls that are in all lists are in the stored document. *)
Definition holds_evidence (id : string) (urls : list string) (w : DisputeWorld) : Prop :=
  ∃ d, disputes w !! id = Some d ∧ ∀ u, u ∈ urls → (∀ l, R id l → u ∈ l) → u ∈ evidenceUrls d.

Lemma holds_grows id urls w w' : grows R w w' → holds_evidence id urls w → holds_evidence id urls w'.
Proof.
  intros Hg (d & Hd & Hu). destruct (Hg id d Hd) as (d' & Hd' & Hk).
  exists d'. split; [done|]. intros u Hin Hall. apply (kp_stays _ _ _ Hk); auto.
Qed.

Lemma new_urls_all urls d u : u ∈ urls → u ∈ evidenceUrls d ++ new_urls urls d.
Proof.
  intros Hu. rewrite elem_of_app. destruct (decide (u ∈ evidenceUrls d)) as [|Hn]; [by left|]. right.
  unfold new_urls. apply list_elem_of_In, filter_In. split; [by apply list_elem_of_In|].
  apply negb_true_iff, not_true_iff_false. by rewrite includes_true.
Qed.

(** Saving an allowed change of a document read earlier. *)
Lemma save_safe id d new w :
  disputes w !! id = Some d → change_allowed (R id) d new →
  safe (grows R) (saveDoc id d new) w (λ r w', ∀ x, r = inr x → holds_evidence id (evidenceUrls new) w').
Proof.
  intros Hd Ha w1 H1. destruct (H1 id d Hd) as (cur & Hcur & Hk).
  assert (evidenceUrls new = evidenceUrls d → holds_evidence id (evidenceUrls new) w1) as Hold.
  { intros Heq. exists cur. split; [done|]. rewrite Heq. apply (kp_stays _ _ _ Hk). }
  destruct (save_step id d new w1) as [[Hw He]|(cur' & v & Hcur' & Hw & Hv)].
  - rewrite Hw. split; [done|]. intros w2 H2 x Hx. eapply holds_grows; [exact H2|]. apply Hold. by rewrite (He _ Hx).
  - assert (cur' = cur) as -> by congruence. rewrite Hw. cbn [fst snd].
    pose proof (merged_kept _ d new cur (now_ms (dw_base w1)) v Hv Ha (λ _, Hk)) as Hm.
    split; [by eapply insert_grows|]. intros w2 H2 x _. eapply holds_grows; [exact H2|].
    eexists. cbn [with_disputes disputes]. rewrite lookup_insert_eq. split; [done|]. intros u Hu Hall.
    destruct Hv as [(Hc & _)|(Hc & _)].
    + apply negb_true_iff, bool_decide_eq_false in Hc. cbn [merged evidenceUrls]. by rewrite pick_new.
    + apply negb_false_iff, bool_decide_eq_true in Hc. destruct (Hold Hc) as (c & Hc' & Hin).
      assert (c = cur) as -> by congruence. apply (kp_stays _ _ _ Hm); auto.
Qed.

(** A call that reads a dispute that is not closed and saves a change of it. *)
Lemma read_save_safe id e (change : Dispute → Dispute) urls w :
  (∀ d, change_allowed (R id) d (change d)) → (∀ d u, u ∈ urls → u ∈ evidenceUrls (change d)) →
  safe (grows R) (_ ← (d ← getDisputeById id; _ ← throw_if (closed (body d)) e; saveDoc (_id d) (body d) (change (body d)));
                  mret tt) w
    (λ r w', r = inr tt → holds_evidence id urls w').
Proof.
  intros Ha Hin. unfold getDisputeById.
  apply (safe_bind (grows R) _ _ _ (λ r w', ∀ x, r = inr x → holds_evidence id urls w')).
  2: { intros d w' _ Hd w2 H2 _. eapply holds_grows; [exact H2|]. by eapply Hd. }
  2: { intros e' w' _ _ [=]. }
  destruct (isValidObjectId id); cbn [negb throw_if]; [|intros w' _ x [=]].
  cbn [mbind prog_bind throw_if mret prog_ret]. intros w1 H1. split; [done|]. cbn [fst snd].
  destruct (find_by_id id (disputes w1)) as [d|] eqn:Hd; cbn [or_throw]; [|intros w' _ x [=]].
  apply find_by_id_Some in Hd as [-> Hd]. cbn [mbind prog_bind or_throw mret prog_ret _id body].
  destruct (closed (body d)); cbn [throw_if]; [intros w' _ x [=]|].
  eapply (safe_mono (grows R)); [by apply save_safe|]. intros r w' _ Hq x Hx.
  destruct (Hq x Hx) as (d' & Hd' & Hu). exists d'. split; [done|]. auto.
Qed.

Lemma addEvidence_safe id urls w :
  safe (grows R) (_ ← addEvidence id urls; mret tt) w (λ r w', r = inr tt → holds_evidence id urls w').
Proof.
  apply (read_save_safe id _ (λ d, with_evidence (evidenceUrls d ++ new_urls urls d) d)).
  - intros d _. left. by eexists.
  - intros d u. apply new_urls_all.
Qed.

Lemma updateDispute_safe id i w :
  (∀ l, ud_evidenceUrls i = Some l → R id l) →
  safe (grows R) (_ ← updateDispute id i; mret tt) w (λ _ _, True).
Proof.
  intros HR. eapply (safe_mono (grows R)); [apply (read_save_safe id _ (updated_with i) [])|done].
  - intros d Hc. right. unfold array_changed in Hc. cbn [updated_with evidenceUrls] in *.
    destruct (ud_evidenceUrls i) as [l|]; [by apply HR|]. cbn [nullish] in Hc. by rewrite bool_decide_true in Hc.
  - by intros d u ?%elem_of_nil.
Qed.
End EvidenceFacts.

(** The calls of the API and the contract's events, their results dropped. *)
Inductive dispute_op :=
  | op_create (i : CreateDisputeInput)
  | op_resolve (id : string) (i : ResolveDisputeInput)
  | op_evidence (id : string) (urls : list string)
  | op_update (id : string) (i : UpdateDisputeInput)
  | op_event (kind : string) (e : DisputeEvent).

Section EvidenceInterleaved.
Context `{E : Env, D : DisputeEnv, DOk : !DisputeEnvOk}.

Definition perform_op (o : dispute_op) : dispute_action unit :=
  match o with
  | op_create i => _ ← createDispute i; mret tt
  | op_resolve id i => _ ← resolveDispute id i; mret tt
  | op_evidence id urls => _ ← addEvidence id urls; mret tt
  | op_update id i => _ ← updateDispute id i; mret tt
  | op_event kind e => dispatchDisputeEvent kind e
  end.

(** The lists that updates among the calls put in place of a dispute's evidence. *)
Definition replacements (ops : list dispute_op) (id : string) (l : list string) : Prop :=
  ∃ i, op_update id i ∈ ops ∧ ud_evidenceUrls i = Some l.

Lemma perform_op_safe ops o w : o ∈ ops → safe (grows (replacements ops)) (perform_op o) w (λ _ _, True).
Proof.
  intros Ho. destruct o as [i|id i|id urls|id i|kind e]; cbn [perform_op];
    [| |eapply (safe_mono (grows _)); [apply addEvidence_safe|done]|apply updateDispute_safe; by exists i|];
    (eapply confined_safe; [|done]); try (apply confined_bind; [|done]);
    auto using createDispute_grows, resolveDispute_grows, dispatch_grows.
Qed.

(** C29: However calls that create, resolve, update or give evidence to disputes
    and the contract's events interleave: the evidence of a dispute is only
    appended to, unless an update replaces it, and a url is lost only to an
    update that gives this dispute a list without it.  An [addEvidence] that
    returned has all its urls in the stored dispute, but for those an update
    replaced in the same way. *)
Theorem evidence_never_lost ops sched w :
  let x := interleave sched (perform_op <$> ops) w in
  (∀ id d, disputes w !! id = Some d → ∃ d', disputes x.2 !! id = Some d' ∧
     ((∀ l, ¬ replacements ops id l) → ∃ more, evidenceUrls d' = evidenceUrls d ++ more) ∧
     ∀ u, u ∈ evidenceUrls d → (∀ l, replacements ops id l → u ∈ l) → u ∈ evidenceUrls d') ∧
  (∀ i id urls, ops !! i = Some (op_evidence id urls) → x.1 !! i = Some (Done (inr tt)) →
     ∃ d', disputes x.2 !! id = Some d' ∧
       ∀ u, u ∈ urls → (∀ l, replacements ops id l → u ∈ l) → u ∈ evidenceUrls d').
Proof.
  set (R := replacements ops).
  assert (∀ i p, (perform_op <$> ops) !! i = Some p → ∃ o, ops !! i = Some o ∧ p = perform_op o ∧ o ∈ ops) as Hps.
  { intros i p (o & -> & Ho)%list_lookup_fmap_Some. exists o. split_and!; [done|done|by eapply list_elem_of_lookup_2]. }
  cbv zeta. split.
  - assert (grows R w (interleave sched (perform_op <$> ops) w).2) as Hg.
    { refine (proj1 (safe_interleave (grows R) (λ _ _ _, True) sched (perform_op <$> ops) w _)).
      intros i p (o & _ & -> & Ho)%Hps. by apply perform_op_safe. }
    intros id d Hd. destruct (Hg id d Hd) as (d' & Hd' & [Hap Hst _ _]). exists d'. auto.
  - intros i id urls Hi Hx.
    destruct (safe_interleave (grows R) (λ j r w', j = i → r = inr tt → holds_evidence R id urls w')
      sched (perform_op <$> ops) w) as [_ Hq].
    + intros j p (o & Hj & -> & Ho)%Hps. destruct (decide (j = i)) as [Hji|Hne].
      * rewrite Hji, Hi in Hj. injection Hj as <-. eapply (safe_mono (grows R)); [apply addEvidence_safe|]. eauto.
      * eapply (safe_mono (grows R)); [by apply perform_op_safe|]. done.
    + by apply (safe_done (grows R) _ _ _ (Hq i _ Hx)).
Qed.
End EvidenceInterleaved.

(** ** Calls one after another *)
Section Sequential.
Context `{E : Env, D : DisputeEnv}.

Inductive api_call :=
  | api_create (i : CreateDisputeInput)
  | api_resolve (id : string) (i : ResolveDisputeInput)
  | api_evidence (id : string) (urls : list string)
  | api_update (id : string) (i : UpdateDisputeInput).

Definition exec_api (c : api_call) : prog DisputeWorld unit :=
  match c with
  | api_create i => _ ← createDispute i; mret tt
  | api_resolve id i => _ ← resolveDispute id i; mret tt
  | api_evidence id urls => _ ← addEvidence id urls; mret tt
  | api_update id i => _ ← updateDispute id i; mret tt
  end.

Definition run_api (w : DisputeWorld) (cs : list api_call) : DisputeWorld :=
  foldl (λ w c, (run (exec_api c) w).2) w cs.

(** At most one unresolved dispute per delivery. *)
Definition one_unresolved (w : DisputeWorld) : Prop :=
  ∀ i j di dj, disputes w !! i = Some di → disputes w !! j = Some dj →
    unresolved di = true → unresolved dj = true → dp_deliveryId di = dp_deliveryId dj → i = j.

Definition closed_kept (w w' : DisputeWorld) : Prop :=
  ∀ id d, disputes w !! id = Some d → closed d = true → disputes w' !! id = Some d.

Lemma unchanged_ok w : one_unresolved w → one_unresolved w ∧ closed_kept w w.
Proof. intros Hone. split; [done|]. by intros id d Hd _. Qed.

Lemma unresolved_closed d : unresolved d = negb (closed d).
Proof. unfold unresolved, closed, includes. by destruct (dp_status d). Qed.

(** An edit replaces one open dispute by a merge, or changes nothing. *)
Definition edits (id : string) (w w' : DisputeWorld) : Prop :=
  w' = w ∨ ∃ d new t v, disputes w !! id = Some d ∧ closed d = false ∧
    w' = with_disputes (<[id := merged d new d t v]> (disputes w)) w.

Lemma save_edits id d new w :
  disputes w !! id = Some d → closed d = false → edits id w (run (saveDoc id d new) w).2.
Proof.
  intros Hd Hc. unfold saveDoc. rewrite run_atomic_try.
  destruct (save_step id d new w) as [[-> _]|(cur & v & Hcur & -> & _)]; [by left|].
  right. assert (cur = d) as -> by congruence. by exists d, new, (now_ms (dw_base w)), v.
Qed.

(** The shape of the three editing calls. *)
Lemma edit_run {A} id (f : hydrated Dispute → prog DisputeWorld A) w :
  (∀ d, disputes w !! id = Some d → edits id w (run (f (Doc id d)) w).2) →
  edits id w (run (getDisputeById id ≫= f) w).2.
Proof.
  intros Hf. unfold getDisputeById. rewrite run_bind, run_bind, run_throw_if. cbn [fst snd].
  destruct (isValidObjectId id); cbn [negb]; [|by left]. rewrite run_bind. unfold findDispute.
  rewrite run_reads. cbn [fst snd]. rewrite run_or_throw. cbn [fst snd].
  destruct (find_by_id id (disputes w)) as [d|] eqn:Hd; [|by left].
  apply find_by_id_Some in Hd as [-> Hd]. by apply Hf.
Qed.

Lemma run_drop {A} (p : prog DisputeWorld A) w : (run (_ ← p; mret tt) w).2 = (run p w).2.
Proof. rewrite run_bind. by destruct (run p w) as [[] ?]. Qed.

Lemma resolve_edits id i w : edits id w (run (resolveDispute id i) w).2.
Proof.
  unfold resolveDispute. apply edit_run. intros d Hd. cbn [body _id].
  rewrite run_bind, run_throw_if. cbn [fst snd]. destruct (closed d) eqn:Hc; [by left|].
  rewrite run_bind, run_throw_if. cbn [fst snd]. destruct (notes_missing i); [by left|].
  rewrite run_bind, run_reads. cbn [fst snd]. by apply save_edits.
Qed.

Lemma evidence_edits id urls w : edits id w (run (addEvidence id urls) w).2.
Proof.
  unfold addEvidence. apply edit_run. intros d Hd. cbn [body _id].
  rewrite run_bind, run_throw_if. cbn [fst snd]. destruct (closed d) eqn:Hc; [by left|]. by apply save_edits.
Qed.

Lemma update_edits id i w : edits id w (run (updateDispute id i) w).2.
Proof.
  unfold updateDispute. apply edit_run. intros d Hd. cbn [body _id].
  rewrite run_bind, run_throw_if. cbn [fst snd]. destruct (closed d) eqn:Hc; [by left|]. by apply save_edits.
Qed.

Lemma edits_ok id w w' : edits id w w' → one_unresolved w → one_unresolved w' ∧ closed_kept w w'.
Proof.
  intros [->|(d & new & t & v & Hd & Hc & ->)] Hone; [by apply unchanged_ok|]. split.
  - assert (∀ i x, disputes (with_disputes (<[id := merged d new d t v]> (disputes w)) w) !! i = Some x →
      unresolved x = true → ∃ x0, disputes w !! i = Some x0 ∧ unresolved x0 = true ∧ dp_deliveryId x0 = dp_deliveryId x)
      as Hback.
    { intros i x. cbn [with_disputes disputes]. intros [[<- <-]|[Hne Hx]]%lookup_insert_Some Hu.
      - exists d. by rewrite unresolved_closed, Hc.
      - by exists x. }
    intros i j di dj Hi Hj Hui Huj Heq.
    destruct (Hback _ _ Hi Hui) as (xi & Hxi & Hu1 & E1). destruct (Hback _ _ Hj Huj) as (xj & Hxj & Hu2 & E2).
    apply (Hone i j xi xj); try done. congruence.
  - intros i x Hx Hcx. cbn [with_disputes disputes]. rewrite lookup_insert_ne; [done|]. intros ->. congruence.
Qed.

(** A new dispute is the only unresolved one of its delivery. *)
Lemma createDispute_run i w :
  (run (createDispute i) w).2 = w ∨
  dw_base (run (createDispute i) w).2 = dw_base w <| nextId ::= S |> ∧
  (disputes (run (createDispute i) w).2 = disputes w ∨
   ∃ id d, disputes w !! id = None ∧ dp_deliveryId d = cd_deliveryId i ∧
     disputes (run (createDispute i) w).2 = <[id := d]> (disputes w) ∧
     ∀ j x, disputes w !! j = Some x → dp_deliveryId x = cd_deliveryId i → unresolved x = false).
Proof.
  unfold createDispute.
  rewrite run_bind, run_throw_if. cbn [fst snd]. destruct (negb _); [by left|].
  rewrite run_bind, run_reads. cbn [fst snd]. rewrite run_bind, run_or_throw. cbn [fst snd].
  destruct (find_by_id _ _) as [dv|]; [|by left].
  rewrite run_bind, run_throw_if. cbn [fst snd]. destruct (negb _); [by left|].
  rewrite run_bind, run_throw_if. cbn [fst snd]. destruct (negb _); [by left|].
  rewrite run_bind. unfold findOneDispute. rewrite run_reads. cbn [fst snd].
  destruct (find_one _ (disputes w)) as [x|] eqn:Hx; [rewrite run_bind, run_throw_if, bool_decide_true by (by eexists); by left|].
  rewrite run_bind, run_throw_if, bool_decide_false by (by intros []). cbn [fst snd].
  rewrite run_bind, run_reads. cbn [fst snd]. cbv zeta. right.
  unfold createDoc. rewrite run_bind. unfold dispute_id. rewrite run_atomic. cbn [fst snd].
  rewrite run_atomic_try. destruct (negb (dispute_valid _)); [split; [done|by left]|].
  case_bool_decide as Hi; cbn [orb]; [split; [done|by left]|]. destruct (_ && _); [split; [done|by left]|].
  split; [done|]. right. eexists (newObjectId (nextId (dw_base w))), (new_dispute i _ _). split_and!; [|reflexivity|reflexivity|].
  - cbn [disputes] in Hi. by apply eq_None_not_Some.
  - intros j x Hj Hid. pose proof (find_one_None _ _ Hx j x Hj) as Hn. cbn beta in Hn.
    by rewrite Hid, String.eqb_refl in Hn.
Qed.

Lemma create_ok i w :
  one_unresolved w → one_unresolved (run (createDispute i) w).2 ∧ closed_kept w (run (createDispute i) w).2.
Proof.
  intros Hone. destruct (createDispute_run i w) as [->|[_ [Hs|(id & d & Hn & Hid & Hs & Hnone)]]]; [by apply unchanged_ok| |].
  - unfold one_unresolved, closed_kept. rewrite Hs. by apply unchanged_ok.
  - unfold one_unresolved, closed_kept. rewrite Hs. split.
    + intros a b da db [[<- <-]|[Ha Hda]]%lookup_insert_Some [[<- <-]|[Hb Hdb]]%lookup_insert_Some Hua Hub Heq; [done| | |by eapply Hone].
      * by rewrite (Hnone b db Hdb) in Hub by congruence.
      * by rewrite (Hnone a da Hda) in Hua by congruence.
    + intros a x Hx _. rewrite lookup_insert_ne; [done|]. intros ->. congruence.
Qed.

Lemma exec_api_ok c w :
  one_unresolved w → one_unresolved (run (exec_api c) w).2 ∧ closed_kept w (run (exec_api c) w).2.
Proof.
  intros Hone. destruct c; cbn [exec_api]; rewrite run_drop; [by apply create_ok|..];
    (eapply edits_ok; [|done]); eauto using resolve_edits, evidence_edits, update_edits.
Qed.

(** C30: Calls of the API that run one after another keep at most one unresolved
    dispute per delivery, and never change a resolved or rejected dispute. *)
Theorem api_sequence_correct cs w :
  one_unresolved w → one_unresolved (run_api w cs) ∧ closed_kept w (run_api w cs).
Proof.
  revert w. induction cs as [|c cs IH]; intros w Hone; [by apply unchanged_ok|]. cbn [run_api foldl].
  destruct (exec_api_ok c w Hone) as [Hone' Hk]. destruct (IH _ Hone') as [? Hk']. split; [done|].
  intros id d Hd Hc. apply Hk'; [by apply Hk|done].
Qed.

End Sequential.

(** ** Examples *)
Module DisputeExamples.
Export ExampleEnv.
#[export] Instance dispute_env : DisputeEnv := {|
  disputeId_unique := false;
  DISPUTE_NOTIFICATION_WEBHOOK_URL := "https://support.example/hook";
  UPLOAD_MAX_FILE_SIZE_MB := 10;
  post_alert _ _ := throw (PlainError "connect ECONNREFUSED")
|}.
#[export] Instance dispute_env_ok : DisputeEnvOk.
Proof. by intros url kind. Qed.

Definition delivery_id : string := "64b7f0c2a1d3e4f500000001".
Definition underway : Delivery :=
  mkDelivery None (Some "driver-1") None (Some "customer-1") None None None None JNull JNull JNull JNull
    None None None None None None None DeliveryStatus.IN_PROGRESS None None None None false None None 0 0.
Definition court : DisputeWorld :=
  mkDisputeWorld (empty_world 1000 <| deliveries := {[delivery_id := underway]} |>) ∅ [].
Definition complaint (by_ : string) : CreateDisputeInput :=
  mkCreateDispute delivery_id (Some by_) DisputeReason.DAMAGED_PACKAGE "the box arrived open" None.

(** The document the first call creates, and the world after it. *)
Definition first_id : string := newObjectId 0.
Definition opened : DisputeWorld := (run (createDispute (complaint "customer-1")) court).2.

Definition statuses_of (w : DisputeWorld) : list DisputeStatus.t := (λ kv, dp_status kv.2) <$> map_to_list (disputes w).

(** The check for an open dispute and the insertion are two accesses: racing
    calls both pass. *)
Example two_unresolved_disputes :
  statuses_of (interleave [0; 1; 0; 1; 0; 1; 0; 1; 0; 1]%nat
    [(_ ← createDispute (complaint "customer-1"); mret tt); (_ ← createDispute (complaint "driver-1"); mret tt)]
    court).2 = [DisputeStatus.OPEN; DisputeStatus.OPEN].
Proof. vm_compute. reflexivity. Qed.

(** Two resolutions that both read the open dispute: the second overwrites the
    first one's outcome. *)
Example resolution_overwritten :
  statuses_of (interleave [0; 1; 0; 0; 1; 1]%nat
    [(_ ← resolveDispute first_id (mkResolveDispute DisputeStatus.RESOLVED (Some "refund the customer") None); mret tt);
     (_ ← resolveDispute first_id (mkResolveDispute DisputeStatus.REJECTED None None); mret tt)]
    opened).2 = [DisputeStatus.REJECTED].
Proof. vm_compute. reflexivity. Qed.

(** "Resolving" with status [open] stamps an open dispute as resolved. *)
Example open_but_resolved :
  (λ d, (dp_status d, dp_resolvedAt d)) <$>
    disputes (run (resolveDispute first_id (mkResolveDispute DisputeStatus.OPEN None None)) opened).2 !! first_id
  = Some (DisputeStatus.OPEN, Some 1000%Z).
Proof. vm_compute. reflexivity. Qed.

(** A contract event resolves a dispute that support had rejected. *)
Definition chain_event (k : string) : DisputeEvent :=
  mkDisputeEvent "0xabc" delivery_id None None (Some k) 7.
Example rejected_then_resolved :
  let w1 := (run (dispatchDisputeEvent "dispute_opened" (chain_event "")) court).2 in
  let w2 := (run (resolveDispute first_id (mkResolveDispute DisputeStatus.REJECTED None None)) w1).2 in
  let w3 := (run (dispatchDisputeEvent "dispute_resolved" (chain_event "refund")) w2).2 in
  (statuses_of w1, statuses_of w2, statuses_of w3) =
  ([DisputeStatus.OPEN], [DisputeStatus.REJECTED], [DisputeStatus.RESOLVED]).
Proof. vm_compute. reflexivity. Qed.
End DisputeExamples.

Section DisputeWitnesses.
Import DisputeExamples.

Lemma api_sequence_correct_witness :
  one_unresolved (run_api court [api_create (complaint "customer-1");
    api_evidence first_id ["https://cdn/photo.png"];
    api_resolve first_id (mkResolveDispute DisputeStatus.REJECTED None (Some "admin-1"));
    api_create (complaint "driver-1")]).
Proof.
  apply api_sequence_correct. intros i j di dj Hi. cbn [court disputes] in Hi. by rewrite lookup_empty in Hi.
Defined.

(** Of two additions that read the same version one is written and the other
    fails, and an update that read the dispute before an addition fails too;
    nothing that was accepted is lost. *)
Definition additions : list dispute_op :=
  [op_evidence first_id ["https://cdn/a.png"]; op_evidence first_id ["https://cdn/b.png"];
   op_update first_id (mkUpdateDispute None None (Some ["https://cdn/c.png"; "https://cdn/a.png"]))].
Definition addition_schedule : list nat := [0; 1; 2; 0; 1; 2]%nat.
Definition evidence_race : list (dispute_action unit) * DisputeWorld :=
  interleave addition_schedule (perform_op <$> additions) opened.
Example stale_writes_refused :
  evidence_race.1 = [Done (inr tt); Done (inl (PlainError "No matching document found for id and version"));
                     Done (inl (PlainError "No matching document found for id and version"))] ∧
  evidenceUrls <$> disputes evidence_race.2 !! first_id = Some ["https://cdn/a.png"].
Proof. vm_compute. split; reflexivity. Qed.

(** An update that reads the dispute after the addition replaces its evidence:
    the url is gone. *)
Example update_replaces_evidence :
  evidenceUrls <$> disputes (interleave [0; 0; 1; 1]%nat
    (perform_op <$> [op_evidence first_id ["https://cdn/a.png"];
                     op_update first_id (mkUpdateDispute None None (Some ["https://cdn/c.png"]))]) opened).2 !! first_id
  = Some ["https://cdn/c.png"].
Proof. vm_compute. reflexivity. Qed.

Lemma evidence_never_lost_witness :
  evidence_race.1 !! 0%nat = Some (Done (inr tt)) ∧
  ∃ d, disputes evidence_race.2 !! first_id = Some d ∧ "https://cdn/a.png" ∈ evidenceUrls d.
Proof.
  assert (evidence_race.1 !! 0%nat = Some (Done (inr tt))) as H0 by (vm_compute; reflexivity).
  split; [exact H0|].
  destruct (proj2 (evidence_never_lost additions addition_schedule opened) 0%nat first_id ["https://cdn/a.png"]
    eq_refl H0) as (d & Hd & Hu).
  exists d. split; [exact Hd|]. apply Hu; [by left|]. intros l (i & Hi & Hl).
  apply list_elem_of_In in Hi as [Hi|[Hi|[Hi|[]]]]; try discriminate Hi.
  injection Hi as <-. injection Hl as <-. apply list_elem_of_In. right. by left.
Defined.
End DisputeWitnesses.
