(* ===== verification/RpcRetry.v ===== *)
(** * Retries of remote calls ([src/src/utils/rpcRetry.ts])

    [withRetry] runs a call up to [maxAttempts] times with exponential backoff
    and jitter, each attempt against a timer.  A remote call is an operation on
    the caller's world that takes some milliseconds; when the timer is faster
    its effect stays and its answer is dropped.  [Math.pow] and [Math.random]
    are parameters. *)
From S2P Require Import Prelude JsLib.

Inductive AttemptFailureKind := timeout_kind | error_kind.

(** What a call rejects with: its own error, or the timer's. *)
Inductive rpc_error (X : Type) :=
  | Rejected (e : X)
  | OperationTimeoutError (operation : string) (timeoutMs : Z).
Arguments Rejected {X} e.
Arguments OperationTimeoutError {X} operation timeoutMs.

Definition kind_of {X} (e : rpc_error X) : AttemptFailureKind :=
  match e with OperationTimeoutError _ _ => timeout_kind | Rejected _ => error_kind end.

Record RetryAttemptContext (X : Type) := mkAttemptContext {
  ctx_attempt : nat;
  ctx_maxAttempts : nat;
  ctx_kind : AttemptFailureKind;
  ctx_error : rpc_error X;
  ctx_delayMs : number
}.
Arguments mkAttemptContext {X}.

Record RetryRecoveryContext := mkRecoveryContext { rec_attempt : nat; rec_elapsedMs : Z }.

(** ** The caller's world with a clock and the random numbers drawn so far *)
Section RpcRetry.
Context {W X A : Type}.

Record Clocked := mkClocked { clock : Z; drawn : nat; inner : W }.

(** A call: its answer, how long it takes, and its effect. *)
Definition remote := W → (X + A) * Z * W.

(** The hooks are synchronous and may throw. *)
Record RetryOptions := mkRetryOptions {
  maxAttempts : nat;
  baseDelayMs : number;
  maxDelayMs : number;
  factor : number;
  jitter : number;
  operationName : string;
  isRetryable : rpc_error X → AttemptFailureKind → bool;
  timeoutMs : Z;
  onAttemptFailed : RetryAttemptContext X → W → option X * W;
  onRecovery : RetryRecoveryContext → W → option X * W
}.

Context (math_pow : number → nat → number) (math_random : nat → number).

Definition computeBackoffDelay (attempt : nat) (o : RetryOptions) (random : number) : number :=
  let exponential := Num.mul (baseDelayMs o) (math_pow (factor o) attempt) in
  let capped := js_min exponential (maxDelayMs o) in
  let jitterRange := Num.mul capped (jitter o) in
  let jitterOffset := Num.mul (Num.sub (Num.mul random (Num.of_Z 2)) (Num.of_Z 1)) jitterRange in
  js_max Num.zero (Math.round (Num.add capped jitterOffset)).

(** The race with the timer; a timer that is not positive is disabled. *)
Definition withTimeout (fn : remote) (timeout : Z) (operation : string) (w : Clocked)
    : (rpc_error X + A) * Clocked :=
  let '(r, duration, w') := fn (inner w) in
  let answer := match r with inl e => inl (Rejected e) | inr a => inr a end in
  if (timeout <=? 0)%Z || (duration <? timeout)%Z
  then (answer, mkClocked (clock w + duration) (drawn w) w')
  else (inl (OperationTimeoutError operation timeout), mkClocked (clock w + timeout) (drawn w) w').

(** [sleep(delayMs)]: at least that long, rounded up to a millisecond. *)
Definition sleep (ms : number) (w : Clocked) : Clocked :=
  mkClocked (clock w + nullish (Num.trunc ms) 0%Z) (drawn w) (inner w).

(** A hook throws what [withRetry] then throws, or catches. *)
Definition call_hook {C} (h : C → W → option X * W) (c : C) (w : Clocked) : option (rpc_error X) * Clocked :=
  let '(e, w') := h c (inner w) in (Rejected <$> e, mkClocked (clock w) (drawn w) w').

(** The body of [try] and what follows its success. *)
Definition try_attempt (fn : remote) (o : RetryOptions) (startedAt : Z) (attempt : nat) (w : Clocked)
    : (rpc_error X + A) * Clocked :=
  match withTimeout fn (timeoutMs o) (operationName o) w with
  | (inl e, w) => (inl e, w)
  | (inr a, w) =>
      if (attempt =? 0)%nat then (inr a, w) else
      match call_hook (onRecovery o) (mkRecoveryContext (S attempt) (clock w - startedAt)) w with
      | (Some e, w) => (inl e, w)
      | (None, w) => (inr a, w)
      end
  end.

(** The loop; [fuel] attempts are left, [lastError] is [None] for [undefined]. *)
Fixpoint retry_loop (fn : remote) (o : RetryOptions) (startedAt : Z) (fuel attempt : nat)
    (lastError : option (rpc_error X)) (w : Clocked) : (option (rpc_error X) + A) * Clocked :=
  match fuel with
  | O => (inl lastError, w)
  | S fuel =>
      match try_attempt fn o startedAt attempt w with
      | (inr a, w) => (inr a, w)
      | (inl err, w) =>
          let attemptNumber := S attempt in
          let kind := kind_of err in
          let isLastAttempt := (maxAttempts o <=? attemptNumber)%nat in
          if negb (isRetryable o err kind) || isLastAttempt then
            match call_hook (onAttemptFailed o)
                    (mkAttemptContext attemptNumber (maxAttempts o) kind err Num.zero) w with
            | (Some e, w) => (inl (Some e), w)
            | (None, w) => (inl (Some err), w)
            end
          else
            let delayMs := computeBackoffDelay attempt o (math_random (drawn w)) in
            let w := mkClocked (clock w) (S (drawn w)) (inner w) in
            match call_hook (onAttemptFailed o)
                    (mkAttemptContext attemptNumber (maxAttempts o) kind err delayMs) w with
            | (Some e, w) => (inl (Some e), w)
            | (None, w) => retry_loop fn o startedAt fuel attemptNumber (Some err) (sleep delayMs w)
            end
      end
  end.

Definition withRetry (fn : remote) (o : RetryOptions) (w : Clocked) : (option (rpc_error X) + A) * Clocked :=
  retry_loop fn o (clock w) (maxAttempts o) 0 None w.

(** ** The reference: the first attempt that settles the call *)

(** The world after a failed attempt that is tried again: one random number
    drawn, the hook called, the delay slept. *)
Definition pause (o : RetryOptions) (attempt : nat) (err : rpc_error X) (w : Clocked) : Clocked :=
  let delayMs := computeBackoffDelay attempt o (math_random (drawn w)) in
  sleep delayMs
    (call_hook (onAttemptFailed o)
      (mkAttemptContext (S attempt) (maxAttempts o) (kind_of err) err delayMs)
      (mkClocked (clock w) (S (drawn w)) (inner w))).2.

(** The world in which attempt [k] starts when all before it failed. *)
Fixpoint world_before (fn : remote) (o : RetryOptions) (w : Clocked) (k : nat) : Clocked :=
  match k with
  | O => w
  | S k =>
      match try_attempt fn o (clock w) k (world_before fn o w k) with
      | (inl err, w') => pause o k err w'
      | (inr _, w') => w'
      end
  end.

Definition attempt_at (fn : remote) (o : RetryOptions) (w : Clocked) (k : nat) : (rpc_error X + A) * Clocked :=
  try_attempt fn o (clock w) k (world_before fn o w k).

(** Success, a failure that must not be retried, or the last attempt. *)
Definition settles (fn : remote) (o : RetryOptions) (w : Clocked) (k : nat) : bool :=
  match (attempt_at fn o w k).1 with
  | inr _ => true
  | inl err => negb (isRetryable o err (kind_of err)) || (maxAttempts o <=? S k)%nat
  end.

Definition conclude (fn : remote) (o : RetryOptions) (w : Clocked) (k : nat) : (option (rpc_error X) + A) * Clocked :=
  match attempt_at fn o w k with
  | (inr a, w') => (inr a, w')
  | (inl err, w') =>
      (inl (Some err),
       (call_hook (onAttemptFailed o)
          (mkAttemptContext (S k) (maxAttempts o) (kind_of err) err Num.zero) w').2)
  end.

Definition retry_reference (fn : remote) (o : RetryOptions) (w : Clocked) : (option (rpc_error X) + A) * Clocked :=
  match List.find (settles fn o w) (List.seq 0 (maxAttempts o)) with
  | Some k => conclude fn o w k
  | None => (inl None, w)
  end.

(** The milliseconds slept after the first [k] attempts. *)
Fixpoint slept (o : RetryOptions) (d k : nat) : Z :=
  match k with
  | O => 0
  | S k => slept o d k + nullish (Num.trunc (computeBackoffDelay k o (math_random (d + k)))) 0
  end%Z.

(** Hooks that do not throw. *)
Definition quiet (o : RetryOptions) : Prop :=
  (∀ c w, (onAttemptFailed o c w).1 = None) ∧ (∀ c w, (onRecovery o c w).1 = None).

(** ** Proofs *)
Lemma call_hook_quiet {C} (h : C → W → option X * W) c w :
  (h c (inner w)).1 = None →
  call_hook h c w = (None, (call_hook h c w).2)
  ∧ clock (call_hook h c w).2 = clock w ∧ drawn (call_hook h c w).2 = drawn w.
Proof. intros Hq. unfold call_hook. destruct (h c (inner w)) as [e w'] eqn:?. by simplify_eq/=. Qed.

(** An attempt that is timed takes at most its timeout, and draws nothing. *)
Lemma try_attempt_time fn o t0 k w : quiet o →
  drawn (try_attempt fn o t0 k w).2 = drawn w
  ∧ ((0 < timeoutMs o)%Z → (clock (try_attempt fn o t0 k w).2 ≤ clock w + timeoutMs o)%Z).
Proof.
  intros [_ Hr]. unfold try_attempt.
  assert (drawn (withTimeout fn (timeoutMs o) (operationName o) w).2 = drawn w
    ∧ ((0 < timeoutMs o)%Z →
       (clock (withTimeout fn (timeoutMs o) (operationName o) w).2 ≤ clock w + timeoutMs o)%Z)) as [Hd Hc].
  { unfold withTimeout. destruct (fn (inner w)) as [[r d] w'].
    destruct (Z.leb_spec (timeoutMs o) 0); destruct (Z.ltb_spec d (timeoutMs o)); cbn; split; lia. }
  destruct withTimeout as [[e|a] w1]; cbn in *; [done|].
  destruct (k =? 0)%nat; [done|].
  edestruct (call_hook_quiet (onRecovery o)) as (Eq & Hk & Hdr); [apply Hr|].
  rewrite Eq. cbn. by rewrite Hk, Hdr.
Qed.

Lemma pause_time o k err w : quiet o →
  drawn (pause o k err w) = S (drawn w)
  ∧ clock (pause o k err w)
    = (clock w + nullish (Num.trunc (computeBackoffDelay k o (math_random (drawn w)))) 0)%Z.
Proof.
  intros [Hf _]. unfold pause, sleep. cbn.
  edestruct (call_hook_quiet (onAttemptFailed o)) as (_ & Hk & Hd); [apply Hf|].
  rewrite Hk, Hd. done.
Qed.

(** While no attempt settles, each one failed and was tried again. *)
Lemma settles_false fn o w k : settles fn o w k = false →
  ∃ err w', attempt_at fn o w k = (inl err, w') ∧ isRetryable o err (kind_of err) = true
    ∧ (S k < maxAttempts o)%nat ∧ world_before fn o w (S k) = pause o k err w'.
Proof.
  unfold settles, attempt_at. cbn [world_before].
  destruct (try_attempt fn o (clock w) k (world_before fn o w k)) as [[err|a] w'] eqn:Ht; [|done].
  intros [Hr%negb_false_iff Hm%Nat.leb_gt]%orb_false_iff. by exists err, w'.
Qed.

Lemma world_before_time fn o w k : quiet o → (∀ j, j < k → settles fn o w j = false) →
  drawn (world_before fn o w k) = (drawn w + k)%nat
  ∧ ((0 < timeoutMs o)%Z →
     (clock (world_before fn o w k) ≤ clock w + Z.of_nat k * timeoutMs o + slept o (drawn w) k)%Z).
Proof.
  intros Hq. induction k as [|k IH]; intros Hk; [cbn; split; lia|].
  destruct IH as [Hd Hc]; [intros; apply Hk; lia|].
  destruct (settles_false fn o w k) as (err & w' & Ha & _ & _ & ->); [apply Hk; lia|].
  destruct (try_attempt_time fn o (clock w) k (world_before fn o w k) Hq) as [Hd' Hc'].
  unfold attempt_at in Ha. rewrite Ha in Hd', Hc'. cbn [snd] in *.
  destruct (pause_time o k err w' Hq) as [-> ->]. cbn [slept].
  rewrite Hd', Hd. split; [lia|]. intros Ht. specialize (Hc Ht). specialize (Hc' Ht). lia.
Qed.

Lemma retry_loop_reference fn o w fuel k last : quiet o →
  (k + fuel = maxAttempts o)%nat →
  retry_loop fn o (clock w) fuel k last (world_before fn o w k)
  = match List.find (settles fn o w) (List.seq k fuel) with
    | Some j => conclude fn o w j
    | None => (inl last, world_before fn o w k)
    end.
Proof.
  intros Hq. revert k last. induction fuel as [|fuel IH]; intros k last Hk; [done|].
  cbn [List.seq List.find retry_loop].
  destruct (settles fn o w k) eqn:Hs.
  - unfold settles, conclude, attempt_at in *.
    destruct try_attempt as [[err|a] w'] eqn:Ht; [|done]. cbn [fst] in Hs. rewrite Hs.
    edestruct (call_hook_quiet (onAttemptFailed o)) as (Eq & _); [apply Hq|].
    by rewrite Eq.
  - destruct (settles_false fn o w k Hs) as (err & w' & Ha & Hr & Hm & Hw).
    unfold attempt_at in Ha. rewrite Ha, Hr. cbn [negb orb].
    rewrite (proj2 (Nat.leb_gt _ _)) by done.
    edestruct (call_hook_quiet (onAttemptFailed o)) as (Eq & _); [apply Hq|]. rewrite Eq.
    unfold pause in Hw. rewrite <- Hw, (IH (S k)) by lia.
    destruct fuel; [lia|].
    (* the loop never runs out here: the last attempt settles *)
    destruct List.find eqn:Hf; [done|].
    exfalso. assert (settles fn o w (maxAttempts o - 1) = false) as Hl.
    { apply (List.find_none _ _ Hf). apply List.in_seq. lia. }
    apply settles_false in Hl as (?&?&_&_&?&_). lia.
Qed.

Lemma find_seq_first (f : nat → bool) n m j : List.find f (List.seq n m) = Some j →
  (n ≤ j < n + m)%nat ∧ f j = true ∧ ∀ i, n ≤ i → i < j → f i = false.
Proof.
  revert n. induction m as [|m IH]; intros n Hf; [done|]. cbn in Hf.
  destruct (f n) eqn:Hn; [simplify_eq; split; [lia|split; [done|lia]]|].
  destruct (IH (S n) Hf) as (? & ? & Hi). split; [lia|split; [done|]]. intros i ? ?.
  destruct (decide (i = n)) as [->|]; [done|]. apply Hi; lia.
Qed.

(** C24: [withRetry] is the reference definition: its outcome is the one of the
    first attempt that succeeds, must not be retried or is the last.  With no
    attempt allowed it throws [undefined] at once.  Otherwise the deciding
    attempt is among the first [maxAttempts], every earlier one failed with a
    retryable error, and when the attempts are timed the whole call takes at
    most one timeout per attempt made plus the delays slept between them. *)
Theorem withRetry_reference fn o w : quiet o →
  withRetry fn o w = retry_reference fn o w
  ∧ (maxAttempts o = 0%nat → withRetry fn o w = (inl None, w))
  ∧ ((0 < maxAttempts o)%nat → ∃ k,
       (k < maxAttempts o)%nat
       ∧ withRetry fn o w = conclude fn o w k
       ∧ settles fn o w k = true
       ∧ (∀ j, j < k → ∃ err w',
            attempt_at fn o w j = (inl err, w') ∧ isRetryable o err (kind_of err) = true)
       ∧ ((0 < timeoutMs o)%Z →
          (clock (withRetry fn o w).2
           ≤ clock w + (Z.of_nat k + 1) * timeoutMs o + slept o (drawn w) k)%Z)).
Proof.
  intros Hq.
  assert (withRetry fn o w = retry_reference fn o w) as Heq
    by exact (retry_loop_reference fn o w (maxAttempts o) 0 None Hq eq_refl).
  rewrite !Heq. split; [done|]. split.
  { unfold retry_reference. by intros ->. }
  intros Hm. unfold retry_reference. destruct List.find as [k|] eqn:Hf.
  2:{ assert (settles fn o w (maxAttempts o - 1) = false) as (?&?&_&_&?&_)%settles_false; [|lia].
      apply (List.find_none _ _ Hf), List.in_seq. lia. }
  destruct (find_seq_first _ _ _ _ Hf) as (Hk & Hs & Hfirst).
  exists k. split; [lia|]. split; [done|]. split; [done|]. split.
  { intros j Hj. destruct (settles_false fn o w j) as (err & w' & ? & ? & _); [|by exists err, w'].
    apply Hfirst; lia. }
  intros Ht. destruct (world_before_time fn o w k Hq) as [_ Hb]; [intros; apply Hfirst; lia|].
  destruct (try_attempt_time fn o (clock w) k (world_before fn o w k) Hq) as [_ Hc].
  specialize (Hb Ht). specialize (Hc Ht).
  assert (clock (conclude fn o w k).2 = clock (attempt_at fn o w k).2) as ->; [|unfold attempt_at; lia].
  unfold conclude. destruct attempt_at as [[err|a] w']; [|done].
  edestruct (call_hook_quiet (onAttemptFailed o)) as (_ & ? & _); [apply Hq|]. done.
Qed.
End RpcRetry.

(** ** Examples *)
Module RetryExamples.

(** [factor ** attempt] by repeated multiplication, and a die that says 1/2. *)
Definition pow (x : number) (n : nat) : number := Nat.iter n (Num.mul x) (Num.of_Z 1).
Definition half (_ : nat) : number := Num.div (Num.of_Z 1) (Num.of_Z 2).

(** A node that rejects the first [n] calls it gets and then counts them;
    the world is the number of calls received. *)
Definition flaky (n : nat) : remote (W := nat) (X := error) (A := nat) := λ calls,
  (if (calls <? n)%nat then inl (PlainError "429") else inr calls, 30%Z, S calls).

Definition options (hook : option error) : RetryOptions (W := nat) (X := error) :=
  mkRetryOptions 5 (Num.of_Z 250) (Num.of_Z 8000) (Num.of_Z 2) (Num.div (Num.of_Z 1) (Num.of_Z 5))
    "getAccount" (λ _ _, true) 10000 (λ _ w, (None, w)) (λ _ w, (hook, w)).

Definition idle : Clocked (W := nat) := mkClocked 1000 0 0.

Lemma withRetry_reference_witness :
  quiet (options None)
  ∧ withRetry pow half (flaky 2) (options None) idle = (inr 2%nat, mkClocked 1840 2 3)
  ∧ (0 < maxAttempts (options None))%nat
  ∧ withRetry pow half (flaky 2) (options None) idle
    = retry_reference pow half (flaky 2) (options None) idle.
Proof.
  assert (quiet (options None)) as Hq by by split.
  split; [done|]. split; [vm_compute; reflexivity|]. split; [cbn; lia|].
  exact (proj1 (withRetry_reference pow half (flaky 2) (options None) idle Hq)).
Defined.

(** The recovery hook runs inside the [try]: when it throws, the call that has
    just succeeded is made again, and on the last attempt its result is lost. *)
Example recovery_hook_reruns_the_call :
  withRetry pow half (flaky 2) (options (Some (PlainError "metrics down"))) idle
  = (inl (Some (Rejected (PlainError "metrics down"))), mkClocked 4900 4 5).
Proof. vm_compute. reflexivity. Qed.
End RetryExamples.
