(* ===== verification/StellarService.v ===== *)
(** * Escrow-lock transactions ([src/src/services/stellarService.ts],
      [src/src/services/transactionService.ts])

    Building the unsigned transaction that locks a delivery's escrow, and
    submitting the signed one: retries of remote calls, polling until the
    network decides, a rebuild after a stale sequence number, dead letters for
    rejected submissions.  The SDK and the RPC node are the class [Sdk]. *)
From S2P Require Import Prelude JsLib Models Repositories DeliveryService Currency Stroops EventLogs EventLogRetry RpcRetry.

(** ** What the SDK and the node answer *)

(** A thrown value of the client: its message, and the fields that may carry an
    HTTP status or a code. *)
Inductive code_field := code_text (c : string) | code_number (n : number).
Record RpcFailure := mkFailure {
  f_message : string;
  f_status : option number;
  f_statusCode : option number;
  f_responseStatus : option number;
  f_code : option code_field
}.

Inductive SendStatus := PENDING | DUPLICATE | TRY_AGAIN_LATER | ERROR.
#[export] Instance SendStatus_eq_dec : EqDecision SendStatus.
Proof. solve_decision. Defined.
Definition send_status_string (s : SendStatus) : string :=
  match s with
  | PENDING => "PENDING" | DUPLICATE => "DUPLICATE"
  | TRY_AGAIN_LATER => "TRY_AGAIN_LATER" | ERROR => "ERROR"
  end.

(** [sr_errorResult] is the decoded result as base64, of the parsed variant;
    [sr_errorResultXdr] the text of the raw variant. *)
Record SendResponse := mkResponse {
  sr_status : SendStatus;
  sr_hash : string;
  sr_errorResult : option string;
  sr_errorResultXdr : option string
}.

Inductive GetTransactionResponse :=
  | SUCCESS (ledger : Z)
  | FAILED (resultXdr : string)
  | NOT_FOUND.

(** The invocation that is built: contract, function, arguments, and the
    options of the transaction builder. *)
Record LockCall := mkLockCall {
  lc_contractId : string;
  lc_function : string;
  lc_payer : string;
  lc_reference : string;
  lc_stroops : Z;
  lc_fee : string;
  lc_networkPassphrase : string;
  lc_timeoutSeconds : Z
}.

Class Sdk := {
  Node : Type;
  Account : Type;
  Transaction : Type;
  fromXDR : string → RpcFailure + Transaction;
  toXDR : Transaction → string;
  (** [new Contract(id).call(...)] in a [TransactionBuilder]; throws on a
      malformed contract id or address. *)
  buildLock : LockCall → Account → error + Transaction;
  tx_sequence : Transaction → string;
  tx_fee : Transaction → string;
  tx_maxTime : Transaction → option Z;
  (** The name of the decoded result code, and [JSON.stringify] of a response. *)
  resultCodeName : string → option string;
  stringify : SendResponse → string;
  (** The RPC node: its answer, the time it takes and its new state. *)
  sendTransaction : Transaction → Node → (RpcFailure + SendResponse) * Z * Node;
  getTransaction : string → Node → (RpcFailure + GetTransactionResponse) * Z * Node;
  getAccount : string → Node → (RpcFailure + Account) * Z * Node;
  prepareTransaction : Transaction → Node → (RpcFailure + Transaction) * Z * Node;
  (** A call through the circuit breaker; an open one rejects with EOPEN. *)
  breaker {A} : (Node → (RpcFailure + A) * Z * Node) → Node → (RpcFailure + A) * Z * Node;
  math_pow : number → nat → number;
  math_random : nat → number
}.

(** [stellarConfig] and the environment. *)
Class StellarConfig := {
  escrowContractId : option string;
  escrowLockFunction : string;
  network : string;
  networkPassphrase : string;
  baseFee : string;
  transactionTimeoutSeconds : Z;
  rpcTimeoutMs : Z;
  SOROBAN_RPC_MAX_RETRIES : nat;
  SOROBAN_RPC_RETRY_BASE_MS : Z;
  SOROBAN_RPC_RETRY_MAX_MS : Z;
  SOROBAN_RPC_RETRY_JITTER_RATIO : number;
  STELLAR_BAD_SEQ_MAX_RETRIES : nat
}.

(** The services' world, the node, and the random numbers drawn so far. *)
Record Net `{Sdk} := mkNet { net_base : World; net_node : Node; net_drawn : nat }.
Arguments mkNet {_} net_base net_node net_drawn.

Abbreviation thrown := (option (rpc_error RpcFailure)).

Definition contains (needle s : string) : bool :=
  if String.index 0 needle s is Some _ then true else false.

(** ** Classifying failures *)
Definition extractMessage (e : thrown) : string :=
  match e with
  | None => "undefined"
  | Some (Rejected f) => f_message f
  | Some (OperationTimeoutError op ms) => "Operation '" +:+ op +:+ "' timed out after " +:+ pretty ms +:+ "ms"
  end.

Definition TRANSIENT_ERROR_CODES : list string :=
  ["ECONNRESET"; "ECONNREFUSED"; "ECONNABORTED"; "ETIMEDOUT"; "ENOTFOUND"; "EAI_AGAIN";
   "EHOSTUNREACH"; "ENETUNREACH"; "EPIPE"; "ERR_SOCKET_CONNECTION_TIMEOUT"].
Definition TRANSIENT_HTTP_STATUSES : list number :=
  Num.of_Z <$> [408; 425; 429; 500; 502; 503; 504]%Z.
Definition TRANSIENT_PHRASES : list string :=
  ["timeout"; "timed out"; "socket hang up"; "network error"; "econnreset"; "econnrefused"; "enotfound";
   "eai_again"; "service unavailable"; "bad gateway"; "gateway timeout"; "too many requests"].

Definition extractStatusCode (f : RpcFailure) : option number :=
  head (List.filter Num.isFinite (omap id [f_status f; f_statusCode f; f_responseStatus f])).

Definition says_bad_seq (message : string) : bool :=
  let m := Str.toLowerCase message in contains "tx_bad_seq" m || contains "txbadseq" m.

Definition isTransientRpcError (e : rpc_error RpcFailure) (kind : AttemptFailureKind) : bool :=
  match kind, e with
  | timeout_kind, _ | _, OperationTimeoutError _ _ => true
  | _, Rejected f =>
      match extractStatusCode f with
      | Some status => some (Num.eqb status) TRANSIENT_HTTP_STATUSES
      | None =>
          if (if f_code f is Some (code_text c) then includes c TRANSIENT_ERROR_CODES else false) then true
          else if says_bad_seq (f_message f) then false
          else some (λ p, contains p (Str.toLowerCase (f_message f))) TRANSIENT_PHRASES
      end
  end.

Record SubmitEscrowLockInput := mkSubmit { si_deliveryId : string; signedXdr : string; payerAddress : string }.
Record SubmitEscrowLockResult := mkSubmitResult {
  transactionHash : string;
  ledger : Z;
  retriedOnBadSeq : bool;
  attempts : Z
}.

(** The input as the dead letter queue stores it. *)
Definition dlq_input (i : SubmitEscrowLockInput) : json :=
  JObj [("deliveryId", JStr (si_deliveryId i)); ("signedXdr", JStr (signedXdr i));
        ("payerAddress", JStr (payerAddress i))].

Definition contract_not_configured : error :=
  AppError "Escrow contract is not configured on this deployment." Http.SERVICE_UNAVAILABLE.
Definition no_escrow_amount : error :=
  AppError "Delivery does not define a positive escrow amount." Http.UNPROCESSABLE_ENTITY.
Definition amount_not_representable : error :=
  AppError "Delivery escrow amount cannot be represented on-chain" Http.UNPROCESSABLE_ENTITY.
Definition submission_timed_out : error :=
  AppError "The Soroban RPC node did not respond to the transaction submission in time. The transaction may still have been accepted — verify by hash before resubmitting." Http.GATEWAY_TIMEOUT.

(** The result of building an unsigned transaction. *)
Record EscrowLockXdrResult := mkXdrResult {
  x_xdr : string;
  x_network : string;
  x_networkPassphrase : string;
  x_contractId : string;
  x_contractFunction : string;
  x_sourceAccount : string;
  x_sequence : string;
  x_fee : string;
  x_validUntil : Z;
  x_id : string;
  x_deliveryId : option string;
  x_trackingNumber : option string;
  x_status : DeliveryStatus.t;
  x_assetCode : string;
  x_value : number;
  x_stroops : string;
  x_formatted : string
}.

Section StellarService.
Context `{E : Env, S : Sdk, SC : StellarConfig}.

Abbreviation chain := (prog Net).

(** ** Calls *)
Definition on_world {A} (p : action A) : chain A :=
  zoom net_base (λ w v, mkNet w (net_node v) (net_drawn v)) p.

Definition rpc_options (operation : string) : RetryOptions (W := Node) (X := RpcFailure) :=
  mkRetryOptions SOROBAN_RPC_MAX_RETRIES (Num.of_Z SOROBAN_RPC_RETRY_BASE_MS)
    (Num.of_Z SOROBAN_RPC_RETRY_MAX_MS) (Num.of_Z 2) SOROBAN_RPC_RETRY_JITTER_RATIO operation
    isTransientRpcError rpcTimeoutMs (λ _ n, (None, n)) (λ _ n, (None, n)).

(** [callRpc]: its hooks only log.  The outcome is a value, for every caller
    catches it. *)
Definition callRpc {A} (operation : string) (fn : Node → (RpcFailure + A) * Z * Node)
    : chain (thrown + A) :=
  atomic (λ v,
    let '(r, c) := withRetry math_pow math_random fn (rpc_options operation)
                     (mkClocked (now_ms (net_base v)) (net_drawn v) (net_node v)) in
    (r, mkNet (net_base v <| now_ms := clock c |>) (inner c) (drawn c))).

(** [sleep(ms)] for an integer. *)
Definition pause_ms (ms : Z) : chain unit :=
  writes (λ v, mkNet (net_base v <| now_ms ::= Z.add ms |>) (net_node v) (net_drawn v)).

(** ** Submission *)
Definition isBadSeqError (r : SendResponse) : bool :=
  if bool_decide (sr_status r ≠ ERROR) then false else
  let rawResultXdr := match sr_errorResultXdr r with Some x => Some x | None => sr_errorResult r end in
  match rawResultXdr with
  | Some x =>
      if negb (Str.truthy x) then false
      else bool_decide (resultCodeName x = Some "txBadSeq") || says_bad_seq (stringify r)
  | None => false
  end.

(** What [send] makes of a thrown bad sequence. *)
Definition rawResponse : SendResponse := mkResponse ERROR "" None (Some "").

Definition send_failed (e : thrown) : chain SendResponse :=
  match e with
  | Some (OperationTimeoutError _ _) => throw submission_timed_out
  | _ =>
      if says_bad_seq (extractMessage e) then mret rawResponse
      else throw (AppError ("Unable to submit transaction to the Soroban RPC node: " +:+ extractMessage e)
                    Http.BAD_GATEWAY)
  end.

Definition send (xdr : string) : chain SendResponse :=
  match fromXDR xdr with
  | inl f => send_failed (Some (Rejected f))
  | inr tx =>
      r ← callRpc "sendTransaction" (sendTransaction tx);
      match r with inl e => send_failed e | inr response => mret response end
  end.

Definition failed_on_chain (resultXdr : string) : error :=
  AppError ("Transaction was submitted but failed on-chain. Result XDR: " +:+ resultXdr) Http.BAD_GATEWAY.
Definition not_terminal (hash : string) : error :=
  AppError ("Transaction " +:+ hash +:+ " did not reach a terminal state within the polling window. Check the network status and verify the transaction hash manually.") Http.GATEWAY_TIMEOUT.

Fixpoint poll_loop (polls : nat) (delay : Z) (hash : string) : chain Z :=
  match polls with
  | O => throw (not_terminal hash)
  | Datatypes.S polls =>
      _ ← pause_ms delay;
      let delay := Z.min (delay * 2) 5000 in
      r ← callRpc "getTransaction" (getTransaction hash);
      match r with
      | inl _ => poll_loop polls delay hash
      | inr (SUCCESS l) => mret l
      | inr (FAILED x) => throw (failed_on_chain x)
      | inr NOT_FOUND => poll_loop polls delay hash
      end
  end.
Definition maxPolls : nat := SOROBAN_RPC_MAX_RETRIES * 4.
Definition pollForCompletion (hash : string) : chain (string * Z) :=
  l ← poll_loop maxPolls 500 hash; mret (hash, l).

(** ** Building the invocation *)
Definition requireEscrowContractId {W} : prog W string :=
  match escrowContractId with
  | Some c => if Str.truthy c then mret c else throw contract_not_configured
  | None => throw contract_not_configured
  end.

Definition resolveEscrowAmount {W} (d : Delivery) : prog W number :=
  match escrowAmount d with
  | Some a => if negb (Num.isFinite a) || Num.leb a Num.zero then throw no_escrow_amount else mret a
  | None => throw no_escrow_amount
  end.

Definition toContractAmount {W} (amount : number) : prog W Z :=
  match toStroops amount with inr s => mret s | inl _ => throw amount_not_representable end.

Definition escrowReference (d : hydrated Delivery) : string :=
  match deliveryId (body d) with
  | Some x => if Str.truthy (Str.trim x) then Str.trim x else _id d
  | None => _id d
  end.

Definition lock_call (contractId payer reference : string) (stroops : Z) : LockCall :=
  mkLockCall contractId escrowLockFunction payer reference stroops baseFee networkPassphrase
    transactionTimeoutSeconds.

Definition loadAccount (payer : string) : chain Account :=
  r ← callRpc "getAccount" (getAccount payer);
  match r with
  | inr a => mret a
  | inl (Some (OperationTimeoutError _ _)) =>
      throw (AppError "Timed out loading the payer account from the Soroban RPC node." Http.GATEWAY_TIMEOUT)
  | inl e =>
      if contains "not found" (Str.toLowerCase (extractMessage e))
      then throw (AppError ("Account " +:+ payer +:+ " does not exist on " +:+ network
                    +:+ ". Fund the account before locking escrow.") Http.NOT_FOUND)
      else throw (AppError "Unable to reach the Soroban RPC node to load the payer account." Http.BAD_GATEWAY)
  end.

Definition prepare (tx : Transaction) : chain Transaction :=
  r ← callRpc "prepareTransaction" (prepareTransaction tx);
  match r with
  | inr t => mret t
  | inl (Some (OperationTimeoutError _ _)) =>
      throw (AppError "Timed out simulating the transaction against the Soroban RPC node." Http.GATEWAY_TIMEOUT)
  | inl e =>
      throw (AppError ("Soroban simulation failed while rebuilding transaction: " +:+ extractMessage e)
               Http.BAD_GATEWAY)
  end.

Definition rebuildWithFreshSequence (deliveryId_ payer : string) : chain string :=
  contractId ← requireEscrowContractId;
  delivery ← on_world (getById deliveryId_);
  _ ← Done (assertLockContractAsset (nullish (escrowAsset (body delivery)) (mkAsset "XLM" None)));
  amount ← resolveEscrowAmount (body delivery);
  stroops ← toContractAmount amount;
  sourceAccount ← loadAccount payer;
  transaction ← Done (buildLock (lock_call contractId payer (escrowReference delivery) stroops) sourceAccount);
  prepared ← prepare transaction;
  mret (toXDR prepared).

Definition bad_seq_exhausted (count : Z) : error :=
  AppError ("Transaction sequence number mismatch persisted after " +:+ pretty count +:+ " retry attempt(s). The account sequence may be under high contention. Please try again shortly.") Http.CONFLICT.

Definition errXdr (r : SendResponse) : string :=
  nullish (match sr_errorResult r with Some x => Some x | None => sr_errorResultXdr r end) "(no XDR)".
Definition submission_failed (r : SendResponse) : string :=
  "Transaction submission failed with status '" +:+ send_status_string (sr_status r)
    +:+ "'. Error result XDR: " +:+ errXdr r.

(** Storing the dead letter never fails the request. *)
Definition dead_letter (i : SubmitEscrowLockInput) (reason : string) : chain unit :=
  on_world (try_catch (_ ← Dlq.addEntry (other_payload (dlq_input i)) reason; mret tt) (λ _, mret tt)).

Definition bad_seq_delay (badSeqCount : Z) : Z := Z.min (200 * 2 ^ (badSeqCount - 1)) 2000.

(** The loop, with [fuel] attempts left. *)
Fixpoint submit_loop (i : SubmitEscrowLockInput) (fuel : nat) (attempt : Z) (currentXdr : string)
    (badSeqCount : Z) : chain SubmitEscrowLockResult :=
  match fuel with
  | O => throw (AppError "Unexpected exit from submission loop." Http.INTERNAL_SERVER_ERROR)
  | Datatypes.S fuel =>
      response ← send currentXdr;
      if bool_decide (sr_status response = PENDING ∨ sr_status response = DUPLICATE) then
        confirmed ← pollForCompletion (sr_hash response);
        mret (mkSubmitResult confirmed.1 confirmed.2 (0 <? badSeqCount)%Z attempt)
      else if isBadSeqError response then
        let badSeqCount := (badSeqCount + 1)%Z in
        if (Z.of_nat STELLAR_BAD_SEQ_MAX_RETRIES + 1 <=? attempt)%Z
        then throw (bad_seq_exhausted badSeqCount)
        else
          xdr ← rebuildWithFreshSequence (si_deliveryId i) (payerAddress i);
          _ ← pause_ms (bad_seq_delay badSeqCount);
          submit_loop i fuel (attempt + 1) xdr badSeqCount
      else
        _ ← dead_letter i (submission_failed response);
        throw (AppError (submission_failed response) Http.BAD_GATEWAY)
  end.

Definition submitEscrowLock (i : SubmitEscrowLockInput) : chain SubmitEscrowLockResult :=
  submit_loop i (Datatypes.S STELLAR_BAD_SEQ_MAX_RETRIES) 1 (signedXdr i) 0.

(** ** The unsigned transaction for the client's wallet *)
Definition NON_LOCKABLE_STATUSES : list DeliveryStatus.t :=
  [DeliveryStatus.COMPLETED; DeliveryStatus.CANCELLED].
Definition not_lockable (s : DeliveryStatus.t) : error :=
  AppError ("Escrow cannot be locked for a delivery with status '" +:+ DeliveryStatus.to_string s +:+ "'.")
    Http.CONFLICT.
Definition assertLockable {W} (d : Delivery) : prog W unit :=
  throw_if (includes (status d) NON_LOCKABLE_STATUSES) (not_lockable (status d)).

(** [fireWithBreaker]: the outcome as a value, for both callers catch it. *)
Definition fireWithBreaker {A} (fn : Node → (RpcFailure + A) * Z * Node) : chain (RpcFailure + A) :=
  atomic (λ v,
    let '(r, ms, n) := breaker fn (net_node v) in
    (r, mkNet (net_base v <| now_ms ::= Z.add ms |>) n (net_drawn v))).

Definition isCircuitOpen (f : RpcFailure) : bool :=
  match f_code f with Some (code_text c) => String.eqb c "EOPEN" | _ => false end.
Definition rpc_unavailable : error :=
  AppError "Soroban RPC is temporarily unavailable." Http.SERVICE_UNAVAILABLE.

Definition is_404 (f : RpcFailure) : bool :=
  match f_code f with Some (code_number n) => Num.eqb n (Num.of_Z 404) | _ => false end
  || (if f_status f is Some n then Num.eqb n (Num.of_Z 404) else false)
  || contains "not found" (Str.toLowerCase (f_message f)).

Definition loadPayerAccount (payer : string) : chain Account :=
  r ← fireWithBreaker (getAccount payer);
  match r with
  | inr a => mret a
  | inl f =>
      if isCircuitOpen f then throw rpc_unavailable
      else if is_404 f
      then throw (AppError ("Account " +:+ payer +:+ " does not exist on " +:+ network +:+ ".") Http.NOT_FOUND)
      else throw (AppError "Unable to load the payer account from Soroban RPC." Http.BAD_GATEWAY)
  end.

Definition prepareTransaction_ (tx : Transaction) : chain Transaction :=
  r ← fireWithBreaker (prepareTransaction tx);
  match r with
  | inr t => mret t
  | inl f =>
      if isCircuitOpen f then throw rpc_unavailable
      else throw (AppError ("Soroban simulation failed for the escrow-lock invocation: " +:+ f_message f)
                    Http.BAD_GATEWAY)
  end.

Definition xdr_result (contractId payer : string) (delivery : hydrated Delivery) (amount : number)
    (stroops : Z) (prepared : Transaction) : EscrowLockXdrResult :=
  mkXdrResult (toXDR prepared) network networkPassphrase contractId escrowLockFunction payer
    (tx_sequence prepared) (tx_fee prepared) (nullish (tx_maxTime prepared) 0%Z)
    (_id delivery) (deliveryId (body delivery)) (trackingNumber (body delivery)) (status (body delivery))
    (if escrowAsset (body delivery) is Some a then code a else "XLM")
    amount (pretty stroops) (fromStroops stroops).

Definition buildEscrowLockXdr (deliveryId_ payer : string) : chain EscrowLockXdrResult :=
  contractId ← requireEscrowContractId;
  delivery ← on_world (getById deliveryId_);
  _ ← assertLockable (body delivery);
  _ ← Done (assertLockContractAsset (nullish (escrowAsset (body delivery)) (mkAsset "XLM" None)));
  amount ← resolveEscrowAmount (body delivery);
  stroops ← toContractAmount amount;
  sourceAccount ← loadPayerAccount payer;
  transaction ← Done (buildLock (lock_call contractId payer (escrowReference delivery) stroops) sourceAccount);
  prepared ← prepareTransaction_ transaction;
  mret (xdr_result contractId payer delivery amount stroops prepared).

(** ** Footprint: the services' data are left alone, time passes *)
Definition only_time (v v' : Net) : Prop := ∃ t, net_base v' = net_base v <| now_ms := t |>.

#[export] Instance only_time_preorder : PreOrder only_time.
Proof.
  split.
  - intros v. exists (now_ms (net_base v)). by destruct v as [[]].
  - intros v1 v2 v3 [t H1] [t' H2]. exists t'. rewrite H2, H1. by destruct v1 as [[]].
Qed.

Lemma callRpc_time {A} op (fn : Node → (RpcFailure + A) * Z * Node) : confined only_time (callRpc op fn).
Proof.
  intros v. cbn. split; [|done]. case_match. by eexists.
Qed.
Lemma fire_time {A} (fn : Node → (RpcFailure + A) * Z * Node) : confined only_time (fireWithBreaker fn).
Proof.
  intros v. cbn. split; [|done]. repeat case_match. by eexists.
Qed.
Lemma pause_time_only ms : confined only_time (pause_ms ms).
Proof. intros v. cbn. split; [by exists (ms + now_ms (net_base v))%Z|done]. Qed.
Lemma getById_time id : confined only_time (on_world (getById id)).
Proof.
  unfold on_world, getById. cbn. destruct (isValidObjectId id); cbn; [|done]. intros v. split; [by exists (now_ms (net_base v)); destruct v as [[]]|].
  by destruct DeliveryRepository.by_id_if.
Qed.

#[local] Hint Resolve callRpc_time fire_time pause_time_only getById_time : confined.
#[local] Hint Extern 1 (confined _ (match ?x with _ => _ end)) => destruct x : confined.
#[local] Hint Extern 1 (confined _ (if ?x then _ else _)) => destruct x : confined.
#[local] Hint Extern 2 (confined _ (throw _)) => exact I : confined.
#[local] Hint Extern 2 (confined _ (mret _)) => exact I : confined.
#[local] Hint Extern 2 (confined _ (Done _)) => exact I : confined.

Lemma send_time xdr : confined only_time (send xdr).
Proof. unfold send, send_failed. auto 12 with confined. Qed.

Lemma poll_time n delay hash : confined only_time (poll_loop n delay hash).
Proof. revert delay. induction n as [|n IH]; intros delay; cbn [poll_loop]; auto 12 with confined. Qed.

Lemma pollForCompletion_time hash : confined only_time (pollForCompletion hash).
Proof. unfold pollForCompletion. apply confined_bind; [apply poll_time|done]. Qed.

Lemma rebuild_time id payer : confined only_time (rebuildWithFreshSequence id payer).
Proof.
  unfold rebuildWithFreshSequence, requireEscrowContractId, resolveEscrowAmount, toContractAmount,
    loadAccount, prepare. auto 30 with confined.
Qed.

Lemma build_time id payer : confined only_time (buildEscrowLockXdr id payer).
Proof.
  unfold buildEscrowLockXdr, requireEscrowContractId, resolveEscrowAmount, toContractAmount,
    loadPayerAccount, prepareTransaction_, assertLockable. auto 40 with confined.
Qed.

(** ** Errors: documented statuses, or what the SDK's builder throws *)
Definition answer_codes : list Z :=
  [Http.BAD_REQUEST; Http.NOT_FOUND; Http.CONFLICT; Http.UNPROCESSABLE_ENTITY; Http.BAD_GATEWAY;
   Http.SERVICE_UNAVAILABLE; Http.GATEWAY_TIMEOUT].
Definition chain_error (e : error) : Prop :=
  (∃ m c, e = AppError m c ∧ c ∈ answer_codes) ∨ (∃ call acc, buildLock call acc = inl e).

Lemma answer_error m c : bool_decide (c ∈ answer_codes) = true → chain_error (AppError m c).
Proof. intros Hc%bool_decide_eq_true. left. by eexists _, _. Qed.
#[local] Hint Extern 0 (chain_error (AppError _ _)) => (apply answer_error; reflexivity) : throws.
#[local] Hint Extern 1 (throws_only _ (match ?x with _ => _ end)) => destruct x : throws.
#[local] Hint Extern 1 (throws_only _ (if ?x then _ else _)) => destruct x : throws.
#[local] Hint Extern 2 (throws_only _ (throw _)) => cbn [throws_only throw] : throws.
#[local] Hint Extern 2 (throws_only _ (mret _)) => exact I : throws.
#[local] Hint Extern 2 (throws_only _ (atomic _)) => (intros ?; exact I) : throws.
#[local] Hint Extern 2 (throws_only _ (reads _)) => (intros ?; exact I) : throws.
#[local] Hint Extern 2 (throws_only _ (callRpc _ _)) => (intros ?; exact I) : throws.
#[local] Hint Extern 2 (throws_only _ (fireWithBreaker _)) => (intros ?; exact I) : throws.
#[local] Hint Extern 2 (throws_only _ (pause_ms _)) => (intros ?; exact I) : throws.

Lemma send_throws xdr : throws_only chain_error (send xdr).
Proof. unfold send, send_failed, submission_timed_out. auto 12 with throws. Qed.

Lemma poll_throws n delay hash : throws_only chain_error (poll_loop n delay hash).
Proof.
  revert delay. induction n as [|n IH]; intros delay; cbn [poll_loop]; unfold not_terminal, failed_on_chain;
    auto 12 with throws.
Qed.

Lemma lock_asset_throws a : throws_only chain_error (Done (W := Net) (assertLockContractAsset a)).
Proof.
  unfold assertLockContractAsset, validateAsset. repeat case_match; simplify_eq; cbn; auto with throws.
Qed.
Lemma build_lock_throws call acc : throws_only chain_error (Done (W := Net) (buildLock call acc)).
Proof. cbn. destruct buildLock eqn:Hb; [right; eauto|done]. Qed.
Lemma getById_throws id : throws_only chain_error (on_world (getById id)).
Proof. unfold on_world, getById, invalid_id, delivery_not_found. auto 12 with throws. Qed.
#[local] Hint Resolve lock_asset_throws build_lock_throws getById_throws : throws.

Lemma rebuild_throws id payer : throws_only chain_error (rebuildWithFreshSequence id payer).
Proof.
  unfold rebuildWithFreshSequence, requireEscrowContractId, resolveEscrowAmount, toContractAmount,
    loadAccount, prepare, contract_not_configured, no_escrow_amount, amount_not_representable.
  auto 40 with throws.
Qed.
Lemma build_throws id payer : throws_only chain_error (buildEscrowLockXdr id payer).
Proof.
  unfold buildEscrowLockXdr, requireEscrowContractId, resolveEscrowAmount, toContractAmount,
    loadPayerAccount, prepareTransaction_, assertLockable, contract_not_configured, no_escrow_amount,
    amount_not_representable, not_lockable, rpc_unavailable.
  auto 40 with throws.
Qed.

(** ** Submission *)
Definition accepted (r : SendResponse) : Prop := sr_status r = PENDING ∨ sr_status r = DUPLICATE.

(** The submission has met [n] stale sequence numbers, rebuilt its envelope
    after each, and is about to send [xdr] in the state [u]. *)
Inductive stale (i : SubmitEscrowLockInput) (v : Net) : nat → string → Net → Prop :=
  | stale_none : stale i v 0 (signedXdr i) v
  | stale_again n xdr u response u' fresh u'' :
      stale i v n xdr u → (n < STELLAR_BAD_SEQ_MAX_RETRIES)%nat →
      run (send xdr) u = (inr response, u') → ¬ accepted response → isBadSeqError response = true →
      run (rebuildWithFreshSequence (si_deliveryId i) (payerAddress i)) u' = (inr fresh, u'') →
      stale i v (Datatypes.S n) fresh (run (pause_ms (bad_seq_delay (Z.of_nat (Datatypes.S n)))) u'').2.

(** One pending entry with the client's input is added to the queue. *)
Definition with_dead_letter (i : SubmitEscrowLockInput) (reason : string) (v : Net) : Net :=
  let w := net_base v in
  mkNet (w <| nextId ::= Datatypes.S |>
           <| dlqEntries ::= <[newObjectId (nextId w) :=
                mkDlqEntry (other_payload (dlq_input i)) reason 0 DlqStatus.PENDING (now_ms w) (now_ms w)]> |>)
    (net_node v) (net_drawn v).

(** How a submission ends, after some number of stale sequence numbers. *)
Inductive submit_outcome (i : SubmitEscrowLockInput) (v : Net) : error + SubmitEscrowLockResult → Net → Prop :=
  (** The node takes the envelope, and polling decides. *)
  | out_confirmed n xdr u response u' h l v' :
      stale i v n xdr u → run (send xdr) u = (inr response, u') → accepted response →
      run (pollForCompletion (sr_hash response)) u' = (inr (h, l), v') →
      submit_outcome i v (inr (mkSubmitResult h l (0 <? Z.of_nat n)%Z (Z.of_nat n + 1))) v'
  | out_undecided n xdr u response u' e v' :
      stale i v n xdr u → run (send xdr) u = (inr response, u') → accepted response →
      run (pollForCompletion (sr_hash response)) u' = (inl e, v') →
      submit_outcome i v (inl e) v'
  (** The submission does not get through. *)
  | out_not_sent n xdr u e v' :
      stale i v n xdr u → run (send xdr) u = (inl e, v') → submit_outcome i v (inl e) v'
  (** The envelope cannot be rebuilt. *)
  | out_not_rebuilt n xdr u response u' e v' :
      stale i v n xdr u → (n < STELLAR_BAD_SEQ_MAX_RETRIES)%nat →
      run (send xdr) u = (inr response, u') → ¬ accepted response → isBadSeqError response = true →
      run (rebuildWithFreshSequence (si_deliveryId i) (payerAddress i)) u' = (inl e, v') →
      submit_outcome i v (inl e) v'
  (** Every allowed attempt met a stale sequence number. *)
  | out_exhausted xdr u response v' :
      stale i v STELLAR_BAD_SEQ_MAX_RETRIES xdr u →
      run (send xdr) u = (inr response, v') → ¬ accepted response → isBadSeqError response = true →
      submit_outcome i v (inl (bad_seq_exhausted (Z.of_nat STELLAR_BAD_SEQ_MAX_RETRIES + 1))) v'
  (** The node rejects the envelope: a dead letter. *)
  | out_rejected n xdr u response u' :
      stale i v n xdr u → run (send xdr) u = (inr response, u') → ¬ accepted response →
      isBadSeqError response = false →
      submit_outcome i v (inl (AppError (submission_failed response) Http.BAD_GATEWAY))
        (with_dead_letter i (submission_failed response) u').

Lemma run_dead_letter i reason v : run (dead_letter i reason) v = (inr tt, with_dead_letter i reason v).
Proof. by destruct v as [[]]. Qed.

(** One attempt with [n] stale ones behind it. *)
Lemma run_submission i fuel n xdr u :
  run (submit_loop i (Datatypes.S fuel) (Z.of_nat n + 1) xdr (Z.of_nat n)) u =
  match run (send xdr) u with
  | (inl e, u') => (inl e, u')
  | (inr response, u') =>
      if bool_decide (accepted response) then
        match run (pollForCompletion (sr_hash response)) u' with
        | (inr c, v') => (inr (mkSubmitResult c.1 c.2 (0 <? Z.of_nat n)%Z (Z.of_nat n + 1)), v')
        | (inl e, v') => (inl e, v')
        end
      else if isBadSeqError response then
        if decide (STELLAR_BAD_SEQ_MAX_RETRIES ≤ n)%nat then (inl (bad_seq_exhausted (Z.of_nat n + 1)), u') else
        match run (rebuildWithFreshSequence (si_deliveryId i) (payerAddress i)) u' with
        | (inl e, u'') => (inl e, u'')
        | (inr fresh, u'') =>
            run (submit_loop i fuel (Z.of_nat (Datatypes.S n) + 1) fresh (Z.of_nat (Datatypes.S n)))
              (run (pause_ms (bad_seq_delay (Z.of_nat (Datatypes.S n)))) u'').2
        end
      else (inl (AppError (submission_failed response) Http.BAD_GATEWAY),
            with_dead_letter i (submission_failed response) u')
  end.
Proof.
  cbn [submit_loop]. rewrite run_bind. destruct (run (send xdr) u) as [[e|response] u']; [done|].
  cbn [fst snd]. unfold accepted. case_bool_decide.
  { rewrite run_bind. by destruct (run (pollForCompletion _) u') as [[e|c] v']. }
  destruct (isBadSeqError response); [|by rewrite run_bind, run_dead_letter].
  case_decide as Hn.
  { rewrite (proj2 (Z.leb_le _ _)) by lia. done. }
  rewrite (proj2 (Z.leb_gt _ _)) by lia. rewrite run_bind.
  destruct (run (rebuildWithFreshSequence _ _) u') as [[e|fresh] u'']; [done|]. cbn [fst snd].
  rewrite run_bind. unfold pause_ms at 1. rewrite run_writes. cbn [fst snd].
  by replace (Z.of_nat n + 1)%Z with (Z.of_nat (Datatypes.S n)) by lia.
Qed.

(** The loop arrives where [stale] says. *)
Lemma run_stale i v n xdr u : stale i v n xdr u → (n ≤ STELLAR_BAD_SEQ_MAX_RETRIES)%nat ∧
  run (submitEscrowLock i) v =
    run (submit_loop i (Datatypes.S (STELLAR_BAD_SEQ_MAX_RETRIES - n)) (Z.of_nat n + 1) xdr (Z.of_nat n)) u.
Proof.
  induction 1 as [|n xdr u response u' fresh u'' _ [_ IH] Hn Hs Ha Hb Hr].
  { split; [lia|]. unfold submitEscrowLock. by rewrite Nat.sub_0_r. }
  split; [lia|]. rewrite IH, run_submission, Hs. rewrite bool_decide_false, Hb, decide_False by (done || lia).
  rewrite Hr. by replace (STELLAR_BAD_SEQ_MAX_RETRIES - n)%nat with (Datatypes.S (STELLAR_BAD_SEQ_MAX_RETRIES - Datatypes.S n)) by lia.
Qed.

Lemma outcome_run i v r v' : submit_outcome i v r v' → run (submitEscrowLock i) v = (r, v').
Proof.
  intros [n xdr u response u' h l v2 [_ ->]%run_stale Hs Ha Hp
    |n xdr u response u' e v2 [_ ->]%run_stale Hs Ha Hp
    |n xdr u e v2 [_ ->]%run_stale Hs
    |n xdr u response u' e v2 [_ ->]%run_stale Hn Hs Ha Hb Hr
    |xdr u response v2 [_ ->]%run_stale Hs Ha Hb
    |n xdr u response u' [_ ->]%run_stale Hs Ha Hb]; rewrite run_submission, Hs; [| |done|..];
    [rewrite bool_decide_true, Hp by done; done..| | |]; rewrite bool_decide_false, Hb by done.
  - rewrite decide_False by lia. by rewrite Hr.
  - by rewrite decide_True by lia.
  - done.
Qed.

Lemma run_outcome i v fuel n xdr u :
  (fuel + n = Datatypes.S STELLAR_BAD_SEQ_MAX_RETRIES)%nat → (0 < fuel)%nat → stale i v n xdr u →
  let '(r, v') := run (submit_loop i fuel (Z.of_nat n + 1) xdr (Z.of_nat n)) u in submit_outcome i v r v'.
Proof.
  revert n xdr u. induction fuel as [|fuel IH]; intros n xdr u Hn Hf Hst; [lia|].
  rewrite run_submission. destruct (run (send xdr) u) as [[e|response] u'] eqn:Hs; [by eapply out_not_sent|].
  case_bool_decide as Ha.
  { destruct (run (pollForCompletion _) u') as [[e|[h l]] v'] eqn:Hp;
      [by eapply out_undecided|by eapply out_confirmed]. }
  destruct (isBadSeqError response) eqn:Hb; [|by eapply out_rejected].
  case_decide as Hle.
  { assert (n = STELLAR_BAD_SEQ_MAX_RETRIES) as -> by lia. by eapply out_exhausted. }
  destruct (run (rebuildWithFreshSequence _ _) u') as [[e|fresh] u''] eqn:Hr.
  { eapply out_not_rebuilt; [done|lia|done..]. }
  apply IH; [lia|lia|]. eapply stale_again; [done|lia|done..].
Qed.

(** Every way to end leaves the documents alone, but for the dead letter. *)
Lemma stale_time i v n xdr u : stale i v n xdr u → only_time v u.
Proof.
  induction 1 as [|n xdr u response u' fresh u'' _ IH _ Hs _ _ Hr]; [done|].
  pose proof (confined_run only_time _ u (send_time xdr)) as H1. rewrite Hs in H1.
  pose proof (confined_run only_time _ u' (rebuild_time (si_deliveryId i) (payerAddress i))) as H2. rewrite Hr in H2.
  etrans; [exact IH|]. etrans; [exact H1|]. etrans; [exact H2|].
  apply (confined_run only_time), pause_time_only.
Qed.

Lemma outcome_effects i v r v' : submit_outcome i v r v' →
  (only_time v v' ∨ ∃ u response, only_time v u ∧ ¬ accepted response ∧ isBadSeqError response = false ∧
     v' = with_dead_letter i (submission_failed response) u) ∧
  ∀ e, r = inl e → chain_error e.
Proof.
  intros Ho. pose proof Ho as Hr%outcome_run.
  assert (∀ n xdr u x u', stale i v n xdr u → run (send xdr) u = (x, u') → only_time v u') as Hsend.
  { intros n xdr u x u' Hst%stale_time Hs. etrans; [exact Hst|].
    pose proof (confined_run only_time _ u (send_time xdr)) as H1. by rewrite Hs in H1. }
  assert (∀ h u x u', run (pollForCompletion h) u = (x, u') → only_time u u' ∧ ∀ e, x = inl e → chain_error e) as Hpoll.
  { intros h u x u' Hp. pose proof (confined_run only_time _ u (pollForCompletion_time h)) as H1.
    rewrite Hp in H1. split; [done|]. intros e ->.
    apply (throws_only_run chain_error (pollForCompletion h) u); [|by rewrite Hp].
    apply throws_only_bind; [apply poll_throws|done]. }
  destruct Ho as [n xdr u response u' h l v2 Hst Hs Ha Hp|n xdr u response u' e v2 Hst Hs Ha Hp
    |n xdr u e v2 Hst Hs|n xdr u response u' e v2 Hst Hn Hs Ha Hb Hrb|xdr u response v2 Hst Hs Ha Hb
    |n xdr u response u' Hst Hs Ha Hb].
  - destruct (Hpoll _ _ _ _ Hp) as [Ht _]. split; [|done]. left. etrans; [by eapply Hsend|exact Ht].
  - destruct (Hpoll _ _ _ _ Hp) as [Ht He]. split; [left; etrans; [by eapply Hsend|exact Ht]|intros e0 [= <-]; by apply He].
  - split; [left; by eapply Hsend|]. intros e' [= <-].
    apply (throws_only_run chain_error (send xdr) u); [apply send_throws|by rewrite Hs].
  - pose proof (confined_run only_time _ u' (rebuild_time (si_deliveryId i) (payerAddress i))) as H2.
    rewrite Hrb in H2. split; [left; etrans; [by eapply Hsend|exact H2]|]. intros e' [= <-].
    eapply throws_only_run; [apply rebuild_throws|by rewrite Hrb].
  - split; [left; by eapply Hsend|]. intros e' [= <-]. apply answer_error. reflexivity.
  - split; [|intros e' [= <-]; apply answer_error; reflexivity].
    right. exists u', response. split; [by eapply Hsend|done].
Qed.


(** ** Polling: the first answer that decides *)
Definition poll_delay (k : nat) : Z := Z.min (500 * 2 ^ Z.of_nat k) 5000.
Definition poll_once (hash : string) (k : nat) : chain (thrown + GetTransactionResponse) :=
  _ ← pause_ms (poll_delay k); callRpc "getTransaction" (getTransaction hash).
Fixpoint before_poll (hash : string) (v : Net) (k : nat) : Net :=
  match k with O => v | Datatypes.S k => (run (poll_once hash k) (before_poll hash v k)).2 end.
Definition poll_answer (hash : string) (v : Net) (k : nat) : error + (thrown + GetTransactionResponse) :=
  (run (poll_once hash k) (before_poll hash v k)).1.

(** The verdict of an answer, if it is terminal. *)
Definition verdict (a : error + (thrown + GetTransactionResponse)) : option (error + Z) :=
  match a with
  | inr (inr (SUCCESS l)) => Some (inr l)
  | inr (inr (FAILED x)) => Some (inl (failed_on_chain x))
  | _ => None
  end.

Definition poll_reference (polls : nat) (hash : string) (v : Net) (k : nat) : (error + Z) * Net :=
  match list_find (λ k, is_Some (verdict (poll_answer hash v k))) (List.seq k polls) with
  | Some (_, k) => (default (inl (not_terminal hash)) (verdict (poll_answer hash v k)), before_poll hash v (Datatypes.S k))
  | None => (inl (not_terminal hash), before_poll hash v (k + polls)%nat)
  end.

Lemma poll_delay_step k : Z.min (poll_delay k * 2) 5000 = poll_delay (Datatypes.S k).
Proof. unfold poll_delay. rewrite Nat2Z.inj_succ, Z.pow_succ_r by lia. lia. Qed.

Lemma poll_loop_reference hash v polls k :
  run (poll_loop polls (poll_delay k) hash) (before_poll hash v k) = poll_reference polls hash v k.
Proof.
  revert k. induction polls as [|polls IH]; intros k.
  { cbn. by rewrite Nat.add_0_r. }
  unfold poll_reference. cbn [poll_loop List.seq list_find].
  assert (∀ w, run (poll_once hash k) w
    = run (callRpc "getTransaction" (getTransaction hash)) (run (pause_ms (poll_delay k)) w).2) as Ho by done.
  rewrite run_bind, poll_delay_step. unfold pause_ms at 1. rewrite run_writes. cbn [fst snd].
  rewrite run_bind, <- Ho.
  destruct (run (poll_once hash k) (before_poll hash v k)) as [r v1] eqn:Hr.
  assert (before_poll hash v (Datatypes.S k) = v1) as Hb by (cbn [before_poll]; by rewrite Hr).
  assert (poll_answer hash v k = r) as Ha by (unfold poll_answer; by rewrite Hr).
  rewrite Ha. specialize (IH (Datatypes.S k)). rewrite Hb in IH.
  assert (∃ x, r = inr x) as [x ->].
  { unfold poll_once in Hr. cbn in Hr. case_match. injection Hr as <- _. by eexists. }
  cbn [fst snd].
  assert (∀ o : (error + Z) * Net, poll_reference polls hash v (Datatypes.S k) = o →
    o = match prod_map Datatypes.S id <$> list_find (λ k, is_Some (verdict (poll_answer hash v k)))
                (List.seq (Datatypes.S k) polls) with
        | Some (_, k) =>
            (default (inl (not_terminal hash)) (verdict (poll_answer hash v k)), before_poll hash v (Datatypes.S k))
        | None => (inl (not_terminal hash), before_poll hash v (k + Datatypes.S polls)%nat)
        end) as Hnext.
  { intros o <-. unfold poll_reference. rewrite Nat.add_succ_r. by destruct (list_find _ _) as [[]|]. }
  destruct x as [e|[l|x|]]; cbn [verdict].
  - rewrite decide_False by (by intros []). rewrite IH. by apply Hnext.
  - rewrite decide_True by (by eexists). cbn [snd]. by rewrite Ha, Hb.
  - rewrite decide_True by (by eexists). cbn [snd]. by rewrite Ha, Hb.
  - rewrite decide_False by (by intros []). rewrite IH. by apply Hnext.
Qed.

(** [pollForCompletion] is its reference: of at most [maxPolls] answers, half a
    second and then up to five seconds apart, the first that is terminal. *)
Lemma pollForCompletion_reference hash v :
  run (pollForCompletion hash) v
  = match poll_reference maxPolls hash v 0 with
    | (inr l, v') => (inr (hash, l), v')
    | (inl e, v') => (inl e, v')
    end.
Proof.
  pose proof (poll_loop_reference hash v maxPolls 0) as Hp. change (poll_delay 0) with 500%Z in Hp.
  cbn [before_poll] in Hp. unfold pollForCompletion. rewrite run_bind, Hp.
  by destruct (poll_reference _ _ _ _) as [[] ?].
Qed.

(** ** The unsigned transaction *)

(** What a delivery must be for its lock to be built, and what is built. *)
Definition granted (id payer : string) (v v' : Net) (x : EscrowLockXdrResult) : Prop :=
  ∃ c d amount stroops acc tx prepared v1,
    escrowContractId = Some c ∧ c ≠ "" ∧ isValidObjectId id = true
    ∧ deliveries (net_base v) !! id = Some d ∧ isDeleted d = false
    ∧ (status d ∉ NON_LOCKABLE_STATUSES)
    ∧ assertLockContractAsset (nullish (escrowAsset d) (mkAsset "XLM" None)) = inr tt
    ∧ escrowAmount d = Some amount ∧ toStroops amount = inr stroops
    ∧ run (fireWithBreaker (getAccount payer)) v = (inr (inr acc), v1)
    ∧ buildLock (lock_call c payer (escrowReference (Doc id d)) stroops) acc = inr tx
    ∧ run (fireWithBreaker (prepareTransaction tx)) v1 = (inr (inr prepared), v')
    ∧ x = xdr_result c payer (Doc id d) amount stroops prepared.

Lemma toStroops_positive a s : toStroops a = inr s → negb (Num.isFinite a) || Num.leb a Num.zero = false.
Proof. unfold toStroops. by case_match. Qed.

Lemma run_getById id v :
  run (on_world (getById id)) v
  = (if isValidObjectId id then
       match DeliveryRepository.by_id_if id (λ d, negb (isDeleted d)) (deliveries (net_base v)) with
       | Some d => inr d | None => inl delivery_not_found end
     else inl invalid_id, v).
Proof.
  unfold on_world, getById. destruct (isValidObjectId id); cbn; [|done].
  destruct v. cbn. by destruct DeliveryRepository.by_id_if.
Qed.

(** Each check succeeds exactly when its condition holds, and changes nothing. *)
Lemma run_contract_id v c v1 :
  run (requireEscrowContractId (W := Net)) v = (inr c, v1) ↔ escrowContractId = Some c ∧ c ≠ "" ∧ v1 = v.
Proof.
  unfold requireEscrowContractId. destruct escrowContractId as [c'|]; [|split; [done|by intros [? _]]].
  pose proof (Str.truthy_spec c') as Ht. destruct (Str.truthy c'); cbn.
  - split; [intros [= -> ->]; by split; [|split; [apply Ht|]]|by intros ([= ->] & _ & ->)].
  - split; [done|]. intros ([= ->] & Hc%Ht & _). done.
Qed.

Lemma run_found id v d v1 :
  run (on_world (getById id)) v = (inr d, v1)
  ↔ isValidObjectId id = true ∧ deliveries (net_base v) !! id = Some (body d)
    ∧ isDeleted (body d) = false ∧ d = Doc id (body d) ∧ v1 = v.
Proof.
  rewrite run_getById. destruct (isValidObjectId id); [|split; [done|by intros [? _]]].
  assert (DeliveryRepository.by_id_if id (λ d, negb (isDeleted d)) (deliveries (net_base v)) = Some d
    ↔ d = Doc id (body d) ∧ deliveries (net_base v) !! id = Some (body d) ∧ isDeleted (body d) = false) as Hf
    by (rewrite DeliveryRepository.by_id_if_Some, negb_true_iff; done).
  destruct (DeliveryRepository.by_id_if id _ _) as [d'|].
  - split.
    + intros [= -> ->]. by destruct (proj1 Hf eq_refl) as (-> & ? & ?).
    + intros (_ & ? & ? & ? & ->). assert (Some d' = Some d) as [= ->] by (by apply Hf). done.
  - split; [done|]. intros (_ & ? & ? & ? & _). assert (None = Some d) by (by apply Hf). done.
Qed.

Lemma run_lockable d v u v1 :
  run (assertLockable (W := Net) d) v = (inr u, v1) ↔ (status d ∉ NON_LOCKABLE_STATUSES) ∧ v1 = v.
Proof.
  unfold assertLockable, throw_if. pose proof (includes_true (status d) NON_LOCKABLE_STATUSES) as Hi.
  destruct includes, u; cbn.
  - split; [done|]. intros [Hn _]. by destruct Hn, Hi; auto.
  - split; [intros [= ->]; split; [by intros ?%Hi|done]|by intros [_ ->]].
Qed.

Lemma run_amount d v a s v1 :
  (∃ w1, run (resolveEscrowAmount (W := Net) d) v = (inr a, w1) ∧ run (toContractAmount a) w1 = (inr s, v1))
  ↔ escrowAmount d = Some a ∧ toStroops a = inr s ∧ v1 = v.
Proof.
  unfold resolveEscrowAmount, toContractAmount. split.
  - intros (w1 & H1 & H2). destruct (escrowAmount d) as [x|]; [|done].
    destruct (negb _ || _); [done|]. cbn in H1. injection H1 as -> ->.
    destruct (toStroops a); [done|]. cbn in H2. by injection H2 as -> ->.
  - intros (-> & Hs & ->). exists v. rewrite (toStroops_positive _ _ Hs), Hs. done.
Qed.

Lemma run_account payer v acc v1 :
  run (loadPayerAccount payer) v = (inr acc, v1)
  ↔ run (fireWithBreaker (getAccount payer)) v = (inr (inr acc), v1).
Proof.
  unfold loadPayerAccount. rewrite run_bind_inr. split.
  - intros ([f|a] & w1 & H1 & H2); [by repeat case_match|]. cbn in H2. by injection H2 as -> ->.
  - intros H1. by eexists _, _.
Qed.

Lemma run_prepared tx v p v1 :
  run (prepareTransaction_ tx) v = (inr p, v1)
  ↔ run (fireWithBreaker (prepareTransaction tx)) v = (inr (inr p), v1).
Proof.
  unfold prepareTransaction_. rewrite run_bind_inr. split.
  - intros ([f|a] & w1 & H1 & H2); [by repeat case_match|]. cbn in H2. by injection H2 as -> ->.
  - intros H1. by eexists _, _.
Qed.

(** C19: [buildEscrowLockXdr] answers with a transaction exactly when the
    contract is configured, the delivery exists, is neither deleted nor
    finished, and has a lockable asset and a positive amount that can be
    represented, and the node delivers the account and the simulation; the
    transaction locks the exact number of stroops of that amount under the
    delivery's reference.  Nothing is written, and every refusal has a
    documented status or is the SDK's. *)
Theorem buildEscrowLockXdr_correct id payer v :
  let '(r, v') := run (buildEscrowLockXdr id payer) v in
  only_time v v'
  ∧ (∀ x, r = inr x ↔ granted id payer v v' x)
  ∧ (∀ e, r = inl e → chain_error e).
Proof.
  pose proof (confined_run only_time _ v (build_time id payer)) as Ht.
  pose proof (λ e, throws_only_run chain_error _ v e (build_throws id payer)) as He.
  destruct (run (buildEscrowLockXdr id payer) v) as [r v'] eqn:Hr. cbn [fst snd] in *.
  split; [done|]. split; [|done]. intros x. split.
  - intros ->. unfold buildEscrowLockXdr in Hr.
    apply run_bind_inr in Hr as (c & w1 & (Hc & Hne & ->)%run_contract_id & Hr).
    apply run_bind_inr in Hr as ([i d] & w2 & (Hv & Hd & Hdel & [= ->] & ->)%run_found & Hr).
    apply run_bind_inr in Hr as (u & w3 & (Hl & ->)%run_lockable & Hr).
    apply run_bind_inr in Hr as ([] & w4 & [= Hass <-] & Hr).
    apply run_bind_inr in Hr as (amount & w5 & Ham & Hr).
    apply run_bind_inr in Hr as (stroops & w6 & Hst & Hr).
    destruct (proj1 (run_amount d v amount stroops w6)) as (Ha & Hs & ->); [by exists w5|].
    apply run_bind_inr in Hr as (acc & v1 & Hacc%run_account & Hr).
    apply run_bind_inr in Hr as (tx & w8 & [= Htx <-] & Hr).
    apply run_bind_inr in Hr as (p & w9 & Hp%run_prepared & [= <- ->]).
    by exists c, d, amount, stroops, acc, tx, p, v1.
  - intros (c & d & amount & stroops & acc & tx & p & v1 & Hc & Hne & Hv & Hd & Hdel & Hl & Hass & Ha & Hs
      & Hacc & Htx & Hp & ->).
    destruct (proj2 (run_amount d v amount stroops v)) as (w5 & Ham & Hst); [done|].
    cut (run (buildEscrowLockXdr id payer) v = (inr (xdr_result c payer (Doc id d) amount stroops p), v'));
      [congruence|]. unfold buildEscrowLockXdr.
    apply run_bind_inr. exists c, v. split; [by apply run_contract_id|].
    apply run_bind_inr. exists (Doc id d), v. split; [by apply run_found|].
    apply run_bind_inr. exists tt, v. split; [by apply run_lockable|].
    apply run_bind_inr. exists tt, v. split; [cbn [run body]; by rewrite Hass|].
    apply run_bind_inr. exists amount, w5. split; [done|].
    apply run_bind_inr. exists stroops, v. split; [done|].
    apply run_bind_inr. exists acc, v1. split; [by apply run_account|].
    apply run_bind_inr. exists tx, v1. split; [cbn [run]; by rewrite Htx|].
    apply run_bind_inr. exists p, v'. split; [by apply run_prepared|]. done.
Qed.
End StellarService.

(** ** Examples *)
Module StellarExamples.
Import ExampleEnv.

(** A transaction is its signature and its sequence number; the node knows the
    account's next one, and may reject by throwing. *)
Record node := mkNode { next_seq : nat; throws : option RpcFailure }.
Definition xdr_of (t : bool * nat) : string := (if t.1 then "signed " else "unsigned ") +:+ pretty (N.of_nat t.2).
Definition known : list (bool * nat) := [(true, 1); (true, 2); (false, 1); (false, 2)]%nat.
Definition malformed : RpcFailure := mkFailure "XDR Read Error" None None None None.

#[export] Instance sdk : Sdk := {|
  Node := node;
  Account := nat;
  Transaction := (bool * nat);
  fromXDR s := match list_find (λ t, xdr_of t = s) known with Some (_, t) => inr t | None => inl malformed end;
  toXDR := xdr_of;
  buildLock _ a := inr (false, a);
  tx_sequence t := pretty (N.of_nat t.2);
  tx_fee _ := "100";
  tx_maxTime _ := Some 300%Z;
  resultCodeName := Some;
  stringify r := nullish (sr_errorResultXdr r) "";
  sendTransaction t n :=
    (match throws n with
     | Some f => inl f
     | None =>
         inr (if t.1 then
                if (t.2 =? next_seq n)%nat then mkResponse PENDING "h" None None
                else mkResponse ERROR "h" None (Some "txBadSeq")
              else mkResponse ERROR "h" None (Some "txBadAuth"))
     end, 20%Z, n);
  getTransaction _ n := (inr (SUCCESS 900), 20%Z, n);
  getAccount _ n := (match throws n with Some f => inl f | None => inr (next_seq n) end, 20%Z, n);
  prepareTransaction t n := (inr t, 20%Z, n);
  breaker _ fn n := fn n;
  math_pow := RetryExamples.pow;
  math_random := RetryExamples.half
|}.

#[export] Instance config : StellarConfig := {|
  escrowContractId := Some "CESCROW";
  escrowLockFunction := "lock_escrow";
  network := "testnet";
  networkPassphrase := "Test SDF Network";
  baseFee := "100";
  transactionTimeoutSeconds := 300;
  rpcTimeoutMs := 10000;
  SOROBAN_RPC_MAX_RETRIES := 3;
  SOROBAN_RPC_RETRY_BASE_MS := 250;
  SOROBAN_RPC_RETRY_MAX_MS := 8000;
  SOROBAN_RPC_RETRY_JITTER_RATIO := Num.zero;
  STELLAR_BAD_SEQ_MAX_RETRIES := 3
|}.

Definition D0 : string := "64b7f0c2a1d3e4f500000001".
Definition order : Delivery :=
  Example_.dlv DeliveryStatus.PENDING None <| escrowAmount := Some (Num.of_Z 25) |> <| escrowAsset := None |>.
Definition net_of (d : Delivery) (t : Z) (n : node) : Net (H := sdk) :=
  @mkNet sdk (empty_world t <| deliveries := {[ D0 := d ]} |>) n 0.
Definition net : node → Net (H := sdk) := net_of order 1000.
Definition input : SubmitEscrowLockInput := mkSubmit D0 "signed 1" "GPAYER".
Definition queued (v : Net) : list string := (λ e, errorReason e.2) <$> map_to_list (dlqEntries (net_base v)).


(** After a stale sequence number the rebuilt envelope is submitted without a
    signature: the node rejects it, and the client gets 502 and a dead letter
    instead of an envelope to sign. *)
Example rebuilt_envelope_is_unsigned :
  let '(r, v) := run (submitEscrowLock input) (net (mkNode 2 None)) in
  r = inl (AppError "Transaction submission failed with status 'ERROR'. Error result XDR: txBadAuth" 502)
  ∧ queued v = ["Transaction submission failed with status 'ERROR'. Error result XDR: txBadAuth"].
Proof. vm_compute. split; reflexivity. Qed.

(** A stale sequence number that the SDK throws is not recognised: the response
    made for it has an empty result, which [isBadSeqError] reads as none. *)
Example thrown_bad_seq_is_rejected :
  let '(r, v) := run (submitEscrowLock input)
                   (net (mkNode 1 (Some (mkFailure "tx_bad_seq" None None None None)))) in
  r = inl (AppError "Transaction submission failed with status 'ERROR'. Error result XDR: " 502)
  ∧ length (queued v) = 1%nat.
Proof. vm_compute. split; reflexivity. Qed.

(** An envelope that does not parse is answered with 502. *)
Example malformed_envelope_is_502 :
  (run (submitEscrowLock (mkSubmit D0 "garbage" "GPAYER")) (net (mkNode 1 None))).1
  = inl (AppError "Unable to submit transaction to the Soroban RPC node: XDR Read Error" 502).
Proof. vm_compute. reflexivity. Qed.

(** The breaker package's code of an open circuit is not the one compared with. *)
Example open_circuit_is_502 :
  (run (buildEscrowLockXdr D0 "GPAYER")
     (net (mkNode 1 (Some (mkFailure "Breaker is open" None None None (Some (code_text "EOPENBREAKER"))))))).1
  = inl (AppError "Unable to load the payer account from Soroban RPC." 502).
Proof. vm_compute. reflexivity. Qed.

(** A positive amount below half a stroop locks nothing. *)
Example tiny_amount_locks_zero :
  (run (buildEscrowLockXdr D0 "GPAYER")
     (net_of (order <| escrowAmount := Some (NumParse.of_string "0.00000001") |>) 1000 (mkNode 1 None))).1
  = inr (mkXdrResult "unsigned 1" "testnet" "Test SDF Network" "CESCROW" "lock_escrow" "GPAYER" "1" "100" 300
      D0 None (Some "TRK-1") DeliveryStatus.PENDING "XLM" (NumParse.of_string "0.00000001") "0" "0.0000000").
Proof. vm_compute. reflexivity. Qed.
End StellarExamples.
