(* ===== verification/PushProvider.v ===== *)
(** * Push transport ([src/src/services/push/])

    The interface [IPushProvider] the notification service depends on, and its
    implementation by Firebase Cloud Messaging: a cached access token and one
    request per device token.  Google's endpoints are the class [Google]; one
    send runs at a time, so the sharing of a token request in flight is left
    out. *)
From S2P Require Import Prelude JsLib.

Record PushMessage := mkPushMessage {
  tokens : list string;
  pm_title : string;
  pm_body : string;
  pm_data : list (string * string)
}.

Record PushResult := mkPushResult {
  acceptedCount : nat;
  rejectedCount : nat;
  invalidTokens : list string;
  failureReason : option string
}.

(** ** The interface *)
Class IPushProvider := {
  Provider : Type;
  provider_name : string;
  isConfigured : Provider → bool;
  (** A send at a time, from a state of the provider. *)
  push_send : PushMessage → Z → Provider → (error + PushResult) * Provider
}.

(** What a result promises of its message. *)
Record accounts_for (m : PushMessage) (r : PushResult) : Prop := {
  af_total : acceptedCount r + rejectedCount r = length (tokens m);
  af_invalid : sublist (invalidTokens r) (tokens m);
  af_rejected : length (invalidTokens r) ≤ rejectedCount r;
  af_reason : failureReason r ≠ None → acceptedCount r = 0
}.

Class IPushProviderOk `{IPushProvider} : Prop := {
  push_accounts m now p r p' : push_send m now p = (inr r, p') → accounts_for m r
}.

(** ** Firebase Cloud Messaging *)

(** An error answer: the nested codes and the status of its body, if it has one. *)
Record FcmRejection := mkRejection {
  rj_details : list (option string);
  rj_status : option string
}.

Record JwtClaims := mkClaims {
  iss : string;
  scope : string;
  aud : string;
  iat : Z;
  exp : Z
}.

Class Google := {
  FCM_PROJECT_ID : string;
  FCM_CLIENT_EMAIL : string;
  FCM_PRIVATE_KEY : string;
  GState : Type;
  (** Signing the claims and exchanging them: an access token and its lifetime
      in seconds. *)
  exchange : JwtClaims → GState → (error + string * Z) * GState;
  (** A message to one token with an access token: accepted or not. *)
  post_message : string → string → PushMessage → GState → (FcmRejection + unit) * GState
}.

Definition GOOGLE_TOKEN_URL : string := "https://oauth2.googleapis.com/token".
Definition FCM_SCOPE : string := "https://www.googleapis.com/auth/firebase.messaging".
Definition TOKEN_REFRESH_SKEW_SECONDS : Z := 60.
Definition PERMANENT_TOKEN_ERRORS : list string := ["UNREGISTERED"; "INVALID_ARGUMENT"; "SENDER_ID_MISMATCH"].

Record CachedAccessToken := mkCachedToken { ct_token : string; ct_expiresAt : Z }.
Record Fcm `{Google} := mkFcm { cachedToken : option CachedAccessToken; google : GState }.
Arguments mkFcm {_} cachedToken google.

Record Outcome := mkOutcome { oc_token : string; accepted : bool; permanentFailure : bool }.

Section Fcm.
Context `{G : Google}.

Definition fcm_isConfigured : bool :=
  Str.truthy FCM_PROJECT_ID && Str.truthy FCM_CLIENT_EMAIL && Str.truthy FCM_PRIVATE_KEY.

Definition extractErrorCode (r : FcmRejection) : option string :=
  match head (List.filter (λ c, if c is Some c then Str.truthy c else false) (rj_details r)) with
  | Some (Some c) => Some c
  | _ => rj_status r
  end.

Definition buildSignedJwt (now : Z) : JwtClaims :=
  let issuedAt := (now / 1000)%Z in
  mkClaims FCM_CLIENT_EMAIL FCM_SCOPE GOOGLE_TOKEN_URL issuedAt (issuedAt + 3600).

Definition requestAccessToken (now : Z) (f : Fcm) : (error + string) * Fcm :=
  match exchange (buildSignedJwt now) (google f) with
  | (inl e, g) => (inl e, mkFcm (cachedToken f) g)
  | (inr (token, expiresIn), g) =>
      (inr token, mkFcm (Some (mkCachedToken token (now + (expiresIn - TOKEN_REFRESH_SKEW_SECONDS) * 1000))) g)
  end.

Definition getAccessToken (now : Z) (f : Fcm) : (error + string) * Fcm :=
  match cachedToken f with
  | Some c => if (now <? ct_expiresAt c)%Z then (inr (ct_token c), f) else requestAccessToken now f
  | None => requestAccessToken now f
  end.

Definition sendToToken (accessToken : string) (m : PushMessage) (f : Fcm) (token : string) : Outcome * Fcm :=
  match post_message accessToken token m (google f) with
  | (inr _, g) => (mkOutcome token true false, mkFcm (cachedToken f) g)
  | (inl r, g) =>
      (mkOutcome token false
         (if extractErrorCode r is Some c then includes c PERMANENT_TOKEN_ERRORS else false),
       mkFcm (cachedToken f) g)
  end.

Fixpoint send_all (accessToken : string) (m : PushMessage) (f : Fcm) (l : list string) : list Outcome * Fcm :=
  match l with
  | [] => ([], f)
  | t :: l =>
      let '(o, f) := sendToToken accessToken m f t in
      let '(os, f) := send_all accessToken m f l in (o :: os, f)
  end.

Definition fcm_send (m : PushMessage) (now : Z) (f : Fcm) : (error + PushResult) * Fcm :=
  if negb fcm_isConfigured then
    (inr (mkPushResult 0 (length (tokens m)) [] (Some "FCM credentials are not configured")), f)
  else if bool_decide (tokens m = []) then (inr (mkPushResult 0 0 [] None), f)
  else
    match getAccessToken now f with
    | (inl e, f) =>
        (inr (mkPushResult 0 (length (tokens m)) []
                (Some ("FCM authentication failed: " +:+ error_message e))), f)
    | (inr accessToken, f) =>
        let '(outcomes, f) := send_all accessToken m f (tokens m) in
        let acceptedCount := length (List.filter accepted outcomes) in
        (inr (mkPushResult acceptedCount (length outcomes - acceptedCount)
                (oc_token <$> List.filter permanentFailure outcomes) None), f)
    end.

#[export] Instance fcm_provider : IPushProvider := {|
  provider_name := "fcm";
  isConfigured _ := fcm_isConfigured;
  push_send := fcm_send
|}.

(** ** Proofs *)
Lemma send_all_tokens accessToken m f l :
  oc_token <$> (send_all accessToken m f l).1 = l
  ∧ Forall (λ o, negb (accepted o && permanentFailure o)) (send_all accessToken m f l).1.
Proof.
  revert f. induction l as [|t l IH]; intros f; cbn; [done|].
  destruct (sendToToken accessToken m f t) as [o f'] eqn:Ho.
  specialize (IH f'). destruct (send_all accessToken m f' l) as [os f'']. cbn in *.
  destruct IH as [-> IH].
  assert (oc_token o = t ∧ negb (accepted o && permanentFailure o)) as [<- ?].
  { unfold sendToToken in Ho. destruct post_message as [[r|u] g]; injection Ho as <- <-; done. }
  split; [done|]. by constructor.
Qed.

Lemma filter_permanent_rejected (l : list Outcome) :
  Forall (λ o, negb (accepted o && permanentFailure o)) l →
  length (List.filter permanentFailure l) + length (List.filter accepted l) ≤ length l.
Proof.
  induction 1 as [|o l Ho _ IH]; cbn; [done|].
  destruct (accepted o), (permanentFailure o); cbn in *; done || lia.
Qed.

Lemma fmap_filter_sublist {A B} (f : A → B) (P : A → bool) (l : list A) :
  sublist (f <$> List.filter P l) (f <$> l).
Proof.
  induction l as [|x l IH]; cbn; [done|]. destruct (P x); cbn; [by apply sublist_skip|by apply sublist_cons].
Qed.

(** Firebase keeps the interface's promise, and never throws. *)
Lemma fcm_accounts m now f : ∃ r f', fcm_send m now f = (inr r, f') ∧ accounts_for m r.
Proof.
  unfold fcm_send. destruct fcm_isConfigured; cbn [negb].
  2:{ eexists _, _. split; [done|]. split; cbn; [done|apply sublist_nil_l|lia|done]. }
  case_bool_decide as Ht.
  { eexists _, _. split; [done|]. split; cbn; [by rewrite Ht|apply sublist_nil_l|lia|done]. }
  destruct (getAccessToken now f) as [[e|a] f1].
  { eexists _, _. split; [done|]. split; cbn; [done|apply sublist_nil_l|lia|done]. }
  destruct (send_all_tokens a m f1 (tokens m)) as [Hl Hok].
  destruct (send_all a m f1 (tokens m)) as [os f2]. cbn [fst] in *.
  eexists _, _. split; [done|]. pose proof (filter_permanent_rejected os Hok) as Hle.
  assert (length os = length (tokens m)) as Hlen by (rewrite <- Hl; by rewrite length_fmap).
  split; cbn; [lia| |rewrite length_fmap; lia|done].
  rewrite <- Hl. apply fmap_filter_sublist.
Qed.

#[export] Instance fcm_provider_ok : IPushProviderOk.
Proof.
  split. intros m now p r p' Hs. destruct (fcm_accounts m now p) as (r' & f' & Hs' & Ha).
  change (push_send m now p) with (fcm_send m now p) in Hs. congruence.
Qed.
End Fcm.
