(* ===== verification/Notifications.v ===== *)
(** * Notifications ([src/src/services/notificationService.ts],
      [src/src/repositories/NotificationPreferenceRepository.ts],
      [src/src/repositories/NotificationRepository.ts])

    Preferences and device tokens of users, the dispatch of a notification with
    its record in the log, the fan-out over the parties of a delivery, and the
    contract event that sets a status.  The push transport is the interface of
    [PushProvider.v]. *)
From S2P Require Import Prelude JsLib Models Repositories Pagination PushProvider.

(** ** Data *)
Module NotificationEvent.
Inductive t :=
  | DELIVERY_PENDING | DELIVERY_ASSIGNED | DELIVERY_IN_PROGRESS | DELIVERY_COMPLETED
  | DELIVERY_CANCELLED | MERCHANT_ONBOARDED.
#[global] Instance eq_dec : EqDecision t.
Proof. solve_decision. Defined.
Definition to_string (e : t) : string :=
  match e with
  | DELIVERY_PENDING => "delivery.pending" | DELIVERY_ASSIGNED => "delivery.assigned"
  | DELIVERY_IN_PROGRESS => "delivery.in_progress" | DELIVERY_COMPLETED => "delivery.completed"
  | DELIVERY_CANCELLED => "delivery.cancelled" | MERCHANT_ONBOARDED => "merchant.onboarded"
  end.
Definition values : list t :=
  [DELIVERY_PENDING; DELIVERY_ASSIGNED; DELIVERY_IN_PROGRESS; DELIVERY_COMPLETED; DELIVERY_CANCELLED;
   MERCHANT_ONBOARDED].
End NotificationEvent.

Module NotificationStatus.
Inductive t := SENT | FAILED | SKIPPED.
#[global] Instance eq_dec : EqDecision t.
Proof. solve_decision. Defined.
End NotificationStatus.

Inductive platform := ios | android | web.
#[export] Instance platform_eq_dec : EqDecision platform.
Proof. solve_decision. Defined.

Record DeviceToken := mkDevice { dev_token : string; dev_platform : platform; lastSeenAt : Z }.

(** One document per user: the collection is keyed by its unique user. *)
Record NotificationPreference := mkPreference {
  pushEnabled : bool;
  enabledEvents : list NotificationEvent.t;
  devices : list DeviceToken;
  np_createdAt : Z;
  np_updatedAt : Z
}.

Record Notification := mkNotification {
  n_user : string;
  n_event : NotificationEvent.t;
  n_title : string;
  n_body : string;
  n_data : list (string * string);
  n_status : NotificationStatus.t;
  n_acceptedCount : nat;
  n_rejectedCount : nat;
  n_failureReason : option string;
  n_delivery : option string;
  n_createdAt : Z
}.

Record Notes `{IPushProvider} := mkNotes {
  nt_base : World;
  preferences : gmap string NotificationPreference;
  notifications : list Notification;
  provider : Provider
}.
Arguments mkNotes {_} nt_base preferences notifications provider.

(** What the environment decides: whether the log can be written, whether the
    unique index on [devices.token] gives documents without devices a common
    entry, and whether the WebSocket callback throws. *)
Class NotificationEnv `{IPushProvider} := {
  insert_fails : Notification → Notes → option error;
  EMPTY_DEVICES_INDEXED : bool;
  websocketNotifier : hydrated Delivery → DeliveryStatus.t → option string → Notes → option error * Notes
}.

Section Notifications.
Context `{E : Env, P : IPushProvider, N : !NotificationEnv}.

Abbreviation notes := (prog Notes).

Definition with_preferences (m : gmap string NotificationPreference) (w : Notes) : Notes :=
  mkNotes (nt_base w) m (notifications w) (provider w).
Definition nt_now (w : Notes) : Z := now_ms (nt_base w).

(** ** Preferences *)
Definition default_preference (now : Z) : NotificationPreference :=
  mkPreference true NotificationEvent.values [] now now.
Definition with_devices (l : list DeviceToken) (now : Z) (p : NotificationPreference) : NotificationPreference :=
  mkPreference (pushEnabled p) (enabledEvents p) l (np_createdAt p) now.
Definition owns (token : string) (p : NotificationPreference) : bool := includes token (dev_token <$> devices p).

(** The unique index: two documents clash when they share a token. *)
Definition pref_clash (p q : NotificationPreference) : bool :=
  some (λ t, owns t q) (dev_token <$> devices p)
  || (EMPTY_DEVICES_INDEXED && bool_decide (devices p = []) && bool_decide (devices q = [])).
Definition pref_conflicts (u : string) (p : NotificationPreference) (m : gmap string NotificationPreference) : bool :=
  some (λ kq, negb (String.eqb kq.1 u) && pref_clash p kq.2) (map_to_list m).

(** A write of one document, refused by the index or done. *)
Definition commit (u : string) (p : NotificationPreference) (w : Notes) : (error + NotificationPreference) * Notes :=
  if pref_conflicts u p (preferences w) then (inl DuplicateKey, w)
  else (inr p, with_preferences (<[u := p]> (preferences w)) w).

Definition cast_error : error := PlainError "Cast to ObjectId failed".

(** The document of a user, or the defaults an upsert inserts. *)
Definition current (u : string) (w : Notes) : NotificationPreference :=
  nullish (preferences w !! u) (default_preference (nt_now w)).

Definition findOrCreateByUserId (u : string) : notes NotificationPreference :=
  if negb (isValidObjectId u) then throw cast_error else
  atomic_try (λ w,
    match preferences w !! u with
    | Some p => (inr p, w)
    | None => commit u (default_preference (nt_now w)) w
    end).

Record UpdatePreferencesInput := mkUpdatePreferences {
  up_pushEnabled : option bool;
  up_enabledEvents : option (list NotificationEvent.t)
}.

Definition updateForUser (u : string) (i : UpdatePreferencesInput) : notes NotificationPreference :=
  match up_pushEnabled i, up_enabledEvents i with
  | None, None => findOrCreateByUserId u
  | _, _ =>
      atomic_try (λ w, let p := current u w in
        commit u (mkPreference (nullish (up_pushEnabled i) (pushEnabled p))
                    (nullish (up_enabledEvents i) (enabledEvents p)) (devices p) (np_createdAt p) (nt_now w)) w)
  end.

Definition drop_tokens (l : list string) (p : NotificationPreference) : list DeviceToken :=
  List.filter (λ d, negb (includes (dev_token d) l)) (devices p).

(** [updateMany] over the documents that match, one after the other. *)
Fixpoint pull_from (l : list string) (us : list string) (w : Notes) : (error + nat) * Notes :=
  match us with
  | [] => (inr 0, w)
  | u :: us =>
      match preferences w !! u with
      | None => pull_from l us w
      | Some p =>
          match commit u (with_devices (drop_tokens l p) (nt_now w) p) w with
          | (inl e, w) => (inl e, w)
          | (inr _, w) =>
              match pull_from l us w with
              | (inr n, w) => (inr (S n), w)
              | (inl e, w) => (inl e, w)
              end
          end
      end
  end.
Definition owners (P : string → NotificationPreference → bool) (w : Notes) : list string :=
  (List.filter (λ kp, P kp.1 kp.2) (map_to_list (preferences w))).*1.

Definition pruneTokens (l : list string) : notes nat :=
  if bool_decide (l = []) then mret 0 else
  atomic_try (λ w, pull_from l (owners (λ _ p, some (λ t, owns t p) l) w) w).

Definition removeDevice (u token : string) : notes (option NotificationPreference) :=
  atomic_try (λ w,
    match preferences w !! u with
    | None => (inr None, w)
    | Some p =>
        match commit u (with_devices (drop_tokens [token] p) (nt_now w) p) w with
        | (inl e, w) => (inl e, w)
        | (inr p, w) => (inr (Some p), w)
        end
    end).

(** The positional update of the first device with the token. *)
Fixpoint refresh (token : string) (pl : platform) (now : Z) (l : list DeviceToken) : list DeviceToken :=
  match l with
  | [] => []
  | d :: l => if String.eqb (dev_token d) token then mkDevice token pl now :: l else d :: refresh token pl now l
  end.

Definition refresh_op (u token : string) (pl : platform) (w : Notes) : (error + option NotificationPreference) * Notes :=
  match preferences w !! u with
  | Some p =>
      if owns token p then
        match commit u (with_devices (refresh token pl (nt_now w) (devices p)) (nt_now w) p) w with
        | (inl e, w) => (inl e, w)
        | (inr p, w) => (inr (Some p), w)
        end
      else (inr None, w)
  | None => (inr None, w)
  end.

Definition detach_op (u token : string) (w : Notes) : (error + nat) * Notes :=
  pull_from [token] (owners (λ k p, negb (String.eqb k u) && owns token p) w) w.

Definition attach_op (u token : string) (pl : platform) (w : Notes) : (error + NotificationPreference) * Notes :=
  let p := current u w in
  commit u (with_devices (devices p ++ [mkDevice token pl (nt_now w)]) (nt_now w) p) w.

Definition MAX_CLAIM_ATTEMPTS : nat := 5.

(** The claim loop, with [fuel] attempts left. *)
Fixpoint claim_loop (fuel : nat) (u token : string) (pl : platform) : notes NotificationPreference :=
  match fuel with
  | O => throw (PlainError "Could not register device token due to concurrent registration contention")
  | S fuel =>
      refreshed ← atomic_try (refresh_op u token pl);
      match refreshed with
      | Some p => mret p
      | None =>
          _ ← atomic_try (detach_op u token);
          r ← outcome_of (atomic_try (attach_op u token pl));
          match r with
          | inr p => mret p
          | inl DuplicateKey => if (fuel =? 0)%nat then throw DuplicateKey else claim_loop fuel u token pl
          | inl e => throw e
          end
      end
  end.
Definition registerDevice_ (u token : string) (pl : platform) : notes NotificationPreference :=
  claim_loop MAX_CLAIM_ATTEMPTS u token pl.

(** ** Dispatching one notification *)
Record DispatchInput := mkDispatch {
  di_userId : string;
  di_event : NotificationEvent.t;
  di_title : string;
  di_body : string;
  di_data : list (string * string);
  di_deliveryId : option string
}.

(** Why a notification is not sent. *)
Definition suppressionReason (p : NotificationPreference) (e : NotificationEvent.t) : option string :=
  if negb (pushEnabled p) then Some "User has disabled push notifications"
  else if negb (includes e (enabledEvents p))
  then Some ("User has opted out of '" +:+ NotificationEvent.to_string e +:+ "'")
  else if bool_decide (devices p = []) then Some "User has no registered devices"
  else None.

Definition nothing_sent (reason : string) : PushResult := mkPushResult 0 0 [] (Some reason).

Definition notification_of (i : DispatchInput) (st : NotificationStatus.t) (r : PushResult) (now : Z) : Notification :=
  mkNotification (di_userId i) (di_event i) (di_title i) (di_body i) (di_data i) st
    (acceptedCount r) (rejectedCount r) (failureReason r) (di_deliveryId i) now.

Definition record (i : DispatchInput) (st : NotificationStatus.t) (r : PushResult) : notes Notification :=
  atomic_try (λ w,
    let n := notification_of i st r (nt_now w) in
    match insert_fails n w with
    | Some e => (inl e, w)
    | None => (inr n, mkNotes (nt_base w) (preferences w) (notifications w ++ [n]) (provider w))
    end).

Definition send (m : PushMessage) : notes PushResult :=
  atomic_try (λ w,
    let '(r, p) := push_send m (nt_now w) (provider w) in
    (r, mkNotes (nt_base w) (preferences w) (notifications w) p)).

(** What the [try] decides: the status and the result to record. *)
Definition attempt (i : DispatchInput) : notes (NotificationStatus.t * PushResult) :=
  preference ← findOrCreateByUserId (di_userId i);
  match suppressionReason preference (di_event i) with
  | Some reason => mret (NotificationStatus.SKIPPED, nothing_sent reason)
  | None =>
      result ← send (mkPushMessage (dev_token <$> devices preference) (di_title i) (di_body i) (di_data i));
      _ ← (if bool_decide (invalidTokens result = []) then mret 0 else pruneTokens (invalidTokens result));
      mret (if (0 <? acceptedCount result)%nat then NotificationStatus.SENT else NotificationStatus.FAILED, result)
  end.

(** [return this.record(...)] inside the [try] is not awaited there: its failure
    leaves the function, only what comes before it is caught. *)
Definition dispatch (i : DispatchInput) : notes (option Notification) :=
  r ← outcome_of (attempt i);
  match r with
  | inr (st, result) => n ← record i st result; mret (Some n)
  | inl e =>
      try_catch (n ← record i NotificationStatus.FAILED (nothing_sent (error_message e)); mret (Some n))
        (λ _, mret None)
  end.

(** ** The parties of a delivery *)
Definition STATUS_EVENTS (s : DeliveryStatus.t) : option NotificationEvent.t :=
  match s with
  | DeliveryStatus.PENDING => Some NotificationEvent.DELIVERY_PENDING
  | DeliveryStatus.ASSIGNED => Some NotificationEvent.DELIVERY_ASSIGNED
  | DeliveryStatus.IN_PROGRESS => Some NotificationEvent.DELIVERY_IN_PROGRESS
  | DeliveryStatus.COMPLETED => Some NotificationEvent.DELIVERY_COMPLETED
  | DeliveryStatus.CANCELLED => Some NotificationEvent.DELIVERY_CANCELLED
  | DeliveryStatus.FUNDED => None
  end.

Definition EVENT_COPY (e : NotificationEvent.t) (ref : string) : string * string :=
  match e with
  | NotificationEvent.DELIVERY_PENDING =>
      ("Delivery created", "Your delivery " +:+ ref +:+ " has been created and is awaiting a driver.")
  | NotificationEvent.DELIVERY_ASSIGNED =>
      ("Driver assigned", "A driver has been assigned to delivery " +:+ ref +:+ ".")
  | NotificationEvent.DELIVERY_IN_PROGRESS => ("Delivery in progress", "Delivery " +:+ ref +:+ " is on its way.")
  | NotificationEvent.DELIVERY_COMPLETED => ("Delivery completed", "Delivery " +:+ ref +:+ " has been completed.")
  | NotificationEvent.DELIVERY_CANCELLED => ("Delivery cancelled", "Delivery " +:+ ref +:+ " has been cancelled.")
  | NotificationEvent.MERCHANT_ONBOARDED =>
      ("Welcome to SwiftChain",
       "Onboarding for " +:+ ref +:+ " is complete. You can now create escrow-funded deliveries.")
  end.

(** [[...new Set(l)]]: the first occurrence of each value. *)
Definition unique (l : list string) : list string :=
  foldl (λ acc x, if includes x acc then acc else acc ++ [x]) [] l.

Definition resolveRecipients (d : Delivery) : list string :=
  unique (List.filter isValidObjectId (List.filter Str.truthy
    (omap (λ x : option string, x) [sender d; userId d; driverId d]))).

Definition delivery_dispatch (d : hydrated Delivery) (s : DeliveryStatus.t) (e : NotificationEvent.t) (u : string)
    : DispatchInput :=
  let reference := nullish (trackingNumber (body d)) (_id d) in
  let copy := EVENT_COPY e reference in
  mkDispatch u e copy.1 copy.2
    ([("deliveryId", _id d); ("status", DeliveryStatus.to_string s); ("event", NotificationEvent.to_string e)]
     ++ match trackingNumber (body d) with
        | Some t => if Str.truthy t then [("trackingNumber", t)] else []
        | None => []
        end)
    (Some (_id d)).

Definition notifyDeliveryTransition (d : hydrated Delivery) (s : DeliveryStatus.t) : notes (list Notification) :=
  match STATUS_EVENTS s with
  | None => mret []
  | Some e =>
      match resolveRecipients (body d) with
      | [] => mret []
      | recipients =>
          results ← promise_map (λ u, dispatch (delivery_dispatch d s e u)) recipients;
          mret (omap (M:=list) (λ x : option Notification, x) results)
      end
  end.

Definition notifyMerchantOnboarded (ownerId fleetId fleetName : string) : notes (option Notification) :=
  let e := NotificationEvent.MERCHANT_ONBOARDED in
  let copy := EVENT_COPY e fleetName in
  dispatch (mkDispatch ownerId e copy.1 copy.2
    [("event", NotificationEvent.to_string e); ("fleetId", fleetId)] None).

(** ** The contract's status event *)
Record DeliveryStatusUpdatedEvent := mkStatusEvent {
  se_deliveryId : string;
  se_status : string;
  se_transactionHash : option string
}.

Definition emitWebSocketNotification (d : hydrated Delivery) (s : DeliveryStatus.t) (h : option string) : notes unit :=
  writes (λ w, (websocketNotifier d s h w).2).

Definition set_status_op (id : string) (s : DeliveryStatus.t) (w : Notes) : option (hydrated Delivery) * Notes :=
  match deliveries (nt_base w) !! id with
  | None => (None, w)
  | Some d =>
      let d := d <| status := s |> <| d_updatedAt := nt_now w |> in
      (Some (Doc id d),
       mkNotes (nt_base w <| deliveries ::= <[id := d]> |>) (preferences w) (notifications w) (provider w))
  end.

Definition handleDeliveryStatusUpdated (ev : DeliveryStatusUpdatedEvent)
    : notes (hydrated Delivery * list Notification) :=
  _ ← throw_if (negb (isValidObjectId (se_deliveryId ev))) (AppError "Invalid delivery ID" Http.BAD_REQUEST);
  s ← or_throw (DeliveryStatus.of_string (se_status ev))
        (AppError ("Unknown delivery status '" +:+ se_status ev +:+ "'") Http.BAD_REQUEST);
  found ← atomic (set_status_op (se_deliveryId ev) s);
  updated ← or_throw found (AppError ("Delivery " +:+ se_deliveryId ev +:+ " not found") Http.NOT_FOUND);
  _ ← emitWebSocketNotification updated s (se_transactionHash ev);
  sent ← notifyDeliveryTransition updated s;
  mret (updated, sent).

(** ** Preference management *)
Definition assertValidUserId (u : string) : notes unit :=
  throw_if (negb (isValidObjectId u)) (AppError "Invalid user ID" Http.BAD_REQUEST).

Definition getPreferences (u : string) : notes NotificationPreference :=
  _ ← assertValidUserId u; findOrCreateByUserId u.
Definition updatePreferences (u : string) (i : UpdatePreferencesInput) : notes NotificationPreference :=
  _ ← assertValidUserId u; updateForUser u i.
Definition registerDevice (u token : string) (pl : platform) : notes NotificationPreference :=
  _ ← assertValidUserId u; registerDevice_ u token pl.
Definition unregisterDevice (u token : string) : notes NotificationPreference :=
  _ ← assertValidUserId u;
  found ← removeDevice u token;
  or_throw found (AppError "Notification preferences not found" Http.NOT_FOUND).

Definition newest_first (a b : Notification) : bool := (n_createdAt b <=? n_createdAt a)%Z.
Definition listForUser (u : string) (f : Notification → bool) (pg lim : Z) : notes (Page Notification) :=
  _ ← assertValidUserId u;
  l ← reads notifications;
  mret (paginate (sort_by newest_first (List.filter (λ n, String.eqb (n_user n) u && f n) l)) pg lim).
Definition listForDelivery (id : string) : notes (list Notification) :=
  if negb (isValidObjectId id) then mret [] else
  l ← reads notifications;
  mret (sort_by newest_first (List.filter (λ n, bool_decide (n_delivery n = Some id)) l)).

(** ** The index on device tokens *)
Definition index_ok (w : Notes) : Prop :=
  ∀ u1 p1 u2 p2, preferences w !! u1 = Some p1 → preferences w !! u2 = Some p2 → u1 ≠ u2 →
    pref_clash p1 p2 = false.

Lemma owns_true t p : owns t p = true ↔ t ∈ dev_token <$> devices p.
Proof. apply includes_true. Qed.

Lemma pref_clash_false p q : pref_clash p q = false ↔
  (∀ t, owns t p = true → owns t q = false)
  ∧ (EMPTY_DEVICES_INDEXED = true → devices p = [] → devices q ≠ []).
Proof.
  unfold pref_clash. rewrite orb_false_iff, some_false, !andb_false_iff, !bool_decide_eq_false.
  split; intros [H1 H2]; split.
  - intros t Ht%owns_true. by apply H1.
  - intros He Hp Hq. destruct H2 as [[He'|?]|?]; [by rewrite He in He'|done..].
  - intros t Ht. by apply H1, owns_true.
  - destruct EMPTY_DEVICES_INDEXED; [|by left; left].
    destruct (decide (devices p = [])); [right; auto|by left; right].
Qed.

Lemma pref_clash_sym p q : pref_clash p q = false → pref_clash q p = false.
Proof.
  rewrite !pref_clash_false. intros [H1 H2]. split; [|intros ? Hq Hp; by apply H2].
  intros t Ht. destruct (owns t p) eqn:Hp; [|done]. by rewrite (H1 t Hp) in Ht.
Qed.

Lemma pref_conflicts_false u p m : pref_conflicts u p m = false ↔
  ∀ k q, m !! k = Some q → k ≠ u → pref_clash p q = false.
Proof.
  unfold pref_conflicts. rewrite some_false. split.
  - intros Hs k q Hk Hne. specialize (Hs (k, q)). cbn in Hs. apply String.eqb_neq in Hne.
    rewrite Hne in Hs. apply Hs. by apply elem_of_map_to_list.
  - intros Hs [k q] Hk%elem_of_map_to_list. cbn. destruct (String.eqb_spec k u); [done|]. by apply (Hs k).
Qed.

(** A write succeeds with what was asked for, or is refused and changes nothing. *)
Lemma commit_inv u p w r w' : commit u p w = (r, w') →
  (r = inl DuplicateKey ∧ w' = w)
  ∨ (r = inr p ∧ w' = with_preferences (<[u := p]> (preferences w)) w
     ∧ pref_conflicts u p (preferences w) = false).
Proof. unfold commit. destruct pref_conflicts; intros [= <- <-]; [by left|by right]. Qed.

Lemma index_ok_insert u p w : index_ok w → pref_conflicts u p (preferences w) = false →
  index_ok (with_preferences (<[u := p]> (preferences w)) w).
Proof.
  intros Hi Hc u1 p1 u2 p2 H1 H2 Hne. cbn in *. rewrite pref_conflicts_false in Hc.
  destruct (decide (u = u1)) as [<-|]; destruct (decide (u = u2)) as [<-|]; simplify_map_eq;
    eauto using pref_clash_sym.
Qed.

Lemma commit_index u p w : index_ok w → index_ok (commit u p w).2.
Proof.
  intros Hi. destruct (commit u p w) as [r w'] eqn:Hc.
  apply commit_inv in Hc as [[_ ->]|(_ & -> & Hc)]; [done|]. by apply index_ok_insert.
Qed.

Lemma pull_index l us w : index_ok w → index_ok (pull_from l us w).2.
Proof.
  revert w. induction us as [|u us IH]; intros w Hi; cbn; [done|].
  destruct (preferences w !! u) as [p|]; [|by apply IH].
  pose proof (commit_index u (with_devices (drop_tokens l p) (nt_now w) p) w Hi) as Hi'.
  destruct commit as [[e|q] w']; [done|]. specialize (IH w' Hi'). by destruct pull_from as [[] ?].
Qed.

(** *** Every operation respects the index, whatever the others do. *)
Definition keeps_index (w w' : Notes) : Prop := index_ok w → index_ok w'.
#[export] Instance keeps_index_preorder : PreOrder keeps_index.
Proof. split; [by intros w Hi|]. intros w1 w2 w3 H1 H2 Hi. by apply H2, H1. Qed.

Lemma log_keeps_same w w' : preferences w' = preferences w → keeps_index w w'.
Proof. unfold keeps_index, index_ok. by intros ->. Qed.

Inductive NotesOp :=
  | op_notify (d : hydrated Delivery) (s : DeliveryStatus.t)
  | op_onboarded (owner fleetId fleetName : string)
  | op_status_event (ev : DeliveryStatusUpdatedEvent)
  | op_get (u : string)
  | op_update (u : string) (i : UpdatePreferencesInput)
  | op_register (u token : string) (pl : platform)
  | op_unregister (u token : string).
Definition perform (o : NotesOp) : notes unit :=
  match o with
  | op_notify d s => _ ← notifyDeliveryTransition d s; mret tt
  | op_onboarded o f n => _ ← notifyMerchantOnboarded o f n; mret tt
  | op_status_event ev => _ ← handleDeliveryStatusUpdated ev; mret tt
  | op_get u => _ ← getPreferences u; mret tt
  | op_update u i => _ ← updatePreferences u i; mret tt
  | op_register u t pl => _ ← registerDevice u t pl; mret tt
  | op_unregister u t => _ ← unregisterDevice u t; mret tt
  end.

(** An atomic access that writes through [commit] only. *)
Lemma confined_op {A} (op : Notes → (error + A) * Notes) :
  (∀ w, keeps_index w (op w).2) → confined keeps_index (atomic_try op).
Proof. intros Hop w. split; [apply Hop|by destruct (op w).1]. Qed.

#[local] Hint Extern 1 (confined _ (match ?x with _ => _ end)) => destruct x : confined.
#[local] Hint Extern 1 (confined _ (if ?x then _ else _)) => destruct x : confined.
#[local] Hint Extern 2 (confined _ (throw _)) => exact I : confined.
#[local] Hint Extern 2 (confined _ (mret _)) => exact I : confined.

Lemma confined_outcome_of {A} (G : relation Notes) (p : notes A) : confined G p → confined G (outcome_of p).
Proof. intros Hp. unfold outcome_of. apply confined_try_catch; [by apply confined_bind|done]. Qed.
Lemma confined_promise_map {A B} (G : relation Notes) (f : A → notes B) l :
  (∀ x, confined G (f x)) → confined G (promise_map f l).
Proof.
  intros Hf. induction l as [|x l IH]; cbn [promise_map]; [done|].
  apply confined_bind; [by apply confined_outcome_of|]. intros r.
  apply confined_bind; [by apply confined_outcome_of|]. done.
Qed.
#[local] Hint Resolve confined_outcome_of confined_promise_map : confined.

Lemma findOrCreate_index u : confined keeps_index (findOrCreateByUserId u).
Proof.
  unfold findOrCreateByUserId. case_match; [done|]. apply confined_op. intros w Hi.
  case_match; [done|by apply commit_index].
Qed.
Lemma prune_index l : confined keeps_index (pruneTokens l).
Proof. unfold pruneTokens. case_match; [done|]. apply confined_op. intros w Hi. by apply pull_index. Qed.
Lemma refresh_index u t pl : confined keeps_index (atomic_try (refresh_op u t pl)).
Proof.
  apply confined_op. intros w Hi. unfold refresh_op. destruct (preferences w !! u) as [p|]; [|done].
  destruct (owns t p); [|done].
  pose proof (commit_index u (with_devices (refresh t pl (nt_now w) (devices p)) (nt_now w) p) w Hi).
  by destruct commit as [[] ?].
Qed.
Lemma detach_index u t : confined keeps_index (atomic_try (detach_op u t)).
Proof. apply confined_op. intros w Hi. by apply pull_index. Qed.
Lemma attach_index u t pl : confined keeps_index (atomic_try (attach_op u t pl)).
Proof. apply confined_op. intros w Hi. by apply commit_index. Qed.
Lemma remove_index u t : confined keeps_index (removeDevice u t).
Proof.
  apply confined_op. intros w Hi. destruct (preferences w !! u) as [p|]; [|done].
  pose proof (commit_index u (with_devices (drop_tokens [t] p) (nt_now w) p) w Hi).
  by destruct commit as [[] ?].
Qed.
Lemma updateForUser_index u i : confined keeps_index (updateForUser u i).
Proof.
  unfold updateForUser. repeat case_match; try apply findOrCreate_index.
  all: apply confined_op; intros w Hi; by apply commit_index.
Qed.
Lemma record_index i st r : confined keeps_index (record i st r).
Proof. apply confined_op. intros w. apply log_keeps_same. cbv zeta. by case_match. Qed.
Lemma send_index m : confined keeps_index (send m).
Proof. apply confined_op. intros w. apply log_keeps_same. cbv zeta. by case_match. Qed.
Lemma set_status_index id s : confined keeps_index (atomic (set_status_op id s)).
Proof. intros w. split; [|done]. apply log_keeps_same. unfold set_status_op. by case_match. Qed.
Lemma websocket_index d s h : (∀ w, preferences (websocketNotifier d s h w).2 = preferences w) →
  confined keeps_index (emitWebSocketNotification d s h).
Proof. intros Hw w. split; [|done]. apply log_keeps_same, Hw. Qed.
#[local] Hint Resolve findOrCreate_index prune_index refresh_index detach_index attach_index remove_index
  updateForUser_index record_index send_index set_status_index : confined.

Lemma claim_index fuel u t pl : confined keeps_index (claim_loop fuel u t pl).
Proof. induction fuel as [|fuel IH]; cbn [claim_loop]; auto 12 with confined. Qed.
Lemma dispatch_index i : confined keeps_index (dispatch i).
Proof. unfold dispatch, attempt. auto 20 with confined. Qed.
#[local] Hint Resolve claim_index dispatch_index : confined.

Lemma notify_index d s : confined keeps_index (notifyDeliveryTransition d s).
Proof. unfold notifyDeliveryTransition. auto 12 with confined. Qed.
#[local] Hint Resolve notify_index : confined.

Lemma perform_index o : (∀ d s h w, preferences (websocketNotifier d s h w).2 = preferences w) →
  confined keeps_index (perform o).
Proof.
  intros Hw. pose proof (λ d s h, websocket_index d s h (Hw d s h)).
  destruct o; cbn [perform];
    unfold notifyMerchantOnboarded, handleDeliveryStatusUpdated, getPreferences, updatePreferences,
      registerDevice, registerDevice_, unregisterDevice, assertValidUserId; auto 40 with confined.
Qed.

(** Whatever interleaves, the index holds. *)
Lemma interleaved_index (ops : list NotesOp) (sched : list nat) w :
  (∀ d s h v, preferences (websocketNotifier d s h v).2 = preferences v) →
  index_ok w → index_ok (interleave sched (perform <$> ops) w).2.
Proof.
  intros Hw. change (keeps_index w (interleave sched (perform <$> ops) w).2).
  apply (safe_interleave keeps_index (λ _ _ _, True) sched (perform <$> ops) w).
  intros i p Hp. apply list_lookup_fmap_Some_1 in Hp as (o & -> & _).
  apply (confined_safe keeps_index keeps_index); [by apply perform_index|done].
Qed.
Lemma index_one_owner w u1 p1 u2 p2 t : index_ok w →
  preferences w !! u1 = Some p1 → preferences w !! u2 = Some p2 →
  owns t p1 = true → owns t p2 = true → u1 = u2.
Proof.
  intros Hi H1 H2 Ht1 Ht2. destruct (decide (u1 = u2)) as [|Hne]; [done|].
  specialize (Hi u1 p1 u2 p2 H1 H2 Hne). apply pref_clash_false in Hi as [Hc _].
  by rewrite (Hc t Ht1) in Ht2.
Qed.

(** ** Registering a device, alone *)
Section Shrinking.
Hypothesis plain_index : EMPTY_DEVICES_INDEXED = false.

(** Documents whose tokens are among those of a stored one fit its place. *)
Lemma smaller_fits u p q w : index_ok w → preferences w !! u = Some p →
  (∀ t, owns t q = true → owns t p = true) → pref_conflicts u q (preferences w) = false.
Proof.
  intros Hi Hp Hq. apply pref_conflicts_false. intros k r Hk Hne. apply pref_clash_false.
  destruct (proj1 (pref_clash_false _ _) (Hi u p k r Hp Hk (not_eq_sym Hne))) as [Hc _].
  split; [by intros t Ht; apply Hc, Hq|]. by rewrite plain_index.
Qed.

Lemma owns_drop t l p now : owns t (with_devices (drop_tokens l p) now p) = owns t p && negb (includes t l).
Proof.
  apply eq_true_iff_eq. rewrite andb_true_iff, !owns_true, negb_true_iff. cbn. unfold drop_tokens.
  rewrite !list_elem_of_fmap. setoid_rewrite list_elem_of_In. setoid_rewrite List.filter_In.
  setoid_rewrite negb_true_iff. split.
  - intros (d & -> & Hd & Hn). split; [by exists d|done].
  - intros [(d & -> & Hd) Hn]. by exists d.
Qed.

Definition pulled (l : list string) (now : Z) (p : NotificationPreference) : NotificationPreference :=
  with_devices (drop_tokens l p) now p.

Lemma pull_from_spec l us w : index_ok w → NoDup us → (∀ u, u ∈ us → is_Some (preferences w !! u)) →
  ∃ m, pull_from l us w = (inr (length us), with_preferences m w)
    ∧ index_ok (with_preferences m w)
    ∧ ∀ k, m !! k = (if decide (k ∈ us) then pulled l (nt_now w) else id) <$> preferences w !! k.
Proof.
  intros Hi Hnd. revert w Hi. induction Hnd as [|u us Hu Hnd IH]; intros w Hi Hus; cbn.
  { exists (preferences w). split; [by destruct w|]. split; [by destruct w|]. intros k.
    by destruct (preferences w !! k). }
  destruct (Hus u) as [p Hp]; [by left|]. rewrite Hp. unfold commit at 1.
  assert (pref_conflicts u (pulled l (nt_now w) p) (preferences w) = false) as Hc.
  { eapply smaller_fits; [done..|]. intros t. unfold pulled. rewrite owns_drop. by intros [? _]%andb_true_iff. }
  unfold pulled in Hc. rewrite Hc.
  destruct (IH (with_preferences (<[u := pulled l (nt_now w) p]> (preferences w)) w)) as (m & Hm & Him & Hk).
  { by apply index_ok_insert. }
  { intros k Hin. cbn. destruct (decide (u = k)) as [<-|]; [by rewrite lookup_insert_eq|].
    rewrite lookup_insert_ne by done. apply Hus. by right. }
  unfold pulled in Hm at 1. rewrite Hm. exists m. split; [done|]. split; [done|].
  intros k. rewrite Hk. cbn. destruct (decide (u = k)) as [<-|Hne].
  - rewrite lookup_insert_eq, Hp, decide_False, decide_True by (by left || done). done.
  - rewrite lookup_insert_ne by done.
    destruct (decide (k ∈ us)) as [Hin|Hn]; [by rewrite decide_True by (by right)|].
    rewrite decide_False; [done|]. by intros [->|?]%elem_of_cons.
Qed.

Lemma elem_of_owners Q w k : k ∈ owners Q w ↔ ∃ p, preferences w !! k = Some p ∧ Q k p = true.
Proof.
  unfold owners. rewrite list_elem_of_fmap. setoid_rewrite list_elem_of_In.
  setoid_rewrite List.filter_In. setoid_rewrite <- list_elem_of_In. split.
  - intros ([k' p] & -> & Hk%elem_of_map_to_list & HP). by exists p.
  - intros (p & Hk & HP). exists (k, p). by rewrite elem_of_map_to_list.
Qed.
Lemma owners_NoDup Q w : NoDup (owners Q w).
Proof.
  unfold owners. apply (sublist_NoDup _ (map_to_list (preferences w)).*1).
  - apply NoDup_fst_map_to_list.
  - apply fmap_filter_sublist.
Qed.

Lemma refresh_tokens t pl now l : dev_token <$> refresh t pl now l = dev_token <$> l.
Proof.
  induction l as [|d l IH]; cbn; [done|]. destruct (String.eqb_spec (dev_token d) t) as [<-|]; cbn; [done|].
  by rewrite IH.
Qed.
Lemma refresh_others t pl now l :
  List.filter (λ d, negb (includes (dev_token d) [t])) (refresh t pl now l)
  = List.filter (λ d, negb (includes (dev_token d) [t])) l.
Proof.
  induction l as [|d l IH]; cbn; [done|].
  destruct (String.eqb_spec (dev_token d) t) as [->|Hne]; cbn [List.filter dev_token].
  - assert (includes t [t] = true) as -> by (apply includes_true; by left). done.
  - by rewrite IH.
Qed.

(** What a registration leaves behind. *)
Record registered (u t : string) (pl : platform) (w w' : Notes) (p : NotificationPreference) : Prop := {
  rg_stored : preferences w' !! u = Some p;
  rg_device : mkDevice t pl (nt_now w) ∈ devices p;
  rg_others : drop_tokens [t] p = drop_tokens [t] (current u w);
  rg_settings : pushEnabled p = pushEnabled (current u w) ∧ enabledEvents p = enabledEvents (current u w);
  rg_users k : k ≠ u → preferences w' !! k
    = (λ q, if owns t q then pulled [t] (nt_now w) q else q) <$> preferences w !! k;
  rg_rest : nt_base w' = nt_base w ∧ notifications w' = notifications w ∧ provider w' = provider w
}.

Lemma refresh_device t pl now l : t ∈ dev_token <$> l → mkDevice t pl now ∈ refresh t pl now l.
Proof.
  induction l as [|d l IH]; cbn; [by intros ?%not_elem_of_nil|].
  destruct (String.eqb_spec (dev_token d) t) as [|Hne]; [by left|].
  intros [->|Ht]%elem_of_cons; [done|]. right. by apply IH.
Qed.

Lemma drop_tokens_app t l1 l2 :
  List.filter (λ d, negb (includes (dev_token d) [t])) (l1 ++ l2)
  = List.filter (λ d, negb (includes (dev_token d) [t])) l1 ++ List.filter (λ d, negb (includes (dev_token d) [t])) l2.
Proof. apply List.filter_app. Qed.

Lemma refreshed_registered u t pl w p : index_ok w → preferences w !! u = Some p → owns t p = true →
  let q := with_devices (refresh t pl (nt_now w) (devices p)) (nt_now w) p in
  pref_conflicts u q (preferences w) = false
  ∧ registered u t pl w (with_preferences (<[u := q]> (preferences w)) w) q.
Proof.
  intros Hi Hp Ht q. assert (current u w = p) as Hcur by (unfold current; by rewrite Hp). split.
  { eapply smaller_fits; [done..|]. intros t' Ht'. apply owns_true. apply owns_true in Ht'.
    cbn in Ht'. by rewrite refresh_tokens in Ht'. }
  split; cbn; try done.
  - by rewrite lookup_insert_eq.
  - apply refresh_device. by apply owns_true.
  - rewrite Hcur. apply refresh_others.
  - by rewrite Hcur.
  - intros k Hk. rewrite lookup_insert_ne by done. destruct (preferences w !! k) as [r|] eqn:Hr; [|done]. cbn.
    destruct (proj1 (pref_clash_false _ _) (Hi u p k r Hp Hr (not_eq_sym Hk))) as [Hc _].
    by rewrite (Hc t Ht).
Qed.

Lemma attached_registered u t pl w m : index_ok w → index_ok (with_preferences m w) →
  (∀ p, preferences w !! u = Some p → owns t p = false) →
  (∀ k, m !! k = (if decide (k ∈ owners (λ k p, negb (String.eqb k u) && owns t p) w)
                  then pulled [t] (nt_now w) else id) <$> preferences w !! k) →
  let p := current u w in
  let q := with_devices (devices p ++ [mkDevice t pl (nt_now w)]) (nt_now w) p in
  current u (with_preferences m w) = p
  ∧ pref_conflicts u q m = false
  ∧ registered u t pl w (with_preferences (<[u := q]> m) w) q.
Proof.
  intros Hi Him Hu Hm p q.
  assert (∀ k, k ≠ u → m !! k = (λ q, if owns t q then pulled [t] (nt_now w) q else q) <$> preferences w !! k) as Hk.
  { intros k Hne. rewrite Hm. destruct (preferences w !! k) as [r|] eqn:Hr; [|done]. cbn. f_equal.
    apply String.eqb_neq in Hne. case_decide as Hd.
    - apply elem_of_owners in Hd as (r' & Hr' & [_ Ho]%andb_true_iff). simplify_eq. by rewrite Ho.
    - destruct (owns t r) eqn:Ho; [|done]. destruct Hd. apply elem_of_owners. exists r.
      by rewrite Hne, Ho. }
  assert (m !! u = preferences w !! u) as Hmu.
  { rewrite Hm, decide_False; [by destruct (preferences w !! u)|].
    intros (r & _ & Hf)%elem_of_owners. by rewrite String.eqb_refl in Hf. }
  assert (current u (with_preferences m w) = p) as Hcur by (unfold current; cbn; by rewrite Hmu).
  split; [done|]. split.
  - apply pref_conflicts_false. intros k r Hr Hne. apply pref_clash_false.
    split; [|by rewrite plain_index]. intros t' Ht'%owns_true. cbn in Ht'.
    rewrite fmap_app, elem_of_app in Ht'. destruct Ht' as [Ht'|Ht'].
    + unfold p, current in Ht'. destruct (preferences w !! u) as [p0|] eqn:Hp0; [|by apply not_elem_of_nil in Ht'].
      cbn in Ht'. apply owns_true in Ht'.
      destruct (proj1 (pref_clash_false _ _) (Him u p0 k r Hmu Hr (not_eq_sym Hne))) as [Hc _]. by apply Hc.
    + apply list_elem_of_singleton in Ht' as ->. rewrite Hk in Hr by done.
      destruct (preferences w !! k) as [r0|]; [|done]. cbn in Hr. injection Hr as <-.
      cbn [dev_token]. destruct (owns t r0) eqn:Ho; [|done]. unfold pulled. rewrite owns_drop, Ho. cbn.
      by rewrite (proj2 (includes_true t [t])) by (by left).
  - split; cbn; try done.
    + by rewrite lookup_insert_eq.
    + apply elem_of_app. right. by left.
    + unfold drop_tokens. cbn. rewrite drop_tokens_app. cbn.
      rewrite (proj2 (includes_true t [t])) by (by left). by rewrite app_nil_r.
    + intros k Hne. rewrite lookup_insert_ne by done. by apply Hk.
Qed.

Lemma run_claim_fresh fuel u t pl w : index_ok w →
  (∀ p, preferences w !! u = Some p → owns t p = false) →
  ∃ p w', run (claim_loop (S fuel) u t pl) w = (inr p, w') ∧ registered u t pl w w' p.
Proof.
  intros Hi Hu. cbn [claim_loop]. rewrite run_bind, run_atomic_try.
  assert (refresh_op u t pl w = (inr None, w)) as ->.
  { unfold refresh_op. destruct (preferences w !! u) as [p|]; [|done]. by rewrite (Hu p eq_refl). }
  cbn [fst snd]. rewrite run_bind, run_atomic_try. unfold detach_op.
  set (os := owners _ w).
  destruct (pull_from_spec [t] os w Hi (owners_NoDup _ _)) as (m & -> & Him & Hm).
  { intros k (p & Hk & _)%elem_of_owners. by exists p. }
  cbn [fst snd]. destruct (attached_registered u t pl w m Hi Him Hu Hm) as (Hcur & Hc & Hr).
  rewrite run_bind, run_outcome_of, run_atomic_try. unfold attach_op. rewrite Hcur. unfold commit.
  change (preferences (with_preferences m w)) with m. change (nt_now (with_preferences m w)) with (nt_now w).
  rewrite Hc. cbn [fst snd]. rewrite run_ret. by eexists _, _.
Qed.
End Shrinking.

(** Registering a device, alone: a malformed user is refused with 400, and
    otherwise the call succeeds at the first claim.  Afterwards the token is
    among the user's devices with its platform and the time, it is nobody
    else's, and nothing else changed: the user's other devices and settings,
    the other users' remaining devices, the log and the database. *)
Theorem registerDevice_correct u t pl w :
  EMPTY_DEVICES_INDEXED = false → index_ok w →
  if isValidObjectId u
  then ∃ p w', run (registerDevice u t pl) w = (inr p, w') ∧ registered u t pl w w' p
  else run (registerDevice u t pl) w = (inl (AppError "Invalid user ID" Http.BAD_REQUEST), w).
Proof.
  intros He Hi. unfold registerDevice, assertValidUserId. destruct (isValidObjectId u); [|done].
  rewrite run_bind. cbn [throw_if negb]. rewrite run_ret. cbn [fst snd].
  unfold registerDevice_, MAX_CLAIM_ATTEMPTS.
  destruct (preferences w !! u) as [p|] eqn:Hp; [destruct (owns t p) eqn:Ho|].
  - destruct (refreshed_registered He u t pl w p Hi Hp Ho) as [Hc Hr]. cbn [claim_loop].
    rewrite run_bind, run_atomic_try.
    unfold refresh_op. rewrite Hp, Ho. unfold commit. rewrite Hc. cbn [fst snd]. rewrite run_ret.
    by eexists _, _.
  - apply run_claim_fresh; [done..|]. intros q Hq. by rewrite Hp in Hq; injection Hq as <-.
  - apply run_claim_fresh; [done..|]. intros q Hq. by rewrite Hp in Hq.
Qed.


(** ** What a dispatch does *)

(** Preferences keep their settings and only lose devices. *)
Record shrinks (w w' : Notes) : Prop := {
  sh_base : nt_base w' = nt_base w;
  sh_prefs k p : preferences w !! k = Some p → ∃ p', preferences w' !! k = Some p'
    ∧ pushEnabled p' = pushEnabled p ∧ enabledEvents p' = enabledEvents p
    ∧ sublist (devices p') (devices p)
}.
#[export] Instance shrinks_preorder : PreOrder shrinks.
Proof.
  split; [by intros w; split; [|intros k p Hp; exists p]|].
  intros w1 w2 w3 [B1 P1] [B2 P2]. split; [by etrans|]. intros k p Hp.
  destruct (P1 k p Hp) as (p' & Hp' & E1 & E2 & S1). destruct (P2 k p' Hp') as (p'' & ? & ? & ? & ?).
  exists p''. split_and!; [done|congruence..|by etrans].
Qed.

Definition quiet (w w' : Notes) : Prop := shrinks w w' ∧ notifications w' = notifications w.
#[export] Instance quiet_preorder : PreOrder quiet.
Proof.
  split; [by intros w; split|]. intros w1 w2 w3 [S1 L1] [S2 L2]. split; [by etrans|congruence].
Qed.

Lemma same_prefs_shrinks w w' : nt_base w' = nt_base w → preferences w' = preferences w → shrinks w w'.
Proof. intros Hb Hp. split; [done|]. intros k p Hk. exists p. by rewrite Hp. Qed.

Lemma commit_shrinks u p q w : preferences w !! u = Some p → pushEnabled q = pushEnabled p →
  enabledEvents q = enabledEvents p → sublist (devices q) (devices p) → quiet w (commit u q w).2.
Proof.
  intros Hp H1 H2 H3. unfold commit. destruct pref_conflicts; [done|]. split; [|done]. split; [done|].
  intros k r Hk. cbn. destruct (decide (u = k)) as [<-|].
  - exists q. rewrite lookup_insert_eq. by simplify_eq.
  - exists r. by rewrite lookup_insert_ne.
Qed.

Lemma pull_shrinks l us w : quiet w (pull_from l us w).2.
Proof.
  revert w. induction us as [|u us IH]; intros w; cbn; [done|].
  destruct (preferences w !! u) as [p|] eqn:Hp; [|apply IH].
  assert (quiet w (commit u (with_devices (drop_tokens l p) (nt_now w) p) w).2) as Hc.
  { eapply commit_shrinks; [done..|]. cbn. unfold drop_tokens.
    pose proof (fmap_filter_sublist id (λ d, negb (includes (dev_token d) l)) (devices p)) as Hf.
    by rewrite !list_fmap_id in Hf. }
  destruct commit as [[e|q] w1]; [done|]. specialize (IH w1). cbn [snd] in *.
  destruct pull_from as [[] w2]; cbn [snd] in *; by etrans.
Qed.

Lemma findOrCreate_found u w : isValidObjectId u = true → ∀ p, preferences w !! u = Some p →
  run (findOrCreateByUserId u) w = (inr p, w).
Proof. intros Hu p Hp. unfold findOrCreateByUserId. rewrite Hu. cbn [negb]. by rewrite run_atomic_try, Hp. Qed.

Lemma findOrCreate_quiet u : confined quiet (findOrCreateByUserId u).
Proof.
  unfold findOrCreateByUserId. destruct (negb _); [done|]. intros w. split; [|done].
  destruct (preferences w !! u) as [p|] eqn:Hp; [done|].
  unfold commit. destruct pref_conflicts; [done|]. split; [|done]. split; [done|].
  intros k q Hk. exists q. cbn. rewrite lookup_insert_ne by (by intros ->; simplify_eq). done.
Qed.

Lemma attempt_quiet i : confined quiet (attempt i).
Proof.
  unfold attempt. apply confined_bind; [apply findOrCreate_quiet|]. intros p.
  destruct suppressionReason; [done|]. apply confined_bind.
  { intros w. split; [|done]. cbn. destruct push_send. split; [by apply same_prefs_shrinks|done]. }
  intros r. apply confined_bind; [|done]. case_bool_decide; [done|]. unfold pruneTokens.
  case_bool_decide; [done|]. intros w. split; [apply pull_shrinks|done].
Qed.

(** What is recorded for a user who has preferences. *)
Definition recorded (i : DispatchInput) (p : NotificationPreference) (n : Notification) : Prop :=
  match suppressionReason p (di_event i) with
  | Some reason =>
      n_status n = NotificationStatus.SKIPPED ∧ n_failureReason n = Some reason
      ∧ n_acceptedCount n = 0 ∧ n_rejectedCount n = 0
  | None =>
      (n_status n = NotificationStatus.SENT ↔ 0 < n_acceptedCount n)
      ∧ n_acceptedCount n + n_rejectedCount n ≤ length (devices p)
  end.

Context `{PO : !IPushProviderOk}.

Lemma attempt_outcome i w p r w' :
  isValidObjectId (di_userId i) = true → preferences w !! di_userId i = Some p →
  run (attempt i) w = (r, w') →
  match r with
  | inr (st, res) => ∀ t, recorded i p (notification_of i st res t)
  | inl _ => suppressionReason p (di_event i) = None
  end.
Proof.
  intros Hu Hp. unfold attempt. rewrite run_bind, (findOrCreate_found _ _ Hu p Hp). cbn [fst snd].
  unfold recorded. destruct suppressionReason as [reason|]; [by intros [= <- <-]|].
  unfold send. rewrite run_bind, run_atomic_try.
  set (m := mkPushMessage _ _ _ _).
  destruct (push_send m (nt_now w) (provider w)) as [res pr] eqn:Hs. cbn [fst snd].
  destruct res as [e|res]; [by intros [= <- <-]|].
  rewrite run_bind. destruct (run _ _) as [[e|k] w2]; [by intros [= <- <-]|]. cbn [fst snd].
  rewrite run_ret. intros [= <- <-] t. cbn [notification_of n_status n_acceptedCount n_rejectedCount].
  apply push_accounts in Hs as [Ht _ _ _]. cbn in Ht. rewrite length_fmap in Ht. split; [|lia].
  destruct (Nat.ltb_spec 0 (acceptedCount res)); split; intros ?; done || lia.
Qed.

Lemma dispatch_outcome i w : (∀ n v, insert_fails n v = None) → isValidObjectId (di_userId i) = true →
  ∃ n w', run (dispatch i) w = (inr (Some n), w') ∧ shrinks w w'
    ∧ notifications w' = notifications w ++ [n] ∧ n_user n = di_userId i
    ∧ ∀ p, preferences w !! di_userId i = Some p → recorded i p n.
Proof.
  intros Hlog Hu. unfold dispatch. rewrite run_bind, run_outcome_of. cbn [fst snd].
  pose proof (confined_run quiet (attempt i) w (attempt_quiet i)) as [Hsh Hl].
  pose proof (λ p, attempt_outcome i w p (run (attempt i) w).1 (run (attempt i) w).2 Hu) as Ho.
  destruct (run (attempt i) w) as [r w1]. cbn [fst snd] in *.
  assert (∀ st res, ∃ w', run (record i st res) w1 = (inr (notification_of i st res (nt_now w1)), w')
    ∧ shrinks w1 w' ∧ notifications w' = notifications w1 ++ [notification_of i st res (nt_now w1)]) as Hrec.
  { intros st res. eexists. unfold record. rewrite run_atomic_try. cbv zeta. rewrite Hlog.
    split; [done|]. split; [by apply same_prefs_shrinks|done]. }
  destruct r as [e|[st res]].
  - destruct (Hrec NotificationStatus.FAILED (nothing_sent (error_message e))) as (w' & Hr & Hs & Hn).
    rewrite run_try_catch, run_bind, Hr. cbn [fst snd]. rewrite run_ret. eexists _, w'.
    split; [done|]. split; [by etrans|]. split; [by rewrite Hn, Hl|]. split; [done|].
    intros p Hp. unfold recorded. rewrite (Ho p Hp eq_refl). cbn. split; [|lia]. split; [done|lia].
  - destruct (Hrec st res) as (w' & Hr & Hs & Hn).
    rewrite run_bind, Hr. cbn [fst snd]. rewrite run_ret. eexists _, w'.
    split; [done|]. split; [by etrans|]. split; [by rewrite Hn, Hl|]. split; [done|].
    intros p Hp. by apply (Ho p Hp eq_refl).
Qed.

(** A reason found in earlier preferences still holds in shrunk ones. *)
Lemma suppression_stays p p' e reason :
  pushEnabled p' = pushEnabled p → enabledEvents p' = enabledEvents p → sublist (devices p') (devices p) →
  suppressionReason p e = Some reason → suppressionReason p' e = Some reason.
Proof.
  intros H1 H2 H3. unfold suppressionReason. rewrite H1, H2.
  destruct (negb (pushEnabled p)); [done|]. destruct (negb (includes e _)); [done|].
  case_bool_decide as Hd; [|done]. rewrite Hd in H3. apply sublist_nil_r in H3. by rewrite H3.
Qed.

(** What is said of a record in terms of the preferences before the fan-out. *)
Definition respects (e : NotificationEvent.t) (p : NotificationPreference) (n : Notification) : Prop :=
  n_acceptedCount n + n_rejectedCount n ≤ length (devices p)
  ∧ ∀ reason, suppressionReason p e = Some reason →
      n_status n = NotificationStatus.SKIPPED ∧ n_acceptedCount n = 0 ∧ n_failureReason n = Some reason.

Lemma recorded_respects i w w1 p n : shrinks w w1 →
  (∀ q, preferences w1 !! di_userId i = Some q → recorded i q n) →
  preferences w !! di_userId i = Some p → respects (di_event i) p n.
Proof.
  intros Hsh Hr Hp. destruct (sh_prefs _ _ Hsh _ _ Hp) as (q & Hq & H1 & H2 & H3).
  specialize (Hr q Hq). unfold recorded in Hr. pose proof (sublist_length _ _ H3). split.
  - destruct suppressionReason; [destruct Hr as (_ & _ & -> & ->); lia|lia].
  - intros reason Hs. rewrite (suppression_stays _ _ _ _ H1 H2 H3 Hs) in Hr.
    destruct Hr as (? & ? & ? & _). done.
Qed.

Lemma fan_out (f : string → DispatchInput) e l w : (∀ n v, insert_fails n v = None) →
  (∀ u, di_userId (f u) = u ∧ di_event (f u) = e) → Forall (λ u, isValidObjectId u = true) l →
  ∃ recs w', run (promise_map (λ u, dispatch (f u)) l) w = (inr (Some <$> recs), w')
    ∧ shrinks w w' ∧ notifications w' = notifications w ++ recs ∧ n_user <$> recs = l
    ∧ ∀ n p, n ∈ recs → preferences w !! n_user n = Some p → respects e p n.
Proof.
  intros Hlog Hf Hl. revert w. induction Hl as [|u l Hu _ IH]; intros w.
  { exists [], w. cbn. rewrite app_nil_r. split_and!; try done. by intros n p ?%not_elem_of_nil. }
  destruct (Hf u) as [Hfu Hfe].
  destruct (dispatch_outcome (f u) w Hlog) as (n & w1 & Hd & Hs1 & Hn1 & Hun & Hr); [by rewrite Hfu|].
  destruct (IH w1) as (recs & w' & Hrest & Hs2 & Hn2 & Hul & Hrs).
  exists (n :: recs), w'. split_and!.
  - cbn [promise_map]. rewrite run_bind, run_outcome_of, Hd. cbn [fst snd].
    rewrite run_bind, run_outcome_of, Hrest. done.
  - by etrans.
  - by rewrite Hn2, Hn1, <- app_assoc.
  - cbn. congruence.
  - intros n' p [->|Hin]%elem_of_cons Hp.
    + rewrite <- Hfe. apply (recorded_respects (f u) w w p n); [done|done|by rewrite Hfu, <- Hfu, <- Hun].
    + destruct (sh_prefs _ _ Hs1 _ _ Hp) as (q & Hq & H1 & H2 & H3).
      destruct (Hrs n' q Hin Hq) as [Hc Hsup]. pose proof (sublist_length _ _ H3). split; [lia|].
      intros reason Hre. apply Hsup. by eapply suppression_stays.
Qed.

(** *** The recipients: valid, each once *)
Lemma unique_spec (l acc : list string) : NoDup acc →
  NoDup (foldl (λ acc x, if includes x acc then acc else acc ++ [x]) acc l)
  ∧ ∀ x, x ∈ foldl (λ acc x, if includes x acc then acc else acc ++ [x]) acc l ↔ x ∈ acc ∨ x ∈ l.
Proof.
  revert acc. induction l as [|y l IH]; intros acc Ha; cbn.
  { split; [done|]. intros x. rewrite elem_of_nil. tauto. }
  destruct (includes y acc) eqn:Hy.
  - destruct (IH acc Ha) as [Hn Hx]. split; [done|]. intros x. rewrite Hx, elem_of_cons.
    apply includes_true in Hy. split; [tauto|]. intros [?|[->|?]]; tauto.
  - destruct (IH (acc ++ [y])) as [Hn Hx].
    { apply NoDup_app. split; [done|]. split; [|apply NoDup_singleton].
      intros x Hin ->%list_elem_of_singleton. apply includes_true in Hin. congruence. }
    split; [done|]. intros x. rewrite Hx, elem_of_app, list_elem_of_singleton, elem_of_cons. tauto.
Qed.

Lemma resolveRecipients_spec d :
  NoDup (resolveRecipients d) ∧ Forall (λ u, isValidObjectId u = true) (resolveRecipients d)
  ∧ ∀ u, u ∈ resolveRecipients d ↔
      isValidObjectId u = true ∧ u ≠ "" ∧ (sender d = Some u ∨ userId d = Some u ∨ driverId d = Some u).
Proof.
  unfold resolveRecipients, unique.
  destruct (unique_spec (List.filter isValidObjectId (List.filter Str.truthy
    (omap (λ x : option string, x) [sender d; userId d; driverId d]))) [] (NoDup_nil_2)) as [Hn Hx].
  split; [done|].
  assert (∀ u, u ∈ foldl (λ acc x, if includes x acc then acc else acc ++ [x]) []
      (List.filter isValidObjectId (List.filter Str.truthy (omap (λ x : option string, x) [sender d; userId d; driverId d])))
    ↔ isValidObjectId u = true ∧ u ≠ "" ∧ (sender d = Some u ∨ userId d = Some u ∨ driverId d = Some u)) as Hu.
  { intros u. rewrite Hx, elem_of_nil, list_elem_of_In, !List.filter_In, <- list_elem_of_In, Str.truthy_spec,
      list_elem_of_omap. split.
    - intros [[]|[[(o & Ho & Hou) Ht] Hv]]. subst o. split; [done|]. split; [done|].
      rewrite !elem_of_cons, elem_of_nil in Ho. destruct Ho as [<-|[<-|[<-|[]]]]; tauto.
    - intros (Hv & Ht & Ho). right. split; [|done]. split; [|done]. exists (Some u). split; [|done].
      rewrite !elem_of_cons. destruct Ho as [<-|[<-|<-]]; tauto. }
  split; [|done]. apply Forall_forall. by intros u (? & _)%Hu.
Qed.

(** Notifying the parties of a delivery never fails while the log can be
    written: it appends exactly one record for each of the distinct valid users
    among sender, user and driver - none for a status without an event - and
    returns them.  A user who has opted out, or has no device, is recorded as
    skipped with the reason; otherwise at most the user's devices are counted.
    Deliveries and the rest of the database are not touched. *)
Theorem notifyDeliveryTransition_correct d s w : (∀ n v, insert_fails n v = None) →
  ∃ recs w', run (notifyDeliveryTransition d s) w = (inr recs, w')
    ∧ nt_base w' = nt_base w ∧ notifications w' = notifications w ++ recs
    ∧ NoDup (n_user <$> recs)
    ∧ match STATUS_EVENTS s with
      | None => recs = []
      | Some e =>
          (∀ u, u ∈ n_user <$> recs ↔ isValidObjectId u = true ∧ u ≠ "" ∧
             (sender (body d) = Some u ∨ userId (body d) = Some u ∨ driverId (body d) = Some u))
          ∧ ∀ n p, n ∈ recs → preferences w !! n_user n = Some p → respects e p n
      end.
Proof.
  intros Hlog. unfold notifyDeliveryTransition. destruct (STATUS_EVENTS s) as [e|].
  2:{ exists [], w. rewrite run_ret, app_nil_r. split_and!; try done. apply NoDup_nil_2. }
  destruct (resolveRecipients_spec (body d)) as (Hn & Hv & Hu).
  destruct (fan_out (delivery_dispatch d s e) e (resolveRecipients (body d)) w Hlog) as
    (recs & w' & Hrun & Hsh & Hlg & Hus & Hr); [done|done|].
  exists recs, w'. split; [|by rewrite Hus; split_and!; [apply Hsh|..]].
  destruct (resolveRecipients (body d)) as [|u l] eqn:Hre.
  - apply fmap_nil_inv in Hus as ->. cbn in Hrun. injection Hrun as <-. done.
  - rewrite run_bind, Hrun. cbn [fst snd]. rewrite run_ret. f_equal. f_equal.
    clear. induction recs as [|n recs IH]; cbn; [done|]. by rewrite IH.
Qed.
End Notifications.

(** ** Examples *)
Module NotificationExamples.
Import ExampleEnv.

(** Firebase with an account that accepts every message but those to "gone". *)
#[export] Instance google : Google := {|
  FCM_PROJECT_ID := "p"; FCM_CLIENT_EMAIL := "svc@p"; FCM_PRIVATE_KEY := "k";
  GState := unit;
  exchange _ g := (inr ("access", 3600%Z), g);
  post_message _ t _ g :=
    (if String.eqb t "gone" then inl (mkRejection [Some "UNREGISTERED"] None) else inr tt, g)
|}.

(** A log that fails when told to, an index on or off for empty arrays. *)
Definition env_of (fails indexed : bool) : NotificationEnv (H := fcm_provider) := {|
  insert_fails _ _ := if fails then Some (PlainError "disk full") else None;
  EMPTY_DEVICES_INDEXED := indexed;
  websocketNotifier _ _ _ w := (None, w)
|}.
#[export] Instance plain_env : NotificationEnv := env_of false false.

Definition alice : string := "64b7f0c2a1d3e4f50000000a".
Definition bob : string := "64b7f0c2a1d3e4f50000000b".
Definition did : string := "64b7f0c2a1d3e4f500000001".
Definition phone : DeviceToken := mkDevice "phone" ios 5.
Definition prefs (on : bool) (l : list DeviceToken) : NotificationPreference :=
  mkPreference on NotificationEvent.values l 5 5.
Definition parcel (s : DeliveryStatus.t) : Delivery :=
  mkDelivery None (Some bob) None None (Some alice) None None (Some "TRK-1") JNull JNull JNull JNull
    None None None None None None None s None None None None false None None 0 0.
Definition start (m : gmap string NotificationPreference) : Notes :=
  mkNotes (empty_world 1000 <| deliveries := {[ did := parcel DeliveryStatus.COMPLETED ]} |>) m [] (mkFcm None tt).
Definition shared : Notes :=
  start (<[alice := prefs true [phone; mkDevice "gone" web 5]]> {[ bob := prefs false [] ]}).

Lemma shared_ok : index_ok shared.
Proof.
  intros u1 p1 u2 p2 H1 H2 Hne. cbn in H1, H2.
  destruct (decide (u1 = alice)) as [->|]; destruct (decide (u2 = alice)) as [->|]; [done| | |].
  - rewrite lookup_insert_eq in H1. rewrite lookup_insert_ne in H2 by done.
    apply lookup_singleton_Some in H2 as [<- <-]. injection H1 as <-. vm_compute. reflexivity.
  - rewrite lookup_insert_eq in H2. rewrite lookup_insert_ne in H1 by done.
    apply lookup_singleton_Some in H1 as [<- <-]. injection H2 as <-. vm_compute. reflexivity.
  - rewrite lookup_insert_ne in H1, H2 by done.
    apply lookup_singleton_Some in H1 as [<- _]. by apply lookup_singleton_Some in H2 as [<- _].
Qed.

(** The sender's two devices, one of them gone for good; the driver opted out. *)
Lemma notifyDeliveryTransition_correct_witness :
  (∀ n v, insert_fails n v = None)
  ∧ (λ n, (n_user n, n_status n, n_acceptedCount n, n_rejectedCount n)) <$>
      notifications (run (notifyDeliveryTransition (Doc did (parcel DeliveryStatus.COMPLETED))
        DeliveryStatus.COMPLETED) shared).2
    = [(alice, NotificationStatus.SENT, 1, 1); (bob, NotificationStatus.SKIPPED, 0, 0)]
  ∧ ∃ recs w', run (notifyDeliveryTransition (Doc did (parcel DeliveryStatus.COMPLETED))
        DeliveryStatus.COMPLETED) shared = (inr recs, w') ∧ nt_base w' = nt_base shared.
Proof.
  assert (∀ n v, insert_fails n v = None) as Hlog by done.
  split; [exact Hlog|]. split; [vm_compute; reflexivity|].
  destruct (notifyDeliveryTransition_correct (Doc did (parcel DeliveryStatus.COMPLETED))
    DeliveryStatus.COMPLETED shared Hlog) as (recs & w' & Hr & Hb & _).
  exact (ex_intro _ recs (ex_intro _ w' (conj Hr Hb))).
Defined.

(** The driver's phone was the sender's: it changes hands. *)
Lemma registerDevice_correct_witness :
  EMPTY_DEVICES_INDEXED = false ∧ index_ok shared
  ∧ ∃ p w', run (registerDevice bob "phone" ios) shared = (inr p, w') ∧ registered bob "phone" ios shared w' p.
Proof.
  split; [reflexivity|]. split; [exact shared_ok|].
  exact (registerDevice_correct bob "phone" ios shared eq_refl shared_ok).
Defined.


(** Two registrations of one token by one user race: neither finds it, both
    append it, and the index does not compare a document with itself. *)
Example double_registration :
  (λ p, dev_token <$> devices p) <$>
    (preferences (interleave [0; 1; 0; 1; 0; 1]
       (perform <$> [op_register bob "watch" ios; op_register bob "watch" ios]) shared).2 !! bob)
  = Some ["watch"; "watch"].
Proof. vm_compute. reflexivity. Qed.

(** A log that cannot be written fails the caller's transition. *)
Example log_failure_propagates :
  (run (notifyDeliveryTransition (N := env_of true false) (Doc did (parcel DeliveryStatus.COMPLETED))
     DeliveryStatus.COMPLETED) shared).1 = inl (PlainError "disk full").
Proof. vm_compute. reflexivity. Qed.

(** With the entry of empty arrays in the index, a second user without devices
    cannot be given preferences. *)
Example second_user_without_devices :
  (run (getPreferences (N := env_of false true) alice) (start {[ bob := prefs true [] ]})).1
  = inl DuplicateKey.
Proof. vm_compute. reflexivity. Qed.

(** The contract's event moves a completed delivery back to pending. *)
Example status_event_ignores_the_machine :
  let r := run (handleDeliveryStatusUpdated (mkStatusEvent did "pending" None)) shared in
  (λ d, status d) <$> (deliveries (nt_base r.2) !! did) = Some DeliveryStatus.PENDING.
Proof. vm_compute. reflexivity. Qed.
End NotificationExamples.
