(* ===== verification/DriverRating.v ===== *)
(** * Driver ratings and reputation
    ([src/src/interfaces/IDriverProfile.ts], [src/src/services/driverRatingService.ts],
     [src/src/indexer/reputationHandlers.ts])

    The 0-5 rating computed from the delivery history, suspensions and their
    lapse, the sweep over all drivers, and the reputation points and tiers set by
    contract events.  One profile per user: the collection is keyed by its
    unique user.  A suspension's reason is kept as its template and values. *)
From S2P Require Import Prelude JsLib NumBounds Models RpcRetry.
From Stdlib Require Import SpecFloat.

(** ** Rules *)
Module ReputationTier.
Inductive t := BRONZE | SILVER | GOLD | PLATINUM.
#[global] Instance eq_dec : EqDecision t.
Proof. solve_decision. Defined.
End ReputationTier.

Definition MAX_RATING : number := Num.of_Z 5.
Definition MIN_RATING : number := Num.zero.
Definition LATE_DELIVERY_PENALTY : number := Num.of_Z 2.
Definition CANCELLATION_PENALTY : number := Num.of_Z 3.
Definition DELAY_GRACE_RATIO : number := Num.div (Num.of_Z 1) (Num.of_Z 10).
Definition SUSPENSION_RATING_THRESHOLD : number := Num.of_Z 2.
Definition SUSPENSION_DURATION_DAYS : Z := 7.
Definition SEVERE_RATING_THRESHOLD : number := Num.of_Z 1.
Definition SEVERE_SUSPENSION_DURATION_DAYS : Z := 30.
Definition MIN_COMPLETED_FOR_PENALTY : Z := 5.

Record DriverRatingMetrics := mkMetrics {
  m_completed : Z;
  m_delayed : Z;
  m_cancelled : Z;
  m_totalAssigned : Z
}.

Definition clampRating (value : number) : number :=
  if negb (Num.eqb value value) then MAX_RATING else js_min MAX_RATING (js_max MIN_RATING value).

(** [Math.round(x * 100) / 100]. *)
Definition round2 (x : number) : number := Num.div (Math.round (Num.mul x (Num.of_Z 100))) (Num.of_Z 100).

Definition ratio (a b : Z) : number := if (0 <? b)%Z then Num.div (Num.of_Z a) (Num.of_Z b) else Num.zero.

Definition computeDriverRating (m : DriverRatingMetrics) : number :=
  let lateRate := ratio (m_delayed m) (m_completed m) in
  let cancellationRate := ratio (m_cancelled m) (m_totalAssigned m) in
  let rating := Num.sub (Num.sub MAX_RATING (Num.mul lateRate LATE_DELIVERY_PENALTY))
                  (Num.mul cancellationRate CANCELLATION_PENALTY) in
  round2 (clampRating rating).

Inductive SuspensionReason := critically_low (rating : number) (days : Z) | below_threshold (rating : number) (days : Z).
Record Suspension := mkSuspension { sp_suspendedUntil : Z; sp_reason : SuspensionReason }.

Definition resolveSuspension (now : Z) (rating : number) (completedDeliveries : Z) : option Suspension :=
  if (completedDeliveries <? MIN_COMPLETED_FOR_PENALTY)%Z then None
  else if Num.leb SUSPENSION_RATING_THRESHOLD rating then None
  else
    let isSevere := Num.leb rating SEVERE_RATING_THRESHOLD in
    let days := if isSevere then SEVERE_SUSPENSION_DURATION_DAYS else SUSPENSION_DURATION_DAYS in
    Some (mkSuspension (now + days * 24 * 60 * 60 * 1000)
            (if isSevere then critically_low rating days else below_threshold rating days)).

Definition computeTier (points : number) : ReputationTier.t :=
  if Num.leb (Num.of_Z 1000) points then ReputationTier.PLATINUM
  else if Num.leb (Num.of_Z 500) points then ReputationTier.GOLD
  else if Num.leb (Num.of_Z 100) points then ReputationTier.SILVER
  else ReputationTier.BRONZE.

(** ** Profiles *)
Record DriverProfile := mkProfile {
  reputationPoints : number;
  tier : ReputationTier.t;
  dp_totalDeliveries : Z;
  dp_completedDeliveries : Z;
  rating : number;
  dp_delayedDeliveries : Z;
  dp_cancelledDeliveries : Z;
  isSuspended : bool;
  suspendedUntil : option Z;
  suspensionReason : option SuspensionReason;
  lastRatingUpdate : option Z
}.

(** The defaults of an upsert. *)
Definition default_profile : DriverProfile :=
  mkProfile Num.zero ReputationTier.BRONZE 0 0 MAX_RATING 0 0 false None None None.

(** The delivery history has a measured duration beside the modelled fields. *)
Record Drivers := mkDrivers {
  dr_base : World;
  actualDuration : gmap string number;
  profiles : gmap string DriverProfile
}.

Section DriverRating.
Context `{Env}.

Abbreviation drivers := (prog Drivers).

Definition dr_now (w : Drivers) : Z := now_ms (dr_base w).
Definition with_profiles (m : gmap string DriverProfile) (w : Drivers) : Drivers :=
  mkDrivers (dr_base w) (actualDuration w) m.
Definition profile_of (u : string) (w : Drivers) : DriverProfile := nullish (profiles w !! u) default_profile.

Definition invalid_driver : error := AppError "Invalid driver ID" Http.BAD_REQUEST.
Definition cast_error : error := PlainError "Cast to ObjectId failed".
Definition validation_error : error := PlainError "Validation failed".

Definition assertValidDriverId (id : string) : drivers unit :=
  throw_if (negb (Str.truthy id) || negb (isValidObjectId id)) invalid_driver.

(** ** The history *)
Record DriverRatingMetricsResult := mkMetricsResult {
  r_metrics : DriverRatingMetrics;
  lateDeliveryRate : number;
  cancellationRate : number
}.

Definition history (id : string) (w : Drivers) : list (hydrated Delivery) :=
  find_all (λ d, bool_decide (driverId d = Some id)) (deliveries (dr_base w)).

Definition graceMultiplier : number := Num.add (Num.of_Z 1) DELAY_GRACE_RATIO.
Definition is_completed (d : hydrated Delivery) : bool := bool_decide (status (body d) = DeliveryStatus.COMPLETED).
Definition is_cancelled (d : hydrated Delivery) : bool := bool_decide (status (body d) = DeliveryStatus.CANCELLED).
Definition is_delayed (w : Drivers) (d : hydrated Delivery) : bool :=
  is_completed d
  && Num.ltb (Num.mul (nullish (estimatedDuration (body d)) Num.zero) graceMultiplier)
       (nullish (actualDuration w !! _id d) (Num.of_Z (-1))).

Definition count {A} (f : A → bool) (l : list A) : Z := Z.of_nat (length (List.filter f l)).

(** [round2] of a rate: the two counters are integers. *)
Definition rate (a b : Z) : number := if (0 <? b)%Z then round2 (Num.div (Num.of_Z a) (Num.of_Z b)) else Num.zero.

Definition metrics_of (id : string) (w : Drivers) : DriverRatingMetrics :=
  let l := history id w in
  mkMetrics (count is_completed l) (count (is_delayed w) l) (count is_cancelled l)
    (count is_completed l + count is_cancelled l).

Definition collectDriverMetrics (id : string) : drivers DriverRatingMetricsResult :=
  _ ← assertValidDriverId id;
  m ← reads (metrics_of id);
  mret (mkMetricsResult m (rate (m_delayed m) (m_completed m)) (rate (m_cancelled m) (m_totalAssigned m))).

(** ** Ratings *)
Record DriverRatingResult := mkRatingResult {
  rr_driverId : string;
  rr_rating : number;
  rr_reputationPoints : number;
  rr_tier : ReputationTier.t;
  rr_totalDeliveries : Z;
  rr_completedDeliveries : Z;
  rr_delayedDeliveries : Z;
  rr_cancelledDeliveries : Z;
  rr_lateDeliveryRate : number;
  rr_cancellationRate : number;
  rr_isSuspended : bool;
  rr_suspendedUntil : option Z;
  rr_suspensionReason : option SuspensionReason;
  rr_penaltyApplied : bool;
  rr_lastRatingUpdate : option Z
}.

Definition toResult (p : DriverProfile) (id : string) (penaltyApplied : bool) : DriverRatingResult :=
  mkRatingResult id (rating p) (reputationPoints p) (tier p) (dp_totalDeliveries p) (dp_completedDeliveries p)
    (dp_delayedDeliveries p) (dp_cancelledDeliveries p)
    (rate (dp_delayedDeliveries p) (dp_completedDeliveries p))
    (rate (dp_cancelledDeliveries p) (dp_totalDeliveries p))
    (isSuspended p) (suspendedUntil p) (suspensionReason p) penaltyApplied (lastRatingUpdate p).

(** The fields [evaluateDriverRating] sets. *)
Definition evaluated (m : DriverRatingMetrics) (r : number) (s : option Suspension) (now : Z) (p : DriverProfile)
    : DriverProfile :=
  mkProfile (reputationPoints p) (tier p) (m_totalAssigned m) (m_completed m) r (m_delayed m) (m_cancelled m)
    (if s is Some _ then true else isSuspended p)
    (if s is Some s then Some (sp_suspendedUntil s) else suspendedUntil p)
    (if s is Some s then Some (sp_reason s) else suspensionReason p)
    (Some now).

(** The update validators on the fields that are set. *)
Definition rating_in_range (r : number) : bool := Num.leb MIN_RATING r && Num.leb r MAX_RATING.
Definition update_profile (id : string) (m : DriverRatingMetrics) (r : number) (s : option Suspension) (now : Z)
    (w : Drivers) : (error + DriverProfile) * Drivers :=
  if rating_in_range r && (0 <=? m_delayed m)%Z && (0 <=? m_cancelled m)%Z && (0 <=? m_completed m)%Z
     && (0 <=? m_totalAssigned m)%Z
  then let p := evaluated m r s now (profile_of id w) in
       (inr p, with_profiles (<[id := p]> (profiles w)) w)
  else (inl validation_error, w).

Definition evaluateDriverRating (id : string) : drivers DriverRatingResult :=
  _ ← assertValidDriverId id;
  metrics ← collectDriverMetrics id;
  let m := r_metrics metrics in
  let r := computeDriverRating m in
  now ← reads dr_now;
  let suspension := resolveSuspension now r (m_completed m) in
  p ← atomic_try (update_profile id m r suspension now);
  mret (toResult p id (if suspension is Some _ then true else false)).

Definition getDriverRating (id : string) : drivers DriverRatingResult :=
  _ ← assertValidDriverId id;
  found ← reads (λ w, profiles w !! id);
  p ← or_throw found (AppError ("No rating on record for driver " +:+ id +:+ ".") Http.NOT_FOUND);
  mret (toResult p id false).

Definition lapsed (now : Z) (p : DriverProfile) : bool :=
  isSuspended p && (if suspendedUntil p is Some t then (t <=? now)%Z else false).
Definition lifted (p : DriverProfile) : DriverProfile :=
  mkProfile (reputationPoints p) (tier p) (dp_totalDeliveries p) (dp_completedDeliveries p) (rating p)
    (dp_delayedDeliveries p) (dp_cancelledDeliveries p) false None None (lastRatingUpdate p).

Definition liftExpiredSuspensions (now : Z) : drivers Z :=
  atomic (λ w,
    (Z.of_nat (length (filter (λ kp, lapsed now kp.2 = true) (map_to_list (profiles w)))),
     with_profiles ((λ p, if lapsed now p then lifted p else p) <$> profiles w) w)).

(** ** The sweep *)
Record RecalculateAllResult := mkSweepResult {
  s_processed : Z;
  s_updated : Z;
  s_suspended : Z;
  s_lifted : Z;
  s_failed : Z
}.

(** [Delivery.distinct('driverId', ...)]: the ids that occur. *)
Definition distinct_drivers (w : Drivers) : list string :=
  remove_dups (List.filter Str.truthy (omap (λ kd, driverId kd.2) (map_to_list (deliveries (dr_base w))))).

Definition sweep_step (s : RecalculateAllResult) (id : string) : drivers RecalculateAllResult :=
  r ← outcome_of (evaluateDriverRating id);
  mret (match r with
        | inr x => mkSweepResult (s_processed s) (s_updated s + 1)
                     (s_suspended s + if rr_penaltyApplied x then 1 else 0) (s_lifted s) (s_failed s)
        | inl _ => mkSweepResult (s_processed s) (s_updated s) (s_suspended s) (s_lifted s) (s_failed s + 1)
        end).

Definition recalculateAllDriverRatings : drivers RecalculateAllResult :=
  now ← reads dr_now;
  n ← liftExpiredSuspensions now;
  ids ← reads distinct_drivers;
  fold_prog sweep_step (mkSweepResult (Z.of_nat (length ids)) 0 0 n 0) ids.

(** ** Reputation events; each handler is one transaction *)
Record ReputationEvent := mkReputationEvent { driverAddress : string; points : number; re_ledgerSequence : Z }.

Definition invalid_event (e : ReputationEvent) : bool :=
  negb (Str.truthy (driverAddress e)) || Num.leb (points e) Num.zero.

Definition with_reputation (pts : number) (t : ReputationTier.t) (p : DriverProfile) : DriverProfile :=
  mkProfile pts t (dp_totalDeliveries p) (dp_completedDeliveries p) (rating p) (dp_delayedDeliveries p)
    (dp_cancelledDeliveries p) (isSuspended p) (suspendedUntil p) (suspensionReason p) (lastRatingUpdate p).

Definition increase (e : ReputationEvent) (w : Drivers) : (error + unit) * Drivers :=
  if negb (isValidObjectId (driverAddress e)) then (inl cast_error, w) else
  let p := profile_of (driverAddress e) w in
  let pts := Num.add (reputationPoints p) (points e) in
  let newTier := computeTier pts in
  (inr tt, with_profiles (<[driverAddress e := with_reputation pts
             (if bool_decide (tier p = newTier) then tier p else newTier) p]> (profiles w)) w).

Definition slash (e : ReputationEvent) (w : Drivers) : (error + unit) * Drivers :=
  if negb (isValidObjectId (driverAddress e)) then (inl cast_error, w) else
  match profiles w !! driverAddress e with
  | None => (inr tt, w)
  | Some p =>
      let newPoints := js_max Num.zero (Num.sub (reputationPoints p) (points e)) in
      (inr tt, with_profiles (<[driverAddress e := with_reputation newPoints (computeTier newPoints) p]> (profiles w)) w)
  end.

Definition handleReputationIncreased (e : ReputationEvent) : drivers unit :=
  if invalid_event e then mret tt else atomic_try (increase e).
Definition handleReputationSlashed (e : ReputationEvent) : drivers unit :=
  if invalid_event e then mret tt else atomic_try (slash e).

(** The checkpoint: [recordProcessedLedger] of the monitor. *)
Context (recordProcessedLedger : Z → drivers unit).

Definition dispatchReputationEvent (eventType : string) (e : ReputationEvent) : drivers unit :=
  if String.eqb eventType "reputation_increased" then
    _ ← handleReputationIncreased e; recordProcessedLedger (re_ledgerSequence e)
  else if String.eqb eventType "reputation_slashed" then
    _ ← handleReputationSlashed e; recordProcessedLedger (re_ledgerSequence e)
  else mret tt.
End DriverRating.

Example flawless : computeDriverRating (mkMetrics 10 0 0 10) = Num.of_Z 5.
Proof. reflexivity. Qed.
Example hopeless : computeDriverRating (mkMetrics 0 0 4 4) = Num.of_Z 2.
Proof. reflexivity. Qed.
Example mixed : computeDriverRating (mkMetrics 8 2 2 10) = NumParse.of_string "3.9".
Proof. vm_compute. reflexivity. Qed.

(** ** The rating is always between 0 and 5 *)
Lemma narrow_zero : narrow Num.zero. Proof. done. Qed.

Lemma clamp_at_most v : narrow v → at_most 5 (clampRating v).
Proof.
  intros Hv. assert (at_most 5 MAX_RATING) as H5 by (apply between_at_most; [lia|apply of_Z_narrow|done..]).
  unfold clampRating. destruct (negb (Num.eqb v v)) eqn:Hnan; [done|].
  assert (v ≠ S754_nan) as Hv' by by intros ->.
  unfold js_max, MIN_RATING. rewrite Hnan. cbn [Num.zero negb orb Num.eqb SFeqb SFcompare].
  change (Num.eqb (S754_zero false) (S754_zero false)) with true. cbn [negb orb].
  set (y := if Num.ltb Num.zero v then v else Num.zero).
  assert (narrow y ∧ y ≠ S754_nan ∧ Num.leb Num.zero y = true ∧ negb (Num.eqb y y) = false) as (Hy & Hy' & H0 & Hyn).
  { unfold y. destruct (Num.ltb Num.zero v) eqn:Hlt; [|done].
    split; [done|]. split; [done|]. split; [|done]. by destruct v as [[]|[]| |[] m e]. }
  unfold js_min. rewrite Hyn. change (negb (Num.eqb MAX_RATING MAX_RATING)) with false. cbn [orb].
  destruct (Num.ltb MAX_RATING y) eqn:Hlt; [done|].
  assert (at_most 5 y); [|by vm_compute MAX_RATING].
  apply between_at_most; [lia|done|done|]. rewrite Num.ltb_leb in Hlt by done.
  by apply negb_false_iff in Hlt.
Qed.

Lemma hundredths_in_range : forallb (λ n, rating_in_range (Num.div (Num.of_Z n) (Num.of_Z 100))) (seqZ 0 501) = true.
Proof. vm_compute. reflexivity. Qed.

Lemma round2_in_range x : at_most 5 x → rating_in_range (round2 x) = true.
Proof.
  intros Hx. unfold round2.
  assert (at_most 500 (Num.mul x (Num.of_Z 100))) as Hm by (by apply (mul_at_most 5 100)).
  apply round_at_most in Hm as (n & Hn & [->|[_ [[] ->]]]); [|done|done|lia].
  pose proof hundredths_in_range as Hall. rewrite forallb_forall in Hall. apply Hall, list_elem_of_In, elem_of_seqZ. lia.
Qed.

Lemma ratio_narrow a b : narrow (ratio a b).
Proof. unfold ratio. destruct (0 <? b)%Z; [|done]. apply div_narrow. Qed.

(** C18: the rating formula never leaves its scale: for every history the
    rounded binary64 result is a number from 0 to 5, so the update's validators
    accept it. *)
Theorem computeDriverRating_bounds m : rating_in_range (computeDriverRating m) = true.
Proof.
  apply round2_in_range, clamp_at_most, sub_narrow; [|apply mul_narrow].
  apply sub_narrow; [apply of_Z_narrow|apply mul_narrow].
Qed.

Lemma rating_ok m : rating_in_range (computeDriverRating m) = true.
Proof.
  apply round2_in_range, clamp_at_most, sub_narrow; [|apply mul_narrow].
  apply sub_narrow; [apply of_Z_narrow|apply mul_narrow].
Qed.

(** ** Evaluations and the sweep *)
Section Facts.
Context `{E : Env}.

Lemma filter_le {A} (f g : A → bool) l : (∀ x, f x = true → g x = true) → (count f l ≤ count g l)%Z.
Proof.
  intros Hfg. unfold count. induction l as [|x l IH]; cbn; [done|].
  destruct (f x) eqn:Hf; [rewrite (Hfg x Hf); cbn; lia|]. destruct (g x); cbn; lia.
Qed.

Lemma metrics_consistent id w : let m := metrics_of id w in
  (0 ≤ m_delayed m ≤ m_completed m)%Z ∧ (0 ≤ m_cancelled m)%Z
  ∧ m_totalAssigned m = (m_completed m + m_cancelled m)%Z.
Proof.
  cbn. split; [|split; [unfold count; lia|done]]. split; [unfold count; lia|].
  apply filter_le. intros d. unfold is_delayed. by intros [? _]%andb_true_iff.
Qed.

Definition valid_driver (id : string) : bool := Str.truthy id && isValidObjectId id.

(** The profile an evaluation at [now] leaves, and whether it is penalised. *)
Definition penalty (id : string) (w : Drivers) : option Suspension :=
  resolveSuspension (dr_now w) (computeDriverRating (metrics_of id w)) (m_completed (metrics_of id w)).
Definition evaluation (id : string) (w : Drivers) (p : DriverProfile) : DriverProfile :=
  evaluated (metrics_of id w) (computeDriverRating (metrics_of id w)) (penalty id w) (dr_now w) p.
Definition evaluate_at (id : string) (w : Drivers) : Drivers :=
  with_profiles (<[id := evaluation id w (profile_of id w)]> (profiles w)) w.
Definition penalised (id : string) (w : Drivers) : bool := if penalty id w is Some _ then true else false.

Lemma run_assertValid id w :
  run (assertValidDriverId id) w = (if valid_driver id then inr tt else inl invalid_driver, w).
Proof.
  unfold assertValidDriverId, valid_driver. rewrite run_throw_if, <- negb_andb. by destruct (_ && _).
Qed.

Lemma run_evaluate id w :
  run (evaluateDriverRating id) w
  = if valid_driver id
    then (inr (toResult (evaluation id w (profile_of id w)) id (penalised id w)), evaluate_at id w)
    else (inl invalid_driver, w).
Proof.
  unfold evaluateDriverRating, collectDriverMetrics. rewrite run_bind, run_assertValid.
  destruct (valid_driver id) eqn:Hv; cbn [fst snd]; [|done].
  rewrite run_bind, run_bind, run_assertValid, Hv. cbn [fst snd].
  rewrite run_bind, run_reads. cbn [fst snd]. rewrite run_ret. cbn [fst snd r_metrics].
  rewrite run_bind, run_reads. cbn [fst snd]. rewrite run_bind, run_atomic_try.
  destruct (metrics_consistent id w) as ((H1 & H2) & H3 & H4).
  unfold update_profile. rewrite rating_ok. cbn [andb].
  rewrite !(proj2 (Z.leb_le _ _)) by lia. cbn [andb fst snd]. by rewrite run_ret.
Qed.

(** Evaluating a driver reads the deliveries and that driver's profile only. *)
Lemma evaluation_ext id w w' p : dr_base w' = dr_base w → actualDuration w' = actualDuration w →
  evaluation id w' p = evaluation id w p ∧ penalised id w' = penalised id w.
Proof.
  intros Hb Ha. unfold evaluation, penalised, penalty, metrics_of, history, is_delayed, dr_now.
  by rewrite Hb, Ha.
Qed.

Lemma run_sweep_step s id w :
  run (sweep_step s id) w
  = if valid_driver id
    then (inr (mkSweepResult (s_processed s) (s_updated s + 1)
                 (s_suspended s + if penalised id w then 1 else 0) (s_lifted s) (s_failed s)), evaluate_at id w)
    else (inr (mkSweepResult (s_processed s) (s_updated s) (s_suspended s) (s_lifted s) (s_failed s + 1)), w).
Proof.
  unfold sweep_step. rewrite run_bind, run_outcome_of, run_evaluate. by destruct (valid_driver id).
Qed.

Lemma run_sweep ids w s : NoDup ids →
  ∃ w', run (fold_prog sweep_step s ids) w
    = (inr (mkSweepResult (s_processed s)
         (s_updated s + count valid_driver ids)
         (s_suspended s + count (λ id, valid_driver id && penalised id w) ids)
         (s_lifted s) (s_failed s + count (λ id, negb (valid_driver id)) ids)), w')
    ∧ dr_base w' = dr_base w ∧ actualDuration w' = actualDuration w
    ∧ ∀ k, profiles w' !! k
        = if decide (k ∈ ids ∧ valid_driver k = true) then Some (evaluation k w (profile_of k w)) else profiles w !! k.
Proof.
  intros Hnd. revert w s. induction Hnd as [|id ids Hni Hnd IH]; intros w s.
  { exists w. cbn [fold_prog]. rewrite run_ret. unfold count. cbn. rewrite !Z.add_0_r. destruct s. by split_and!. }
  cbn [fold_prog]. rewrite run_bind, run_sweep_step. destruct (valid_driver id) eqn:Hv; cbn [fst snd].
  - edestruct (IH (evaluate_at id w)) as (w' & Hr & Hb & Ha & Hk). rewrite Hr. exists w'. clear Hr IH.
    split_and!; [|done..|].
    + cbn [s_processed s_updated s_suspended s_lifted s_failed]. f_equal. f_equal.
      unfold count. cbn [List.filter length]. rewrite Hv. cbn [andb negb length].
      assert (∀ l, List.filter (λ i, valid_driver i && penalised i (evaluate_at id w)) l
        = List.filter (λ i, valid_driver i && penalised i w) l) as ->.
      { intros l. apply List.filter_ext. intros i.
        by destruct (evaluation_ext i w (evaluate_at id w) default_profile eq_refl eq_refl) as [_ ->]. }
      destruct (penalised id w); cbn [length]; f_equal; lia.
    + intros k. rewrite Hk. destruct (decide (k = id)) as [->|Hne].
      * rewrite decide_False by (by intros [? _]). rewrite decide_True by (by split; [left|]).
        unfold evaluate_at. cbn. by rewrite lookup_insert_eq.
      * assert (profiles (evaluate_at id w) !! k = profiles w !! k) as Hp
          by (unfold evaluate_at; cbn; by rewrite lookup_insert_ne).
        unfold profile_of. rewrite Hp. fold (profile_of k w).
        destruct (evaluation_ext k w (evaluate_at id w) (profile_of k w) eq_refl eq_refl) as [He _].
        destruct (decide (k ∈ ids ∧ valid_driver k = true)) as [[Hin Hvk]|Hn].
        -- rewrite decide_True by (by split; [right|]). by rewrite He.
        -- rewrite decide_False; [done|]. intros [[->|Hin]%elem_of_cons ?]; [done|by destruct Hn].
  - edestruct (IH w) as (w' & Hr & Hb & Ha & Hk). rewrite Hr. exists w'. split_and!; [|done..|].
    + cbn [s_processed s_updated s_suspended s_lifted s_failed]. f_equal. f_equal.
      unfold count. cbn [List.filter length]. rewrite Hv. cbn [andb negb length]. f_equal; lia.
    + intros k. rewrite Hk. destruct (decide (k ∈ ids ∧ valid_driver k = true)) as [[Hin Hvk]|Hn].
      * rewrite decide_True by (by split; [right|]). done.
      * rewrite decide_False; [done|]. intros [[->|Hin]%elem_of_cons ?]; [congruence|by destruct Hn].
Qed.

Definition swept (w : Drivers) : Drivers :=
  with_profiles ((λ p, if lapsed (dr_now w) p then lifted p else p) <$> profiles w) w.
Definition settled (p : DriverProfile) (now : Z) : DriverProfile := if lapsed now p then lifted p else p.

Lemma penalty_spec id w : penalised id w = true ↔
  (5 ≤ m_completed (metrics_of id w))%Z
  ∧ Num.leb SUSPENSION_RATING_THRESHOLD (computeDriverRating (metrics_of id w)) = false.
Proof.
  unfold penalised, penalty, resolveSuspension, MIN_COMPLETED_FOR_PENALTY.
  destruct (Z.ltb_spec (m_completed (metrics_of id w)) 5); [split; [done|lia]|].
  destruct (Num.leb SUSPENSION_RATING_THRESHOLD (computeDriverRating (metrics_of id w))); [split; [done|by intros [_ ?]]|by split].
Qed.

Lemma penalised_profile id w p : penalised id w = true →
  isSuspended (evaluation id w p) = true
  ∧ ∃ t, suspendedUntil (evaluation id w p) = Some t ∧ (dr_now w + 7 * 86400000 ≤ t)%Z.
Proof.
  unfold penalised, evaluation, penalty, resolveSuspension. destruct (_ <? _)%Z; [done|].
  destruct (Num.leb SUSPENSION_RATING_THRESHOLD (computeDriverRating (metrics_of id w))); [done|]. intros _. split; [done|].
  eexists. split; [done|]. cbn [sp_suspendedUntil]. case_match;
    unfold SEVERE_SUSPENSION_DURATION_DAYS, SUSPENSION_DURATION_DAYS; lia.
Qed.

(** A sweep accounts for every driver with a delivery: processed drivers are
    the updated and the failed ones, and exactly those with a malformed id fail.
    Each of the others has a rating between 0 and 5, counters taken from the
    history - late ones among the completed, assigned being completed plus
    cancelled - and keeps points and tier.  A driver with five completed
    deliveries and a rating below 2 leaves the sweep suspended for at least seven
    days from now, even one whose suspension has just lapsed.  Every other
    profile only has its lapsed suspension lifted. *)
Theorem recalculateAll_correct w :
  let ids := distinct_drivers w in
  ∃ s w', run recalculateAllDriverRatings w = (inr s, w')
    ∧ (s_processed s = s_updated s + s_failed s)%Z
    ∧ s_processed s = Z.of_nat (length ids)
    ∧ s_failed s = count (λ id, negb (valid_driver id)) ids
    ∧ s_suspended s = count (λ id, valid_driver id && penalised id w) ids
    ∧ dr_base w' = dr_base w
    ∧ (∀ id, id ∈ ids → valid_driver id = true → ∃ p, profiles w' !! id = Some p
        ∧ rating p = computeDriverRating (metrics_of id w) ∧ rating_in_range (rating p) = true
        ∧ (0 ≤ dp_delayedDeliveries p ≤ dp_completedDeliveries p)%Z
        ∧ dp_totalDeliveries p = (dp_completedDeliveries p + dp_cancelledDeliveries p)%Z
        ∧ reputationPoints p = reputationPoints (profile_of id w) ∧ tier p = tier (profile_of id w)
        ∧ ((5 ≤ m_completed (metrics_of id w))%Z →
           Num.leb SUSPENSION_RATING_THRESHOLD (rating p) = false →
           isSuspended p = true ∧ ∃ t, suspendedUntil p = Some t ∧ (dr_now w + 7 * 86400000 ≤ t)%Z))
    ∧ (∀ k, k ∉ ids ∨ valid_driver k = false →
        profiles w' !! k = (λ p, settled p (dr_now w)) <$> profiles w !! k).
Proof.
  intros ids. unfold recalculateAllDriverRatings. rewrite run_bind, run_reads. cbn [fst snd].
  rewrite run_bind. unfold liftExpiredSuspensions. rewrite run_atomic. cbn [fst snd].
  fold (swept w). rewrite run_bind, run_reads. cbn [fst snd]. change (distinct_drivers (swept w)) with ids.
  destruct (run_sweep ids (swept w) (mkSweepResult (Z.of_nat (length ids)) 0 0
    (Z.of_nat (length (filter (λ kp, lapsed (dr_now w) kp.2 = true) (map_to_list (profiles w))))) 0))
    as (w' & -> & Hb & Ha & Hk); [apply NoDup_remove_dups|].
  cbn [s_processed s_updated s_suspended s_lifted s_failed].
  eexists _, w'. split; [done|]. cbn [s_processed s_updated s_suspended s_lifted s_failed]. split_and!; try done.
  - unfold count. clear. induction ids as [|x l IH]; cbn; [done|]. destruct (valid_driver x); cbn in *; lia.
  - intros id Hin Hv. rewrite Hk, decide_True by done. eexists. split; [done|].
    destruct (metrics_consistent id w) as (Hd & _ & Ht).
    assert (reputationPoints (profile_of id (swept w)) = reputationPoints (profile_of id w)
      ∧ tier (profile_of id (swept w)) = tier (profile_of id w)) as [Hp1 Hp2].
    { unfold profile_of. cbn. rewrite lookup_fmap. destruct (profiles w !! id) as [p|]; [|done]. cbn.
      by destruct (lapsed _ _). }
    split_and!; [done|apply rating_ok|apply Hd|apply Hd|done|done|done|].
    intros H5 Hr. apply (penalised_profile id (swept w)). apply penalty_spec. done.
  - intros k Hor. rewrite Hk, decide_False; [|by intros [? ?]; destruct Hor; [|congruence]].
    cbn. by rewrite lookup_fmap.
Qed.

(** ** Tiers *)
Definition tiers_ok (w : Drivers) : Prop := ∀ k p, profiles w !! k = Some p → tier p = computeTier (reputationPoints p).
Definition keeps_tiers (w w' : Drivers) : Prop := tiers_ok w → tiers_ok w'.
#[export] Instance keeps_tiers_preorder : PreOrder keeps_tiers.
Proof. split; [by intros w Hw|]. intros w1 w2 w3 H1 H2 Hw. by apply H2, H1. Qed.

Context (recordProcessedLedger : Z → prog Drivers unit).

Inductive ProfileOp :=
  | op_event (eventType : string) (e : ReputationEvent)
  | op_evaluate (id : string)
  | op_lift (now : Z)
  | op_recalculate.
Definition perform (o : ProfileOp) : prog Drivers unit :=
  match o with
  | op_event t e => dispatchReputationEvent recordProcessedLedger t e
  | op_evaluate id => _ ← evaluateDriverRating id; mret tt
  | op_lift t => _ ← liftExpiredSuspensions t; mret tt
  | op_recalculate => _ ← recalculateAllDriverRatings; mret tt
  end.

Lemma tiers_insert k p w : tiers_ok w → tier p = computeTier (reputationPoints p) →
  tiers_ok (with_profiles (<[k := p]> (profiles w)) w).
Proof. intros Hw Hp k' p'. cbn. rewrite lookup_insert_Some. intros [[_ <-]|[_ Hk]]; [done|by apply (Hw k')]. Qed.
Lemma tiers_profile_of k w : tiers_ok w → tier (profile_of k w) = computeTier (reputationPoints (profile_of k w)).
Proof. intros Hw. unfold profile_of. destruct (profiles w !! k) as [p|] eqn:Hp; [by apply (Hw k)|done]. Qed.

Lemma evaluate_tiers id : confined keeps_tiers (evaluateDriverRating id).
Proof.
  unfold evaluateDriverRating, collectDriverMetrics, assertValidDriverId.
  apply confined_bind; [apply confined_throw_if|]. intros _.
  apply confined_bind; [apply confined_bind; [apply confined_throw_if|]; intros _; apply confined_bind; [by apply confined_reads; intros w Hw|done]|].
  intros m. apply confined_bind; [by apply confined_reads; intros w Hw|]. intros t.
  apply confined_bind; [|done]. intros w. split; [|done]. intros Hw. unfold update_profile.
  destruct (_ && _); [|done]. apply tiers_insert; [done|]. by apply tiers_profile_of.
Qed.
Lemma lift_tiers t : confined keeps_tiers (liftExpiredSuspensions t).
Proof.
  intros w. split; [|done]. intros Hw k p. cbn. rewrite lookup_fmap. intros (q & Hq & ->)%fmap_Some.
  specialize (Hw k q Hq). by destruct (lapsed t q).
Qed.
Lemma increase_tiers e : confined keeps_tiers (handleReputationIncreased e).
Proof.
  unfold handleReputationIncreased. destruct (invalid_event e); [done|]. intros w. split; [|done].
  intros Hw. unfold increase. destruct (negb _); [done|]. apply tiers_insert; [done|]. cbn.
  by case_bool_decide.
Qed.
Lemma slash_tiers e : confined keeps_tiers (handleReputationSlashed e).
Proof.
  unfold handleReputationSlashed. destruct (invalid_event e); [done|]. intros w. split; [|done].
  intros Hw. unfold slash. destruct (negb _); [done|]. destruct (profiles w !! _); [|done]. by apply tiers_insert.
Qed.

Lemma perform_tiers o : (∀ n, confined keeps_tiers (recordProcessedLedger n)) → confined keeps_tiers (perform o).
Proof.
  intros Hrec. destruct o as [t e|id|t|]; cbn [perform].
  - unfold dispatchReputationEvent. destruct (String.eqb t _);
      [apply confined_bind; [apply increase_tiers|done]|]. destruct (String.eqb t _); [|done].
    apply confined_bind; [apply slash_tiers|done].
  - apply confined_bind; [apply evaluate_tiers|done].
  - apply confined_bind; [apply lift_tiers|done].
  - apply confined_bind; [|done]. unfold recalculateAllDriverRatings.
    apply confined_bind; [by apply confined_reads; intros w Hw|]. intros t.
    apply confined_bind; [apply lift_tiers|]. intros n.
    apply confined_bind; [by apply confined_reads; intros w Hw|]. intros ids.
    apply confined_fold_prog. intros s id. unfold sweep_step. apply confined_bind; [|done].
    unfold outcome_of. apply confined_try_catch; [|done]. apply confined_bind; [apply evaluate_tiers|done].
Qed.

(** A driver's tier is always the one its points earn: contract events,
    evaluations, lapsing suspensions and sweeps preserve it however they
    interleave. *)
Theorem tiers_follow_points (ops : list ProfileOp) (sched : list nat) w :
  (∀ n, confined keeps_tiers (recordProcessedLedger n)) → tiers_ok w →
  tiers_ok (interleave sched (perform <$> ops) w).2.
Proof.
  intros Hrec. change (keeps_tiers w (interleave sched (perform <$> ops) w).2).
  apply (safe_interleave keeps_tiers (λ _ _ _, True) sched (perform <$> ops) w).
  intros i p Hp. apply list_lookup_fmap_Some_1 in Hp as (o & -> & _).
  apply (confined_safe keeps_tiers keeps_tiers); [by apply perform_tiers|done].
Qed.
End Facts.

(** ** Examples *)
Module RatingExamples.
Import ExampleEnv.

Definition dan : string := "64b7f0c2a1d3e4f50000000d".
Definition trip (s : DeliveryStatus.t) : Delivery :=
  mkDelivery None (Some dan) None None None None None None JNull JNull JNull JNull
    None None None None None None None s None (Some (Num.of_Z 30)) None None false None None 0 0.
(** Five late deliveries and ten cancellations. *)
Definition trips : gmap string Delivery :=
  list_to_map ((λ n, ("c" +:+ pretty n, trip DeliveryStatus.COMPLETED)) <$> seqZ 0 5)
  ∪ list_to_map ((λ n, ("x" +:+ pretty n, trip DeliveryStatus.CANCELLED)) <$> seqZ 0 10).
Definition served (t : Z) : DriverProfile :=
  mkProfile (Num.of_Z 120) ReputationTier.SILVER 15 5 (Num.of_Z 1) 5 10 true (Some t)
    (Some (critically_low (Num.of_Z 1) 30)) None.
Definition shop : Drivers :=
  mkDrivers (empty_world 1000000 <| deliveries := trips |>)
    (list_to_map ((λ n, ("c" +:+ pretty n, Num.of_Z 90)) <$> seqZ 0 5)) {[ dan := served 999999 ]}.
Definition ignore_ledger (_ : Z) : prog Drivers unit := mret tt.

(** The suspension has lapsed and the driver has not moved since: the sweep that
    lifts it suspends the driver again, for thirty days more. *)
Example suspension_renewed :
  (λ p, (isSuspended p, suspendedUntil p)) <$> (profiles (run recalculateAllDriverRatings shop).2 !! dan)
  = Some (true, Some (1000000 + 30 * 86400000)%Z).
Proof. vm_compute. reflexivity. Qed.

(** A driver known by its Stellar address has no profile the database can look
    up: the event fails in the cast of the address. *)
Example address_is_no_user :
  (run (dispatchReputationEvent ignore_ledger "reputation_increased"
     (mkReputationEvent "GA5ZSEJYB37JRC5AVCIA5MOP4RHTM335X2KGX3IHOJAPP5RE34K4KZVN" (Num.of_Z 10) 77)) shop).1
  = inl cast_error.
Proof. vm_compute. reflexivity. Qed.

(** An event that is delivered twice counts twice. *)
Example event_counted_twice :
  let e := op_event "reputation_increased" (mkReputationEvent dan (Num.of_Z 200) 77) in
  (λ p, (reputationPoints p, tier p)) <$>
    (profiles (interleave [0; 0; 1; 1] (perform ignore_ledger <$> [e; e]) shop).2 !! dan)
  = Some (Num.of_Z 520, ReputationTier.GOLD).
Proof. vm_compute. reflexivity. Qed.

Lemma shop_tiers : tiers_ok shop.
Proof. intros k p. cbn. intros [<- <-]%lookup_singleton_Some. vm_compute. reflexivity. Qed.

Lemma tiers_follow_points_witness :
  (∀ n, confined keeps_tiers (ignore_ledger n)) ∧ tiers_ok shop
  ∧ tiers_ok (interleave [0; 1; 1; 0]
      (perform ignore_ledger <$> [op_recalculate;
         op_event "reputation_slashed" (mkReputationEvent dan (Num.of_Z 50) 78)]) shop).2.
Proof.
  split; [done|]. split; [exact shop_tiers|].
  exact (tiers_follow_points ignore_ledger _ _ shop (λ _, I) shop_tiers).
Defined.
End RatingExamples.
