(* ===== verification/Accounts.v ===== *)
(** * Accounts ([src/src/services/authService.ts], [src/src/services/userService.ts],
      [suspendUser] of [src/src/services/adminService.ts],
      [src/src/services/profilePicture.service.ts] and the authentication
      middleware [src/src/middleware/authenticate.ts])

    Registration, login and tokens, changes of an account, its suspension, its
    soft deletion with what it takes along, and the stored profile picture.
    Signatures, hashes and the image library are fields of [AccountEnv]; the
    storage backend is the [StorageDriver] of [ProofOfDelivery.v]. *)
From S2P Require Import Prelude JsLib Models Repositories ProofOfDelivery DeliveryService WebhookService Onboarding.
From Stdlib Require Import Ascii.

(** ** Data ([models/User.ts]) *)
Inductive UserStatus := ACTIVE | SUSPENDED | BANNED.
#[export] Instance UserStatus_eq_dec : EqDecision UserStatus.
Proof. solve_decision. Defined.
Definition user_status_string (s : UserStatus) : string :=
  match s with ACTIVE => "active" | SUSPENDED => "suspended" | BANNED => "banned" end.

Record Account := mkAccount {
  ac_email : string;
  ac_password : string;
  ac_firstName : string;
  ac_lastName : string;
  ac_role : UserRole;
  ac_status : UserStatus;
  ac_suspendedReason : option string;
  ac_suspendedAt : option Z;
  ac_isActive : bool;
  ac_walletAddress : option string;
  ac_profilePicture : option string;
  ac_profilePictureKey : option string;
  ac_isDeleted : bool;
  ac_deletedAt : option Z;
  ac_deletedBy : option string
}.
#[export] Instance Account_eta : Settable Account := λ a,
  mkAccount a.(ac_email) a.(ac_password) a.(ac_firstName) a.(ac_lastName) a.(ac_role) a.(ac_status)
    a.(ac_suspendedReason) a.(ac_suspendedAt) a.(ac_isActive) a.(ac_walletAddress) a.(ac_profilePicture)
    a.(ac_profilePictureKey) a.(ac_isDeleted) a.(ac_deletedAt) a.(ac_deletedBy).

(** What a deletion writes to a driver's profile. *)
Record ProfileDeletion := mkProfileDeletion {
  pr_isDeleted : bool;
  pr_deletedAt : option Z;
  pr_deletedBy : option string
}.

(** The collections, driver profiles by user, and the keys of stored files. *)
Record Accounts := mkAccounts {
  ac_base : World;
  accounts : gmap string Account;
  driverProfiles : gmap string ProfileDeletion;
  storedFiles : gset string
}.
#[export] Instance Accounts_eta : Settable Accounts := λ w,
  mkAccounts w.(ac_base) w.(accounts) w.(driverProfiles) w.(storedFiles).

Class AccountEnv := {
  AUTH_SECRET : string;
  JWT_EXPIRES_IN : Z;
  BCRYPT_ROUNDS : Z;
  (** A token of the claims [userId] and [role] from a secret, the time and a
      life time; the claims of a token, when its signature fits the secret and
      it has not expired. *)
  sign_token : string → string → string → Z → Z → string;
  verify_token : string → string → Z → option json;
  hash_password : string → string;
  compare_password : string → string → bool;
  (** The image resized and compressed, if it can be read. *)
  process_image : string → option string;
  newUUID : nat → string;
  PROFILE_PICTURE_MAX_SIZE_MB : Z;
  (** Whether the storage refuses to delete a file. *)
  delete_fails : string → Accounts → bool
}.

Section Accounts.
Context `{Env, StorageDriver, AccountEnv}.

Abbreviation accounting := (prog Accounts).

Definition ac_now : accounting Z := reads (λ w, now_ms (ac_base w)).
Definition put_base (b : World) (w : Accounts) : Accounts :=
  mkAccounts b (accounts w) (driverProfiles w) (storedFiles w).
Definition on_base {A} (p : action A) : accounting A := zoom ac_base put_base p.

Definition invalid_user_id : error := AppError "Invalid user ID format." Http.BAD_REQUEST.
Definition user_not_found : error := AppError "User not found." Http.NOT_FOUND.
Definition user_cast_error : error := PlainError "Cast to ObjectId failed".

(** ** The collection *)
Definition find_account (id : string) : accounting (option (hydrated Account)) :=
  if negb (isValidObjectId id) then throw user_cast_error else reads (λ w, find_by_id id (accounts w)).

(** [doc.save()]: the modified paths of the document, in the collection. *)
Definition save_account (a : hydrated Account) (f : Account → Account) : accounting (hydrated Account) :=
  atomic_try (λ w,
    match accounts w !! _id a with
    | None => (inl (PlainError "No document found for query"), w)
    | Some a0 => (inr (Doc (_id a) (f (body a))), w <| accounts ::= <[_id a := f a0]> |>)
    end).

(** The setters of the e-mail path, on writes and on queries. *)
Definition normal_email (s : string) : string := Str.toLowerCase (Str.trim s).
Definition by_email (email : string) (a : Account) : bool := String.eqb (ac_email a) (normal_email email).

(** The unique indexes on e-mails and wallets. *)
Definition account_clash (a b : Account) : bool :=
  String.eqb (ac_email a) (ac_email b)
  || match ac_walletAddress a with Some x => bool_decide (ac_walletAddress b = Some x) | None => false end.
Definition taken_by_other (id : string) (a : Account) (m : gmap string Account) : bool :=
  some (λ kv, negb (String.eqb kv.1 id) && account_clash a kv.2) (map_to_list m).

(** ** Tokens *)
Definition bearer (token : string) : string := "Bearer " +:+ token.

Definition generateToken (userId : string) (role : UserRole) (t : Z) : error + string :=
  if Str.truthy AUTH_SECRET
  then inr (sign_token userId (role_string role) AUTH_SECRET t JWT_EXPIRES_IN)
  else inl (AppError "JWT secret is not configured" Http.INTERNAL_SERVER_ERROR).

(** The first truthy claim of [userId], [sub], [id] and [_id]. *)
Definition subject (claims : json) : option string :=
  match List.find (λ c, Json.truthy (Json.field c claims)) ["userId"; "sub"; "id"; "_id"] with
  | Some c => match Json.field c claims with Some (JStr s) => Some s | _ => None end
  | None => None
  end.
Definition verifyToken (token : string) (t : Z) : error + string :=
  match verify_token token AUTH_SECRET t with
  | None => inl (PlainError "jwt error")
  | Some claims => match subject claims with Some u => inr u | None => inl (PlainError "Token missing subject") end
  end.

(** ** The authentication service *)
Record UserDTO := mkDTO {
  dto_id : string;
  dto_email : string;
  dto_firstName : string;
  dto_lastName : string;
  dto_role : UserRole;
  dto_status : UserStatus
}.
(** [String(user.id)]: a lean document has no [id]. *)
Definition toUserDTO (id : option string) (a : Account) : UserDTO :=
  mkDTO (nullish id "undefined") (ac_email a) (ac_firstName a) (ac_lastName a) (ac_role a) (ac_status a).

Definition invalid_credentials : error := AppError "Invalid email or password" Http.UNAUTHORIZED.

Definition login (email password : string) : accounting (UserDTO * string) :=
  found ← reads (λ w, find_one (by_email email) (accounts w));
  user ← or_throw found invalid_credentials;
  _ ← throw_if (negb (ac_isActive (body user)))
        (AppError "Your account has been deactivated. Please contact support." Http.UNAUTHORIZED);
  _ ← throw_if (negb (compare_password password (ac_password (body user)))) invalid_credentials;
  t ← ac_now;
  token ← Done (generateToken (_id user) (ac_role (body user)) t);
  mret (toUserDTO (Some (_id user)) (body user), token).

(** Schema validation of a new account. *)
Definition new_account_valid (first last email password : string) : bool :=
  email_ok (normal_email email) && (8 <=? Str.length password)%Z
  && length_between 1 50 (Str.trim first) && length_between 1 50 (Str.trim last).
Definition new_account (first last email password : string) : Account :=
  mkAccount (normal_email email) (hash_password password) (Str.trim first) (Str.trim last) USER ACTIVE None None true
    None None None false None None.

Definition registerUser (first last email password : string) : accounting UserDTO :=
  existing ← reads (λ w, find_one (by_email email) (accounts w));
  _ ← throw_if (bool_decide (is_Some existing)) (AppError "Email is already in use" Http.CONFLICT);
  id ← on_base fresh_id;
  _ ← throw_if (negb (new_account_valid first last email password)) (PlainError "User validation failed");
  let a := new_account first last email password in
  atomic_try (λ w,
    if bool_decide (is_Some (accounts w !! id)) || taken_by_other id a (accounts w) then (inl DuplicateKey, w)
    else (inr (toUserDTO (Some id) a), w <| accounts ::= <[id := a]> |>)).

Definition auth_getUserById (id : string) : accounting (option UserDTO) :=
  found ← find_account id;
  mret (option_map (λ u, toUserDTO None (body u)) found).

(** ** The middleware *)

(** [authHeader.split(' ')[1]] of a header that starts with "Bearer ". *)
Fixpoint first_word (s : string) : string :=
  match s with
  | String c s => if Ascii.eqb c " " then "" else String c (first_word s)
  | EmptyString => ""
  end.
Definition token_of (header : option string) : option string :=
  match header with
  | Some h => if Str.truthy h && Str.startsWith h "Bearer "
              then Some (first_word (String.substring 7 (String.length h) h)) else None
  | None => None
  end.

(** [User.findById(decoded.userId)]. *)
Definition claimed_account (claims : json) : accounting (option (hydrated Account)) :=
  match Json.field "userId" claims with
  | None | Some JNull => mret None
  | Some (JStr id) => find_account id
  | Some _ => throw user_cast_error
  end.

Definition blocked (s : UserStatus) : bool := bool_decide (s = SUSPENDED) || bool_decide (s = BANNED).

(** The user that is attached to the request. *)
Definition authenticate (header : option string) : accounting (hydrated Account) :=
  token ← or_throw (token_of header)
            (AppError "Authentication required. Please provide a valid Bearer token." Http.UNAUTHORIZED);
  _ ← throw_if (negb (Str.truthy AUTH_SECRET))
        (AppError "Server misconfiguration: JWT secret not set." Http.INTERNAL_SERVER_ERROR);
  t ← ac_now;
  claims ← or_throw (verify_token token AUTH_SECRET t)
             (AppError "Invalid or expired token. Please log in again." Http.UNAUTHORIZED);
  found ← claimed_account claims;
  user ← or_throw found (AppError "The user associated with this token no longer exists." Http.UNAUTHORIZED);
  _ ← throw_if (blocked (ac_status (body user)))
        (AppError ("Your account has been " +:+ user_status_string (ac_status (body user))
           +:+ ". Please contact support.") Http.FORBIDDEN);
  mret user.

(** [requireRole(...roles)] after it. *)
Definition requireRole (roles : list UserRole) (user : option Account) : error + unit :=
  match user with
  | None => inl (AppError "Authentication required. Please provide a valid Bearer token." Http.UNAUTHORIZED)
  | Some a =>
      if includes (ac_role a) roles then inr tt
      else inl (AppError "Access denied. You do not have permission to perform this action." Http.FORBIDDEN)
  end.

(** ** Suspension *)
Definition suspended (status : UserStatus) (t : Z) (reason : string) (a : Account) : Account :=
  a <| ac_status := status |> <| ac_suspendedAt := Some t |> <| ac_suspendedReason := Some reason |>.

Definition suspendUser (target admin reason : string) (ban : bool) : accounting (hydrated Account * UserStatus) :=
  _ ← throw_if (negb (isValidObjectId target)) invalid_user_id;
  _ ← throw_if (String.eqb target admin)
        (AppError "Admins cannot suspend or ban their own account." Http.UNPROCESSABLE_ENTITY);
  found ← find_account target;
  user ← or_throw found user_not_found;
  _ ← throw_if (bool_decide (ac_role (body user) = ADMIN))
        (AppError "Admin accounts cannot be suspended or banned by another admin." Http.FORBIDDEN);
  let desired := if ban then BANNED else SUSPENDED in
  _ ← throw_if (bool_decide (ac_status (body user) = desired))
        (AppError ("User is already " +:+ user_status_string desired +:+ ".") Http.CONFLICT);
  t ← ac_now;
  saved ← save_account user (suspended desired t reason);
  mret (saved, desired).

(** ** Profile pictures *)
Record UploadProfilePictureInput := mkPictureInput {
  pi_userId : string;
  pi_originalName : string;
  pi_mimeType : string;
  pi_buffer : string;
  pi_sizeBytes : Z
}.
Definition ALLOWED_MIME_TYPES : list string := ["image/jpeg"; "image/jpg"; "image/png"; "image/webp"].

(** [path.extname]: from the last dot of the last component, unless it starts it. *)
Fixpoint split_last (sep : ascii) (l acc : list ascii) (best : option (list ascii * list ascii))
    : option (list ascii * list ascii) :=
  match l with
  | [] => best
  | c :: l => split_last sep l (acc ++ [c]) (if Ascii.eqb c sep then Some (acc, c :: l) else best)
  end.
Definition basename (l : list ascii) : list ascii :=
  match split_last "/" l [] None with Some (_, c :: rest) => rest | _ => l end.
Definition extname (s : string) : string :=
  match split_last "." (basename (Str.chars s)) [] None with
  | Some ([], _) | None => ""
  | Some (_, ext) => Str.of_chars ext
  end.

Definition generateStorageKey (user originalName unique : string) (t : Z) : string :=
  let ext := Str.toLowerCase (extname originalName) in
  "profiles/" +:+ user +:+ "/" +:+ pretty t +:+ "-" +:+ unique +:+ (if Str.truthy ext then ext else ".jpg").

(** [removeStoredFile]: a failure is logged. *)
Definition removeStoredFile (key : string) : accounting unit :=
  writes (λ w, if delete_fails key w then w else w <| storedFiles ::= λ s, s ∖ {[key]} |>).

(** [storageDriver.upload]: the stored file, or its failure. *)
Definition store_file (buffer key mime : string) : accounting (string * string) :=
  match upload buffer key mime with
  | inl _ => throw (AppError "Failed to upload profile picture" Http.INTERNAL_SERVER_ERROR)
  | inr r => _ ← writes (λ w, w <| storedFiles ::= λ s, {[r.1]} ∪ s |>); mret r
  end.

Definition with_picture (url key : option string) (a : Account) : Account :=
  a <| ac_profilePicture := url |> <| ac_profilePictureKey := key |>.

Definition uploadProfilePicture (i : UploadProfilePictureInput) : accounting (string * string * string) :=
  _ ← throw_if (negb (isValidObjectId (pi_userId i))) (AppError "Invalid user ID format" Http.BAD_REQUEST);
  found ← find_account (pi_userId i);
  user ← or_throw found (AppError "User not found" Http.NOT_FOUND);
  _ ← throw_if (negb (includes (pi_mimeType i) ALLOWED_MIME_TYPES))
        (AppError ("Invalid file type. Allowed types: " +:+ Str.join ", " ALLOWED_MIME_TYPES) Http.BAD_REQUEST);
  _ ← throw_if (PROFILE_PICTURE_MAX_SIZE_MB * 1024 * 1024 <? pi_sizeBytes i)%Z
        (AppError ("File size exceeds maximum of " +:+ pretty PROFILE_PICTURE_MAX_SIZE_MB +:+ "MB") Http.BAD_REQUEST);
  processed ← or_throw (process_image (pi_buffer i))
                (AppError "Failed to process image" Http.INTERNAL_SERVER_ERROR);
  unique ← on_base (atomic (λ w, (newUUID (nextId w), w <| nextId ::= S |>)));
  t ← ac_now;
  stored ← store_file processed (generateStorageKey (pi_userId i) (pi_originalName i) unique t) "image/jpeg";
  let oldKey := ac_profilePictureKey (body user) in
  _ ← save_account user (with_picture (Some stored.2) (Some stored.1));
  _ ← (match oldKey with
       | Some k => if Str.truthy k && negb (String.eqb k stored.1) then removeStoredFile k else mret tt
       | None => mret tt
       end);
  t ← ac_now;
  mret (stored.2, stored.1, Date.toISOString t).

Definition deleteProfilePicture (id : string) : accounting bool :=
  _ ← throw_if (negb (isValidObjectId id)) (AppError "Invalid user ID format" Http.BAD_REQUEST);
  found ← find_account id;
  user ← or_throw found (AppError "User not found" Http.NOT_FOUND);
  match ac_profilePicture (body user), ac_profilePictureKey (body user) with
  | Some url, Some key =>
      if Str.truthy url && Str.truthy key
      then _ ← save_account user (with_picture None None); _ ← removeStoredFile key; mret true
      else mret false
  | _, _ => mret false
  end.

Definition cleanupForDeletedUser (id : string) : accounting unit :=
  found ← find_account id;
  match found ≫= (λ u, ac_profilePictureKey (body u)), found with
  | Some key, Some u =>
      if Str.truthy key then _ ← save_account u (with_picture None None); removeStoredFile key else mret tt
  | _, _ => mret tt
  end.

(** ** The user service *)
Definition not_deleted (a : Account) : bool := negb (ac_isDeleted a).
Definition find_active (id : string) : accounting (option (hydrated Account)) :=
  reads (λ w, match accounts w !! id with
              | Some a => if not_deleted a then Some (Doc id a) else None
              | None => None
              end).

Definition getUserById (id : string) : accounting (hydrated Account) :=
  _ ← throw_if (negb (isValidObjectId id)) invalid_user_id;
  found ← find_active id;
  or_throw found user_not_found.

Record UpdateUserInput := mkUpdateUser {
  up_firstName : option string;
  up_lastName : option string;
  up_role : option UserRole;
  up_userStatus : option UserStatus;
  up_walletAddress : option string;
  up_profilePicture : option string;
  up_profilePictureKey : option string
}.
(** [$set: input], with the validators of the paths it sets. *)
Definition update_valid (i : UpdateUserInput) : bool :=
  match up_firstName i with Some s => length_between 1 50 (Str.trim s) | None => true end
  && match up_lastName i with Some s => length_between 1 50 (Str.trim s) | None => true end
  && match up_walletAddress i with Some s => user_wallet_ok (Str.trim s) | None => true end.
Definition updated {A} (new : option A) (old : option A) : option A := if new is Some x then Some x else old.
Definition apply_user_update (i : UpdateUserInput) (a : Account) : Account :=
  mkAccount (ac_email a) (ac_password a) (nullish (Str.trim <$> up_firstName i) (ac_firstName a))
    (nullish (Str.trim <$> up_lastName i) (ac_lastName a)) (nullish (up_role i) (ac_role a))
    (nullish (up_userStatus i) (ac_status a)) (ac_suspendedReason a) (ac_suspendedAt a) (ac_isActive a)
    (updated (Str.trim <$> up_walletAddress i) (ac_walletAddress a))
    (updated (Str.trim <$> up_profilePicture i) (ac_profilePicture a))
    (updated (Str.trim <$> up_profilePictureKey i) (ac_profilePictureKey a))
    (ac_isDeleted a) (ac_deletedAt a) (ac_deletedBy a).

Definition updateUser (id : string) (i : UpdateUserInput) : accounting (hydrated Account) :=
  _ ← throw_if (negb (isValidObjectId id)) invalid_user_id;
  _ ← throw_if (negb (update_valid i)) (PlainError "Validation failed");
  found ← atomic_try (λ w,
    match accounts w !! id with
    | Some a =>
        if not_deleted a then
          let a' := apply_user_update i a in
          if taken_by_other id a' (accounts w) then (inl DuplicateKey, w)
          else (inr (Some (Doc id a')), w <| accounts ::= <[id := a']> |>)
        else (inr None, w)
    | None => (inr None, w)
    end);
  or_throw found user_not_found.

Definition updatePassword (id current new : string) : accounting (hydrated Account) :=
  _ ← throw_if (negb (isValidObjectId id)) invalid_user_id;
  found ← find_active id;
  user ← or_throw found user_not_found;
  _ ← throw_if (negb (compare_password current (ac_password (body user))))
        (AppError "Current password is incorrect." Http.UNAUTHORIZED);
  _ ← throw_if (Str.length new <? 8)%Z (PlainError "User validation failed");
  save_account user (set ac_password (λ _, hash_password new)).

(** The deleter is recorded when it is given. *)
Definition deleter (by_ old : option string) : option string :=
  match by_ with Some u => if Str.truthy u then Some u else old | None => old end.
Definition soft_deleted (t : Z) (by_ : option string) (a : Account) : Account :=
  a <| ac_isDeleted := true |> <| ac_deletedAt := Some t |> <| ac_deletedBy ::= deleter by_ |>.
Definition profile_deleted (t : Z) (by_ : option string) (p : ProfileDeletion) : ProfileDeletion :=
  mkProfileDeletion true (Some t) (deleter by_ (pr_deletedBy p)).

(** The deliveries a user takes part in and that are not deleted. *)
Definition takes_part (id : string) (d : Delivery) : bool :=
  bool_decide (driverId d = Some id) || bool_decide (userId d = Some id)
  || bool_decide (sender d = Some id) || bool_decide (d_recipient d = Some id).
Definition related (id : string) (d : Delivery) : bool := negb (isDeleted d) && takes_part id d.

Record SoftDeleteResult := mkSoftDelete {
  sd_user : hydrated Account;
  sd_driverProfile : bool;
  sd_deliveries : nat
}.

Definition delete_profile (id : string) (by_ : option string) : accounting bool :=
  found ← reads (λ w, driverProfiles w !! id);
  match found with
  | None => mret false
  | Some p =>
      t ← ac_now;
      _ ← writes (λ w, w <| driverProfiles ::= alter (profile_deleted t by_) id |>);
      mret true
  end.

Definition delete_deliveries (by_ : option string) (l : list (hydrated Delivery)) : accounting nat :=
  on_base (fold_prog (λ n d, t ← now; _ ← DeliveryRepository.save d (softDelete t by_); mret (S n)) 0 l).

Definition softDeleteUser (id : string) (by_ : option string) : accounting SoftDeleteResult :=
  _ ← throw_if (negb (isValidObjectId id)) invalid_user_id;
  found ← find_account id;
  user ← or_throw found user_not_found;
  _ ← throw_if (ac_isDeleted (body user)) (AppError "User is already deleted." Http.CONFLICT);
  profile ← delete_profile id by_;
  related_deliveries ← on_base (DeliveryRepository.find (related id));
  n ← delete_deliveries by_ related_deliveries;
  _ ← cleanupForDeletedUser id;
  t ← ac_now;
  saved ← save_account user (soft_deleted t by_);
  mret (mkSoftDelete saved profile n).

Definition restored (a : Account) : Account :=
  a <| ac_isDeleted := false |> <| ac_deletedAt := None |> <| ac_deletedBy := None |>.
Definition restoreUser (id : string) : accounting (hydrated Account) :=
  _ ← throw_if (negb (isValidObjectId id)) invalid_user_id;
  found ← find_account id;
  user ← or_throw found user_not_found;
  _ ← throw_if (negb (ac_isDeleted (body user))) (AppError "User is not deleted." Http.CONFLICT);
  save_account user restored.

(** ** Runs *)
Lemma account_base_lens : lens_laws ac_base put_base.
Proof. split; [done|by intros []|done]. Qed.
Lemma run_account_base {A} (p : action A) w :
  run (on_base p) w = ((run p (ac_base w)).1, put_base (run p (ac_base w)).2 w).
Proof. unfold on_base. by rewrite run_zoom by apply account_base_lens. Qed.

Lemma run_find_account id w :
  isValidObjectId id = true → run (find_account id) w = (inr (find_by_id id (accounts w)), w).
Proof. intros Hv. unfold find_account. by rewrite Hv. Qed.
Lemma run_save_account a f w a0 :
  accounts w !! _id a = Some a0 →
  run (save_account a f) w = (inr (Doc (_id a) (f (body a))), w <| accounts ::= <[_id a := f a0]> |>).
Proof. intros Ha. unfold save_account. by rewrite run_atomic_try, Ha. Qed.

(** The account a valid id names, or the failure of every operation on it. *)
Lemma run_load id w a e :
  isValidObjectId id = true → accounts w !! id = Some a →
  run (found ← find_account id; or_throw found e) w = (inr (Doc id a), w).
Proof.
  intros Hv Ha. rewrite run_bind, run_find_account by done. cbn [fst snd]. unfold find_by_id. by rewrite Ha.
Qed.

(** ** Suspension locks out *)
Definition locked_out (id : string) (w : Accounts) : Prop :=
  ∃ a, accounts w !! id = Some a ∧ blocked (ac_status a) = true.
Definition keeps_lock (id : string) (w w' : Accounts) : Prop := locked_out id w → locked_out id w'.
#[local] Instance keeps_lock_preorder id : PreOrder (keeps_lock id).
Proof. split; [intros w Hl; exact Hl|]. intros w1 w2 w3 Ha Hb Hl. by apply Hb, Ha. Qed.

Lemma keeps_lock_same id w w' : accounts w' = accounts w → keeps_lock id w w'.
Proof. intros He (a & Ha & Hb). exists a. by rewrite He. Qed.

(** A change that leaves the status alone, or blocks the account. *)
Definition status_kept (f : Account → Account) : Prop :=
  ∀ a, ac_status (f a) = ac_status a ∨ blocked (ac_status (f a)) = true.
Lemma keeps_lock_insert id k f a0 w w' :
  status_kept f → accounts w !! k = Some a0 → accounts w' = <[k := f a0]> (accounts w) → keeps_lock id w w'.
Proof.
  intros Hf Hk He (a & Ha & Hb). unfold locked_out. rewrite He.
  destruct (decide (k = id)) as [->|Hne]; [|exists a; by rewrite lookup_insert_ne].
  rewrite lookup_insert_eq. eexists. split; [done|]. rewrite Ha in Hk. simplify_eq.
  destruct (Hf a0) as [->|?]; done.
Qed.

Lemma confined_find_account (G : relation Accounts) `{!Reflexive G} id : confined G (find_account id).
Proof. unfold find_account. case_match; [done|]. by intros w. Qed.
Lemma confined_save_lock id a f : status_kept f → confined (keeps_lock id) (save_account a f).
Proof.
  intros Hf w. split; [|done]. cbn. destruct (accounts w !! _id a) as [a0|] eqn:Ha; [|done].
  by eapply keeps_lock_insert.
Qed.
Lemma confined_on_base id {A} (p : action A) : confined (keeps_lock id) (on_base p).
Proof. apply confined_zoom. intros b w. by apply keeps_lock_same. Qed.
Lemma confined_removeStoredFile id key : confined (keeps_lock id) (removeStoredFile key).
Proof. intros w. split; [|done]. apply keeps_lock_same. cbn. by destruct (delete_fails key w). Qed.
Lemma confined_store_file id b k m : confined (keeps_lock id) (store_file b k m).
Proof. unfold store_file. destruct (upload b k m) as [e|r]; [done|]. intros w. split; [by apply keeps_lock_same|done]. Qed.
Lemma confined_ac_now (G : relation Accounts) `{!Reflexive G} : confined G ac_now.
Proof. by intros w. Qed.
Lemma confined_find_active (G : relation Accounts) `{!Reflexive G} id : confined G (find_active id).
Proof. by intros w. Qed.
Lemma confined_done {A} (G : relation Accounts) (r : error + A) : confined G (Done r).
Proof. done. Qed.
#[local] Hint Resolve confined_find_account confined_save_lock confined_on_base confined_removeStoredFile
  confined_store_file confined_ac_now confined_find_active confined_done : confined.
#[local] Hint Extern 1 (Reflexive _) => typeclasses eauto : confined.

(** The operations on accounts; an update may set anything but the status. *)
Inductive account_op :=
  | op_login (email password : string)
  | op_register (first last email password : string)
  | op_authenticate (header : option string)
  | op_suspend (target admin reason : string) (ban : bool)
  | op_upload (i : UploadProfilePictureInput)
  | op_delete_picture (id : string)
  | op_update (id : string) (i : UpdateUserInput)
  | op_password (id current new : string)
  | op_delete (id : string) (by_ : option string)
  | op_restore (id : string)
  | op_wait (ms : Z).

Definition exec_account {B} (p : accounting B) (w : Accounts) : Accounts := (run p w).2.
Definition account_step (op : account_op) (w : Accounts) : Accounts :=
  match op with
  | op_login e p => exec_account (login e p) w
  | op_register f l e p => exec_account (registerUser f l e p) w
  | op_authenticate h => exec_account (authenticate h) w
  | op_suspend t a r b => exec_account (suspendUser t a r b) w
  | op_upload i => exec_account (uploadProfilePicture i) w
  | op_delete_picture id => exec_account (deleteProfilePicture id) w
  | op_update id i => exec_account (updateUser id i) w
  | op_password id c n => exec_account (updatePassword id c n) w
  | op_delete id b => exec_account (softDeleteUser id b) w
  | op_restore id => exec_account (restoreUser id) w
  | op_wait ms => w <| ac_base ::= set now_ms (Z.add ms) |>
  end.
Definition sets_status (op : account_op) : bool :=
  match op with op_update _ i => bool_decide (is_Some (up_userStatus i)) | _ => false end.

Lemma with_picture_status u k : status_kept (with_picture u k).
Proof. intros a. by left. Qed.
#[local] Hint Resolve with_picture_status : confined.

Lemma register_keeps id f l e p : confined (keeps_lock id) (registerUser f l e p).
Proof.
  unfold registerUser. apply confined_bind; [by apply (confined_reads _)|intros ex].
  apply confined_bind; [apply confined_throw_if|intros _]. apply confined_bind; [apply confined_on_base|intros k].
  apply confined_bind; [apply confined_throw_if|intros _]. intros w. split; [|done]. cbn.
  case_bool_decide as Hk; [done|]. cbn [orb]. destruct (taken_by_other k _ (accounts w)); [done|].
  intros (a & Ha & Hb). exists a. cbn. rec_simpl. rewrite lookup_insert_ne; [done|].
  intros ->. apply Hk. by eexists.
Qed.

Lemma login_keeps id e p : confined (keeps_lock id) (login e p).
Proof.
  unfold login. apply confined_bind; [by apply (confined_reads _)|intros x]. eauto 10 with confined.
Qed.

Lemma authenticate_keeps id h : confined (keeps_lock id) (authenticate h).
Proof.
  unfold authenticate, claimed_account. repeat (apply confined_bind; [eauto with confined|intros ?]); [|done].
  repeat case_match; eauto with confined.
Qed.

Lemma suspend_keeps id t a r b : confined (keeps_lock id) (suspendUser t a r b).
Proof.
  unfold suspendUser. do 6 (apply confined_bind; [eauto with confined|intros ?]).
  apply confined_bind; [eauto with confined|intros now]. apply confined_bind; [|done].
  apply confined_save_lock. intros x. right. by destruct b.
Qed.

Lemma upload_keeps id i : confined (keeps_lock id) (uploadProfilePicture i).
Proof.
  unfold uploadProfilePicture. repeat (apply confined_bind; [eauto with confined|intros ?]).
  - repeat case_match; eauto with confined.
  - done.
Qed.

Lemma delete_picture_keeps id k : confined (keeps_lock id) (deleteProfilePicture k).
Proof.
  unfold deleteProfilePicture. do 3 (apply confined_bind; [eauto with confined|intros ?]).
  repeat case_match; eauto with confined.
Qed.

Lemma cleanup_keeps id k : confined (keeps_lock id) (cleanupForDeletedUser k).
Proof.
  unfold cleanupForDeletedUser. apply confined_bind; [eauto with confined|intros ?].
  repeat case_match; eauto with confined.
Qed.

Lemma update_keeps id k i : up_userStatus i = None → confined (keeps_lock id) (updateUser k i).
Proof.
  intros Hi. unfold updateUser. do 2 (apply confined_bind; [eauto with confined|intros _]).
  apply confined_bind; [|eauto with confined]. intros w. split; [|done]. cbn.
  destruct (accounts w !! k) as [a0|] eqn:Hk; [|done]. destruct (not_deleted a0); [|done].
  destruct (taken_by_other _ _ _); [done|]. eapply keeps_lock_insert; [|exact Hk|done].
  intros a. left. cbn. by rewrite Hi.
Qed.

Lemma password_keeps id k c n : confined (keeps_lock id) (updatePassword k c n).
Proof.
  unfold updatePassword. do 5 (apply confined_bind; [eauto with confined|intros ?]).
  apply confined_save_lock. by left.
Qed.

Lemma delete_keeps id k b : confined (keeps_lock id) (softDeleteUser k b).
Proof.
  unfold softDeleteUser, delete_profile, delete_deliveries.
  do 4 (apply confined_bind; [eauto with confined|intros ?]).
  apply confined_bind.
  { apply confined_bind; [by apply (confined_reads _)|intros [p|]; [|done]].
    apply confined_bind; [eauto with confined|intros t]. apply confined_bind; [|done].
    intros w. split; [by apply keeps_lock_same|done]. }
  intros ?. do 2 (apply confined_bind; [eauto with confined|intros ?]).
  apply confined_bind; [apply cleanup_keeps|intros ?]. apply confined_bind; [eauto with confined|intros ?].
  apply confined_bind; [|done]. apply confined_save_lock. by left.
Qed.

Lemma restore_keeps id k : confined (keeps_lock id) (restoreUser k).
Proof.
  unfold restoreUser. do 4 (apply confined_bind; [eauto with confined|intros ?]).
  apply confined_save_lock. by left.
Qed.

Lemma account_step_keeps id op w : sets_status op = false → keeps_lock id w (account_step op w).
Proof.
  intros Hs. destruct op; cbn [account_step]; unfold exec_account.
  - apply (confined_run (keeps_lock id) _ w (login_keeps _ _ _)).
  - apply (confined_run (keeps_lock id) _ w (register_keeps _ _ _ _ _)).
  - apply (confined_run (keeps_lock id) _ w (authenticate_keeps _ _)).
  - apply (confined_run (keeps_lock id) _ w (suspend_keeps _ _ _ _ _)).
  - apply (confined_run (keeps_lock id) _ w (upload_keeps _ _)).
  - apply (confined_run (keeps_lock id) _ w (delete_picture_keeps _ _)).
  - apply (confined_run (keeps_lock id)), update_keeps. cbn in Hs. by destruct (up_userStatus i).
  - apply (confined_run (keeps_lock id) _ w (password_keeps _ _ _ _)).
  - apply (confined_run (keeps_lock id) _ w (delete_keeps _ _ _)).
  - apply (confined_run (keeps_lock id) _ w (restore_keeps _ _)).
  - by apply keeps_lock_same.
Qed.

(** A token whose claims name a user. *)
Definition names (header : option string) (id : string) (t : Z) : Prop :=
  ∃ token claims, token_of header = Some token ∧ verify_token token AUTH_SECRET t = Some claims ∧
    Json.field "userId" claims = Some (JStr id).

Lemma suspendUser_locks target admin reason ban r w w1 :
  run (suspendUser target admin reason ban) w = (inr r, w1) →
  isValidObjectId target = true ∧ locked_out target w1.
Proof.
  unfold suspendUser. rewrite run_bind, run_throw_if. cbn [fst snd].
  destruct (isValidObjectId target) eqn:Hv; [|done]. cbn [negb].
  rewrite run_bind, run_throw_if. cbn [fst snd]. destruct (String.eqb target admin); [done|].
  rewrite run_bind, run_find_account by done. cbn [fst snd]. unfold find_by_id.
  destruct (accounts w !! target) as [a|] eqn:Ha; cbn [fmap option_fmap option_map].
  2:{ by rewrite run_bind, run_or_throw. }
  rewrite run_bind, run_or_throw. cbn [fst snd body]. rewrite run_bind, run_throw_if. cbn [fst snd].
  destruct (bool_decide (ac_role a = ADMIN)); [done|]. rewrite run_bind, run_throw_if. cbn [fst snd].
  destruct (bool_decide (ac_status a = _)); [done|]. unfold ac_now. rewrite run_bind, run_reads. cbn [fst snd].
  rewrite run_bind, (run_save_account _ _ _ a) by done. cbn [fst snd]. rewrite run_ret. intros [= <- <-].
  split; [done|]. eexists. cbn [accounts]. rec_simpl. rewrite lookup_insert_eq. split; [done|]. by destruct ban.
Qed.

(** C23: a suspended or banned user is locked out: whatever happens afterwards to
    any account - logins that hand the user a new token, restored or changed
    passwords, further suspensions - every request with a token of the user is
    refused with the reason, until an update sets the status. *)
Theorem suspension_locks_out target admin reason ban r w w1 ops header :
  run (suspendUser target admin reason ban) w = (inr r, w1) →
  forallb (λ op, negb (sets_status op)) ops = true →
  Str.truthy AUTH_SECRET = true →
  let w2 := foldl (λ w op, account_step op w) w1 ops in
  names header target (now_ms (ac_base w2)) →
  ∃ s, blocked s = true ∧
    run (authenticate header) w2
    = (inl (AppError ("Your account has been " +:+ user_status_string s +:+ ". Please contact support.") Http.FORBIDDEN),
       w2).
Proof.
  intros Hs Hops Hsec w2 (token & claims & Htok & Hver & Hid).
  assert (isValidObjectId target = true ∧ locked_out target w1) as [Hv Hl].
  { by eapply suspendUser_locks. }
  assert (locked_out target w2) as (a & Ha & Hb).
  { subst w2. clear Hs Hver Htok. revert w1 Hl Hops. induction ops as [|op ops IH]; intros w1 Hl Hops; [done|].
    cbn in *. apply andb_true_iff in Hops as [Hop%negb_true_iff Hops]. apply IH; [|done].
    by apply (account_step_keeps target op w1). }
  exists (ac_status a). split; [done|]. unfold authenticate. rewrite run_bind, run_or_throw, Htok. cbn [fst snd].
  rewrite run_bind, run_throw_if, Hsec. cbn [negb fst snd]. unfold ac_now. rewrite run_bind, run_reads. cbn [fst snd].
  rewrite run_bind, run_or_throw, Hver. cbn [fst snd]. unfold claimed_account. rewrite Hid.
  rewrite run_bind, run_find_account by done. cbn [fst snd]. unfold find_by_id. rewrite Ha.
  cbn [fmap option_fmap option_map]. rewrite run_bind, run_or_throw. cbn [fst snd body].
  by rewrite run_bind, run_throw_if, Hb.
Qed.

(** ** Tokens of a login *)

(** What signed tokens promise: the claims come back until the token expires,
    with the times added to them, and a token holds no space. *)
Class TokenLaws : Prop := {
  verify_signed u r secret t ttl t' :
    (t ≤ t' < t + ttl)%Z →
    ∃ times, verify_token (sign_token u r secret t ttl) secret t'
             = Some (JObj ([("userId", JStr u); ("role", JStr r)] ++ times)) ∧
      ∀ kv, kv ∈ times → kv.1 = "iat" ∨ kv.1 = "exp";
  verify_expired u r secret t ttl t' :
    (t + ttl ≤ t')%Z → verify_token (sign_token u r secret t ttl) secret t' = None;
  signed_word u r secret t ttl : first_word (sign_token u r secret t ttl) = sign_token u r secret t ttl
}.

Lemma substring_all s n : String.length s ≤ n → String.substring 0 n s = s.
Proof. revert n. induction s as [|c s IH]; intros [|n] Hn; cbn in *; [done|done|lia|]. rewrite IH; [done|lia]. Qed.
Lemma token_of_bearer token : first_word token = token → token_of (Some (bearer token)) = Some token.
Proof.
  intros Hw. unfold token_of, bearer.
  assert (Str.truthy ("Bearer " +:+ token) && Str.startsWith ("Bearer " +:+ token) "Bearer " = true) as ->.
  { unfold Str.startsWith. apply andb_true_iff. split; [done|]. by destruct token. }
  f_equal. rewrite <-Hw at 3. f_equal.
  change (String.substring 7 (String.length ("Bearer " +:+ token)) ("Bearer " +:+ token))
    with (String.substring 0 (String.length ("Bearer " +:+ token)) token).
  apply substring_all. change (String.length token ≤ 7 + String.length token). lia.
Qed.

(** The last property of a name wins, and the times have other names. *)
Lemma field_userId id role times :
  (∀ kv, kv ∈ times → kv.1 = "iat" ∨ kv.1 = "exp") →
  Json.field "userId" (JObj ([("userId", JStr id); ("role", role)] ++ times)) = Some (JStr id).
Proof.
  intros Ht. unfold Json.field. rewrite rev_app_distr.
  assert (∀ l k : list (string * json), (∀ kv, kv ∈ l → kv.1 = "iat" ∨ kv.1 = "exp") →
    List.find (λ kv, String.eqb kv.1 "userId") (l ++ k) = List.find (λ kv, String.eqb kv.1 "userId") k) as Hf.
  { induction l as [|kv l IH]; intros k Hl; [done|]. cbn.
    assert (String.eqb kv.1 "userId" = false) as ->. { destruct (Hl kv) as [->| ->]; [by left|done..]. }
    apply IH. intros x Hx. apply Hl. by right. }
  rewrite Hf; [done|]. intros kv Hkv. apply Ht. apply list_elem_of_In. apply list_elem_of_In in Hkv.
  by apply in_rev.
Qed.

Lemma login_inv email password dto token w w1 :
  run (login email password) w = (inr (dto, token), w1) →
  w1 = w ∧ ∃ a, accounts w !! dto_id dto = Some a ∧ Str.truthy AUTH_SECRET = true ∧
    ac_email a = normal_email email ∧ compare_password password (ac_password a) = true ∧
    token = sign_token (dto_id dto) (role_string (ac_role a)) AUTH_SECRET (now_ms (ac_base w)) JWT_EXPIRES_IN.
Proof.
  unfold login. rewrite run_bind, run_reads. cbn [fst snd].
  destruct (find_one (by_email email) (accounts w)) as [u|] eqn:Hu; [|by rewrite run_bind, run_or_throw].
  apply find_one_Some in Hu as [Hu Hem].
  rewrite run_bind, run_or_throw. cbn [fst snd]. rewrite run_bind, run_throw_if. cbn [fst snd].
  destruct (ac_isActive (body u)); [|done]. cbn [negb]. rewrite run_bind, run_throw_if. cbn [fst snd].
  destruct (compare_password password (ac_password (body u))) eqn:Hc; [|done]. cbn [negb].
  unfold ac_now. rewrite run_bind, run_reads. cbn [fst snd]. rewrite run_bind, run_done. unfold generateToken.
  destruct (Str.truthy AUTH_SECRET) eqn:Hs; [|done]. cbn [fst snd]. rewrite run_ret. intros Heq.
  injection Heq as <- <- <-. split; [done|]. exists (body u). cbn. apply String.eqb_eq in Hem. done.
Qed.

(** The token of a login identifies its user to every later request, whatever
    has become of the accounts in between: until it expires the request carries
    the account as it then is, unless it is blocked or gone, and from its expiry
    on it is refused. *)
Theorem login_authenticates `{!TokenLaws} email password dto token w w1 w2 :
  run (login email password) w = (inr (dto, token), w1) →
  isValidObjectId (dto_id dto) = true →
  run (authenticate (Some (bearer token))) w2 =
    (if (now_ms (ac_base w2) <? now_ms (ac_base w) + JWT_EXPIRES_IN)%Z then
       match accounts w2 !! dto_id dto with
       | None => inl (AppError "The user associated with this token no longer exists." Http.UNAUTHORIZED)
       | Some a =>
           if blocked (ac_status a)
           then inl (AppError ("Your account has been " +:+ user_status_string (ac_status a)
                               +:+ ". Please contact support.") Http.FORBIDDEN)
           else inr (Doc (dto_id dto) a)
       end
     else inl (AppError "Invalid or expired token. Please log in again." Http.UNAUTHORIZED), w2)
  ∨ (now_ms (ac_base w2) < now_ms (ac_base w))%Z.
Proof.
  intros Hl Hid. apply login_inv in Hl as (-> & a & Ha & Hsec & _ & _ & ->).
  destruct (Z.lt_ge_cases (now_ms (ac_base w2)) (now_ms (ac_base w))) as [?|Hge]; [by right|left].
  unfold authenticate. rewrite run_bind, run_or_throw, token_of_bearer by apply signed_word. cbn [fst snd].
  rewrite run_bind, run_throw_if, Hsec. cbn [negb fst snd]. unfold ac_now. rewrite run_bind, run_reads. cbn [fst snd].
  rewrite run_bind, run_or_throw.
  destruct (now_ms (ac_base w2) <? now_ms (ac_base w) + JWT_EXPIRES_IN)%Z eqn:Ht;
    [apply Z.ltb_lt in Ht|apply Z.ltb_ge in Ht; by rewrite verify_expired].
  destruct (verify_signed (dto_id dto) (role_string (ac_role a)) AUTH_SECRET
    (now_ms (ac_base w)) JWT_EXPIRES_IN (now_ms (ac_base w2))) as (times & -> & Htimes); [done|]. cbn [fst snd].
  rewrite run_bind. unfold claimed_account. rewrite field_userId by done.
  rewrite run_find_account by done. cbn [fst snd]. unfold find_by_id. rewrite run_bind, run_or_throw.
  destruct (accounts w2 !! dto_id dto) as [a2|]; [|done]. cbn [fmap option_fmap option_map fst snd body].
  rewrite run_bind, run_throw_if. by destruct (blocked (ac_status a2)).
Qed.

(** ** Soft deletion *)
Definition delivery_deleted (t : Z) (by_ : option string) (d : Delivery) : Delivery :=
  softDelete t by_ d <| d_updatedAt := t |>.

Lemma run_save_delivery d f b d0 :
  deliveries b !! _id d = Some d0 →
  run (DeliveryRepository.save d f) b
  = (inr (Doc (_id d) (f (body d) <| d_updatedAt := now_ms b |>)),
     b <| deliveries ::= <[_id d := f d0 <| d_updatedAt := now_ms b |>]> |>).
Proof. intros Hd. unfold DeliveryRepository.save. by rewrite run_atomic_try, Hd. Qed.

Lemma run_delete_loop by_ (l : list (hydrated Delivery)) n b :
  NoDup (_id <$> l) → (∀ d, d ∈ l → is_Some (deliveries b !! _id d)) →
  run (fold_prog (λ n d, t ← now; _ ← DeliveryRepository.save d (softDelete t by_); mret (S n)) n l) b
  = (inr (n + length l),
     b <| deliveries := update_many (λ k _, includes k (_id <$> l)) (delivery_deleted (now_ms b) by_) (deliveries b) |>).
Proof.
  revert n b. induction l as [|d l IH]; intros n b Hnd Hin; cbn [fold_prog].
  - rewrite run_ret, Nat.add_0_r. f_equal. destruct b. unfold set. cbn. f_equal.
    apply map_eq. intros k. rewrite lookup_update_many. by destruct (deliveries !! k).
  - apply NoDup_cons in Hnd as [Hd Hnd]. destruct (Hin d) as [d0 Hd0]; [by left|].
    rewrite run_bind, run_bind, run_now. cbn [fst snd]. rewrite run_bind.
    rewrite (run_save_delivery _ _ _ d0) by done. cbn [fst snd]. rewrite run_ret. cbn [fst snd].
    rewrite IH; [|done|].
    2:{ intros d' Hd'. unfold set; cbn [deliveries]. rewrite lookup_insert_ne; [apply Hin; by right|].
        intros Heq. apply Hd. rewrite Heq. by apply list_elem_of_fmap_2. }
    f_equal; [f_equal; cbn; lia|]. destruct b. unfold set. cbn in *. f_equal. apply map_eq. intros k.
    rewrite !lookup_update_many. destruct (decide (k = _id d)) as [->|Hk].
    + rewrite lookup_insert_eq, Hd0. cbn. unfold includes. rewrite bool_decide_false by done.
      by rewrite bool_decide_true by by left.
    + rewrite lookup_insert_ne by done. destruct (deliveries !! k); [|done]. cbn. unfold includes.
      rewrite (bool_decide_ext (k ∈ _id d :: (_id <$> l)) (k ∈ _id <$> l)); [done|].
      rewrite elem_of_cons. split; [by intros [->|?]|by right].
Qed.

(** The world once the related deliveries are deleted. *)
Definition deliveries_gone (id : string) (t : Z) (by_ : option string) (m : gmap string Delivery) : gmap string Delivery :=
  update_many (λ _ d, related id d) (delivery_deleted t by_) m.

Lemma run_delete_related id by_ b :
  run (fold_prog (λ n d, t ← now; _ ← DeliveryRepository.save d (softDelete t by_); mret (S n)) 0
         (find_all (related id) (deliveries b))) b
  = (inr (length (find_all (related id) (deliveries b))),
     b <| deliveries := deliveries_gone id (now_ms b) by_ (deliveries b) |>).
Proof.
  rewrite run_delete_loop; [|apply find_all_NoDup|].
  - f_equal. unfold set. f_equal. apply map_eq. intros k. unfold deliveries_gone. rewrite !lookup_update_many.
    destruct (deliveries b !! k) as [d|] eqn:Hk; [|done]. cbn. f_equal.
    assert (includes k (_id <$> find_all (related id) (deliveries b)) = related id d) as ->; [|done].
    apply eq_true_iff_eq. rewrite includes_true, list_elem_of_fmap. split.
    + intros (x & -> & [Hx Hr]%elem_of_find_all). by simplify_eq.
    + intros Hr. exists (Doc k d). split; [done|]. by apply elem_of_find_all.
  - intros d [Hd _]%elem_of_find_all. by eexists.
Qed.

(** A picture that is cleaned up. *)
Definition has_picture (a : Account) : bool := match ac_profilePictureKey a with Some k => Str.truthy k | None => false end.
Definition without_picture (a : Account) : Account := if has_picture a then with_picture None None a else a.

Lemma run_cleanup id w a :
  isValidObjectId id = true → accounts w !! id = Some a →
  ∃ w', run (cleanupForDeletedUser id) w = (inr tt, w') ∧
    accounts w' = <[id := without_picture a]> (accounts w) ∧ ac_base w' = ac_base w ∧
    driverProfiles w' = driverProfiles w ∧
    (storedFiles w' = storedFiles w ∨
     ∃ k, ac_profilePictureKey a = Some k ∧ storedFiles w' = storedFiles w ∖ {[k]}).
Proof.
  intros Hv Ha. unfold cleanupForDeletedUser, without_picture, has_picture.
  rewrite run_bind, run_find_account by done. cbn [fst snd]. unfold find_by_id. rewrite Ha.
  cbn [fmap option_fmap option_map mbind option_bind body].
  destruct (ac_profilePictureKey a) as [k|]; [destruct (Str.truthy k)|].
  - rewrite run_bind, (run_save_account _ _ _ a) by done. cbn [fst snd _id].
    unfold removeStoredFile. rewrite run_writes. eexists. split; [done|].
    destruct (delete_fails _ _); unfold set; cbn; (split; [done|]; split; [done|]; split; [done|]); [by left|].
    right. by exists k.
  - exists w. rewrite insert_id by done. repeat split; [..|by left]; done.
  - exists w. rewrite insert_id by done. repeat split; [..|by left]; done.
Qed.

(** Deleting a user is a cascade with an exact extent: the driver profile and
    every delivery that is not deleted and that the user drives, created, sends
    or receives are marked with the time and the deleter, no other document
    changes, the stored picture is given up, and the result reports what was
    deleted; a user that is already deleted is refused and nothing changes. *)
Theorem softDeleteUser_correct id by_ w a :
  isValidObjectId id = true → accounts w !! id = Some a →
  let t := now_ms (ac_base w) in
  if ac_isDeleted a
  then run (softDeleteUser id by_) w = (inl (AppError "User is already deleted." Http.CONFLICT), w)
  else ∃ w',
    run (softDeleteUser id by_) w =
      (inr (mkSoftDelete (Doc id (soft_deleted t by_ a)) (bool_decide (is_Some (driverProfiles w !! id)))
              (length (find_all (related id) (deliveries (ac_base w))))), w') ∧
    accounts w' = <[id := soft_deleted t by_ (without_picture a)]> (accounts w) ∧
    driverProfiles w' = alter (profile_deleted t by_) id (driverProfiles w) ∧
    deliveries (ac_base w') = deliveries_gone id t by_ (deliveries (ac_base w)) ∧
    (storedFiles w' = storedFiles w ∨
     ∃ k, ac_profilePictureKey a = Some k ∧ storedFiles w' = storedFiles w ∖ {[k]}).
Proof.
  intros Hv Ha t. unfold softDeleteUser. rewrite run_bind, run_throw_if, Hv. cbn [negb fst snd].
  rewrite run_bind, run_find_account by done. cbn [fst snd]. unfold find_by_id. rewrite Ha.
  cbn [fmap option_fmap option_map]. rewrite run_bind, run_or_throw. cbn [fst snd body].
  rewrite run_bind, run_throw_if. destruct (ac_isDeleted a); [done|]. cbn [fst snd].
  assert (run (delete_profile id by_) w = (inr (bool_decide (is_Some (driverProfiles w !! id))),
    w <| driverProfiles ::= alter (profile_deleted t by_) id |>)) as Hprof.
  { unfold delete_profile, ac_now. rewrite run_bind, run_reads. cbn [fst snd].
    destruct (driverProfiles w !! id) as [p|] eqn:Hp.
    - rewrite run_bind, run_reads. cbn [fst snd]. by rewrite run_bind, run_writes.
    - rewrite run_ret. f_equal. destruct w. unfold set. cbn in *. f_equal.
      symmetry. apply alter_id. intros p Hp'. by rewrite Hp in Hp'. }
  rewrite run_bind, Hprof. cbn [fst snd]. set (w1 := w <| driverProfiles ::= _ |>).
  rewrite run_bind, run_account_base. unfold DeliveryRepository.find. rewrite run_reads. cbn [fst snd].
  rewrite run_bind. unfold delete_deliveries. rewrite run_account_base.
  change (ac_base (put_base (ac_base w1) w1)) with (ac_base w). change (ac_base w1) with (ac_base w).
  rewrite run_delete_related. cbn [fst snd]. set (w2 := put_base _ _).
  destruct (run_cleanup id w2 a) as (w3 & Hc & Hacc & Hbase & Hpr & Hfiles); [done..|].
  rewrite run_bind, Hc. cbn [fst snd]. unfold ac_now. rewrite run_bind, run_reads. cbn [fst snd].
  rewrite run_bind, (run_save_account _ _ _ (without_picture a)) by (rewrite Hacc; apply lookup_insert_eq).
  cbn [fst snd]. rewrite run_ret. rewrite Hbase. eexists. split; [done|].
  unfold set. cbn [accounts driverProfiles ac_base storedFiles]. rewrite Hacc, Hpr, Hbase.
  split; [by rewrite insert_insert_eq|]. split; [done|]. split; [done|]. exact Hfiles.
Qed.
End Accounts.

(** ** Concrete runs *)
Module AccountExamples.
Import ExampleEnv.

(** Tokens that spell their contents in binary digits. *)
Fixpoint bits (p : positive) : string :=
  match p with
  | xH => "1"
  | xO p => String "0" (bits p)
  | xI p => String "i" (bits p)
  end.
Fixpoint unbits (s : string) : option positive :=
  match s with
  | String "1" EmptyString => Some 1%positive
  | String "0" s => option_map xO (unbits s)
  | String "i" s => option_map xI (unbits s)
  | _ => None
  end.
Lemma unbits_bits p : unbits (bits p) = Some p.
Proof. induction p as [p IH|p IH|]; cbn; rewrite ?IH; done. Qed.
Lemma first_word_bits p : first_word (bits p) = bits p.
Proof. induction p as [p IH|p IH|]; cbn; rewrite ?IH; done. Qed.

Definition example_sign (u r secret : string) (t ttl : Z) : string := bits (encode (u, r, secret, t, ttl)).
Definition example_verify (token secret : string) (t' : Z) : option json :=
  match unbits token ≫= decode (A:=string * string * string * Z * Z) with
  | Some (u, r, s, t, ttl) =>
      if String.eqb s secret && (t' <? t + ttl)%Z
      then Some (JObj ([("userId", JStr u); ("role", JStr r)] ++ [("iat", JNum (Num.of_Z t))])) else None
  | None => None
  end.

#[export] Instance storage : StorageDriver := {| upload _ k _ := inr (k, "https://cdn.example/" +:+ k) |}.
#[export] Instance account_env : AccountEnv := {|
  AUTH_SECRET := "secret";
  JWT_EXPIRES_IN := 3600000;
  BCRYPT_ROUNDS := 10;
  sign_token := example_sign;
  verify_token := example_verify;
  hash_password p := "#" +:+ p;
  compare_password p h := String.eqb ("#" +:+ p) h;
  process_image b := if Str.truthy b then Some b else None;
  newUUID n := "uuid" +:+ pretty n;
  PROFILE_PICTURE_MAX_SIZE_MB := 5;
  delete_fails _ _ := false
|}.
#[export] Instance token_laws : TokenLaws.
Proof.
  split.
  - intros u r secret t ttl t' [_ Ht]. exists [("iat", JNum (Num.of_Z t))]. split.
    + unfold verify_token, sign_token; cbn [account_env]. unfold example_verify, example_sign.
      rewrite unbits_bits. cbn [mbind option_bind]. rewrite decode_encode, String.eqb_refl.
      by rewrite (proj2 (Z.ltb_lt _ _)) by lia.
    + intros kv ->%list_elem_of_singleton. by left.
  - intros u r secret t ttl t' Ht. unfold verify_token, sign_token; cbn [account_env].
    unfold example_verify, example_sign. rewrite unbits_bits. cbn [mbind option_bind].
    rewrite decode_encode, String.eqb_refl. by rewrite (proj2 (Z.ltb_ge _ _)) by lia.
  - intros u r secret t ttl. apply first_word_bits.
Qed.

Definition alice : string := "64b7f0c2a1d3e4f500000001".
Definition admin1 : string := "64b7f0c2a1d3e4f500000002".
Definition account (email : string) (role : UserRole) : Account :=
  mkAccount email "#password1" "Alice" "Doe" role ACTIVE None None true None (Some "https://cdn.example/p.jpg")
    (Some "p.jpg") false None None.
Definition trip (deleted : bool) : Delivery :=
  mkDelivery None (Some alice) None (Some admin1) None None None None JNull JNull JNull JNull None None None None
    None None None DeliveryStatus.PENDING None None None None deleted None None 0 0.
Definition start : Accounts :=
  mkAccounts (empty_world 1700000000000 <| deliveries := {["d1" := trip false; "d2" := trip true]} |>)
    {[alice := account "alice@example.com" DRIVER; admin1 := account "root@example.com" ADMIN]}
    {[alice := mkProfileDeletion false None None]} {["p.jpg"]}.

Definition session : (error + (UserDTO * string)) * Accounts := run (login "Alice@Example.com" "password1") start.
Definition session_token : string := match session.1 with inr (_, t) => t | inl _ => "" end.
Definition session_user : UserDTO := match session.1 with inr (d, _) => d | inl _ => toUserDTO None (account "" USER) end.

Lemma login_authenticates_witness :
  (run (authenticate (Some (bearer session_token))) start).1 = inr (Doc alice (account "alice@example.com" DRIVER)).
Proof.
  destruct (login_authenticates "Alice@Example.com" "password1" session_user session_token start start start)
    as [H|H].
  - vm_compute. reflexivity.
  - vm_compute. reflexivity.
  - rewrite H. vm_compute. reflexivity.
  - exfalso. vm_compute in H. discriminate H.
Defined.

(** A suspended driver who logs in again: the login succeeds, its token does not. *)
Definition suspension : (error + (hydrated Account * UserStatus)) * Accounts :=
  run (suspendUser alice admin1 "fraud" false) start.
Definition suspension_result : hydrated Account * UserStatus :=
  match suspension.1 with inr r => r | inl _ => (Doc "" (account "" USER), ACTIVE) end.
Definition later : list account_op := [op_wait 1000; op_login "alice@example.com" "password1"; op_delete alice None].

Lemma suspension_locks_out_witness :
  ∃ s, blocked s = true ∧
    (run (authenticate (Some (bearer session_token))) (foldl (λ w op, account_step op w) suspension.2 later)).1
    = inl (AppError ("Your account has been " +:+ user_status_string s +:+ ". Please contact support.") Http.FORBIDDEN).
Proof.
  destruct (suspension_locks_out alice admin1 "fraud" false suspension_result start suspension.2 later
    (Some (bearer session_token))) as (s & Hs & Hrun).
  - unfold suspension_result. unfold suspension. vm_compute. reflexivity.
  - reflexivity.
  - reflexivity.
  - exists session_token. eexists. split; [vm_compute; reflexivity|]. split; vm_compute; reflexivity.
  - exists s. split; [exact Hs|]. by rewrite Hrun.
Defined.

(** A deleted user still logs in, and the token is accepted. *)
Example deleted_user_authenticates :
  let w := (run (softDeleteUser alice None) start).2 in
  match (run (login "alice@example.com" "password1") w).1 with
  | inr (_, t) => (run (authenticate (Some (bearer t))) w).1 = inr (Doc alice (soft_deleted 1700000000000 None
                    (without_picture (account "alice@example.com" DRIVER))))
  | inl _ => False
  end.
Proof. vm_compute. reflexivity. Qed.

(** [getUserById] answers the id "undefined": a lean document has no [id]. *)
Example lean_id_undefined :
  option_map dto_id (match (run (auth_getUserById alice) start).1 with inr o => o | inl _ => None end)
  = Some "undefined".
Proof. vm_compute. reflexivity. Qed.

Lemma softDeleteUser_correct_witness :
  ∃ w', run (softDeleteUser alice (Some admin1)) start =
      (inr (mkSoftDelete (Doc alice (soft_deleted 1700000000000 (Some admin1) (account "alice@example.com" DRIVER)))
              true 1), w') ∧
    accounts w' !! admin1 = Some (account "root@example.com" ADMIN) ∧
    deliveries (ac_base w') !! "d2" = Some (trip true).
Proof.
  destruct (softDeleteUser_correct alice (Some admin1) start (account "alice@example.com" DRIVER))
    as (w' & Hrun & Ha & _ & Hd & _); [reflexivity|reflexivity|].
  exists w'. split; [rewrite Hrun; vm_compute; reflexivity|].
  split; [rewrite Ha; vm_compute; reflexivity|]. rewrite Hd. vm_compute. reflexivity.
Defined.
End AccountExamples.
