(* ===== verification/LocationSync.v ===== *)
(** * Positions sent over sockets ([src/src/sockets/location.service.ts],
      [src/src/sockets/sync.service.ts], [src/src/sockets/syncHandler.ts] and
      the update handler of [src/src/sockets/locationHandler.ts])

    A driver sends live positions of a delivery, which are validated, checked
    against duplicates and late arrivals in Redis, stored and broadcast; and
    batches of positions captured offline, which are validated one by one,
    compared with what is stored, inserted and acknowledged one by one.
    Payloads are JSON values, as the sockets deliver them. *)
From S2P Require Import Prelude JsLib Models.
From Stdlib Require Import SpecFloat.

(** ** Data ([models/LocationUpdate.ts], [sockets/socket.types.ts]) *)
Inductive LocationStatus := loc_pending | loc_processed | loc_failed.

Record LocationUpdate := mkLocationUpdate {
  lu_driverId : string;
  lu_deliveryId : option string;
  lu_lat : number;
  lu_lng : number;
  lu_capturedAt : Z;
  isOfflineSync : bool;
  lu_status : LocationStatus
}.

(** A point whose fields were checked. *)
Record OfflineLocationPoint := mkPoint {
  pt_capturedAt : number;
  pt_lat : number;
  pt_lng : number;
  pt_deliveryId : option json
}.

Inductive SyncStatus := saved | duplicate | invalid | failed_item.
#[export] Instance SyncStatus_eq_dec : EqDecision SyncStatus.
Proof. solve_decision. Defined.

Record SyncItemResult := mkItem { it_capturedAt : json; it_status : SyncStatus; it_reason : option string }.

Record LocationSyncAck := mkSyncAck {
  ack_processedAt : string;
  received : nat;
  savedCount : nat;
  duplicates : nat;
  failed : nat;
  results : list SyncItemResult
}.

Record LocationBroadcastPayload := mkBroadcast {
  br_deliveryId : json;
  br_driverId : string;
  br_lat : number;
  br_lng : number;
  br_capturedAt : number;
  br_receivedAt : string
}.

Record LocationUpdateAck := mkAck {
  success : bool;
  locationId : option string;
  ack_error : option string;
  isDuplicate : bool;
  isStale : bool
}.

(** What leaves through the sockets: a broadcast to a room, or the answer to
    one socket. *)
Inductive emission :=
  | to_room (room : string) (p : LocationBroadcastPayload)
  | update_ack (socket : string) (a : LocationUpdateAck)
  | sync_ack (socket : string) (a : LocationSyncAck).

(** Redis holds the keys of recent updates and, per driver and delivery, the
    time of the last one, each with the time it expires at. *)
Record Tracking := mkTracking {
  tr_now : Z;
  tr_nextId : nat;
  redis_up : bool;
  dedupKeys : gmap string Z;
  lastUpdates : gmap (string * string) (number * Z);
  locationUpdates : list (hydrated LocationUpdate);
  emitted : list emission
}.
#[export] Instance Tracking_eta : Settable Tracking := λ w,
  mkTracking w.(tr_now) w.(tr_nextId) w.(redis_up) w.(dedupKeys) w.(lastUpdates) w.(locationUpdates) w.(emitted).

(** [objectId v] is [new Types.ObjectId(v)], which throws on a value that is
    not valid; a write of the database may fail, a bulk insert after part of it. *)
Class TrackingEnv := {
  objectId : json → option string;
  SYNC_BATCH_SIZE_LIMIT : nat;
  LOCATION_DEDUP_TTL_SECONDS : Z;
  LOCATION_MAX_AGE_MS : Z;
  LOCATION_MAX_FUTURE_MS : Z;
  create_fails : LocationUpdate → Tracking → option string;
  insertMany_fails : list LocationUpdate → Tracking → option (string * list bool)
}.

Section LocationSync.
Context `{Env, TrackingEnv}.

Abbreviation tracking := (prog Tracking).

Definition isValidId (v : json) : bool := if objectId v is Some _ then true else false.
Definition tracking_now : tracking Z := reads tr_now.
Definition emit (e : emission) : tracking unit := writes (λ w, w <| emitted ::= (.++ [e]) |>).

(** ** Checks *)

(** [typeof v === 'number' && Number.isFinite(v)], then the range. *)
Definition coordinate (name : string) (bound : Z) (v : option json) : string + number :=
  match Json.as_number v with
  | Some x =>
      if negb (Num.isFinite x) then inl (name +:+ " must be a finite number")
      else if Num.ltb x (Num.of_Z (- bound)) || Num.ltb (Num.of_Z bound) x
      then inl (name +:+ " out of range: " +:+ NumPrint.to_string x) else inr x
  | None => inl (name +:+ " must be a finite number")
  end.

(** A positive finite number. *)
Definition epoch (v : option json) : option number :=
  x ← Json.as_number v; if Num.positive x then Some x else None.

(** [validatePoint]: the reason a point is refused, or the point; reading a
    property of [null] throws. *)
Definition validatePoint (p : json) : error + (string + OfflineLocationPoint) :=
  c ← Json.prop "capturedAt" p;
  mret
    match epoch c with
    | None => inl "capturedAt must be a positive finite number (ms epoch)"
    | Some t =>
        match coordinate "lat" 90 (Json.field "lat" p) with
        | inl m => inl m
        | inr la =>
            match coordinate "lng" 180 (Json.field "lng" p) with
            | inl m => inl m
            | inr ln =>
                match Json.field "deliveryId" p with
                | Some d =>
                    if isValidId d then inr (mkPoint t la ln (Some d))
                    else inl ("deliveryId is not a valid ObjectId: " +:+ Json.to_text d)
                | None => inr (mkPoint t la ln None)
                end
            end
        end
    end.

(** ** Offline batches *)

(** The first loop: what is refused, and the valid points. *)
Fixpoint validate_all (l : list json) : error + (list SyncItemResult * list OfflineLocationPoint) :=
  match l with
  | [] => inr ([], [])
  | p :: l =>
      v ← validatePoint p;
      '(rs, ps) ← validate_all l;
      mret
        match v with
        | inl reason =>
            (mkItem (Json.coalesce (Json.field "capturedAt" p) (JNum Num.zero)) invalid (Some reason) :: rs, ps)
        | inr q => (rs, q :: ps)
        end
  end.

(** The date of a point: the query refuses an invalid date. *)
Definition date_cast_error : error := PlainError "Cast to date failed".
Definition dates (ps : list OfflineLocationPoint) : option (list Z) :=
  mapM (M:=option) (λ p, Date.of_number (pt_capturedAt p)) ps.

(** [new Set(existingDocs.map(...))]: the stored times of the driver among the
    batch's. *)
Definition existing_times (driver : string) (ds : list Z) (w : Tracking) : list number :=
  (λ u, Num.of_Z (lu_capturedAt (body u))) <$>
  List.filter (λ u, String.eqb (lu_driverId (body u)) driver && includes (lu_capturedAt (body u)) ds)
    (locationUpdates w).
Definition has (s : list number) (x : number) : bool := some (Num.eqb x) s.

Definition offline_update (driver : string) (p : OfflineLocationPoint) (date : Z) : LocationUpdate :=
  mkLocationUpdate driver
    (match pt_deliveryId p with Some d => if Json.truthy (Some d) then objectId d else None | None => None end)
    (pt_lat p) (pt_lng p) date true loc_pending.

(** The second loop: duplicates of what is stored or seen, and the documents. *)
Fixpoint dedupe (driver : string) (existing seen : list number) (ps : list (OfflineLocationPoint * Z))
    : list SyncItemResult * list LocationUpdate :=
  match ps with
  | [] => ([], [])
  | (p, date) :: ps =>
      let ts := pt_capturedAt p in
      if has existing ts || has seen ts
      then let '(rs, docs) := dedupe driver existing seen ps in (mkItem (JNum ts) duplicate None :: rs, docs)
      else let '(rs, docs) := dedupe driver existing (seen ++ [ts]) ps in (rs, offline_update driver p date :: docs)
  end.

Definition stored_from (n : nat) (docs : list LocationUpdate) : list (hydrated LocationUpdate) :=
  imap (λ i d, Doc (newObjectId (n + i)) d) docs.
(** The documents whose flag is set. *)
Fixpoint flagged {A} (flags : list bool) (l : list A) : list A :=
  match flags, l with
  | b :: flags, x :: l => if b then x :: flagged flags l else flagged flags l
  | _, _ => []
  end.

(** [LocationUpdate.insertMany(docs, { ordered: false })]. *)
Definition insertMany (docs : list LocationUpdate) : tracking unit :=
  atomic_try (λ w,
    let all := stored_from (tr_nextId w) docs in
    let n := tr_nextId w + length docs in
    match insertMany_fails docs w with
    | None => (inr tt, w <| locationUpdates ::= (.++ all) |> <| tr_nextId := n |>)
    | Some (m, flags) =>
        (inl (PlainError m), w <| locationUpdates ::= (.++ flagged flags all) |> <| tr_nextId := n |>)
    end).

Definition item_of (st : SyncStatus) (reason : option string) (d : LocationUpdate) : SyncItemResult :=
  mkItem (JNum (Num.of_Z (lu_capturedAt d))) st reason.

Definition with_status (P : SyncStatus → bool) (l : list SyncItemResult) : nat :=
  length (List.filter (λ r, P (it_status r)) l).

Definition buildAck (processedAt : string) (n : nat) (rs : list SyncItemResult) : LocationSyncAck :=
  mkSyncAck processedAt n
    (with_status (λ s, if s is saved then true else false) rs)
    (with_status (λ s, if s is duplicate then true else false) rs)
    (with_status (λ s, if s is (failed_item | invalid) then true else false) rs)
    rs.

Definition lift {A} (r : error + A) : tracking A := Done r.

(** The results of the insertion: saved, or failed with the error's message. *)
Definition insert_results (docs : list LocationUpdate) : tracking (list SyncItemResult) :=
  if bool_decide (docs = []) then mret [] else
  try_catch (_ ← insertMany docs; mret (item_of saved None <$> docs))
    (λ e, mret (item_of failed_item (Some (error_message e)) <$> docs)).

Definition processBatch (driver : string) (raw : list json) : tracking LocationSyncAck :=
  t ← tracking_now;
  let processedAt := Date.toISOString t in
  _ ← throw_if (negb (isValidId (JStr driver))) (PlainError ("Invalid driverId: " +:+ driver));
  let updates := take SYNC_BATCH_SIZE_LIMIT raw in
  '(refused, validPoints) ← lift (validate_all updates);
  if bool_decide (validPoints = []) then mret (buildAck processedAt (length updates) refused) else
  ds ← or_throw (dates validPoints) date_cast_error;
  existing ← reads (existing_times driver ds);
  let '(dups, toInsert) := dedupe driver existing [] (zip validPoints ds) in
  inserted ← insert_results toInsert;
  mret (buildAck processedAt (length updates) (refused ++ dups ++ inserted)).

(** *** The [location_sync] event *)
Definition no_updates (t : Z) : LocationSyncAck := mkSyncAck (Date.toISOString t) 0 0 0 0 [].

(** [payload.updates], when the payload is an object that has an array there. *)
Definition updates_of (payload : option json) : option (list json) :=
  match payload with
  | Some p => match Json.field "updates" p with Some (JArr l) => Some l | _ => None end
  | None => None
  end.

Definition failed_batch (t : Z) (message : string) (l : list json) : error + LocationSyncAck :=
  rs ← mapM (M:=sum error) (λ p, c ← Json.prop "capturedAt" p;
               mret (mkItem (Json.coalesce c (JNum Num.zero)) failed_item (Some message))) l;
  inr (mkSyncAck (Date.toISOString t) (length l) 0 0 (length l) rs).

Definition on_location_sync (socket : string) (userId : option string) (payload : option json) : tracking unit :=
  let driver := nullish userId "" in
  t ← tracking_now;
  if negb (Str.truthy driver) then emit (sync_ack socket (no_updates t)) else
  match updates_of payload with
  | None => emit (sync_ack socket (no_updates t))
  | Some l =>
      try_catch (ack ← processBatch driver l; emit (sync_ack socket ack))
        (λ e, ack ← lift (failed_batch t (error_message e) l); emit (sync_ack socket ack))
  end.

(** ** Live updates *)
Definition deliveryRoom (d : json) : string := "delivery:" +:+ Json.to_text d.

(** A payload whose fields were checked. *)
Record LiveUpdate := mkLive {
  lv_deliveryId : json;
  lv_lat : number;
  lv_lng : number;
  lv_capturedAt : option number
}.

(** [validatePayload]. *)
Definition validatePayload (payload : json) (driver : string) : string + LiveUpdate :=
  if negb (isValidId (JStr driver)) then inl ("Invalid driverId: " +:+ driver) else
  let d := Json.field "deliveryId" payload in
  match d with
  | Some id =>
      if Json.truthy d && isValidId id then
        match coordinate "lat" 90 (Json.field "lat" payload) with
        | inl m => inl m
        | inr la =>
            match coordinate "lng" 180 (Json.field "lng" payload) with
            | inl m => inl m
            | inr ln =>
                match Json.field "capturedAt" payload with
                | None => inr (mkLive id la ln None)
                | c =>
                    match epoch c with
                    | Some t => inr (mkLive id la ln (Some t))
                    | None => inl "capturedAt must be a positive finite number (ms epoch) if provided"
                    end
                end
            end
        end
      else inl ("deliveryId is missing or not a valid ObjectId: " +:+ Json.to_text id)
  | None => inl "deliveryId is missing or not a valid ObjectId: undefined"
  end.

Definition thousand : number := Num.of_Z 1000.
Definition in_seconds (x : number) : string := NumPrint.to_string (Math.round (Num.div x thousand)).

(** [validateTimestamp] at the time [t]: why an update is too old or ahead. *)
Definition validateTimestamp (capturedAt : number) (t : Z) : option string :=
  let age := Num.sub (Num.of_Z t) capturedAt in
  if Num.ltb (Num.of_Z LOCATION_MAX_AGE_MS) age
  then Some ("Update is too old: " +:+ in_seconds age +:+ "s ago (max: "
             +:+ in_seconds (Num.of_Z LOCATION_MAX_AGE_MS) +:+ "s)")
  else if Num.ltb age (Num.of_Z (- LOCATION_MAX_FUTURE_MS))
  then Some ("Update timestamp is too far in the future: " +:+ in_seconds (Num.opp age) +:+ "s ahead")
  else None.

Definition million : number := Num.of_Z 1000000.
Definition rounded (x : number) : number := Num.div (Math.round (Num.mul x million)) million.

Definition generateDedupKey (driver : string) (d : json) (capturedAt la ln : number) : string :=
  "location:dedup:" +:+ driver +:+ ":" +:+ Json.to_text d +:+ ":" +:+ NumPrint.to_string capturedAt +:+ ":"
  +:+ NumPrint.to_string (rounded la) +:+ ":" +:+ NumPrint.to_string (rounded ln).

(** One command of Redis, which throws when the connection is down. *)
Definition redis_error : error := PlainError "Connection is closed.".
Definition redis_command {A} (f : Tracking → A * Tracking) : tracking A :=
  atomic_try (λ w, if redis_up w then (inr (f w).1, (f w).2) else (inl redis_error, w)).

Definition unexpired {A} (t : Z) (v : option (A * Z)) : option A :=
  match v with Some (a, e) => if (t <? e)%Z then Some a else None | None => None end.
(** The entry of a key that has not expired. *)
Definition dedup_taken (key : string) (w : Tracking) : bool :=
  match dedupKeys w !! key with Some e => (tr_now w <? e)%Z | None => false end.
Definition last_update (driver : string) (d : json) (w : Tracking) : option number :=
  unexpired (tr_now w) (lastUpdates w !! (driver, Json.to_text d)).

(** [set(key, '1', 'EX', ttl, 'NX')]: whether the key was free. *)
Definition take_key (key : string) (w : Tracking) : bool * Tracking :=
  if dedup_taken key w then (false, w)
  else (true, w <| dedupKeys ::= <[key := (tr_now w + LOCATION_DEDUP_TTL_SECONDS * 1000)%Z]> |>).

(** [isDuplicate]: an unreachable Redis lets the update pass. *)
Definition is_duplicate (key : string) : tracking bool :=
  try_catch (free ← redis_command (take_key key); mret (negb free)) (λ _, mret false).

Definition remember_last (driver : string) (d : json) (capturedAt : number) (w : Tracking) : Tracking :=
  w <| lastUpdates ::=
    <[(driver, Json.to_text d) := (capturedAt, (tr_now w + LOCATION_DEDUP_TTL_SECONDS * 2 * 1000)%Z)]> |>.

(** [parseInt] of a decimal text below [10^21]: its integer part. *)
Definition parsed (x : number) : number := nullish (Num.of_Z <$> Num.trunc x) S754_nan.

(** [isStaleUpdate]: reads the last time, then writes the new one. *)
Definition isStaleUpdate (driver : string) (d : json) (capturedAt : number) : tracking bool :=
  try_catch
    (lastTimestamp ← redis_command (λ w, (last_update driver d w, w));
     if (match lastTimestamp with Some l => Num.ltb capturedAt (parsed l) | None => false end)
     then mret true
     else _ ← redis_command (λ w, (tt, remember_last driver d capturedAt w)); mret false)
    (λ _, mret false).

Definition live_document (driver : string) (u : LiveUpdate) (date : Z) : LocationUpdate :=
  mkLocationUpdate driver (objectId (lv_deliveryId u)) (lv_lat u) (lv_lng u) date false loc_pending.

(** [LocationUpdate.create]: an invalid date fails the validation. *)
Definition create (driver : string) (u : LiveUpdate) (capturedAt : number) : tracking string :=
  atomic_try (λ w,
    match Date.of_number capturedAt with
    | None => (inl (PlainError "LocationUpdate validation failed"), w)
    | Some date =>
        let doc := live_document driver u date in
        match create_fails doc w with
        | Some m => (inl (PlainError m), w)
        | None =>
            (inr (newObjectId (tr_nextId w)),
             w <| locationUpdates ::= (.++ [Doc (newObjectId (tr_nextId w)) doc]) |> <| tr_nextId ::= S |>)
        end
    end).

Definition rejected (m : string) : LocationUpdateAck := mkAck false None (Some m) false false.
Definition duplicate_ack : LocationUpdateAck :=
  mkAck false None (Some "Duplicate update (already processed within the last 60 seconds)") true false.
Definition stale_ack : LocationUpdateAck :=
  mkAck false None (Some "Stale update (older than last processed update)") false true.
Definition accepted (id : string) : LocationUpdateAck := mkAck true (Some id) None false false.

Definition broadcast_of (driver : string) (u : LiveUpdate) (capturedAt : number) (receivedAt : string)
    : LocationBroadcastPayload :=
  mkBroadcast (lv_deliveryId u) driver (lv_lat u) (lv_lng u) capturedAt receivedAt.

(** What follows the checks of the payload and its time: Redis, the database
    and the room. *)
Definition record_update (driver : string) (u : LiveUpdate) (capturedAt : number) (receivedAt : string)
    : tracking LocationUpdateAck :=
  dup ← is_duplicate (generateDedupKey driver (lv_deliveryId u) capturedAt (lv_lat u) (lv_lng u));
  if dup : bool then mret duplicate_ack else
  stale ← isStaleUpdate driver (lv_deliveryId u) capturedAt;
  if stale : bool then mret stale_ack else
  created ← outcome_of (create driver u capturedAt);
  match created with
  | inl e => mret (rejected (error_message e))
  | inr id =>
      _ ← emit (to_room (deliveryRoom (lv_deliveryId u)) (broadcast_of driver u capturedAt receivedAt));
      mret (accepted id)
  end.

Definition processLiveUpdate (driver : string) (payload : json) : tracking LocationUpdateAck :=
  match validatePayload payload driver with
  | inl m => mret (rejected m)
  | inr u =>
      t ← tracking_now;
      let capturedAt := nullish (lv_capturedAt u) (Num.of_Z t) in
      t' ← tracking_now;
      t'' ← tracking_now;
      match validateTimestamp capturedAt t'' with
      | Some m => mret (rejected m)
      | None => record_update driver u capturedAt (Date.toISOString t')
      end
  end.

(** *** The [driver_location_update] event *)
Definition is_object (v : option json) : option json :=
  match v with Some (JObj _ as p) | Some (JArr _ as p) => Some p | _ => None end.

Definition on_driver_location_update (socket : string) (userId : option string) (payload : option json)
    : tracking unit :=
  let driver := nullish userId "" in
  if negb (Str.truthy driver) then emit (update_ack socket (rejected "Authentication required")) else
  match is_object payload with
  | None => emit (update_ack socket (rejected "Malformed payload"))
  | Some p =>
      try_catch (ack ← processLiveUpdate driver p; emit (update_ack socket ack))
        (λ e, emit (update_ack socket (rejected (error_message e))))
  end.

(** ** Accounting: every point of a batch gets one result *)
Lemma validate_all_counts l rs ps :
  validate_all l = inr (rs, ps) →
  length rs + length ps = length l ∧ (∀ r, r ∈ rs → it_status r = invalid).
Proof.
  revert rs ps. induction l as [|p l IH]; intros rs ps Hv; cbn [validate_all] in Hv.
  { simplify_eq. split; [done|]. by intros r ?%not_elem_of_nil. }
  destruct (validatePoint p) as [e|v]; [done|].
  destruct (validate_all l) as [e|[rs' ps']]; [done|]. cbn in Hv.
  destruct (IH _ _ eq_refl) as [Hn Hr]. destruct v as [m|q]; cbv [mret result_ret] in Hv; simplify_eq; cbn [length].
  - split; [lia|]. intros r [->|Hin]%elem_of_cons; [done|auto].
  - split; [lia|done].
Qed.

Lemma dedupe_counts driver existing seen ps :
  length (dedupe driver existing seen ps).1 + length (dedupe driver existing seen ps).2 = length ps
  ∧ ∀ r, r ∈ (dedupe driver existing seen ps).1 → it_status r = duplicate.
Proof.
  revert seen. induction ps as [|[p date] ps IH]; intros seen; cbn [dedupe].
  { split; [done|]. by intros r ?%not_elem_of_nil. }
  destruct (has existing (pt_capturedAt p) || has seen (pt_capturedAt p)).
  - specialize (IH seen). destruct (dedupe driver existing seen ps) as [rs docs]. cbn in *.
    destruct IH as [Hn Hr]. split; [lia|]. intros r [->|Hin]%elem_of_cons; [done|auto].
  - specialize (IH (seen ++ [pt_capturedAt p])).
    destruct (dedupe driver existing (seen ++ [pt_capturedAt p]) ps) as [rs docs]. cbn in *.
    destruct IH as [Hn Hr]. split; [lia|done].
Qed.

(** The state after an insertion of [docs]. *)
Definition inserted_docs (docs : list LocationUpdate) (w : Tracking) : list (hydrated LocationUpdate) :=
  match insertMany_fails docs w with
  | None => stored_from (tr_nextId w) docs
  | Some (_, flags) => flagged flags (stored_from (tr_nextId w) docs)
  end.
Definition after_insert (docs : list LocationUpdate) (w : Tracking) : Tracking :=
  if bool_decide (docs = []) then w else
  w <| locationUpdates ::= (.++ inserted_docs docs w) |> <| tr_nextId := tr_nextId w + length docs |>.
Definition insert_outcome (docs : list LocationUpdate) (w : Tracking) : list SyncItemResult :=
  match insertMany_fails docs w with
  | None => item_of saved None <$> docs
  | Some (m, _) => item_of failed_item (Some m) <$> docs
  end.

Lemma run_insert_results docs w :
  run (insert_results docs) w
  = (inr (if bool_decide (docs = []) then [] else insert_outcome docs w), after_insert docs w).
Proof.
  unfold insert_results, after_insert, insert_outcome, inserted_docs.
  case_bool_decide as Hd; [done|]. rewrite run_try_catch, run_bind.
  unfold insertMany. rewrite run_atomic_try.
  by destruct (insertMany_fails docs w) as [[m flags]|].
Qed.

Lemma with_status_app P l k : with_status P (l ++ k) = with_status P l + with_status P k.
Proof. unfold with_status. by rewrite List.filter_app, length_app. Qed.
Lemma with_status_const P l st :
  (∀ r, r ∈ l → it_status r = st) → with_status P l = if P st then length l else 0.
Proof.
  intros Hl. unfold with_status. induction l as [|r l IH]; cbn; [by destruct (P st)|].
  rewrite (Hl r) by by left.
  assert (length (List.filter (λ r, P (it_status r)) l) = if P st then length l else 0) as Hi.
  { apply IH. intros x Hx. apply Hl. by right. }
  destruct (P st); cbn; rewrite Hi; done.
Qed.
Lemma item_of_status st m (docs : list LocationUpdate) r : r ∈ item_of st m <$> docs → it_status r = st.
Proof. by intros (d & -> & _)%list_elem_of_fmap. Qed.

(** What one batch inserts into a collection. *)
Definition batch_docs (driver : string) (ps : list OfflineLocationPoint) (ds : list Z) (w : Tracking)
    : list LocationUpdate :=
  (dedupe driver (existing_times driver ds w) [] (zip ps ds)).2.

(** A batch whose points can be read: no [null], no date out of range. *)
Definition readable (l : list json) (rs : list SyncItemResult) (ps : list OfflineLocationPoint) (ds : list Z) : Prop :=
  validate_all l = inr (rs, ps) ∧ dates ps = Some ds.

Lemma run_processBatch driver raw w rs ps ds :
  isValidId (JStr driver) = true →
  readable (take SYNC_BATCH_SIZE_LIMIT raw) rs ps ds →
  run (processBatch driver raw) w =
    (let docs := batch_docs driver ps ds w in
     (inr (buildAck (Date.toISOString (tr_now w)) (length (take SYNC_BATCH_SIZE_LIMIT raw))
             (rs ++ (dedupe driver (existing_times driver ds w) [] (zip ps ds)).1
                ++ (if bool_decide (docs = []) then [] else insert_outcome docs w))),
      after_insert docs w)).
Proof.
  intros Hid [Hv Hd]. unfold processBatch, tracking_now. cbn zeta.
  rewrite run_bind, run_reads. cbn [fst snd]. rewrite run_bind, run_throw_if, Hid. cbn [negb fst snd].
  rewrite Hv. rewrite run_bind. unfold lift. rewrite run_done. cbn [fst snd].
  case_bool_decide as Hp.
  - subst ps. cbn in Hd. simplify_eq. unfold batch_docs, after_insert. cbn. by rewrite app_nil_r.
  - rewrite Hd. rewrite run_bind, run_or_throw. cbn [fst snd].
    rewrite run_bind, run_reads. cbn [fst snd]. unfold batch_docs.
    destruct (dedupe driver (existing_times driver ds w) [] (zip ps ds)) as [dups docs].
    by rewrite run_bind, run_insert_results.
Qed.

(** An acknowledgement accounts for every point of the batch: each gets one
    result, the counters add up to their number, and exactly the points that are
    neither invalid nor a duplicate are inserted: all of them are reported saved,
    or all of them failed. *)
Lemma processBatch_counts driver raw w rs ps ds :
  isValidId (JStr driver) = true →
  readable (take SYNC_BATCH_SIZE_LIMIT raw) rs ps ds →
  let docs := batch_docs driver ps ds w in
  let ok := bool_decide (insertMany_fails docs w = None) in
  ∃ ack, run (processBatch driver raw) w = (inr ack, after_insert docs w) ∧
    received ack = Nat.min SYNC_BATCH_SIZE_LIMIT (length raw) ∧
    length (results ack) = received ack ∧
    duplicates ack + length docs = length ps ∧
    savedCount ack = (if ok then length docs else 0) ∧
    failed ack = length rs + (if ok then 0 else length docs).
Proof.
  intros Hid Hrd docs ok. eexists. split; [by apply run_processBatch|].
  pose proof (proj2 Hrd) as Hlen%length_mapM. destruct (validate_all_counts _ _ _ (proj1 Hrd)) as [Hn Hi].
  pose proof (dedupe_counts driver (existing_times driver ds w) [] (zip ps ds)) as [Hm Hdup].
  rewrite length_zip, <-Hlen, Nat.min_id in Hm. fold (batch_docs driver ps ds w) in Hm. fold docs in Hm.
  rewrite length_take in *. set (dups := (dedupe _ _ _ _).1) in *.
  set (st := if ok then saved else failed_item).
  set (out := if bool_decide (docs = []) then [] else insert_outcome docs w).
  assert (∀ r, r ∈ out → it_status r = st) as Hr.
  { subst out st ok. unfold insert_outcome. case_bool_decide; [by intros r ?%not_elem_of_nil|].
    intros r. destruct (insertMany_fails docs w) as [[m fl]|] eqn:Hf; cbn; apply item_of_status. }
  assert (length out = length docs) as Hlo.
  { subst out. case_bool_decide as Hd; [by rewrite Hd|]. unfold insert_outcome.
    destruct (insertMany_fails docs w) as [[]|]; by rewrite length_fmap. }
  cbn [buildAck received results savedCount duplicates failed]. fold docs. fold out.
  rewrite !with_status_app, !(with_status_const _ rs invalid), !(with_status_const _ dups duplicate),
    !(with_status_const _ out st), !length_app, Hlo by done.
  subst st. destruct ok; cbn; repeat split; lia.
Qed.

(** ** Positions are stored once *)
Definition whole_point (p : json) : bool :=
  match epoch (Json.field "capturedAt" p) with Some x => Date.is_whole x | None => true end.

Definition dated (q : OfflineLocationPoint * Z) : Prop :=
  pt_capturedAt q.1 = Num.of_Z q.2 ∧ (0 < q.2 < 2 ^ 53)%Z.

Lemma validatePoint_whole p q :
  validatePoint p = inr (inr q) → whole_point p = true → Date.is_whole (pt_capturedAt q) = true.
Proof.
  unfold validatePoint, whole_point. destruct p as [| | | | |fs]; cbn -[epoch coordinate Json.field]; try done.
  cbv [mret result_ret]. destruct (epoch _) as [t|]; [|done].
  repeat case_match; intros ?; simplify_eq; done.
Qed.
Lemma validate_all_whole l rs ps :
  validate_all l = inr (rs, ps) → (∀ p, p ∈ l → whole_point p = true) →
  ∀ q, q ∈ ps → Date.is_whole (pt_capturedAt q) = true.
Proof.
  revert rs ps. induction l as [|p l IH]; intros rs ps Hv Hw q Hq; cbn [validate_all] in Hv.
  { simplify_eq. by apply not_elem_of_nil in Hq. }
  destruct (validatePoint p) as [e|v] eqn:Hp; [done|].
  destruct (validate_all l) as [e|[rs' ps']]; [done|]. cbn in Hv.
  assert (∀ q, q ∈ ps' → Date.is_whole (pt_capturedAt q) = true) as IH'.
  { eapply IH; [done|]. intros x Hx. apply Hw. by right. }
  destruct v as [m|q']; cbv [mret result_ret] in Hv; simplify_eq; [by apply IH'|].
  apply elem_of_cons in Hq as [->|Hq]; [|by apply IH'].
  eapply validatePoint_whole; [done|]. apply Hw. by left.
Qed.

Lemma dated_zip l rs ps ds :
  readable l rs ps ds → (∀ p, p ∈ l → whole_point p = true) → ∀ q, q ∈ zip ps ds → dated q.
Proof.
  intros [Hv Hd] Hw [p z] Hq. apply mapM_Some in Hd.
  apply list_elem_of_lookup in Hq as [i Hi]. rewrite lookup_zip_with in Hi.
  destruct (ps !! i) as [p'|] eqn:Hp; [|done]. destruct (ds !! i) as [z'|] eqn:Hz; [|done]. simplify_eq/=.
  pose proof (Forall2_lookup_lr _ _ _ _ _ _ Hd Hp Hz) as Hpz.
  assert (Date.is_whole (pt_capturedAt p) = true) as (t & Ht & Heq)%Date.is_whole_spec.
  { eapply validate_all_whole; [done..|]. by eapply list_elem_of_lookup_2. }
  cbn in Hpz. rewrite Heq, Date.of_number_of_Z in Hpz by done. simplify_eq. split; [done|cbn; lia].
Qed.

Lemma has_spec (E : list Z) z :
  (∀ t, t ∈ E → 0 < t < 2 ^ 53)%Z → (0 < z < 2 ^ 53)%Z →
  has (Num.of_Z <$> E) (Num.of_Z z) = true ↔ z ∈ E.
Proof.
  intros HE Hz. unfold has. rewrite some_true. split.
  - intros (x & (t & -> & Ht)%list_elem_of_fmap & Heq). rewrite Num.of_Z_eqb in Heq by auto.
    by apply Z.eqb_eq in Heq as ->.
  - intros Hin. exists (Num.of_Z z). split; [by apply list_elem_of_fmap_2|].
    rewrite Num.of_Z_eqb by done. apply Z.eqb_refl.
Qed.

Record deduped (driver : string) (E S : list Z) (ps : list (OfflineLocationPoint * Z)) (docs : list LocationUpdate)
    : Prop := {
  dd_distinct : NoDup (lu_capturedAt <$> docs);
  dd_new t : t ∈ (lu_capturedAt <$> docs) → (t ∉ E) ∧ (t ∉ S);
  dd_from d : d ∈ docs → ∃ p z, (p, z) ∈ ps ∧ d = offline_update driver p z;
  dd_all p z : (p, z) ∈ ps → z ∈ E ∨ z ∈ S ∨ z ∈ (lu_capturedAt <$> docs)
}.

Lemma dedupe_spec driver E S ps :
  (∀ t, t ∈ E → 0 < t < 2 ^ 53)%Z → (∀ t, t ∈ S → 0 < t < 2 ^ 53)%Z → (∀ q, q ∈ ps → dated q) →
  deduped driver E S ps (dedupe driver (Num.of_Z <$> E) (Num.of_Z <$> S) ps).2.
Proof.
  intros HE. revert S. induction ps as [|[p z] ps IH]; intros S HS Hps; cbn [dedupe].
  { split; [constructor|by intros ? ?%not_elem_of_nil..|by intros ? ? ?%not_elem_of_nil]. }
  destruct (Hps (p, z)) as [Hp Hz]; [by left|]. cbn in Hp, Hz. rewrite Hp.
  assert (∀ q, q ∈ ps → dated q) as Hps' by (intros q ?; apply Hps; by right).
  destruct (has (Num.of_Z <$> E) (Num.of_Z z) || has (Num.of_Z <$> S) (Num.of_Z z)) eqn:Hh.
  - specialize (IH S HS Hps'). destruct (dedupe driver _ (Num.of_Z <$> S) ps) as [rs docs]. cbn in *.
    destruct IH as [H1 H2 H3 H4]. split; [done|done| |].
    + intros d (p' & z' & ? & ?)%H3. exists p', z'. split; [by right|done].
    + intros p' z' [Heq|Hin]%elem_of_cons; [injection Heq as -> ->|by eauto].
      apply orb_true_iff in Hh as [Hh|Hh]; apply has_spec in Hh; auto.
  - apply orb_false_iff in Hh as [HhE HhS]. rewrite <-not_true_iff_false, has_spec in HhE, HhS by done.
    change [Num.of_Z z] with (Num.of_Z <$> [z]). rewrite <-fmap_app.
    assert (∀ t, t ∈ S ++ [z] → 0 < t < 2 ^ 53)%Z as HS'.
    { intros t [Ht|Ht%list_elem_of_singleton]%elem_of_app; [auto|by subst t]. }
    specialize (IH (S ++ [z]) HS' Hps'). destruct (dedupe driver _ (Num.of_Z <$> S ++ [z]) ps) as [rs docs]. cbn in *.
    destruct IH as [H1 H2 H3 H4]. split; cbn.
    + constructor; [|done]. intros Hin. apply H2 in Hin as [_ []]. apply elem_of_app. right. by left.
    + intros t [->|Ht]%elem_of_cons; [done|]. apply H2 in Ht as [? Hn]. split; [done|].
      intros ?. apply Hn. apply elem_of_app. by left.
    + intros d [->|Hd]%elem_of_cons; [exists p, z; split; [by left|done]|].
      apply H3 in Hd as (p' & z' & ? & ?). exists p', z'. split; [by right|done].
    + intros p' z' [Heq|Hin]%elem_of_cons; [injection Heq as -> ->; right; right; by left|].
      apply H4 in Hin as [?|[[?|Hz'%list_elem_of_singleton]%elem_of_app|?]]; [by left|by right; left| |].
      * right. right. subst z'. by left.
      * right. right. by right.
Qed.

(** The keys of the positions that came in batches: driver and time. *)
Definition key_of (u : hydrated LocationUpdate) : string * Z := (lu_driverId (body u), lu_capturedAt (body u)).
Definition offline_keys (w : Tracking) : list (string * Z) :=
  key_of <$> List.filter (λ u, isOfflineSync (body u)) (locationUpdates w).
Definition offline_unique (w : Tracking) : Prop := NoDup (offline_keys w).

(** The times a batch is compared with: those of the driver among its own. *)
Definition stored_times (driver : string) (ds : list Z) (w : Tracking) : list Z :=
  (λ u, lu_capturedAt (body u)) <$>
  List.filter (λ u, String.eqb (lu_driverId (body u)) driver && includes (lu_capturedAt (body u)) ds)
    (locationUpdates w).
Lemma existing_times_stored driver ds w : existing_times driver ds w = Num.of_Z <$> stored_times driver ds w.
Proof. unfold existing_times, stored_times. by rewrite <-list_fmap_compose. Qed.
Lemma elem_of_stored_times driver ds w z :
  z ∈ stored_times driver ds w ↔ z ∈ ds ∧ ∃ u, u ∈ locationUpdates w ∧ key_of u = (driver, z).
Proof.
  unfold stored_times, key_of. rewrite list_elem_of_fmap. split.
  - intros (u & -> & Hu). apply list_elem_of_In, filter_In in Hu as [Hu%list_elem_of_In Hb].
    apply andb_true_iff in Hb as [He%String.eqb_eq Hi%includes_true]. split; [done|].
    exists u. by rewrite He.
  - intros [Hz (u & Hu & [= Hd Ht])]. exists u. split; [done|].
    apply list_elem_of_In, filter_In. split; [by apply list_elem_of_In|].
    rewrite Hd, Ht, String.eqb_refl. by apply includes_true.
Qed.

Lemma batch_docs_deduped l rs ps ds driver w :
  readable l rs ps ds → (∀ p, p ∈ l → whole_point p = true) →
  deduped driver (stored_times driver ds w) [] (zip ps ds) (batch_docs driver ps ds w).
Proof.
  intros Hrd Hw. unfold batch_docs. rewrite existing_times_stored. apply (dedupe_spec driver _ []).
  - intros t [Ht _]%elem_of_stored_times. pose proof (dated_zip _ _ _ _ Hrd Hw) as Hdat.
    pose proof (proj2 Hrd) as Hlen%length_mapM. apply list_elem_of_lookup in Ht as [i Hi].
    assert (∃ p, ps !! i = Some p) as [p Hp].
    { apply lookup_lt_is_Some. rewrite Hlen. by eapply lookup_lt_Some. }
    apply (Hdat (p, t)). apply list_elem_of_lookup. exists i. by rewrite lookup_zip_with, Hp, Hi.
  - by intros t ?%not_elem_of_nil.
  - by eapply dated_zip.
Qed.

Lemma stored_from_docs n docs : body <$> stored_from n docs = docs.
Proof.
  apply list_eq. intros i. unfold stored_from. rewrite list_lookup_fmap, list_lookup_imap.
  by destruct (docs !! i).
Qed.
Lemma flagged_sublist {A} flags (l : list A) : flagged flags l `sublist_of` l.
Proof.
  revert l. induction flags as [|b flags IH]; intros [|x l]; cbn; try apply sublist_nil_l.
  destruct b; [by apply sublist_skip|by apply sublist_cons].
Qed.
Lemma sublist_fmap {A B} (f : A → B) (l k : list A) : l `sublist_of` k → f <$> l `sublist_of` f <$> k.
Proof. induction 1; cbn; by constructor. Qed.
Lemma inserted_docs_sublist docs w : inserted_docs docs w `sublist_of` stored_from (tr_nextId w) docs.
Proof. unfold inserted_docs. destruct (insertMany_fails docs w) as [[m fl]|]; [apply flagged_sublist|done]. Qed.

Lemma stored_from_keys driver n (docs : list LocationUpdate) :
  (∀ d, d ∈ docs → lu_driverId d = driver) →
  key_of <$> stored_from n docs = pair driver <$> (lu_capturedAt <$> docs).
Proof.
  intros Hd. rewrite <-(stored_from_docs n docs) at 2. rewrite <-!list_fmap_compose.
  apply list_fmap_ext. intros i u Hu. unfold compose, key_of. f_equal. apply Hd.
  rewrite <-(stored_from_docs n docs). apply list_elem_of_fmap_2. by eapply list_elem_of_lookup_2.
Qed.

Lemma filter_offline_all (l : list (hydrated LocationUpdate)) :
  (∀ u, u ∈ l → isOfflineSync (body u) = true) → List.filter (λ u, isOfflineSync (body u)) l = l.
Proof.
  induction l as [|u l IH]; intros Hl; [done|]. cbn. rewrite (Hl u) by by left. f_equal.
  apply IH. intros x Hx. apply Hl. by right.
Qed.

(** An insertion of new times keeps the keys distinct, whatever part of it the
    database wrote. *)
Lemma after_insert_unique driver ds ps docs w :
  deduped driver (stored_times driver ds w) [] (zip ps ds) docs → offline_unique w →
  offline_unique (after_insert docs w).
Proof.
  intros [H1 H2 H3 _] Hu. unfold after_insert. case_bool_decide; [done|]. unfold offline_unique, offline_keys.
  set (ins := inserted_docs docs w). change (locationUpdates _) with (locationUpdates w ++ ins).
  pose proof (inserted_docs_sublist docs w) as Hsub. fold ins in Hsub.
  assert (∀ u, u ∈ ins → body u ∈ docs) as Hin.
  { intros u Hu'. rewrite <-(stored_from_docs (tr_nextId w) docs). apply list_elem_of_fmap_2.
    by eapply elem_of_sublist. }
  rewrite List.filter_app, (filter_offline_all ins), fmap_app; [|by intros u (p & z & _ & ->)%Hin%H3].
  apply NoDup_app. split; [done|]. split.
  - intros k Hk (u & -> & Hi)%list_elem_of_fmap. apply list_elem_of_fmap in Hk as (v & Hkv & Hv).
    apply list_elem_of_In, filter_In in Hv as [Hv%list_elem_of_In _].
    destruct (H3 _ (Hin _ Hi)) as (p & z & Hpz & Hbu).
    destruct (H2 z) as [Hn _].
    { apply list_elem_of_fmap. exists (body u). split; [by rewrite Hbu|by apply Hin]. }
    apply Hn, elem_of_stored_times. split; [by apply elem_of_zip_r in Hpz|].
    exists v. split; [done|]. rewrite <-Hkv. unfold key_of. by rewrite Hbu.
  - eapply sublist_NoDup; [|by apply sublist_fmap, Hsub].
    rewrite (stored_from_keys driver) by by intros d (p & z & _ & ->)%H3. by apply NoDup_fmap_2; [apply _|].
Qed.

(** ** Events of the sockets, in any order *)
Inductive socket_event :=
  | location_sync (socket : string) (userId : option string) (payload : option json)
  | driver_location_update (socket : string) (userId : option string) (payload : option json)
  | time_passes (ms : Z)
  | redis_is (up : bool).

Definition handle (ev : socket_event) : tracking unit :=
  match ev with
  | location_sync s u p => on_location_sync s u p
  | driver_location_update s u p => on_driver_location_update s u p
  | time_passes ms => writes (λ w, w <| tr_now ::= Z.add ms |>)
  | redis_is b => writes (λ w, w <| redis_up := b |>)
  end.
Definition after (evs : list socket_event) (w : Tracking) : Tracking :=
  foldl (λ w ev, (run (handle ev) w).2) w evs.

(** The handlers only add positions. *)
Definition adds (w w' : Tracking) : Prop := ∃ l, locationUpdates w' = locationUpdates w ++ l.
#[local] Instance adds_preorder : PreOrder adds.
Proof.
  split; [intros w; exists []; by rewrite app_nil_r|].
  intros w1 w2 w3 [l1 H1] [l2 H2]. exists (l1 ++ l2). by rewrite H2, H1, app_assoc.
Qed.
(** A live update adds no position of a batch. *)
Definition same_offline (w w' : Tracking) : Prop := offline_keys w' = offline_keys w.
#[local] Instance same_offline_preorder : PreOrder same_offline.
Proof. split; [by intros w|]. intros w1 w2 w3 H1 H2. by unfold same_offline in *; rewrite H2, H1. Qed.

Lemma confined_emit (G : relation Tracking) e :
  (∀ w w', locationUpdates w' = locationUpdates w → G w w') → confined G (emit e).
Proof. intros HG w. split; [by apply HG|done]. Qed.
Lemma confined_lift {A} (G : relation Tracking) (r : error + A) : confined G (lift r).
Proof. done. Qed.
Lemma confined_redis {A} (G : relation Tracking) (f : Tracking → A * Tracking) :
  (∀ w w', locationUpdates w' = locationUpdates w → G w w') →
  (∀ w, locationUpdates (f w).2 = locationUpdates w) → confined G (redis_command f).
Proof. intros HG Hf w. cbn. destruct (redis_up w); (split; [|done]); apply HG; [apply Hf|done]. Qed.
Lemma take_key_updates key w : locationUpdates (take_key key w).2 = locationUpdates w.
Proof. unfold take_key. by case_match. Qed.
#[local] Hint Resolve confined_lift confined_redis confined_emit take_key_updates : confined.

(** What the live handler writes besides positions of its own. *)
Lemma confined_live (G : relation Tracking) `{!PreOrder G} socket userId payload :
  (∀ w w', locationUpdates w' = locationUpdates w → G w w') →
  (∀ driver u c, confined G (create driver u c)) →
  confined G (on_driver_location_update socket userId payload).
Proof.
  intros HG Hcr. unfold on_driver_location_update. case_match; [by apply confined_emit|].
  destruct (is_object payload) as [p|]; [|by apply confined_emit].
  apply confined_try_catch; [|intros e; by apply confined_emit].
  apply confined_bind; [|intros a; by apply confined_emit].
  unfold processLiveUpdate. destruct (validatePayload p _) as [m|u]; [done|].
  do 3 (apply confined_bind; [by unfold tracking_now; apply (confined_reads _)|intros ?]).
  destruct (validateTimestamp _ _) as [m|]; [done|]. unfold record_update.
  apply confined_bind; [unfold is_duplicate; eauto with confined|intros []; [done|]].
  apply confined_bind.
  { unfold isStaleUpdate. apply confined_try_catch; [|done]. apply confined_bind; [by apply confined_redis|].
    intros o. case_match; [done|]. apply confined_bind; [by apply confined_redis|done]. }
  intros []; [done|]. apply confined_bind.
  { unfold outcome_of. apply confined_try_catch; [|done]. apply confined_bind; [apply Hcr|done]. }
  intros [e|id]; [done|]. apply confined_bind; [by apply confined_emit|done].
Qed.

Lemma live_adds s u p : confined adds (on_driver_location_update s u p).
Proof.
  apply (confined_live adds).
  { intros w w' Heq. exists []. by rewrite Heq, app_nil_r. }
  intros driver v c w. split; [|done]. cbn. repeat case_match; cbn; try done; by eexists.
Qed.
Lemma live_same_offline s u p : confined same_offline (on_driver_location_update s u p).
Proof.
  apply (confined_live same_offline).
  { intros w w' Heq. unfold same_offline, offline_keys. by rewrite Heq. }
  intros driver v c w. split; [|done]. cbn. repeat case_match; cbn; try done.
  unfold same_offline, offline_keys. rec_simpl. by rewrite List.filter_app, app_nil_r.
Qed.

(** A batch leaves the collection alone or inserts what was deduplicated. *)
Lemma processBatch_world driver raw w :
  (run (processBatch driver raw) w).2 = w ∨
  ∃ rs ps ds, readable (take SYNC_BATCH_SIZE_LIMIT raw) rs ps ds ∧
    (run (processBatch driver raw) w).2 = after_insert (batch_docs driver ps ds w) w.
Proof.
  destruct (isValidId (JStr driver)) eqn:Hid.
  2:{ left. unfold processBatch, tracking_now. cbn zeta. rewrite run_bind, run_reads. cbn [fst snd].
      by rewrite run_bind, run_throw_if, Hid. }
  destruct (validate_all (take SYNC_BATCH_SIZE_LIMIT raw)) as [e|[rs ps]] eqn:Hv.
  { left. unfold processBatch, tracking_now. cbn zeta. rewrite run_bind, run_reads. cbn [fst snd].
    rewrite run_bind, run_throw_if, Hid. cbn [negb fst snd]. by rewrite Hv. }
  destruct (dates ps) as [ds|] eqn:Hd.
  - right. exists rs, ps, ds. split; [done|]. by erewrite run_processBatch.
  - left. unfold processBatch, tracking_now. cbn zeta. rewrite run_bind, run_reads. cbn [fst snd].
    rewrite run_bind, run_throw_if, Hid. cbn [negb fst snd]. rewrite Hv.
    rewrite run_bind. unfold lift. rewrite run_done. cbn [fst snd].
    case_bool_decide; [done|]. by rewrite Hd.
Qed.

Lemma on_location_sync_world socket userId payload w :
  let w' := (run (on_location_sync socket userId payload) w).2 in
  locationUpdates w' = locationUpdates w ∨
  ∃ driver l rs ps ds, updates_of payload = Some l ∧ readable (take SYNC_BATCH_SIZE_LIMIT l) rs ps ds ∧
    locationUpdates w' = locationUpdates (after_insert (batch_docs driver ps ds w) w).
Proof.
  intros w'. subst w'. unfold on_location_sync, tracking_now. cbn zeta. rewrite run_bind, run_reads. cbn [fst snd].
  case_match; [by left|]. destruct (updates_of payload) as [l|]; [|by left].
  rewrite run_try_catch, run_bind.
  assert (locationUpdates (run (processBatch (nullish userId "") l) w).2 = locationUpdates w ∨
    ∃ rs ps ds, readable (take SYNC_BATCH_SIZE_LIMIT l) rs ps ds ∧
      locationUpdates (run (processBatch (nullish userId "") l) w).2
      = locationUpdates (after_insert (batch_docs (nullish userId "") ps ds w) w)) as Hw.
  { destruct (processBatch_world (nullish userId "") l w) as [->|(rs & ps & ds & Hr & ->)]; [by left|].
    right. by exists rs, ps, ds. }
  destruct (run (processBatch (nullish userId "") l) w) as [[e|ack] w1]; cbn [fst snd] in *.
  - assert (∀ (r : error + LocationSyncAck), locationUpdates (run (ack ← lift r; emit (sync_ack socket ack)) w1).2
      = locationUpdates w1) as Heq by by intros [].
    rewrite Heq. destruct Hw as [->|(rs & ps & ds & ? & ->)]; [by left|].
    right. by eexists _, l, rs, ps, ds.
  - cbn. rec_simpl. destruct Hw as [->|(rs & ps & ds & ? & ->)]; [by left|].
    right. by eexists _, l, rs, ps, ds.
Qed.

Lemma handle_adds ev w : adds w (run (handle ev) w).2.
Proof.
  destruct ev; cbn [handle].
  - unfold adds. destruct (on_location_sync_world socket userId payload w) as [->|(d & l & rs & ps & ds & _ & _ & Heq)].
    + exists []. by rewrite app_nil_r.
    + rewrite Heq. unfold after_insert.
      case_bool_decide; [exists []; by rewrite app_nil_r|by eexists].
  - apply (confined_run adds), live_adds.
  - exists []. by rewrite app_nil_r.
  - exists []. by rewrite app_nil_r.
Qed.
Lemma after_adds evs w : adds w (after evs w).
Proof.
  revert w. induction evs as [|ev evs IH]; intros w; [done|]. cbn. etrans; [apply handle_adds|apply IH].
Qed.

(** The batches of an event carry whole timestamps. *)
Definition whole_event (ev : socket_event) : bool :=
  match ev with
  | location_sync _ _ p => match updates_of p with Some l => forallb whole_point (take SYNC_BATCH_SIZE_LIMIT l) | None => true end
  | _ => true
  end.

Lemma handle_unique ev w : whole_event ev = true → offline_unique w → offline_unique (run (handle ev) w).2.
Proof.
  intros Hwh Hu. unfold offline_unique, offline_keys. destruct ev; cbn [handle]; [| |done..].
  - destruct (on_location_sync_world socket userId payload w)
      as [->|(d & l & rs & ps & ds & Hl & Hr & ->)]; [done|].
    apply (after_insert_unique d ds ps); [|done]. eapply batch_docs_deduped; [done|].
    cbn in Hwh. rewrite Hl in Hwh. intros p Hp%list_elem_of_In.
    by eapply forallb_forall in Hwh.
  - pose proof (confined_run same_offline _ w (live_same_offline socket userId payload)) as Hs.
    unfold same_offline, offline_keys in Hs. by rewrite Hs.
Qed.
Lemma after_unique evs w :
  forallb whole_event evs = true → offline_unique w → offline_unique (after evs w).
Proof.
  revert w. induction evs as [|ev evs IH]; intros w; [done|]. cbn. intros [? ?]%andb_true_iff Hu.
  apply IH; [done|]. by apply handle_unique.
Qed.


(** ** Live updates: what one of them does *)
Definition older (driver : string) (d : json) (capturedAt : number) (w : Tracking) : bool :=
  match last_update driver d w with Some l => Num.ltb capturedAt (parsed l) | None => false end.

Lemma run_is_duplicate key w :
  run (is_duplicate key) w
  = (inr (redis_up w && dedup_taken key w), if redis_up w then (take_key key w).2 else w).
Proof.
  unfold is_duplicate, redis_command. rewrite run_try_catch, run_bind, run_atomic_try.
  destruct (redis_up w); [|done]. unfold take_key. by destruct (dedup_taken key w).
Qed.
Lemma run_isStaleUpdate driver d c w :
  run (isStaleUpdate driver d c) w
  = (inr (redis_up w && older driver d c w),
     if redis_up w && negb (older driver d c w) then remember_last driver d c w else w).
Proof.
  unfold isStaleUpdate, redis_command. rewrite run_try_catch, run_bind, run_atomic_try.
  destruct (redis_up w) eqn:Hr; [|done]. cbn [fst snd]. fold (older driver d c w).
  destruct (older driver d c w); [done|].
  rewrite run_bind, run_atomic_try, Hr. done.
Qed.

(** The world in which the document is written: its keys are in Redis. *)
Definition marked (driver : string) (u : LiveUpdate) (c : number) (w : Tracking) : Tracking :=
  if redis_up w
  then remember_last driver (lv_deliveryId u) c
         (take_key (generateDedupKey driver (lv_deliveryId u) c (lv_lat u) (lv_lng u)) w).2
  else w.
(** Redis does not hold the update for a repetition, nor a later one. *)
Definition fresh (driver : string) (u : LiveUpdate) (c : number) (w : Tracking) : bool :=
  negb (redis_up w && (dedup_taken (generateDedupKey driver (lv_deliveryId u) c (lv_lat u) (lv_lng u)) w
                       || older driver (lv_deliveryId u) c w)).

Definition live_key (driver : string) (u : LiveUpdate) (c : number) : string :=
  generateDedupKey driver (lv_deliveryId u) c (lv_lat u) (lv_lng u).

Lemma older_take_key driver d c key w :
  older driver d c (take_key key w).2 = older driver d c w.
Proof. unfold take_key. by destruct (dedup_taken key w). Qed.
Lemma redis_up_take_key key w : redis_up (take_key key w).2 = redis_up w.
Proof. unfold take_key. by destruct (dedup_taken key w). Qed.

(** The outcome of the write of the document. *)
Definition created (driver : string) (u : LiveUpdate) (c : number) (w : Tracking) : option LocationUpdate :=
  date ← Date.of_number c;
  let doc := live_document driver u date in
  if create_fails doc w is None then Some doc else None.

Lemma run_create driver u c w :
  match created driver u c w with
  | Some doc => run (create driver u c) w
      = (inr (newObjectId (tr_nextId w)),
         w <| locationUpdates ::= (.++ [Doc (newObjectId (tr_nextId w)) doc]) |> <| tr_nextId ::= S |>)
  | None => ∃ e, run (create driver u c) w = (inl e, w)
  end.
Proof.
  unfold created, create. rewrite run_atomic_try.
  destruct (Date.of_number c) as [date|]; cbn [mbind option_bind]; [|by eexists].
  destruct (create_fails _ w); [by eexists|done].
Qed.

(** What a live update does after its checks, case by case. *)
Lemma run_record_update driver u c at_ w :
  let w1 := marked driver u c w in
  if fresh driver u c w then
    match created driver u c w1 with
    | Some doc => run (record_update driver u c at_) w
        = (inr (accepted (newObjectId (tr_nextId w))),
           w1 <| locationUpdates ::= (.++ [Doc (newObjectId (tr_nextId w)) doc]) |> <| tr_nextId ::= S |>
              <| emitted ::= (.++ [to_room (deliveryRoom (lv_deliveryId u)) (broadcast_of driver u c at_)]) |>)
    | None => ∃ m, run (record_update driver u c at_) w = (inr (rejected m), w1)
    end
  else
    run (record_update driver u c at_) w
    = if dedup_taken (live_key driver u c) w then (inr duplicate_ack, w)
      else (inr stale_ack, (take_key (live_key driver u c) w).2).
Proof.
  intros w1. unfold record_update, fresh. fold (live_key driver u c). rewrite run_bind, run_is_duplicate. cbn [fst snd].
  destruct (redis_up w) eqn:Hr; cbn [andb negb].
  - destruct (dedup_taken (live_key driver u c) w) eqn:Ht; cbn [orb negb].
    { unfold take_key. by rewrite Ht. }
    rewrite run_bind, run_isStaleUpdate. cbn [fst snd]. rewrite older_take_key, redis_up_take_key, Hr. cbn [andb].
    destruct (older driver (lv_deliveryId u) c w) eqn:Ho; cbn [negb]; [done|].
    rewrite run_bind, run_outcome_of.
    assert (remember_last driver (lv_deliveryId u) c (take_key (live_key driver u c) w).2 = w1) as ->.
    { subst w1. unfold marked. by rewrite Hr. }
    pose proof (run_create driver u c w1) as Hc. destruct (created driver u c w1) as [doc|].
    + assert (tr_nextId w1 = tr_nextId w) as Hn by (subst w1; unfold marked, take_key; rewrite Hr; by case_match).
      rewrite Hc. cbn [fst snd]. by rewrite Hn.
    + destruct Hc as [e Hc]. rewrite Hc. cbn [fst snd]. by eexists.
  - rewrite run_bind, run_isStaleUpdate. cbn [fst snd]. rewrite Hr. cbn [andb].
    rewrite run_bind, run_outcome_of. assert (w = w1) as Hw1 by (subst w1; unfold marked; by rewrite Hr).
    pose proof (run_create driver u c w1) as Hc. rewrite <-Hw1 in *. destruct (created driver u c w) as [doc|].
    + rewrite Hc. cbn [fst snd]. done.
    + destruct Hc as [e Hc]. rewrite Hc. cbn [fst snd]. by eexists.
Qed.

(** The update a payload admits: valid, of an acceptable time, and fresh. *)
Definition admitted (driver : string) (payload : json) (w : Tracking) : option (LiveUpdate * number) :=
  match validatePayload payload driver with
  | inl _ => None
  | inr u =>
      let c := nullish (lv_capturedAt u) (Num.of_Z (tr_now w)) in
      if validateTimestamp c (tr_now w) is Some _ then None
      else if fresh driver u c w then Some (u, c) else None
  end.

Lemma run_processLiveUpdate driver payload w :
  run (processLiveUpdate driver payload) w =
    match validatePayload payload driver with
    | inl m => (inr (rejected m), w)
    | inr u =>
        let c := nullish (lv_capturedAt u) (Num.of_Z (tr_now w)) in
        match validateTimestamp c (tr_now w) with
        | Some m => (inr (rejected m), w)
        | None => run (record_update driver u c (Date.toISOString (tr_now w))) w
        end
    end.
Proof.
  unfold processLiveUpdate, tracking_now. destruct (validatePayload payload driver) as [m|u]; [done|].
  cbn zeta. do 3 (rewrite run_bind, run_reads; cbn [fst snd]).
  by destruct (validateTimestamp _ (tr_now w)).
Qed.

(** A live update is acknowledged, never thrown, and succeeds exactly when
    its payload and time are acceptable, Redis holds neither a repetition nor a
    later update of the driver and delivery (or is down), and the database
    takes it; then one position is stored and one broadcast reaches the room of
    the delivery. A refused update stores and broadcasts nothing. *)
Theorem processLiveUpdate_correct driver payload w :
  ∃ ack w', run (processLiveUpdate driver payload) w = (inr ack, w') ∧
    match x ← admitted driver payload w; doc ← created driver x.1 x.2 (marked driver x.1 x.2 w); Some (x, doc) with
    | Some ((u, c), doc) =>
        let id := newObjectId (tr_nextId w) in
        ack = accepted id ∧
        locationUpdates w' = locationUpdates w ++ [Doc id doc] ∧
        emitted w' = emitted w ++
          [to_room (deliveryRoom (lv_deliveryId u)) (broadcast_of driver u c (Date.toISOString (tr_now w)))]
    | None => success ack = false ∧ locationUpdates w' = locationUpdates w ∧ emitted w' = emitted w
    end.
Proof.
  rewrite run_processLiveUpdate. unfold admitted.
  destruct (validatePayload payload driver) as [m|u]; [by eexists _, _|]. cbn zeta.
  set (c := nullish (lv_capturedAt u) _). destruct (validateTimestamp c (tr_now w)) as [m|]; [by eexists _, _|].
  pose proof (run_record_update driver u c (Date.toISOString (tr_now w)) w) as Hrun. cbn zeta in Hrun.
  assert (∀ w1, locationUpdates (take_key (live_key driver u c) w1).2 = locationUpdates w1
    ∧ emitted (take_key (live_key driver u c) w1).2 = emitted w1) as Htk.
  { intros w1. unfold take_key. by destruct (dedup_taken _ w1). }
  assert (locationUpdates (marked driver u c w) = locationUpdates w ∧ emitted (marked driver u c w) = emitted w) as [H1 H2].
  { unfold marked. destruct (redis_up w); [|done]. apply (Htk w). }
  destruct (fresh driver u c w); cbn [mbind option_bind fst snd].
  - destruct (created driver u c (marked driver u c w)) as [doc|].
    + eexists _, _. split; [done|]. rec_simpl. by rewrite H1, H2.
    + destruct Hrun as [m ->]. by eexists _, _.
  - rewrite Hrun. destruct (dedup_taken _ w); [by eexists _, _|]. eexists _, _. split; [done|]. by destruct (Htk w).
Qed.

(** ** Live updates reach a room in order *)
Definition broadcast_time (driver d : string) (e : emission) : option Z :=
  match e with
  | to_room _ p =>
      if String.eqb (br_driverId p) driver && String.eqb (Json.to_text (br_deliveryId p)) d
      then Num.trunc (br_capturedAt p) else None
  | _ => None
  end.
Definition times (driver d : string) (es : list emission) : list Z := omap (M:=list) (broadcast_time driver d) es.
Definition ascending (l : list Z) : Prop :=
  ∀ i j a b, i < j → l !! i = Some a → l !! j = Some b → (a ≤ b)%Z.

Lemma ascending_snoc l c : ascending l → (∀ t, t ∈ l → (t ≤ c)%Z) → ascending (l ++ [c]).
Proof.
  intros Hl Hc i j a b Hij Ha Hb. apply lookup_snoc_Some in Hb as [[Hj Hb]|[-> <-]].
  - rewrite lookup_app_l in Ha by lia. exact (Hl i j a b Hij Ha Hb).
  - rewrite lookup_app_l in Ha by lia. apply Hc. by eapply list_elem_of_lookup_2.
Qed.

Lemma times_app driver d es es' : times driver d (es ++ es') = times driver d es ++ times driver d es'.
Proof.
  induction es as [|e es IH]; [done|]. cbn. unfold times in IH. rewrite IH. by destruct (broadcast_time driver d e).
Qed.

(** A handler that neither broadcasts nor touches the clock and Redis. *)
Record silent (w w' : Tracking) : Prop := {
  si_now : tr_now w' = tr_now w;
  si_up : redis_up w' = redis_up w;
  si_last : lastUpdates w' = lastUpdates w;
  si_emitted : ∃ es, emitted w' = emitted w ++ es ∧ ∀ driver d, times driver d es = []
}.
#[local] Instance silent_preorder : PreOrder silent.
Proof.
  split; [intros w; split; [done..|]; exists []; by rewrite app_nil_r|].
  intros w1 w2 w3 [H1 H2 H3 (es & H4 & H5)] [H1' H2' H3' (es' & H4' & H5')].
  split; [congruence..|]. exists (es ++ es'). rewrite H4', H4, app_assoc. split; [done|].
  intros driver d. by rewrite times_app, H5, H5'.
Qed.

Lemma confined_on_location_sync s u p : confined silent (on_location_sync s u p).
Proof.
  assert (∀ a, confined silent (emit (sync_ack s a))) as Hem.
  { intros a w. split; [|done]. split; [done..|]. by exists [sync_ack s a]. }
  assert (∀ docs, confined silent (insertMany docs)) as Hins.
  { intros docs w. split; [|done]. cbn. destruct (insertMany_fails docs w) as [[]|]; cbn;
      (split; [done..|]); exists []; by rewrite app_nil_r. }
  unfold on_location_sync, tracking_now. apply confined_bind; [by apply (confined_reads _)|intros t].
  case_match; [done|]. destruct (updates_of p) as [l|]; [|done].
  apply confined_try_catch; [|intros e; apply confined_bind; [done|done]].
  apply confined_bind; [|done]. unfold processBatch, tracking_now, lift.
  apply confined_bind; [by apply (confined_reads _)|intros t']. apply confined_bind; [apply confined_throw_if|intros _].
  apply confined_bind; [done|intros [rs ps]]. case_bool_decide; [done|].
  apply confined_bind; [apply confined_or_throw|intros ds].
  apply confined_bind; [by apply (confined_reads _)|intros ex].
  destruct (dedupe _ _ _ _) as [dups docs]. apply confined_bind; [|done].
  unfold insert_results. case_bool_decide; [done|]. apply confined_try_catch; [|done].
  by apply confined_bind.
Qed.

(** What a live update does to the order of a room: nothing, or it becomes the
    last one and may be broadcast. *)
Record sends (driver : string) (u : LiveUpdate) (c : number) (w w' : Tracking) : Prop := {
  sn_time : c = nullish (lv_capturedAt u) (Num.of_Z (tr_now w));
  sn_newer : older driver (lv_deliveryId u) c w = false;
  sn_last : lastUpdates w' = <[(driver, Json.to_text (lv_deliveryId u)) :=
              (c, (tr_now w + LOCATION_DEDUP_TTL_SECONDS * 2 * 1000)%Z)]> (lastUpdates w);
  sn_emitted : emitted w' = emitted w ∨ ∃ room r, emitted w' = emitted w ++ [to_room room (broadcast_of driver u c r)]
}.

Lemma live_effect driver p w :
  redis_up w = true →
  let w' := (run (processLiveUpdate driver p) w).2 in
  tr_now w' = tr_now w ∧ redis_up w' = true ∧
  ((lastUpdates w' = lastUpdates w ∧ emitted w' = emitted w) ∨
   ∃ u c, validatePayload p driver = inr u ∧ sends driver u c w w').
Proof.
  intros Hr w'. subst w'. rewrite run_processLiveUpdate.
  destruct (validatePayload p driver) as [m|u] eqn:Hv; [by auto|]. cbn zeta.
  set (c := nullish (lv_capturedAt u) _). destruct (validateTimestamp c (tr_now w)) as [m|]; [by auto|].
  pose proof (run_record_update driver u c (Date.toISOString (tr_now w)) w) as Hrun. cbn zeta in Hrun.
  set (key := live_key driver u c) in *.
  assert (∀ w1, tr_now (take_key key w1).2 = tr_now w1 ∧ redis_up (take_key key w1).2 = redis_up w1 ∧
    lastUpdates (take_key key w1).2 = lastUpdates w1 ∧ emitted (take_key key w1).2 = emitted w1) as Htk.
  { intros w1. unfold take_key. by destruct (dedup_taken key w1). }
  destruct (Htk w) as (T1 & T2 & T3 & T4).
  destruct (fresh driver u c w) eqn:Hf.
  - assert (older driver (lv_deliveryId u) c w = false) as Ho.
    { unfold fresh in Hf. rewrite Hr in Hf. cbn in Hf. apply negb_true_iff, orb_false_iff in Hf. apply Hf. }
    assert (tr_now (marked driver u c w) = tr_now w ∧ redis_up (marked driver u c w) = true ∧
      emitted (marked driver u c w) = emitted w ∧
      lastUpdates (marked driver u c w) = <[(driver, Json.to_text (lv_deliveryId u)) :=
        (c, (tr_now w + LOCATION_DEDUP_TTL_SECONDS * 2 * 1000)%Z)]> (lastUpdates w)) as (M1 & M2 & M3 & M4).
    { unfold marked. rewrite Hr. fold (live_key driver u c). fold key. unfold remember_last. rec_simpl.
      by rewrite T1, T2, T3, T4. }
    destruct (created driver u c (marked driver u c w)) as [doc|].
    + rewrite Hrun. cbn [snd]. rec_simpl. split; [done|]. split; [done|]. right. exists u, c. split; [done|].
      split; [done..|]. right. rewrite M3. by eexists _, _.
    + destruct Hrun as [m ->]. cbn [snd]. split; [done|]. split; [done|]. right. exists u, c. split; [done|].
      split; [done..|]. by left.
  - rewrite Hrun. destruct (dedup_taken key w); cbn [snd]; [by auto|]. rewrite T1, T2. by auto.
Qed.

Definition whole_live (p : json) : bool :=
  match epoch (Json.field "capturedAt" p) with Some x => Date.is_whole x | None => true end.
(** Events during which Redis stays up and live timestamps are whole. *)
Definition calm (ev : socket_event) : bool :=
  match ev with
  | location_sync _ _ _ => true
  | driver_location_update _ _ p => match is_object p with Some p => whole_live p | None => true end
  | time_passes ms => (0 <=? ms)%Z
  | redis_is b => b
  end.
Definition elapsed (evs : list socket_event) : Z :=
  foldr (λ ev t, (if ev is time_passes ms then ms else 0) + t)%Z 0%Z evs.

(** The last date a number of milliseconds can denote. *)
Definition max_date : Z := 8640000000000000.

(** In the window that ends at [T], the broadcasts [new] are in order, and Redis
    remembers a time of each pair that none of them exceeds. *)
Record in_order (T : Z) (new : list emission) (w : Tracking) : Prop := {
  io_up : redis_up w = true;
  io_clock : (0 < tr_now w ≤ T)%Z;
  io_window : (T < tr_now w + LOCATION_DEDUP_TTL_SECONDS * 2 * 1000)%Z;
  io_ascending driver d : ascending (times driver d new);
  io_last driver d t : t ∈ times driver d new →
    ∃ v e, lastUpdates w !! (driver, d) = Some (Num.of_Z v, e) ∧ (t ≤ v)%Z ∧ (0 < v ≤ max_date)%Z ∧ (T < e)%Z
}.

Lemma in_order_silent T new w w' :
  in_order T new w → silent w w' → ∃ es, emitted w' = emitted w ++ es ∧ in_order T (new ++ es) w'.
Proof.
  intros [H1 H2 H3 H4 H5] [S1 S2 S3 (es & S4 & S5)]. exists es. split; [done|]. split.
  - by rewrite S2.
  - by rewrite S1.
  - by rewrite S1.
  - intros driver d. by rewrite times_app, S5, app_nil_r.
  - intros driver d t. rewrite times_app, S5, app_nil_r, S3. apply H5.
Qed.

Lemma validatePayload_whole p driver u x :
  validatePayload p driver = inr u → lv_capturedAt u = Some x → whole_live p = true → Date.is_whole x = true.
Proof.
  unfold validatePayload, whole_live. repeat case_match; intros; simplify_eq/=; done.
Qed.

(** A live update in the window keeps the order. *)
Lemma in_order_live T new driver p w :
  (T ≤ max_date)%Z → whole_live p = true → in_order T new w →
  let w' := (run (processLiveUpdate driver p) w).2 in
  ∃ es, emitted w' = emitted w ++ es ∧ in_order T (new ++ es) w'.
Proof.
  intros HT Hp Hio w'. destruct Hio as [H1 H2 H3 H4 H5].
  destruct (live_effect driver p w H1) as (E1 & E2 & [[E3 E4]|(u & c & Hv & Hs)]); fold w' in E1, E2.
  { exists []. fold w' in E3, E4. rewrite !app_nil_r. split; [done|]. split; rewrite ?E1, ?E2, ?E3; done. }
  fold w' in Hs. destruct Hs as [Sc Sn Sl Se].
  assert (∃ v, (0 < v ≤ max_date)%Z ∧ c = Num.of_Z v) as (v & Hv1 & Hv2).
  { rewrite Sc. destruct (lv_capturedAt u) as [x|] eqn:Hx; cbn.
    - pose proof (validatePayload_whole _ _ _ _ Hv Hx Hp) as Hw. by apply Date.is_whole_spec in Hw.
    - exists (tr_now w). split; [lia|done]. }
  set (d0 := Json.to_text (lv_deliveryId u)) in *.
  assert (∀ t, t ∈ times driver d0 new → (t ≤ v)%Z) as Hle.
  { intros t Ht. destruct (H5 _ _ _ Ht) as (v' & e & Hl & Ht' & Hv' & He).
    unfold older, last_update in Sn. fold d0 in Sn. rewrite Hl in Sn. cbn in Sn.
    rewrite (proj2 (Z.ltb_lt _ _)) in Sn by lia. unfold parsed in Sn.
    unfold max_date in *. rewrite Num.trunc_of_Z in Sn by lia. cbn in Sn.
    rewrite Hv2, Num.of_Z_ltb in Sn by lia. apply Z.ltb_ge in Sn. lia. }
  assert (∀ es, emitted w' = emitted w ++ es →
    (∀ driver' d, times driver' d es = [] ∨ (driver' = driver ∧ d = d0 ∧ times driver' d es = [v])) →
    in_order T (new ++ es) w') as Hgo.
  { intros es _ Hes. split; [done|by rewrite E1..| |].
    - intros driver' d. rewrite times_app. destruct (Hes driver' d) as [->|(-> & -> & ->)].
      + by rewrite app_nil_r.
      + by apply ascending_snoc.
    - intros driver' d t. rewrite times_app. rewrite Sl. intros Ht.
      destruct (decide ((driver', d) = (driver, d0))) as [Heq|Hne].
      + injection Heq as -> ->. rewrite lookup_insert_eq. exists v. eexists. rewrite Hv2. split; [done|].
        split; [|split; [done|lia]]. apply elem_of_app in Ht as [Ht|Ht]; [by apply Hle|].
        destruct (Hes driver d0) as [Hn|(_ & _ & Hn)]; rewrite Hn in Ht;
          [by apply not_elem_of_nil in Ht|]. apply list_elem_of_singleton in Ht. lia.
      + rewrite lookup_insert_ne by congruence. apply H5. apply elem_of_app in Ht as [Ht|Ht]; [done|].
        destruct (Hes driver' d) as [Hn|(-> & -> & _)]; [|done]. rewrite Hn in Ht. by apply not_elem_of_nil in Ht. }
  destruct Se as [Se|(room & r & Se)].
  - exists []. split; [by rewrite Se, app_nil_r|]. apply Hgo; [by rewrite Se, app_nil_r|]. by left.
  - eexists. split; [exact Se|]. apply Hgo; [done|]. intros driver' d. cbn. fold d0.
    destruct (String.eqb driver driver' && String.eqb d0 d) eqn:Hb; [right|by left].
    apply andb_true_iff in Hb as [<-%String.eqb_eq <-%String.eqb_eq]. split; [done|]. split; [done|].
    unfold max_date in *. by rewrite Hv2, Num.trunc_of_Z by lia.
Qed.

Lemma in_order_handle T new ev w :
  (T ≤ max_date)%Z → calm ev = true →
  (if ev is time_passes ms then tr_now w + ms ≤ T else True)%Z → in_order T new w →
  ∃ es, emitted (run (handle ev) w).2 = emitted w ++ es ∧ in_order T (new ++ es) (run (handle ev) w).2.
Proof.
  intros HT Hc Ht Hio. destruct ev as [s u p|s u p|ms|b]; cbn [handle] in *.
  - eapply in_order_silent; [done|]. apply (confined_run silent), confined_on_location_sync.
  - assert (∀ w a, silent w (run (emit (update_ack s a)) w).2) as Hem.
    { intros w' a. split; [done..|]. by exists [update_ack s a]. }
    unfold on_driver_location_update. cbn zeta.
    case_match; [by eapply in_order_silent|]. destruct (is_object p) as [p'|] eqn:Hp; [|by eapply in_order_silent].
    cbn in Hc. rewrite Hp in Hc.
    destruct (in_order_live T new (nullish u "") p' w HT Hc Hio) as (es & He & Hio').
    rewrite run_try_catch, run_bind.
    destruct (run (processLiveUpdate _ p') w) as [[e|ack] w1]; cbn [fst snd] in *;
      (edestruct in_order_silent as (es' & He' & Hio''); [exact Hio'|apply Hem|]);
      exists (es ++ es'); rewrite !app_assoc, <-He; (split; [exact He'|exact Hio'']).
  - exists []. rewrite !app_nil_r. split; [done|]. cbn in Hc. apply Z.leb_le in Hc.
    destruct Hio as [H1 H2 H3 H4 H5]. split; [done|cbn; rec_simpl; lia|cbn; rec_simpl; lia|done..].
  - exists []. rewrite !app_nil_r. split; [done|]. cbn in Hc. subst b.
    destruct Hio as [H1 H2 H3 H4 H5]. by split.
Qed.

Lemma elapsed_nonneg evs : forallb calm evs = true → (0 ≤ elapsed evs)%Z.
Proof.
  induction evs as [|ev evs IH]; [done|]. cbn [forallb elapsed foldr]. fold (elapsed evs).
  intros [Hc Hcs]%andb_true_iff. specialize (IH Hcs). destruct ev; [lia..| |lia].
  cbn in Hc. apply Z.leb_le in Hc. lia.
Qed.

Lemma tr_now_handle T new ev w :
  in_order T new w →
  tr_now (run (handle ev) w).2 = (tr_now w + if ev is time_passes ms then ms else 0)%Z.
Proof.
  intros Hio. destruct ev as [s u p|s u p|ms|b]; cbn [handle].
  - rewrite (si_now _ _ (confined_run silent _ w (confined_on_location_sync s u p))). lia.
  - unfold on_driver_location_update. cbn zeta. case_match; [by rewrite Z.add_0_r|].
    destruct (is_object p) as [p'|]; [|by rewrite Z.add_0_r].
    destruct (live_effect (nullish u "") p' w (io_up _ _ _ Hio)) as (En & _). revert En.
    rewrite run_try_catch, run_bind, Z.add_0_r. by destruct (run (processLiveUpdate _ p') w) as [[e|ack] w1].
  - cbn. rec_simpl. lia.
  - cbn. rec_simpl. lia.
Qed.

Lemma in_order_after T new evs w :
  (T ≤ max_date)%Z → forallb calm evs = true → (tr_now w + elapsed evs ≤ T)%Z → in_order T new w →
  ∃ es, emitted (after evs w) = emitted w ++ es ∧ in_order T (new ++ es) (after evs w).
Proof.
  intros HT. revert new w. induction evs as [|ev evs IH]; intros new w Hc Hel Hio.
  { exists []. by rewrite !app_nil_r. }
  cbn in Hc. apply andb_true_iff in Hc as [Hc Hcs]. cbn [elapsed foldr] in Hel. fold (elapsed evs) in Hel.
  pose proof (elapsed_nonneg _ Hcs) as Hpos.
  destruct (in_order_handle T new ev w HT Hc) as (es & He & Hio'); [by destruct ev; try lia|done|].
  pose proof (tr_now_handle T new ev w Hio) as Hnow.
  destruct (IH (new ++ es) (run (handle ev) w).2) as (es' & He' & Hio''); [done|lia|done|].
  exists (es ++ es'). cbn [after foldl]. fold (after evs (run (handle ev) w).2).
  rewrite !app_assoc, <-He. split; [exact He'|exact Hio''].
Qed.

(** While Redis is up and within the life time of the remembered times, the
    live positions of a driver for a delivery are broadcast in the order they
    were captured, whatever updates and batches of this and other drivers
    arrive, in whatever order, and whatever the database refuses. *)
Theorem live_in_order evs w driver d :
  redis_up w = true → forallb calm evs = true →
  (0 < tr_now w)%Z → (tr_now w + elapsed evs ≤ max_date)%Z →
  (elapsed evs < LOCATION_DEDUP_TTL_SECONDS * 2 * 1000)%Z →
  ∃ new, emitted (after evs w) = emitted w ++ new ∧ ascending (times driver d new).
Proof.
  intros Hr Hc Hn Hd Hw.
  destruct (in_order_after (tr_now w + elapsed evs) [] evs w) as (es & He & Hio); [done|done|done| |].
  - split; [done| |lia|by intros ? ? i j a b _ Ha|by intros ? ? t ?%not_elem_of_nil].
    pose proof (elapsed_nonneg _ Hc). lia.
  - exists es. split; [done|]. apply (io_ascending _ _ _ Hio).
Qed.
End LocationSync.

(** ** Concrete runs *)
Module LocationExamples.
Import ExampleEnv.
(** The database is down until 2023-11-14T22:13:21Z. *)
Definition outage_end : Z := 1700000001000.
#[export] Instance tracking_env : TrackingEnv := {|
  objectId v := match v with JStr s => if isValidObjectId s then Some s else None | _ => None end;
  SYNC_BATCH_SIZE_LIMIT := 500;
  LOCATION_DEDUP_TTL_SECONDS := 60;
  LOCATION_MAX_AGE_MS := 300000;
  LOCATION_MAX_FUTURE_MS := 30000;
  create_fails _ w := if (tr_now w <? outage_end)%Z then Some "connection pool closed" else None;
  insertMany_fails docs w := if (tr_now w <? outage_end)%Z then Some ("connection pool closed", []) else None
|}.
Definition start (t : Z) : Tracking := mkTracking t 0 true ∅ ∅ [] [].
Definition driver1 : string := "64b7f0c2a1d3e4f500000001".
Definition delivery1 : string := "64b7f0c2a1d3e4f5000000aa".
Definition point (t : number) (la : Z) : json :=
  JObj [("capturedAt", JNum t); ("lat", JNum (Num.of_Z la)); ("lng", JNum (Num.of_Z 3))].
Definition fix_ (t : Z) : json :=
  JObj [("deliveryId", JStr delivery1); ("lat", JNum (Num.of_Z 6)); ("lng", JNum (Num.of_Z 3));
        ("capturedAt", JNum (Num.of_Z t))].
Definition batch : list json :=
  [point (Num.of_Z 1700000000000) 6; point (Num.of_Z 1700000005000) 7; point (Num.of_Z 1700000000000) 6;
   point (Num.of_Z 1700000006000) 91].
Definition t0 : Z := 1700000010000.

Example batch_acknowledged :
  ∃ ack, (run (processBatch driver1 batch) (start t0)).1 = inr ack ∧
    (received ack, savedCount ack, duplicates ack, failed ack) = (4, 2, 1, 1) ∧
    it_reason <$> results ack = [Some "lat out of range: 91"; None; None; None].
Proof. eexists. split; [vm_compute; reflexivity|]. split; reflexivity. Qed.

(** Timestamps with fractions of a millisecond escape the comparison: the
    point is stored again whenever it is sent again. *)
Definition fractional : list json := [point (Num.add (Num.of_Z 1700000000000) (NumParse.of_string "0.5")) 6].
Example fractions_repeat :
  length (locationUpdates (run (processBatch driver1 fractional)
    (run (processBatch driver1 fractional) (start t0)).2).2) = 2.
Proof. vm_compute. reflexivity. Qed.

(** Two copies of a batch that are handled at once both read the stored times
    before either inserts: its points are stored twice. *)
Example concurrent_batches_repeat :
  (length (locationUpdates (run (processBatch driver1 batch) (start t0)).2),
   length (locationUpdates
     (interleave [0; 1; 0; 1; 0; 1] [processBatch driver1 batch; processBatch driver1 batch] (start t0)).2)) = (2, 4).
Proof. vm_compute. reflexivity. Qed.

(** One point whose time is beyond the dates fails every point of its batch. *)
Example far_date_fails_batch :
  (run (processBatch driver1 (point (NumParse.of_string "1e16") 6 :: batch)) (start t0)).1 = inl date_cast_error.
Proof. vm_compute. reflexivity. Qed.

(** A [null] among the points throws out of the handler, past its [catch]. *)
Example null_point_escapes :
  (run (on_location_sync "s1" (Some driver1) (Some (JObj [("updates", JArr [JNull])]))) (start t0)).1
  = inl (Json.type_error "capturedAt").
Proof. vm_compute. reflexivity. Qed.

(** An update the database refused leaves its key in Redis: sent again after
    the outage it is rejected as a duplicate, and never stored. *)
Example refused_update_is_lost :
  let w := after [driver_location_update "s1" (Some driver1) (Some (fix_ 1700000000000)); time_passes 2000;
                  driver_location_update "s1" (Some driver1) (Some (fix_ 1700000000000))] (start 1700000000500) in
  locationUpdates w = [] ∧
  emitted w = [update_ack "s1" (rejected "connection pool closed"); update_ack "s1" duplicate_ack].
Proof. vm_compute. split; reflexivity. Qed.

(** Two updates whose accesses interleave: both read the last time before
    either writes it, so the older one is broadcast after the newer one, and
    Redis is left with the older time. *)
Definition race : list (prog Tracking LocationUpdateAck) * Tracking :=
  interleave [0; 0; 0; 1; 1; 1; 0; 1; 0; 1; 1; 1; 1; 0; 0; 0]
    [processLiveUpdate driver1 (fix_ 1700000000000); processLiveUpdate driver1 (fix_ 1700000003000)] (start t0).
Example race_out_of_order :
  times driver1 delivery1 (emitted race.2) = [1700000003000; 1700000000000]%Z.
Proof. vm_compute. reflexivity. Qed.

Definition resend : list socket_event :=
  [time_passes 1000; location_sync "s2" (Some driver1) (Some (JObj [("updates", JArr batch)]))].
Definition read : list SyncItemResult * list OfflineLocationPoint :=
  match validate_all batch with inr r => r | inl _ => ([], []) end.
Definition read_dates : list Z := nullish (dates read.2) [].


Lemma live_in_order_witness :
  let evs := [driver_location_update "s1" (Some driver1) (Some (fix_ 1700000000000)); time_passes 1000;
              driver_location_update "s1" (Some driver1) (Some (fix_ 1700000005000));
              driver_location_update "s2" (Some driver1) (Some (fix_ 1700000003000))] in
  ∃ new, emitted (after evs (start t0)) = emitted (start t0) ++ new ∧ ascending (times driver1 delivery1 new).
Proof.
  intros evs. apply live_in_order; [reflexivity|vm_compute; reflexivity|reflexivity| |reflexivity].
  vm_compute. discriminate.
Defined.
Example live_order_run :
  times driver1 delivery1 (emitted (after
    [driver_location_update "s1" (Some driver1) (Some (fix_ 1700000000000)); time_passes 1000;
     driver_location_update "s1" (Some driver1) (Some (fix_ 1700000005000));
     driver_location_update "s2" (Some driver1) (Some (fix_ 1700000003000))] (start t0)))
  = [1700000000000; 1700000005000]%Z.
Proof. vm_compute. reflexivity. Qed.
End LocationExamples.
