(* ===== verification/Chat.v ===== *)
(** * Delivery chat ([src/src/sockets/chatMessage.service.ts],
      [src/src/repositories/ChatMessageRepository.ts],
      [src/src/services/deliveryChatService.ts], [src/src/models/ChatMessage.ts])

    Who may take part in the chat of a delivery, messages and their validation,
    read receipts and unread counts, history and transcript.  The service uses
    [Types], [Delivery], [User] and [UserRole] without importing them: whether
    the build binds these names is a field of [ChatEnv], and a use of an unbound
    name throws. *)
From S2P Require Import Prelude JsLib Models Repositories Pagination Onboarding Accounts.

(** ** Data *)

(** A user in [readBy], whose path is of mixed type: a string and an ObjectId of
    the same text differ. *)
Inductive user_ref := as_string (s : string) | as_objectId (s : string).
#[export] Instance user_ref_eq_dec : EqDecision user_ref.
Proof. solve_decision. Defined.

Record IReadReceipt := mkReceipt { rr_userId : user_ref; rr_readAt : Z }.

Record ChatMessage := mkChatMessage {
  cm_deliveryId : option string;
  cm_delivery : option string;
  cm_content : string;
  cm_sender : option string;
  cm_senderRole : option UserRole;
  cm_recipients : list string;
  cm_readBy : list IReadReceipt;
  cm_createdAt : Z
}.
#[export] Instance ChatMessage_eta : Settable ChatMessage := λ m,
  mkChatMessage m.(cm_deliveryId) m.(cm_delivery) m.(cm_content) m.(cm_sender) m.(cm_senderRole)
    m.(cm_recipients) m.(cm_readBy) m.(cm_createdAt).

Record Chat := mkChat { ch_accounts : Accounts; messages : gmap string ChatMessage }.
#[export] Instance Chat_eta : Settable Chat := λ w, mkChat w.(ch_accounts) w.(messages).

Class ChatEnv := {
  (** [isEnabled('chat')]. *)
  chat_enabled : bool;
  names_bound : bool
}.

Definition RECENT_MESSAGE_LIMIT : Z := 10.
Definition MAX_MESSAGE_LENGTH : Z := 2000.
Definition DEFAULT_HISTORY_LIMIT : Z := 50.
Definition MAX_HISTORY_LIMIT : Z := 100.

Definition InvalidChatMessageError (m : string) : error := NamedError "InvalidChatMessageError" m.
Definition ChatFeatureDisabledError : error :=
  NamedError "ChatFeatureDisabledError" "Chat is disabled by feature flag".
Definition is_invalid_message (e : error) : bool :=
  match e with NamedError n _ => String.eqb n "InvalidChatMessageError" | _ => false end.

Section Chat.
Context `{Env, AccountEnv, ChatEnv}.

Abbreviation chatting := (prog Chat).

Definition put_accounts (a : Accounts) (w : Chat) : Chat := mkChat a (messages w).
Definition on_accounts {A} (p : prog Accounts A) : chatting A := zoom ch_accounts put_accounts p.
Definition on_world {A} (p : action A) : chatting A := on_accounts (on_base p).
Definition world (w : Chat) : World := ac_base (ch_accounts w).
Definition chat_now : chatting Z := on_world now.

(** The evaluation of a name the module does not import. *)
Definition unbound (n : string) : error := PlainError (n +:+ " is not defined").
Definition name (n : string) : error + unit := if names_bound then inr tt else inl (unbound n).
Definition named {A} (n : string) (p : chatting A) : chatting A := _ ← Done (name n); p.

(** ** The collection *)

(** [buildDeliveryFilter]. *)
Definition in_delivery (id : string) (m : ChatMessage) : bool :=
  bool_decide (cm_deliveryId m = Some id) || bool_decide (cm_delivery m = Some id).

(** The hook before a save fills the other of the two references. *)
Definition linked (m : ChatMessage) : ChatMessage :=
  match cm_deliveryId m, cm_delivery m with
  | Some d, None => m <| cm_delivery := Some d |>
  | None, Some d => m <| cm_deliveryId := Some d |>
  | _, _ => m
  end.

Definition create (m : Z → ChatMessage) : chatting (hydrated ChatMessage) :=
  id ← on_world fresh_id;
  atomic_try (λ w,
    let d := linked (m (now_ms (world w))) in
    if negb (Str.truthy (cm_content d)) then (inl (PlainError "ChatMessage validation failed"), w)
    else if bool_decide (is_Some (messages w !! id)) then (inl DuplicateKey, w)
    else (inr (Doc id d), w <| messages ::= <[id := d]> |>)).

(** [sort({ createdAt: -1 })]. *)
Definition newest_first (a b : hydrated ChatMessage) : bool := (cm_createdAt (body b) <=? cm_createdAt (body a))%Z.
Definition chat_of (P : ChatMessage → bool) (w : Chat) : list (hydrated ChatMessage) :=
  sort_by newest_first (find_all P (messages w)).

Definition findRecent (limit : Z) : chatting (list (hydrated ChatMessage)) :=
  reads (λ w, skip_limit 0 limit (chat_of (λ _, true) w)).

(** A filter on an ObjectId path casts its value. *)
Definition with_id {A} (id : string) (p : chatting A) : chatting A :=
  if isValidObjectId id then p else throw user_cast_error.

Definition findByDelivery (id : string) (skip limit : Z) : chatting (list (hydrated ChatMessage)) :=
  with_id id (reads (λ w, skip_limit skip limit (chat_of (in_delivery id) w))).
Definition countByDelivery (id : string) : chatting Z :=
  with_id id (reads (λ w, Z.of_nat (length (find_all (in_delivery id) (messages w))))).
Definition findDeliveryMessages (id : string) (page limit : Z) : chatting (Page (hydrated ChatMessage)) :=
  with_id id (reads (λ w, paginate (chat_of (in_delivery id) w) page limit)).

(** [userMatches]: the text of a user, and the ObjectId if it is one. *)
Definition userMatches (u : string) : list user_ref :=
  if isValidObjectId u then [as_string u; as_objectId u] else [as_string u].
(** What is pushed to [readBy]. *)
Definition user_objId (u : string) : user_ref := if isValidObjectId u then as_objectId u else as_string u.

(** [sender] and [readBy.userId] are none of the user's forms. *)
Definition unread_by (u : string) (m : ChatMessage) : bool :=
  negb (bool_decide (cm_sender m = Some u))
  && negb (some (λ r, includes (rr_userId r) (userMatches u)) (cm_readBy m)).

Definition unread_in (id u : string) (m : ChatMessage) : bool := in_delivery id m && unread_by u m.
Definition unread_count (id u : string) (w : Chat) : nat :=
  length (find_all (unread_in id u) (messages w)).

Definition countUnreadForUser (id u : string) : chatting Z :=
  with_id id (reads (λ w, Z.of_nat (unread_count id u w))).

Definition read_by (u : string) (t : Z) (m : ChatMessage) : ChatMessage :=
  m <| cm_readBy ::= (.++ [mkReceipt (user_objId u) t]) |>.

Definition push_receipts (P : string → ChatMessage → bool) (u : string) (t : Z) : chatting Z :=
  atomic (λ w,
    (Z.of_nat (length (filter (λ kv, P kv.1 kv.2 = true) (map_to_list (messages w)))),
     w <| messages ::= update_many P (read_by u t) |>)).

Definition markDeliveryMessagesAsRead (id u : string) : chatting Z :=
  t ← chat_now; with_id id (push_receipts (λ _, unread_in id u) u t).

(** [markRead] of the repository: only the ObjectId form counts as read. *)
Definition to_mark (id : string) (ids : list string) (u k : string) (m : ChatMessage) : bool :=
  includes k ids && in_delivery id m
  && negb (some (λ r, bool_decide (rr_userId r = user_objId u)) (cm_readBy m)).
Definition repo_markRead (id : string) (ids : list string) (u : string) : chatting Z :=
  t ← chat_now; with_id id (push_receipts (to_mark id ids u) u t).

(** ** The service *)
Record ValidatedChatMessage := mkValidated {
  v_content : string;
  v_sender : option string;
  v_deliveryId : option string;
  v_recipients : option (list string)
}.

Definition invalid {A} (m : string) : error + A := inl (InvalidChatMessageError m).

(** [new Types.ObjectId(String(v).trim())], refused with a message. *)
Definition object_id (v : json) (m : string) : error + string :=
  _ ← name "Types";
  let s := Str.trim (Json.to_text v) in
  if isValidObjectId s then inr s else invalid m.

Definition valid_content (v : option json) : error + string :=
  match v with
  | Some (JStr s) =>
      let content := Str.trim s in
      if (Str.length content =? 0)%Z then invalid "Message content cannot be empty"
      else if (MAX_MESSAGE_LENGTH <? Str.length content)%Z
      then invalid ("Message content cannot exceed " +:+ pretty MAX_MESSAGE_LENGTH +:+ " characters")
      else inr content
  | _ => invalid "Message content is required"
  end.

Definition valid_sender (v : option json) : error + option string :=
  match v with
  | None => inr None
  | Some (JStr s) => inr (if Str.truthy (Str.trim s) then Some (Str.trim s) else None)
  | Some _ => invalid "Sender must be a string"
  end.

Definition valid_deliveryId (v : option json) : error + option string :=
  match v with
  | None => inr None
  | Some d => id ← object_id d "deliveryId must be a valid ObjectId"; inr (Some id)
  end.

Definition valid_recipients (v : option json) : error + option (list string) :=
  match v with
  | None => inr None
  | Some (JArr l) =>
      ids ← mapM (M:=sum error) (λ r, object_id r "Each recipient must be a valid ObjectId") l;
      inr (Some ids)
  | Some _ => invalid "recipients must be an array of ObjectIds"
  end.

Definition is_object (v : option json) : bool :=
  match v with Some (JObj _) | Some (JArr _) => true | _ => false end.

Definition validate (payload : option json) : error + ValidatedChatMessage :=
  if negb (is_object payload) then invalid "Payload must be an object" else
  let get f := payload ≫= Json.field f in
  content ← valid_content (get "content");
  sender ← valid_sender (get "sender");
  delivery ← valid_deliveryId (get "deliveryId");
  recipients ← valid_recipients (get "recipients");
  inr (mkValidated content sender delivery recipients).

Definition participants (d : Delivery) : list string :=
  omap id [sender d; d_recipient d; driverId d; userId d].

(** The parties of the delivery but the sender, each once. *)
Definition default_recipients (sender : option string) (d : Delivery) : list string :=
  foldl (λ l x, if includes x l then l else l ++ [x]) []
    (List.filter (λ x, Str.truthy x && negb (String.eqb x (nullish sender "")) && isValidObjectId x)
       (participants d)).

Definition receipts_of (sender : option string) (t : Z) : error + list IReadReceipt :=
  match sender with
  | None => inr []
  | Some s => _ ← name "Types"; inr [mkReceipt (user_objId s) t]
  end.

Definition createMessage (payload : option json) : chatting (hydrated ChatMessage) :=
  _ ← throw_if (negb chat_enabled) ChatFeatureDisabledError;
  v ← Done (validate payload);
  let given := nullish (v_recipients v) [] in
  recipients ←
    match v_deliveryId v, given with
    | Some d, [] =>
        try_catch
          (named "Delivery"
            (found ← on_world (DeliveryRepository.model_findById d);
             mret (match found with Some x => default_recipients (v_sender v) (body x) | None => [] end)))
          (λ _, mret [])
    | _, _ => mret given
    end;
  t ← chat_now;
  readBy ← Done (receipts_of (v_sender v) t);
  create (mkChatMessage (v_deliveryId v) (v_deliveryId v) (v_content v) (v_sender v) None recipients readBy).

(** The second of the two methods of this name, which is the one the class has. *)
Definition getRecentTranscript (limit : option Z) : chatting (list (hydrated ChatMessage)) :=
  l ← findRecent (nullish limit RECENT_MESSAGE_LIMIT);
  mret (rev l).

Definition may_access (u : string) (d : option (hydrated Delivery)) (a : option (hydrated Account)) : bool :=
  match d, a with
  | Some d, Some a => bool_decide (ac_role (body a) = ADMIN) || includes u (participants (body d))
  | _, _ => false
  end.

Definition canAccessDelivery (u : option string) (deliveryId : string) : chatting bool :=
  match u with
  | None => mret false
  | Some u =>
      if negb (Str.truthy u) then mret false else
      named "Types"
        (if negb (isValidObjectId deliveryId) || negb (isValidObjectId u) then mret false else
         d ← on_world (DeliveryRepository.model_findById deliveryId);
         a ← on_accounts (find_account u);
         mret (may_access u d a))
  end.

Definition delivery_message (d sender content : string) (role : option UserRole) (readAt createdAt : Z) : ChatMessage :=
  mkChatMessage (Some d) (Some d) content (Some sender) role [] [mkReceipt (as_string sender) readAt] createdAt.

(** [payload?.content], validated as a payload of its own. *)
Definition content_of (payload : option json) : error + string :=
  valid_content (payload ≫= Json.field "content").

Definition createDeliveryMessage (d sender : string) (payload : option json) : chatting (hydrated ChatMessage) :=
  named "Types"
    (_ ← throw_if (negb (isValidObjectId d)) (InvalidChatMessageError "Invalid deliveryId");
     content ← Done (content_of payload);
     a ← on_accounts (find_account sender);
     t ← chat_now;
     create (delivery_message d sender content (ac_role ∘ body <$> a) t)).

Definition getDeliveryHistory (d : string) (page limit : option Z) : chatting (Page (hydrated ChatMessage)) :=
  let safePage := Z.max 1 (nullish page 1%Z) in
  let safeLimit := clamp_limit MAX_HISTORY_LIMIT (nullish limit DEFAULT_HISTORY_LIMIT) in
  l ← findByDelivery d ((safePage - 1) * safeLimit)%Z safeLimit;
  n ← countByDelivery d;
  mret (mkPage (rev l) n safePage safeLimit (ceil_div n safeLimit)).

Definition id_strings (l : list json) : list string :=
  omap (λ v, match v with JStr s => if isValidObjectId s then Some s else None | _ => None end) l.
Definition has_string (l : list json) : bool := some (λ v, match v with JStr _ => true | _ => false end) l.

Definition markRead (d : string) (messageIds : option json) (u : string) : chatting (list string) :=
  match messageIds with
  | Some (JArr l) =>
      _ ← Done (if has_string l then name "Types" else inr tt);
      let ids := id_strings l in
      if bool_decide (ids = []) then mret ids else
      _ ← repo_markRead d ids u; mret ids
  | _ => throw (InvalidChatMessageError "messageIds must be an array")
  end.

(** ** The HTTP side ([deliveryChatService.ts]) *)
Definition is_party (u : string) (d : Delivery) : bool :=
  some (λ x, Str.truthy x && String.eqb x u) (participants d).

Definition assertParticipant (d u : string) (role : option UserRole) : chatting (hydrated Delivery) :=
  _ ← throw_if (negb (isValidObjectId d)) (AppError "Invalid delivery ID." Http.BAD_REQUEST);
  found ← on_world (DeliveryRepository.findById d);
  delivery ← or_throw found (AppError "Delivery not found." Http.NOT_FOUND);
  _ ← throw_if (negb (bool_decide (role = Some ADMIN)) && negb (is_party u (body delivery)))
        (AppError "Access denied: You are not a participant in this delivery chat." Http.FORBIDDEN);
  mret delivery.

Definition getDeliveryMessages (d u : string) (role : option UserRole) (page limit : Z)
    : chatting (Page (hydrated ChatMessage)) :=
  _ ← assertParticipant d u role; findDeliveryMessages d page limit.
Definition getUnreadCount (d u : string) (role : option UserRole) : chatting Z :=
  _ ← assertParticipant d u role; countUnreadForUser d u.
Definition markMessagesAsRead (d u : string) (role : option UserRole) : chatting Z :=
  _ ← assertParticipant d u role; markDeliveryMessagesAsRead d u.

(** ** Running the parts *)
Lemma chat_lens : lens_laws ch_accounts put_accounts.
Proof. by split; intros; [|destruct v|]. Qed.
Lemma run_on_accounts {A} (p : prog Accounts A) w :
  run (on_accounts p) w = ((run p (ch_accounts w)).1, put_accounts (run p (ch_accounts w)).2 w).
Proof. apply run_zoom, chat_lens. Qed.

Definition put_world (b : World) (w : Chat) : Chat := put_accounts (put_base b (ch_accounts w)) w.
Lemma run_on_world {A} (p : action A) w :
  run (on_world p) w = ((run p (world w)).1, put_world (run p (world w)).2 w).
Proof. unfold on_world. rewrite run_on_accounts, run_account_base. done. Qed.

Lemma put_accounts_id w : put_accounts (ch_accounts w) w = w.
Proof. by destruct w. Qed.
Lemma put_world_id w : put_world (world w) w = w.
Proof. by destruct w as [[]]. Qed.

(** A read of the database leaves the world alone. *)
Lemma run_on_world_reads {A} (f : World → A) w : run (on_world (reads f)) w = (inr (f (world w)), w).
Proof. rewrite run_on_world, run_reads. cbn [fst snd]. by rewrite put_world_id. Qed.
Lemma run_chat_now w : run chat_now w = (inr (now_ms (world w)), w).
Proof. apply run_on_world_reads. Qed.
Lemma run_chat_account id w :
  run (on_accounts (find_account id)) w =
    (if isValidObjectId id then inr (find_by_id id (accounts (ch_accounts w))) else inl user_cast_error, w).
Proof.
  rewrite run_on_accounts. unfold find_account.
  destruct (isValidObjectId id); cbn; by rewrite put_accounts_id.
Qed.
Lemma run_find_delivery id w :
  run (on_world (DeliveryRepository.model_findById id)) w = (inr (find_by_id id (deliveries (world w))), w).
Proof. apply run_on_world_reads. Qed.
Lemma run_repo_findById id w :
  run (on_world (DeliveryRepository.findById id)) w =
    (inr (if isValidObjectId id then find_by_id id (deliveries (world w)) else None), w).
Proof.
  unfold DeliveryRepository.findById. destruct (isValidObjectId id); [apply run_find_delivery|].
  rewrite run_on_world. cbn. by rewrite put_world_id.
Qed.

(** What access is about: parties of a delivery, and administrators. *)
Definition has_access (u d : string) (w : Chat) : bool :=
  isValidObjectId d && isValidObjectId u
  && may_access u (find_by_id d (deliveries (world w))) (find_by_id u (accounts (ch_accounts w))).

(** The outcome of the access check, which writes nothing. *)
Lemma run_canAccessDelivery u d w :
  run (canAccessDelivery u d) w =
    (match u with
     | Some u => if Str.truthy u then _ ← name "Types"; inr (has_access u d w) else inr false
     | None => inr false
     end, w).
Proof.
  destruct u as [u|]; [|done]. cbn [canAccessDelivery]. destruct (Str.truthy u); [|done]. cbn [negb].
  unfold named, has_access. rewrite run_bind, run_done.
  destruct (name "Types") as [e|[]]; [done|]. cbn [fst snd].
  destruct (isValidObjectId d); [|done]. destruct (isValidObjectId u) eqn:Hu; [|done]. cbn [negb orb andb].
  rewrite run_bind, run_find_delivery. cbn [fst snd].
  rewrite run_bind, run_chat_account, Hu. cbn [fst snd]. done.
Qed.

(** ** Messages of a delivery *)
Lemma valid_content_spec v content :
  valid_content v = inr content →
  Str.trim content = content ∧ (1 ≤ Str.length content ≤ MAX_MESSAGE_LENGTH)%Z.
Proof.
  unfold valid_content. destruct v as [[| | |s| |]|]; try done.
  destruct (Z.eqb_spec (Str.length (Str.trim s)) 0) as [|Hne]; [done|].
  destruct (Z.ltb_spec MAX_MESSAGE_LENGTH (Str.length (Str.trim s))) as [|Hle]; [done|].
  intros [= <-]. split; [apply Str.trim_idemp|]. unfold Str.length in *. lia.
Qed.

(** What a message of a user becomes, or why it is refused. *)
Definition message_outcome (d u : string) (payload : option json) (c : Chat) : error + ChatMessage :=
  match name "Types" with
  | inl e => inl e
  | inr _ =>
      if negb (isValidObjectId d) then invalid "Invalid deliveryId" else
      match content_of payload with
      | inl e => inl e
      | inr content =>
          if isValidObjectId u then
            inr (delivery_message d u content (ac_role <$> accounts (ch_accounts c) !! u)
                   (now_ms (world c)) (now_ms (world c)))
          else inl user_cast_error
      end
  end.

Definition message_id (c : Chat) : string := newObjectId (nextId (world c)).
Definition with_message (m : ChatMessage) (c : Chat) : Chat :=
  mkChat (put_base (world c <| nextId ::= S |>) (ch_accounts c)) (<[message_id c := m]> (messages c)).

Lemma run_createDeliveryMessage d u payload c :
  messages c !! message_id c = None →
  run (createDeliveryMessage d u payload) c =
    match message_outcome d u payload c with
    | inl e => (inl e, c)
    | inr m => (inr (Doc (message_id c) m), with_message m c)
    end.
Proof.
  intros Hfresh. unfold createDeliveryMessage, message_outcome, named. rewrite run_bind, run_done.
  destruct (name "Types") as [e|[]]; [done|]. cbn [fst snd].
  rewrite run_bind, run_throw_if. destruct (isValidObjectId d); [|done]. cbn [negb fst snd].
  rewrite run_bind, run_done. destruct (content_of payload) as [e|content] eqn:Hc; [done|]. cbn [fst snd].
  rewrite run_bind, run_chat_account. destruct (isValidObjectId u); [|done]. cbn [fst snd].
  rewrite run_bind, run_chat_now. cbn [fst snd]. unfold create.
  rewrite run_bind, run_on_world. unfold fresh_id. rewrite run_atomic. cbn [fst snd].
  rewrite run_atomic_try. cbn [fst snd].
  apply valid_content_spec in Hc as [_ Hlen].
  assert (Str.truthy content = true) as Ht.
  { apply Str.truthy_spec. intros ->. unfold Str.length in Hlen. cbn in Hlen. lia. }
  change (messages (put_world _ c)) with (messages c). unfold message_id in *.
  cbn [linked delivery_message cm_content cm_deliveryId cm_delivery]. rewrite Ht. cbn [negb].
  rewrite bool_decide_eq_false_2 by (rewrite Hfresh; by intros []).
  unfold find_by_id. by destruct (accounts (ch_accounts c) !! u).
Qed.

(** ** Unread counts *)
Lemma userMatches_other u u' : u' ≠ u → includes (user_objId u) (userMatches u') = false.
Proof.
  intros Hne. apply bool_decide_eq_false. unfold user_objId, userMatches. intros Hin.
  repeat case_match; rewrite list_elem_of_In in Hin; cbn in Hin; intuition congruence.
Qed.
Lemma userMatches_own u : includes (user_objId u) (userMatches u) = true.
Proof. apply includes_true. unfold user_objId, userMatches. case_match; [right; left|left]. Qed.

Lemma some_snoc {A} (f : A → bool) l x : some f (l ++ [x]) = some f l || f x.
Proof. unfold some. rewrite existsb_app. cbn. by rewrite orb_false_r. Qed.

(** A receipt of a user makes the message read for that user alone. *)
Lemma unread_after_receipt u u' t m :
  unread_by u' (read_by u t m) = unread_by u' m && negb (String.eqb u' u).
Proof.
  unfold unread_by, read_by. unfold set. cbn [cm_sender cm_readBy]. rewrite some_snoc. cbn [rr_userId].
  destruct (String.eqb_spec u' u) as [->|Hne].
  - rewrite userMatches_own, orb_true_r. cbn [negb]. by rewrite !andb_false_r.
  - rewrite (userMatches_other u u') by done. by rewrite orb_false_r, andb_true_r.
Qed.
Lemma in_delivery_receipt d u t m : in_delivery d (read_by u t m) = in_delivery d m.
Proof. done. Qed.

(** Counting after an update of every message. *)
Lemma find_all_length {A} (P : A → bool) (m : gmap string A) :
  length (find_all P m) = size (filter (λ kv, P kv.2 = true) m).
Proof.
  unfold find_all. rewrite length_fmap, <-(length_map_to_list (filter _ m)). apply Permutation_length.
  apply NoDup_Permutation; [apply NoDup_filter, NoDup_map_to_list|apply NoDup_map_to_list|].
  intros [k a]. rewrite list_elem_of_filter, !elem_of_map_to_list, map_lookup_filter_Some. tauto.
Qed.

Lemma count_ext {A} (P Q : A → bool) (m m' : gmap string A) :
  (∀ k, (P <$> m !! k) = (Q <$> m' !! k)) → length (find_all P m) = length (find_all Q m').
Proof.
  intros Hpq. rewrite !find_all_length, <-!(size_dom (D:=gset string)). f_equal. apply set_eq. intros k.
  rewrite !elem_of_dom. specialize (Hpq k).
  split; intros (a & [Ha HP]%map_lookup_filter_Some); rewrite Ha in Hpq; cbn in Hpq, HP.
  - symmetry in Hpq. apply fmap_Some in Hpq as (a' & Ha' & Hq). exists a'.
    apply map_lookup_filter_Some. cbn. by rewrite <-Hq.
  - apply fmap_Some in Hpq as (a' & Ha' & Hq). exists a'. apply map_lookup_filter_Some. cbn. by rewrite <-Hq.
Qed.

(** Who is refused on the HTTP side, and with what. *)
Definition http_refusal (d u : string) (role : option UserRole) (w : Chat) : option error :=
  if negb (isValidObjectId d) then Some (AppError "Invalid delivery ID." Http.BAD_REQUEST) else
  match deliveries (world w) !! d with
  | None => Some (AppError "Delivery not found." Http.NOT_FOUND)
  | Some x =>
      if bool_decide (role = Some ADMIN) || is_party u x then None
      else Some (AppError "Access denied: You are not a participant in this delivery chat." Http.FORBIDDEN)
  end.

Lemma run_assertParticipant d u role w :
  run (assertParticipant d u role) w =
    (match http_refusal d u role w with
     | Some e => inl e
     | None => match deliveries (world w) !! d with Some x => inr (Doc d x) | None => inl DuplicateKey end
     end, w).
Proof.
  unfold assertParticipant, http_refusal. rewrite run_bind, run_throw_if.
  destruct (isValidObjectId d) eqn:Hd; [|done]. cbn [negb fst snd].
  rewrite run_bind, run_repo_findById, Hd. cbn [fst snd]. unfold find_by_id.
  destruct (deliveries (world w) !! d) as [x|]; [|done]. cbn [fmap option_fmap option_map].
  rewrite run_bind, run_or_throw. cbn [fst snd body]. rewrite run_bind, run_throw_if.
  destruct (bool_decide (role = Some ADMIN)); [done|]. by destruct (is_party u x).
Qed.

(** Marking the messages of a delivery's chat as read answers with the number
    of the caller's unread messages, after which the caller has none there while
    nobody else's unread count changes in any delivery; a caller who is not a
    party of the delivery and not an administrator is refused and nothing
    changes.  Counting alone changes nothing. *)
Theorem markMessagesAsRead_correct d u role w :
  run (getUnreadCount d u role) w =
    (match http_refusal d u role w with
     | Some e => inl e | None => inr (Z.of_nat (unread_count d u w)) end, w) ∧
  let '(r, w') := run (markMessagesAsRead d u role) w in
  match http_refusal d u role w with
  | Some e => r = inl e ∧ w' = w
  | None =>
      r = inr (Z.of_nat (unread_count d u w)) ∧
      unread_count d u w' = 0%nat ∧
      (∀ d' u', u' ≠ u → unread_count d' u' w' = unread_count d' u' w) ∧
      ch_accounts w' = ch_accounts w ∧
      ∀ k, messages w' !! k =
        (λ m, if unread_in d u m then read_by u (now_ms (world w)) m else m) <$> messages w !! k
  end.
Proof.
  unfold getUnreadCount, markMessagesAsRead, countUnreadForUser, markDeliveryMessagesAsRead, with_id.
  rewrite !run_bind, run_assertParticipant.
  destruct (http_refusal d u role w) eqn:Hr; [done|].
  assert (isValidObjectId d = true) as Hd.
  { unfold http_refusal in Hr. by destruct (isValidObjectId d). }
  assert (∃ x, deliveries (world w) !! d = Some x) as [x ->].
  { unfold http_refusal in Hr. rewrite Hd in Hr. cbn [negb] in Hr.
    destruct (deliveries (world w) !! d); [by eexists|done]. }
  cbn [fst snd]. rewrite Hd. split; [done|]. rewrite run_chat_now. cbn [fst snd].
  unfold push_receipts. rewrite run_atomic. cbn [fst snd].
  set (w' := w <| messages ::= _ |>).
  assert (messages w' = update_many (λ _, unread_in d u) (read_by u (now_ms (world w))) (messages w)) as Hm by done.
  split; [|split; [|split; [|split]]].
  - unfold unread_count, find_all. by rewrite length_fmap.
  - unfold unread_count. rewrite find_all_length. apply map_size_empty_iff, map_empty. intros k.
    apply map_lookup_filter_None. right. intros m.
    rewrite Hm, lookup_update_many. cbn. destruct (messages w !! k) as [a|]; [|done]. cbn.
    intros [= <-]. destruct (unread_in d u a) eqn:Hu; [|congruence].
    unfold unread_in. rewrite unread_after_receipt, String.eqb_refl. by rewrite !andb_false_r.
  - intros d' u' Hne. apply count_ext. intros k. rewrite Hm, lookup_update_many.
    destruct (messages w !! k) as [a|]; [|done]. cbn. f_equal.
    destruct (unread_in d u a); [|done]. unfold unread_in. rewrite in_delivery_receipt, unread_after_receipt.
    by rewrite (proj2 (String.eqb_neq u' u) Hne), andb_true_r.
  - done.
  - intros k. by rewrite Hm, lookup_update_many.
Qed.
End Chat.
