(* ===== verification/SocketServer.v ===== *)
(** * The socket server ([src/src/sockets/connectionHandler.ts],
      [src/src/sockets/socket.service.ts])

    Connections and their registry, rooms, health checks, token refresh, chat
    over rooms and the acknowledgement of queued messages.  An event is a
    program: what a handler does between two awaits is one step.  Of Socket.IO
    it uses the sockets that are connected, the rooms of each, broadcasts to a
    room, and that a closed socket leaves its rooms and raises [disconnect]
    once.  Position events are in [LocationSync.v]. *)
From S2P Require Import Prelude JsLib Models Repositories Onboarding Accounts MessageQueue Chat.

(** ** State *)

(** [socket.data], and the number that stands for the object itself. *)
Record Socket := mkSocket {
  so_object : nat;
  so_userId : option string;
  so_tokenExp : option number
}.

Record SocketConnectionMeta := mkMeta {
  cn_userId : option string;
  cn_connectedAt : Z;
  cn_lastPongAt : Z;
  missedPongs : Z;
  cn_rooms : list string;
  cn_tokenExp : option number
}.
#[export] Instance Meta_eta : Settable SocketConnectionMeta := λ m,
  mkMeta m.(cn_userId) m.(cn_connectedAt) m.(cn_lastPongAt) m.(missedPongs) m.(cn_rooms) m.(cn_tokenExp).

Record ChatMessageBroadcast := mkChatBroadcast {
  cb_id : string;
  cb_deliveryId : string;
  cb_content : string;
  cb_userId : string;
  cb_role : option UserRole;
  cb_createdAt : string
}.

Inductive server_event :=
  | sv_ping (timestamp : Z)
  | sv_auth_expired
  | sv_chat_error (event message : string) (deliveryId : option json)
  | sv_message (m : ChatMessageBroadcast)
  | sv_typing (deliveryId userId : string) (isTyping : bool)
  | sv_read_receipt (deliveryId userId : string) (messageIds : list string) (readAt : string)
  | sv_status_updated (o : outbound).

(** What left the server: the sockets it reached, each with its user. *)
Record Packet := mkPacket { pk_to : list (string * option string); pk_event : server_event }.

(** [live] are the connected sockets, [adapter] the rooms of each, and
    [connections] is the registry in the order of its insertions. *)
Record Server := mkServer {
  sv_chat : Chat;
  sv_queue : MessageQueue;
  live : gmap string Socket;
  adapter : gmap string (gset string);
  connections : list (string * SocketConnectionMeta);
  objects : nat;
  sv_up : bool;
  outbox : list Packet
}.
#[export] Instance Server_eta : Settable Server := λ w,
  mkServer w.(sv_chat) w.(sv_queue) w.(live) w.(adapter) w.(connections) w.(objects) w.(sv_up) w.(outbox).

Definition delivery_prefix : string := "delivery:".
Definition delivery_room (d : string) : string := delivery_prefix +:+ d.
Definition parseDeliveryRoom (room : string) : option string :=
  if Str.startsWith room delivery_prefix
  then Some (String.substring 9 (String.length room) room) else None.

(** The ids Socket.IO hands out are distinct and name no delivery. *)
Class SocketOptions := {
  SOCKET_MAX_MISSED_PONGS : Z;
  SOCKET_MAX_MISSED_PONGS_min : (1 ≤ SOCKET_MAX_MISSED_PONGS)%Z;
  newSocketId : nat → string;
  newSocketId_inj : Inj (=) (=) newSocketId;
  newSocketId_plain n : parseDeliveryRoom (newSocketId n) = None
}.

Section Server.
Context `{Env, AccountEnv, ChatEnv, MessageQueueOptions, SocketOptions}.
Implicit Types (w : Server) (id : string).

Abbreviation serving := (prog Server).

Definition clock w : Z := now_ms (world (sv_chat w)).
Definition put_chat (c : Chat) w : Server :=
  mkServer c (sv_queue w) (live w) (adapter w) (connections w) (objects w) (sv_up w) (outbox w).
Definition on_chat {A} (p : prog Chat A) : serving A := zoom sv_chat put_chat p.

(** A method of the message queue, at the server's time. *)
Definition on_queue (f : MessageQueue → MessageQueue) w : Server :=
  w <| sv_queue := f (sv_queue w <| mq_now := clock w |>) |>.

(** ** The registry: a [Map] from socket ids *)
Definition meta_of id w : option SocketConnectionMeta :=
  snd <$> List.find (λ kv, String.eqb kv.1 id) (connections w).
Definition update_meta id (f : SocketConnectionMeta → SocketConnectionMeta) w : Server :=
  w <| connections ::= fmap (λ kv, if String.eqb kv.1 id then (kv.1, f kv.2) else kv) |>.
Definition set_connection id (m : SocketConnectionMeta) w : Server :=
  match meta_of id w with
  | Some _ => update_meta id (λ _, m) w
  | None => w <| connections ::= (.++ [(id, m)]) |>
  end.
Definition delete_connection id w : Server :=
  w <| connections ::= List.filter (λ kv, negb (String.eqb kv.1 id)) |>.

Definition trackRoomJoin id (room : string) : Server → Server :=
  update_meta id (λ m, if includes room (cn_rooms m) then m else m <| cn_rooms ::= (.++ [room]) |>).
Definition trackRoomLeave id (room : string) : Server → Server :=
  update_meta id (set cn_rooms (List.filter (λ r, negb (String.eqb r room)))).
Definition updateTokenExpiration id (x : number) : Server → Server :=
  update_meta id (set cn_tokenExp (λ _, Some x)).

(** ** Rooms and emissions *)
Definition rooms_of id w : gset string := default ∅ (adapter w !! id).
Definition in_room id (room : string) w : bool := bool_decide (room ∈ rooms_of id w).
Definition join id (room : string) w : Server := w <| adapter ::= <[id := {[room]} ∪ rooms_of id w]> |>.
Definition leave id (room : string) w : Server := w <| adapter ::= <[id := rooms_of id w ∖ {[room]}]> |>.

Definition user_of id w : option string := live w !! id ≫= so_userId.
(** The connected sockets that satisfy [P]. *)
Definition reached (P : string → bool) w : list (string * option string) :=
  (λ kv, (kv.1, so_userId kv.2)) <$> filter (λ kv, P kv.1 = true) (map_to_list (live w)).
Definition send_to (P : string → bool) (e : server_event) w : Server :=
  w <| outbox ::= (.++ [mkPacket (reached P w) e]) |>.

(** [socket.emit], [io.to(room).emit] and [socket.to(room).emit]. *)
Definition emit_to id : server_event → Server → Server := send_to (String.eqb id).
Definition broadcast (room : string) (e : server_event) w : Server := send_to (λ id, in_room id room w) e w.
Definition broadcast_others id (room : string) (e : server_event) w : Server :=
  send_to (λ id', in_room id' room w && negb (String.eqb id' id)) e w.

(** ** Connections *)

(** [handleDisconnect], on a socket that has gone. *)
Definition handleDisconnect id w : Server :=
  match meta_of id w with
  | None => w
  | Some m =>
      let w := match cn_userId m with
               | Some u => on_queue (λ q, (MessageQueue.handleDisconnect u q).2) w
               | None => w
               end in
      delete_connection id w
  end.

(** [socket.disconnect(true)], and the loss of a connection. *)
Definition close id w : Server :=
  match live w !! id with
  | None => w
  | Some _ => handleDisconnect id (w <| live ::= delete id |> <| adapter ::= delete id |>)
  end.

Definition raw_token (token : string) : string :=
  if Str.startsWith token "Bearer " then String.substring 7 (String.length token) token else token.
Definition thousand : number := Num.of_Z 1000.
(** [typeof decoded.exp === 'number' ? decoded.exp * 1000 : undefined]. *)
Definition expiry (claims : json) : option number :=
  (λ x, Num.mul x thousand) <$> Json.as_number (Json.field "exp" claims).
Definition number_truthy (x : number) : bool := Json.truthy (Some (JNum x)).
Definition truthy_number (x : option number) : option number :=
  match x with Some x => if number_truthy x then Some x else None | None => None end.
Definition truthy_string (s : option string) : option string :=
  match s with Some s => if Str.truthy s then Some s else None | None => None end.

Definition extractAuthInfo (token : option json) (t : Z) : option string * option number :=
  match token with
  | Some (JStr token) =>
      if negb (Str.truthy token) then (None, None) else
      match verify_token (raw_token token) AUTH_SECRET t with
      | Some claims =>
          (match Json.field "userId" claims with Some (JStr u) => Some u | _ => None end, expiry claims)
      | None => (None, None)
      end
  | _ => (None, None)
  end.

Definition registerConnection id (s : Socket) (userId : option string) (tokenExp : option number) w : Server :=
  let w := set_connection id (mkMeta userId (clock w) (clock w) 0 [id] tokenExp) w in
  match truthy_string userId with
  | Some u => on_queue (λ q, (MessageQueue.flush u (so_object s) (so_object s) q).2) w
  | None => w
  end.

(** The [connection] event with the handshake's [auth.token]. *)
Definition connect (token : option json) w : Server :=
  if negb (sv_up w) then w else
  let id := newSocketId (objects w) in
  let '(userId, tokenExp) := extractAuthInfo token (clock w) in
  let s := mkSocket (objects w) (truthy_string userId) (truthy_number tokenExp) in
  registerConnection id s userId tokenExp
    (w <| live ::= <[id := s]> |> <| adapter ::= <[id := {[id]}]> |> <| objects ::= S |>).

(** ** Handlers *)

(** What a listener does when nothing is awaited; packets only come from
    connected sockets. *)
Definition sync id (f : Server → Server) : serving unit :=
  writes (λ w, if bool_decide (is_Some (live w !! id)) then f w else w).
Definition sync_try id (f : Server → (error + unit) * Server) : serving unit :=
  atomic_try (λ w, if bool_decide (is_Some (live w !! id)) then f w else (inr tt, w)).

(** [payload?.f]. *)
Definition pick (f : string) (payload : option json) : option json := payload ≫= Json.field f.

(** [refresh_token]: what fails ends the connection. *)
Definition expire id w : Server := close id (emit_to id sv_auth_expired w).
Definition refreshed id (x : number) w : Server :=
  updateTokenExpiration id x
    (w <| live ::= alter (λ s, mkSocket (so_object s) (so_userId s) (Some x)) id |>).
Definition on_refresh_token id (payload : option json) : serving unit :=
  sync id (λ w,
    match pick "token" payload with
    | Some (JStr token) =>
        if negb (Str.truthy token) then expire id w else
        match verify_token (raw_token token) AUTH_SECRET (clock w) with
        | None => expire id w
        | Some claims =>
            match truthy_number (expiry claims) with
            | Some x => refreshed id x w
            | None => w
            end
        end
    | _ => expire id w
    end).

(** [handlePong]: the payload is read without a check. *)
Definition ponged (t : Z) (m : SocketConnectionMeta) : SocketConnectionMeta :=
  mkMeta (cn_userId m) (cn_connectedAt m) t 0 (cn_rooms m) (cn_tokenExp m).
Definition on_pong id (payload : option json) : serving unit :=
  sync_try id (λ w,
    match meta_of id w with
    | None => (inr tt, w)
    | Some _ =>
        match payload with
        | None | Some JNull => (inl (Json.type_error "timestamp"), w)
        | Some _ => (inr tt, update_meta id (ponged (clock w)) w)
        end
    end).

Definition joined id (room : string) w : Server := trackRoomJoin id room (join id room w).
Definition join_error id (d message : string) : serving unit :=
  writes (emit_to id (sv_chat_error "join_room" message (Some (JStr d)))).

(** Whether a delivery's room may be joined; a refusal is answered. *)
Definition join_allowed id (user : option string) (d : string) : serving bool :=
  try_catch
    (allowed ← on_chat (canAccessDelivery user d);
     if allowed : bool then mret true
     else _ ← join_error id d "Not a participant of this delivery"; mret false)
    (λ _, _ ← join_error id d "Unable to join room"; mret false).

(** [join_room]: the listener of the location handler runs first and calls
    [room.startsWith]. *)
Definition on_join_room id (room : json) : serving unit :=
  here ← reads (λ w, bool_decide (is_Some (live w !! id)));
  if negb here then mret tt else
  match room with
  | JStr r =>
      if negb (Str.truthy (Str.trim r)) then mret tt else
      match parseDeliveryRoom r with
      | Some d =>
          user ← reads (user_of id);
          ok ← join_allowed id user d;
          if ok : bool then writes (joined id r) else mret tt
      | None => writes (joined id r)
      end
  | _ => throw (PlainError "room.startsWith is not a function")
  end.

(** The delivery of a payload and the user of the socket, when the socket is in
    the delivery's room. *)
Definition speaker id (payload : option json) w : option (string * string) :=
  match truthy_string (user_of id w), pick "deliveryId" payload with
  | Some u, Some (JStr d) => if in_room id (delivery_room d) w then Some (d, u) else None
  | _, _ => None
  end.

Definition chat_broadcast (d u : string) (m : hydrated ChatMessage) : ChatMessageBroadcast :=
  mkChatBroadcast (_id m) d (cm_content (body m)) u (cm_senderRole (body m))
    (Date.toISOString (cm_createdAt (body m))).
(** The text of an invalid message's error, or that of any other failure. *)
Definition chat_failure (e : error) (message : string) : string :=
  if is_invalid_message e then error_message e else message.

Definition on_message id (payload : option json) : serving unit :=
  here ← reads (λ w, bool_decide (is_Some (live w !! id)));
  if negb here then mret tt else
  s ← reads (speaker id payload);
  match s with
  | None =>
      writes (emit_to id (sv_chat_error "message" "Join the delivery room before sending messages"
                            (pick "deliveryId" payload)))
  | Some (d, u) =>
      try_catch
        (saved ← on_chat (createDeliveryMessage d u payload);
         writes (broadcast (delivery_room d) (sv_message (chat_broadcast d u saved))))
        (λ e, writes (emit_to id (sv_chat_error "message" (chat_failure e "Failed to send message")
                                    (Some (JStr d)))))
  end.

Definition on_typing id (payload : option json) : serving unit :=
  sync id (λ w,
    match speaker id payload w with
    | Some (d, u) => broadcast_others id (delivery_room d) (sv_typing d u (Json.truthy (pick "isTyping" payload))) w
    | None => w
    end).

Definition on_read_receipt id (payload : option json) : serving unit :=
  here ← reads (λ w, bool_decide (is_Some (live w !! id)));
  if negb here then mret tt else
  s ← reads (speaker id payload);
  match s with
  | None => mret tt
  | Some (d, u) =>
      try_catch
        (ids ← on_chat (markRead d (pick "messageIds" payload) u);
         if bool_decide (ids = []) then mret tt else
         writes (λ w, broadcast_others id (delivery_room d)
                        (sv_read_receipt d u ids (Date.toISOString (clock w))) w))
        (λ e, writes (emit_to id (sv_chat_error "read_receipt"
                        (chat_failure e "Failed to record read receipt") (Some (JStr d)))))
  end.

Definition on_message_ack id (messageId : json) : serving unit :=
  sync id (λ w,
    match truthy_string (user_of id w), messageId with
    | Some u, JStr m => on_queue (λ q, (acknowledge u m q).2) w
    | _, _ => w
    end).

Definition on_leave_room id (room : json) : serving unit :=
  sync id (λ w, match room with JStr r => trackRoomLeave id r (leave id r w) | _ => w end).

Definition on_disconnect id : serving unit := writes (close id).

(** ** Health checks *)
Record HealthCheckResult := mkHealthCheck {
  checkedAt : string;
  totalConnections : Z;
  staleConnectionsEvicted : Z;
  activeConnections : Z
}.

Definition token_expired (t : Z) (s : Socket) : bool :=
  match truthy_number (so_tokenExp s) with Some x => Num.ltb x (Num.of_Z t) | None => false end.

(** One connection of a tick; the number counts evictions. *)
Definition check_connection (acc : Server * Z) id : Server * Z :=
  let '(w, evicted) := acc in
  let w := update_meta id (set missedPongs Z.succ) w in
  match meta_of id w with
  | None => (w, evicted)
  | Some m =>
      if (SOCKET_MAX_MISSED_PONGS <? missedPongs m)%Z
      then (match live w !! id with Some _ => close id w | None => delete_connection id w end, Z.succ evicted)
      else
        match live w !! id with
        | Some s => (if token_expired (clock w) s then expire id w else emit_to id (sv_ping (clock w)) w, evicted)
        | None => (w, evicted)
        end
  end.

Definition runHealthCheckTick w : HealthCheckResult * Server :=
  let '(w', evicted) := foldl check_connection (w, 0%Z) (connections w).*1 in
  let n := Z.of_nat (length (connections w')) in
  (mkHealthCheck (Date.toISOString (clock w)) (n + evicted) evicted n, w').

(** ** The server's own emissions and its end *)
Definition emitDeliveryStatusUpdated (o : outbound) w : Server :=
  if sv_up w then
    let '(SocketStatusUpdated d _ _ _) := o in broadcast (delivery_room d) (sv_status_updated o) w
  else w.

Definition shutdownSocketServer w : Server :=
  let w := foldl (λ w id, close id w) (w <| sv_up := false |>) (map_to_list (live w)).*1 in
  w <| connections := [] |>.

(** ** Events *)
Inductive socket_event :=
  | ev_connect (token : option json)
  | ev_refresh_token id (payload : option json)
  | ev_pong id (payload : option json)
  | ev_join_room id (room : json)
  | ev_leave_room id (room : json)
  | ev_message id (payload : option json)
  | ev_typing id (payload : option json)
  | ev_read_receipt id (payload : option json)
  | ev_message_ack id (messageId : json)
  | ev_disconnect id
  | ev_tick
  | ev_timer (u id : string)
  | ev_enqueue (u event : string) (payload : json) (o : EnqueueSocketMessageOptions)
  | ev_status (o : outbound)
  | ev_shutdown.

Definition handle (e : socket_event) : serving unit :=
  match e with
  | ev_connect token => writes (connect token)
  | ev_refresh_token id p => on_refresh_token id p
  | ev_pong id p => on_pong id p
  | ev_join_room id r => on_join_room id r
  | ev_leave_room id r => on_leave_room id r
  | ev_message id p => on_message id p
  | ev_typing id p => on_typing id p
  | ev_read_receipt id p => on_read_receipt id p
  | ev_message_ack id m => on_message_ack id m
  | ev_disconnect id => on_disconnect id
  | ev_tick => writes (λ w, if sv_up w then (runHealthCheckTick w).2 else w)
  | ev_timer u m => writes (on_queue (fire_timer u m))
  | ev_enqueue u ev p o => writes (on_queue (λ q, (enqueue u ev p o q).2))
  | ev_status o => writes (emitDeliveryStatusUpdated o)
  | ev_shutdown => writes shutdownSocketServer
  end.

(** [initializeSocketServer] over the data that is there. *)
Definition initializeSocketServer (c : Chat) : Server :=
  mkServer c (empty_queue (now_ms (world c))) ∅ ∅ [] 0 true [].

(** ** The registry as a map *)
Lemma find_fmap_entry {A} (l : list (string * A)) id (g : string * A → string * A) :
  (∀ kv, (g kv).1 = kv.1) →
  List.find (λ kv, String.eqb kv.1 id) (g <$> l) = g <$> List.find (λ kv, String.eqb kv.1 id) l.
Proof.
  intros Hg. induction l as [|kv l IH]; [done|]. cbn. rewrite Hg. by destruct (String.eqb kv.1 id).
Qed.
Lemma meta_of_update id' f w id :
  meta_of id (update_meta id' f w) = if String.eqb id id' then f <$> meta_of id w else meta_of id w.
Proof.
  unfold meta_of, update_meta. unfold set. cbn [connections].
  rewrite find_fmap_entry by (intros kv; by case_match).
  destruct (List.find _ _) as [[k m]|] eqn:Hf; cbn; [|by case_match].
  apply find_some in Hf as [_ Hk]. cbn in Hk. apply String.eqb_eq in Hk as ->. by destruct (String.eqb id id').
Qed.
Lemma meta_of_delete id' w id :
  meta_of id (delete_connection id' w) = if String.eqb id id' then None else meta_of id w.
Proof.
  unfold meta_of, delete_connection. unfold set. cbn [connections].
  induction (connections w) as [|[k m] l IH]; cbn; [by case_match|].
  destruct (String.eqb_spec k id') as [->|Hk]; cbn.
  - destruct (String.eqb_spec id' id) as [->|Hne]; [|exact IH]. rewrite String.eqb_refl in IH |- *. exact IH.
  - destruct (String.eqb_spec k id) as [->|Hne]; [|exact IH].
    by rewrite (proj2 (String.eqb_neq id id') Hk).
Qed.
Lemma find_app {A} (f : A → bool) l1 l2 :
  List.find f (l1 ++ l2) = match List.find f l1 with Some x => Some x | None => List.find f l2 end.
Proof. induction l1 as [|x l1 IH]; [done|]. cbn. by destruct (f x). Qed.
Lemma meta_of_set id' m w id :
  meta_of id (set_connection id' m w) = if String.eqb id id' then Some m else meta_of id w.
Proof.
  unfold set_connection. destruct (meta_of id' w) as [m'|] eqn:Hm.
  - rewrite meta_of_update. destruct (String.eqb_spec id id') as [->|]; [|done]. by rewrite Hm.
  - unfold meta_of in *. unfold set. cbn [connections]. rewrite find_app.
    destruct (String.eqb_spec id id') as [->|Hne].
    + destruct (List.find _ (connections w)); [done|]. cbn. by rewrite String.eqb_refl.
    + cbn. rewrite (proj2 (String.eqb_neq id' id) (not_eq_sym Hne)). by destruct (List.find (λ kv, String.eqb kv.1 id) (connections w)).
Qed.

Lemma meta_of_key id w : is_Some (meta_of id w) ↔ id ∈ (connections w).*1.
Proof.
  unfold meta_of. rewrite list_elem_of_fmap. split.
  - intros [m Hm]. apply fmap_Some in Hm as ([k x] & Hf & ->). apply find_some in Hf as [Hin Hk].
    exists (k, x). cbn in Hk. apply String.eqb_eq in Hk as ->. split; [done|]. by apply list_elem_of_In.
  - intros ([k x] & -> & Hin). destruct (List.find _ _) eqn:Hf; [by eexists|].
    eapply find_none in Hf; [|by apply list_elem_of_In]. cbn in Hf. by rewrite String.eqb_refl in Hf.
Qed.
Lemma keys_update id f w : (connections (update_meta id f w)).*1 = (connections w).*1.
Proof.
  unfold update_meta, set. cbn [connections]. rewrite <-list_fmap_compose. apply list_fmap_ext.
  intros i kv _. cbn. by case_match.
Qed.
Lemma keys_delete id w : (connections (delete_connection id w)).*1 `sublist_of` (connections w).*1.
Proof.
  unfold delete_connection, set. cbn [connections].
  induction (connections w) as [|[k m] l IH]; cbn; [done|].
  destruct (negb _); cbn; [by apply sublist_skip|by apply sublist_cons].
Qed.
Lemma keys_set id m w :
  (connections (set_connection id m w)).*1 =
    if bool_decide (is_Some (meta_of id w)) then (connections w).*1 else (connections w).*1 ++ [id].
Proof.
  unfold set_connection. destruct (meta_of id w); [by rewrite keys_update|].
  unfold set. cbn [connections]. by rewrite fmap_app.
Qed.

(** ** What holds between two events *)

(** Nobody loses access to a delivery. *)
Record access_kept (c c' : Chat) : Prop := {
  ak_delivery d x : deliveries (world c) !! d = Some x →
    ∃ x', deliveries (world c') !! d = Some x' ∧ ∀ u, u ∈ participants x → u ∈ participants x';
  ak_account u a : accounts (ch_accounts c) !! u = Some a →
    ∃ a', accounts (ch_accounts c') !! u = Some a' ∧ (ac_role a = ADMIN → ac_role a' = ADMIN)
}.
#[export] Instance access_kept_preorder : PreOrder access_kept.
Proof.
  split; [split; eauto|]. intros c1 c2 c3 [D1 A1] [D2 A2]. split.
  - intros d x (x2 & H2' & S2)%D1. apply D2 in H2' as (x3 & ? & ?). eauto.
  - intros u a (a2 & H2' & S2)%A1. apply A2 in H2' as (a3 & ? & ?). eauto.
Qed.
Lemma access_kept_same c c' :
  deliveries (world c') = deliveries (world c) → accounts (ch_accounts c') = accounts (ch_accounts c) →
  access_kept c c'.
Proof. intros Hd Ha. split; rewrite ?Hd, ?Ha; eauto. Qed.

Definition can_access (u d : string) (c : Chat) : Prop := has_access u d c = true.
Lemma may_access_spec u d a :
  may_access u d a = true ↔
    ∃ d' a', d = Some d' ∧ a = Some a' ∧ (ac_role (body a') = ADMIN ∨ u ∈ participants (body d')).
Proof.
  unfold may_access. destruct d as [d|], a as [a|]; [|by split; [|intros (? & ? & ? & ? & _)]..].
  rewrite orb_true_iff, bool_decide_eq_true, includes_true. split; [by exists d, a|].
  by intros (? & ? & [= <-] & [= <-] & ?).
Qed.
Lemma can_access_kept u d c c' : access_kept c c' → can_access u d c → can_access u d c'.
Proof.
  intros [Hd Ha]. unfold can_access, has_access. rewrite !andb_true_iff, !may_access_spec.
  intros [Hv ([? x] & [? a] & Hx & Hy & Hor)]. split; [done|].
  apply find_by_id_Some in Hx as [[= ->] Hx], Hy as [[= ->] Hy]. cbn in *.
  apply Hd in Hx as (x' & Hx & Hp). apply Ha in Hy as (a' & Hy & Hr).
  exists (Doc d x'), (Doc u a'). unfold find_by_id. rewrite Hx, Hy. split; [done|]. split; [done|].
  destruct Hor; [left|right]; auto.
Qed.

(** A connected socket and its entry in the registry agree, it has been pinged no
    more often than it may miss, and it is in the rooms of deliveries its user
    can access. *)
Record socket_ok id (s : Socket) w : Prop := {
  sk_id : newSocketId (so_object s) = id ∧ (so_object s < objects w)%nat;
  sk_meta : ∃ m, meta_of id w = Some m ∧ so_userId s = truthy_string (cn_userId m) ∧
    so_tokenExp s = truthy_number (cn_tokenExp m) ∧ (∀ r, r ∈ cn_rooms m ↔ r ∈ rooms_of id w) ∧
    NoDup (cn_rooms m) ∧ (0 ≤ missedPongs m ≤ SOCKET_MAX_MISSED_PONGS)%Z;
  sk_rooms d : delivery_room d ∈ rooms_of id w → ∃ u, so_userId s = Some u ∧ can_access u d (sv_chat w)
}.
(** All but one of the sockets. *)
Record registry_but id w : Prop := {
  rb_sockets id' s : id' ≠ id → live w !! id' = Some s → socket_ok id' s w;
  rb_known id' : id' ≠ id → is_Some (meta_of id' w) → is_Some (live w !! id');
  rb_keys : NoDup (connections w).*1
}.
Record registry_ok w : Prop := {
  rg_sockets id s : live w !! id = Some s → socket_ok id s w;
  rg_known id : is_Some (meta_of id w) → is_Some (live w !! id);
  rg_keys : NoDup (connections w).*1
}.

(** The message queue is well formed, and sends to a connected socket of the
    user it sends to. *)
Record queue_ok w : Prop := {
  qk_wf : wf (sv_queue w);
  qk_emitters u e : emitters (sv_queue w) !! u = Some e →
    Str.truthy u = true ∧ ∃ s, live w !! newSocketId e = Some s ∧ Str.trim <$> so_userId s = Some u
}.

(** The delivery a packet of the chat is about. *)
Definition about (e : server_event) : option string :=
  match e with
  | sv_message m => Some (cb_deliveryId m)
  | sv_typing d _ _ | sv_read_receipt d _ _ _ => Some d
  | sv_status_updated (SocketStatusUpdated d _ _ _) => Some d
  | sv_ping _ | sv_auth_expired | sv_chat_error _ _ _ => None
  end.
Definition reaches (d : string) (p : Packet) (c : Chat) : Prop :=
  ∀ id u, (id, u) ∈ pk_to p → ∃ u', u = Some u' ∧ can_access u' d c.
Definition packets_ok w : Prop :=
  ∀ p d, p ∈ outbox w → about (pk_event p) = Some d → reaches d p (sv_chat w).

Record server_ok w : Prop := {
  sv_registry : registry_ok w;
  sv_queues : queue_ok w;
  sv_packets : packets_ok w
}.

(** *** Small steps *)
Lemma parse_delivery_room d : parseDeliveryRoom (delivery_room d) = Some d.
Proof.
  unfold parseDeliveryRoom, delivery_room, delivery_prefix.
  change (Str.startsWith ("delivery:" +:+ d) "delivery:") with (String.prefix "" d).
  replace (String.prefix "" d) with true by by destruct d. f_equal.
  change (String.substring 9 (String.length ("delivery:" +:+ d)) ("delivery:" +:+ d))
    with (String.substring 0 (String.length ("delivery:" +:+ d)) d).
  apply substring_all. change (String.length d ≤ 9 + String.length d). lia.
Qed.

Lemma reached_spec (P : string → bool) w id u :
  (id, u) ∈ reached P w ↔ ∃ s, live w !! id = Some s ∧ P id = true ∧ u = so_userId s.
Proof.
  unfold reached. rewrite list_elem_of_fmap. split.
  - intros ([k s] & [= -> ->] & [HP Hin%elem_of_map_to_list]%list_elem_of_filter). by exists s.
  - intros (s & Hs & HP & ->). exists (id, s). split; [done|].
    apply list_elem_of_filter. split; [done|]. by apply elem_of_map_to_list.
Qed.

(** A change of nothing but the chat, where access is kept. *)
Lemma socket_ok_chat id s w c : access_kept (sv_chat w) c → socket_ok id s w → socket_ok id s (put_chat c w).
Proof.
  intros Hk [Hi Hm Hr]. split; [done|done|]. intros d Hd. destruct (Hr d Hd) as (u & Hu & Ha).
  exists u. split; [done|]. by eapply can_access_kept.
Qed.
Lemma server_ok_chat c w : access_kept (sv_chat w) c → server_ok w → server_ok (put_chat c w).
Proof.
  intros Hk [[Rs Rk Rn] [Qw Qe] Hp]. split; [|by split|].
  - split; [|done|done]. intros id s Hs. by apply socket_ok_chat, Rs.
  - intros p d Hin Hd id u Hto. destruct (Hp p d Hin Hd id u Hto) as (u' & -> & Ha).
    exists u'. split; [done|]. by eapply can_access_kept.
Qed.

(** A packet for sockets whose users have access. *)
Lemma server_ok_send P e w :
  (∀ d id s, about e = Some d → live w !! id = Some s → P id = true → delivery_room d ∈ rooms_of id w) →
  server_ok w → server_ok (send_to P e w).
Proof.
  intros He [[Rs Rk Rn] [Qw Qe] Hp]. split; [split; [|done|done]|by split|].
  - intros id s Hs. destruct (Rs id s Hs). by split.
  - intros p d Hin Hd. cbn in Hin. apply elem_of_app in Hin as [Hin|Hin]; [by apply Hp|].
    apply list_elem_of_singleton in Hin as ->. intros id u (s & Hs & HP & ->)%reached_spec.
    cbn in Hd. destruct (sk_rooms _ _ _ (Rs id s Hs) d) as (u' & -> & Ha); [by eapply He|by exists u'].
Qed.

Lemma in_room_spec id r w : in_room id r w = true ↔ r ∈ rooms_of id w.
Proof. unfold in_room. by rewrite bool_decide_eq_true. Qed.

Lemma server_ok_emit id e w : about e = None → server_ok w → server_ok (emit_to id e w).
Proof. intros He. apply server_ok_send. congruence. Qed.
Lemma server_ok_broadcast d e w :
  about e = Some d → server_ok w → server_ok (broadcast (delivery_room d) e w).
Proof.
  intros He. apply server_ok_send. rewrite He. intros d' id s [= <-] _ Hr. by apply in_room_spec.
Qed.
Lemma server_ok_others id d e w :
  about e = Some d → server_ok w → server_ok (broadcast_others id (delivery_room d) e w).
Proof.
  intros He. apply server_ok_send. rewrite He.
  intros d' id' s [= <-] _ [Hr _]%andb_true_iff. by apply in_room_spec.
Qed.

(** A method of the queue that moves no emitter. *)
Lemma clocked_wf t q : wf q → wf (q <| mq_now := t |>).
Proof.
  intros [Hu [Hr Hi]]. split; [|by split]. intros u. apply (user_ok_same u q); [by split|by split|apply Hu].
Qed.
Lemma queue_ok_method (f : MessageQueue → MessageQueue) w :
  (∀ q, wf q → wf (f q)) → (∀ q, emitters (f q) = emitters q) → queue_ok w → queue_ok (on_queue f w).
Proof.
  intros Hf He [Hw Hq]. split; [by apply Hf, clocked_wf|].
  change (sv_queue (on_queue f w)) with (f (sv_queue w <| mq_now := clock w |>)). rewrite He. exact Hq.
Qed.
Lemma server_ok_queue (f : MessageQueue → MessageQueue) w :
  (∀ q, wf q → wf (f q)) → (∀ q, emitters (f q) = emitters q) → server_ok w → server_ok (on_queue f w).
Proof.
  intros Hf He [[Rs Rk Rn] Hq Hp]. split; [split; [|done|done]|by apply queue_ok_method|done].
  intros id s Hs. destruct (Rs id s Hs). by split.
Qed.

(** *** Where the message queue sends to *)
Lemma acknowledge_emitters u m q : emitters (acknowledge u m q).2 = emitters q.
Proof. unfold acknowledge. repeat case_match; done. Qed.
Lemma deliver_emitters u m e c q : emitters (deliver u m e c q) = emitters q.
Proof.
  unfold deliver. destruct (ackRequired m); cbn [negb].
  - by rewrite armAckTimer_eq; case_match.
  - by rewrite acknowledge_emitters.
Qed.
Lemma flush_loop_emitters u e c l q : emitters (flush_loop u e c l q).2 = emitters q.
Proof.
  revert q. induction l as [|m l IH]; intros q; cbn [flush_loop]; [done|].
  case_match; [apply IH|]. specialize (IH (deliver u m e (Some c) q)).
  destruct (flush_loop u e c l (deliver u m e (Some c) q)) as [n q']. cbn in *. by rewrite IH, deliver_emitters.
Qed.
Lemma resolve_emitters owner q : emitters (resolveConnectionId owner q).2 = emitters q.
Proof. unfold resolveConnectionId. by case_match. Qed.

(** A flush registers its emitter, if anything. *)
Lemma flush_emitters u e owner q u' e' :
  emitters (MessageQueue.flush u e owner q).2 !! u' = Some e' →
  emitters q !! u' = Some e' ∨ (u' = Str.trim u ∧ e' = e ∧ Str.truthy u' = true).
Proof.
  unfold MessageQueue.flush. destruct (Str.truthy (Str.trim u)) eqn:Htr; cbn [negb]; [|by left].
  destruct (queue_of q (Str.trim u)) as [|m l]; [by left|].
  pose proof (resolve_emitters owner q) as Hr. destruct (resolveConnectionId owner q) as [c q1]. cbn [snd] in Hr.
  rewrite flush_loop_emitters. intros Hl.
  change (<[Str.trim u := e]> (emitters q1) !! u' = Some e') in Hl. rewrite Hr in Hl.
  apply lookup_insert_Some in Hl as [[<- <-]|[_ ?]]; [by right|by left].
Qed.
Lemma disconnect_emitters u q u' :
  emitters (MessageQueue.handleDisconnect u q).2 !! u' =
    if Str.truthy (Str.trim u) && String.eqb (Str.trim u) u' then None else emitters q !! u'.
Proof.
  unfold MessageQueue.handleDisconnect. destruct (Str.truthy (Str.trim u)); cbn [negb andb]; [|done].
  assert (emitters (snd (match queues q !! Str.trim u with
    | None => (0%nat, q <| emitters ::= delete (Str.trim u) |> <| activeConnectionId ::= delete (Str.trim u) |>)
    | Some l => (in_flight_count l, clear_timers (Str.trim u) l
        (q <| emitters ::= delete (Str.trim u) |> <| activeConnectionId ::= delete (Str.trim u) |>)
        <| queues ::= <[Str.trim u := rewind (mq_now q) <$> l]> |>)
    end)) = delete (Str.trim u) (emitters q)) as Heq.
  { case_match; [|done]. by destruct (clear_timers_spec (Str.trim u) l
      (q <| emitters ::= delete (Str.trim u) |> <| activeConnectionId ::= delete (Str.trim u) |>)) as (ts & -> & _). }
  cbn [snd] in Heq |- *. etrans; [exact (f_equal (.!! u') Heq)|].
  destruct (String.eqb_spec (Str.trim u) u') as [<-|Hne]; [by rewrite lookup_delete_eq|by rewrite lookup_delete_ne].
Qed.
Lemma fire_timer_emitters u m q : emitters (fire_timer u m q) = emitters q.
Proof.
  unfold fire_timer, handleAckTimeout. repeat case_match; try done. by rewrite deliver_emitters.
Qed.
Lemma evict_emitters u l q : emitters (evict u l q).2 = emitters q.
Proof.
  revert q. induction l as [|m l IH]; intros q; cbn [evict]; [done|]. case_match; [|done]. by rewrite IH.
Qed.
Lemma enqueue_emitters u ev p o q : emitters (enqueue u ev p o q).2 = emitters q.
Proof.
  unfold enqueue. repeat case_match; [done..|]. cbn [snd].
  pose proof (evict_emitters (Str.trim u) (queue_of q (Str.trim u)) (q <| uuids ::= S |>)) as He.
  match goal with H : evict _ _ _ = _ |- _ => rewrite H in He end. exact He.
Qed.

(** *** Closing a connection *)
Definition queue_after (m : SocketConnectionMeta) w : MessageQueue :=
  match cn_userId m with
  | Some u => (MessageQueue.handleDisconnect u (sv_queue w <| mq_now := clock w |>)).2
  | None => sv_queue w
  end.
Definition closed id (q : MessageQueue) w : Server :=
  delete_connection id
    (mkServer (sv_chat w) q (delete id (live w)) (delete id (adapter w)) (connections w) (objects w) (sv_up w) (outbox w)).
Lemma close_eq id m w :
  is_Some (live w !! id) → meta_of id w = Some m → close id w = closed id (queue_after m w) w.
Proof.
  intros [s Hs] Hm. unfold close, handleDisconnect, closed, queue_after. rewrite Hs.
  change (meta_of id (w <| live ::= delete id |> <| adapter ::= delete id |>)) with (meta_of id w).
  rewrite Hm. by destruct (cn_userId m).
Qed.

Lemma socket_ok_ext id s w w' :
  socket_ok id s w → (objects w ≤ objects w')%nat → meta_of id w' = meta_of id w →
  rooms_of id w' = rooms_of id w → access_kept (sv_chat w) (sv_chat w') → socket_ok id s w'.
Proof.
  intros [[Hi Ho] Hm Hr] Hob Hme Hro Hk. split; rewrite ?Hme, ?Hro; [split; [done|lia]|done|].
  intros d Hd. destruct (Hr d Hd) as (u & -> & Ha). exists u. split; [done|]. by eapply can_access_kept.
Qed.

Lemma rooms_of_closed id' q w id : id ≠ id' → rooms_of id (closed id' q w) = rooms_of id w.
Proof.
  intros Hne. unfold rooms_of. change (adapter (closed id' q w)) with (delete id' (adapter w)).
  by rewrite lookup_delete_ne.
Qed.
Lemma meta_of_closed id' q w id :
  meta_of id (closed id' q w) = if String.eqb id id' then None else meta_of id w.
Proof. unfold closed. by rewrite meta_of_delete. Qed.

Lemma registry_closed id q w : registry_but id w → registry_ok (closed id q w).
Proof.
  intros [Rs Rk Rn]. split.
  - intros id' s. change (live (closed id q w)) with (delete id (live w)).
    intros [Hne Hs]%lookup_delete_Some. apply not_eq_sym in Hne.
    apply (socket_ok_ext id' s w); [by apply Rs|done| |by apply rooms_of_closed|done].
    rewrite meta_of_closed. by rewrite (proj2 (String.eqb_neq id' id) Hne).
  - intros id'. rewrite meta_of_closed. destruct (String.eqb_spec id' id) as [->|Hne]; [by intros []|].
    change (live (closed id q w)) with (delete id (live w)). rewrite lookup_delete_ne by congruence. by apply Rk.
  - eapply sublist_NoDup; [exact Rn|].
    exact (keys_delete id (mkServer (sv_chat w) q (delete id (live w)) (delete id (adapter w)) (connections w)
             (objects w) (sv_up w) (outbox w))).
Qed.

(** A queue whose emitters are left of a queue's where the user of the closed
    socket has none. *)
Lemma queue_closed id m w :
  queue_ok w → meta_of id w = Some m →
  (∀ s, live w !! id = Some s → so_userId s = truthy_string (cn_userId m)) →
  queue_ok (closed id (queue_after m w) w).
Proof.
  intros [Hw He] Hm Hs.
  assert (∀ u e, emitters (queue_after m w) !! u = Some e →
    emitters (sv_queue w) !! u = Some e ∧
    ∀ u', truthy_string (cn_userId m) = Some u' → Str.truthy (Str.trim u') = true → Str.trim u' ≠ u) as Hem.
  { intros u e. unfold queue_after. destruct (cn_userId m) as [u0|]; [|by split].
    rewrite disconnect_emitters. change (emitters (sv_queue w <| mq_now := clock w |>)) with (emitters (sv_queue w)).
    destruct (Str.truthy (Str.trim u0)) eqn:Ht; cbn [andb].
    - destruct (String.eqb_spec (Str.trim u0) u) as [Heq|Hne]; [done|]. intros Hl. split; [done|].
      intros u'. cbn. case_match; [|done]. by intros [= <-].
    - intros Hl. split; [done|]. intros u'. cbn. case_match; [|done]. intros [= <-]. congruence. }
  split.
  - change (wf (queue_after m w)). unfold queue_after. destruct (cn_userId m) as [u|]; [|done].
    apply (exec_wf (op_disconnect u)), clocked_wf, Hw.
  - intros u e Hu. destruct (Hem u e Hu) as [Hu' Hne]. destruct (He u e Hu') as (Ht & s & Hl & Hsu).
    split; [done|]. exists s. split; [|done].
    change (delete id (live w) !! newSocketId e = Some s).
    apply lookup_delete_Some. split; [|done]. intros Heq. subst id.
    rewrite (Hs s Hl) in Hsu. apply fmap_Some in Hsu as (u' & Hu1 & ->). by apply (Hne u' Hu1).
Qed.

Lemma server_ok_closed id m w :
  registry_but id w → queue_ok w → packets_ok w → is_Some (live w !! id) → meta_of id w = Some m →
  (∀ s, live w !! id = Some s → so_userId s = truthy_string (cn_userId m)) → server_ok (close id w).
Proof.
  intros Hr Hq Hp Hl Hm Hs. rewrite (close_eq id m) by done.
  split; [by apply registry_closed|by apply queue_closed|exact Hp].
Qed.

Lemma registry_ok_but id w : registry_ok w → registry_but id w.
Proof. intros [Rs Rk Rn]. by split; eauto. Qed.
Lemma server_ok_close id w : server_ok w → server_ok (close id w).
Proof.
  intros [Hr Hq Hp]. destruct (live w !! id) as [s|] eqn:Hs; [|unfold close; by rewrite Hs].
  destruct (sk_meta _ _ _ (rg_sockets _ Hr id s Hs)) as (m & Hm & Hu & _).
  apply (server_ok_closed id m); [by apply registry_ok_but|done|done|by eexists|done|].
  intros s' Hs'. congruence.
Qed.

(** *** A change of one connection *)
Lemma server_ok_local id w w' :
  server_ok w → sv_chat w' = sv_chat w → sv_queue w' = sv_queue w → outbox w' = outbox w →
  objects w' = objects w → (connections w').*1 = (connections w).*1 →
  (∀ id', id' ≠ id →
     live w' !! id' = live w !! id' ∧ rooms_of id' w' = rooms_of id' w ∧ meta_of id' w' = meta_of id' w) →
  (∀ s, live w !! id = Some s →
     ∃ s', live w' !! id = Some s' ∧ so_userId s' = so_userId s ∧ socket_ok id s' w') →
  (live w !! id = None → live w' !! id = None) →
  server_ok w'.
Proof.
  intros [[Rs Rk Rn] [Qw Qe] Hp] Hc Hq Ho Hob Hkeys Hother Hs Hnone.
  assert (∀ id' s, live w !! id' = Some s →
    ∃ s', live w' !! id' = Some s' ∧ so_userId s' = so_userId s ∧ socket_ok id' s' w') as Hall.
  { intros id' s Hl. destruct (decide (id' = id)) as [->|Hne]; [by apply Hs|].
    destruct (Hother id' Hne) as (Hl' & Hro & Hm). exists s. split; [congruence|]. split; [done|].
    apply (socket_ok_ext id' s w); [by apply Rs|lia|done|done|by rewrite Hc]. }
  split; [split|split|].
  - intros id' s' Hl. destruct (live w !! id') as [s|] eqn:Hl0.
    + destruct (Hall id' s Hl0) as (s'' & Hl' & _ & Hok). congruence.
    + destruct (decide (id' = id)) as [->|Hne]; [by rewrite Hnone in Hl|].
      destruct (Hother id' Hne) as (Hl' & _). congruence.
  - intros id' Hm. apply meta_of_key in Hm. rewrite Hkeys in Hm. apply meta_of_key, Rk in Hm as [s Hl].
    destruct (Hall id' s Hl) as (s' & ? & _). by eexists.
  - by rewrite Hkeys.
  - by rewrite Hq.
  - rewrite Hq. intros u e Hu. destruct (Qe u e Hu) as (Ht & s & Hl & Hsu). split; [done|].
    destruct (Hall _ s Hl) as (s' & Hl' & Hu' & _). exists s'. by rewrite Hu'.
  - unfold packets_ok. rewrite Ho, Hc. exact Hp.
Qed.

Lemma rooms_of_join id' room w id :
  rooms_of id (join id' room w) = if String.eqb id id' then {[room]} ∪ rooms_of id' w else rooms_of id w.
Proof.
  unfold rooms_of, join, set. cbn [adapter]. destruct (String.eqb_spec id id') as [->|Hne].
  - by rewrite lookup_insert_eq.
  - by rewrite lookup_insert_ne.
Qed.
Lemma rooms_of_leave id' room w id :
  rooms_of id (leave id' room w) = if String.eqb id id' then rooms_of id' w ∖ {[room]} else rooms_of id w.
Proof.
  unfold rooms_of, leave, set. cbn [adapter]. destruct (String.eqb_spec id id') as [->|Hne].
  - by rewrite lookup_insert_eq.
  - by rewrite lookup_insert_ne.
Qed.

(** A pong. *)
Lemma server_ok_ponged id t w : server_ok w → server_ok (update_meta id (ponged t) w).
Proof.
  intros Hok. apply (server_ok_local id w); try done.
  - by rewrite keys_update.
  - intros id' Hne. split; [done|]. split; [done|]. rewrite meta_of_update.
    by rewrite (proj2 (String.eqb_neq id' id) Hne).
  - intros s Hs. exists s. split; [done|]. split; [done|].
    destruct (rg_sockets _ (sv_registry _ Hok) id s Hs) as [Hi (m & Hm & Hu & Ht & Hr & Hn & Hp) Hd].
    split; [done| |done]. exists (ponged t m). rewrite meta_of_update, String.eqb_refl, Hm.
    do 5 (split; [done|]). cbn. pose proof SOCKET_MAX_MISSED_PONGS_min. lia.
Qed.

(** Joining a room: that of a delivery only with access. *)
Lemma server_ok_joined id room w :
  (∀ d s, room = delivery_room d → live w !! id = Some s →
     ∃ u, so_userId s = Some u ∧ can_access u d (sv_chat w)) →
  server_ok w → server_ok (joined id room w).
Proof.
  intros Hacc Hok. unfold joined, trackRoomJoin. apply (server_ok_local id w); try done.
  - by rewrite keys_update.
  - intros id' Hne. split; [done|].
    change (rooms_of id' (update_meta id _ (join id room w))) with (rooms_of id' (join id room w)).
    rewrite rooms_of_join, meta_of_update. by rewrite (proj2 (String.eqb_neq id' id) Hne).
  - intros s Hs. exists s. split; [done|]. split; [done|].
    destruct (rg_sockets _ (sv_registry _ Hok) id s Hs) as [Hi (m & Hm & Hu & Ht & Hr & Hn & Hp) Hd].
    assert (∀ r, r ∈ rooms_of id (join id room w) ↔ r = room ∨ r ∈ rooms_of id w) as Hrooms.
    { intros r. rewrite rooms_of_join, String.eqb_refl, elem_of_union, elem_of_singleton. done. }
    split; [done| |].
    + exists (if includes room (cn_rooms m) then m else m <| cn_rooms ::= (.++ [room]) |>).
      rewrite meta_of_update, String.eqb_refl. change (meta_of id (join id room w)) with (meta_of id w). rewrite Hm.
      split; [done|]. change (rooms_of id (update_meta id _ (join id room w))) with (rooms_of id (join id room w)).
      destruct (includes room (cn_rooms m)) eqn:Hin.
      * apply includes_true in Hin. do 2 (split; [done|]). split; [|done].
        intros r. rewrite Hrooms, Hr. split; [by right|]. intros [->|?]; [by apply Hr|done].
      * apply bool_decide_eq_false in Hin. do 2 (split; [done|]). split; [|split; [|done]].
        -- intros r. rewrite Hrooms, <-Hr. unfold set; cbn. rewrite elem_of_app, list_elem_of_singleton. tauto.
        -- unfold set; cbn. apply NoDup_app. split; [done|]. split; [|apply NoDup_singleton].
           intros r Hr1 ->%list_elem_of_singleton. done.
    + intros d [Heq|Hin]%Hrooms; [by apply Hacc|by apply Hd].
Qed.

Lemma server_ok_left id room w : server_ok w → server_ok (trackRoomLeave id room (leave id room w)).
Proof.
  intros Hok. unfold trackRoomLeave. apply (server_ok_local id w); try done.
  - by rewrite keys_update.
  - intros id' Hne. split; [done|].
    change (rooms_of id' (update_meta id _ (leave id room w))) with (rooms_of id' (leave id room w)).
    rewrite rooms_of_leave, meta_of_update. by rewrite (proj2 (String.eqb_neq id' id) Hne).
  - intros s Hs. exists s. split; [done|]. split; [done|].
    destruct (rg_sockets _ (sv_registry _ Hok) id s Hs) as [Hi (m & Hm & Hu & Ht & Hr & Hn & Hp) Hd].
    assert (∀ r, r ∈ rooms_of id (leave id room w) ↔ r ∈ rooms_of id w ∧ r ≠ room) as Hrooms.
    { intros r. by rewrite rooms_of_leave, String.eqb_refl, elem_of_difference, elem_of_singleton. }
    split; [done| |].
    + exists (set cn_rooms (List.filter (λ r, negb (String.eqb r room))) m).
      rewrite meta_of_update, String.eqb_refl. change (meta_of id (leave id room w)) with (meta_of id w). rewrite Hm.
      split; [done|]. do 2 (split; [done|]). split; [|split; [|done]].
      * intros r. change (rooms_of id (update_meta id _ (leave id room w))) with (rooms_of id (leave id room w)).
        rewrite Hrooms, <-Hr. unfold set; cbn. rewrite list_elem_of_In, filter_In, <-list_elem_of_In, negb_true_iff, String.eqb_neq.
        done.
      * unfold set; cbn. by apply NoDup_ListNoDup, List.NoDup_filter, NoDup_ListNoDup.
    + intros d [Hin _]%Hrooms. by apply Hd.
Qed.

Lemma server_ok_refreshed id x w : number_truthy x = true → server_ok w → server_ok (refreshed id x w).
Proof.
  intros Hx Hok. unfold refreshed, updateTokenExpiration. apply (server_ok_local id w); try done.
  - by rewrite keys_update.
  - intros id' Hne. cbn. split; [by apply lookup_alter_ne|]. split; [done|].
    rewrite meta_of_update. by rewrite (proj2 (String.eqb_neq id' id) Hne).
  - intros s Hs. exists (mkSocket (so_object s) (so_userId s) (Some x)).
    split; [unfold update_meta, set; cbn; by rewrite lookup_alter_eq, Hs|]. split; [done|].
    destruct (rg_sockets _ (sv_registry _ Hok) id s Hs) as [Hi (m & Hm & Hu & Ht & Hr & Hn & Hp) Hd].
    split; [done| |done]. exists (set cn_tokenExp (λ _, Some x) m).
    rewrite meta_of_update, String.eqb_refl. change (meta_of id _) with (meta_of id w). rewrite Hm.
    split; [done|]. split; [done|]. split; [|done].
    change (Some x = truthy_number (Some x)). unfold truthy_number. by rewrite Hx.
  - intros Hs. unfold update_meta, set; cbn. by rewrite lookup_alter_eq, Hs.
Qed.

(** *** A new connection *)
Lemma registry_fresh w : registry_ok w → live w !! newSocketId (objects w) = None ∧ meta_of (newSocketId (objects w)) w = None.
Proof.
  intros [Rs Rk _]. assert (live w !! newSocketId (objects w) = None) as Hl.
  { destruct (live w !! newSocketId (objects w)) as [s|] eqn:Hs; [|done].
    destruct (sk_id _ _ _ (Rs _ _ Hs)) as [Hi Hlt]. apply newSocketId_inj in Hi. lia. }
  split; [done|]. apply eq_None_not_Some. intros [s Hs]%Rk. congruence.
Qed.

Definition connected (s : Socket) (m : SocketConnectionMeta) w : Server :=
  let id := newSocketId (objects w) in
  set_connection id m (w <| live ::= <[id := s]> |> <| adapter ::= <[id := {[id]}]> |> <| objects ::= S |>).

Lemma server_ok_connected s m w :
  so_object s = objects w → so_userId s = truthy_string (cn_userId m) →
  so_tokenExp s = truthy_number (cn_tokenExp m) → cn_rooms m = [newSocketId (objects w)] → missedPongs m = 0%Z →
  server_ok w → server_ok (connected s m w).
Proof.
  intros Ho Hu Ht Hr Hp [[Rs Rk Rn] [Qw Qe] Hpk].
  destruct (registry_fresh w) as [Hl Hm]; [done|]. unfold connected.
  set (id := newSocketId (objects w)) in *. set (w1 := w <| live ::= _ |> <| adapter ::= _ |> <| objects ::= _ |>).
  assert (∀ id', live (set_connection id m w1) !! id' = <[id := s]> (live w) !! id') as Hlive.
  { intros id'. unfold set_connection. by destruct (meta_of id w1). }
  assert (∀ id', rooms_of id' (set_connection id m w1) = if String.eqb id' id then {[id]} else rooms_of id' w) as Hrooms.
  { intros id'. assert (adapter (set_connection id m w1) = <[id := {[id]}]> (adapter w)) as Ha
      by (unfold set_connection; by destruct (meta_of id w1)).
    unfold rooms_of. rewrite Ha. destruct (String.eqb_spec id' id) as [->|Hne];
      [by rewrite lookup_insert_eq|by rewrite lookup_insert_ne]. }
  assert (objects (set_connection id m w1) = S (objects w)) as Hob
    by (unfold set_connection; by destruct (meta_of id w1)).
  assert (sv_chat (set_connection id m w1) = sv_chat w ∧ sv_queue (set_connection id m w1) = sv_queue w ∧
    outbox (set_connection id m w1) = outbox w) as (Hc & Hq & Hout)
    by (unfold set_connection; by destruct (meta_of id w1)).
  split; [split|split|].
  - intros id' s'. rewrite Hlive. intros [[<- <-]|[Hne Hs]]%lookup_insert_Some.
    + split; [by rewrite Hob, Ho; split; [|lia]| |].
      * exists m. rewrite meta_of_set, String.eqb_refl. do 3 (split; [done|]).
        rewrite Hrooms, String.eqb_refl, Hr, Hp. split; [|split; [apply NoDup_singleton|]].
        -- intros r. by rewrite list_elem_of_singleton, elem_of_singleton.
        -- pose proof SOCKET_MAX_MISSED_PONGS_min. lia.
      * intros d. rewrite Hrooms, String.eqb_refl, elem_of_singleton. intros Heq. exfalso.
        pose proof (newSocketId_plain (objects w)) as Hpl. fold id in Hpl.
        by rewrite <-Heq, parse_delivery_room in Hpl.
    + apply (socket_ok_ext id' s' w); [by apply Rs|lia| | |by rewrite Hc].
      * rewrite meta_of_set. by rewrite (proj2 (String.eqb_neq id' id) (not_eq_sym Hne)).
      * rewrite Hrooms. by rewrite (proj2 (String.eqb_neq id' id) (not_eq_sym Hne)).
  - intros id'. rewrite meta_of_set, Hlive. destruct (String.eqb_spec id' id) as [->|Hne].
    + intros _. rewrite lookup_insert_eq. by eexists.
    + rewrite lookup_insert_ne by congruence. by apply Rk.
  - rewrite keys_set. case_bool_decide; [exact Rn|]. apply NoDup_app. split; [exact Rn|].
    split; [|apply NoDup_singleton]. intros k Hk ->%list_elem_of_singleton.
    apply meta_of_key in Hk as [m' Hm']. change (meta_of id w = Some m') in Hm'. congruence.
  - by rewrite Hq.
  - rewrite Hq. intros u e He. destruct (Qe u e He) as (Htr & s' & Hs' & Hu'). split; [done|]. exists s'.
    split; [|done]. rewrite Hlive. rewrite lookup_insert_ne; [done|]. intros Heq. rewrite <-Heq in Hs'. congruence.
  - unfold packets_ok. rewrite Hc, Hout. exact Hpk.
Qed.

Lemma server_ok_connect token w : server_ok w → server_ok (connect token w).
Proof.
  intros Hok. unfold connect. destruct (sv_up w); [|done]. cbn [negb].
  destruct (extractAuthInfo token (clock w)) as [userId tokenExp]. unfold registerConnection.
  set (s := mkSocket (objects w) (truthy_string userId) (truthy_number tokenExp)).
  set (m := mkMeta userId _ _ 0 _ tokenExp).
  change (set_connection _ m _) with (connected s m w).
  assert (server_ok (connected s m w)) as Hc by by apply server_ok_connected.
  destruct (truthy_string userId) as [u|] eqn:Hu; [|done].
  destruct Hc as [[Rs Rk Rn] [Qw Qe] Hp]. split; [split; [|done|done]|split|done].
  - intros id s' Hs. destruct (Rs id s' Hs). by split.
  - apply (exec_wf (op_flush u (objects w) (objects w))), clocked_wf, Qw.
  - intros u' e' He'. apply flush_emitters in He' as [He'|(-> & -> & Ht)]; [by apply Qe|].
    split; [done|]. exists s.
    split; [|done].
    change (live (connected s m w) !! newSocketId (objects w) = Some s). unfold connected, set_connection.
    case_match; cbn; apply lookup_insert_eq.
Qed.

(** ** Steps of the server

    A step keeps the invariant, takes no access away, and a socket that is
    connected after it was connected before as the same user or is new. *)
Record server_step w w' : Prop := {
  ss_ok : server_ok w → server_ok w';
  ss_chat : access_kept (sv_chat w) (sv_chat w');
  ss_objects : (objects w ≤ objects w')%nat;
  ss_live id s' : live w' !! id = Some s' →
    (∃ s, live w !! id = Some s ∧ so_userId s = so_userId s') ∨
    (∃ n, id = newSocketId n ∧ (objects w ≤ n)%nat)
}.
#[export] Instance server_step_preorder : PreOrder server_step.
Proof.
  split; [split; eauto; done|]. intros w1 w2 w3 [K1 C1 O1 L1] [K2 C2 O2 L2].
  split; [auto|by etrans|lia|]. intros id s3 [(s2 & H2' & Hu2)|(n & -> & Hn)]%L2.
  - destruct (L1 id s2 H2') as [(s1 & ? & ?)|?]; [left; exists s1; split; [done|congruence]|by right].
  - right. exists n. split; [done|lia].
Qed.

Lemma step_same w w' :
  (server_ok w → server_ok w') → sv_chat w' = sv_chat w → objects w' = objects w → live w' = live w →
  server_step w w'.
Proof. intros Hok Hc Ho Hl. split; [done|by rewrite Hc|lia|]. rewrite Hl. eauto. Qed.

Lemma close_shape id w :
  sv_chat (close id w) = sv_chat w ∧ objects (close id w) = objects w ∧ live (close id w) = delete id (live w) ∧
  outbox (close id w) = outbox w ∧ sv_up (close id w) = sv_up w.
Proof.
  unfold close. destruct (live w !! id) as [s|] eqn:Hs.
  - unfold handleDisconnect. case_match; [case_match|]; done.
  - by rewrite delete_id.
Qed.
Lemma step_close id w : server_step w (close id w).
Proof.
  destruct (close_shape id w) as (Hc & Ho & Hl & _). split; [apply server_ok_close|by rewrite Hc|lia|].
  rewrite Hl. intros id' s' [_ Hs]%lookup_delete_Some. left. by exists s'.
Qed.
Lemma step_emit id e w : about e = None → server_step w (emit_to id e w).
Proof. intros He. apply step_same; [by apply server_ok_emit|done..]. Qed.
Lemma step_expire id w : server_step w (expire id w).
Proof. unfold expire. etrans; [by apply (step_emit id sv_auth_expired)|apply step_close]. Qed.
Lemma step_refreshed id x w : number_truthy x = true → server_step w (refreshed id x w).
Proof.
  intros Hx. split; [by apply server_ok_refreshed|done|done|]. intros id' s' Hs. left.
  change (live (refreshed id x w)) with
    (alter (λ s, mkSocket (so_object s) (so_userId s) (Some x)) id (live w)) in Hs.
  apply lookup_alter_Some in Hs as [(-> & s & Hs & ->)|[_ Hs]]; eauto.
Qed.
Lemma step_connect token w : server_step w (connect token w).
Proof.
  unfold connect. destruct (sv_up w) eqn:Hup; [|done]. cbn [negb].
  pose proof (server_ok_connect token w) as Hok. unfold connect in Hok. rewrite Hup in Hok. cbn [negb] in Hok.
  destruct (extractAuthInfo token (clock w)) as [userId tokenExp]. set (w' := registerConnection _ _ _ _ _) in *.
  assert (sv_chat w' = sv_chat w ∧ objects w' = S (objects w) ∧
    live w' = <[newSocketId (objects w) := mkSocket (objects w) (truthy_string userId) (truthy_number tokenExp)]> (live w))
    as (Hc & Ho & Hl).
  { unfold w', registerConnection, set_connection. by repeat case_match. }
  split; [done|by rewrite Hc|lia|]. rewrite Hl. intros id s [[<- _]|[_ Hs]]%lookup_insert_Some; [right|left]; eauto.
Qed.
Lemma step_queue (f : MessageQueue → MessageQueue) w :
  (∀ q, wf q → wf (f q)) → (∀ q, emitters (f q) = emitters q) → server_step w (on_queue f w).
Proof. intros Hf He. apply step_same; [by apply server_ok_queue|done..]. Qed.

(** One connection of a health check. *)
Lemma step_check id w n : server_step w (check_connection (w, n) id).1.
Proof.
  unfold check_connection. set (w1 := update_meta id _ w).
  assert (meta_of id w1 = set missedPongs Z.succ <$> meta_of id w) as Hm1
    by (unfold w1; by rewrite meta_of_update, String.eqb_refl).
  assert (∀ id', id' ≠ id → meta_of id' w1 = meta_of id' w) as Hother.
  { intros id' Hne. unfold w1. rewrite meta_of_update. by rewrite (proj2 (String.eqb_neq id' id) Hne). }
  assert (server_ok w → (∀ m, meta_of id w = Some m → (Z.succ (missedPongs m) ≤ SOCKET_MAX_MISSED_PONGS)%Z) → server_ok w1) as Hok1.
  { intros Hok Hle. apply (server_ok_local id w); try done; [by apply keys_update|by auto|].
    intros s Hs. exists s. do 2 (split; [done|]).
    destruct (rg_sockets _ (sv_registry _ Hok) id s Hs) as [Hi (m & Hm & Hu & Ht & Hr & Hn & Hp) Hd].
    split; [done| |done]. exists (set missedPongs Z.succ m). rewrite Hm1, Hm. do 5 (split; [done|]).
    specialize (Hle m Hm). change (0 ≤ Z.succ (missedPongs m) ≤ SOCKET_MAX_MISSED_PONGS)%Z. lia. }
  assert (live w1 = live w ∧ sv_chat w1 = sv_chat w ∧ objects w1 = objects w) as (Hl1 & Hc1 & Ho1) by done.
  destruct (meta_of id w1) as [m1|] eqn:Hm.
  2: { apply step_same; [|done..]. intros Hok. apply Hok1; [done|]. intros m Heq. by rewrite Heq in Hm1. }
  symmetry in Hm1. apply fmap_Some in Hm1 as (m & Hm0 & ->).
  change (missedPongs (set missedPongs Z.succ m)) with (Z.succ (missedPongs m)).
  destruct (Z.ltb_spec SOCKET_MAX_MISSED_PONGS (Z.succ (missedPongs m))) as [Hlt|Hle]; cbn [fst].
  - rewrite Hl1. destruct (live w !! id) as [s|] eqn:Hs.
    + assert (server_ok w → server_ok (close id w1)) as Hok.
      { intros [[Rs Rk Rn] Hq Hp].
        destruct (sk_meta _ _ _ (Rs id s Hs)) as (m' & Hm' & Hu & _). assert (m' = m) as -> by congruence.
        apply (server_ok_closed id (set missedPongs Z.succ m)); [|by destruct Hq; split|done|by eexists|done|].
        - split; [|intros id' Hne; rewrite Hother by done; apply Rk|unfold w1; by rewrite keys_update].
          intros id' s' Hne Hs'. apply (socket_ok_ext id' s' w); [by apply Rs|done|by apply Hother|done|done].
        - intros s' Hs'. rewrite Hl1 in Hs'. change (cn_userId (set missedPongs Z.succ m)) with (cn_userId m). congruence. }
      destruct (close_shape id w1) as (Hc & Ho & Hl & _). split; [done|by rewrite Hc|rewrite Ho; done|].
      rewrite Hl, Hl1. intros id' s' [_ Hs']%lookup_delete_Some. eauto.
    + apply step_same; [|done..]. intros Hok. exfalso.
      destruct (rg_known _ (sv_registry _ Hok) id (ex_intro _ _ Hm0)) as [s Hs']. congruence.
  - assert (server_step w w1) as Hstep.
    { apply step_same; [|done..]. intros Hok. apply Hok1; [done|]. intros m' Heq. rewrite Hm0 in Heq. by injection Heq as <-. }
    destruct (live w1 !! id) as [s|]; [|done]. etrans; [exact Hstep|].
    case_match; [apply step_expire|by apply step_emit].
Qed.

Lemma step_fold {A} (f : Server → A → Server) (l : list A) w :
  (∀ w x, server_step w (f w x)) → server_step w (foldl f w l).
Proof.
  intros Hf. revert w. induction l as [|x l IH]; intros w; cbn; [done|]. etrans; [apply Hf|apply IH].
Qed.

Lemma check_fold l w n : server_step w (foldl check_connection (w, n) l).1.
Proof.
  revert w n. induction l as [|id l IH]; intros w n; cbn [foldl]; [done|].
  pose proof (step_check id w n) as Hs. destruct (check_connection (w, n) id) as [w1 n1]. cbn [fst] in Hs.
  etrans; [exact Hs|apply IH].
Qed.
Lemma step_tick w : server_step w (runHealthCheckTick w).2.
Proof.
  unfold runHealthCheckTick. pose proof (check_fold (connections w).*1 w 0) as Hs.
  by destruct (foldl check_connection (w, 0%Z) (connections w).*1).
Qed.

Lemma live_close_all l w : live (foldl (λ w id, close id w) w l) = foldr delete (live w) (rev l).
Proof.
  revert w. induction l as [|id l IH]; intros w; cbn; [done|].
  rewrite IH, foldr_app. cbn. by destruct (close_shape id w) as (_ & _ & -> & _).
Qed.
Lemma foldr_delete_keys {A} (m : gmap string A) l : (∀ k, is_Some (m !! k) → k ∈ l) → foldr delete m l = ∅.
Proof.
  intros Hl. apply map_empty. intros k.
  assert (∀ l', foldr delete m l' !! k = if bool_decide (k ∈ l') then None else m !! k) as Hf.
  { induction l' as [|x l' IH]; cbn; [by rewrite bool_decide_eq_false_2 by apply not_elem_of_nil|].
    destruct (decide (x = k)) as [->|Hne].
    - rewrite lookup_delete_eq. by rewrite bool_decide_eq_true_2 by left.
    - rewrite lookup_delete_ne by done. rewrite IH.
      assert (k ∈ x :: l' ↔ k ∈ l') as Hiff by (rewrite elem_of_cons; split; [by intros [->|?]|by right]).
      by rewrite (bool_decide_ext _ _ Hiff). }
  rewrite Hf. case_bool_decide as Hin; [done|]. apply eq_None_not_Some. intros ?. by apply Hin, Hl.
Qed.

Lemma step_shutdown w : server_step w (shutdownSocketServer w).
Proof.
  unfold shutdownSocketServer. set (ids := (map_to_list (live w)).*1).
  set (w1 := foldl _ (w <| sv_up := false |>) ids).
  assert (server_step w w1) as Hs.
  { etrans; [|apply step_fold; intros w' id; apply step_close]. apply step_same; [|done..].
    intros [[Rs Rk Rn] [Qw Qe] Hp]. split; [split; [|done|done]|by split|done].
    intros id s Hl. destruct (Rs id s Hl). by split. }
  assert (live w1 = ∅) as Hempty.
  { unfold w1. rewrite live_close_all. apply foldr_delete_keys. intros k [s Hk].
    apply list_elem_of_In. rewrite <-in_rev. apply list_elem_of_In, list_elem_of_fmap. exists (k, s). split; [done|]. by apply elem_of_map_to_list. }
  etrans; [exact Hs|]. apply step_same; [|done..]. intros [_ [Qw Qe] Hp].
  split; [split|split|exact Hp]; try done.
  - intros id s. change (live (w1 <| connections := [] |>)) with (live w1). by rewrite Hempty, lookup_empty.
  - intros id [m Hm]. done.
  - apply NoDup_nil_2.
Qed.

(** ** The server as a transition system: what one step of a handler does *)
Inductive label := l_pong (id : string) | l_join (id room : string) | l_tick | l_other.

Inductive change : label → Server → Server → Prop :=
  | ch_chat w c : access_kept (sv_chat w) c → change l_other w (put_chat c w)
  | ch_connect w token : change l_other w (connect token w)
  | ch_close w id : change l_other w (close id w)
  | ch_answer w id e : about e = None → change l_other w (emit_to id e w)
  | ch_say w d e : about e = Some d → change l_other w (broadcast (delivery_room d) e w)
  | ch_say_others w id d e : about e = Some d → change l_other w (broadcast_others id (delivery_room d) e w)
  | ch_pong w id t : change (l_pong id) w (update_meta id (ponged t) w)
  | ch_join w id room : change (l_join id room) w (joined id room w)
  | ch_leave w id room : change l_other w (trackRoomLeave id room (leave id room w))
  | ch_refresh w id x : number_truthy x = true → change l_other w (refreshed id x w)
  | ch_queue w (f : MessageQueue → MessageQueue) :
      (∀ q, wf q → wf (f q)) → (∀ q, emitters (f q) = emitters q) → change l_other w (on_queue f w)
  | ch_tick w : change l_tick w (runHealthCheckTick w).2
  | ch_shutdown w : change l_other w (shutdownSocketServer w).

(** The changes an event may bring about. *)
Definition permits (e : socket_event) (l : label) : Prop :=
  match l with
  | l_pong id => ∃ p, e = ev_pong id p
  | l_join id room => e = ev_join_room id (JStr room)
  | l_tick => e = ev_tick
  | l_other => True
  end.
Definition does (e : socket_event) : relation Server := rtc (λ w w', ∃ l, permits e l ∧ change l w w').

Lemma does_one e l w w' : permits e l → change l w w' → does e w w'.
Proof. intros Hp Hc. apply rtc_once. by exists l. Qed.
Lemma does_other e w w' : change l_other w w' → does e w w'.
Proof. by apply does_one. Qed.
Lemma does_expire e id w : does e w (expire id w).
Proof.
  unfold expire. eapply rtc_l; [exists l_other; split; [done|by apply (ch_answer w id sv_auth_expired)]|].
  apply does_other, ch_close.
Qed.

(** Every change but a join is a step. *)
Lemma change_step l w w' : change l w w' → (∀ id room, l ≠ l_join id room) → server_step w w'.
Proof.
  intros [w0 c Hc|w0 token|w0 id|w0 id e He|w0 d e He|w0 id d e He|w0 id t|w0 id room|w0 id room|w0 id x Hx|w0 f Hf Hf'|w0|w0] Hj.
  - split; [by apply server_ok_chat|done|done|]. intros id s Hs. left. by exists s.
  - apply step_connect.
  - apply step_close.
  - by apply step_emit.
  - apply step_same; [by apply server_ok_broadcast|done..].
  - apply step_same; [by apply server_ok_others|done..].
  - apply step_same; [by apply server_ok_ponged|done..].
  - by destruct (Hj id room).
  - apply step_same; [by apply server_ok_left|done..].
  - by apply step_refreshed.
  - by apply step_queue.
  - apply step_tick.
  - apply step_shutdown.
Qed.
Lemma does_step e w w' : (∀ id room, e ≠ ev_join_room id room) → does e w w' → server_step w w'.
Proof.
  intros He. induction 1 as [|w1 w2 w3 (l & Hp & Hc) _ IH]; [done|]. etrans; [|exact IH].
  apply (change_step l); [done|]. intros id room ->. by apply (He id (JStr room)).
Qed.

(** ** Handlers keep to the steps *)
Lemma chat_confined_reads {A} (f : World → A) : confined access_kept (on_world (reads f)).
Proof. intros c. split; [|done]. by destruct c as [[]]. Qed.
Lemma chat_confined_account id : confined access_kept (on_accounts (find_account id)).
Proof. unfold find_account. case_match; [done|]. intros c. split; [|done]. by destruct c. Qed.
Lemma chat_confined_fresh : confined access_kept (on_world fresh_id).
Proof. intros c. split; [|done]. by apply access_kept_same. Qed.
Lemma chat_confined_create m : confined access_kept (create m).
Proof.
  unfold create. apply confined_bind; [apply chat_confined_fresh|]. intros id c. cbn.
  split; [|done]. repeat case_match; by apply access_kept_same.
Qed.
Lemma chat_confined_name {A} n (p : prog Chat A) : confined access_kept p → confined access_kept (named n p).
Proof. intros Hp. unfold named. by destruct (name n) as [|[]]. Qed.

Lemma confined_createDeliveryMessage d u p : confined access_kept (createDeliveryMessage d u p).
Proof.
  unfold createDeliveryMessage. apply chat_confined_name.
  apply confined_bind; [apply confined_throw_if|]. intros _.
  apply confined_bind; [done|]. intros content.
  apply confined_bind; [apply chat_confined_account|]. intros a.
  apply confined_bind; [apply chat_confined_reads|]. intros t. apply chat_confined_create.
Qed.
Lemma confined_markRead d ids u : confined access_kept (markRead d ids u).
Proof.
  unfold markRead. destruct ids as [v|]; [|done]. destruct v; try done. apply confined_bind; [done|]. intros _.
  case_match; [done|]. apply confined_bind; [|done]. unfold repo_markRead, with_id.
  apply confined_bind; [apply chat_confined_reads|]. intros t.
  case_match; [|done]. intros c. split; [|done]. by apply access_kept_same.
Qed.

Lemma server_lens : lens_laws sv_chat put_chat.
Proof. by split; intros; [|destruct v|]. Qed.
Section Handle.
Context (e : socket_event).

Lemma confined_on_chat {A} (p : prog Chat A) : confined access_kept p → confined (does e) (on_chat p).
Proof. apply confined_zoom_rel. intros w c Hc. by apply does_other, ch_chat. Qed.
Lemma confined_writes (f : Server → Server) : (∀ w, does e w (f w)) → confined (does e) (writes f).
Proof. intros Hf w. by split. Qed.
Lemma confined_sync id f : (∀ w, does e w (f w)) → confined (does e) (sync id f).
Proof. intros Hf. apply confined_writes. intros w. by case_bool_decide. Qed.
Lemma confined_answer id ev : about ev = None → confined (does e) (writes (emit_to id ev)).
Proof. intros He. apply confined_writes. intros w. by apply does_other, ch_answer. Qed.
Lemma confined_look {A} (f : Server → A) : confined (does e) (reads f).
Proof. apply confined_reads, _. Qed.

Lemma confined_message id p : confined (does e) (on_message id p).
Proof.
  unfold on_message. apply confined_bind; [apply confined_look|]. intros here.
  destruct here; [|done]. apply confined_bind; [apply confined_look|].
  intros [[d u]|]; [|by apply confined_answer]. apply confined_try_catch; [|intros er; by apply confined_answer].
  apply confined_bind; [apply confined_on_chat, confined_createDeliveryMessage|]. intros m.
  apply confined_writes. intros w. by apply does_other, ch_say.
Qed.
Lemma confined_read_receipt id p : confined (does e) (on_read_receipt id p).
Proof.
  unfold on_read_receipt. apply confined_bind; [apply confined_look|]. intros here.
  destruct here; [|done]. apply confined_bind; [apply confined_look|].
  intros [[d u]|]; [|done]. apply confined_try_catch; [|intros er; by apply confined_answer].
  apply confined_bind; [apply confined_on_chat, confined_markRead|]. intros ids. case_match; [done|].
  apply confined_writes. intros w. by apply does_other, ch_say_others.
Qed.
Lemma confined_canAccess user d : confined access_kept (canAccessDelivery user d).
Proof.
  unfold canAccessDelivery. destruct user as [u|]; [|done]. case_match; [done|].
  apply chat_confined_name. case_match; [done|]. apply confined_bind; [apply chat_confined_reads|]. intros x.
  by apply confined_bind; [apply chat_confined_account|].
Qed.
Lemma confined_join id room : (∀ r, room = JStr r → permits e (l_join id r)) → confined (does e) (on_join_room id room).
Proof.
  intros Hp. unfold on_join_room. apply confined_bind; [apply confined_look|]. intros here.
  destruct here; [|done]. cbn [negb]. destruct room as [| | |r| |]; try done. case_match; [done|].
  assert (confined (does e) (writes (joined id r))) as Hj.
  { apply confined_writes. intros w. by apply (does_one e (l_join id r)); [apply Hp|apply ch_join]. }
  case_match; [|done]. apply confined_bind; [apply confined_look|]. intros user.
  apply confined_bind; [|by intros []]. apply confined_try_catch.
  - apply confined_bind; [apply confined_on_chat, confined_canAccess|]. intros []; [done|].
    by apply confined_bind; [apply confined_answer|].
  - intros er. by apply confined_bind; [apply confined_answer|].
Qed.
End Handle.

(** Every handler does what its event permits. *)
Lemma handle_does e : confined (does e) (handle e).
Proof.
  destruct e as [token|id p|id p|id r|id r|id p|id p|id p|id m|id| |u m|u ev p o|o|]; cbn [handle].
  - apply confined_writes. intros w. apply does_other, ch_connect.
  - apply confined_sync. intros w. repeat case_match; try apply does_expire; try done.
    apply does_other, ch_refresh. unfold truthy_number in *. by repeat case_match; simplify_eq.
  - intros w. split; [|done]. cbn. repeat case_match; cbn; try done.
    all: apply (does_one _ (l_pong id)); [by eexists|apply ch_pong].
  - apply confined_join. by intros r0 ->.
  - apply confined_sync. intros w. case_match; try done. apply does_other, ch_leave.
  - apply confined_message.
  - apply confined_sync. intros w. repeat case_match; [|done]. by apply does_other, ch_say_others.
  - apply confined_read_receipt.
  - apply confined_sync. intros w. repeat case_match; try done. apply does_other, ch_queue.
    + intros q. apply (exec_wf (op_ack _ _)).
    + intros q. apply acknowledge_emitters.
  - apply confined_writes. intros w. apply does_other, ch_close.
  - apply confined_writes. intros w. case_match; [|done]. by apply (does_one _ l_tick); [|apply ch_tick].
  - apply confined_writes. intros w. apply does_other, ch_queue.
    + intros q. apply (exec_wf (op_timer _ _)).
    + intros q. apply fire_timer_emitters.
  - apply confined_writes. intros w. apply does_other, ch_queue.
    + intros q. apply (exec_wf (op_enqueue _ _ _ _)).
    + intros q. apply enqueue_emitters.
  - apply confined_writes. intros w. unfold emitDeliveryStatusUpdated. destruct (sv_up w), o; try done.
    by apply does_other, ch_say.
  - apply confined_writes. intros w. apply does_other, ch_shutdown.
Qed.

(** *** Joining a room, while anything else happens *)
Lemma safe_on_world_reads {A} (f : World → A) c (Q : error + A → Chat → Prop) :
  (∀ c1 c2, access_kept c c1 → access_kept c1 c2 → Q (inr (f (world c1))) c2) →
  safe access_kept (on_world (reads f)) c Q.
Proof.
  intros HQ c1 Hc1. destruct c1 as [[b ac dp sf] ms]. split; [done|]. intros c2 Hc2.
  by apply (HQ (mkChat (mkAccounts b ac dp sf) ms)).
Qed.
Lemma safe_find_account u c (Q : error + option (hydrated Account) → Chat → Prop) :
  isValidObjectId u = true →
  (∀ c1 c2, access_kept c c1 → access_kept c1 c2 → Q (inr (find_by_id u (accounts (ch_accounts c1)))) c2) →
  safe access_kept (on_accounts (find_account u)) c Q.
Proof.
  intros Hu HQ. unfold find_account. rewrite Hu. cbn [negb]. intros c1 Hc1. cbn.
  destruct c1 as [a ms]. split; [done|]. intros c2 Hc2. by apply (HQ (mkChat a ms)).
Qed.

(** The answer of the access check is that of some moment, and stays true. *)
Lemma safe_canAccess user d c :
  safe access_kept (canAccessDelivery user d) c
    (λ r c', r = inr true → ∃ u, user = Some u ∧ Str.truthy u = true ∧ can_access u d c').
Proof.
  destruct user as [u|]; [|by intros c' _ [=]]. cbn [canAccessDelivery].
  destruct (Str.truthy u) eqn:Ht; [|by intros c' _ [=]]. cbn [negb]. unfold named.
  destruct (name "Types") as [e|[]]; [by intros c' _ [=]|].
  change (_ ← Done (inr ()); ?p) with p.
  destruct (isValidObjectId d) eqn:Hd; [|by intros c' _ [=]].
  destruct (isValidObjectId u) eqn:Hu; [|by intros c' _ [=]]. cbn [negb orb].
  eapply (safe_bind _ _ _ _ (λ r c', ∀ x, r = inr (Some x) →
    ∃ x', deliveries (world c') !! d = Some x' ∧ ∀ v, v ∈ participants (body x) → v ∈ participants x')).
  { apply safe_on_world_reads. intros c1 c2 _ [Hdel _] x [= Hx]. apply find_by_id_Some in Hx as [_ Hx]. by apply Hdel. }
  2: { intros e c' _ _ [=]. }
  intros x c1 _ Hx. eapply (safe_bind _ _ _ _ (λ r c', ∀ a, r = inr (Some a) →
    ∃ a', accounts (ch_accounts c') !! u = Some a' ∧ (ac_role (body a) = ADMIN → ac_role a' = ADMIN))).
  { apply safe_find_account; [done|]. intros c2 c3 _ [_ Hacc] a [= Ha]. apply find_by_id_Some in Ha as [_ Ha]. by apply Hacc. }
  2: { intros e c' _ _ [=]. }
  intros a c2 H12 Ha. apply safe_ret. intros c3 H23 [= Hm]. exists u. split; [done|]. split; [done|].
  apply may_access_spec in Hm as (d' & a' & -> & -> & Hor).
  destruct (Hx d' eq_refl) as (x1 & Hx1 & Hp1). destruct (Ha a' eq_refl) as (a1 & Ha1 & Hr1).
  apply (can_access_kept u d c2 c3); [done|]. unfold can_access, has_access. rewrite Hd, Hu. cbn [andb].
  apply (ak_delivery _ _ H12) in Hx1 as (x2 & Hx2 & Hp2).
  apply may_access_spec. exists (Doc d x2), (Doc u a1). unfold find_by_id. rewrite Hx2, Ha1.
  split; [done|]. split; [done|]. destruct Hor; [left|right]; auto.
Qed.

Lemma safe_confined {A} (p : serving A) w :
  confined server_step p → safe server_step p w (λ _ _, True).
Proof. intros Hp. by apply (confined_safe server_step). Qed.

Definition join_post (user : option string) (d : string) (r : error + bool) w : Prop :=
  r = inr true → ∃ u, user = Some u ∧ Str.truthy u = true ∧ can_access u d (sv_chat w).
Lemma safe_join_allowed id user d w : safe server_step (join_allowed id user d) w (join_post user d).
Proof.
  assert (∀ m w', safe server_step (_ ← join_error id d m; mret false) w' (join_post user d)) as Hno.
  { intros m w'. apply (safe_bind server_step _ _ _ (λ _ _, True)); [| |].
    - intros w''. cbn. intros Hs. split; [by apply step_emit|done].
    - intros [] w'' _ _. apply safe_ret. by intros w3 _ [=].
    - intros e w'' _ _ [=]. }
  unfold join_allowed. apply (safe_try_catch server_step _ _ _ (join_post user d)); [|intros e w' _ _; apply Hno|done].
  eapply (safe_bind server_step); [apply (safe_zoom _ _ server_step access_kept)| |].
  - apply server_lens.
  - intros v v' Hs. apply ss_chat, Hs.
  - intros v c Hc. by apply (change_step l_other); [apply ch_chat|].
  - apply safe_canAccess.
  - intros [] w' _ Hq; [|apply Hno]. apply safe_ret. intros w'' Hs _.
    destruct (Hq eq_refl) as (u & -> & Ht & Ha). exists u. split; [done|]. split; [done|].
    eapply can_access_kept; [by apply ss_chat|exact Ha].
  - by intros e w' _ _ [=].
Qed.

(** The user of a socket, for as long as it is connected. *)
Definition is_user id (user : option string) w : Prop :=
  ∀ u, user = Some u → (∃ n, id = newSocketId n ∧ (n < objects w)%nat) ∧
    ∀ s, live w !! id = Some s → so_userId s = Some u.
Lemma is_user_step id user w w' : server_step w w' → is_user id user w → is_user id user w'.
Proof.
  intros [_ _ Ho Hl] Hu u Heq. destruct (Hu u Heq) as [(n & Hid & Hn) Hs]. split; [exists n; split; [done|lia]|].
  intros s' Hs'. destruct (Hl id s' Hs') as [(s & Hs0 & <-)|(n' & Hid' & Hn')]; [by apply Hs|].
  rewrite Hid in Hid'. apply newSocketId_inj in Hid'. lia.
Qed.
Lemma user_of_is_user id w : server_ok w → is_user id (user_of id w) w.
Proof.
  intros Hok u Hu. unfold user_of in Hu. destruct (live w !! id) as [s|] eqn:Hs; [|done]. cbn in Hu.
  split; [|intros s' [= <-]; done]. exists (so_object s).
  by destruct (sk_id _ _ _ (rg_sockets _ (sv_registry _ Hok) id s Hs)) as [<- ?].
Qed.

Lemma safe_joined id room w :
  server_ok w →
  (∀ d, room = delivery_room d → ∃ u, is_user id (Some u) w ∧ can_access u d (sv_chat w)) →
  safe server_step (writes (joined id room)) w (λ _ _, True).
Proof.
  intros Hok Hacc w' Hs. split; [|done]. apply step_same; [|done..].
  apply server_ok_joined. intros d s -> Hl. destruct (Hacc d eq_refl) as (u & Hu & Ha). exists u.
  split; [|eapply can_access_kept; [by apply ss_chat|exact Ha]].
  by apply (is_user_step id (Some u) w w' Hs Hu).
Qed.

Lemma safe_join_room id room w :
  server_ok w → safe server_step (on_join_room id room) w (λ _ _, True).
Proof.
  intros Hok. unfold on_join_room. eapply (safe_bind server_step); [apply safe_confined, confined_reads, _| |done].
  intros here w1 Hs1 _. destruct here; [|done]. cbn [negb]. destruct room as [| | |r| |]; try done.
  destruct (negb (Str.truthy (Str.trim r))); [done|].
  assert (server_ok w1) as Hok1 by by apply Hs1.
  destruct (parseDeliveryRoom r) as [d|] eqn:Hr.
  2: { apply safe_joined; [done|]. intros d ->. by rewrite parse_delivery_room in Hr. }
  eapply (safe_bind server_step _ _ _ (λ x w', ∀ user, x = inr user → is_user id user w')).
  { apply (safe_reads server_step). intros w2 w3 Hs2 Hs3 user [= <-]. eapply is_user_step; [exact Hs3|].
    apply user_of_is_user. by apply Hs2. }
  2: done.
  intros user w2 Hs2 Hu. specialize (Hu user eq_refl).
  eapply (safe_bind server_step); [apply safe_join_allowed| |done].
  intros [] w3 Hs3 Hq; [|done]. destruct (Hq eq_refl) as (u & -> & _ & Ha).
  apply safe_joined; [by apply Hs3, Hs2|]. intros d' ->. rewrite parse_delivery_room in Hr. simplify_eq.
  exists u. split; [by eapply is_user_step|done].
Qed.

Lemma safe_handle_other e w :
  (∀ id room, e ≠ ev_join_room id room) → safe server_step (handle e) w (λ _ _, True).
Proof.
  intros He. apply safe_confined. eapply confined_mono; [|apply handle_does]. intros w1 w2. by apply does_step.
Qed.
Lemma safe_handle e w : server_ok w → safe server_step (handle e) w (λ _ _, True).
Proof.
  intros Hok. destruct e; try by apply safe_handle_other. by apply safe_join_room.
Qed.

(** ** Silent clients *)

(** The socket is gone, or has been pinged [k] times since its last pong. *)
Definition known id w : Prop := ∃ n, id = newSocketId n ∧ (n < objects w)%nat.
Definition silent (k : Z) id w : Prop :=
  live w !! id = None ∨ (sv_up w = true ∧ ∃ m, meta_of id w = Some m ∧ (k ≤ missedPongs m)%Z).

Lemma known_live id w s : server_ok w → live w !! id = Some s → known id w.
Proof.
  intros Hok Hs. destruct (sk_id _ _ _ (rg_sockets _ (sv_registry _ Hok) id s Hs)) as [Hi Hn]. by exists (so_object s).
Qed.
Lemma known_step id w w' : (objects w ≤ objects w')%nat → known id w → known id w'.
Proof. intros Ho (n & Hid & Hn). exists n. split; [done|lia]. Qed.

Lemma silent_entry k id w w' :
  live w' = live w → sv_up w' = sv_up w →
  (∀ m, meta_of id w = Some m → ∃ m', meta_of id w' = Some m' ∧ (missedPongs m ≤ missedPongs m')%Z) →
  silent k id w → silent k id w'.
Proof.
  intros Hl Hu Hm [Hn|(Hup & m & Hme & Hk)]; [left; by rewrite Hl|right].
  destruct (Hm m Hme) as (m' & Hm' & Hle). rewrite Hu. split; [done|]. exists m'. split; [done|lia].
Qed.
Lemma silent_same k id w w' :
  live w' = live w → sv_up w' = sv_up w → connections w' = connections w → silent k id w → silent k id w'.
Proof.
  intros Hl Hu Hc. apply silent_entry; [done..|]. intros m Hm. exists m. split; [|done].
  unfold meta_of. by rewrite Hc.
Qed.
Lemma silent_update k id id' f w w' :
  live w' = live w → sv_up w' = sv_up w → connections w' = connections (update_meta id' f w) →
  (∀ m, id = id' → (missedPongs m ≤ missedPongs (f m))%Z) → silent k id w → silent k id w'.
Proof.
  intros Hl Hu Hc Hf. apply silent_entry; [done..|]. intros m Hm.
  assert (meta_of id w' = if String.eqb id id' then f <$> meta_of id w else meta_of id w) as ->.
  { rewrite <-meta_of_update. unfold meta_of. by rewrite Hc. }
  rewrite Hm. destruct (String.eqb_spec id id') as [Heq|]; eexists; (split; [done|]); [by apply Hf|done].
Qed.

Lemma meta_of_close id id' w : id ≠ id' → meta_of id (close id' w) = meta_of id w.
Proof.
  intros Hne. unfold close. destruct (live w !! id') as [s|]; [|done]. unfold handleDisconnect.
  assert (∀ w1, connections w1 = connections w → meta_of id (delete_connection id' w1) = meta_of id w) as Hd.
  { intros w1 Hc. rewrite meta_of_delete. rewrite (proj2 (String.eqb_neq id id') Hne). unfold meta_of. by rewrite Hc. }
  case_match; [|done]. apply Hd. by case_match.
Qed.
Lemma silent_close k id id' w : silent k id w → silent k id (close id' w).
Proof.
  destruct (close_shape id' w) as (_ & _ & Hl & _ & Hu).
  destruct (decide (id = id')) as [->|Hne]; [intros _; left; by rewrite Hl, lookup_delete_eq|].
  intros [Hn|(Hup & m & Hm & Hk)].
  - left. by rewrite Hl, lookup_delete_ne.
  - right. rewrite Hu. split; [done|]. exists m. by rewrite meta_of_close.
Qed.
Lemma silent_expire k id id' w : silent k id w → silent k id (expire id' w).
Proof. intros Hs. unfold expire. apply silent_close. by apply (silent_same _ _ w). Qed.

(** Nothing but a pong makes a connection look fresher. *)
Lemma change_silent l k id w w' :
  change l w w' → l ≠ l_pong id → l ≠ l_tick → known id w → silent k id w → silent k id w'.
Proof.
  intros [w0 c Hc|w0 token|w0 id0|w0 id0 e He|w0 d e He|w0 id0 d e He|w0 id0 t|w0 id0 room|w0 id0 room|w0 id0 x Hx|w0 f Hf Hf'|w0|w0]
    Hp Ht Hkn.
  - by apply silent_same.
  - intros Hs. unfold connect. destruct (sv_up w0) eqn:Hup; [|done]. cbn [negb].
    destruct (extractAuthInfo token (clock w0)) as [userId tokenExp]. set (w2 := registerConnection _ _ _ _ _).
    assert (id ≠ newSocketId (objects w0)) as Hne
      by (intros ->; destruct Hkn as (n & Hn%newSocketId_inj & ?); lia).
    assert (live w2 !! id = live w0 !! id) as Hl.
    { assert (live w2 = <[newSocketId (objects w0) :=
        mkSocket (objects w0) (truthy_string userId) (truthy_number tokenExp)]> (live w0)) as ->
        by (unfold w2, registerConnection, set_connection; by repeat case_match).
      by rewrite lookup_insert_ne. }
    assert (sv_up w2 = true) as Hup' by (unfold w2, registerConnection, set_connection; by repeat case_match).
    assert (meta_of id w2 = meta_of id w0) as Hm.
    { unfold w2, registerConnection. set (w1 := set_connection _ _ _).
      assert (meta_of id w1 = meta_of id w0) as Hw1.
      { unfold w1. rewrite meta_of_set. by rewrite (proj2 (String.eqb_neq _ _) Hne). }
      by case_match. }
    destruct Hs as [Hn|(_ & m & Hme & Hk)]; [left; congruence|right]. split; [done|]. exists m. by rewrite Hm.
  - apply silent_close.
  - by apply silent_same.
  - by apply silent_same.
  - by apply silent_same.
  - apply (silent_update _ _ id0 (ponged t)); [done..|]. intros m ->. done.
  - eapply (silent_update _ _ id0); [done..|]. intros m ->. by case_match.
  - by eapply (silent_update _ _ id0).
  - intros [Hn|(Hup & m & Hm & Hk)].
    + left. change (live (refreshed id0 x w0)) with
        (alter (λ s, mkSocket (so_object s) (so_userId s) (Some x)) id0 (live w0)).
      by apply lookup_alter_None.
    + right. split; [done|]. unfold refreshed, updateTokenExpiration. rewrite meta_of_update.
      change (meta_of id (w0 <| live ::= _ |>)) with (meta_of id w0). rewrite Hm.
      case_match; eexists; by (split; [done|]).
  - by apply silent_same.
  - done.
  - intros _. left. unfold shutdownSocketServer.
    change (live (foldl (λ w id, close id w) (w0 <| sv_up := false |>) (map_to_list (live w0)).*1) !! id = None).
    rewrite live_close_all. rewrite foldr_delete_keys; [apply lookup_empty|]. intros k0 [s Hk0].
    apply list_elem_of_In. rewrite <-in_rev. apply list_elem_of_In, list_elem_of_fmap. exists (k0, s).
    split; [done|]. by apply elem_of_map_to_list.
Qed.

(** A tick is one more ping. *)
Lemma check_silent k n id id' w :
  silent k id w →
  silent (if String.eqb id' id then Z.succ k else k) id (check_connection (w, n) id').1.
Proof.
  intros Hs. unfold check_connection. set (w1 := update_meta id' _ w).
  assert (silent (if String.eqb id' id then Z.succ k else k) id w1) as Hs1.
  { destruct Hs as [Hn|(Hup & m & Hm & Hk)]; [by left|right]. split; [done|]. unfold w1.
    rewrite meta_of_update, Hm, (String.eqb_sym id id'). destruct (String.eqb id' id).
    - exists (set missedPongs Z.succ m). split; [done|].
      change (Z.succ k ≤ Z.succ (missedPongs m))%Z. lia.
    - by exists m. }
  set (k1 := if String.eqb id' id then Z.succ k else k) in *. clearbody k1.
  destruct (meta_of id' w1) as [m'|] eqn:Hm'; [|done]. case_match; cbn [fst].
  - destruct (live w1 !! id') as [s|] eqn:Hl'; [by apply silent_close|].
    destruct Hs1 as [Hn|(Hup & m & Hm & Hk)]; [by left|].
    destruct (decide (id = id')) as [->|Hne]; [by left|right]. split; [done|]. exists m.
    rewrite meta_of_delete. by rewrite (proj2 (String.eqb_neq id id') Hne).
  - destruct (live w1 !! id') as [s|]; [|done]. case_match; [by apply silent_expire|by apply (silent_same _ _ w1)].
Qed.
Lemma silent_weaken k k' id w : (k' ≤ k)%Z → silent k id w → silent k' id w.
Proof. intros Hle [Hn|(Hup & m & Hm & Hk)]; [by left|right]. split; [done|]. exists m. split; [done|lia]. Qed.
Lemma checks_silent k id l w n :
  silent k id w → silent (if bool_decide (id ∈ l) then Z.succ k else k) id (foldl check_connection (w, n) l).1.
Proof.
  revert k w n. induction l as [|id' l IH]; intros k w n Hs; cbn [foldl].
  { by rewrite bool_decide_eq_false_2 by apply not_elem_of_nil. }
  pose proof (check_silent k n id id' w Hs) as Hc. destruct (check_connection (w, n) id') as [w1 n1]. cbn [fst] in Hc.
  destruct (String.eqb_spec id' id) as [->|Hne].
  - rewrite bool_decide_eq_true_2 by by left. eapply silent_weaken; [|by apply IH]. case_bool_decide; lia.
  - assert (id ∈ id' :: l ↔ id ∈ l) as Hiff by (rewrite elem_of_cons; split; [by intros [->|?]|by right]).
    rewrite (bool_decide_ext _ _ Hiff). by apply IH.
Qed.
Lemma tick_silent k id w : silent k id w → silent (Z.succ k) id (runHealthCheckTick w).2.
Proof.
  intros Hs. unfold runHealthCheckTick. pose proof (checks_silent k id (connections w).*1 w 0 Hs) as Hc.
  destruct (foldl check_connection (w, 0%Z) (connections w).*1) as [w' n] eqn:Heq. cbn [fst snd] in *.
  destruct Hs as [Hn|(Hup & m & Hm & Hk)].
  - left. assert (∀ K, silent K id w') as HK.
    { intros K. pose proof (checks_silent K id (connections w).*1 w 0 (or_introl Hn)) as HcK.
      rewrite Heq in HcK. eapply silent_weaken; [|exact HcK]. case_bool_decide; lia. }
    destruct (meta_of id w') as [m|] eqn:Hm.
    + destruct (HK (Z.succ (missedPongs m))) as [?|(_ & m' & Hm' & Hle)]; [done|].
      assert (m' = m) as -> by congruence. lia.
    + destruct (HK 0%Z) as [?|(_ & m' & Hm' & _)]; [done|congruence].
  - rewrite bool_decide_eq_true_2 in Hc; [done|]. apply meta_of_key. by eexists.
Qed.

(** ** Theorems *)
Lemma server_interleaved sched events others w :
  server_ok w → (∀ p, p ∈ others → confined server_step p) →
  server_ok (interleave sched ((handle <$> events) ++ others) w).2.
Proof.
  intros Hok Hothers. eapply ss_ok; [|exact Hok].
  apply (safe_interleave server_step (λ _ _ _, True)). intros i p Hp.
  apply list_elem_of_lookup_2, elem_of_app in Hp as [(e & -> & _)%list_elem_of_fmap|Hp].
  - by apply safe_handle.
  - by apply safe_confined, Hothers.
Qed.
Lemma initial_ok c : server_ok (initializeSocketServer c).
Proof.
  split; [split|split|]; cbn.
  - intros id s. by rewrite lookup_empty.
  - by intros id [].
  - apply NoDup_nil_2.
  - apply empty_wf.
  - intros u e. by rewrite lookup_empty.
  - intros p d Hin. by apply not_elem_of_nil in Hin.
Qed.

(** C19: the chat and the tracking of a delivery stay among its parties: whatever
    events arrive in whatever interleaving, next to any programs that take no
    access away, every socket in a delivery's room belongs to an authenticated
    user who is a party of the delivery or an administrator, and so does every
    socket that a message, typing notice, read receipt or status change of the
    delivery was sent to. *)
Theorem delivery_rooms_private c sched events others :
  (∀ p, p ∈ others → confined server_step p) →
  let w := (interleave sched ((handle <$> events) ++ others) (initializeSocketServer c)).2 in
  (∀ id s d, live w !! id = Some s → delivery_room d ∈ rooms_of id w →
     ∃ u, so_userId s = Some u ∧ has_access u d (sv_chat w) = true) ∧
  (∀ p d id user, p ∈ outbox w → about (pk_event p) = Some d → (id, user) ∈ pk_to p →
     ∃ u, user = Some u ∧ has_access u d (sv_chat w) = true).
Proof.
  intros Hothers. pose proof (server_interleaved sched events others _ (initial_ok c) Hothers) as [Hr _ Hp].
  split.
  - intros id s d Hs. exact (sk_rooms _ _ _ (rg_sockets _ Hr id s Hs) d).
  - intros p d id user Hin Hd. exact (Hp p d Hin Hd id user).
Qed.

(** C20: the registry of connections mirrors the sockets: after any events in any
    interleaving it has one entry for each connected socket and no other, with
    the socket's user and rooms and at most the allowed number of missed pongs;
    the message queue is well formed, and what it would send to a user goes to
    a connected socket of that user. *)
Theorem registry_mirrors_sockets c sched events others :
  (∀ p, p ∈ others → confined server_step p) →
  let w := (interleave sched ((handle <$> events) ++ others) (initializeSocketServer c)).2 in
  NoDup (connections w).*1 ∧
  (∀ id, is_Some (meta_of id w) ↔ is_Some (live w !! id)) ∧
  (∀ id s m, live w !! id = Some s → meta_of id w = Some m →
     so_userId s = truthy_string (cn_userId m) ∧ so_tokenExp s = truthy_number (cn_tokenExp m) ∧
     (∀ r, r ∈ cn_rooms m ↔ r ∈ rooms_of id w) ∧ (0 ≤ missedPongs m ≤ SOCKET_MAX_MISSED_PONGS)%Z) ∧
  wf (sv_queue w) ∧
  (∀ u e, emitters (sv_queue w) !! u = Some e →
     ∃ s, live w !! newSocketId e = Some s ∧ Str.trim <$> so_userId s = Some u).
Proof.
  intros Hothers. pose proof (server_interleaved sched events others _ (initial_ok c) Hothers) as [[Rs Rk Rn] [Qw Qe] _].
  split; [exact Rn|]. split.
  { intros id. split; [apply Rk|]. intros [s Hs]. destruct (sk_meta _ _ _ (Rs id s Hs)) as (m & Hm & _). by eexists. }
  split.
  { intros id s m Hs Hm. destruct (sk_meta _ _ _ (Rs id s Hs)) as (m' & Hm' & Hu & Ht & Hr & _ & Hp).
    assert (m' = m) as -> by congruence. done. }
  split; [exact Qw|]. intros u e He. by apply Qe in He as [_ ?].
Qed.

(** Events that are handled one after another. *)
Definition run_events (events : list socket_event) w : Server :=
  foldl (λ w e, (run (handle e) w).2) w events.
Definition is_tick (e : socket_event) : bool := match e with ev_tick => true | _ => false end.
Definition ticks (events : list socket_event) : Z := Z.of_nat (length (List.filter is_tick events)).

Lemma handled_step e w : server_ok w → server_step w (run (handle e) w).2.
Proof. intros Hok. apply (safe_run server_step _ _ _ (safe_handle e w Hok)). Qed.
Lemma silent_handled k id e w :
  (∀ p, e ≠ ev_pong id p) → server_ok w → known id w → silent k id w →
  silent (if is_tick e then Z.succ k else k) id (run (handle e) w).2.
Proof.
  intros Hp Hok Hkn Hs. destruct (is_tick e) eqn:Ht.
  - destruct e; try done. cbn [handle]. rewrite run_writes. cbn [snd]. destruct (sv_up w) eqn:Hup; [by apply tick_silent|].
    left. destruct Hs as [?|(? & _)]; [done|congruence].
  - assert (does e w (run (handle e) w).2) as Hd by (apply (confined_run (does e)), handle_does).
    clear Hok. revert Hkn Hs. induction Hd as [|w1 w2 w3 (l & Hl & Hc) _ IH]; [done|]. intros Hkn Hs.
    assert (objects w1 ≤ objects w2)%nat as Ho.
    { destruct l as [id0|id0 r| |]; try (apply (ss_objects _ _ (change_step _ _ _ Hc (λ _ _, ltac:(done))))).
      by inversion Hc. }
    apply IH; [by eapply known_step|]. eapply change_silent; [exact Hc| | |done|done].
    + intros ->. destruct Hl as [p ->]. by apply (Hp p).
    + intros ->. cbn in Hl. by subst e.
Qed.

(** C21: a client that stops answering is dropped: if a connected socket sends no
    pong, then after one more health check than it may miss it is disconnected
    and its entry is gone, whatever other events are handled in between. *)
Theorem silent_clients_evicted events id w :
  server_ok w → sv_up w = true → is_Some (live w !! id) → (∀ p, ev_pong id p ∉ events) →
  (SOCKET_MAX_MISSED_PONGS < ticks events)%Z →
  live (run_events events w) !! id = None ∧ meta_of id (run_events events w) = None.
Proof.
  intros Hok Hup [s Hs] Hp Hticks.
  assert (server_ok (run_events events w) ∧ silent (ticks events) id (run_events events w)) as [Hok' Hsil].
  { assert (silent 0 id w) as Hs0.
    { right. split; [done|]. destruct (sk_meta _ _ _ (rg_sockets _ (sv_registry _ Hok) id s Hs)) as (m & Hm & _ & _ & _ & _ & Hle).
      exists m. split; [done|lia]. }
    pose proof (known_live id w s Hok Hs) as Hkn. clear Hs Hup Hticks.
    replace (ticks events) with (0 + ticks events)%Z by lia. revert w Hok Hkn Hs0. generalize 0%Z.
    induction events as [|e events IH]; intros k w Hok Hkn Hsk; cbn [run_events foldl].
    { split; [done|]. by rewrite Z.add_0_r. }
    pose proof (handled_step e w Hok) as Hstep.
    assert (∀ p, ev_pong id p ∉ events) as Hp' by (intros p Hin; apply (Hp p); by right).
    destruct (IH Hp' (if is_tick e then Z.succ k else k) (run (handle e) w).2)
      as [H1' H2'].
    - by apply Hstep.
    - eapply known_step; [by apply ss_objects|done].
    - apply silent_handled; [|done..]. intros p ->. apply (Hp p). by left.
    - split; [exact H1'|]. eapply silent_weaken; [|exact H2']. unfold ticks. cbn [List.filter].
      destruct (is_tick e); cbn [length]; lia. }
  assert (live (run_events events w) !! id = None) as Hl.
  { destruct Hsil as [?|(_ & m & Hm & Hle)]; [done|].
    destruct (rg_known _ (sv_registry _ Hok') id (ex_intro _ _ Hm)) as [s' Hs'].
    destruct (sk_meta _ _ _ (rg_sockets _ (sv_registry _ Hok') id s' Hs')) as (m' & Hm' & _ & _ & _ & _ & Hb).
    assert (m' = m) as -> by congruence. lia. }
  split; [done|]. apply eq_None_not_Some. intros [s' Hs']%(rg_known _ (sv_registry _ Hok')). congruence.
Qed.

(** *** Messages *)
Lemma run_on_chat {A} (p : prog Chat A) w :
  run (on_chat p) w = ((run p (sv_chat w)).1, put_chat (run p (sv_chat w)).2 w).
Proof. apply run_zoom, server_lens. Qed.
Lemma put_chat_id w : put_chat (sv_chat w) w = w.
Proof. by destruct w. Qed.

Definition not_joined id (payload : option json) : Server → Server :=
  emit_to id (sv_chat_error "message" "Join the delivery room before sending messages" (pick "deliveryId" payload)).
Definition not_sent id (d : string) (e : error) : Server → Server :=
  emit_to id (sv_chat_error "message" (chat_failure e "Failed to send message") (Some (JStr d))).
(** What everyone in the room receives. *)
Definition message_packet (d u : string) (m : ChatMessage) w : Packet :=
  mkPacket (reached (λ id, in_room id (delivery_room d) w) w)
    (sv_message (chat_broadcast d u (Doc (message_id (sv_chat w)) m))).

Lemma speaker_spec id payload w d u :
  speaker id payload w = Some (d, u) →
  user_of id w = Some u ∧ pick "deliveryId" payload = Some (JStr d) ∧ delivery_room d ∈ rooms_of id w.
Proof.
  unfold speaker. destruct (truthy_string (user_of id w)) as [u'|] eqn:Hu; [|done].
  destruct (pick "deliveryId" payload) as [[| | |d'| |]|]; try done.
  destruct (in_room id (delivery_room d') w) eqn:Hr; [|done]. intros [= <- <-].
  apply in_room_spec in Hr. split; [|done]. unfold truthy_string in Hu. by repeat case_match.
Qed.

(** A chat message is taken only from a member of the delivery's room and in
    the name of the socket's own user: it is validated, stored once with its
    author's role and the author's read receipt, and sent to everyone in the
    room, the author included; every other attempt stores nothing and is
    answered with an error on the socket alone. *)
Theorem message_correct id payload w :
  server_ok w → messages (sv_chat w) !! message_id (sv_chat w) = None →
  let '(r, w') := run (on_message id payload) w in
  r = inr tt ∧
  match live w !! id, speaker id payload w with
  | None, _ => w' = w
  | Some _, None => w' = not_joined id payload w
  | Some _, Some (d, u) =>
      user_of id w = Some u ∧ has_access u d (sv_chat w) = true ∧
      match message_outcome d u payload (sv_chat w) with
      | inl e => w' = not_sent id d e w
      | inr m =>
          content_of payload = inr (cm_content m) ∧ cm_sender m = Some u ∧
          unread_by u m = false ∧ (∀ v, v ≠ u → unread_by v m = true) ∧
          messages (sv_chat w') = <[message_id (sv_chat w) := m]> (messages (sv_chat w)) ∧
          (id, Some u) ∈ pk_to (message_packet d u m w) ∧
          w' = put_chat (with_message m (sv_chat w)) w <| outbox ::= (.++ [message_packet d u m w]) |>
      end
  end.
Proof.
  intros Hok Hfresh. unfold on_message. rewrite run_bind, run_reads. cbn [fst snd].
  destruct (live w !! id) as [s|] eqn:Hs; cbn [negb]; [|by rewrite bool_decide_eq_false_2 by by intros []].
  rewrite bool_decide_eq_true_2 by by eexists. cbn [negb].
  rewrite run_bind, run_reads. cbn [fst snd]. destruct (speaker id payload w) as [[d u]|] eqn:Hsp; [|by rewrite run_writes].
  apply speaker_spec in Hsp as (Hu & _ & Hroom).
  assert (has_access u d (sv_chat w) = true) as Hacc.
  { destruct (sk_rooms _ _ _ (rg_sockets _ (sv_registry _ Hok) id s Hs) d Hroom) as (u' & Hu' & Ha).
    unfold user_of in Hu. rewrite Hs in Hu. cbn in Hu. by simplify_eq. }
  rewrite run_try_catch, run_bind, run_on_chat, run_createDeliveryMessage by done.
  destruct (message_outcome d u payload (sv_chat w)) as [e|m] eqn:Hm; cbn [fst snd].
  { rewrite put_chat_id, run_writes. by split. }
  rewrite run_writes. cbn [fst snd]. split; [done|]. split; [done|]. split; [done|].
  unfold message_outcome in Hm. destruct (name "Types"); [done|]. destruct (isValidObjectId d); [|done].
  cbn [negb] in Hm. destruct (content_of payload) as [|content] eqn:Hc; [done|].
  destruct (isValidObjectId u) eqn:Hvu; [|done]. injection Hm as <-. cbn [delivery_message cm_content cm_sender].
  do 2 (split; [done|]). split; [|split; [|split; [done|split; [|done]]]].
  - unfold unread_by. cbn. by rewrite bool_decide_eq_true_2.
  - intros v Hne. unfold unread_by, userMatches. cbn. rewrite bool_decide_eq_false_2 by congruence. cbn.
    case_match; cbn; rewrite orb_false_r; apply negb_true_iff, bool_decide_eq_false; rewrite list_elem_of_In; cbn;
      intuition congruence.
  - apply reached_spec. exists s. split; [done|]. split; [by apply in_room_spec|].
    unfold user_of in Hu. by rewrite Hs in Hu.
Qed.
End Server.

(** ** Concrete runs *)
Module SocketExamples.
Import ExampleEnv ExampleQueue.

(** A token is its user's id. *)
#[export] Instance account_env : AccountEnv := {|
  AUTH_SECRET := "secret";
  JWT_EXPIRES_IN := 3600000;
  BCRYPT_ROUNDS := 10;
  sign_token u _ _ _ _ := u;
  verify_token token _ _ :=
    if Str.truthy token then Some (JObj [("userId", JStr token); ("exp", JNum (Num.of_Z 1700003600))]) else None;
  hash_password p := p;
  compare_password p h := String.eqb p h;
  process_image b := Some b;
  newUUID n := pretty n;
  PROFILE_PICTURE_MAX_SIZE_MB := 5;
  delete_fails _ _ := false
|}.
#[export] Instance chat_env : ChatEnv := {| chat_enabled := true; names_bound := true |}.
#[export] Instance socket_options : SocketOptions.
Proof.
  refine {| SOCKET_MAX_MISSED_PONGS := 2; newSocketId := λ n, "socket-" +:+ pretty n |}.
  - done.
  - done.
Defined.

Definition sender1 : string := "64b7f0c2a1d3e4f500000001".
Definition driver1 : string := "64b7f0c2a1d3e4f500000002".
Definition stranger : string := "64b7f0c2a1d3e4f500000003".
Definition delivery1 : string := "64b7f0c2a1d3e4f500000009".
Definition account (role : UserRole) : Account :=
  mkAccount "a@example.com" "p" "A" "B" role ACTIVE None None true None None None false None None.
Definition trip (driver : option string) : Delivery :=
  mkDelivery None driver None None (Some sender1) None None None JNull JNull JNull JNull None None None None
    None None None DeliveryStatus.ASSIGNED None None None None false None None 0 0.
Definition chat0 : Chat :=
  mkChat (mkAccounts (empty_world 1700000000000 <| deliveries := {[delivery1 := trip (Some driver1)]} |>)
            {[sender1 := account USER; driver1 := account DRIVER; stranger := account USER]} ∅ ∅) ∅.

Definition room1 : string := delivery_room delivery1.
Definition hello : option json := Some (JObj [("deliveryId", JStr delivery1); ("content", JStr " hello ")]).
Definition events : list socket_event :=
  [ev_connect (Some (JStr sender1)); ev_connect (Some (JStr driver1)); ev_connect (Some (JStr stranger));
   ev_join_room "socket-0" (JStr room1); ev_join_room "socket-1" (JStr room1); ev_join_room "socket-2" (JStr room1);
   ev_message "socket-0" hello; ev_typing "socket-2" hello].
(** Three connections, then the joins step by step in turn, then the rest. *)
Definition schedule : list nat :=
  [0; 1; 2; 3; 4; 5; 3; 5; 4; 3; 4; 5; 3; 4; 5; 3; 4; 5; 3; 4; 5; 6; 6; 6; 6; 6; 6; 6; 6; 7; 8; 8; 8; 8; 8]%nat.
(** Beside the sockets, a message is stored over HTTP. *)
Definition over_http : prog Server unit :=
  _ ← on_chat (createDeliveryMessage delivery1 driver1 (Some (JObj [("content", JStr "on my way")]))); mret tt.
Lemma over_http_confined p : p ∈ [over_http] → confined server_step p.
Proof.
  intros ->%list_elem_of_singleton. apply confined_bind; [|done]. eapply confined_mono;
    [|apply (confined_on_chat ev_tick), confined_createDeliveryMessage]. intros w w'. by apply does_step.
Qed.
Definition after : Server :=
  (interleave schedule ((handle <$> events) ++ [over_http]) (initializeSocketServer chat0)).2.

(** The parties are in the room and got the message, the stranger did neither. *)
Lemma delivery_rooms_private_witness :
  (in_room "socket-1" room1 after = true ∧ in_room "socket-2" room1 after = false) ∧
  (∃ u, user_of "socket-1" after = Some u ∧ has_access u delivery1 (sv_chat after) = true) ∧
  (∃ p, p ∈ outbox after ∧ (pk_to p).*1 = ["socket-1"; "socket-0"] ∧ about (pk_event p) = Some delivery1 ∧
     ∃ u, Some driver1 = Some u ∧ has_access u delivery1 (sv_chat after) = true).
Proof.
  pose proof (delivery_rooms_private chat0 schedule events [over_http] over_http_confined) as [Hrooms Hpackets].
  split; [vm_compute; by split|]. split.
  - destruct (Hrooms "socket-1" (default (mkSocket 0 None None) (live after !! "socket-1")) delivery1) as (u & Hu & Ha).
    + vm_compute. reflexivity.
    + apply in_room_spec. vm_compute. reflexivity.
    + exists u. split; [|exact Ha]. unfold user_of. by destruct (live after !! "socket-1").
  - set (p := List.nth 1 (outbox after) (mkPacket [] sv_auth_expired)).
    exists p. split; [apply list_elem_of_In, nth_In; vm_compute; lia|].
    split; [vm_compute; reflexivity|]. split; [vm_compute; reflexivity|].
    apply (Hpackets p delivery1 "socket-1" (Some driver1)).
    + apply list_elem_of_In, nth_In. vm_compute. lia.
    + vm_compute. reflexivity.
    + apply (list_elem_of_lookup_2 _ 0). vm_compute. reflexivity.
Defined.

Lemma registry_mirrors_sockets_witness :
  (connections after).*1 = ["socket-0"; "socket-1"; "socket-2"] ∧
  ∃ s m, live after !! "socket-0" = Some s ∧ meta_of "socket-0" after = Some m ∧
    so_userId s = truthy_string (cn_userId m) ∧ (∀ r, r ∈ cn_rooms m ↔ r ∈ rooms_of "socket-0" after).
Proof.
  assert (∀ id s m, live after !! id = Some s → meta_of id after = Some m →
    so_userId s = truthy_string (cn_userId m) ∧ so_tokenExp s = truthy_number (cn_tokenExp m) ∧
    (∀ r, r ∈ cn_rooms m ↔ r ∈ rooms_of id after) ∧ (0 ≤ missedPongs m ≤ SOCKET_MAX_MISSED_PONGS)%Z) as Hm
    by exact (proj1 (proj2 (proj2 (registry_mirrors_sockets chat0 schedule events [over_http] over_http_confined)))).
  split; [vm_compute; reflexivity|].
  exists (default (mkSocket 0 None None) (live after !! "socket-0")),
    (default (mkMeta None 0 0 0 [] None) (meta_of "socket-0" after)).
  assert (live after !! "socket-0" = Some (default (mkSocket 0 None None) (live after !! "socket-0"))) as Hl
    by (vm_compute; reflexivity).
  assert (meta_of "socket-0" after = Some (default (mkMeta None 0 0 0 [] None) (meta_of "socket-0" after))) as Hme
    by (vm_compute; reflexivity).
  destruct (Hm "socket-0" _ _ Hl Hme) as (Hu & _ & Hr & _).
  exact (conj Hl (conj Hme (conj Hu Hr))).
Defined.

(** One connection, and three health checks without a pong. *)
Definition idle : Server := run_events [ev_connect (Some (JStr sender1))] (initializeSocketServer chat0).
Definition quiet : list socket_event :=
  [ev_tick; ev_join_room "socket-0" (JStr room1); ev_tick; ev_pong "socket-1" None; ev_tick].
Lemma silent_clients_evicted_witness :
  is_Some (live (run_events [ev_tick; ev_tick] idle) !! "socket-0") ∧
  live (run_events quiet idle) !! "socket-0" = None ∧ meta_of "socket-0" (run_events quiet idle) = None.
Proof.
  split; [vm_compute; by eexists|]. apply (silent_clients_evicted quiet "socket-0" idle).
  - apply (ss_ok (initializeSocketServer chat0)); [|apply initial_ok].
    apply (handled_step (ev_connect (Some (JStr sender1)))), initial_ok.
  - vm_compute. reflexivity.
  - vm_compute. by eexists.
  - intros p Hin. rewrite list_elem_of_In in Hin. cbn in Hin. intuition congruence.
  - vm_compute. reflexivity.
Defined.

(** The sender speaks in the room. *)
Definition joined1 : Server := run_events [ev_join_room "socket-0" (JStr room1)] idle.
Lemma message_correct_witness :
  let '(r, w') := run (on_message "socket-0" hello) joined1 in
  r = inr tt ∧ cm_content <$> messages (sv_chat w') !! message_id (sv_chat joined1) = Some "hello".
Proof.
  assert (server_ok joined1) as Hok.
  { apply (ss_ok (initializeSocketServer chat0)); [|apply initial_ok].
    etrans; [apply (handled_step (ev_connect (Some (JStr sender1)))), initial_ok|].
    apply (handled_step (ev_join_room "socket-0" (JStr room1)) idle).
    apply (handled_step (ev_connect (Some (JStr sender1)))); apply initial_ok. }
  pose proof (message_correct "socket-0" hello joined1 Hok) as Hm.
  destruct (run (on_message "socket-0" hello) joined1) as [r w'] eqn:Hrun.
  destruct Hm as [Hr _]; [vm_compute; reflexivity|]. split; [exact Hr|].
  change w' with (r, w').2. rewrite <-Hrun. vm_compute. reflexivity.
Defined.

(** A driver who is taken off the delivery stays in its room: access is checked
    when a room is joined and not again. *)
Definition taken_off : Server :=
  put_chat (put_world (world (sv_chat after) <| deliveries := {[delivery1 := trip None]} |>) (sv_chat after)) after.
Example access_outlives_assignment :
  has_access driver1 delivery1 (sv_chat taken_off) = false ∧
  (∃ p, last (outbox (run_events [ev_message "socket-0" hello] taken_off)) = Some p ∧
     ("socket-1", Some driver1) ∈ pk_to p ∧ about (pk_event p) = Some delivery1).
Proof.
  split; [vm_compute; reflexivity|]. eexists. split; [vm_compute; reflexivity|].
  split; [apply (list_elem_of_lookup_2 _ 0); reflexivity|reflexivity].
Qed.

(** A user with two sockets: when one goes, what was delivered on the other is
    pending again. *)
Definition twice : Server :=
  run_events [ev_enqueue driver1 "delivery:offer" (JStr "d1") no_options; ev_connect (Some (JStr driver1));
              ev_connect (Some (JStr driver1)); ev_disconnect "socket-0"] (initializeSocketServer chat0).
Example other_socket_disconnects :
  is_Some (live twice !! "socket-1") ∧ emitters (sv_queue twice) !! driver1 = None ∧
  m_status <$> getPending driver1 (sv_queue twice) = [m_pending].
Proof. vm_compute. split; [by eexists|by split]. Qed.

(** A token of anybody keeps a connection alive. *)
Definition borrowed : Server :=
  run_events [ev_refresh_token "socket-0" (Some (JObj [("token", JStr stranger)]))] idle.
Example refreshed_by_another_user :
  user_of "socket-0" borrowed = Some sender1 ∧ is_Some (live borrowed !! "socket-0" ≫= so_tokenExp).
Proof. vm_compute. split; [done|by eexists]. Qed.

(** A pong without a payload is an uncaught exception. *)
Example pong_without_payload :
  (run (handle (ev_pong "socket-0" None)) idle).1 = inl (Json.type_error "timestamp").
Proof. vm_compute. reflexivity. Qed.
End SocketExamples.
