(* ===== verification/Fleets.v ===== *)
(** * Fleets ([src/src/services/fleetService.ts],
      [src/src/controllers/fleetController.ts], [src/src/models/Fleet.ts],
      [src/src/models/FleetInvitation.ts], [src/src/routes/fleetRoutes.ts])

    Fleets of enterprise owners, their members, the invitations of drivers and
    the metrics over a fleet's deliveries.  A handler takes the authenticated
    user; ids and roles of a request are strings.  What an update does to a
    document is decided by the database driver, so it is a field of [FleetEnv];
    populated paths of the replies are left out. *)
From S2P Require Import Prelude JsLib Models Repositories Pagination QueryOptions Onboarding Accounts.
From Stdlib Require Import Ascii.

(** ** Data *)
Record FleetAddress := mkAddress {
  fa_street : option string;
  fa_city : option string;
  fa_country : option string;
  fa_postalCode : option string
}.
Record FleetMetadata := mkFleetMetadata {
  fm_companyName : string;
  fm_industry : option string;
  fm_registrationNumber : option string;
  fm_vatNumber : option string;
  fm_address : FleetAddress;
  fm_contactEmail : string;
  fm_contactPhone : option string;
  fm_website : option string
}.
Record IMember := mkMember { mb_userId : string; mb_role : string; mb_joinedAt : Z }.
#[export] Instance IMember_eq_dec : EqDecision IMember.
Proof. solve_decision. Defined.

Record IFleet := mkIFleet {
  ft_name : string;
  ft_treasuryAddress : string;
  ft_ownerId : string;
  ft_members : list IMember;
  ft_businessMetadata : FleetMetadata;
  ft_isActive : bool;
  ft_drivers : list string;
  ft_createdAt : Z;
  ft_updatedAt : Z;
  ft_version : nat
}.
#[export] Instance IFleet_eta : Settable IFleet := λ f,
  mkIFleet f.(ft_name) f.(ft_treasuryAddress) f.(ft_ownerId) f.(ft_members) f.(ft_businessMetadata)
    f.(ft_isActive) f.(ft_drivers) f.(ft_createdAt) f.(ft_updatedAt) f.(ft_version).

Inductive FleetInvitationStatus := inv_pending | inv_accepted | inv_declined.
#[export] Instance FleetInvitationStatus_eq_dec : EqDecision FleetInvitationStatus.
Proof. solve_decision. Defined.
Definition invitation_status_string (s : FleetInvitationStatus) : string :=
  match s with inv_pending => "pending" | inv_accepted => "accepted" | inv_declined => "declined" end.

Record IFleetInvitation := mkInvitation {
  fi_fleetId : string;
  fi_driverId : string;
  fi_invitedBy : string;
  fi_status : FleetInvitationStatus;
  fi_respondedAt : option Z
}.
#[export] Instance IFleetInvitation_eta : Settable IFleetInvitation := λ i,
  mkInvitation i.(fi_fleetId) i.(fi_driverId) i.(fi_invitedBy) i.(fi_status) i.(fi_respondedAt).

Record FleetWorld := mkFleetWorld {
  fw_accounts : Accounts;
  fleetDocs : gmap string IFleet;
  invitations : gmap string IFleetInvitation
}.
#[export] Instance FleetWorld_eta : Settable FleetWorld := λ w,
  mkFleetWorld w.(fw_accounts) w.(fleetDocs) w.(invitations).

(** What is written before validation: a document as it was given. *)
Record FleetDraft := mkDraft {
  dr_name : option string;
  dr_treasuryAddress : option string;
  dr_ownerId : string;
  dr_members : list IMember;
  dr_businessMetadata : option FleetMetadata
}.

Record FleetMetrics := mkMetrics {
  fx_fleetId : string;
  fx_driverCount : Z;
  fx_totalDeliveries : Z;
  fx_completedDeliveries : Z;
  fx_totalEscrowValue : number
}.

(** [sendSuccess(res, data, message, statusCode)]. *)
Record Reply (A : Type) := mkReply { rp_data : A; rp_message : string; rp_status : Z }.
Arguments mkReply {A}. Arguments rp_data {A}. Arguments rp_message {A}. Arguments rp_status {A}.
Definition CREATED : Z := 201.

Class FleetEnv := {
  (** A document after the update with a request's fields at a time, when the
      casts and the validators of these fields accept it. *)
  apply_update : list (string * json) → Z → IFleet → option IFleet
}.

(** An update touches the paths it names only.  A field names a path when it is
    the path or a path below it; a field with a dollar is an operator. *)
Definition names (k path : string) : bool := String.eqb k path || Str.startsWith k (path +:+ ".").
Definition plain (u : list (string * json)) : bool := negb (some (λ kv, Str.startsWith kv.1 "$") u).
Definition untouched (u : list (string * json)) (path : string) : bool :=
  plain u && negb (some (λ kv, names kv.1 path) u).
Class FleetEnvOk `{FleetEnv} : Prop := {
  update_owner u t f f' : untouched u "ownerId" = true → apply_update u t f = Some f' → ft_ownerId f' = ft_ownerId f;
  update_members u t f f' : untouched u "members" = true → untouched u "__v" = true →
    apply_update u t f = Some f' → ft_members f' = ft_members f ∧ ft_version f' = ft_version f;
  update_drivers u t f f' : untouched u "drivers" = true → apply_update u t f = Some f' → ft_drivers f' = ft_drivers f
}.

Section Fleets.
Context `{Env, QueryEnv, AccountEnv, FleetEnv}.

Abbreviation fleeting := (prog FleetWorld).

Definition put_fw_accounts (a : Accounts) (w : FleetWorld) : FleetWorld := mkFleetWorld a (fleetDocs w) (invitations w).
Definition on_fw_accounts {A} (p : prog Accounts A) : fleeting A := zoom fw_accounts put_fw_accounts p.
Definition fleet_now : fleeting Z := on_fw_accounts ac_now.
Definition fleet_fresh : fleeting string := on_fw_accounts (on_base fresh_id).
Definition time_of (w : FleetWorld) : Z := now_ms (ac_base (fw_accounts w)).

(** ** The schemas *)

(** The cast of a value to a string path: [None] is a cast error, [Some None] an
    absent value; an object counts by the text of its [_id]. *)
Definition cast_string (v : option json) : option (option string) :=
  match v with
  | None | Some JNull => Some None
  | Some (JArr _) => None
  | Some (JObj _ as o) => match Json.field "_id" o with Some (JStr s) => Some (Some s) | _ => None end
  | Some v => Some (Some (Json.to_text v))
  end.
Definition trimmed (v : option json) : option (option string) := option_map (option_map Str.trim) (cast_string v).

(** [x || '']. *)
Definition or_empty (v : option json) : option json := if Json.truthy v then v else Some (JStr "").

Definition cast_address (v : option json) : option FleetAddress :=
  match (if Json.truthy v then v else Some (JObj [])) with
  | Some (JObj _ as o) =>
      street ← trimmed (Json.field "street" o);
      city ← trimmed (Json.field "city" o);
      country ← trimmed (Json.field "country" o);
      postalCode ← trimmed (Json.field "postalCode" o);
      Some (mkAddress street city country postalCode)
  | Some (JArr _) => Some (mkAddress None None None None)
  | _ => None
  end.

(** A required text: there after trimming. *)
Definition required (v : option (option string)) : option string :=
  match v with Some (Some s) => if Str.truthy s then Some s else None | _ => None end.

(** The business metadata the controller writes, if it is valid. *)
Definition cast_metadata (m : json) : option FleetMetadata :=
  companyName ← required (trimmed (Json.field "companyName" m));
  industry ← trimmed (or_empty (Json.field "industry" m));
  registrationNumber ← trimmed (or_empty (Json.field "registrationNumber" m));
  vatNumber ← trimmed (or_empty (Json.field "vatNumber" m));
  address ← cast_address (Json.field "address" m);
  contactEmail ← required (option_map (option_map Str.toLowerCase) (trimmed (Json.field "contactEmail" m)));
  contactPhone ← trimmed (or_empty (Json.field "contactPhone" m));
  website ← trimmed (or_empty (Json.field "website" m));
  if email_ok contactEmail
  then Some (mkFleetMetadata companyName industry registrationNumber vatNumber address contactEmail contactPhone website)
  else None.

Definition MEMBER_ROLES : list string := ["admin"; "driver"; "viewer"].

(** The hook before the first save makes the owner a member. *)
Definition with_owner_member (owner : string) (t : Z) (l : list IMember) : list IMember :=
  if some (λ m, String.eqb (mb_userId m) owner) l then l else l ++ [mkMember owner "admin" t].

Definition validate_draft (d : FleetDraft) (t : Z) : option IFleet :=
  name ← required (option_map Some (option_map Str.trim (dr_name d)));
  treasury ← required (option_map Some (option_map Str.trim (dr_treasuryAddress d)));
  meta ← dr_businessMetadata d;
  if length_between 2 100 name && fleet_treasury_ok treasury
     && forallb (λ m, includes (mb_role m) MEMBER_ROLES) (dr_members d)
  then Some (mkIFleet name treasury (dr_ownerId d) (with_owner_member (dr_ownerId d) t (dr_members d)) meta true [] t t 0)
  else None.

(** The unique index on treasuries. *)
Definition treasury_taken (id treasury : string) (m : gmap string IFleet) : bool :=
  some (λ kv, negb (String.eqb kv.1 id) && String.eqb (ft_treasuryAddress kv.2) treasury) (map_to_list m).

Definition fleet_invalid : error := PlainError "Fleet validation failed".

Definition create_doc (d : FleetDraft) : fleeting (hydrated IFleet) :=
  id ← fleet_fresh;
  t ← fleet_now;
  f ← or_throw (validate_draft d t) fleet_invalid;
  atomic_try (λ w,
    if bool_decide (is_Some (fleetDocs w !! id)) || treasury_taken id (ft_treasuryAddress f) (fleetDocs w)
    then (inl DuplicateKey, w)
    else (inr (Doc id f), w <| fleetDocs ::= <[id := f]> |>)).

(** At most one pending invitation of a driver to a fleet: the partial index. *)
Definition pending_for (fleetId driverId : string) (i : IFleetInvitation) : bool :=
  String.eqb (fi_fleetId i) fleetId && String.eqb (fi_driverId i) driverId && bool_decide (fi_status i = inv_pending).

Definition create_invitation (fleetId driverId invitedBy : string) : fleeting (hydrated IFleetInvitation) :=
  id ← fleet_fresh;
  let i := mkInvitation fleetId driverId invitedBy inv_pending None in
  atomic_try (λ w,
    if bool_decide (is_Some (invitations w !! id))
       || some (λ kv, pending_for fleetId driverId kv.2) (map_to_list (invitations w))
    then (inl DuplicateKey, w)
    else (inr (Doc id i), w <| invitations ::= <[id := i]> |>)).

Definition find_fleet (id : string) : fleeting (option (hydrated IFleet)) := reads (λ w, find_by_id id (fleetDocs w)).

Definition not_found_on_save : error := PlainError "No document found for query".
(** A save sends what changed: an atomic step on the stored document. *)
Definition save_fleet (id : string) (check : IFleet → bool) (f : Z → IFleet → IFleet) : fleeting unit :=
  atomic_try (λ w,
    match fleetDocs w !! id with
    | Some d => if check d then (inr tt, w <| fleetDocs ::= <[id := f (time_of w) d <| ft_updatedAt := time_of w |>]> |>)
                else (inl (PlainError "No matching document found for id and version"), w)
    | None => (inl not_found_on_save, w)
    end).

(** ** The service *)
Definition fleet_bad_id (what : string) : error := AppError ("Invalid " +:+ what +:+ " ID format.") Http.BAD_REQUEST.
Definition fleet_not_found : error := AppError "Fleet not found." Http.NOT_FOUND.
Definition owner_only (what : string) : error := AppError ("Only the fleet owner can " +:+ what +:+ ".") Http.FORBIDDEN.
Definition duplicate_name : error := AppError "You already have a fleet with this name." Http.CONFLICT.

Definition named_fleet (ownerId name : string) (f : IFleet) : bool :=
  String.eqb (ft_ownerId f) ownerId && String.eqb (ft_name f) (Str.trim name).

(** The service's own creation gives neither a treasury nor metadata. *)
Definition svc_createFleet (ownerId name : string) : fleeting (hydrated IFleet) :=
  _ ← throw_if (negb (isValidObjectId ownerId)) (fleet_bad_id "owner");
  found ← on_fw_accounts (find_account ownerId);
  owner ← or_throw found (AppError "Owner not found." Http.NOT_FOUND);
  _ ← throw_if (negb (bool_decide (ac_role (body owner) = ENTERPRISE)))
        (AppError "Only enterprise users can create fleets." Http.FORBIDDEN);
  existing ← reads (λ w, find_one (named_fleet ownerId name) (fleetDocs w));
  _ ← throw_if (bool_decide (is_Some existing)) duplicate_name;
  create_doc (mkDraft (Some (Str.trim name)) None ownerId [] None).

Definition svc_inviteDriver (fleetId driverId invitedBy : string) : fleeting (hydrated IFleetInvitation) :=
  _ ← throw_if (negb (isValidObjectId fleetId)) (fleet_bad_id "fleet");
  _ ← throw_if (negb (isValidObjectId driverId)) (fleet_bad_id "driver");
  found ← find_fleet fleetId;
  fleet ← or_throw found fleet_not_found;
  _ ← throw_if (negb (String.eqb (ft_ownerId (body fleet)) invitedBy)) (owner_only "invite drivers");
  user ← on_fw_accounts (find_account driverId);
  driver ← or_throw user (AppError "Driver not found." Http.NOT_FOUND);
  _ ← throw_if (negb (bool_decide (ac_role (body driver) = DRIVER)))
        (AppError "The invited user is not registered as a driver." Http.UNPROCESSABLE_ENTITY);
  _ ← throw_if (some (String.eqb driverId) (ft_drivers (body fleet)))
        (AppError "This driver is already a member of the fleet." Http.CONFLICT);
  existingPending ← reads (λ w, find_one (pending_for fleetId driverId) (invitations w));
  _ ← throw_if (bool_decide (is_Some existingPending))
        (AppError "This driver already has a pending invitation to this fleet." Http.CONFLICT);
  create_invitation fleetId driverId invitedBy.

Definition answered (accept : bool) (t : Z) (i : IFleetInvitation) : IFleetInvitation :=
  i <| fi_status := if accept then inv_accepted else inv_declined |> <| fi_respondedAt := Some t |>.

(** [invitation.save()] after the two assignments. *)
Definition save_answer (id : string) (accept : bool) (t : Z) : fleeting unit :=
  atomic_try (λ w,
    match invitations w !! id with
    | Some i => (inr tt, w <| invitations ::= <[id := answered accept t i]> |>)
    | None => (inl not_found_on_save, w)
    end).

(** [$addToSet: { drivers: driverId }], if the fleet is there. *)
Definition add_to_set (d : string) (l : list string) : list string := if includes d l then l else l ++ [d].
Definition add_driver (fleetId driverId : string) : fleeting unit :=
  writes (λ w, w <| fleetDocs ::= alter (λ f, f <| ft_drivers ::= add_to_set driverId |> <| ft_updatedAt := time_of w |>) fleetId |>).

Definition svc_respondToInvitation (invitationId driverId : string) (accept : bool)
    : fleeting (hydrated IFleetInvitation) :=
  _ ← throw_if (negb (isValidObjectId invitationId)) (fleet_bad_id "invitation");
  found ← reads (λ w, find_by_id invitationId (invitations w));
  inv ← or_throw found (AppError "Invitation not found." Http.NOT_FOUND);
  _ ← throw_if (negb (String.eqb (fi_driverId (body inv)) driverId))
        (AppError "You do not have permission to respond to this invitation." Http.FORBIDDEN);
  _ ← throw_if (negb (bool_decide (fi_status (body inv) = inv_pending)))
        (AppError ("This invitation has already been " +:+ invitation_status_string (fi_status (body inv)) +:+ ".")
           Http.CONFLICT);
  t ← fleet_now;
  _ ← save_answer invitationId accept t;
  _ ← (if accept then add_driver (fi_fleetId (body inv)) (fi_driverId (body inv)) else mret tt);
  mret (Doc invitationId (answered accept t (body inv))).

(** The aggregation over the deliveries of a fleet's drivers. *)
Definition of_drivers (l : list string) (d : Delivery) : bool :=
  match driverId d with Some x => includes x l | None => false end.
Definition xlm_value (d : Delivery) : number :=
  if String.eqb (nullish (code <$> escrowAsset d) "XLM") "XLM" then nullish (escrowAmount d) Num.zero else Num.zero.
Definition is_completed (d : Delivery) : bool := bool_decide (status d = DeliveryStatus.COMPLETED).

Definition totals_of (fleetId : string) (drivers : list string) (ds : list Delivery) : FleetMetrics :=
  mkMetrics fleetId (Z.of_nat (length drivers)) (Z.of_nat (length ds)) (Z.of_nat (length (List.filter is_completed ds)))
    (fold_left (λ acc d, Num.add acc (xlm_value d)) ds Num.zero).

Definition metrics_of (fleetId : string) (drivers : list string) : fleeting FleetMetrics :=
  if bool_decide (drivers = []) then mret (mkMetrics fleetId 0 0 0 Num.zero)
  else ds ← reads (λ w, map body (find_all (of_drivers drivers) (deliveries (ac_base (fw_accounts w)))));
       mret (totals_of fleetId drivers ds).

Definition svc_getFleetMetrics (fleetId requesterId : string) : fleeting FleetMetrics :=
  _ ← throw_if (negb (isValidObjectId fleetId)) (fleet_bad_id "fleet");
  found ← find_fleet fleetId;
  fleet ← or_throw found fleet_not_found;
  _ ← throw_if (negb (String.eqb (ft_ownerId (body fleet)) requesterId)) (owner_only "view fleet metrics");
  metrics_of fleetId (ft_drivers (body fleet)).

(** ** The handlers *)
Abbreviation caller := (option (hydrated Account)).
Definition authenticated (u : caller) : fleeting (hydrated Account) :=
  or_throw u (AppError "Authentication required." Http.UNAUTHORIZED).

(** [!v || typeof v !== 'string']. *)
Definition given_string (v : option json) : option string :=
  match v with Some (JStr s) => if Str.truthy s then Some s else None | _ => None end.

Definition createFleet (u : caller) (req : json) : fleeting (Reply (hydrated IFleet)) :=
  owner ← authenticated u;
  let short := AppError "A fleet name of at least 2 characters is required." Http.BAD_REQUEST in
  name ← or_throw (given_string (Json.field "name" req)) short;
  _ ← throw_if (Str.length (Str.trim name) <? 2)%Z short;
  treasury ← or_throw (given_string (Json.field "treasuryAddress" req))
               (AppError "Treasury address is required." Http.BAD_REQUEST);
  _ ← throw_if (negb (fleet_treasury_ok (Str.trim treasury)))
        (AppError "Treasury address must be a valid Stellar public key." Http.BAD_REQUEST);
  meta ← or_throw (match Json.field "businessMetadata" req with
                   | Some (JObj l) => Some (JObj l) | Some (JArr l) => Some (JArr l) | _ => None
                   end) (AppError "Business metadata is required." Http.BAD_REQUEST);
  existing ← reads (λ w, find_one (named_fleet (_id owner) name) (fleetDocs w));
  _ ← throw_if (bool_decide (is_Some existing)) duplicate_name;
  t ← fleet_now;
  fleet ← create_doc (mkDraft (Some (Str.trim name)) (Some (Str.trim treasury)) (_id owner)
                        [mkMember (_id owner) "admin" t] (cast_metadata meta));
  mret (mkReply fleet "Fleet created successfully." CREATED).

Definition inviteDriver (u : caller) (fleetId : string) (driverId : option json)
    : fleeting (Reply (hydrated IFleetInvitation)) :=
  owner ← authenticated u;
  d ← or_throw (given_string driverId) (AppError "driverId is required." Http.BAD_REQUEST);
  i ← svc_inviteDriver fleetId d (_id owner);
  mret (mkReply i "Invitation sent successfully." CREATED).

Definition respondToInvitation (u : caller) (invitationId : string) (accept : option json)
    : fleeting (Reply (hydrated IFleetInvitation)) :=
  driver ← authenticated u;
  a ← or_throw (match accept with Some (JBool b) => Some b | _ => None end)
        (AppError "accept must be a boolean value." Http.BAD_REQUEST);
  i ← svc_respondToInvitation invitationId (_id driver) a;
  mret (mkReply i ("Invitation " +:+ invitation_status_string (fi_status (body i)) +:+ " successfully.") Http.OK).

Definition getFleetMetrics (u : caller) (fleetId : string) : fleeting (Reply FleetMetrics) :=
  owner ← authenticated u;
  m ← svc_getFleetMetrics fleetId (_id owner);
  mret (mkReply m "Fleet metrics retrieved successfully" Http.OK).

Definition getFleetById (u : caller) (id : string) : fleeting (Reply (hydrated IFleet)) :=
  _ ← authenticated u;
  _ ← throw_if (negb (isValidObjectId id)) (fleet_bad_id "fleet");
  found ← find_fleet id;
  fleet ← or_throw found fleet_not_found;
  mret (mkReply fleet "Fleet retrieved successfully" Http.OK).

(** The checks of the operations on one fleet that only its owner may do. *)
Definition owned_fleet (user : hydrated Account) (id what : string) : fleeting (hydrated IFleet) :=
  found ← find_fleet id;
  fleet ← or_throw found fleet_not_found;
  _ ← throw_if (negb (String.eqb (ft_ownerId (body fleet)) (_id user))) (owner_only what);
  mret fleet.

(** [delete updateData.ownerId], [_id], [createdAt], [members]. *)
Definition PROTECTED_FIELDS : list string := ["ownerId"; "_id"; "createdAt"; "members"].
Definition unprotected (u : list (string * json)) : list (string * json) :=
  List.filter (λ kv, negb (includes kv.1 PROTECTED_FIELDS)) u.

Definition updateFleet (u : caller) (id : string) (req : list (string * json)) : fleeting (Reply (option (hydrated IFleet))) :=
  user ← authenticated u;
  _ ← throw_if (negb (isValidObjectId id)) (fleet_bad_id "fleet");
  _ ← owned_fleet user id "update this fleet";
  t ← fleet_now;
  updated ← atomic_try (λ w,
    match fleetDocs w !! id with
    | None => (inr None, w)
    | Some f =>
        match apply_update (unprotected req) t f with
        | None => (inl fleet_invalid, w)
        | Some f' => if treasury_taken id (ft_treasuryAddress f') (fleetDocs w) then (inl DuplicateKey, w)
                     else (inr (Some (Doc id f')), w <| fleetDocs ::= <[id := f']> |>)
        end
    end);
  mret (mkReply updated "Fleet updated successfully." Http.OK).

Definition deleteFleet (u : caller) (id : string) : fleeting (Reply unit) :=
  user ← authenticated u;
  _ ← throw_if (negb (isValidObjectId id)) (fleet_bad_id "fleet");
  fleet ← owned_fleet user id "delete this fleet";
  _ ← (if ft_isActive (body fleet) then save_fleet id (λ _, true) (λ _, set ft_isActive (λ _, false)) else mret tt);
  mret (mkReply tt "Fleet deleted successfully." Http.OK).

(** A push to an array counts the version up, whatever it is. *)
Definition push_member (m : IMember) (f : IFleet) : IFleet :=
  f <| ft_members ::= (.++ [m]) |> <| ft_version ::= S |>.

Definition addMember (u : caller) (id : string) (userId role : option string) : fleeting (Reply (hydrated IFleet)) :=
  user ← authenticated u;
  uid ← or_throw (match userId with Some s => if Str.truthy s then Some s else None | None => None end)
          (AppError "userId is required." Http.BAD_REQUEST);
  _ ← throw_if (negb (isValidObjectId id) || negb (isValidObjectId uid)) (AppError "Invalid ID format." Http.BAD_REQUEST);
  found ← on_fw_accounts (find_account uid);
  _ ← or_throw found (AppError "User not found." Http.NOT_FOUND);
  fleet ← owned_fleet user id "add members";
  _ ← throw_if (some (λ m, String.eqb (mb_userId m) uid) (ft_members (body fleet)))
        (AppError "User is already a member of this fleet." Http.CONFLICT);
  t ← fleet_now;
  let m := mkMember uid (nullish role "driver") t in
  _ ← throw_if (negb (includes (mb_role m) MEMBER_ROLES)) fleet_invalid;
  _ ← save_fleet id (λ _, true) (λ _, push_member m);
  mret (mkReply (Doc id (push_member m (body fleet))) "Member added successfully." CREATED).

(** The array without the member at an index replaces the stored one, if that is
    still at the version that was read. *)
Definition drop_member (uid : string) (l : list IMember) : list IMember :=
  match list_find (λ m, mb_userId m = uid) l with
  | Some (i, _) => take i l ++ drop (S i) l
  | None => l
  end.

Definition removeMember (u : caller) (id uid : string) : fleeting (Reply unit) :=
  user ← authenticated u;
  _ ← throw_if (negb (isValidObjectId id) || negb (isValidObjectId uid)) (AppError "Invalid ID format." Http.BAD_REQUEST);
  fleet ← owned_fleet user id "remove members";
  _ ← throw_if (String.eqb (ft_ownerId (body fleet)) uid) (AppError "Cannot remove the fleet owner." Http.BAD_REQUEST);
  _ ← throw_if (negb (some (λ m, String.eqb (mb_userId m) uid) (ft_members (body fleet))))
        (AppError "Member not found in this fleet." Http.NOT_FOUND);
  _ ← save_fleet id (λ f, bool_decide (ft_version f = ft_version (body fleet)))
        (λ _ f, f <| ft_members := drop_member uid (ft_members (body fleet)) |> <| ft_version ::= S |>);
  mret (mkReply tt "Member removed successfully." Http.OK).

(** ** The listing *)
Definition fleetListQuery : QueryFeatureConfig :=
  mkQueryConfig ["createdAt"; "name"] [("isActive", type_boolean)] ["name"] (Some [("createdAt", (-1)%Z)])
    (Some (Num.of_Z 10)) None.

(** A comparison of two truth values, false before true. *)
Definition bool_le (a b : bool) : bool := negb a || b.
Definition bool_operand (v : operand) : option bool := match v with op_boolean b => Some b | _ => None end.
Definition bool_compares (x : bool) (o : FilterOperator * (operand + list operand)) : bool :=
  match o with
  | (op, inl (op_boolean b)) =>
      match op with
      | eq_ => Bool.eqb x b
      | ne_ => negb (Bool.eqb x b)
      | gt_ => negb (bool_le x b)
      | gte_ => bool_le b x
      | lt_ => negb (bool_le b x)
      | lte_ => bool_le x b
      | _ => false
      end
  | (in_, inr l) => includes (Some x) (map bool_operand l)
  | (nin_, inr l) => negb (includes (Some x) (map bool_operand l))
  | _ => false
  end.
(** The route lets only conditions on [isActive] through. *)
Definition meets (f : IFleet) (c : string * condition) : bool :=
  String.eqb c.1 "isActive" &&
  match c.2 with
  | equals (op_boolean b) => Bool.eqb (ft_isActive f) b
  | equals _ => false
  | compares l => forallb (bool_compares (ft_isActive f)) l
  end.

(** A text that contains a pattern without operators, in either case. *)
Fixpoint prefix_of (p l : list ascii) : bool :=
  match p, l with
  | [], _ => true
  | x :: p, y :: l => Ascii.eqb x y && prefix_of p l
  | _, [] => false
  end.
Fixpoint infix_of (p l : list ascii) : bool :=
  prefix_of p l || match l with [] => false | _ :: l => infix_of p l end.
Definition contains_pattern (pattern text : string) : bool :=
  match literal_pattern (Str.chars pattern) with
  | Some p => infix_of (map Str.upper p) (map Str.upper (Str.chars text))
  | None => false
  end.

(** [{ isActive: true, ...filter }]: a condition of the client replaces the
    default, unless it is inside the wrapper of a search. *)
Definition listed (q : FilterQuery) (f : IFleet) : bool :=
  match q with
  | conditions l => (ft_isActive f || some (λ c, String.eqb c.1 "isActive") l) && forallb (meets f) l
  | both l _ pattern => ft_isActive f && forallb (meets f) l && contains_pattern pattern (ft_name f)
  end.

Definition fleet_field_cmp (field : string) (a b : IFleet) : comparison :=
  if String.eqb field "name" then String.compare (ft_name a) (ft_name b)
  else Z.compare (ft_createdAt a) (ft_createdAt b).
Fixpoint fleet_order (sort : list (string * Z)) (a b : hydrated IFleet) : bool :=
  match sort with
  | [] => true
  | (field, d) :: sort =>
      match fleet_field_cmp field (body a) (body b) with
      | Eq => fleet_order sort a b
      | Lt => (0 <? d)%Z
      | Gt => (d <? 0)%Z
      end
  end.

(** The database takes whole numbers of 64 bits. *)
Definition as_int64 (x : number) : error + Z :=
  match Num.trunc x with
  | Some z => if (z <? 2 ^ 63)%Z then inr z else inl (PlainError "Failed to parse number")
  | None => inl (PlainError "Failed to parse number")
  end.

Definition getAllFleets (u : caller) (q : list (string * json)) : fleeting (Reply (list (hydrated IFleet) * PaginationMeta)) :=
  o ← Done (buildQueryOptions fleetListQuery q);
  _ ← authenticated u;
  skip ← Done (as_int64 (Num.mul (Num.sub (qo_page o) (Num.of_Z 1)) (qo_limit o)));
  lim ← Done (as_int64 (qo_limit o));
  all ← reads (λ w, find_all (listed (qo_filter o)) (fleetDocs w));
  mret (mkReply (skip_limit skip lim (sort_by (fleet_order (qo_sort o)) all),
                 buildPaginationMeta (Num.of_Z (Z.of_nat (length all))) (qo_page o) (qo_limit o))
          "Fleets retrieved successfully" Http.OK).

(** ** The routes *)
Definition for_role {A} (r : UserRole) (u : caller) (p : fleeting A) : fleeting A :=
  _ ← Done (requireRole [r] (option_map body u)); p.

Inductive fleet_request :=
  | rq_create (req : json)
  | rq_list (q : list (string * json))
  | rq_get (id : string)
  | rq_update (id : string) (req : list (string * json))
  | rq_delete (id : string)
  | rq_add (id : string) (userId role : option string)
  | rq_remove (id userId : string)
  | rq_invite (id : string) (driverId : option json)
  | rq_respond (invitationId : string) (accept : option json)
  | rq_metrics (id : string).

Definition done_with {A} (p : fleeting A) : fleeting unit := _ ← p; mret tt.

Definition serve (u : hydrated Account) (r : fleet_request) : fleeting unit :=
  let enterprise {A} (p : fleeting A) := done_with (for_role ENTERPRISE (Some u) p) in
  match r with
  | rq_create req => enterprise (createFleet (Some u) req)
  | rq_list q => enterprise (getAllFleets (Some u) q)
  | rq_get id => done_with (getFleetById (Some u) id)
  | rq_update id req => enterprise (updateFleet (Some u) id req)
  | rq_delete id => enterprise (deleteFleet (Some u) id)
  | rq_add id userId role => enterprise (addMember (Some u) id userId role)
  | rq_remove id userId => enterprise (removeMember (Some u) id userId)
  | rq_invite id d => enterprise (inviteDriver (Some u) id d)
  | rq_respond i a => done_with (for_role DRIVER (Some u) (respondToInvitation (Some u) i a))
  | rq_metrics id => enterprise (getFleetMetrics (Some u) id)
  end.

(** ** How fleets evolve while requests of the users [S] run

    [K id u]: nobody removes the member [u] of the fleet [id].  [X id]: an update
    may reach any field of the fleet [id], of which nothing is claimed then. *)
Section Evolution.
Context `{!FleetEnvOk} (users_ : list string) (K : string → string → Prop) (X : string → Prop).

Definition is_member (u : string) (f : IFleet) : Prop := ∃ m, m ∈ ft_members f ∧ mb_userId m = u.

(** A driver has answered an invitation to a fleet. *)
Definition responded (id d : string) (w : FleetWorld) : Prop :=
  ∃ k i, invitations w !! k = Some i ∧ fi_fleetId i = id ∧ fi_driverId i = d ∧ fi_status i ≠ inv_pending.

(** A fleet that belongs to none of the users only gains drivers among them that
    have answered an invitation. *)
Definition guarded (id : string) (f f' : IFleet) (w' : FleetWorld) : Prop :=
  f' <| ft_drivers := ft_drivers f |> <| ft_updatedAt := ft_updatedAt f |> = f ∧
  ∀ d, d ∈ ft_drivers f' → d ∈ ft_drivers f ∨ (d ∈ users_ ∧ responded id d w').

Record fleet_evolves (id : string) (f f' : IFleet) (w' : FleetWorld) : Prop := {
  fe_owner : ft_ownerId f' = ft_ownerId f;
  fe_version : (ft_version f ≤ ft_version f')%nat;
  fe_members : ft_version f' = ft_version f → ft_members f' = ft_members f;
  fe_kept u : K id u → is_member u f → is_member u f';
  fe_guarded : ft_ownerId f ∉ users_ → guarded id f f' w'
}.

Record evolves (w w' : FleetWorld) : Prop := {
  ev_fleet id f : fleetDocs w !! id = Some f →
    ∃ f', fleetDocs w' !! id = Some f' ∧ (¬ X id → fleet_evolves id f f' w');
  ev_inv k i : invitations w !! k = Some i → ∃ i', invitations w' !! k = Some i' ∧
    fi_fleetId i' = fi_fleetId i ∧ fi_driverId i' = fi_driverId i ∧ fi_invitedBy i' = fi_invitedBy i ∧
    (fi_status i ≠ inv_pending → fi_status i' ≠ inv_pending) ∧ (fi_driverId i ∉ users_ → i' = i);
  ev_new k i' : invitations w' !! k = Some i' → invitations w !! k = None →
    fi_invitedBy i' ∈ users_ ∧
    ∃ f, fleetDocs w' !! fi_fleetId i' = Some f ∧ (¬ X (fi_fleetId i') → ft_ownerId f = fi_invitedBy i')
}.

Lemma responded_evolves id d w w' : evolves w w' → responded id d w → responded id d w'.
Proof.
  intros He (k & i & Hi & <- & <- & Hs). destruct (ev_inv _ _ He k i Hi) as (i' & Hi' & H1' & H2' & _ & H3' & _).
  exists k, i'. auto.
Qed.

Lemma fleet_evolves_refl id f w : fleet_evolves id f f w.
Proof. split; try done. intros _. split; [by destruct f|auto]. Qed.

Lemma evolves_same w w' : fleetDocs w' = fleetDocs w → invitations w' = invitations w → evolves w w'.
Proof.
  intros H1' H2'. split.
  - intros id f Hf. exists f. rewrite H1'. split; [done|]. intros _. apply fleet_evolves_refl.
  - intros k i Hi. exists i. rewrite H2'. by split_and!.
  - intros k i Hi Hn. rewrite H2' in Hi. congruence.
Qed.

#[export] Instance evolves_preorder : PreOrder evolves.
Proof.
  split; [intros w; by apply evolves_same|]. intros w1 w2 w3 H12 H23. split.
  - intros id f Hf. destruct (ev_fleet _ _ H12 id f Hf) as (f2 & Hf2 & E12).
    destruct (ev_fleet _ _ H23 id f2 Hf2) as (f3 & Hf3 & E23). exists f3. split; [done|].
    intros HX. specialize (E12 HX). specialize (E23 HX). destruct E12 as [O12 V12 M12 K12 G12], E23 as [O23 V23 M23 K23 G23]. split; [congruence|lia| | |].
    + intros Hv. rewrite M23, M12 by lia. done.
    + intros u Hu Hm. auto.
    + intros Ho. destruct (G12 Ho) as [S12 D12], (G23 ltac:(by rewrite O12)) as [S23 D23]. split.
      * clear -S12 S23. destruct f, f2, f3. unfold set in *. cbn in *. injection S12. injection S23. congruence.
      * intros d [Hd|[Hd Hr]]%D23; [|by right]. destruct (D12 d Hd) as [|[? Hr]]; [by left|]. right.
        split; [done|]. by eapply responded_evolves.
  - intros k i Hi. destruct (ev_inv _ _ H12 k i Hi) as (i2 & Hi2 & A1 & A2 & A3 & A4 & A5).
    destruct (ev_inv _ _ H23 k i2 Hi2) as (i3 & Hi3 & B1 & B2 & B3 & B4 & B5). exists i3.
    split_and!; try congruence; auto. intros Hd. rewrite B5, A5; congruence.
  - intros k i Hi Hn. destruct (invitations w2 !! k) as [i2|] eqn:Hi2.
    + destruct (ev_new _ _ H12 k i2 Hi2 Hn) as (Hs & f & Hf & Ho).
      destruct (ev_inv _ _ H23 k i2 Hi2) as (i3 & Hi3 & B1 & B2 & B3 & _). assert (i3 = i) as -> by congruence.
      rewrite B1, B3. split; [done|]. destruct (ev_fleet _ _ H23 _ f Hf) as (f' & Hf' & E).
      exists f'. split; [done|]. intros HX. rewrite <-(Ho HX). by apply E.
    + by apply (ev_new _ _ H23 k i).
Qed.

(** *** The atomic steps *)
Lemma evolves_create id f w : fleetDocs w !! id = None → evolves w (w <| fleetDocs ::= <[id := f]> |>).
Proof.
  intros Hn. split.
  - intros id' f' Hf'. exists f'. split; [|intros _; apply fleet_evolves_refl]. unfold set. cbn. rewrite lookup_insert_ne; [done|congruence].
  - intros k i Hi. exists i. by split_and!.
  - intros k i Hi Hn'. rec_simpl_in Hi. congruence.
Qed.

Lemma evolves_fleet id f f' w : fleetDocs w !! id = Some f →
  (¬ X id → fleet_evolves id f f' (w <| fleetDocs ::= <[id := f']> |>)) → evolves w (w <| fleetDocs ::= <[id := f']> |>).
Proof.
  intros Hf He. split.
  - intros id' f1 Hf1. unfold set. cbn. destruct (decide (id' = id)) as [->|Hne].
    + rewrite lookup_insert_eq. exists f'. split; [done|]. by simplify_eq.
    + rewrite lookup_insert_ne by done. exists f1. split; [done|]. intros _. apply fleet_evolves_refl.
  - intros k i Hi. exists i. by split_and!.
  - intros k i Hi Hn. rec_simpl_in Hi. congruence.
Qed.

Lemma evolves_invite k i w f : invitations w !! k = None → fi_invitedBy i ∈ users_ →
  fleetDocs w !! fi_fleetId i = Some f → (¬ X (fi_fleetId i) → ft_ownerId f = fi_invitedBy i) →
  evolves w (w <| invitations ::= <[k := i]> |>).
Proof.
  intros Hn Hu Hf Ho. split.
  - intros id f' Hf'. exists f'. split; [done|]. intros _. apply fleet_evolves_refl.
  - intros k' i' Hi'. exists i'. unfold set. cbn. rewrite lookup_insert_ne; [by split_and!|congruence].
  - intros k' i' Hi' Hn'. unfold set in *. cbn in *. apply lookup_insert_Some in Hi' as [[<- <-]|[_ ?]]; [|congruence].
    split; [done|]. by exists f.
Qed.

Lemma evolves_answer k i a t w : invitations w !! k = Some i → fi_driverId i ∈ users_ →
  evolves w (w <| invitations ::= <[k := answered a t i]> |>).
Proof.
  intros Hi Hd. split.
  - intros id f Hf. exists f. split; [done|]. intros _. apply fleet_evolves_refl.
  - intros k' i' Hi'. unfold set. cbn. destruct (decide (k' = k)) as [->|Hne].
    + rewrite lookup_insert_eq. eexists. split; [done|]. simplify_eq. cbn. split_and!; try done. by destruct a.
    + rewrite lookup_insert_ne by done. exists i'. by split_and!.
  - intros k' i' Hi' Hn'. unfold set in *. cbn in *. apply lookup_insert_Some in Hi' as [[<- <-]|[_ ?]]; congruence.
Qed.

Lemma evolves_join id d w : d ∈ users_ → responded id d w →
  evolves w (w <| fleetDocs ::= alter (λ f, f <| ft_drivers ::= add_to_set d |> <| ft_updatedAt := time_of w |>) id |>).
Proof.
  intros Hd Hr. split.
  - intros id' f Hf. unfold set at 1. cbn. destruct (decide (id' = id)) as [->|Hne].
    + rewrite lookup_alter_eq, Hf. cbn. eexists. split; [done|]. intros _. split; try done.
      intros _. split; [by destruct f|]. unfold set. cbn. unfold add_to_set. intros x.
      destruct (includes d (ft_drivers f)); [by left|]. rewrite elem_of_app, list_elem_of_singleton.
      intros [?| ->]; [by left|]. right. split; [done|]. destruct Hr as (k & i & ?). by exists k, i.
    + rewrite lookup_alter_ne by done. exists f. split; [done|]. intros _. apply fleet_evolves_refl.
  - intros k i Hi. exists i. by split_and!.
  - intros k i Hi Hn. rec_simpl_in Hi. congruence.
Qed.
(** *** Changes by the owner *)
Record owner_change (id : string) (f f' : IFleet) : Prop := {
  oc_owner : ft_ownerId f' = ft_ownerId f;
  oc_version : (ft_version f ≤ ft_version f')%nat;
  oc_members : ft_version f' = ft_version f → ft_members f' = ft_members f;
  oc_kept u : K id u → is_member u f → is_member u f'
}.

Lemma evolves_owned id f f' w : fleetDocs w !! id = Some f → (¬ X id → ft_ownerId f ∈ users_ ∧ owner_change id f f') →
  evolves w (w <| fleetDocs ::= <[id := f']> |>).
Proof. intros Hf Ho. apply (evolves_fleet _ _ _ _ Hf). intros HX. destruct (Ho HX) as [? [O1 O2 O3 O4]]. by split. Qed.

(** The fleet [id] is still the one that was read, up to changes of its owner. *)
Record same_since (d f : IFleet) : Prop := {
  ss_owner : ft_ownerId f = ft_ownerId d;
  ss_version : (ft_version d ≤ ft_version f)%nat;
  ss_members : ft_version f = ft_version d → ft_members f = ft_members d
}.
Definition since (id : string) (d : IFleet) (w : FleetWorld) : Prop :=
  ∃ f, fleetDocs w !! id = Some f ∧ (¬ X id → same_since d f).

Lemma since_stable id d w w' : since id d w → evolves w w' → since id d w'.
Proof.
  intros (f & Hf & Hs) He. destruct (ev_fleet _ _ He id f Hf) as (f' & Hf' & E).
  exists f'. split; [done|]. intros HX. destruct (Hs HX) as [Ho Hv Hm], (E HX) as [E1 E2 E3 _ _].
  split; [congruence|lia|]. intros Heq. rewrite E3, Hm by lia. done.
Qed.

Lemma safe_owned user id what w : 
  safe evolves (owned_fleet user id what) w
    (λ r w', ∀ d, r = inr d → ft_ownerId (body d) = _id user ∧ since id (body d) w').
Proof.
  unfold owned_fleet.
  eapply (safe_bind evolves _ _ _ (λ r w', ∀ o d, r = inr o → o = Some d → since id (body d) w')).
  { apply safe_reads; [apply _|]. intros w1 w2 _ H12 o d [= <-] Hd. apply find_by_id_Some in Hd as [_ Hd].
    eapply since_stable; [|done]. exists (body d). by split. }
  2: { intros e w' _ _ d Hd. done. }
  intros o w1 _ Ho.
  eapply (safe_bind evolves _ _ _ (λ r w', ∀ d, r = inr d → since id (body d) w')).
  { apply safe_or_throw; [by intros|]. intros d -> w' Hw d' [= <-]. eapply since_stable; [by eapply Ho|done]. }
  2: { intros e w' _ _ d Hd. done. }
  intros d w2 _ Hd.
  eapply (safe_bind evolves _ _ _ (λ r w', r = inr tt → ft_ownerId (body d) = _id user)).
  { apply safe_throw_if; [by intros|]. intros Hb w' _ _. by apply negb_false_iff, String.eqb_eq in Hb. }
  2: { intros e w' _ _ d' Hd'. done. }
  intros [] w3 Hw3 Ho3. apply safe_ret. intros w' Hw' d' [= <-]. split; [by apply Ho3|].
  eapply since_stable; [|done]. eapply since_stable; [by apply Hd|done].
Qed.

(** *** Footprints *)
Definition within (I : FleetWorld → Prop) : relation FleetWorld := λ w w', I w → evolves w w'.
#[export] Instance within_refl I : Reflexive (within I).
Proof. intros w _. done. Qed.

Lemma confined_fw_accounts {A} I (p : prog Accounts A) : confined (within I) (on_fw_accounts p).
Proof. apply confined_zoom. intros a w _. by apply evolves_same. Qed.

Lemma confined_save id d check f : ft_ownerId d ∈ users_ →
  (∀ t x, same_since d x → check x = true →
     owner_change id x (f t x <| ft_updatedAt := t |>)) →
  confined (within (since id d)) (save_fleet id check f).
Proof.
  intros Hu Hf w. split; [|by destruct (fleetDocs w !! id) as [x|]; [destruct (check x)|]].
  intros (x & Hx & Hs). rewrite Hx. destruct (check x) eqn:Hc; [|done]. cbn [snd].
  apply (evolves_owned _ _ _ _ Hx). intros HX. split; [by rewrite (ss_owner _ _ (Hs HX))|]. by apply Hf, Hc; apply Hs.
Qed.

Lemma confined_create_doc d : confined (within (λ _, True)) (create_doc d).
Proof.
  apply confined_bind; [apply confined_fw_accounts|]. intros id.
  apply confined_bind; [apply confined_fw_accounts|]. intros t.
  apply confined_bind; [apply confined_or_throw|]. intros f w. split; [|by case_match].
  intros _. destruct (bool_decide _ || _) eqn:Hb; [done|]. cbn [snd].
  apply orb_false_iff in Hb as [Hb%bool_decide_eq_false _]. apply evolves_create. by apply eq_None_not_Some.
Qed.

Lemma confined_create_invitation fleetId driverId u d : u ∈ users_ → ft_ownerId d = u →
  confined (within (since fleetId d)) (create_invitation fleetId driverId u).
Proof.
  intros Hu Hd. apply confined_bind; [apply confined_fw_accounts|]. intros id w. split; [|by case_match].
  intros (f & Hf & Hs). destruct (bool_decide _ || _) eqn:Hb; [done|]. cbn [snd].
  apply orb_false_iff in Hb as [Hb%bool_decide_eq_false _].
  apply (evolves_invite _ _ _ f); [by apply eq_None_not_Some|done|done|]. intros HX. by rewrite (ss_owner _ _ (Hs HX)).
Qed.
(** *** The handlers *)
Abbreviation anything := (λ _ _, True).

Lemma safe_free {A} (p : fleeting A) w : confined (within (λ _, True)) p → safe evolves p w anything.
Proof. intros Hp. by apply (confined_from evolves (λ _, True)). Qed.

Lemma safe_then {A B} (p : fleeting A) (k : A → fleeting B) w :
  confined (within (λ _, True)) p → (∀ a w', safe evolves (k a) w' anything) → safe evolves (p ≫= k) w anything.
Proof. intros Hp Hk. eapply (safe_bind evolves); [by apply safe_free|auto|done]. Qed.

Lemma safe_owned_then {B} user id what (k : hydrated IFleet → fleeting B) w :
  (∀ d, ft_ownerId (body d) = _id user → confined (within (since id (body d))) (k d)) →
  safe evolves (owned_fleet user id what ≫= k) w anything.
Proof.
  intros Hk. eapply (safe_bind evolves); [apply safe_owned| |done].
  intros d w' _ Hd. destruct (Hd d eq_refl) as [Ho Hs].
  apply (confined_from evolves (since id (body d))); [by apply since_stable|by apply Hk|done].
Qed.

Ltac footprint :=
  repeat first [ apply confined_create_doc | apply confined_create_invitation | apply confined_throw_if | apply confined_or_throw | apply confined_fw_accounts
               | apply confined_reads; apply _ | apply confined_bind; [|intros ?] | done ].

Lemma safe_createFleet u req w : safe evolves (createFleet (Some u) req) w anything.
Proof. apply safe_free. unfold createFleet, fleet_now. footprint. Qed.

Lemma safe_getAllFleets u q w : safe evolves (getAllFleets (Some u) q) w anything.
Proof. apply safe_free. unfold getAllFleets, authenticated. footprint. Qed.

Lemma safe_getFleetById u id w : safe evolves (getFleetById (Some u) id) w anything.
Proof. apply safe_free. unfold getFleetById, authenticated, find_fleet. footprint. Qed.

Lemma safe_getFleetMetrics u id w : safe evolves (getFleetMetrics (Some u) id) w anything.
Proof.
  apply safe_free. unfold getFleetMetrics, authenticated, svc_getFleetMetrics, find_fleet, metrics_of. footprint.
  case_match; footprint.
Qed.

Lemma authenticated_bind {A} u (k : hydrated Account → fleeting A) : (authenticated (Some u) ≫= k) = k u.
Proof. done. Qed.

Lemma safe_deleteFleet u id w : _id u ∈ users_ → safe evolves (deleteFleet (Some u) id) w anything.
Proof.
  intros Hu. unfold deleteFleet. rewrite authenticated_bind. apply safe_then; [footprint|]. intros _ w1.
  apply safe_owned_then. intros d Ho. apply confined_bind; [|done].
  case_match; [|done]. apply confined_save; [by rewrite Ho|]. by split.
Qed.

(** The paths of an update that the other handlers rely on. *)
Definition off_protected (req : list (string * json)) : bool :=
  forallb (untouched (unprotected req)) ["ownerId"; "members"; "__v"].

Lemma safe_updateFleet u id req w : _id u ∈ users_ → off_protected req = true ∨ X id →
  safe evolves (updateFleet (Some u) id req) w anything.
Proof.
  intros Hu Hreq. unfold updateFleet. rewrite authenticated_bind. apply safe_then; [footprint|]. intros _ w1.
  apply safe_owned_then. intros d Ho. apply confined_bind; [apply confined_fw_accounts|]. intros t.
  apply confined_bind; [|done]. intros w2. split; [|by repeat case_match].
  intros (f & Hf & Hs). rewrite Hf. destruct (apply_update _ t f) as [f'|] eqn:Hup; [|done].
  case_match; [done|]. cbn [snd]. apply (evolves_owned _ _ _ _ Hf). intros HX.
  split; [rewrite (ss_owner _ _ (Hs HX)); congruence|]. destruct Hreq as [Hreq|]; [|done].
  unfold off_protected in Hreq. cbn [forallb] in Hreq. rewrite !andb_true_iff in Hreq. destruct Hreq as (R1 & R2 & R3 & _).
  destruct (update_members _ _ _ _ R2 R3 Hup) as [Hm Hv].
  split; [by eapply update_owner|lia|done|]. intros u' _ (m & Hin & Hmu). exists m. by rewrite Hm.
Qed.

(** Nobody else's fleet is updated, whatever the request holds. *)
Lemma safe_update_reserved u id req f w : fleetDocs w !! id = Some f → ft_ownerId f ≠ _id u →
  ¬ X id → safe evolves (updateFleet (Some u) id req) w anything.
Proof.
  intros Hf Ho HX. unfold updateFleet. rewrite authenticated_bind.
  eapply (safe_bind evolves _ _ _ anything); [apply safe_free; footprint| |done]. intros _ w1 H1' _.
  eapply (safe_bind evolves); [apply safe_owned| |done]. intros d w2 H2' Hd.
  destruct (Hd d eq_refl) as [Hd' (f2 & Hf2 & Hs)].
  assert (evolves w w2) as H12 by by etrans. destruct (ev_fleet _ _ H12 id f Hf) as (f3 & Hf3 & E).
  simplify_eq. destruct Ho. rewrite <-(fe_owner _ _ _ _ (E HX)), (ss_owner _ _ (Hs HX)). congruence.
Qed.

Lemma safe_addMember u id uid role w : _id u ∈ users_ → safe evolves (addMember (Some u) id uid role) w anything.
Proof.
  intros Hu. unfold addMember. rewrite authenticated_bind.
  do 4 (apply safe_then; [footprint|]; intros ? ?). apply safe_owned_then. intros d Ho. footprint.
  apply confined_save; [by rewrite Ho|]. intros t x _ _. unfold push_member. split; rec_simpl; [done|lia|lia|].
  intros u' _ (m & Hin & Hmu). exists m. split; [|done]. apply elem_of_app. by left.
Qed.

(** A removal leaves the other members. *)
Lemma drop_member_other uid l m : m ∈ l → mb_userId m ≠ uid → m ∈ drop_member uid l.
Proof.
  intros Hm Hne. unfold drop_member. destruct (list_find _ l) as [[i x]|] eqn:Hf; [|done].
  apply list_find_Some in Hf as (Hi & Hx & _). rewrite <-(take_drop_middle l i x Hi) in Hm.
  rewrite elem_of_app, elem_of_cons in Hm. rewrite elem_of_app. destruct Hm as [?|[->|?]]; [by left|done|by right].
Qed.

Lemma safe_removeMember u id uid w : _id u ∈ users_ → ¬ K id uid → safe evolves (removeMember (Some u) id uid) w anything.
Proof.
  intros Hu HK. unfold removeMember. rewrite authenticated_bind. apply safe_then; [footprint|]. intros _ w1.
  apply safe_owned_then. intros d Ho. footprint.
  apply confined_save; [by rewrite Ho|]. intros t x [Hx Hv Hm] Hc%bool_decide_eq_true. split; rec_simpl; [done|lia|lia|].
  intros u' Hu' (m & Hin & Hmu). exists m. split; [|done]. rewrite Hm in Hin by done.
  apply drop_member_other; [done|]. intros Heq. apply HK. by rewrite <-Heq, Hmu.
Qed.

(** A fleet that was read and found to be the caller's. *)
Lemma safe_read_owned {B} id (owner : string) e1 e2 (k : hydrated IFleet → fleeting B) w :
  (∀ d, ft_ownerId (body d) = owner → confined (within (since id (body d))) (k d)) →
  safe evolves (found ← find_fleet id; fleet ← or_throw found e1;
                _ ← throw_if (negb (String.eqb (ft_ownerId (body fleet)) owner)) e2; k fleet) w anything.
Proof.
  intros Hk. eapply (safe_bind evolves _ _ _ (λ r w', ∀ d, r = inr (Some d) → since id (body d) w')); [| |done].
  { apply safe_reads; [apply _|]. intros w1 w2 _ H12 d [= Hd]. apply find_by_id_Some in Hd as [_ Hd].
    eapply since_stable; [|done]. exists (body d). by split. }
  intros o w1 _ Ho. destruct o as [d|]; [|done].
  change (or_throw (Some d) e1 ≫= ?f) with (f d). cbv beta.
  apply (confined_from evolves (since id (body d))); [by apply since_stable| |by apply Ho].
  destruct (String.eqb_spec (ft_ownerId (body d)) owner) as [Heq|Hne]; [|done]. by apply Hk.
Qed.

Lemma safe_inviteDriver u id driverId w : _id u ∈ users_ → safe evolves (inviteDriver (Some u) id driverId) w anything.
Proof.
  intros Hu. unfold inviteDriver. rewrite authenticated_bind. apply safe_then; [footprint|]. intros d w1.
  eapply (safe_bind evolves _ _ _ anything); [|by intros|done]. unfold svc_inviteDriver.
  do 2 (apply safe_then; [footprint|]; intros ? ?). apply safe_read_owned. intros f Ho.
  footprint.
Qed.

(** An answer of its driver to an invitation, and what follows an acceptance. *)
Lemma safe_answer {B} k i (a : bool) t fid did (x : B) w : invitations w !! k = Some i → fi_driverId i ∈ users_ →
  fi_fleetId i = fid → fi_driverId i = did →
  safe evolves (save_answer k a t ≫= λ _ : unit, (if a then add_driver fid did else mret tt) ≫= λ _ : unit,
    (mret x : fleeting B)) w anything.
Proof.
  intros Hi Hd <- <-. eapply (safe_bind evolves _ _ _ (λ _ w', responded (fi_fleetId i) (fi_driverId i) w')); [| |done].
  - intros w1 H1'. destruct (ev_inv _ _ H1' k i Hi) as (i1 & Hi1 & E1 & E2 & _). rewrite Hi1. cbn [fst snd].
    split; [apply evolves_answer; [done|by rewrite E2]|]. intros w2 H2'. apply (responded_evolves _ _ _ _ H2').
    exists k, (answered a t i1). unfold set at 1. cbn. rewrite lookup_insert_eq. split_and!; try done. by destruct a.
  - intros [] w1 _ Hr. destruct a; [|done]. intros w2 H2'. split; [|done]. cbn [snd]. apply evolves_join; [done|].
    by eapply responded_evolves.
Qed.

(** An invitation that was read keeps its parties. *)
Lemma safe_read_invitation {B} k e (f : hydrated IFleetInvitation → fleeting B) w :
  (∀ d i w', invitations w' !! k = Some i → fi_driverId i = fi_driverId (body d) →
     fi_fleetId i = fi_fleetId (body d) → safe evolves (f d) w' anything) →
  safe evolves (found ← reads (λ w, find_by_id k (invitations w)); inv ← or_throw found e; f inv) w anything.
Proof.
  intros Hf. eapply (safe_bind evolves _ _ _ (λ r w', ∀ d, r = inr (Some d) →
    ∃ i, invitations w' !! k = Some i ∧ fi_driverId i = fi_driverId (body d) ∧ fi_fleetId i = fi_fleetId (body d)));
    [| |done].
  { apply safe_reads; [apply _|]. intros v1 v2 _ H12 d [= Hd]. apply find_by_id_Some in Hd as [_ Hd].
    destruct (ev_inv _ _ H12 k _ Hd) as (i & Hi & E1 & E2 & _). by exists i. }
  intros [d|] w3 _ Hd; [|done]. change (or_throw (Some d) e ≫= f) with (f d).
  destruct (Hd d eq_refl) as (i & Hi & E1 & E2). by eapply Hf.
Qed.

Lemma safe_respond u k accept w : _id u ∈ users_ → safe evolves (respondToInvitation (Some u) k accept) w anything.
Proof.
  intros Hu. unfold respondToInvitation. rewrite authenticated_bind. apply safe_then; [footprint|]. intros a w1.
  eapply (safe_bind evolves _ _ _ anything); [|by intros|done]. unfold svc_respondToInvitation.
  apply safe_then; [footprint|]. intros _ w2. apply safe_read_invitation. intros d i w3 Hi E1 E2.
  destruct (String.eqb_spec (fi_driverId (body d)) (_id u)) as [Heq|]; [|done]. cbn [negb].
  eapply (safe_bind evolves _ _ _ anything); [apply safe_free; footprint| |done]. intros _ w4 H34 _.
  eapply (safe_bind evolves _ _ _ anything); [apply safe_free; footprint| |done]. intros _ w5 H45 _.
  eapply (safe_bind evolves _ _ _ anything); [apply safe_free; footprint| |done]. intros t w6 H56 _.
  assert (evolves w3 w6) as H36 by (do 2 (etrans; [done|]); done).
  destruct (ev_inv _ _ H36 k i Hi) as (i6 & Hi6 & F1 & F2 & _).
  apply (safe_answer k i6); [done|congruence..].
Qed.

(** The owner is not removed. *)
Lemma safe_remove_owner u id uid f w : fleetDocs w !! id = Some f → ft_ownerId f = uid → ¬ X id →
  safe evolves (removeMember (Some u) id uid) w anything.
Proof.
  intros Hf Ho HX. unfold removeMember. rewrite authenticated_bind.
  eapply (safe_bind evolves _ _ _ anything); [apply safe_free; footprint| |done]. intros _ w1 H1' _.
  eapply (safe_bind evolves); [apply safe_owned| |done]. intros d w2 H2' Hd.
  destruct (Hd d eq_refl) as [_ (f2 & Hf2 & Hs)].
  assert (evolves w w2) as H12 by by etrans. destruct (ev_fleet _ _ H12 id f Hf) as (f3 & Hf3 & E).
  assert (ft_ownerId (body d) = uid) as ->; [|by rewrite String.eqb_refl].
  rewrite <-(ss_owner _ _ (Hs HX)), <-Ho, <-(fe_owner _ _ _ _ (E HX)). congruence.
Qed.

(** *** The requests *)
Definition allowed (w : FleetWorld) (u : hydrated Account) (r : fleet_request) : Prop :=
  match r with
  | rq_update id req => (off_protected req = true ∨ X id) ∨
      (¬ X id ∧ ∃ f, fleetDocs w !! id = Some f ∧ ft_ownerId f ≠ _id u)
  | rq_remove id uid => ¬ K id uid ∨ (¬ X id ∧ ∃ f, fleetDocs w !! id = Some f ∧ ft_ownerId f = uid)
  | _ => True
  end.

Lemma safe_done_with {A} (p : fleeting A) w : safe evolves p w anything → safe evolves (done_with p) w anything.
Proof. intros Hp. eapply (safe_bind evolves); [done|by intros|done]. Qed.
Lemma safe_for_role {A} r u (p : fleeting A) w : safe evolves p w anything → safe evolves (for_role r u p) w anything.
Proof.
  intros Hp. unfold for_role. destruct (requireRole _ _) as [e|[]]; [done|]. exact Hp.
Qed.

Lemma safe_serve u r w : _id u ∈ users_ → allowed w u r → safe evolves (serve u r) w anything.
Proof.
  intros Hu Hr. destruct r; cbn [allowed] in Hr; cbn [serve]; apply safe_done_with; try apply safe_for_role.
  - apply safe_createFleet.
  - apply safe_getAllFleets.
  - apply safe_getFleetById.
  - destruct Hr as [Hr|(HX & f & Hf & Ho)]; [by apply safe_updateFleet|by eapply safe_update_reserved].
  - by apply safe_deleteFleet.
  - by apply safe_addMember.
  - destruct Hr as [Hr|(HX & f & Hf & Ho)]; [by apply safe_removeMember|by eapply safe_remove_owner].
  - by apply safe_inviteDriver.
  - by apply safe_respond.
  - apply safe_getFleetMetrics.
Qed.

Lemma requests_evolve rs sched w :
  (∀ x, x ∈ rs → _id x.1 ∈ users_ ∧ allowed w x.1 x.2) →
  evolves w (interleave sched (map (λ x, serve x.1 x.2) rs) w).2.
Proof.
  intros Hrs. apply (safe_interleave evolves (λ _, anything)). intros i p Hp.
  apply list_lookup_fmap_Some in Hp as (x & -> & Hx%list_elem_of_lookup_2).
  destruct (Hrs x Hx). by apply safe_serve.
Qed.
End Evolution.

Definition requesters (rs : list (hydrated Account * fleet_request)) : list string := map (λ x, _id x.1) rs.
Definition serving (sched : list nat) (rs : list (hydrated Account * fleet_request)) (w : FleetWorld) : FleetWorld :=
  (interleave sched (map (λ x, serve x.1 x.2) rs) w).2.

(** An update of the fleet by one of some users has an operator, or a path below a
    protected field, left in its body after the handler's deletions. *)
Definition raw_update (rs : list (hydrated Account * fleet_request)) (id : string) (by_ : string → bool) : bool :=
  some (λ x, match x.2 with
             | rq_update id' req => String.eqb id' id && by_ (_id x.1) && negb (off_protected req)
             | _ => false
             end) rs.
(** The owner of the fleet (of one that is created meanwhile, anyone) sends one. *)
Definition exposed (rs : list (hydrated Account * fleet_request)) (w : FleetWorld) (id : string) : bool :=
  raw_update rs id (λ u, match fleetDocs w !! id with Some f => String.eqb u (ft_ownerId f) | None => true end).

Lemma reserved_not_exposed rs w id f : fleetDocs w !! id = Some f → ft_ownerId f ∉ requesters rs →
  exposed rs w id = false.
Proof.
  intros Hf Ho. unfold exposed, raw_update. rewrite Hf. apply some_false. intros x Hx. destruct x.2; try done.
  destruct (String.eqb_spec (_id x.1) (ft_ownerId f)) as [Heq|]; [|by rewrite andb_false_r].
  destruct Ho. rewrite <-Heq. by apply (list_elem_of_fmap_2 (λ x, _id x.1)).
Qed.

Lemma update_allowed rs w K u id req : (u, rq_update id req) ∈ rs →
  allowed K (λ id, exposed rs w id = true) w u (rq_update id req).
Proof.
  intros Hx. cbn [allowed]. destruct (off_protected req) eqn:Hreq; [by left; left|].
  destruct (exposed rs w id) eqn:He; [by left; right|]. right. split; [done|].
  unfold exposed, raw_update in He. rewrite some_false in He. specialize (He _ Hx). cbn [fst snd] in He.
  rewrite String.eqb_refl, Hreq in He. destruct (fleetDocs w !! id) as [f|]; [|done].
  exists f. split; [done|]. intros Ho. by rewrite Ho, String.eqb_refl in He.
Qed.

(** C33: However the requests of some users interleave, no fleet is lost.  A fleet
    that none of these users owns stays as it is, whatever the requests hold,
    except that drivers among them join who have answered an invitation to it.
    Any other fleet keeps its owner, and a new invitation is one by the fleet's
    owner, unless the fleet is exposed: its owner himself sends an update of it
    in which an operator or a path below a protected field is left after the
    handler's deletions ([owner_by_operator]: such a body changes the owner). *)
Theorem fleets_reserved `{!FleetEnvOk} rs sched w :
  let w' := serving sched rs w in
  (∀ id f, fleetDocs w !! id = Some f → ∃ f', fleetDocs w' !! id = Some f' ∧
    (exposed rs w id = false → ft_ownerId f' = ft_ownerId f) ∧
    (ft_ownerId f ∉ requesters rs → guarded (requesters rs) id f f' w')) ∧
  (∀ k i, invitations w' !! k = Some i → invitations w !! k = None →
    fi_invitedBy i ∈ requesters rs ∧ ∃ f, fleetDocs w' !! fi_fleetId i = Some f ∧
      (exposed rs w (fi_fleetId i) = false → ft_ownerId f = fi_invitedBy i)).
Proof.
  intros w'. assert (evolves (requesters rs) (λ _ _, False) (λ id, exposed rs w id = true) w w') as [E1 _ E3].
  { apply requests_evolve. intros x Hx. split; [by apply (list_elem_of_fmap_2 (λ x, _id x.1))|].
    destruct x as [u []]; try done; [by apply update_allowed|]. left. by intros []. }
  split.
  - intros id f Hf. destruct (E1 id f Hf) as (f' & Hf' & E). exists f'. split; [done|]. split.
    + intros Hx. apply E. congruence.
    + intros Ho. pose proof (reserved_not_exposed rs w id f Hf Ho). apply E; [congruence|done].
  - intros k i Hi Hn. destruct (E3 k i Hi Hn) as (Hu & f & Hf & Ho). split; [done|].
    exists f. split; [done|]. intros Hx. apply Ho. congruence.
Qed.


(** ** The drivers of a fleet and its invitations *)
Definition accepted_by (id d : string) (w : FleetWorld) : Prop :=
  ∃ k i, invitations w !! k = Some i ∧ fi_fleetId i = id ∧ fi_driverId i = d ∧ fi_status i = inv_accepted.
Definition pending_at (k id d : string) (w : FleetWorld) : Prop :=
  ∃ i, invitations w !! k = Some i ∧ fi_fleetId i = id ∧ fi_driverId i = d ∧ fi_status i = inv_pending.

(** [T id]: an update may rewrite the drivers of the fleet [id]. *)
Section Roster.
Context `{!FleetEnvOk} (T : string → bool).

Record roster (w : FleetWorld) : Prop := {
  ro_known k i : invitations w !! k = Some i → is_Some (fleetDocs w !! fi_fleetId i);
  ro_pending k1 k2 id d : pending_at k1 id d w → pending_at k2 id d w → k1 = k2;
  ro_drivers id f d : T id = false → fleetDocs w !! id = Some f → d ∈ ft_drivers f ↔ accepted_by id d w;
  ro_once id f : T id = false → fleetDocs w !! id = Some f → NoDup (ft_drivers f)
}.
Definition keeps_roster : relation FleetWorld := λ w w', roster w → roster w'.
#[export] Instance keeps_roster_preorder : PreOrder keeps_roster.
Proof. split; unfold keeps_roster; [by intros w|intros ?????; auto]. Qed.

Lemma roster_accounts a w : roster w → roster (put_fw_accounts a w).
Proof. intros [R1 R2 R3 R4]. by split. Qed.

Lemma roster_create id f w : fleetDocs w !! id = None → ft_drivers f = [] → roster w →
  roster (w <| fleetDocs ::= <[id := f]> |>).
Proof.
  intros Hn Hd [R1 R2 R3 R4]. split; unfold set; cbn.
  - intros k i Hi. destruct (R1 k i Hi) as [f' Hf']. exists f'. rewrite lookup_insert_ne; [done|congruence].
  - done.
  - intros id' f' d HT [[<- <-]|[_ Hf']]%lookup_insert_Some; [|by apply R3]. rewrite Hd. split; [by intros ?%elem_of_nil|].
    intros (k & i & Hi & Hfi & _). destruct (R1 k i Hi) as [x Hx]. congruence.
  - intros id' f' HT [[<- <-]|[_ Hf']]%lookup_insert_Some; [rewrite Hd; constructor|by eapply R4].
Qed.

Lemma roster_update id f f' w : fleetDocs w !! id = Some f → ft_drivers f' = ft_drivers f ∨ T id = true → roster w →
  roster (w <| fleetDocs ::= <[id := f']> |>).
Proof.
  intros Hf Hd [R1 R2 R3 R4]. split; unfold set; cbn.
  - intros k i Hi. rewrite lookup_insert_is_Some'. right. by apply (R1 k).
  - done.
  - intros id' g d HT [[<- <-]|[_ Hg]]%lookup_insert_Some; [|by apply R3].
    destruct Hd as [->|]; [by apply R3|congruence].
  - intros id' g HT [[<- <-]|[_ Hg]]%lookup_insert_Some; [|by eapply R4].
    destruct Hd as [->|]; [by eapply R4|congruence].
Qed.

Lemma roster_invite k i w : invitations w !! k = None → fi_status i = inv_pending → is_Some (fleetDocs w !! fi_fleetId i) →
  some (λ kv, pending_for (fi_fleetId i) (fi_driverId i) kv.2) (map_to_list (invitations w)) = false → roster w →
  roster (w <| invitations ::= <[k := i]> |>).
Proof.
  intros Hn Hs Hk Hfree [R1 R2 R3 R4]. rewrite some_false in Hfree.
  assert (∀ k', ¬ pending_at k' (fi_fleetId i) (fi_driverId i) w) as Hnone.
  { intros k' (i' & Hi' & H1' & H2' & H3'). specialize (Hfree (k', i') ltac:(by apply elem_of_map_to_list)).
    unfold pending_for in Hfree. cbn in Hfree. rewrite H1', H2', !String.eqb_refl, bool_decide_true in Hfree by done. done. }
  assert (∀ k' id d, pending_at k' id d (w <| invitations ::= <[k := i]> |>) →
    (k' = k ∧ id = fi_fleetId i ∧ d = fi_driverId i) ∨ pending_at k' id d w) as Hinv.
  { intros k' id d (i' & Hi' & E1 & E2 & E3). unfold set in Hi'. cbn in Hi'.
    apply lookup_insert_Some in Hi' as [[<- <-]|[_ ?]]; [by left|]. right. by exists i'. }
  split; unfold set; cbn.
  - intros k' i' [[<- <-]|[_ Hi']]%lookup_insert_Some; [done|by eapply R1].
  - intros k1 k2 id d [(-> & -> & ->)|H1']%Hinv [(-> & E1 & E2)|H2']%Hinv; try done.
    + by apply Hnone in H2'.
    + subst. by apply Hnone in H1'.
    + by eapply R2.
  - intros id f d HT Hf. rewrite (R3 id f d HT Hf). unfold accepted_by. cbn. split; intros (k' & i' & Hi' & E1 & E2 & E3).
    + exists k', i'. split; [|done]. rewrite lookup_insert_ne; [done|congruence].
    + apply lookup_insert_Some in Hi' as [[<- <-]|[_ Hi']]; [congruence|]. by exists k', i'.
  - done.
Qed.

(** The answer to an invitation with what follows it. *)
Lemma roster_answer k i (a : bool) t w : invitations w !! k = Some i → fi_status i = inv_pending → roster w →
  let w1 := w <| invitations ::= <[k := answered a t i]> |> in
  roster (if a then w1 <| fleetDocs ::= alter (λ f, f <| ft_drivers ::= add_to_set (fi_driverId i) |>
                            <| ft_updatedAt := time_of w1 |>) (fi_fleetId i) |> else w1).
Proof.
  intros Hi Hs [R1 R2 R3 R4] w1.
  assert (∀ id d, accepted_by id d w1 ↔ accepted_by id d w ∨ (a = true ∧ id = fi_fleetId i ∧ d = fi_driverId i)) as Hacc.
  { intros id d. unfold accepted_by, w1, set. cbn. split.
    - intros (k' & i' & [[<- <-]|[Hne Hi']]%lookup_insert_Some & E1 & E2 & E3).
      + right. cbn in *. by destruct a.
      + left. by exists k', i'.
    - intros [(k' & i' & Hi' & E1 & E2 & E3)|(-> & -> & ->)].
      + exists k', i'. split; [|done]. rewrite lookup_insert_ne; [done|congruence].
      + exists k, (answered true t i). by rewrite lookup_insert_eq. }
  assert (∀ k' id d, pending_at k' id d w1 → pending_at k' id d w) as Hpen.
  { intros k' id d (i' & Hi' & E1 & E2 & E3). unfold w1, set in Hi'. cbn in Hi'.
    apply lookup_insert_Some in Hi' as [[<- <-]|[_ ?]]; [by destruct a|]. by exists i'. }
  assert (∀ k' i', invitations w1 !! k' = Some i' → is_Some (fleetDocs w !! fi_fleetId i')) as Hkn.
  { intros k' i' Hi'. unfold w1, set in Hi'. cbn in Hi'.
    apply lookup_insert_Some in Hi' as [[<- <-]|[_ ?]]; [by apply (R1 k i)|by eapply R1]. }
  destruct a.
  - split.
    + intros k' i' Hi'. unfold set at 1. cbn. rewrite lookup_alter_is_Some. by eapply Hkn.
    + intros k1 k2 id d H1'%Hpen H2'%Hpen. by eapply R2.
    + intros id f d HT Hf. unfold set at 1 in Hf. cbn in Hf. change (accepted_by id d (set fleetDocs _ w1)) with (accepted_by id d w1).
      rewrite Hacc. apply lookup_alter_Some in Hf as [(<- & f0 & Hf0 & ->)|[Hne Hf]].
      * rewrite <-(R3 _ _ d HT Hf0). unfold set. cbn. unfold add_to_set.
        clear -Hs. destruct (includes _ _) eqn:Hin; [apply includes_true in Hin|rewrite elem_of_app, list_elem_of_singleton]; naive_solver.
      * rewrite (R3 _ _ d HT Hf). clear -Hne. naive_solver.
    + intros id f HT Hf. unfold set at 1 in Hf. cbn in Hf.
      apply lookup_alter_Some in Hf as [(<- & f0 & Hf0 & ->)|[Hne Hf]]; [|by eapply R4].
      unfold set. cbn. unfold add_to_set. destruct (includes _ _) eqn:Hin; [by eapply R4|].
      apply NoDup_app. split; [by eapply R4|]. split; [|apply NoDup_singleton].
      intros x Hx ->%list_elem_of_singleton. apply includes_true in Hx. congruence.
  - split; [done| | |done].
    + intros k1 k2 id d H1'%Hpen H2'%Hpen. by eapply R2.
    + intros id f d HT Hf. rewrite Hacc, (R3 id f d HT Hf). clear. naive_solver.
Qed.

(** *** Every request, run alone, keeps the correspondence *)
Lemma roster_fw_accounts {A} (p : prog Accounts A) : confined keeps_roster (on_fw_accounts p).
Proof. apply confined_zoom. intros a w Hw. by apply roster_accounts. Qed.

Lemma roster_save id check f : (∀ t x, ft_drivers (f t x) = ft_drivers x) → confined keeps_roster (save_fleet id check f).
Proof.
  intros Hf w. split; [|by repeat case_match]. intros Hw. destruct (fleetDocs w !! id) as [x|] eqn:Hx; [|done].
  case_match; [|done]. apply (roster_update _ _ _ _ Hx); [left; apply Hf|done].
Qed.

Lemma roster_create_doc d : confined keeps_roster (create_doc d).
Proof.
  apply confined_bind; [apply roster_fw_accounts|]. intros id.
  apply confined_bind; [apply roster_fw_accounts|]. intros t.
  destruct (validate_draft d t) as [f|] eqn:Hd; [|done]. change (or_throw (Some f) ?e ≫= ?k) with (k f). cbv beta.
  intros w. split; [|by case_match]. intros Hw. destruct (bool_decide _ || _) eqn:Hb; [done|]. cbn [snd].
  apply orb_false_iff in Hb as [Hb%bool_decide_eq_false _]. apply roster_create; [by apply eq_None_not_Some| |done].
  unfold validate_draft in Hd. repeat (apply bind_Some in Hd as (? & _ & Hd)). case_match; [|done]. by simplify_eq.
Qed.

(** The same for a fleet that exists. *)
Definition keeps_known (id : string) : relation FleetWorld :=
  λ w w', roster w ∧ is_Some (fleetDocs w !! id) → roster w' ∧ is_Some (fleetDocs w' !! id).
#[export] Instance keeps_known_preorder id : PreOrder (keeps_known id).
Proof. split; unfold keeps_known; [by intros w|intros ?????; auto]. Qed.
Lemma known_fw_accounts {A} id (p : prog Accounts A) : confined (keeps_known id) (on_fw_accounts p).
Proof. apply confined_zoom. intros a w [R1 R2]. split; [by apply roster_accounts|done]. Qed.

(** Creating an invitation to a fleet that exists. *)
Lemma roster_create_invitation fleetId driverId u :
  confined (keeps_known fleetId) (create_invitation fleetId driverId u).
Proof.
  apply confined_bind; [apply known_fw_accounts|].
  intros id w. split; [|by case_match]. intros [Hw Hk]. destruct (bool_decide _ || _) eqn:Hb; [done|]. cbn [snd].
  apply orb_false_iff in Hb as [Hb%bool_decide_eq_false Hfree]. split; [|done].
  apply roster_invite; try done. by apply eq_None_not_Some.
Qed.

Ltac roster_steps :=
  repeat first [ apply roster_create_doc | apply confined_throw_if | apply confined_or_throw | apply roster_fw_accounts
               | apply confined_reads; apply _ | apply confined_bind; [|intros ?] | done ].

Lemma roster_owned user id what : confined keeps_roster (owned_fleet user id what).
Proof. unfold owned_fleet, find_fleet. roster_steps. Qed.

Lemma roster_updateFleet u id req : untouched (unprotected req) "drivers" = true ∨ T id = true →
  confined keeps_roster (updateFleet u id req).
Proof.
  intros Hreq. unfold updateFleet, authenticated, fleet_now. roster_steps.
  intros w. split; [|by repeat case_match]. intros Hw. destruct (fleetDocs w !! id) as [f|] eqn:Hf; [|done].
  destruct (apply_update _ _ f) as [f'|] eqn:Hup; [|done]. case_match; [done|].
  apply (roster_update _ _ _ _ Hf); [|done]. destruct Hreq as [Hreq|]; [left; by eapply update_drivers|by right].
Qed.

Lemma run_fleet_now w : run fleet_now w = (inr (time_of w), w).
Proof. unfold fleet_now, on_fw_accounts, ac_now. cbn. unfold put_fw_accounts. by destruct w. Qed.

Lemma roster_guard {A} b e (k : unit → fleeting A) w : roster w → (b = false → roster (run (k tt) w).2) →
  roster (run (throw_if b e ≫= k) w).2.
Proof. destruct b; cbn; auto. Qed.
Lemma roster_found {A B} (o : option A) e (k : A → fleeting B) w : roster w →
  (∀ a, o = Some a → roster (run (k a) w).2) → roster (run (or_throw o e ≫= k) w).2.
Proof. destruct o; cbn; auto. Qed.

Lemma roster_invites u id d w : roster w → roster (run (inviteDriver (Some u) id d) w).2.
Proof.
  intros Hw. unfold inviteDriver. rewrite authenticated_bind. apply roster_found; [done|]. intros did _.
  rewrite run_bind. enough (roster (run (svc_inviteDriver id did (_id u)) w).2) as He.
  { by destruct (run (svc_inviteDriver id did (_id u)) w) as [[] ?]. }
  unfold svc_inviteDriver. apply roster_guard; [done|]. intros _. apply roster_guard; [done|]. intros _.
  rewrite run_bind. unfold find_fleet. rewrite run_reads. cbn [fst snd]. apply roster_found; [done|].
  intros f [_ Hf]%find_by_id_Some.
  match goal with |- roster (run ?p w).2 => assert (confined (keeps_known id) p) as Hc end.
  { repeat first [ apply roster_create_invitation | apply confined_throw_if | apply confined_or_throw
      | apply known_fw_accounts | apply confined_reads; apply _ | apply confined_bind; [|intros ?] ]. }
  by apply (confined_run (keeps_known id) _ w Hc).
Qed.

Lemma roster_respond u k a w : roster w → roster (run (respondToInvitation (Some u) k a) w).2.
Proof.
  intros Hw. unfold respondToInvitation. rewrite authenticated_bind. apply roster_found; [done|]. intros b _.
  rewrite run_bind. enough (roster (run (svc_respondToInvitation k (_id u) b) w).2) as He.
  { by destruct (run (svc_respondToInvitation k (_id u) b) w) as [[] ?]. }
  unfold svc_respondToInvitation. apply roster_guard; [done|]. intros _.
  rewrite run_bind, run_reads. cbn [fst snd]. apply roster_found; [done|]. intros i [_ Hi]%find_by_id_Some.
  apply roster_guard; [done|]. intros _. apply roster_guard; [done|]. intros Hs%negb_false_iff%bool_decide_eq_true.
  rewrite run_bind, run_fleet_now. cbn [fst snd].
  rewrite run_bind. unfold save_answer. rewrite run_atomic_try, Hi. cbn [fst snd]. rewrite run_bind.
  pose proof (roster_answer k (body i) b (time_of w) w Hi Hs Hw) as Hr. cbv zeta in Hr. by destruct b.
Qed.

Lemma roster_done_with {A} r u (p : fleeting A) w : roster w → roster (run p w).2 →
  roster (run (done_with (for_role r u p)) w).2.
Proof.
  intros Hw Hp. unfold done_with, for_role. rewrite run_bind. rewrite run_bind, run_done. cbn [fst snd].
  destruct (requireRole _ _); [done|]. by destruct (run p w) as [[] ?].
Qed.

Lemma roster_serve u r w :
  (∀ id req, r = rq_update id req → untouched (unprotected req) "drivers" = true ∨ T id = true) →
  roster w → roster (run (serve u r) w).2.
Proof.
  intros Hr Hw. assert (∀ A (p : fleeting A), confined keeps_roster p → roster (run p w).2) as Hc.
  { intros A p Hp. apply (confined_run keeps_roster p w Hp Hw). }
  destruct r; cbn [serve] in *; try apply roster_done_with; try done;
    try (apply Hc; unfold createFleet, getAllFleets, done_with, getFleetById, find_fleet, fleet_now, authenticated;
         by roster_steps).
  - apply Hc, roster_updateFleet. by apply Hr.
  - apply Hc. unfold deleteFleet, authenticated. roster_steps. case_match; [|done]. by apply roster_save.
  - apply Hc. unfold addMember, authenticated, fleet_now. roster_steps. by apply roster_save.
  - apply Hc. unfold removeMember, authenticated. roster_steps. by apply roster_save.
  - by apply roster_invites.
  - by apply roster_respond.
  - apply Hc. unfold getFleetMetrics, svc_getFleetMetrics, metrics_of, authenticated, find_fleet. roster_steps.
    case_match; roster_steps.
Qed.
End Roster.

(** Requests one after another. *)
Fixpoint serve_all (rs : list (hydrated Account * fleet_request)) (w : FleetWorld) : FleetWorld :=
  match rs with
  | [] => w
  | x :: rs => serve_all rs (run (serve x.1 x.2) w).2
  end.

(** Some request updates the fleet with a body that names [drivers] (a plain field,
    a path below it or an operator). *)
Definition rewrites_drivers (rs : list (hydrated Account * fleet_request)) (id : string) : bool :=
  some (λ x, match x.2 with
             | rq_update id' req => String.eqb id' id && negb (untouched (unprotected req) "drivers")
             | _ => false
             end) rs.

(** C35: After any sequence of requests, served one after another, a driver has at
    most one pending invitation to a fleet, every invitation is to a fleet that
    exists, and the drivers of every fleet are exactly those who accepted an
    invitation to it, each once.  Only of a fleet that some request updates with
    a body that names [drivers] the last is not claimed: the update handler does
    not protect this field ([drivers_rewritten]). *)
Theorem roster_sequential `{!FleetEnvOk} rs w :
  roster (rewrites_drivers rs) w → roster (rewrites_drivers rs) (serve_all rs w).
Proof.
  assert (∀ T l w', (∀ x id req, x ∈ l → x.2 = rq_update id req →
    untouched (unprotected req) "drivers" = true ∨ T id = true) → roster T w' → roster T (serve_all l w')) as Hgen.
  { intros T l. induction l as [|x l IH]; intros w' Hl Hw; [done|]. cbn [serve_all].
    apply IH; [intros y id req Hy; apply (Hl y); by right|].
    apply roster_serve; [|done]. intros id req. apply (Hl x). by left. }
  apply Hgen. intros x id req Hx Hq. destruct (untouched (unprotected req) "drivers") eqn:Hu; [by left|]. right.
  unfold rewrites_drivers. destruct (some _ rs) eqn:Hs; [done|]. rewrite some_false in Hs.
  specialize (Hs x Hx). rewrite Hq, String.eqb_refl, Hu in Hs. done.
Qed.

(** ** Single operations *)

(** The service's creation gives no treasury, which the schema requires: it
    never creates a fleet. *)
Lemma svc_createFleet_fails ownerId name w : ∃ e, (run (svc_createFleet ownerId name) w).1 = inl e.
Proof.
  destruct ((run (svc_createFleet ownerId name) w).1) as [e|f] eqn:Hr; [by exists e|]. exfalso. revert Hr.
  unfold svc_createFleet. rewrite run_bind, run_throw_if. destruct (negb _); [done|]. cbn [fst snd].
  rewrite run_bind. destruct (run (on_fw_accounts _) w) as [[|o] w1]; [done|]. cbn [fst snd].
  rewrite run_bind, run_or_throw. destruct o as [d|]; [|done]. cbn [fst snd].
  rewrite run_bind, run_throw_if. destruct (negb _); [done|]. cbn [fst snd].
  rewrite run_bind, run_reads. cbn [fst snd]. rewrite run_bind, run_throw_if. destruct (bool_decide _); [done|]. cbn [fst snd].
  unfold create_doc. rewrite run_bind. destruct (run fleet_fresh w1) as [[|id] w2]; [done|]. cbn [fst snd].
  rewrite run_bind, run_fleet_now. cbn [fst snd]. rewrite run_bind, run_or_throw.
  unfold validate_draft. cbn [dr_name dr_treasuryAddress option_map].
  by destruct (required (Some (Some (Str.trim (Str.trim name))))).
Qed.

(** Any authenticated user reads any fleet. *)
Lemma getFleetById_any u id f w : isValidObjectId id = true → fleetDocs w !! id = Some f →
  run (getFleetById (Some u) id) w = (inr (mkReply (Doc id f) "Fleet retrieved successfully" Http.OK), w).
Proof.
  intros Hid Hf. unfold getFleetById. rewrite authenticated_bind, run_bind, run_throw_if, Hid. cbn [negb fst snd].
  rewrite run_bind. unfold find_fleet. rewrite run_reads. cbn [fst snd]. unfold find_by_id. by rewrite Hf.
Qed.

(** The metrics are for the owner, over the deliveries of the fleet's drivers. *)
Lemma getFleetMetrics_correct u id f w : isValidObjectId id = true → fleetDocs w !! id = Some f →
  run (getFleetMetrics (Some u) id) w =
    (if String.eqb (ft_ownerId f) (_id u)
     then inr (mkReply (if bool_decide (ft_drivers f = []) then mkMetrics id 0 0 0 Num.zero
                        else totals_of id (ft_drivers f)
                               (map body (find_all (of_drivers (ft_drivers f)) (deliveries (ac_base (fw_accounts w))))))
                 "Fleet metrics retrieved successfully" Http.OK)
     else inl (owner_only "view fleet metrics"), w).
Proof.
  intros Hid Hf. unfold getFleetMetrics. rewrite authenticated_bind, run_bind.
  assert (run (svc_getFleetMetrics id (_id u)) w =
    (if String.eqb (ft_ownerId f) (_id u)
     then inr (if bool_decide (ft_drivers f = []) then mkMetrics id 0 0 0 Num.zero
               else totals_of id (ft_drivers f)
                      (map body (find_all (of_drivers (ft_drivers f)) (deliveries (ac_base (fw_accounts w))))))
     else inl (owner_only "view fleet metrics"), w)) as ->; [|by destruct (String.eqb _ _)].
  unfold svc_getFleetMetrics. rewrite run_bind, run_throw_if, Hid. cbn [negb fst snd].
  rewrite run_bind. unfold find_fleet. rewrite run_reads. cbn [fst snd]. unfold find_by_id.
  rewrite Hf. cbn [fmap option_fmap option_map]. rewrite run_bind, run_or_throw. cbn [fst snd body].
  rewrite run_bind, run_throw_if. destruct (String.eqb _ _); [|done]. cbn [negb fst snd].
  unfold metrics_of. by case_bool_decide.
Qed.
End Fleets.

(** ** Examples and witnesses *)
Module FleetExamples.
Import ExampleEnv AccountExamples QueryExamples.

(** An update of names, flags and drivers; an operator sets any path. *)
Definition apply_one (f : IFleet) (kv : string * json) : IFleet :=
  match kv with
  | ("name", JStr s) => f <| ft_name := s |>
  | ("isActive", JBool b) => f <| ft_isActive := b |>
  | ("drivers", JArr l) => f <| ft_drivers := omap (λ v, match v with JStr s => Some s | _ => None end) l |>
  | ("$set", JObj [("ownerId", JStr s)]) => f <| ft_ownerId := s |>
  | _ => f
  end.
#[export] Instance fleet_env : FleetEnv := {| apply_update u t f := Some (fold_left apply_one u f <| ft_updatedAt := t |>) |}.

Lemma apply_one_same f kv : Str.startsWith kv.1 "$" = false →
  ft_ownerId (apply_one f kv) = ft_ownerId f ∧ ft_members (apply_one f kv) = ft_members f ∧
  ft_version (apply_one f kv) = ft_version f ∧ (kv.1 ≠ "drivers" → ft_drivers (apply_one f kv) = ft_drivers f).
Proof. destruct kv as [k v]. cbn. intros Hk. unfold apply_one. by repeat case_match; subst. Qed.
Lemma apply_all_same u f : plain u = true →
  ft_ownerId (fold_left apply_one u f) = ft_ownerId f ∧ ft_members (fold_left apply_one u f) = ft_members f ∧
  ft_version (fold_left apply_one u f) = ft_version f ∧
  ((∀ kv, kv ∈ u → kv.1 ≠ "drivers") → ft_drivers (fold_left apply_one u f) = ft_drivers f).
Proof.
  unfold plain. rewrite negb_true_iff, some_false. revert f. induction u as [|kv u IH]; intros f Hp; [done|].
  cbn [fold_left]. destruct (IH (apply_one f kv)) as (-> & -> & -> & Hd); [intros; apply Hp; by right|].
  destruct (apply_one_same f kv) as (-> & -> & -> & Hd'); [apply Hp; by left|]. split_and!; [done..|].
  intros Hn. rewrite Hd by (intros; apply Hn; by right). apply Hd', Hn. by left.
Qed.
#[export] Instance fleet_env_ok : FleetEnvOk.
Proof.
  split; intros u t f f'; unfold untouched; intros Hp; rewrite andb_true_iff in Hp; destruct Hp as [Hp Hn];
    destruct (apply_all_same u f Hp) as (E1 & E2 & E3 & E4); [| intros _|]; intros [= <-]; rec_simpl; try done.
  apply E4. intros kv Hkv Heq. rewrite negb_true_iff, some_false in Hn. specialize (Hn kv Hkv). by rewrite Heq in Hn.
Qed.

Definition owner1 : string := "64b7f0c2a1d3e4f500000011".
Definition driver1 : string := "64b7f0c2a1d3e4f500000012".
Definition fleet1 : string := "64b7f0c2a1d3e4f500000021".
Definition invite1 : string := "64b7f0c2a1d3e4f500000031".
Definition treasury : string := "G" +:+ "AAAAAAAAAAAAAAAAAAAAAAAAAAAAAAAAAAAAAAAAAAAAAAAAAAAAAAA".
Definition user_ (id : string) (r : UserRole) : hydrated Account := Doc id (account "x@example.com" r).
Definition the_owner : hydrated Account := user_ owner1 ENTERPRISE.
Definition the_driver : hydrated Account := user_ driver1 DRIVER.
Definition the_fleet : IFleet :=
  mkIFleet "Express" treasury owner1 [mkMember owner1 "admin" 0; mkMember driver1 "driver" 0]
    (mkFleetMetadata "Acme" None None None (mkAddress None None None None) "a@b.co" None None) true [] 0 0 0.
Definition fleet_world : FleetWorld :=
  mkFleetWorld (mkAccounts (empty_world 1700000000000) {[owner1 := body the_owner; driver1 := body the_driver]} ∅ ∅)
    {[fleet1 := the_fleet]} {[invite1 := mkInvitation fleet1 driver1 owner1 inv_pending None]}.

(** An acceptance and a refusal of one invitation that both read it pending: the
    driver is in the fleet although the invitation ends as declined. *)
Definition both_answers : list (hydrated Account * fleet_request) :=
  [(the_driver, rq_respond invite1 (Some (JBool true))); (the_driver, rq_respond invite1 (Some (JBool false)))].
Definition raced : FleetWorld := serving [0; 1; 0; 0; 0; 1; 1]%nat both_answers fleet_world.
Example accept_and_decline :
  ft_drivers <$> fleetDocs raced !! fleet1 = Some [driver1] ∧ fi_status <$> invitations raced !! invite1 = Some inv_declined.
Proof. vm_compute. split; reflexivity. Qed.

(** The four deletions of the update leave an operator in: the owner changes. *)
Example owner_by_operator :
  ft_ownerId <$> fleetDocs (run (updateFleet (Some the_owner) fleet1 [("$set", JObj [("ownerId", JStr driver1)])]) fleet_world).2
    !! fleet1 = Some driver1.
Proof. vm_compute. reflexivity. Qed.

(** A plain body puts a driver into the fleet who was never asked. *)
Example drivers_rewritten :
  let w := (run (updateFleet (Some the_owner) fleet1 [("drivers", JArr [JStr driver1])]) fleet_world).2 in
  ft_drivers <$> fleetDocs w !! fleet1 = Some [driver1] ∧ fi_status <$> invitations w !! invite1 = Some inv_pending.
Proof. vm_compute. split; reflexivity. Qed.

(** A client that asks for inactive fleets gets the deleted ones. *)
Definition deleted_world : FleetWorld := (run (deleteFleet (Some the_owner) fleet1) fleet_world).2.
Definition listed_ids (q : list (string * json)) : list string :=
  match (run (getAllFleets (Some the_owner) q) deleted_world).1 with
  | inr r => map _id (fst (rp_data r))
  | inl _ => []
  end.
Example deleted_fleets_listed : listed_ids [] = [] ∧ listed_ids [("isActive", JStr "false")] = [fleet1].
Proof. vm_compute. split; reflexivity. Qed.

(** Members who were added are not among the drivers the metrics count. *)
Example added_member_not_counted :
  match (run (getFleetMetrics (Some the_owner) fleet1) fleet_world).1 with inr r => fx_driverCount (rp_data r) | _ => (-1)%Z end = 0%Z.
Proof. vm_compute. reflexivity. Qed.

(** A foreign update with an operator does not expose the fleet. *)
Definition some_requests : list (hydrated Account * fleet_request) :=
  [(the_driver, rq_respond invite1 (Some (JBool true)));
   (user_ driver1 ENTERPRISE, rq_update fleet1 [("$set", JObj [("ownerId", JStr driver1)])])].
Definition after_requests : FleetWorld := serving [0; 1; 0; 1; 0; 0; 1; 1]%nat some_requests fleet_world.

Lemma fleets_reserved_witness : exposed some_requests fleet_world fleet1 = false ∧
  ∃ f', fleetDocs after_requests !! fleet1 = Some f' ∧ ft_ownerId f' = owner1 ∧
    ft_drivers f' = [driver1] ∧ guarded [driver1; driver1] fleet1 the_fleet f' after_requests.
Proof.
  assert (exposed some_requests fleet_world fleet1 = false) as Hx by (vm_compute; reflexivity).
  split; [exact Hx|].
  destruct (proj1 (fleets_reserved some_requests [0; 1; 0; 1; 0; 0; 1; 1]%nat fleet_world) fleet1 the_fleet)
    as (f' & Hf' & Ho & Hg); [reflexivity|].
  exists f'. split; [exact Hf'|]. split; [exact (Ho Hx)|]. split.
  - assert (fleetDocs after_requests !! fleet1 = Some (the_fleet <| ft_drivers := [driver1] |>
      <| ft_updatedAt := 1700000000000%Z |>)) as Hw by (vm_compute; reflexivity).
    change (fleetDocs after_requests !! fleet1 = Some f') in Hf'. rewrite Hw in Hf'. by injection Hf' as <-.
  - apply Hg. apply (bool_decide_eq_false_1 (ft_ownerId the_fleet ∈ requesters some_requests)). vm_compute. reflexivity.
Defined.

(** An addition overtakes a removal that was read before: the removal is refused
    and can be repeated. *)
Definition driver2 : string := "64b7f0c2a1d3e4f500000013".
Definition team_world : FleetWorld :=
  fleet_world <| fw_accounts ::= set accounts (<[driver2 := account "y@example.com" DRIVER]>) |>.
Definition add_and_remove : list (hydrated Account * fleet_request) :=
  [(the_owner, rq_remove fleet1 driver1); (the_owner, rq_add fleet1 (Some driver2) None)].
Definition team : FleetWorld := serving [0; 1; 1; 1; 1; 0]%nat add_and_remove team_world.


Lemma fleet_world_roster T : roster T fleet_world.
Proof.
  assert (∀ k i, invitations fleet_world !! k = Some i → k = invite1 ∧ i = mkInvitation fleet1 driver1 owner1 inv_pending None)
    as Hinv by (intros k i Hi; unfold fleet_world in Hi; cbn [invitations] in Hi; by apply lookup_singleton_Some in Hi as [<- <-]).
  assert (∀ id f, fleetDocs fleet_world !! id = Some f → id = fleet1 ∧ f = the_fleet)
    as Hfl by (intros id f Hf; unfold fleet_world in Hf; cbn [fleetDocs] in Hf; by apply lookup_singleton_Some in Hf as [<- <-]).
  split.
  - intros k i [-> ->]%Hinv. by eexists.
  - intros k1 k2 id d (i & [-> _]%Hinv & _) (j & [-> _]%Hinv & _). done.
  - intros id f d _ [-> ->]%Hfl. split; [by intros ?%elem_of_nil|]. by intros (k & i & [-> ->]%Hinv & _ & _ & Hs).
  - intros id f _ [-> ->]%Hfl. constructor.
Qed.

Definition answers : list (hydrated Account * fleet_request) :=
  [(the_driver, rq_respond invite1 (Some (JBool true))); (the_driver, rq_respond invite1 (Some (JBool false)));
   (the_owner, rq_update fleet1 [("name", JStr "Faster")])].
Definition answered_world : FleetWorld := serve_all answers fleet_world.
Lemma roster_sequential_witness :
  roster (rewrites_drivers answers) answered_world ∧ rewrites_drivers answers fleet1 = false ∧
  ft_drivers <$> fleetDocs answered_world !! fleet1 = Some [driver1].
Proof.
  split; [|vm_compute; split; reflexivity]. apply roster_sequential. apply fleet_world_roster.
Defined.
End FleetExamples.
