(* ===== verification/Regex.v ===== *)
(** * Regular expressions of JavaScript

    The part of the language the sources use: character classes, sequences,
    alternatives, greedy and lazy repetitions, capturing groups, word boundaries
    and the two anchors, matched by backtracking as the language defines it;
    [test] and [replace] with the global flag.  Under the flag [i] a class
    contains a letter when it contains it in either case. *)
From S2P Require Import Prelude JsLib.
From Stdlib Require Import Ascii.

Inductive regex :=
  | Class (p : ascii → bool)
  | Empty
  | Then (r s : regex)
  | Or (r s : regex)
  | Repeat (greedy : bool) (least : nat) (most : option nat) (r : regex)
  | Group (n : nat) (r : regex)
  | Boundary
  | Start
  | End_.

(** ** Abbreviations of patterns *)
Definition char_is (c : ascii) : regex := Class (Ascii.eqb c).
Definition text_of (s : string) : regex := foldr (λ c r, Then (char_is c) r) Empty (Str.chars s).
Fixpoint seq_of (l : list regex) : regex := match l with [] => Empty | [r] => r | r :: l => Then r (seq_of l) end.
Fixpoint any_of (l : list regex) : regex := match l with [] => Empty | [r] => r | r :: l => Or r (any_of l) end.
Definition star : regex → regex := Repeat true 0 None.
Definition plus : regex → regex := Repeat true 1 None.
Definition opt : regex → regex := Repeat true 0 (Some 1).
Definition times (n : nat) : regex → regex := Repeat true n (Some n).
Definition at_least (n : nat) : regex → regex := Repeat true n None.

Definition between (a b : ascii) (c : ascii) : bool :=
  Nat.leb (nat_of_ascii a) (nat_of_ascii c) && Nat.leb (nat_of_ascii c) (nat_of_ascii b).
Definition upper_case : ascii → bool := between "A" "Z".
Definition lower_case : ascii → bool := between "a" "z".
Definition digit : ascii → bool := between "0" "9".
Definition alphanumeric (c : ascii) : bool := upper_case c || lower_case c || digit c.
Definition word_char (c : ascii) : bool := alphanumeric c || Ascii.eqb c "_".
Definition one_of (s : string) (c : ascii) : bool := includes c (Str.chars s).

(** ** Matching *)

(** What comes before the position, what is left, and the captures. *)
Record position := mkPosition {
  before : option ascii;
  rest : list ascii;
  captures : list (nat * list ascii)
}.

Definition is_word (c : option ascii) : bool := match c with Some c => word_char c | None => false end.
Definition at_boundary (x : position) : bool := xorb (is_word (before x)) (is_word (head (rest x))).

Section Matching.
(** Whether case is ignored. *)
Context (i : bool).

Definition accepts_char (p : ascii → bool) (c : ascii) : bool :=
  if i then p c || p (Str.upper c) || p (Str.lower c) else p c.

(** [or_else o k] tries [k] when [o] fails: backtracking. *)
Definition or_else {A} (o : option A) (k : unit → option A) : option A := match o with Some a => Some a | None => k tt end.

(** A repetition: an iteration that consumes nothing once the least number is
    reached fails.  [fuel] bounds the iterations. *)
Definition repeat_with {A} (m : (position → option A) → position → option A) (greedy : bool)
    : nat → nat → option nat → (position → option A) → position → option A :=
  fix loop fuel least most k x :=
    match fuel, most with
    | O, _ | _, Some O => k x
    | S fuel, _ =>
        let again := m (λ y, if Nat.eqb least 0 && Nat.eqb (length (rest y)) (length (rest x)) then None
                             else loop fuel (pred least) (option_map pred most) k y) x in
        if Nat.ltb 0 least then again
        else if greedy then or_else again (λ _, k x) else or_else (k x) (λ _, again)
    end.

Fixpoint matcher {A} (r : regex) (k : position → option A) (x : position) : option A :=
  match r with
  | Class p =>
      match rest x with
      | c :: l => if accepts_char p c then k (mkPosition (Some c) l (captures x)) else None
      | [] => None
      end
  | Empty => k x
  | Then r s => matcher r (matcher s k) x
  | Or r s => or_else (matcher r k x) (λ _, matcher s k x)
  | Repeat greedy least most r =>
      repeat_with (matcher r) greedy (least + S (length (rest x))) least most k x
  | Group n r =>
      matcher r (λ y, k (mkPosition (before y) (rest y)
        ((n, take (length (rest x) - length (rest y)) (rest x)) :: captures y))) x
  | Boundary => if at_boundary x then k x else None
  | Start => match before x with None => k x | Some _ => None end
  | End_ => match rest x with [] => k x | _ => None end
  end.

Definition match_at (r : regex) (b : option ascii) (l : list ascii) : option position :=
  matcher r Some (mkPosition b l []).

(** [r.test(s)]: a match at some position. *)
Fixpoint test_from (r : regex) (b : option ascii) (l : list ascii) : bool :=
  match match_at r b l with
  | Some _ => true
  | None => match l with [] => false | c :: l => test_from r (Some c) l end
  end.
Definition test (r : regex) (s : string) : bool := test_from r None (Str.chars s).

(** [s.replace(r, f)] with the global flag, for a pattern that matches no empty
    text: [f] gets the match and its captures. *)
Fixpoint replace_from (r : regex) (f : list ascii → (nat → list ascii) → list ascii) (fuel : nat)
    (b : option ascii) (l : list ascii) : list ascii :=
  match fuel, l with
  | O, _ | _, [] => l
  | S fuel, c :: l' =>
      match match_at r b l with
      | Some y =>
          let n := (length l - length (rest y))%nat in
          if Nat.eqb n 0 then c :: replace_from r f fuel (Some c) l'
          else f (take n l) (λ g, nullish (snd <$> List.find (λ x, Nat.eqb x.1 g) (captures y)) [])
                 ++ replace_from r f fuel (before y) (rest y)
      | None => c :: replace_from r f fuel (Some c) l'
      end
  end.
Definition replace (r : regex) (f : list ascii → (nat → list ascii) → list ascii) (s : string) : string :=
  Str.of_chars (replace_from r f (length (Str.chars s)) None (Str.chars s)).

(** ** A match consumes a part of the text *)

(** [y] is [x] after reading some of the text. *)
Definition reads_on (x y : position) : Prop :=
  ∃ u, rest x = u ++ rest y ∧ before y = (match rev u with c :: _ => Some c | [] => before x end).

#[export] Instance reads_on_preorder : PreOrder reads_on.
Proof.
  split; [by intros x; exists []|]. intros x y z (u & Hu & Bu) (v & Hv & Bv). exists (u ++ v).
  split; [by rewrite Hu, Hv, app_assoc|]. rewrite Bv, rev_app_distr. destruct (rev v); [by rewrite Bu|done].
Qed.
Lemma reads_on_captures b l c c' : reads_on (mkPosition b l c) (mkPosition b l c').
Proof. by exists []. Qed.

(** Two continuations that agree wherever reading can lead give the same. *)
Lemma repeat_with_ext {A} (m : (position → option A) → position → option A) greedy :
  (∀ k k' x, (∀ y, reads_on x y → k y = k' y) → m k x = m k' x) →
  ∀ fuel least most k k' x, (∀ y, reads_on x y → k y = k' y) →
    repeat_with m greedy fuel least most k x = repeat_with m greedy fuel least most k' x.
Proof.
  intros Hm. induction fuel as [|fuel IH]; intros least most k k' x Hk; cbn.
  { destruct most as [[]|]; by apply Hk. }
  assert (m (λ y, if Nat.eqb least 0 && Nat.eqb (length (rest y)) (length (rest x)) then None
       else repeat_with m greedy fuel (pred least) (option_map pred most) k y) x =
     m (λ y, if Nat.eqb least 0 && Nat.eqb (length (rest y)) (length (rest x)) then None
       else repeat_with m greedy fuel (pred least) (option_map pred most) k' y) x) as Hag.
  { apply Hm. intros y Hy. destruct (_ && _); [done|]. apply IH. intros z Hz. apply Hk. by etrans. }
  destruct most as [[|n]|]; [by apply Hk|..]; rewrite Hag, (Hk x); done.
Qed.

Lemma matcher_ext {A} r (k k' : position → option A) x : (∀ y, reads_on x y → k y = k' y) → matcher r k x = matcher r k' x.
Proof.
  revert k k' x. induction r as [p| |r IHr s IHs|r IHr s IHs|g a b r IH|n r IH| | |]; intros k k' x Hk; cbn.
  - destruct (rest x) as [|c l] eqn:Hx; [done|]. destruct (accepts_char p c); [|done]. apply Hk. by exists [c].
  - by apply Hk.
  - apply IHr. intros y Hy. apply IHs. intros z Hz. apply Hk. by etrans.
  - rewrite (IHr k k' x Hk). unfold or_else. destruct (matcher r k' x); [done|]. by apply IHs.
  - by apply repeat_with_ext.
  - apply IH. intros y Hy. apply Hk. destruct Hy as (u & Hu & Hb). by exists u.
  - destruct (at_boundary x); [by apply Hk|done].
  - destruct (before x); [done|by apply Hk].
  - destruct (rest x); [by apply Hk|done].
Qed.

(** ** Patterns with finitely many texts *)
Definition all_ascii : list ascii := map ascii_of_nat (seq 0 256).
Definition product (a b : list (list ascii)) : list (list ascii) := u ← a; v ← b; [u ++ v].

Fixpoint words (r : regex) : option (list (list ascii)) :=
  match r with
  | Class p => Some (map (λ c, [c]) (List.filter p all_ascii))
  | Empty => Some [[]]
  | Then r s => a ← words r; b ← words s; Some (product a b)
  | Or r s => a ← words r; b ← words s; Some (a ++ b)
  | Repeat true 0 (Some 1) r => a ← words r; Some ([] :: a)
  | Group _ r => words r
  | _ => None
  end.

(** A text spells a word when it is the word, up to case if that is ignored. *)
Definition fold_case (c : ascii) : ascii := if i then Str.lower c else c.
Definition spells (w u : list ascii) : Prop := map fold_case u = map fold_case w.

#[export] Instance spells_dec w u : Decision (spells w u).
Proof. unfold spells. apply _. Defined.

Lemma elem_of_all_ascii c : c ∈ all_ascii.
Proof.
  apply list_elem_of_fmap. exists (nat_of_ascii c). split; [by rewrite ascii_nat_embedding|].
  apply elem_of_seq. pose proof (nat_ascii_bounded c). lia.
Qed.

Lemma same_letter : forallb (λ c, forallb (λ d, Bool.eqb (Ascii.eqb (Str.lower c) (Str.lower d))
  (Ascii.eqb d c || Ascii.eqb d (Str.upper c) || Ascii.eqb d (Str.lower c))) all_ascii) all_ascii = true.
Proof. vm_compute. reflexivity. Qed.

Lemma accepts_char_spec p c : accepts_char p c = true ↔ ∃ d, p d = true ∧ fold_case c = fold_case d.
Proof.
  unfold accepts_char, fold_case. destruct i; [|naive_solver].
  assert (∀ d, Str.lower c = Str.lower d ↔ d = c ∨ d = Str.upper c ∨ d = Str.lower c) as Hl.
  { intros d. pose proof same_letter as Hs. rewrite forallb_forall in Hs.
    specialize (Hs c (proj1 (list_elem_of_In _ _) (elem_of_all_ascii c))). rewrite forallb_forall in Hs.
    specialize (Hs d (proj1 (list_elem_of_In _ _) (elem_of_all_ascii d))). apply Bool.eqb_prop in Hs.
    rewrite <-!Ascii.eqb_eq, Hs, !orb_true_iff. tauto. }
  rewrite !orb_true_iff. split.
  - intros [[H|H]|H]; [exists c|exists (Str.upper c)|exists (Str.lower c)]; (split; [done|]); apply Hl; auto.
  - intros (d & Hd & [->|[->| ->]]%Hl); auto.
Qed.

Lemma elem_of_product w a b : w ∈ product a b ↔ ∃ u v, u ∈ a ∧ v ∈ b ∧ w = u ++ v.
Proof.
  unfold product. rewrite list_elem_of_bind. setoid_rewrite list_elem_of_bind.
  setoid_rewrite list_elem_of_singleton. naive_solver.
Qed.

Lemma spells_app w1 w2 u : spells (w1 ++ w2) u ↔ ∃ u1 u2, u = u1 ++ u2 ∧ spells w1 u1 ∧ spells w2 u2.
Proof.
  unfold spells. rewrite map_app. split.
  - intros Hu. exists (take (length w1) u), (drop (length w1) u). split; [by rewrite take_drop|].
    rewrite <-!firstn_map, <-!skipn_map, Hu.
    assert (length (map fold_case w1) = length w1) as Hlen by apply length_map.
    split; [apply take_app_length'|apply drop_app_length']; done.
  - intros (u1 & u2 & -> & H1 & H2). by rewrite map_app, H1, H2.
Qed.

(** Whether a continuation succeeds depends on what is left only. *)
Definition blind {A} (k : position → option A) : Prop := ∀ x y, rest x = rest y → is_Some (k x) → is_Some (k y).
Definition after (v : list ascii) : position := mkPosition None v [].
(** The words that lead to success. *)
Definition leads {A} (ws : list (list ascii)) (k : position → option A) (x : position) : Prop :=
  ∃ w u v, w ∈ ws ∧ spells w u ∧ rest x = u ++ v ∧ is_Some (k (after v)).

Lemma leads_blind {A} ws (k : position → option A) (m : position → option A) :
  (∀ x, is_Some (m x) ↔ leads ws k x) → blind m.
Proof. intros Hm x y Hxy Hx. apply Hm. apply Hm in Hx. unfold leads in *. by rewrite <-Hxy. Qed.

Lemma is_Some_or_else {A} (o : option A) k : is_Some (or_else o k) ↔ is_Some o ∨ is_Some (k tt).
Proof. destruct o; cbn; split; naive_solver. Qed.

Lemma leads_empty {A} (k : position → option A) x : blind k → is_Some (k x) ↔ leads [[]] k x.
Proof.
  intros Hk. split.
  - intros Hx. exists [], [], (rest x). split; [by left|]. split; [done|]. split; [done|]. by apply (Hk x).
  - intros (w & u & v & ->%list_elem_of_singleton & Hu & Hx & Hv). apply map_eq_nil in Hu. subst u.
    by apply (Hk (after v)).
Qed.

Lemma leads_app {A} a b (k : position → option A) x : leads (a ++ b) k x ↔ leads a k x ∨ leads b k x.
Proof. unfold leads. setoid_rewrite elem_of_app. naive_solver. Qed.

Lemma leads_product {A} a b (k m : position → option A) x : (∀ y, is_Some (m y) ↔ leads b k y) →
  leads a m x ↔ leads (product a b) k x.
Proof.
  intros Hm. unfold leads. setoid_rewrite elem_of_product. split.
  - intros (w & u & v & Hw & Hu & Hx & (w' & u' & v' & Hw' & Hu' & Hv & Hk)%Hm). cbn in Hv.
    exists (w ++ w'), (u ++ u'), v'. split_and!; [by exists w, w'| |by rewrite Hx, Hv, app_assoc|done].
    apply spells_app. by exists u, u'.
  - intros (w & u & v & (w1 & w2 & H1 & H2 & ->) & (u1 & u2 & -> & S1 & S2)%spells_app & Hx & Hk).
    exists w1, u1, (u2 ++ v). split_and!; [done|done|by rewrite app_assoc|]. apply Hm. by exists w2, u2, v.
Qed.

Lemma elem_of_class p w : w ∈ map (λ c, [c]) (List.filter p all_ascii) ↔ ∃ d, w = [d] ∧ p d = true.
Proof.
  generalize all_ascii elem_of_all_ascii. intros l Hl. rewrite list_elem_of_fmap. split.
  - intros (d & -> & Hd). exists d. split; [done|]. by apply list_elem_of_In, filter_In in Hd as [_ ?].
  - intros (d & -> & Hd). exists d. split; [done|]. apply list_elem_of_In, filter_In.
    split; [|done]. apply list_elem_of_In, Hl.
Qed.

Lemma leads_class {A} p (k : position → option A) x : blind k →
  is_Some (matcher (Class p) k x) ↔ leads (map (λ c, [c]) (List.filter p all_ascii)) k x.
Proof.
  intros Hk. cbn [matcher]. split.
  - destruct (rest x) as [|c l] eqn:Hx; [by intros []|]. destruct (accepts_char p c) eqn:Hc; [|by intros []].
    intros Hs. apply accepts_char_spec in Hc as (d & Hd & Hf). exists [d], [c], l. split_and!.
    + apply elem_of_class. by exists d.
    + unfold spells. cbn. by rewrite Hf.
    + done.
    + by apply (Hk (mkPosition (Some c) l (captures x))).
  - intros (w & u & v & Hw & Hu & Hx & Hs). apply elem_of_class in Hw as (d & -> & Hd). unfold spells in Hu.
    destruct u as [|c [|]]; cbn in Hu; try done. injection Hu as Hu. cbn in Hx. rewrite Hx.
    rewrite (proj2 (accepts_char_spec p c)) by by exists d. by apply (Hk (after v)).
Qed.

Lemma matcher_words {A} r ws (k : position → option A) x : words r = Some ws → blind k →
  is_Some (matcher r k x) ↔ leads ws k x.
Proof.
  revert ws k x. induction r as [p| |r IHr s IHs|r IHr s IHs|g a b r IH|n r IH| | |]; intros ws k x Hw Hk; try done.
  - cbn [words] in Hw. apply (inj Some) in Hw as <-. by apply leads_class.
  - cbn [words] in Hw. apply (inj Some) in Hw as <-. by apply leads_empty.
  - cbn [words] in Hw. apply bind_Some in Hw as (a & Ha & (b & Hb & [= <-])%bind_Some). cbn [matcher].
    assert (∀ y, is_Some (matcher s k y) ↔ leads b k y) as Hs by (intros; by apply IHs).
    rewrite (IHr a) by (done || by eapply leads_blind). by apply leads_product.
  - cbn [words] in Hw. apply bind_Some in Hw as (a & Ha & (b & Hb & [= <-])%bind_Some). cbn [matcher].
    by rewrite is_Some_or_else, leads_app, (IHr a), (IHs b).
  - destruct g, a, b as [[|[]]|]; try done. cbn [words] in Hw. apply bind_Some in Hw as (a & Ha & Hw).
    apply (inj Some) in Hw as <-. change ([] :: a) with ([[]] ++ a). rewrite leads_app, <-(leads_empty k x Hk).
    change (is_Some (or_else (matcher r (λ y, if Nat.eqb (length (rest y)) (length (rest x)) then None
      else repeat_with (matcher r) true (length (rest x)) 0 (Some 0) k y) x) (λ _, k x)) ↔ is_Some (k x) ∨ leads a k x).
    rewrite is_Some_or_else. set (k' := λ y : position, _).
    assert (∀ y, k' y = if Nat.eqb (length (rest y)) (length (rest x)) then None else k y) as Hk'.
    { intros y. unfold k'. destruct (length (rest x)); done. }
    assert (blind k') as Hb by (intros y z Hyz; rewrite !Hk', Hyz; case_match; [done|by apply Hk]).
    rewrite (IH a k' x Ha Hb). unfold leads. setoid_rewrite Hk'. cbn [rest after]. split.
    + intros [(w & u & v & Hin & Hu & Hx & Hs)|?]; [|by left]. right. exists w, u, v. by case_match; [destruct Hs|].
    + intros [?|(w & u & v & Hin & Hu & Hx & Hs)]; [by right|].
      destruct (Nat.eqb_spec (length v) (length (rest x))) as [Hl|Hl].
      * right. apply (Hk (after v)); [|done]. cbn. rewrite Hx, length_app in Hl.
        destruct u; cbn in *; [done|lia].
      * left. exists w, u, v. split_and!; [done..|]. by apply Nat.eqb_neq in Hl as ->.
  - cbn [words] in Hw. cbn [matcher].
    assert (∀ y, is_Some (k y) ↔ is_Some (k (mkPosition (before y) (rest y)
      ((n, take (length (rest x) - length (rest y)) (rest x)) :: captures y)))) as Hg by (intros y; split; by apply Hk).
    rewrite (IH ws); [|done|].
    + unfold leads. by setoid_rewrite <-Hg.
    + intros y z Hyz Hs. apply Hg in Hs. apply Hg. by apply (Hk y).
Qed.

(** ** What [test] finds *)
Fixpoint prefix_ci (w l : list ascii) : bool :=
  match w, l with
  | [], _ => true
  | c :: w, d :: l => Ascii.eqb (fold_case c) (fold_case d) && prefix_ci w l
  | _, [] => false
  end.
Fixpoint infix_ci (w l : list ascii) : bool :=
  prefix_ci w l || match l with [] => false | _ :: l => infix_ci w l end.

Lemma prefix_ci_spec w l : prefix_ci w l = true ↔ ∃ u v, l = u ++ v ∧ spells w u.
Proof.
  revert l. induction w as [|c w IH]; intros l; cbn.
  { split; [intros _; by exists [], l|done]. }
  destruct l as [|d l].
  { split; [done|]. intros (u & v & Hl & Hs). symmetry in Hl. apply app_nil in Hl as [-> ->]. done. }
  rewrite andb_true_iff, Ascii.eqb_eq, IH. unfold spells. split.
  - intros [Hc (u & v & -> & Hs)]. exists (d :: u), v. split; [done|]. cbn. by rewrite Hc, Hs.
  - intros ([|x u] & v & Hl & Hs); [done|]. cbn in Hl, Hs. simplify_eq. split; [done|]. by exists u, v.
Qed.

Lemma blind_Some : blind Some.
Proof. intros x y _ _. by eexists. Qed.

(** A pattern of finitely many texts is found where one of them occurs. *)
Lemma test_from_words r ws b l : words r = Some ws → test_from r b l = some (λ w, infix_ci w l) ws.
Proof.
  intros Hw.
  assert (∀ b l, is_Some (match_at r b l) ↔ some (λ w, prefix_ci w l) ws = true) as Hm.
  { intros b' l'. unfold match_at. rewrite (matcher_words r ws Some _ Hw blind_Some), some_true. unfold leads. cbn [rest].
    setoid_rewrite prefix_ci_spec. split.
    - intros (w & u & v & Hin & Hu & Hx & _). eauto 6.
    - intros (w & Hin & u & v & Hx & Hu). exists w, u, v. by split_and!. }
  revert b. induction l as [|c l IH]; intros b.
  - cbn. specialize (Hm b []). destruct (match_at r b []).
    + symmetry. apply some_true. destruct (proj1 (some_true _ _) (proj1 Hm ltac:(by eexists))) as (w & Hin & Hp).
      exists w. split; [done|]. by rewrite Hp.
    + symmetry. apply some_false. intros w Hin. rewrite orb_false_r. apply not_true_iff_false. intros Hp.
      destruct (proj2 Hm) as [? ?]; [|done]. apply some_true. eauto.
  - cbn [test_from]. specialize (Hm b (c :: l)). destruct (match_at r b (c :: l)).
    + symmetry. apply some_true. destruct (proj1 (some_true _ _) (proj1 Hm ltac:(by eexists))) as (w & Hin & Hp).
      exists w. split; [done|]. cbn [infix_ci]. by rewrite Hp.
    + rewrite IH. apply Bool.eq_iff_eq_true. rewrite !some_true. split; intros (w & Hin & Hi); exists w; (split; [done|]).
      * cbn [infix_ci]. by rewrite Hi, orb_true_r.
      * cbn [infix_ci] in Hi. apply orb_true_iff in Hi as [Hp|Hi]; [|done].
        destruct (proj2 Hm) as [? ?]; [|done]. apply some_true. eauto.
Qed.
Lemma test_words r ws s : words r = Some ws → test r s = some (λ w, infix_ci w (Str.chars s)) ws.
Proof. apply test_from_words. Qed.

(** The same between the anchors: the whole text. *)
Lemma blind_end : blind (λ x, match rest x with [] => Some x | _ => None end).
Proof. intros x y Hxy. rewrite Hxy. case_match; [|done]. intros _. by eexists. Qed.

Lemma test_whole r ws s : words r = Some ws →
  test (Then Start (Then r End_)) s = some (λ w, bool_decide (spells w (Str.chars s))) ws.
Proof.
  intros Hw. unfold test.
  assert (∀ c l, test_from (Then Start (Then r End_)) (Some c) l = false) as Hlater.
  { intros c l. revert c. induction l as [|d l IH]; intros c; [done|]. cbn [test_from]. apply IH. }
  set (l := Str.chars s).
  assert (test_from (Then Start (Then r End_)) None l =
    bool_decide (is_Some (match_at (Then Start (Then r End_)) None l))) as ->.
  { destruct l as [|c l']; cbn [test_from]; destruct (match_at _ None _); try rewrite Hlater; symmetry;
      first [by apply bool_decide_eq_true; eexists | by apply bool_decide_eq_false; intros []]. }
  apply Bool.eq_iff_eq_true. rewrite bool_decide_eq_true, some_true.
  change (match_at (Then Start (Then r End_)) None l)
    with (matcher r (λ x, match rest x with [] => Some x | _ => None end) (mkPosition None l [])).
  rewrite (matcher_words r ws _ _ Hw blind_end). unfold leads. cbn [rest after]. split.
  - intros (w & u & [|] & Hin & Hu & Hx & Hs); [|by destruct Hs]. exists w. split; [done|].
    apply bool_decide_eq_true. by rewrite Hx, app_nil_r.
  - intros (w & Hin & Hs%bool_decide_eq_true). exists w, l, []. split_and!; [done|done|by rewrite app_nil_r|by eexists].
Qed.
End Matching.
