(* ===== verification/NumOrder.v ===== *)
(** * The order of binary64 numbers

    Rounding to the nearest number, ties to even, preserves the order of exact
    values; so sums, products, quotients and [Math.round] of amounts do.  An
    amount is a number at least zero, infinity included; [val] is its value in
    units of the smallest number. *)
From S2P Require Import Prelude JsLib NumBounds NumDiv.
From Stdlib Require Import SpecFloat.

#[local] Open Scope Z_scope.

(** ** Nearest integers *)

(** [n] is [X/U] rounded to the nearest integer, to the even one of two. *)
Definition nearest (n X U : Z) : Prop :=
  2 * (X - n * U) ≤ U ∧ 2 * (n * U - X) ≤ U ∧
  (2 * (X - n * U) = U ∨ 2 * (n * U - X) = U → Z.even n = true).

Lemma nearest_scale c n X U : 0 < c → nearest n X U → nearest n (c * X) (c * U).
Proof.
  intros Hc (H1 & H2 & H3).
  replace (n * (c * U)) with (c * (n * U)) by ring. unfold nearest.
  replace (n * (c * U)) with (c * (n * U)) by ring.
  split_and!; [nia|nia|]. intros H. apply H3. nia.
Qed.

Lemma nearest_mono U n1 X1 n2 X2 : 0 < U → nearest n1 X1 U → nearest n2 X2 U → X1 ≤ X2 → n1 ≤ n2.
Proof.
  intros HU (A1 & A2 & A3) (B1 & B2 & B3) HX. destruct (Z.le_gt_cases n1 n2) as [|Hn]; [done|]. exfalso.
  assert (n1 = n2 + 1) as -> by nia.
  assert (2 * ((n2 + 1) * U - X1) = U ∧ 2 * (X2 - n2 * U) = U) as [E1 E2] by nia.
  specialize (A3 (or_intror E1)). specialize (B3 (or_introl E2)).
  rewrite Z.even_add, B3 in A3. done.
Qed.

Lemma nearest_bounds k n X U : 0 < U → nearest n X U → (X ≤ k * U → n ≤ k) ∧ (k * U ≤ X → k ≤ n).
Proof. intros HU (H1 & H2 & _). split; intros HX; nia. Qed.

(** A fraction with its bits is rounded to the nearest. *)
Lemma round_nearest N B r : 0 < B → rep N B r → nearest (round_nearest_even (shr_m r) (loc_of_shr_record r)) N B.
Proof.
  intros HB Hrep. destruct (round_near N B r HB Hrep) as (_ & H1 & H2). split_and!; [done|done|].
  destruct Hrep as [Hm Hr Hs]. destruct r as [m rb sb]. cbn [shr_m shr_r shr_s] in *. subst m.
  pose proof (Z.div_mod N B ltac:(lia)) as HN. pose proof (Z.mod_pos_bound N B HB) as Hb.
  destruct rb, sb; symmetry in Hr, Hs;
    rewrite ?andb_false_iff, ?andb_true_iff, ?negb_true_iff, ?negb_false_iff, ?Z.leb_gt, ?Z.leb_le, ?Z.eqb_eq, ?Z.eqb_neq in Hr, Hs;
    cbn [loc_of_shr_record round_nearest_even] in *; try nia.
  destruct (Z.even (N / B)) eqn:Hev; [done|]. intros _. by rewrite Z.even_add, Hev.
Qed.

Lemma rep_scale c N B r : 0 < c → 0 < B → rep N B r → rep (c * N) (c * B) r.
Proof.
  intros Hc HB [Hm Hr Hs]. rewrite <-(Z.mul_comm N), <-(Z.mul_comm B).
  assert (N * c / (B * c) = N / B) as Hd by (apply Z.div_mul_cancel_r; lia).
  assert ((N * c) mod (B * c) = (N mod B) * c) as Hmod by (apply Z.mul_mod_distr_r; lia).
  split; rewrite ?Hd, ?Hmod; [done| |].
  - rewrite Hr. apply Bool.eq_iff_eq_true. rewrite !Z.leb_le. nia.
  - rewrite Hs. apply Bool.eq_iff_eq_true. rewrite !andb_true_iff, !negb_true_iff, !Z.eqb_neq. nia.
Qed.

(** ** Amounts *)
Definition top : Z := 2 ^ 2098.
Definition unit_of (f : Z) : Z := 2 ^ (f + 1074).
Arguments top : simpl never.
Arguments unit_of : simpl never.

Definition amount (x : number) : bool :=
  match x with
  | S754_zero _ | S754_infinity false => true
  | S754_finite false m e => bounded 53 1024 m e
  | _ => false
  end.
Definition val (x : number) : Z :=
  match x with
  | S754_finite _ m e => Z.pos m * unit_of e
  | S754_infinity _ => top
  | _ => 0
  end.

Lemma unit_pos f : -1074 ≤ f → 0 < unit_of f.
Proof. intros. apply pow_pos. lia. Qed.
Lemma unit_split f g : -1074 ≤ f ≤ g → unit_of g = 2 ^ (g - f) * unit_of f.
Proof. intros. unfold unit_of. rewrite <-Z.pow_add_r by lia. f_equal. lia. Qed.
Lemma top_unit : top = 2 ^ 53 * unit_of 971.
Proof. unfold top, unit_of. rewrite <-Z.pow_add_r by lia. done. Qed.

(** The forms of a finite amount: 53 digits, or the smallest exponent. *)
Lemma bounded_spec m e : bounded 53 1024 m e = true ↔
  -1074 ≤ e ≤ 971 ∧ Z.pos m < 2 ^ 53 ∧ (e = -1074 ∨ 2 ^ 52 ≤ Z.pos m).
Proof.
  unfold bounded, canonical_mantissa, fexp, emin. rewrite andb_true_iff, Z.eqb_eq, Z.leb_le.
  pose proof (Zdigits2_bounds (Z.pos m) ltac:(lia)) as [Hlo Hhi]. cbn [Zdigits2] in *.
  set (d := Z.pos (digits2_pos m)) in *. split.
  - intros [He Hmax]. split; [lia|]. assert (d ≤ 53) by lia.
    assert (2 ^ d ≤ 2 ^ 53) by (apply Z.pow_le_mono_r; lia). split; [lia|].
    destruct (decide (e = -1074)) as [|Hne]; [by left|]. right. assert (d = 53) as Hd by lia. by rewrite Hd in Hlo.
  - intros (He & Hm & Hcase). split; [|lia].
    assert (d ≤ 53) by (apply (Zdigits2_le (Z.pos m) 53); lia). destruct Hcase as [->|Hm2]; [lia|].
    assert (Zdigits2 (Z.pos m) = 53) as Hd by (apply digits_of; lia). cbn [Zdigits2] in Hd. fold d in Hd. lia.
Qed.

Lemma val_finite m e : bounded 53 1024 m e = true → 0 < val (S754_finite false m e) < top.
Proof.
  intros (He & Hm & _)%bounded_spec. cbn [val]. pose proof (unit_pos e ltac:(lia)). rewrite top_unit.
  assert (unit_of e ≤ unit_of 971) by (rewrite (unit_split e 971) by lia; pose proof (pow_pos (971 - e) ltac:(lia)); nia). nia.
Qed.
Lemma val_range x : amount x = true → 0 ≤ val x ≤ top.
Proof.
  assert (0 < top) by by apply pow_pos.
  destruct x as [|[]| |[] m e]; try done; cbn [amount]; intros Hx; cbn [val]; try lia.
  pose proof (val_finite m e Hx) as Hv. cbn [val] in Hv. lia.
Qed.

(** The comparison of amounts compares their values. *)
Lemma compare_finite m1 e1 m2 e2 : bounded 53 1024 m1 e1 = true → bounded 53 1024 m2 e2 = true →
  (e1 < e2 ∨ (e1 = e2 ∧ Z.pos m1 ≤ Z.pos m2)) ↔ val (S754_finite false m1 e1) ≤ val (S754_finite false m2 e2).
Proof.
  assert (∀ m e m' e', bounded 53 1024 m e = true → bounded 53 1024 m' e' = true → e < e' →
    Z.pos m * unit_of e < Z.pos m' * unit_of e') as Hlt.
  { intros m e m' e' (He & Hm & _)%bounded_spec (He' & Hm' & Hc)%bounded_spec Hee. rewrite (unit_split e e') by lia.
    pose proof (unit_pos e ltac:(lia)). destruct Hc as [|Hc]; [lia|].
    assert (2 ^ 1 ≤ 2 ^ (e' - e)) by (apply Z.pow_le_mono_r; lia). rewrite Z.mul_assoc. apply Z.mul_lt_mono_pos_r; nia. }
  intros H1 H2. cbn [val]. split.
  - intros [He|[-> Hm]]; [specialize (Hlt m1 e1 m2 e2 H1 H2 He); lia|].
    pose proof (unit_pos e2 ltac:(apply bounded_spec in H2; lia)). nia.
  - intros Hv. destruct (Z.lt_trichotomy e1 e2) as [?|[->|He]]; [by left| |].
    + right. split; [done|]. pose proof (unit_pos e2 ltac:(apply bounded_spec in H2; lia)). nia.
    + specialize (Hlt m2 e2 m1 e1 H2 H1 He). lia.
Qed.

Lemma leb_val x y : amount x = true → amount y = true → Num.leb x y = true ↔ val x ≤ val y.
Proof.
  intros Hx Hy. rewrite Num.leb_key by by (intros ->). unfold Num.key_le.
  assert (0 < top) by by apply pow_pos.
  destruct x as [sx|[]| |[] mx ex], y as [sy|[]| |[] my ey]; try done; cbn [amount] in Hx, Hy;
    cbn [Num.order_key fst snd];
    try (pose proof (val_finite _ _ Hx)); try (pose proof (val_finite _ _ Hy)); cbn [val] in *; try lia.
  rewrite <-(compare_finite mx ex my ey Hx Hy). lia.
Qed.

(** ** Rounding *)

(** [y] is a nearest number to [X/D], in units of the square of the smallest
    number's: the exponent leaves 53 digits, unless it is the least one. *)
Definition rounded (X D : Z) (y : number) : Prop :=
  amount y = true ∧ ∃ f n, -1074 ≤ f ∧ X < 2 ^ 53 * (D * 2 ^ (f + 2148)) ∧
    (f = -1074 ∨ 2 ^ 52 * (D * 2 ^ (f + 2148)) ≤ X) ∧
    nearest n X (D * 2 ^ (f + 2148)) ∧ val y = Z.min (n * unit_of f) top.

(** Rounding preserves the order. *)
Lemma rounded_mono X1 D1 y1 X2 D2 y2 : 0 < D1 → 0 < D2 → rounded X1 D1 y1 → rounded X2 D2 y2 →
  X1 * D2 ≤ X2 * D1 → val y1 ≤ val y2.
Proof.
  intros HD1 HD2 (_ & f1 & n1 & Hf1 & U1 & L1 & N1 & V1) (_ & f2 & n2 & Hf2 & U2 & L2 & N2 & V2) HX.
  enough (n1 * unit_of f1 ≤ n2 * unit_of f2) by lia. clear V1 V2.
  pose proof (unit_pos f1 Hf1) as P1. pose proof (unit_pos f2 Hf2) as P2.
  assert (0 < 2 ^ (f1 + 2148) ∧ 0 < 2 ^ (f2 + 2148)) as [Q1 Q2] by (split; apply pow_pos; lia).
  assert (0 < D1 * 2 ^ (f1 + 2148) ∧ 0 < D2 * 2 ^ (f2 + 2148)) as [R1 R2] by (split; by apply Z.mul_pos_pos).
  destruct (Z.lt_trichotomy f1 f2) as [Hlt|[->|Hgt]].
  - destruct L2 as [|L2]; [lia|].
    assert (n1 ≤ 2 ^ 53) by (apply (nearest_bounds _ _ _ _ R1 N1); lia).
    assert (2 ^ 52 ≤ n2) by (by apply (nearest_bounds _ _ _ _ R2 N2)).
    rewrite (unit_split f1 f2), Z.mul_assoc by lia. apply Z.mul_le_mono_pos_r; [done|].
    assert (2 ^ 1 ≤ 2 ^ (f2 - f1)) by (apply Z.pow_le_mono_r; lia). nia.
  - enough (n1 ≤ n2) by nia. set (Q := 2 ^ (f2 + 2148)) in *.
    apply (nearest_mono (D1 * D2 * Q) n1 (D2 * X1) n2 (D1 * X2)); [nia| | |lia].
    + replace (D1 * D2 * Q) with (D2 * (D1 * Q)) by ring. by apply nearest_scale.
    + replace (D1 * D2 * Q) with (D1 * (D2 * Q)) by ring. by apply nearest_scale.
  - exfalso. destruct L1 as [|L1]; [lia|].
    assert (2 * 2 ^ (f2 + 2148) ≤ 2 ^ (f1 + 2148)) as Hp.
    { rewrite <-Z.pow_succ_r by lia. apply Z.pow_le_mono_r; lia. }
    set (A := 2 ^ (f1 + 2148)) in *. set (B := 2 ^ (f2 + 2148)) in *.
    assert (X2 * D1 < 2 ^ 53 * (D2 * B) * D1) by nia.
    assert (2 ^ 52 * (D1 * A) * D2 ≤ X1 * D2) by nia.
    assert (2 ^ 53 * (D2 * B) * D1 = 2 ^ 52 * (2 * B) * (D1 * D2)) by ring.
    assert (2 ^ 52 * (D1 * A) * D2 = 2 ^ 52 * A * (D1 * D2)) by ring.
    assert (0 < D1 * D2) by nia. nia.
Qed.

(** The last step of rounding: a mantissa of at most 53 digits, or [2^53]. *)
Lemma fit_amount n f : 0 ≤ n ≤ 2 ^ 53 → -1074 ≤ f → (f = -1074 ∨ 2 ^ 52 ≤ n) →
  let y := (let '(r, e) := shr_fexp 53 1024 n f loc_Exact in
            match shr_m r with
            | Z0 => S754_zero false
            | Zpos m => if Z.leb e (Z.sub 1024 53) then S754_finite false m e else S754_infinity false
            | _ => S754_nan
            end) in
  amount y = true ∧ val y = Z.min (n * unit_of f) top.
Proof.
  intros Hn Hf Hc. destruct (shr_fexp_spec n f) as (r & -> & Hr & _); [lia|]. rewrite Hr. clear Hr r.
  pose proof (unit_pos f Hf) as HU. assert (0 < top) by by apply pow_pos.
  assert (∃ m e, n / 2 ^ dropped n f = m ∧ f + dropped n f = e ∧ -1074 ≤ e ∧ 0 ≤ m < 2 ^ 53 ∧
    (e = -1074 ∨ 2 ^ 52 ≤ m) ∧ n * unit_of f = m * unit_of e) as (m & e & -> & -> & He & Hm & Hcm & ->).
  { destruct (decide (n = 2 ^ 53)) as [->|Hne].
    - assert (dropped (2 ^ 53) f = 1) as -> by (unfold dropped; change (Zdigits2 (2 ^ 53)) with 54; unfold fexp, emin; lia).
      exists (2 ^ 52), (f + 1). split_and!; try lia; [done|]. rewrite (unit_split f (f + 1)) by lia.
      replace (f + 1 - f) with 1 by lia. lia.
    - assert (dropped n f = 0) as ->.
      { unfold dropped, fexp, emin. destruct (decide (n = 0)) as [->|]; [cbn; lia|].
        pose proof (Zdigits2_le n 53 ltac:(lia) ltac:(lia) ltac:(lia)). destruct Hc as [->|Hc]; [lia|]. lia. }
      exists n, f. rewrite Z.div_1_r. split_and!; try lia; done. }
  destruct m as [|p|p]; [split; [done|cbn [val]; lia]| |lia].
  destruct (Z.leb_spec e (Z.sub 1024 53)) as [Hle|Hgt].
  - assert (bounded 53 1024 p e = true) as Hb by (apply bounded_spec; lia). split; [done|].
    pose proof (val_finite p e Hb) as Hv. cbn [val] in *. lia.
  - split; [done|]. cbn [val]. rewrite Z.min_r; [done|]. rewrite top_unit, (unit_split 971 e) by lia.
    pose proof (unit_pos 971 ltac:(lia)). assert (2 ^ 1 ≤ 2 ^ (e - 971)) by (apply Z.pow_le_mono_r; lia).
    destruct Hcm as [|Hcm]; [lia|]. rewrite Z.mul_assoc. apply Z.mul_le_mono_pos_r; [done|]. nia.
Qed.

Lemma rep_quotient N B q l : rep N B (shr_record_of_loc q l) → q = N / B.
Proof. intros [Hm _ _]. rewrite <-Hm. by destruct l as [|[]]. Qed.

Lemma quotient_bounds N B d : 0 < B → 0 ≤ d → N / B < 2 ^ d → N < 2 ^ d * B.
Proof. intros HB Hd Hq. pose proof (Z.mul_succ_div_gt N B HB). nia. Qed.

(** Rounding a fraction [N/B * 2^e] whose integer part has enough digits. *)
Lemma round_rounded N B q e l : 0 < B → 0 ≤ N → rep N B (shr_record_of_loc q l) → -2148 ≤ e →
  e ≤ fexp 53 1024 (Zdigits2 q + e) →
  rounded (N * 2 ^ (e + 2148)) B (binary_round_aux 53 1024 false q e l).
Proof.
  intros HB HN Hrep He Hfe. set (f := fexp 53 1024 (Zdigits2 q + e)) in *.
  assert (-1074 ≤ f) as Hf by (unfold f, fexp, emin; lia).
  assert (dropped q e = f - e) as Hd by (unfold dropped; fold f; lia).
  pose proof (rep_quotient _ _ _ _ Hrep) as Hq. pose proof (pow_pos (f - e) ltac:(lia)) as HP.
  destruct (shr_fexp_rep N (2 ^ (f - e) * B) q e l ltac:(nia) HN) as (r & Hs & Hr).
  { rewrite Hd. apply rep_scale; done. }
  rewrite Hd in Hs. replace (e + (f - e)) with f in Hs by lia.
  pose proof (round_nearest N (2 ^ (f - e) * B) r ltac:(nia) Hr) as Hn.
  set (n := round_nearest_even (shr_m r) (loc_of_shr_record r)) in *.
  assert (N < 2 ^ 53 * (2 ^ (f - e) * B) ∧ (f = -1074 ∨ 2 ^ 52 * (2 ^ (f - e) * B) ≤ N)) as [Hup Hlo].
  { rewrite !Z.mul_assoc, <-!Z.pow_add_r by lia. assert (0 ≤ q) by (subst q; apply Z.div_pos; lia).
    assert (Zdigits2 q ≤ 53 + (f - e)) as Hdf by (unfold f, fexp; lia). split.
    - apply quotient_bounds; [done|lia|]. rewrite <-Hq. destruct (decide (q = 0)) as [->|]; [apply pow_pos; lia|].
      pose proof (Zdigits2_bounds q ltac:(lia)) as [_ Hhi]. apply (Z.lt_le_trans _ _ _ Hhi), Z.pow_le_mono_r; lia.
    - destruct (decide (f = -1074)) as [|Hne]; [by left|]. right.
      assert (Zdigits2 q = 53 + (f - e)) as Hdq by (unfold f, fexp, emin in *; lia).
      assert (q ≠ 0) as Hq0 by (intros ->; cbn [Zdigits2] in *; lia).
      pose proof (Zdigits2_bounds q ltac:(lia)) as [Hlo _]. rewrite Hdq in Hlo.
      replace (53 + (f - e) - 1) with (52 + (f - e)) in Hlo by lia.
      pose proof (Z.mul_div_le N B HB) as Hdiv. rewrite <-Hq in Hdiv. nia. }
  set (U := 2 ^ (f - e) * B) in *. assert (0 < U) as HU by (unfold U; nia).
  destruct (fit_amount n f) as [Ha Hv].
  { split; [apply (nearest_bounds 0 n N U HU Hn); lia|apply (nearest_bounds (2 ^ 53) n N U HU Hn); lia]. }
  { done. }
  { destruct Hlo as [|Hlo]; [by left|]. right. by apply (nearest_bounds (2 ^ 52) n N U HU Hn). }
  unfold binary_round_aux. rewrite Hs. fold n. split; [exact Ha|]. exists f, n.
  assert (B * 2 ^ (f + 2148) = 2 ^ (e + 2148) * U) as ->.
  { unfold U. rewrite Z.mul_assoc, <-Z.pow_add_r by lia. rewrite (Z.mul_comm B). do 2 f_equal. lia. }
  pose proof (pow_pos (e + 2148) ltac:(lia)) as HE. rewrite (Z.mul_comm N).
  split_and!; [done|nia|destruct Hlo; [by left|right; nia]|by apply nearest_scale|exact Hv].
Qed.

Lemma rounded_scale c X D y : 0 < c → 0 < D → rounded X D y → rounded (c * X) (c * D) y.
Proof.
  intros Hc HD (Ha & f & n & Hf & U & L & N & V). split; [done|]. exists f, n.
  rewrite <-Z.mul_assoc. set (Q := D * 2 ^ (f + 2148)) in *.
  split_and!; [done|nia|destruct L; [by left|right; nia]|by apply nearest_scale|done].
Qed.

Lemma exact_rep m : rep m 1 (shr_record_of_loc m loc_Exact).
Proof. pose proof (location_rep m 1 ltac:(lia)) as H. by rewrite Z.div_1_r, Z.mod_1_r in H. Qed.

(** ** The operations round the exact result *)

Lemma binary_round_rounded p e : -1074 ≤ e → rounded (Z.pos p * 2 ^ (e + 2148)) 1 (binary_round 53 1024 false p e).
Proof.
  intros He. unfold binary_round. set (f := fexp 53 1024 (Z.pos (digits2_pos p) + e)).
  assert (-1074 ≤ f) as Hf by (unfold f, fexp, emin; lia).
  destruct (Z_le_gt_dec e f) as [Hle|Hgt].
  - assert (shl_align p e f = (p, e)) as ->.
    { unfold shl_align. destruct (f - e) eqn:Hx; [done|done|lia]. }
    apply round_rounded; [lia|lia|apply exact_rep|lia|exact Hle].
  - pose proof (shl_align_value p e f ltac:(lia)) as Hv.
    assert (snd (shl_align p e f) = f) as He'.
    { unfold shl_align. destruct (f - e) eqn:Hx; [lia|lia|]. done. }
    destruct (shl_align p e f) as [p' e'] eqn:Hs. cbn [fst snd] in *. subst e'.
    assert (Z.pos p * 2 ^ (e + 2148) = Z.pos p' * 2 ^ (f + 2148)) as ->.
    { rewrite Hv, <-Z.mul_assoc, <-Z.pow_add_r by lia. do 2 f_equal. lia. }
    apply round_rounded; [lia|lia|apply exact_rep|lia|].
    rewrite Hv, digits_shift by lia. cbn [Zdigits2].
    replace (Z.pos (digits2_pos p) + (e - f) + f) with (Z.pos (digits2_pos p) + e) by lia. by fold f.
Qed.

Definition finite (x : number) : Prop := amount x = true ∧ Num.isFinite x = true.

(** A finite amount is zero or a normal form. *)
Lemma finite_cases x : finite x → (val x = 0 ∧ ∃ s, x = S754_zero s) ∨
  ∃ m e, x = S754_finite false m e ∧ bounded 53 1024 m e = true.
Proof. intros [Ha Hf]. destruct x as [s|[]| |[] m e]; try done; [left|right]; eauto. Qed.

Lemma exact_rounded x X : finite x → X = val x * 2 ^ 1074 → rounded X 1 x.
Proof.
  intros Hx ->. split; [apply Hx|]. destruct (finite_cases x Hx) as [[-> [s ->]]|(m & e & -> & Hb)].
  - exists (-1074), 0. split_and!; try done; by left.
  - pose proof (val_finite m e Hb) as Hv. apply bounded_spec in Hb as (He & Hm & Hc). exists e, (Z.pos m).
    cbn [val] in *. assert (Z.pos m * unit_of e * 2 ^ 1074 = Z.pos m * (1 * 2 ^ (e + 2148))) as ->.
    { unfold unit_of. rewrite Z.mul_1_l, <-Z.mul_assoc, <-Z.pow_add_r by lia. do 2 f_equal. lia. }
    pose proof (pow_pos (e + 2148) ltac:(lia)). split_and!; [lia|nia|destruct Hc; [by left|right; nia]| |lia].
    unfold nearest. split_and!; [lia|lia|]. intros. exfalso. lia.
Qed.

Lemma unit_square e : -1074 ≤ e → unit_of e * 2 ^ 1074 = 2 ^ (e + 2148).
Proof. intros. unfold unit_of. rewrite <-Z.pow_add_r by lia. f_equal. lia. Qed.

(** The aligned mantissa of [x] at a smaller exponent. *)
Lemma align_val m e e' : -1074 ≤ e' ≤ e → Z.pos (fst (shl_align m e e')) * unit_of e' = Z.pos m * unit_of e.
Proof. intros He. rewrite shl_align_value, (unit_split e' e) by lia. lia. Qed.

Lemma add_rounded x y : finite x → finite y → rounded ((val x + val y) * 2 ^ 1074) 1 (Num.add x y).
Proof.
  intros Hx Hy. destruct (finite_cases x Hx) as [[-> [s ->]]|(m & e & -> & Hb)],
    (finite_cases y Hy) as [[Hy0 [s' ->]]|(m' & e' & -> & Hb')].
  - by destruct s, s'; apply exact_rounded.
  - apply exact_rounded; [done|]. by rewrite Z.add_0_l.
  - apply exact_rounded; [done|]. by rewrite Hy0, Z.add_0_r.
  - unfold Num.add, SFadd, cond_Zopp. set (ez := Z.min e e').
    apply bounded_spec in Hb as [He _], Hb' as [He' _].
    pose proof (align_val m e ez ltac:(lia)) as A1. pose proof (align_val m' e' ez ltac:(lia)) as A2.
    cbn [val]. rewrite <-A1, <-A2, <-Z.mul_add_distr_r, <-Z.mul_assoc, unit_square by lia.
    apply binary_round_rounded. lia.
Qed.

Lemma digits_pos m : 0 < m → 0 < Zdigits2 m.
Proof. by destruct m. Qed.
Lemma digits_le m n : 0 < m ≤ n → Zdigits2 m ≤ Zdigits2 n.
Proof.
  intros Hm. pose proof (Zdigits2_bounds n ltac:(lia)). pose proof (digits_pos n ltac:(lia)).
  apply Zdigits2_le; lia.
Qed.

Lemma mul_rounded x y : finite x → finite y → rounded (val x * val y) 1 (Num.mul x y).
Proof.
  intros Hx Hy. destruct (finite_cases x Hx) as [[-> [s ->]]|(m & e & -> & Hb)],
    (finite_cases y Hy) as [[Hy0 [s' ->]]|(m' & e' & -> & Hb')].
  - by apply exact_rounded.
  - by apply exact_rounded.
  - apply exact_rounded; [done|]. by rewrite Hy0, Z.mul_0_r.
  - unfold Num.mul, SFmul. cbn [xorb val].
    apply bounded_spec in Hb as (He & Hm & Hc), Hb' as (He' & Hm' & Hc').
    assert (Z.pos m * unit_of e * (Z.pos m' * unit_of e') = Z.pos (m * m') * 2 ^ (e + e' + 2148)) as ->.
    { rewrite Pos2Z.inj_mul. replace (2 ^ (e + e' + 2148)) with (unit_of e * unit_of e'); [ring|].
      unfold unit_of. rewrite <-Z.pow_add_r by lia. f_equal. lia. }
    apply round_rounded; [lia|lia|apply exact_rep|lia|].
    destruct (decide (e + e' ≤ -1074)) as [Hle|Hgt]; [unfold fexp, emin; lia|].
    assert (53 ≤ Zdigits2 (Z.pos (m * m'))); [|unfold fexp; lia].
    change 53 with (Zdigits2 (2 ^ 52)). apply digits_le. rewrite Pos2Z.inj_mul. nia.
Qed.

Lemma fexp_mono a b : a ≤ b → fexp 53 1024 a ≤ fexp 53 1024 b.
Proof. unfold fexp. lia. Qed.

Lemma quotient_digits a b : 0 < a → 0 < b → Zdigits2 a - Zdigits2 b ≤ Zdigits2 (a / b).
Proof.
  intros Ha Hb. pose proof (Zdigits2_bounds a Ha) as [Alo Ahi]. pose proof (Zdigits2_bounds b Hb) as [Blo Bhi].
  pose proof (digits_pos a Ha). pose proof (digits_pos b Hb).
  set (da := Zdigits2 a) in *. set (db := Zdigits2 b) in *.
  destruct (Z_le_gt_dec da db) as [Hle|Hgt].
  { assert (0 ≤ a / b) by (apply Z.div_pos; lia). destruct (a / b); cbn [Zdigits2]; lia. }
  assert (2 ^ (da - db - 1) ≤ a / b) as Hq.
  { apply Z.div_le_lower_bound; [done|]. trans (2 ^ db * 2 ^ (da - db - 1)).
    - apply Z.mul_le_mono_nonneg_r; [|lia]. pose proof (pow_pos (da - db - 1)). lia.
    - rewrite <-Z.pow_add_r by lia. by replace (db + (da - db - 1)) with (da - 1) by lia. }
  pose proof (pow_pos (da - db - 1) ltac:(lia)) as HP.
  pose proof (Zdigits2_bounds (a / b) ltac:(lia)) as [_ Hhi]. pose proof (digits_pos (a / b) ltac:(lia)).
  assert (2 ^ (da - db - 1) < 2 ^ Zdigits2 (a / b)) as Hlt by lia.
  apply Z.pow_lt_mono_r_iff in Hlt; lia.
Qed.

Lemma div_rounded x y : finite x → finite y → 0 < val y → rounded (val x * 2 ^ 2148) (val y) (Num.div x y).
Proof.
  intros Hx Hy Hpos. destruct (finite_cases y Hy) as [[Hy0 _]|(m2 & e2 & -> & Hb2)]; [lia|].
  destruct (finite_cases x Hx) as [[-> [s ->]]|(m1 & e1 & -> & Hb1)].
  { unfold Num.div. cbn [SFdiv]. split; [by destruct s|]. exists (-1074), 0. rewrite Z.mul_0_l.
    split_and!; [lia|nia|by left|unfold nearest; split_and!; [nia|nia|done]|by destruct s]. }
  unfold Num.div, SFdiv. cbn [xorb val]. cbn [val] in Hpos. unfold SFdiv_core_binary.
  apply bounded_spec in Hb1 as (He1 & Hm1 & _), Hb2 as (He2 & Hm2 & _).
  set (D := Zdigits2 (Z.pos m1) + e1 - (Zdigits2 (Z.pos m2) + e2)).
  set (e' := Z.min (fexp 53 1024 D) (e1 - e2)). assert (-2148 ≤ e') as He' by (unfold e', fexp, emin; lia).
  set (sh := e1 - e2 - e'). assert (0 ≤ sh) as Hsh by (unfold sh, e'; lia). pose proof (pow_pos sh Hsh) as HP.
  assert (match sh with Z0 => Z.pos m1 | Z.pos _ => Z.shiftl (Z.pos m1) sh | Z.neg _ => 0 end = Z.pos m1 * 2 ^ sh) as ->.
  { destruct sh as [|p|p] eqn:Hp; [lia| |lia]. by rewrite Z.shiftl_mul_pow2 by lia. }
  destruct (Z.div_eucl (Z.pos m1 * 2 ^ sh) (Z.pos m2)) as [q r] eqn:Hqr.
  assert (q = Z.pos m1 * 2 ^ sh / Z.pos m2) as Hq by (unfold Z.div; by rewrite Hqr).
  assert (r = (Z.pos m1 * 2 ^ sh) mod Z.pos m2) as Hr by (unfold Z.modulo; by rewrite Hqr).
  assert (rounded (Z.pos m1 * 2 ^ sh * 2 ^ (e' + 2148)) (Z.pos m2)
    (binary_round_aux 53 1024 false q e' (new_location (Z.pos m2) r))) as Hround.
  { apply round_rounded; [lia|nia| |lia|].
    - rewrite Hq, Hr. by apply location_rep.
    - trans (fexp 53 1024 D); [unfold e'; lia|]. apply fexp_mono. rewrite Hq.
      pose proof (quotient_digits (Z.pos m1 * 2 ^ sh) (Z.pos m2) ltac:(nia) ltac:(lia)) as Hd.
      rewrite digits_shift in Hd by lia. unfold D. assert (sh = e1 - e2 - e') as Esh by done. clearbody sh. lia. }
  apply (rounded_scale (unit_of e2)) in Hround; [|apply unit_pos; lia|lia].
  replace (Z.pos m2 * unit_of e2) with (unit_of e2 * Z.pos m2) by ring.
  enough (Z.pos m1 * unit_of e1 * 2 ^ 2148 = unit_of e2 * (Z.pos m1 * 2 ^ sh * 2 ^ (e' + 2148))) as -> by exact Hround.
  replace (unit_of e2 * (Z.pos m1 * 2 ^ sh * 2 ^ (e' + 2148))) with (Z.pos m1 * (unit_of e2 * 2 ^ sh * 2 ^ (e' + 2148))) by ring.
  rewrite <-Z.mul_assoc. f_equal. unfold unit_of. rewrite <-!Z.pow_add_r by lia. f_equal. unfold sh. lia.
Qed.

(** ** Differences, as far as they are positive *)
Lemma align_neg_sum m e m' e' ez : -1074 ≤ ez ≤ e → ez ≤ e' →
  (Z.pos (fst (shl_align m e ez)) - Z.pos (fst (shl_align m' e' ez))) * unit_of ez = Z.pos m * unit_of e - Z.pos m' * unit_of e'.
Proof. intros. rewrite Z.mul_sub_distr_r, !align_val by lia. done. Qed.

(** A number that is not above zero. *)
Definition not_above (x : number) : bool :=
  match x with S754_zero _ | S754_finite true _ _ | S754_infinity true => true | _ => false end.

Lemma round_negative p e : not_above (binary_round 53 1024 true p e) = true.
Proof.
  unfold binary_round. destruct (shl_align p e _) as [p' e']. unfold binary_round_aux.
  pose proof (shr_fexp_nonneg (Z.pos p') e' loc_Exact ltac:(lia)) as H1.
  destruct (shr_fexp 53 1024 (Z.pos p') e' loc_Exact) as [r1 e1]. cbn [fst] in H1.
  set (n := round_nearest_even _ _).
  assert (0 ≤ n) as Hn by (unfold n; pose proof (round_even_range (shr_m r1) (loc_of_shr_record r1)); lia).
  pose proof (shr_fexp_nonneg n e1 loc_Exact Hn) as H2. destruct (shr_fexp 53 1024 n e1 loc_Exact) as [r2 e2]. cbn [fst] in H2.
  destruct (shr_m r2); [done| |lia]. by destruct (e2 <=? _).
Qed.

Lemma sub_cases x y : finite x → finite y →
  if val x <=? val y then not_above (Num.sub x y) = true else rounded ((val x - val y) * 2 ^ 1074) 1 (Num.sub x y).
Proof.
  intros Hx Hy. destruct (finite_cases x Hx) as [[-> [s ->]]|(m & e & -> & Hb)],
    (finite_cases y Hy) as [[Hy0 [s' ->]]|(m' & e' & -> & Hb')].
  - rewrite Hy0. by destruct s, s'.
  - pose proof (val_finite m' e' Hb'). by rewrite (proj2 (Z.leb_le _ _)) by lia.
  - pose proof (val_finite m e Hb). rewrite Hy0, Z.sub_0_r, (proj2 (Z.leb_gt _ _)) by lia. by apply exact_rounded.
  - unfold Num.sub, SFsub, cond_Zopp. set (ez := Z.min e e').
    apply bounded_spec in Hb as [He _], Hb' as [He' _].
    pose proof (align_neg_sum m e m' e' ez ltac:(lia) ltac:(lia)) as A. pose proof (unit_pos ez ltac:(lia)). cbn [val].
    rewrite <-A, <-Z.mul_assoc, unit_square by lia.
    destruct (Z.leb_spec (Z.pos m * unit_of e) (Z.pos m' * unit_of e')) as [Hle|Hgt];
      destruct (Z.pos (fst (shl_align m e ez)) - Z.pos (fst (shl_align m' e' ez))) as [|p|p] eqn:Hp; try (exfalso; nia).
    + done.
    + apply round_negative.
    + apply binary_round_rounded. lia.
Qed.

(** ** Order *)
Definition num_le (x y : number) : Prop := amount x = true ∧ amount y = true ∧ val x ≤ val y.

Lemma num_le_leb x y : num_le x y ↔ amount x = true ∧ amount y = true ∧ Num.leb x y = true.
Proof. unfold num_le. split; intros (Hx & Hy & H); (split_and!; [done|done|]); by apply (leb_val x y Hx Hy). Qed.
Lemma num_le_intro x y : amount x = true → amount y = true → val x ≤ val y → num_le x y.
Proof. done. Qed.
#[export] Instance num_le_trans : Transitive num_le.
Proof. intros x y z (? & ? & ?) (? & ? & ?). apply num_le_intro; [done..|lia]. Qed.
Lemma num_le_refl x : amount x = true → num_le x x.
Proof. intros Hx. by apply num_le_intro. Qed.

Lemma rounded_le X1 X2 D y1 y2 : 0 < D → rounded X1 D y1 → rounded X2 D y2 → X1 ≤ X2 → num_le y1 y2.
Proof.
  intros HD H1 H2 HX. apply num_le_intro; [apply H1|apply H2|]. apply (rounded_mono X1 D _ X2 D _ HD HD H1 H2). nia.
Qed.

Lemma amount_cases x : amount x = true → (finite x ∧ val x < top) ∨ x = S754_infinity false.
Proof.
  intros Hx. assert (0 < top) by by apply pow_pos. destruct x as [s|[]| |[] m e]; try done; [left|by right|left].
  - split; [done|]. cbn. lia.
  - split; [done|]. by apply val_finite.
Qed.
Lemma finite_below x y : num_le x y → finite y → finite x.
Proof.
  intros (Hx & Hy & Hxy) Hf. destruct (amount_cases x Hx) as [[? _]| ->]; [done|].
  destruct (amount_cases y Hy) as [[_ ?]| ->]; [cbn [val] in *; lia|]. by destruct Hf.
Qed.
Lemma le_infinity x : amount x = true → num_le x (S754_infinity false).
Proof. intros Hx. apply num_le_intro; [done|done|]. apply (val_range x Hx). Qed.

(** A rounded operation that is increasing on finite amounts, and takes an
    infinite argument to infinity, is increasing on amounts. *)
Lemma lift_mono f (X : Z → Z) D : 0 < D → (∀ x, finite x → rounded (X (val x)) D (f x)) →
  f (S754_infinity false) = S754_infinity false → (∀ u v, 0 ≤ u ≤ v → X u ≤ X v) → Proper (num_le ==> num_le) f.
Proof.
  intros HD Hf Hinf HX x y Hxy. pose proof Hxy as (Hx & Hy & Hv).
  destruct (amount_cases y Hy) as [[Fy _]| ->].
  - pose proof (finite_below x y Hxy Fy) as Fx. pose proof (val_range x Hx).
    apply (rounded_le (X (val x)) (X (val y)) D); [done|by apply Hf|by apply Hf|apply HX; lia].
  - rewrite Hinf. apply le_infinity. destruct (amount_cases x Hx) as [[Fx _]| ->]; [|by rewrite Hinf]. by apply Hf.
Qed.

Lemma scale_mono c : finite c → 0 < val c → Proper (num_le ==> num_le) (λ x, Num.mul x c).
Proof.
  intros Hc Hp. apply (lift_mono _ (λ v, v * val c) 1); [lia|intros; by apply mul_rounded| |intros; nia].
  by destruct (finite_cases c Hc) as [[? _]|(m & e & -> & _)]; [lia|].
Qed.
Lemma div_mono c : finite c → 0 < val c → Proper (num_le ==> num_le) (λ x, Num.div x c).
Proof.
  intros Hc Hp. apply (lift_mono _ (λ v, v * 2 ^ 2148) (val c)); [done|intros; by apply div_rounded| |intros; nia].
  by destruct (finite_cases c Hc) as [[? _]|(m & e & -> & _)]; [lia|].
Qed.
Lemma mul_mono x x' y y' : finite x' → finite y' → num_le x x' → num_le y y' → num_le (Num.mul x y) (Num.mul x' y').
Proof.
  intros Fx Fy Hx Hy. pose proof (finite_below _ _ Hx Fx). pose proof (finite_below _ _ Hy Fy).
  apply (rounded_le (val x * val y) (val x' * val y') 1); [lia|by apply mul_rounded..|].
  destruct Hx as (Ax & _ & ?), Hy as (Ay & _ & ?). pose proof (val_range x Ax). pose proof (val_range y Ay). nia.
Qed.

#[export] Instance add_mono : Proper (num_le ==> num_le ==> num_le) Num.add.
Proof.
  assert (∀ x, amount x = true → Num.add (S754_infinity false) x = S754_infinity false ∧
    Num.add x (S754_infinity false) = S754_infinity false) as Hinf by by intros [|[]| |[] ? ?].
  assert (∀ x y, amount x = true → amount y = true → amount (Num.add x y) = true) as Hamount.
  { intros x y Hx Hy. destruct (amount_cases x Hx) as [[Fx _]| ->]; [|by destruct (Hinf y Hy) as [-> _]].
    destruct (amount_cases y Hy) as [[Fy _]| ->]; [|by destruct (Hinf x Hx) as [_ ->]]. by apply add_rounded. }
  intros x x' Hx y y' Hy. pose proof Hx as (Ax & Ax' & Vx). pose proof Hy as (Ay & Ay' & Vy).
  destruct (amount_cases x' Ax') as [[Fx' _]| ->]; [|destruct (Hinf y' Ay') as [-> _]; by apply le_infinity, Hamount].
  destruct (amount_cases y' Ay') as [[Fy' _]| ->]; [|destruct (Hinf x' Ax') as [_ ->]; by apply le_infinity, Hamount].
  pose proof (finite_below _ _ Hx Fx'). pose proof (finite_below _ _ Hy Fy').
  apply (rounded_le ((val x + val y) * 2 ^ 1074) ((val x' + val y') * 2 ^ 1074) 1); [lia|by apply add_rounded..|nia].
Qed.

(** ** Integers and [Math.round] *)
Lemma of_Z_amount n : 0 ≤ n < 2 ^ 53 → finite (Num.of_Z n) ∧ val (Num.of_Z n) = n * 2 ^ 1074.
Proof.
  intros Hn. destruct (decide (n = 0)) as [->|Hne]; [done|].
  destruct (of_Z_norm n ltac:(lia)) as (m & d & -> & Hd & _ & Hm & Hb). split.
  - split; [|done]. apply bounded_spec. lia.
  - cbn [val]. rewrite Hm. unfold unit_of. rewrite <-Z.mul_assoc, <-Z.pow_add_r by lia. do 2 f_equal. lia.
Qed.

(** The value of a rounded number: half a unit is added and the rest cut off. *)
Definition half_up (v : Z) : Z := (2 * v + 2 ^ 1074) / 2 ^ 1075.

Lemma round_amount x : finite x → finite (Math.round x) ∧ val (Math.round x) = half_up (val x) * 2 ^ 1074.
Proof.
  intros Hx. destruct (finite_cases x Hx) as [[Hv [s ->]]|(m & e & -> & Hb)]; [done|]. cbn [Math.round].
  pose proof (proj1 (bounded_spec m e) Hb) as (He & Hm & Hc). unfold half_up. cbn [val].
  destruct (Z.leb_spec 0 e) as [Hpos|Hneg].
  - split; [done|]. cbn [val]. assert (unit_of e = 2 ^ e * 2 ^ 1074) as Hu.
    { unfold unit_of. by rewrite <-Z.pow_add_r by lia. }
    pose proof (pow_pos e Hpos). rewrite Hu. set (P := 2 ^ 1074). assert (0 < P) by by apply pow_pos.
    change (2 ^ 1075) with (2 * P). replace (2 * (Z.pos m * (2 ^ e * P)) + P) with (P + (Z.pos m * 2 ^ e) * (2 * P)) by ring.
    rewrite Z.div_add, Z.div_small by lia. ring.
  - set (n := (Z.pos m * 2 + 2 ^ (- e)) / 2 ^ (1 - e)).
    assert ((2 * (Z.pos m * unit_of e) + 2 ^ 1074) / 2 ^ 1075 = n) as ->.
    { unfold n. rewrite <-(Z.div_mul_cancel_r (Z.pos m * 2 + 2 ^ (- e)) (2 ^ (1 - e)) (unit_of e)).
      - unfold unit_of. rewrite Z.mul_add_distr_r, <-!Z.pow_add_r by lia. f_equal; [|f_equal; lia].
        replace (- e + (e + 1074)) with 1074 by lia. ring.
      - pose proof (pow_pos (1 - e)). lia.
      - pose proof (unit_pos e). lia. }
    pose proof (pow_pos (- e) ltac:(lia)) as HP.
    assert (2 ^ (1 - e) = 2 * 2 ^ (- e)) as HP1 by (rewrite <-Z.pow_succ_r by lia; f_equal; lia).
    assert (0 ≤ n < 2 ^ 53) as Hn.
    { unfold n. rewrite HP1. split; [apply Z.div_pos; lia|apply Z.div_lt_upper_bound; nia]. }
    destruct (Z.eqb_spec n 0) as [->|Hne]; [done|]. by apply of_Z_amount.
Qed.

#[export] Instance round_mono : Proper (num_le ==> num_le) Math.round.
Proof.
  intros x y Hxy. pose proof Hxy as (Hx & Hy & Hv). destruct (amount_cases y Hy) as [[Fy _]| ->].
  - pose proof (finite_below x y Hxy Fy) as Fx.
    destruct (round_amount x Fx) as [[? _] Vx], (round_amount y Fy) as [[? _] Vy]. apply num_le_intro; [done..|].
    rewrite Vx, Vy. apply Z.mul_le_mono_nonneg_r; [apply Z.pow_nonneg; lia|].
    apply Z.div_le_mono; [by apply pow_pos|lia].
  - cbn [Math.round]. apply le_infinity. destruct (amount_cases x Hx) as [[Fx _]| ->]; [|done]. by apply round_amount.
Qed.

(** ** Maxima *)
Lemma eqb_self x : amount x = true → Num.eqb x x = true.
Proof.
  intros Hx. destruct x as [s|[]| |[] m e]; try done. apply Num.eqb_refl_finite.
Qed.

Lemma max_amount x y : amount x = true → amount y = true →
  amount (js_max x y) = true ∧ val (js_max x y) = Z.max (val x) (val y).
Proof.
  intros Hx Hy. unfold js_max. rewrite !eqb_self by done. cbn [negb orb].
  rewrite !Num.ltb_leb by by (intros ->). pose proof (leb_val y x Hy Hx) as H1. pose proof (leb_val x y Hx Hy) as H2.
  destruct (Num.leb y x) eqn:E1; cbn [negb].
  - apply proj1 in H1. specialize (H1 eq_refl). destruct x as [[]|[]| |[] m e]; try done; cbn [val] in *; try (split; [done|lia]).
    destruct (Num.leb (S754_zero true) y) eqn:E2; cbn [negb]; (split; [done|]); cbn [val]; [|lia].
    apply proj1 in H2. specialize (H2 eq_refl). lia.
  - split; [done|]. assert (¬ val y ≤ val x) by (intros ?%H1; done). lia.
Qed.

#[export] Instance max_mono : Proper (num_le ==> num_le ==> num_le) js_max.
Proof.
  intros x x' (Ax & Ax' & Vx) y y' (Ay & Ay' & Vy).
  destruct (max_amount x y Ax Ay) as [H1 E1], (max_amount x' y' Ax' Ay') as [H2 E2].
  apply num_le_intro; [done..|lia].
Qed.
Lemma max_lower x y : amount x = true → amount y = true → num_le x (js_max x y) ∧ num_le y (js_max x y).
Proof. intros Hx Hy. destruct (max_amount x y Hx Hy) as [? E]. split; apply num_le_intro; try done; lia. Qed.

Lemma rounded_same X D y y' : rounded X D y → amount y' = true → val y' = val y → rounded X D y'.
Proof. intros (_ & f & n & H) Ha Hv. split; [done|]. exists f, n. by rewrite Hv. Qed.

(** [Math.max(0, x - y)]. *)
Definition excess (x y : number) : number := js_max Num.zero (Num.sub x y).
Lemma excess_rounded x y : finite x → finite y → rounded (Z.max 0 (val x - val y) * 2 ^ 1074) 1 (excess x y).
Proof.
  intros Hx Hy. pose proof (sub_cases x y Hx Hy) as Hs. unfold excess. destruct (Z.leb_spec (val x) (val y)) as [Hle|Hgt].
  - rewrite Z.max_l by lia. assert (js_max Num.zero (Num.sub x y) = Num.zero) as ->.
    { destruct (Num.sub x y) as [[]|[]| |[] m e]; try done. unfold js_max. unfold Num.eqb, SFeqb. cbn [SFcompare].
      rewrite Z.compare_refl. change (Pos.compare_cont Eq m m) with (Pos.compare m m). by rewrite Pos.compare_refl. }
    by apply exact_rounded.
  - rewrite Z.max_r by lia. pose proof Hs as [Ha _]. destruct (max_amount Num.zero (Num.sub x y)) as [Hm Hv]; [done..|].
    apply (rounded_same _ _ (Num.sub x y)); [done..|]. rewrite Hv. pose proof (val_range _ Ha). cbn [val Num.zero]. lia.
Qed.
Lemma excess_mono x x' y y' : finite x' → finite y → num_le x x' → num_le y' y → num_le (excess x y) (excess x' y').
Proof.
  intros Fx Fy Hx Hy. pose proof (finite_below _ _ Hx Fx). pose proof (finite_below _ _ Hy Fy).
  apply (rounded_le (Z.max 0 (val x - val y) * 2 ^ 1074) (Z.max 0 (val x' - val y') * 2 ^ 1074) 1);
    [lia|by apply excess_rounded..|]. destruct Hx as (_ & _ & ?), Hy as (_ & _ & ?). nia.
Qed.
Lemma excess_le x y : finite x → finite y → num_le (excess x y) x.
Proof.
  intros Fx Fy. pose proof Fx as [Ax _]. pose proof (val_range x Ax). pose proof (val_range y ltac:(apply Fy)).
  apply (rounded_le (Z.max 0 (val x - val y) * 2 ^ 1074) (val x * 2 ^ 1074) 1);
    [lia|by apply excess_rounded|by apply exact_rounded|nia].
Qed.
Lemma excess_finite x y : finite x → finite y → finite (excess x y).
Proof. intros Fx Fy. by eapply finite_below; [apply excess_le|]. Qed.

(** Finite amounts, as the code tests for them. *)
Lemma finite_test x : finite x ↔ valid_binary 53 1024 x = true ∧ Num.isFinite x && Num.leb Num.zero x = true.
Proof. unfold finite. destruct x as [s|[]| |[] m e]; cbn; naive_solver. Qed.

(** ** Integer parts *)
Lemma trunc_val x : finite x → Num.trunc x = Some (val x / 2 ^ 1074).
Proof.
  intros Hx. destruct (finite_cases x Hx) as [[-> [s ->]]|(m & e & -> & Hb)]; [done|].
  apply bounded_spec in Hb as (He & _ & _). cbn [Num.trunc val]. f_equal. destruct (Z.ltb_spec e 0).
  - assert (2 ^ 1074 = 2 ^ (- e) * unit_of e) as ->.
    { unfold unit_of. rewrite <-Z.pow_add_r by lia. f_equal. lia. }
    pose proof (unit_pos e ltac:(lia)). pose proof (pow_pos (- e) ltac:(lia)). by rewrite Z.div_mul_cancel_r by lia.
  - assert (unit_of e = 2 ^ e * 2 ^ 1074) as -> by (unfold unit_of; by rewrite <-Z.pow_add_r by lia).
    rewrite Z.mul_assoc, Z.div_mul; [done|]. apply Z.pow_nonzero; lia.
Qed.
Lemma trunc_between a b x : 0 ≤ a < 2 ^ 53 → 0 ≤ b < 2 ^ 53 → num_le (Num.of_Z a) x → num_le x (Num.of_Z b) →
  ∃ z, Num.trunc x = Some z ∧ a ≤ z ≤ b.
Proof.
  intros Ha Hb Hax Hxb. destruct (of_Z_amount a Ha) as [_ Va], (of_Z_amount b Hb) as [Fb Vb].
  pose proof (finite_below _ _ Hxb Fb) as Fx. exists (val x / 2 ^ 1074). split; [by apply trunc_val|].
  destruct Hax as (_ & _ & H1), Hxb as (_ & _ & H2). rewrite Va in H1. rewrite Vb in H2.
  assert (0 < 2 ^ 1074) as HP by by apply pow_pos. split.
  - apply Z.div_le_lower_bound; lia.
  - apply Z.lt_succ_r, Z.div_lt_upper_bound; lia.
Qed.
