(* ===== verification/Pricing.v ===== *)
(** * Delivery pricing ([src/src/services/pricingService.ts],
      [src/src/repositories/PricingRepository.ts], [src/src/models/PricingRule.ts],
      [src/src/models/DeliveryFeeQuote.ts], [src/src/validators/pricingValidator.ts],
      [src/src/controllers/pricingController.ts])

    A fee is computed in binary64 from the active rule and the conditions of the
    route, and kept as a quote.  The conditions come through the interface
    [PricingConditions]; [live_conditions] implements it over what the two HTTP
    services answer. *)
From S2P Require Import Prelude JsLib NumBounds NumDiv NumOrder Models.
From Stdlib Require Import SpecFloat.

(** ** Data *)
Record Point := mkPoint { lat : number; lng : number }.
Record FeeEstimateInput := mkInput { pickup : Point; dropoff : Point }.

Record IPricingRule := mkRule {
  pr_name : string;
  active : bool;
  pr_assetCode : string;
  baseFee : number;
  distanceRate : number;
  trafficMinuteRate : number;
  rainMillimeterRate : number;
  minimumFee : number;
  validityMinutes : number
}.

Record RouteConditions := mkRoute {
  rc_distanceKm : number;
  rc_normalDurationMinutes : number;
  rc_trafficDurationMinutes : number
}.

Record IDeliveryFeeQuote := mkQuote {
  pricingRule : string;
  fq_pickup : Point;
  fq_dropoff : Point;
  distanceKm : number;
  normalDurationMinutes : number;
  trafficDurationMinutes : number;
  rainMillimeters : number;
  fq_fee : number;
  fq_assetCode : string;
  expiresAt : Z;
  fq_createdAt : Z
}.

Record FeeEstimate := mkEstimate {
  quoteId : string;
  fe_fee : number;
  fe_assetCode : string;
  fe_expiresAt : Z;
  fe_distanceKm : number;
  fe_normalDurationMinutes : number;
  fe_trafficDurationMinutes : number;
  fe_rainMillimeters : number
}.

Record PricingWorld := mkPricingWorld {
  pw_base : World;
  pricingRules : gmap string IPricingRule;
  feeQuotes : gmap string IDeliveryFeeQuote
}.
#[export] Instance PricingWorld_eta : Settable PricingWorld := λ w,
  mkPricingWorld w.(pw_base) w.(pricingRules) w.(feeQuotes).

(** ** The fee *)
Definition calculateFee (rule : IPricingRule) (distanceKm normalDurationMinutes trafficDurationMinutes rainMillimeters : number)
    : number :=
  let trafficDelay := js_max Num.zero (Num.sub trafficDurationMinutes normalDurationMinutes) in
  let calculated :=
    Num.add (Num.add (Num.add (baseFee rule) (Num.mul distanceKm (distanceRate rule)))
              (Num.mul trafficDelay (trafficMinuteRate rule)))
      (Num.mul rainMillimeters (rainMillimeterRate rule)) in
  Num.div (Math.round (Num.mul (js_max (minimumFee rule) calculated) (Num.of_Z 100))) (Num.of_Z 100).

(** ** The conditions of a route *)
Class PricingConditions := {
  route : Point → Point → Z → error + RouteConditions;
  rain : Point → Z → error + number
}.

(** The keys, and what the two services answer at a time: the body of the
    response, or nothing when the request fails. *)
Class LiveServices := {
  GOOGLE_MAPS_API_KEY : option string;
  OPENWEATHER_API_KEY : option string;
  get_directions : string → Point → Point → Z → option json;
  get_weather : string → Point → Z → option json
}.

Definition is_object (v : json) : bool := match v with JObj _ => true | _ => false end.
Definition object_field (f : string) (v : json) : option json := if is_object v then Json.field f v else None.
(** [z.number().nonnegative()]: a finite number at least zero. *)
Definition nonnegative (v : json) : option number :=
  match v with JNum x => if Num.isFinite x && Num.leb Num.zero x then Some x else None | _ => None end.
Definition measure (f : string) (v : json) : option number :=
  v ← object_field f v; v ← object_field "value" v; nonnegative v.

Record Leg := mkLeg { leg_distance : number; leg_duration : number; leg_duration_in_traffic : number }.
Definition parse_leg (v : json) : option Leg :=
  d ← measure "distance" v; t ← measure "duration" v; s ← measure "duration_in_traffic" v; Some (mkLeg d t s).
Definition parse_list {A} (p : json → option A) (v : json) : option (list A) :=
  match v with JArr l => mapM p l | _ => None end.
Definition directionsResponse (v : json) : option (string * list (list Leg)) :=
  status ← object_field "status" v;
  status ← (match status with JStr s => Some s | _ => None end);
  routes ← object_field "routes" v;
  routes ← parse_list (λ r, legs ← object_field "legs" r; parse_list parse_leg legs) routes;
  Some (status, routes).

(** A field that may be missing. *)
Definition optional {A} (p : json → option A) (f : string) (v : json) : option (option A) :=
  match object_field f v with None => Some None | Some x => option_map Some (p x) end.
Definition hourly (v : json) : option (option number) := if is_object v then optional nonnegative "1h" v else None.
Definition weatherResponse (v : json) : option (number * option number * option number) :=
  cod ← object_field "cod" v;
  cod ← (match cod with
         | JNum x => if Num.isFinite x then Some x else None
         | JStr s => Some (NumParse.of_string s)
         | _ => None
         end);
  rain ← optional hourly "rain" v; snow ← optional hourly "snow" v;
  Some (cod, nullish rain None, nullish snow None).

Section Live.
Context `{LiveServices}.

Definition key_of (k : option string) (e : string) : error + string :=
  match k with
  | Some k => if Str.truthy k then inr k else inl (AppError e Http.SERVICE_UNAVAILABLE)
  | None => inl (AppError e Http.SERVICE_UNAVAILABLE)
  end.

Definition live_route (pickup dropoff : Point) (t : Z) : error + RouteConditions :=
  key ← key_of GOOGLE_MAPS_API_KEY "Live routing is not configured.";
  match (data ← get_directions key pickup dropoff t;
         parsed ← directionsResponse data;
         leg ← head parsed.2 ≫= head;
         if String.eqb parsed.1 "OK" then Some leg else None) with
  | Some leg => inr (mkRoute (Num.div (leg_distance leg) (Num.of_Z 1000)) (Num.div (leg_duration leg) (Num.of_Z 60))
                       (Num.div (leg_duration_in_traffic leg) (Num.of_Z 60)))
  | None => inl (AppError "Live route and traffic data are unavailable." Http.BAD_GATEWAY)
  end.

Definition live_rain (dropoff : Point) (t : Z) : error + number :=
  key ← key_of OPENWEATHER_API_KEY "Live weather is not configured.";
  match (data ← get_weather key dropoff t;
         parsed ← weatherResponse data;
         if Num.eqb parsed.1.1 (Num.of_Z 200) then Some (parsed.1.2, parsed.2) else None) with
  | Some (rain, snow) => inr (Num.add (nullish rain Num.zero) (nullish snow Num.zero))
  | None => inl (AppError "Live weather data are unavailable." Http.BAD_GATEWAY)
  end.

Definition LivePricingConditions : PricingConditions := {| route := live_route; rain := live_rain |}.
End Live.

(** ** The service *)
Section Service.
Context `{Env, PricingConditions}.

Abbreviation pricing := (prog PricingWorld).

Definition put_pw_base (b : World) (w : PricingWorld) : PricingWorld := mkPricingWorld b (pricingRules w) (feeQuotes w).
Definition on_pw_base {A} (p : action A) : pricing A := zoom pw_base put_pw_base p.

Definition findActive (w : PricingWorld) : option (hydrated IPricingRule) := find_one active (pricingRules w).

(** The validators of the schema. *)
Definition quote_valid (q : IDeliveryFeeQuote) : bool :=
  forallb (Num.leb Num.zero) [distanceKm q; normalDurationMinutes q; trafficDurationMinutes q; rainMillimeters q; fq_fee q]
  && Str.truthy (fq_assetCode q).
Definition quote_error : error := NamedError "ValidationError" "DeliveryFeeQuote validation failed".

(** [quotes.create]: the draft gets its date of creation. *)
Definition create_quote (draft : Z → option IDeliveryFeeQuote) : pricing string :=
  id ← on_pw_base fresh_id;
  atomic_try (λ w,
    match draft (now_ms (pw_base w)) with
    | Some q =>
        if quote_valid q then
          match feeQuotes w !! id with
          | Some _ => (inl DuplicateKey, w)
          | None => (inr id, w <| feeQuotes ::= <[id := q]> |>)
          end
        else (inl quote_error, w)
    | None => (inl quote_error, w)
    end).
Definition findQuoteById (id : string) : pricing (option (hydrated IDeliveryFeeQuote)) :=
  if isValidObjectId id then reads (λ w, find_by_id id (feeQuotes w)) else mret None.

(** [Promise.all] of the two requests: when both fail, the one that fails first
    decides. *)
Definition both {A B} (second_first : bool) (a : error + A) (b : error + B) : error + A * B :=
  match a, b with
  | inr a, inr b => inr (a, b)
  | inl e, inr _ | inr _, inl e => inl e
  | inl e, inl e' => inl (if second_first then e' else e)
  end.
Definition condition_ok (x : number) : bool := Num.isFinite x && Num.leb Num.zero x.
Definition expiry (rule : IPricingRule) (now : Z) : option Z :=
  Date.of_number (Num.add (Num.of_Z now) (Num.mul (validityMinutes rule) (Num.of_Z 60000))).
Definition estimate_of (q : hydrated IDeliveryFeeQuote) : FeeEstimate :=
  let b := body q in
  mkEstimate (_id q) (fq_fee b) (fq_assetCode b) (expiresAt b) (distanceKm b) (normalDurationMinutes b)
    (trafficDurationMinutes b) (rainMillimeters b).

Definition estimate (rain_first : bool) (input : FeeEstimateInput) : pricing FeeEstimate :=
  rule ← reads findActive;
  rule ← or_throw rule (AppError "No active delivery pricing rule is configured." Http.SERVICE_UNAVAILABLE);
  c ← reads (λ w, route (pickup input) (dropoff input) (now_ms (pw_base w)));
  r ← reads (λ w, rain (dropoff input) (now_ms (pw_base w)));
  cr ← Done (both rain_first c r);
  let '(c, r) := cr in
  _ ← throw_if (negb (forallb condition_ok [rc_distanceKm c; rc_normalDurationMinutes c; rc_trafficDurationMinutes c; r]))
        (AppError "Live pricing conditions are invalid." Http.BAD_GATEWAY);
  let fee := calculateFee (body rule) (rc_distanceKm c) (rc_normalDurationMinutes c) (rc_trafficDurationMinutes c) r in
  _ ← throw_if (negb (Num.isFinite fee)) (AppError "Pricing rule produced an invalid fee." Http.SERVICE_UNAVAILABLE);
  now ← on_pw_base now;
  id ← create_quote (λ t, e ← expiry (body rule) now;
         Some (mkQuote (_id rule) (pickup input) (dropoff input) (rc_distanceKm c) (rc_normalDurationMinutes c)
                 (rc_trafficDurationMinutes c) r fee (pr_assetCode (body rule)) e t));
  quote ← findQuoteById id;
  quote ← or_throw quote (AppError "The fee estimate could not be retrieved." Http.INTERNAL_SERVER_ERROR);
  mret (estimate_of quote).

(** [POST /fee-estimate] after authentication: the status and the quote. *)
Definition within (bound : Z) (v : json) : option number :=
  match v with
  | JNum x => if Num.isFinite x && Num.leb (Num.of_Z (- bound)) x && Num.leb x (Num.of_Z bound) then Some x else None
  | _ => None
  end.
Definition strict (keys : list string) (v : json) : bool :=
  match v with JObj l => forallb (λ kv, includes kv.1 keys) l | _ => false end.
Definition coordinates (v : json) : option Point :=
  if strict ["lat"; "lng"] v
  then x ← object_field "lat" v; x ← within 90 x; y ← object_field "lng" v; y ← within 180 y; Some (mkPoint x y)
  else None.
Definition estimateFeeSchema (v : json) : option FeeEstimateInput :=
  if strict ["pickup"; "dropoff"] v then
    p ← object_field "pickup" v; p ← coordinates p; q ← object_field "dropoff" v; q ← coordinates q;
    if negb (Num.eqb (lat p) (lat q)) || negb (Num.eqb (lng p) (lng q)) then Some (mkInput p q) else None
  else None.
Definition postFeeEstimate (rain_first : bool) (requestBody : json) : pricing (Z * option FeeEstimate) :=
  match estimateFeeSchema requestBody with
  | None => mret (Http.BAD_REQUEST, None)
  | Some input => quote ← estimate rain_first input; mret (Http.OK, Some quote)
  end.
End Service.

(** ** The order of fees *)
Definition to_cents (x : number) : number := Num.div (Math.round (Num.mul x (Num.of_Z 100))) (Num.of_Z 100).

Lemma to_cents_mono : Proper (num_le ==> num_le) to_cents.
Proof.
  destruct (of_Z_amount 100 ltac:(lia)) as [Hf Hv]. assert (0 < val (Num.of_Z 100))%Z by (rewrite Hv; lia).
  intros x y Hxy. unfold to_cents. apply (div_mono (Num.of_Z 100) Hf); [done|]. apply round_mono.
  by apply (scale_mono (Num.of_Z 100) Hf).
Qed.

(** The fee before the minimum and the cents. *)
Definition charges (rule : IPricingRule) (d n t w : number) : number :=
  Num.add (Num.add (Num.add (baseFee rule) (Num.mul d (distanceRate rule)))
            (Num.mul (excess t n) (trafficMinuteRate rule)))
    (Num.mul w (rainMillimeterRate rule)).
Lemma fee_charges rule d n t w : calculateFee rule d n t w = to_cents (js_max (minimumFee rule) (charges rule d n t w)).
Proof. done. Qed.

(** The rates of a rule are finite amounts. *)
Record rates_finite (rule : IPricingRule) : Prop := {
  rt_base : finite (baseFee rule);
  rt_distance : finite (distanceRate rule);
  rt_traffic : finite (trafficMinuteRate rule);
  rt_rain : finite (rainMillimeterRate rule);
  rt_minimum : finite (minimumFee rule)
}.
(** One rule is nowhere below another. *)
Record rates_le (r1 r2 : IPricingRule) : Prop := {
  le_base : num_le (baseFee r1) (baseFee r2);
  le_distance : num_le (distanceRate r1) (distanceRate r2);
  le_traffic : num_le (trafficMinuteRate r1) (trafficMinuteRate r2);
  le_rain : num_le (rainMillimeterRate r1) (rainMillimeterRate r2);
  le_minimum : num_le (minimumFee r1) (minimumFee r2)
}.

Section Order.
Context (r1 r2 : IPricingRule) (Hle : rates_le r1 r2) (Hfin : rates_finite r2).
Context (d1 d2 n1 n2 t1 t2 w1 w2 : number).
Context (Hd : num_le d1 d2) (Hn : num_le n2 n1) (Ht : num_le t1 t2) (Hw : num_le w1 w2).
Context (Fd : finite d2) (Fn : finite n1) (Ft : finite t2) (Fw : finite w2).

Lemma charges_le : num_le (charges r1 d1 n1 t1 w1) (charges r2 d2 n2 t2 w2).
Proof using All.
  destruct Hle, Hfin. unfold charges.
  apply add_mono; [apply add_mono; [apply add_mono; [done|]|]|]; apply mul_mono; try done.
  - apply excess_finite; [done|]. by eapply finite_below.
  - by apply excess_mono.
Qed.
Lemma fee_le : num_le (calculateFee r1 d1 n1 t1 w1) (calculateFee r2 d2 n2 t2 w2).
Proof using All. rewrite !fee_charges. apply to_cents_mono, max_mono; [apply Hle|apply charges_le]. Qed.
Lemma fee_minimum : num_le (to_cents (minimumFee r1)) (calculateFee r1 d1 n1 t1 w1).
Proof using All. rewrite fee_charges. apply to_cents_mono, max_lower; [apply Hle|apply charges_le]. Qed.
End Order.

Lemma rates_le_refl r : rates_finite r → rates_le r r.
Proof. intros [[] [] [] [] []]. split; by apply num_le_refl. Qed.

(** C37: In binary64, where every operation rounds, a fee never falls when the
    trip gets longer, the traffic slower, the normal duration shorter, the rain
    heavier or a rate of the rule higher, and it never lies below the rule's
    minimum in cents. *)
Theorem calculateFee_monotone r1 r2 d1 d2 n1 n2 t1 t2 w1 w2 :
  rates_le r1 r2 → rates_finite r2 → num_le d1 d2 → num_le n2 n1 → num_le t1 t2 → num_le w1 w2 →
  finite d2 → finite n1 → finite t2 → finite w2 →
  Num.leb (calculateFee r1 d1 n1 t1 w1) (calculateFee r2 d2 n2 t2 w2) = true ∧
  Num.leb (to_cents (minimumFee r1)) (calculateFee r1 d1 n1 t1 w1) = true.
Proof.
  intros Hle Hfin Hd Hn Ht Hw Fd Fn Ft Fw. split.
  - by apply num_le_leb, fee_le.
  - by apply num_le_leb, (fee_minimum r1 r2 Hle Hfin d1 d2 n1 n2 t1 t2 w1 w2).
Qed.

(** ** Estimates *)

(** What the schema asks of a rule. *)
Record rule_valid (rule : IPricingRule) : Prop := {
  rv_rates : rates_finite rule;
  rv_validity : num_le (Num.of_Z 1) (validityMinutes rule) ∧ num_le (validityMinutes rule) (Num.of_Z 1440);
  rv_asset : Str.truthy (pr_assetCode rule) = true
}.

(** The numbers of the interface are numbers of the language. *)
Definition binary64 (x : number) : bool := valid_binary 53 1024 x.
Class PricingConditionsOk `{PricingConditions} : Prop := {
  route_numbers p q t c : route p q t = inr c →
    binary64 (rc_distanceKm c) && binary64 (rc_normalDurationMinutes c) && binary64 (rc_trafficDurationMinutes c) = true;
  rain_numbers p t x : rain p t = inr x → binary64 x = true
}.

(** A quote expires within a day, at a valid date. *)
Lemma expiry_valid rule t : rule_valid rule → (0 < t ≤ 8000000000000000)%Z →
  ∃ e, expiry rule t = Some e ∧ (t + 60000 ≤ e ≤ t + 86400000)%Z.
Proof.
  intros [_ [Hlo Hhi] _] Ht. unfold expiry, Date.of_number.
  destruct (of_Z_amount 60000 ltac:(lia)) as [F6 V6]. destruct (of_Z_amount t ltac:(lia)) as [[At _] _].
  assert (0 < val (Num.of_Z 60000))%Z as P6 by (rewrite V6; lia).
  pose proof (scale_mono _ F6 P6 _ _ Hlo) as H1. pose proof (scale_mono _ F6 P6 _ _ Hhi) as H2. cbn beta in H1, H2.
  change (Num.mul (Num.of_Z 1) (Num.of_Z 60000)) with (Num.of_Z 60000) in H1.
  change (Num.mul (Num.of_Z 1440) (Num.of_Z 60000)) with (Num.of_Z 86400000) in H2.
  apply (add_mono _ _ (num_le_refl _ At)) in H1, H2. rewrite add_of_Z in H1, H2 by lia.
  destruct (trunc_between (t + 60000) (t + 86400000) _ ltac:(lia) ltac:(lia) H1 H2) as (e & -> & He).
  exists e. cbn. rewrite (proj2 (Z.leb_le _ _)) by lia. by split.
Qed.

Section Estimates.
Context `{E : Env, P : PricingConditions, POk : !PricingConditionsOk}.

Lemma pw_lens : lens_laws pw_base put_pw_base.
Proof. by split; intros; destruct_and?; try done; destruct v. Qed.

Lemma run_pw_now w : run (on_pw_base now) w = (inr (now_ms (pw_base w)), w).
Proof. unfold on_pw_base. rewrite run_zoom, run_now by apply pw_lens. by destruct w. Qed.

Lemma condition_finite x : binary64 x = true → condition_ok x = true → finite x.
Proof. intros. by apply finite_test. Qed.

(** The quote an estimate makes at a time. *)
Definition quote_of (rule : hydrated IPricingRule) (input : FeeEstimateInput) (c : RouteConditions) (r : number) (e t : Z)
    : IDeliveryFeeQuote :=
  mkQuote (_id rule) (pickup input) (dropoff input) (rc_distanceKm c) (rc_normalDurationMinutes c)
    (rc_trafficDurationMinutes c) r
    (calculateFee (body rule) (rc_distanceKm c) (rc_normalDurationMinutes c) (rc_trafficDurationMinutes c) r)
    (pr_assetCode (body rule)) e t.
Definition conditions_ok (c : RouteConditions) (r : number) : bool :=
  forallb condition_ok [rc_distanceKm c; rc_normalDurationMinutes c; rc_trafficDurationMinutes c; r].

(** The world after a quote was stored under the next id. *)
Definition with_quote (id : string) (q : IDeliveryFeeQuote) (w : PricingWorld) : PricingWorld :=
  mkPricingWorld (pw_base w <| nextId ::= S |>) (pricingRules w) (<[id := q]> (feeQuotes w)).

Lemma run_create_quote draft q w (id := newObjectId (nextId (pw_base w))) :
  draft (now_ms (pw_base w)) = Some q → quote_valid q = true → feeQuotes w !! id = None →
  run (create_quote draft) w = (inr id, with_quote id q w).
Proof.
  intros Hd Hv Hf. unfold create_quote. rewrite run_bind.
  assert (run (on_pw_base fresh_id) w = (inr id, put_pw_base (pw_base w <| nextId ::= S |>) w)) as ->.
  { unfold on_pw_base. by rewrite run_zoom by apply pw_lens. }
  cbn [fst snd]. rewrite run_atomic_try. cbn [pw_base put_pw_base].
  change (now_ms (pw_base w <| nextId ::= S |>)) with (now_ms (pw_base w)). rewrite Hd, Hv.
  cbn [feeQuotes put_pw_base]. by rewrite Hf.
Qed.

Lemma quote_of_valid rule input c r e t : rule_valid (body rule) →
  binary64 (rc_distanceKm c) && binary64 (rc_normalDurationMinutes c) && binary64 (rc_trafficDurationMinutes c) = true →
  binary64 r = true → conditions_ok c r = true →
  quote_valid (quote_of rule input c r e t) = true ∧
  Num.leb (to_cents (minimumFee (body rule))) (fq_fee (quote_of rule input c r e t)) = true.
Proof.
  intros [Hr _ Ha] [[B1 B2]%andb_true_iff B3]%andb_true_iff B4 Hc. unfold conditions_ok in Hc.
  cbn [forallb] in Hc. rewrite !andb_true_iff in Hc. destruct Hc as (C1 & C2 & C3 & C4 & _).
  pose proof (condition_finite _ B1 C1) as F1. pose proof (condition_finite _ B2 C2) as F2.
  pose proof (condition_finite _ B3 C3) as F3. pose proof (condition_finite _ B4 C4) as F4.
  assert (∀ x, finite x → num_le x x) as Hrefl by (intros x [? _]; by apply num_le_refl).
  pose proof (fee_minimum (body rule) (body rule) (rates_le_refl _ Hr) Hr _ _ _ _ _ _ _ _ (Hrefl _ F1) (Hrefl _ F2)
    (Hrefl _ F3) (Hrefl _ F4) F1 F2 F3 F4) as Hmin. split; [|apply num_le_leb in Hmin as (_ & _ & Hmin); exact Hmin].
  unfold quote_valid, quote_of. cbn [distanceKm normalDurationMinutes trafficDurationMinutes rainMillimeters fq_fee fq_assetCode forallb].
  rewrite Ha. assert (∀ x, NumOrder.amount x = true → Num.leb Num.zero x = true) as Hz.
  { intros x Hx. apply leb_val; [done|done|]. by apply (val_range x). }
  destruct Hmin as (_ & Hmin & _), F1 as [A1 _], F2 as [A2 _], F3 as [A3 _], F4 as [A4 _]. by rewrite !Hz.
Qed.

Definition no_rule : error := AppError "No active delivery pricing rule is configured." Http.SERVICE_UNAVAILABLE.
Definition bad_conditions : error := AppError "Live pricing conditions are invalid." Http.BAD_GATEWAY.
Definition bad_fee : error := AppError "Pricing rule produced an invalid fee." Http.SERVICE_UNAVAILABLE.

(** C38: An estimate that is refused, for want of a rule, of conditions or of a
    finite fee, stores nothing.  Any other estimate under a rule that satisfies
    its schema succeeds: exactly one quote is stored, with the rule, the
    conditions and the fee it was computed from, not below the minimum in cents,
    and it is returned; it expires after the rule's time, at least a minute and at
    most a day ahead. *)
Theorem estimate_correct rain_first input w :
  let t := now_ms (pw_base w) in
  let id := newObjectId (nextId (pw_base w)) in
  (∀ d, findActive w = Some d → rule_valid (body d)) → (0 < t ≤ 8000000000000000)%Z →
  isValidObjectId id = true → feeQuotes w !! id = None →
  match findActive w, route (pickup input) (dropoff input) t, rain (dropoff input) t with
  | None, _, _ => run (estimate rain_first input) w = (inl no_rule, w)
  | Some _, inl e1, inl e2 => run (estimate rain_first input) w = (inl (if rain_first then e2 else e1), w)
  | Some _, inl e, inr _ | Some _, inr _, inl e => run (estimate rain_first input) w = (inl e, w)
  | Some rule, inr c, inr r =>
      if negb (conditions_ok c r) then run (estimate rain_first input) w = (inl bad_conditions, w) else
      ∃ e, let q := quote_of rule input c r e t in
        expiry (body rule) t = Some e ∧ (t + 60000 ≤ e ≤ t + 86400000)%Z ∧
        Num.leb (to_cents (minimumFee (body rule))) (fq_fee q) = true ∧
        run (estimate rain_first input) w =
          if Num.isFinite (fq_fee q) then (inr (estimate_of (Doc id q)), with_quote id q w) else (inl bad_fee, w)
  end.
Proof.
  intros t id Hrule Ht Hid Hfresh. unfold estimate. rewrite run_bind, run_reads. cbn [fst snd].
  rewrite run_bind, run_or_throw. destruct (findActive w) as [rule|]; cbn [fst snd]; [|done].
  rewrite run_bind, run_reads. cbn [fst snd]. fold t. rewrite run_bind, run_reads. cbn [fst snd]. fold t.
  rewrite run_bind, run_done. destruct (route _ _ t) as [e1|c] eqn:Hroute, (rain _ t) as [e2|r] eqn:Hrain; try done.
  cbn [both fst snd]. rewrite run_bind, run_throw_if. fold (conditions_ok c r).
  destruct (conditions_ok c r) eqn:Hc; [|done]. cbn [negb fst snd].
  specialize (Hrule rule eq_refl). destruct (expiry_valid (body rule) t Hrule Ht) as (e & He & Hb).
  destruct (quote_of_valid rule input c r e t Hrule (route_numbers _ _ _ _ Hroute) (rain_numbers _ _ _ Hrain) Hc) as [Hv Hmin].
  exists e. split; [done|]. split; [done|]. split; [done|].
  rewrite run_bind, run_throw_if. set (fee := calculateFee _ _ _ _ _). change (fq_fee (quote_of rule input c r e t)) with fee.
  destruct (Num.isFinite fee); [|done]. cbn [negb fst snd].
  rewrite run_bind, run_pw_now. cbn [fst snd]. fold t.
  rewrite run_bind, (run_create_quote _ (quote_of rule input c r e t)); [|by rewrite He|done..]. cbn [fst snd]. fold id.
  rewrite run_bind. unfold findQuoteById. rewrite Hid, run_reads. cbn [fst snd].
  rewrite run_bind, run_or_throw. unfold find_by_id, with_quote. cbn [feeQuotes]. rewrite lookup_insert_eq.
  cbn [fmap option_fmap option_map fst snd]. by rewrite run_ret.
Qed.
End Estimates.

(** ** The live conditions *)
Fixpoint json_numbers (v : json) : bool :=
  match v with
  | JNum x => binary64 x
  | JArr l => forallb json_numbers l
  | JObj fields => forallb (λ kv, json_numbers kv.2) fields
  | _ => true
  end.
Class LiveServicesOk `{LiveServices} : Prop := {
  directions_numbers k p q t v : get_directions k p q t = Some v → json_numbers v = true;
  weather_numbers k p t v : get_weather k p t = Some v → json_numbers v = true
}.

Lemma field_numbers f v x : json_numbers v = true → object_field f v = Some x → json_numbers x = true.
Proof.
  intros Hv. unfold object_field. destruct v as [| | | | |l]; try done. cbn [is_object Json.field json_numbers] in *.
  intros ([k y] & Hin & ->)%fmap_Some. apply find_some in Hin as [Hin _].
  apply (proj1 (forallb_forall (λ kv, json_numbers kv.2) l) Hv (k, y)). by apply in_rev.
Qed.
Lemma nonnegative_finite v x : json_numbers v = true → nonnegative v = Some x → finite x.
Proof.
  destruct v; try done. cbn. intros Hv. case_match eqn:Hx; [|done]. intros [= <-]. by apply finite_test.
Qed.
Lemma measure_finite f v x : json_numbers v = true → measure f v = Some x → finite x.
Proof.
  intros Hv (y & Hy & (z & Hz & Hx)%bind_Some)%bind_Some.
  apply (nonnegative_finite z); [|done]. eapply field_numbers; [|exact Hz]. by eapply field_numbers.
Qed.

Definition leg_finite (l : Leg) : Prop :=
  finite (leg_distance l) ∧ finite (leg_duration l) ∧ finite (leg_duration_in_traffic l).
Lemma parse_leg_finite v l : json_numbers v = true → parse_leg v = Some l → leg_finite l.
Proof.
  intros Hv (d & Hd & (t & Ht & (s & Hs & [= <-])%bind_Some)%bind_Some)%bind_Some.
  split_and!; by eapply measure_finite.
Qed.
Lemma parse_list_all {A} (p : json → option A) (Q : A → Prop) v l :
  (∀ v a, json_numbers v = true → p v = Some a → Q a) → json_numbers v = true → parse_list p v = Some l → Forall Q l.
Proof.
  intros Hp. destruct v as [| | | |vs|]; try done. cbn [parse_list json_numbers]. intros Hv Hl%mapM_Some.
  apply Forall_forall. intros a Ha. apply list_elem_of_lookup in Ha as [i Hi].
  destruct (Forall2_lookup_r _ _ _ _ _ Hl Hi) as (u & Hu & Hpu). apply (Hp u); [|done].
  apply (proj1 (forallb_forall json_numbers vs) Hv). apply list_elem_of_In. by eapply list_elem_of_lookup_2.
Qed.
Lemma directions_finite v status routes : json_numbers v = true → directionsResponse v = Some (status, routes) →
  Forall (Forall leg_finite) routes.
Proof.
  intros Hv (st & _ & (st' & _ & (rs & Hrs & (rs' & Hp & [= _ <-])%bind_Some)%bind_Some)%bind_Some)%bind_Some.
  eapply parse_list_all; [|by eapply field_numbers|exact Hp]. intros r legs Hr (ls & Hls & Hlegs)%bind_Some.
  eapply parse_list_all; [apply parse_leg_finite|by eapply field_numbers|exact Hlegs].
Qed.

Lemma optional_all {A} (p : json → option A) (Q : A → Prop) f v o :
  (∀ v a, json_numbers v = true → p v = Some a → Q a) → json_numbers v = true → optional p f v = Some (Some o) → Q o.
Proof.
  intros Hp Hv. unfold optional. destruct (object_field f v) as [x|] eqn:Hx; [|done].
  destruct (p x) as [a|] eqn:Ha; [|done]. intros [= <-]. apply (Hp x); [|done]. by eapply field_numbers.
Qed.
Definition fall_finite (o : option number) : Prop := ∀ x, o = Some x → finite x.
Lemma hourly_finite v o : json_numbers v = true → hourly v = Some o → fall_finite o.
Proof.
  unfold hourly. intros Hv. destruct (is_object v); [|done]. intros Ho x ->.
  by apply (optional_all nonnegative finite "1h" v); [apply nonnegative_finite|..].
Qed.
Lemma weather_finite v cod rain snow : json_numbers v = true → weatherResponse v = Some (cod, rain, snow) →
  fall_finite rain ∧ fall_finite snow.
Proof.
  intros Hv (c & _ & (c' & _ & (r & Hr & (s & Hs & [= _ <- <-])%bind_Some)%bind_Some)%bind_Some)%bind_Some.
  assert (∀ f o, optional hourly f v = Some o → fall_finite (nullish o None)) as Ho.
  { intros f [o|] Hf; [|done]. by apply (optional_all hourly fall_finite f v); [apply hourly_finite|..]. }
  split; by eapply Ho.
Qed.

Lemma amount_binary64 x : NumOrder.amount x = true → binary64 x = true.
Proof. by destruct x as [s|[]| |[] m e]. Qed.
Lemma rounded_binary64 X D y : rounded X D y → binary64 y = true.
Proof. intros [? _]. by apply amount_binary64. Qed.
Lemma div_binary64 x n : finite x → (0 < n < 2 ^ 53)%Z → binary64 (Num.div x (Num.of_Z n)) = true.
Proof.
  intros Hx Hn. destruct (of_Z_amount n ltac:(lia)) as [Hf Hv].
  eapply rounded_binary64, div_rounded; [done|done|]. rewrite Hv. lia.
Qed.

#[export] Instance LivePricingConditions_ok `{LOk : LiveServicesOk} : @PricingConditionsOk LivePricingConditions.
Proof.
  split.
  - intros p q t c. cbn [route LivePricingConditions]. unfold live_route.
    destruct (key_of _ _) as [|k]; cbn [mbind result_bind]; [done|].
    destruct (get_directions k p q t) as [v|] eqn:Hv; cbn [mbind option_bind]; [|done].
    destruct (directionsResponse v) as [[st routes]|] eqn:Hd; cbn [mbind option_bind fst snd]; [|done].
    pose proof (directions_finite _ _ _ (directions_numbers _ _ _ _ _ Hv) Hd) as Hall.
    destruct routes as [|[|leg legs] routes]; cbn [head mbind option_bind fst snd]; [done..|].
    destruct (String.eqb st "OK"); [|done]. intros <-%(inj inr). inversion Hall as [|? ? Hlegs _]. subst.
    inversion Hlegs as [|? ? (F1 & F2 & F3) _]. subst. cbn [rc_distanceKm rc_normalDurationMinutes rc_trafficDurationMinutes].
    by rewrite !div_binary64 by (done || lia).
  - intros p t x. cbn [rain LivePricingConditions]. unfold live_rain.
    destruct (key_of _ _) as [|k]; cbn [mbind result_bind]; [done|].
    destruct (get_weather k p t) as [v|] eqn:Hv; cbn [mbind option_bind]; [|done].
    destruct (weatherResponse v) as [[[cod r] s]|] eqn:Hw; cbn [mbind option_bind fst snd]; [|done].
    destruct (Num.eqb cod (Num.of_Z 200)); [|done]. intros <-%(inj inr).
    destruct (weather_finite _ _ _ _ (weather_numbers _ _ _ _ Hv) Hw) as [Hr Hs].
    assert (∀ o, fall_finite o → finite (nullish o Num.zero)) as Hn by by intros [y|] Ho; [apply Ho|].
    by eapply rounded_binary64, add_rounded; apply Hn.
Qed.

(** ** Concrete prices *)
Module PricingExamples.
Import ExampleEnv.

Definition num (z : Z) : number := Num.of_Z z.
Definition rates : IPricingRule := mkRule "test rule" true "XLM" (num 10) (num 2) (num 1) (num 3) (num 20) (num 5).

Example fee_55 : calculateFee rates (num 12) (num 20) (num 35) (num 2) = num 55.
Proof. vm_compute. reflexivity. Qed.
Example fee_minimum_20 : calculateFee rates (num 0) (num 20) (num 10) (num 0) = num 20.
Proof. vm_compute. reflexivity. Qed.

(** A minimum that is no whole number of cents is rounded down with the fee. *)
Example below_minimum :
  let minimum := NumParse.of_string "0.004" in
  let rule := mkRule "small" true "USDC" (num 0) (num 0) (num 0) (num 0) minimum (num 5) in
  calculateFee rule (num 12) (num 20) (num 35) (num 2) = num 0 ∧ Num.ltb (num 0) minimum = true.
Proof. split; vm_compute; reflexivity. Qed.

Lemma num_finite z : (0 ≤ z < 2 ^ 53)%Z → finite (num z).
Proof. apply of_Z_amount. Qed.
Lemma num_order a b : (0 ≤ a ≤ b)%Z → (b < 2 ^ 53)%Z → num_le (num a) (num b).
Proof.
  intros. destruct (of_Z_amount a ltac:(lia)) as [[? _] Va], (of_Z_amount b ltac:(lia)) as [[? _] Vb].
  apply num_le_intro; [done..|]. unfold num. rewrite Va, Vb. apply Z.mul_le_mono_nonneg_r; lia.
Qed.
Lemma rates_ok : rule_valid rates.
Proof. split; [split; apply num_finite; cbn; lia|split; apply num_order; lia|done]. Qed.

(** Twelve kilometres are not dearer than thirteen. *)
Lemma calculateFee_monotone_witness :
  Num.leb (num 55) (calculateFee rates (num 13) (num 20) (num 40) (num 2)) = true ∧
  Num.leb (num 20) (num 55) = true.
Proof.
  rewrite <-fee_55 at 1 2.
  apply (calculateFee_monotone rates rates (num 12) (num 13) (num 20) (num 20) (num 35) (num 40) (num 2) (num 2));
    first [apply rates_le_refl, rates_ok|apply rates_ok|apply num_order; lia|apply num_finite; lia].
Defined.

(** The services answer with one leg and two millimetres of rain an hour. *)
Definition value_of (z : Z) : json := JObj [("value", JNum (num z))].
Definition the_directions : json :=
  JObj [("status", JStr "OK"); ("routes", JArr [JObj [("legs", JArr [JObj
    [("distance", value_of 12000); ("duration", value_of 1200); ("duration_in_traffic", value_of 2100)]])]])].
Definition the_weather : json := JObj [("cod", JStr "200"); ("rain", JObj [("1h", JNum (num 2))])].
#[export] Instance services : LiveServices := {|
  GOOGLE_MAPS_API_KEY := Some "k"; OPENWEATHER_API_KEY := Some "w";
  get_directions _ _ _ t := if (t <? 2000000000000)%Z then Some the_directions else None;
  get_weather _ _ t := Some the_weather
|}.
#[export] Instance services_ok : LiveServicesOk.
Proof.
  split.
  - intros k p q t v. cbn. case_match; [|done]. by intros [= <-].
  - by intros k p t v [= <-].
Qed.
#[export] Existing Instance LivePricingConditions.

Definition the_input : FeeEstimateInput := mkInput (mkPoint (num 6) (num 3)) (mkPoint (num 7) (num 3)).
Definition pricing_world : PricingWorld := mkPricingWorld (empty_world 1700000000000) {["rule1" := rates]} ∅.
Definition later_world : PricingWorld := mkPricingWorld (empty_world 2000000000000) {["rule1" := rates]} ∅.
Definition first_id : string := "64b7f0c2a1d3e4f500000000".

Lemma one_rule w d : pricingRules w = {["rule1" := rates]} → findActive w = Some d → rule_valid (body d).
Proof.
  intros Hw (Hd & _)%find_one_Some. rewrite Hw in Hd. apply lookup_singleton_Some in Hd as [_ <-]. apply rates_ok.
Qed.

Lemma estimate_correct_witness :
  run (estimate false the_input) pricing_world =
    (inr (mkEstimate first_id (num 55) "XLM" 1700000300000 (num 12) (num 20) (num 35) (num 2)),
     with_quote first_id (quote_of (Doc "rule1" rates) the_input (mkRoute (num 12) (num 20) (num 35)) (num 2) 1700000300000
                            1700000000000) pricing_world) ∧
  run (estimate true the_input) later_world =
    (inl (AppError "Live route and traffic data are unavailable." 502), later_world).
Proof.
  split.
  - pose proof (estimate_correct false the_input pricing_world) as Hrun. cbv zeta in Hrun.
    specialize (Hrun ltac:(by intros d; apply one_rule)). specialize (Hrun ltac:(cbn; lia)).
    specialize (Hrun ltac:(reflexivity)). specialize (Hrun ltac:(reflexivity)).
    assert (findActive pricing_world = Some (Doc "rule1" rates)) as Hf by reflexivity. rewrite Hf in Hrun.
    assert (route (pickup the_input) (dropoff the_input) (now_ms (pw_base pricing_world)) =
      inr (mkRoute (num 12) (num 20) (num 35))) as Hr by (vm_compute; reflexivity). rewrite Hr in Hrun.
    assert (rain (dropoff the_input) (now_ms (pw_base pricing_world)) = inr (num 2)) as Hw by (vm_compute; reflexivity).
    rewrite Hw in Hrun.
    assert (conditions_ok (mkRoute (num 12) (num 20) (num 35)) (num 2) = true) as Hc by (vm_compute; reflexivity).
    rewrite Hc in Hrun. cbn [negb] in Hrun. destruct Hrun as (e & He & _ & _ & Hrun). rewrite Hrun. clear Hrun.
    assert (Some e = Some 1700000300000%Z) as [= ->] by (rewrite <-He; vm_compute; reflexivity).
    vm_compute. reflexivity.
  - pose proof (estimate_correct true the_input later_world) as Hrun. cbv zeta in Hrun.
    specialize (Hrun ltac:(by intros d; apply one_rule)). specialize (Hrun ltac:(cbn; lia)).
    specialize (Hrun ltac:(reflexivity)). specialize (Hrun ltac:(reflexivity)).
    assert (findActive later_world = Some (Doc "rule1" rates)) as Hf by reflexivity. rewrite Hf in Hrun.
    assert (route (pickup the_input) (dropoff the_input) (now_ms (pw_base later_world)) =
      inl (AppError "Live route and traffic data are unavailable." 502)) as Hr by reflexivity. rewrite Hr in Hrun.
    destruct (rain (dropoff the_input) (now_ms (pw_base later_world))) as [e|x] eqn:Hw; [|exact Hrun].
    exfalso. vm_compute in Hw. discriminate Hw.
Defined.

Example strict_schema :
  estimateFeeSchema (JObj [("pickup", JObj [("lat", JNum (num 6)); ("lng", JNum (num 3))]);
                           ("dropoff", JObj [("lat", JNum (num 7)); ("lng", JNum (num 3))])]) = Some the_input ∧
  estimateFeeSchema (JObj [("pickup", JObj [("lat", JNum (num 6)); ("lng", JNum (num 3))]);
                           ("dropoff", JObj [("lat", JNum (num 6)); ("lng", JNum (num 3))])]) = None.
Proof. split; vm_compute; reflexivity. Qed.
End PricingExamples.
