(* ===== verification/JsonText.v ===== *)
(** * JSON texts

    [JSON.stringify] and [JSON.parse] of the language: the text of a value
    without spaces, and the grammar of RFC 8259 read by recursive descent.  A
    value is read back from its text when its numbers are. *)
From S2P Require Import Prelude JsLib.
From Stdlib Require Import Ascii SpecFloat.

Definition code (c : ascii) : nat := nat_of_ascii c.
Definition dquote : ascii := ascii_of_nat 34.
Definition backslash : ascii := ascii_of_nat 92.

(** ** [JSON.stringify] *)
Definition hex_digit (n : nat) : ascii := ascii_of_nat (if Nat.ltb n 10 then 48 + n else 87 + n).
(** The letter of a short escape. *)
Definition short_escape (c : ascii) : option ascii :=
  match code c with
  | 34 => Some dquote
  | 92 => Some backslash
  | 8 => Some "b"%char
  | 12 => Some "f"%char
  | 10 => Some "n"%char
  | 13 => Some "r"%char
  | 9 => Some "t"%char
  | _ => None
  end%nat.
Definition escape (c : ascii) : list ascii :=
  match short_escape c with
  | Some e => [backslash; e]
  | None =>
      if Nat.ltb (code c) 32
      then [backslash; "u"; "0"; "0"; hex_digit (code c / 16); hex_digit (code c mod 16)]%char
      else [c]
  end.
Definition quoted (s : string) : list ascii := dquote :: (c ← Str.chars s; escape c) ++ [dquote].

(** Elements with a separator between them. *)
Fixpoint separated (l : list (list ascii)) : list ascii :=
  match l with [] => [] | [x] => x | x :: l => x ++ ","%char :: separated l end.

Fixpoint text (v : json) : list ascii :=
  match v with
  | JNull => Str.chars "null"
  | JBool b => Str.chars (if b then "true" else "false")
  | JNum x => if Num.isFinite x then Str.chars (NumPrint.to_string x) else Str.chars "null"
  | JStr s => quoted s
  | JArr l => "["%char :: separated (map text l) ++ ["]"%char]
  | JObj l => "{"%char :: separated (map (λ kv, quoted kv.1 ++ ":"%char :: text kv.2) l) ++ ["}"%char]
  end.
Definition stringify (v : json) : string := Str.of_chars (text v).

(** ** [JSON.parse] *)
Definition is_blank (c : ascii) : bool := includes (code c) [32; 9; 10; 13]%nat.
Fixpoint skip (l : list ascii) : list ascii :=
  match l with c :: l' => if is_blank c then skip l' else l | [] => [] end.

Definition unescape (c : ascii) : option ascii :=
  match code c with
  | 34 => Some dquote
  | 92 => Some backslash
  | 47 => Some "/"%char
  | 98 => Some (ascii_of_nat 8)
  | 102 => Some (ascii_of_nat 12)
  | 110 => Some (ascii_of_nat 10)
  | 114 => Some (ascii_of_nat 13)
  | 116 => Some (ascii_of_nat 9)
  | _ => None
  end%nat.
Definition hex_value (c : ascii) : option nat :=
  let n := code c in
  if Nat.leb 48 n && Nat.leb n 57 then Some (n - 48)%nat
  else if Nat.leb 97 n && Nat.leb n 102 then Some (n - 87)%nat
  else if Nat.leb 65 n && Nat.leb n 70 then Some (n - 55)%nat else None.

(** The rest of a string after its opening quote. *)
Fixpoint read_string (l : list ascii) : option (list ascii * list ascii) :=
  match l with
  | [] => None
  | c :: l =>
      if Ascii.eqb c dquote then Some ([], l)
      else if Ascii.eqb c backslash then
        match l with
        | e :: l' =>
            match unescape e with
            | Some d => r ← read_string l'; Some (d :: r.1, r.2)
            | None =>
                if Ascii.eqb e "u" then
                  match l' with
                  | h1 :: h2 :: h3 :: h4 :: l'' =>
                      a ← hex_value h1; b ← hex_value h2; c ← hex_value h3; d ← hex_value h4;
                      let n := (a * 4096 + b * 256 + c * 16 + d)%nat in
                      (* code units above 255 are not among the modelled ones *)
                      if Nat.ltb n 256 then r ← read_string l''; Some (ascii_of_nat n :: r.1, r.2) else None
                  | _ => None
                  end
                else None
            end
        | [] => None
        end
      else if Nat.ltb (code c) 32 then None
      else r ← read_string l; Some (c :: r.1, r.2)
  end.

(** The longest run of digits, and the number that starts a text. *)
Definition is_digit (c : ascii) : bool := Nat.leb 48 (code c) && Nat.leb (code c) 57.
Fixpoint run_of_digits (l : list ascii) : list ascii * list ascii :=
  match l with
  | c :: l' => if is_digit c then let r := run_of_digits l' in (c :: r.1, r.2) else ([], l)
  | [] => ([], [])
  end.
Definition some_digits (l : list ascii) : option (list ascii * list ascii) :=
  let r := run_of_digits l in if bool_decide (r.1 = []) then None else Some r.
Definition read_integer (l : list ascii) : option (list ascii * list ascii) :=
  match l with
  | "0"%char :: l => Some (["0"%char], l)
  | _ => some_digits l
  end.
Definition read_fraction (l : list ascii) : option (list ascii * list ascii) :=
  match l with
  | "."%char :: l => r ← some_digits l; Some ("."%char :: r.1, r.2)
  | _ => Some ([], l)
  end.
Definition read_exponent (l : list ascii) : option (list ascii * list ascii) :=
  match l with
  | c :: l' =>
      if Ascii.eqb c "e" || Ascii.eqb c "E" then
        match l' with
        | s :: l'' => if Ascii.eqb s "+" || Ascii.eqb s "-" then r ← some_digits l''; Some (c :: s :: r.1, r.2)
                      else r ← some_digits l'; Some (c :: r.1, r.2)
        | [] => None
        end
      else Some ([], l)
  | [] => Some ([], [])
  end.
Definition read_number (l : list ascii) : option (number * list ascii) :=
  let '(sign, l) := match l with "-"%char :: l => (["-"%char], l) | _ => ([], l) end in
  a ← read_integer l; b ← read_fraction a.2; c ← read_exponent b.2;
  Some (NumParse.of_string (Str.of_chars (sign ++ a.1 ++ b.1 ++ c.1)), c.2).

(** A fixed word. *)
Fixpoint strip (w l : list ascii) : option (list ascii) :=
  match w, l with
  | [], _ => Some l
  | c :: w, d :: l => if Ascii.eqb c d then strip w l else None
  | _, [] => None
  end.
Definition word (w : string) (v : json) (l : list ascii) : option (json * list ascii) :=
  l ← strip (Str.chars w) l; Some (v, l).

Fixpoint read_value (fuel : nat) (l : list ascii) : option (json * list ascii) :=
  match fuel with
  | O => None
  | S fuel =>
      match skip l with
      | [] => None
      | c :: l =>
          if Ascii.eqb c dquote then r ← read_string l; Some (JStr (Str.of_chars r.1), r.2)
          else if Ascii.eqb c "[" then
            match skip l with
            | "]"%char :: l => Some (JArr [], l)
            | _ => r ← read_items fuel l; Some (JArr r.1, r.2)
            end
          else if Ascii.eqb c "{" then
            match skip l with
            | "}"%char :: l => Some (JObj [], l)
            | _ => r ← read_members fuel l; Some (JObj r.1, r.2)
            end
          else if Ascii.eqb c "n" then word "null" JNull (c :: l)
          else if Ascii.eqb c "t" then word "true" (JBool true) (c :: l)
          else if Ascii.eqb c "f" then word "false" (JBool false) (c :: l)
          else r ← read_number (c :: l); Some (JNum r.1, r.2)
      end
  end
with read_items (fuel : nat) (l : list ascii) : option (list json * list ascii) :=
  match fuel with
  | O => None
  | S fuel =>
      v ← read_value fuel l;
      match skip v.2 with
      | c :: l => if Ascii.eqb c "," then r ← read_items fuel l; Some (v.1 :: r.1, r.2)
                  else if Ascii.eqb c "]" then Some ([v.1], l) else None
      | [] => None
      end
  end
with read_members (fuel : nat) (l : list ascii) : option (list (string * json) * list ascii) :=
  match fuel with
  | O => None
  | S fuel =>
      match skip l with
      | c :: l =>
          if negb (Ascii.eqb c dquote) then None else
          k ← read_string l;
          match skip k.2 with
          | c :: l =>
              if negb (Ascii.eqb c ":") then None else
              v ← read_value fuel l;
              match skip v.2 with
              | c :: l => if Ascii.eqb c "," then r ← read_members fuel l; Some ((Str.of_chars k.1, v.1) :: r.1, r.2)
                          else if Ascii.eqb c "}" then Some ([(Str.of_chars k.1, v.1)], l) else None
              | [] => None
              end
          | [] => None
          end
      | [] => None
      end
  end.

(** The fuel is above the number of values and separators of the text. *)
Definition parse (s : string) : option json :=
  let l := Str.chars s in
  r ← read_value (2 * length l + 2) l;
  if bool_decide (skip r.2 = []) then Some r.1 else None.

Definition sample : json := JObj [("a", JArr [JNum (Num.of_Z 1); JNum (Num.of_Z (-25)); JBool true; JNull]); ("b", JObj []); ("c", JStr "x y")].
Example text_sample : stringify sample = Str.join (Str.of_chars [dquote])
  ["{"; "a"; ":[1,-25,true,null],"; "b"; ":{},"; "c"; ":"; "x y"; "}"].
Proof. vm_compute. reflexivity. Qed.
Example parse_sample : parse (stringify sample) = Some sample.
Proof. vm_compute. reflexivity. Qed.
Example parse_rejects : parse "[1,]" = None ∧ parse "01" = None ∧ parse "[1] x" = None ∧ parse "[1, 2 ]" = Some (JArr [JNum (Num.of_Z 1); JNum (Num.of_Z 2)]).
Proof. split_and!; vm_compute; reflexivity. Qed.

(** ** Strings are read back *)
Lemma read_escape c l : read_string (escape c ++ l) = (r ← read_string l; Some (c :: r.1, r.2)).
Proof. destruct c as [[] [] [] [] [] [] [] []]; reflexivity. Qed.

Lemma read_quoted l rest : read_string ((c ← l; escape c) ++ dquote :: rest) = Some (l, rest).
Proof.
  induction l as [|c l IH]; [done|].
  change ((c' ← c :: l; escape c')) with (escape c ++ (c' ← l; escape c')).
  rewrite <-app_assoc, read_escape, IH. done.
Qed.

(** ** Numbers are read up to a delimiter *)

(** What may follow a number: nothing that belongs to one. *)
Definition number_char (c : ascii) : bool := is_digit c || includes c [".";"e";"E";"+";"-"]%char.
Definition ends (l : list ascii) : Prop := match l with c :: _ => number_char c = false | [] => True end.

Lemma run_of_digits_app l rest : ends rest →
  run_of_digits (l ++ rest) = ((run_of_digits l).1, (run_of_digits l).2 ++ rest).
Proof.
  intros Hr. induction l as [|c l IH]; cbn.
  - destruct rest as [|c rest]; [done|]. cbn in *. by apply orb_false_iff in Hr as [-> _].
  - destruct (is_digit c); [|done]. by rewrite IH.
Qed.
Lemma some_digits_app l rest a r : ends rest → some_digits l = Some (a, r) → some_digits (l ++ rest) = Some (a, r ++ rest).
Proof.
  intros Hr. unfold some_digits. rewrite run_of_digits_app by done. cbn [fst]. destruct (run_of_digits l) as [a' r'].
  cbn [fst snd]. case_bool_decide; [done|]. by intros [= -> ->].
Qed.
Lemma ends_head rest c l : ends rest → rest = c :: l → number_char c = false.
Proof. by intros H ->. Qed.

Lemma read_integer_app l rest a r : ends rest → read_integer l = Some (a, r) → read_integer (l ++ rest) = Some (a, r ++ rest).
Proof.
  intros Hr H. destruct l as [|c l].
  - cbn in H. done.
  - assert (c = "0"%char ∨ (read_integer (c :: l) = some_digits (c :: l) ∧
      read_integer ((c :: l) ++ rest) = some_digits ((c :: l) ++ rest))) as [->|[E1 E2]].
    { destruct c as [[] [] [] [] [] [] [] []]; try (by right); by left. }
    + cbn in H |- *. by simplify_eq.
    + rewrite E1 in H. rewrite E2. by apply some_digits_app.
Qed.
Lemma read_fraction_app l rest a r : ends rest → read_fraction l = Some (a, r) → read_fraction (l ++ rest) = Some (a, r ++ rest).
Proof.
  intros Hr H.
  assert (∀ c l, c ≠ "."%char → read_fraction (c :: l) = Some ([], c :: l)) as Hne.
  { intros c l' Hc. destruct c as [[] [] [] [] [] [] [] []]; try done; by destruct Hc. }
  destruct l as [|c l].
  - cbn in H. simplify_eq. cbn. destruct rest as [|c rest]; [done|]. apply Hne. by intros ->.
  - destruct (decide (c = "."%char)) as [->|Hc].
    + cbn in H |- *. apply bind_Some in H as ([b s] & Hb & [= <- <-]). by rewrite (some_digits_app _ _ _ _ Hr Hb).
    + rewrite Hne in H by done. simplify_eq. by rewrite <-app_comm_cons, Hne.
Qed.
Lemma read_exponent_app l rest a r : ends rest → read_exponent l = Some (a, r) → read_exponent (l ++ rest) = Some (a, r ++ rest).
Proof.
  intros Hr H. destruct l as [|c l].
  - cbn in H. simplify_eq. destruct rest as [|c rest]; [done|]. cbn [app]. unfold read_exponent.
    cbn [ends] in Hr. unfold number_char in Hr. destruct (Ascii.eqb_spec c "e") as [->|]; [done|].
    by destruct (Ascii.eqb_spec c "E") as [->|].
  - cbn [read_exponent app] in *. destruct (Ascii.eqb c "e" || Ascii.eqb c "E"); [|by simplify_eq].
    destruct l as [|s l]; [done|]. cbn [app]. destruct (Ascii.eqb s "+" || Ascii.eqb s "-");
      apply bind_Some in H as ([b t] & Hb & [= <- <-]).
    + by rewrite (some_digits_app _ _ _ _ Hr Hb).
    + by rewrite app_comm_cons, (some_digits_app _ _ _ _ Hr Hb).
Qed.

Definition signed_rest (sign l : list ascii) : option (number * list ascii) :=
  a ← read_integer l; b ← read_fraction a.2; c ← read_exponent b.2;
  Some (NumParse.of_string (Str.of_chars (sign ++ a.1 ++ b.1 ++ c.1)), c.2).
Lemma read_number_cases l : (∃ l', l = "-"%char :: l' ∧ read_number l = signed_rest ["-"%char] l') ∨
  (read_number l = signed_rest [] l ∧ ∀ l', l ≠ "-"%char :: l').
Proof.
  destruct l as [|c l]; [right; by split|].
  destruct (decide (c = "-"%char)) as [->|Hc]; [left; by eexists|right].
  split; [|by intros l' [= ->]]. destruct c as [[] [] [] [] [] [] [] []]; try done; by destruct Hc.
Qed.
Lemma signed_rest_app sign l rest x r : ends rest → signed_rest sign l = Some (x, r) → signed_rest sign (l ++ rest) = Some (x, r ++ rest).
Proof.
  intros Hr ([a ra] & Ha & ([b rb] & Hb & ([c rc] & Hc & [= <- <-])%bind_Some)%bind_Some)%bind_Some.
  unfold signed_rest. rewrite (read_integer_app _ _ _ _ Hr Ha). cbn [mbind option_bind fst snd] in *.
  rewrite (read_fraction_app _ _ _ _ Hr Hb). cbn [mbind option_bind fst snd] in *.
  by rewrite (read_exponent_app _ _ _ _ Hr Hc).
Qed.
Lemma read_number_app l rest x r : ends rest → read_number l = Some (x, r) → read_number (l ++ rest) = Some (x, r ++ rest).
Proof.
  intros Hr H. destruct (read_number_cases l) as [(l' & -> & E)|[E Hne]]; rewrite E in H.
  - change (signed_rest ["-"%char] (l' ++ rest) = Some (x, r ++ rest)). by apply signed_rest_app.
  - destruct (read_number_cases (l ++ rest)) as [(l'' & El & _)|[E' _]]; [|rewrite E'; by apply signed_rest_app].
    exfalso. destruct l as [|c l]; [done|]. cbn in El. by simplify_eq.
Qed.

(** The first character of a number. *)
Lemma read_number_head c l x r : read_number (c :: l) = Some (x, r) → c = "-"%char ∨ is_digit c = true.
Proof.
  intros H. destruct (read_number_cases (c :: l)) as [(l' & [= -> _] & _)|[E _]]; [by left|right].
  rewrite E in H. apply bind_Some in H as (a & Ha & _). destruct c as [[] [] [] [] [] [] [] []]; try done.
Qed.

(** ** Values are read back *)

(** A number that its text denotes: [JSON.parse(String(x)) === x]. *)
Definition number_back (x : number) : Prop :=
  Num.isFinite x = true ∧ read_number (Str.chars (NumPrint.to_string x)) = Some (x, []).
Fixpoint numbers_back (v : json) : Prop :=
  match v with
  | JNum x => number_back x
  | JArr l => foldr (λ v P, numbers_back v ∧ P) True l
  | JObj l => foldr (λ kv P, numbers_back kv.2 ∧ P) True l
  | _ => True
  end.

(** Reading the text of [v] before [rest], with enough fuel. *)
Definition reads_back (v : json) : Prop := ∀ n rest,
  numbers_back v → ends rest → 2 * length (text v) ≤ n → read_value n (text v ++ rest) = Some (v, rest).

Lemma skip_head c l : is_blank c = false → skip (c :: l) = c :: l.
Proof. intros H. cbn. by rewrite H. Qed.

Lemma separated_cons x y l : separated (x :: y :: l) = x ++ ","%char :: separated (y :: l).
Proof. done. Qed.

Lemma read_items_back l rest : Forall reads_back l → foldr (λ v P, numbers_back v ∧ P) True l → l ≠ [] →
  ∀ n, 2 * length (separated (map text l)) + 1 ≤ n →
  read_items n (separated (map text l) ++ "]"%char :: rest) = Some (l, rest).
Proof.
  intros Hl. induction Hl as [|v l Hv Hl IH]; [done|]. cbn [foldr]. intros [Bv Bl] _ n Hn.
  destruct n as [|n]; [lia|]. cbn [read_items]. destruct l as [|v' l].
  - cbn [map separated] in *. rewrite Hv by (done || lia). done.
  - cbn [map] in Hn |- *. rewrite separated_cons in Hn |- *. rewrite length_app in Hn. cbn [length] in Hn.
    rewrite <-app_assoc. cbn [app]. rewrite Hv by (done || lia). cbn [mbind option_bind fst snd].
    rewrite skip_head by done. change (Ascii.eqb "," ",") with true. cbn iota.
    cbn [map] in IH. rewrite (IH Bl ltac:(done) n) by lia. done.
Qed.

Definition member (kv : string * json) : list ascii := quoted kv.1 ++ ":"%char :: text kv.2.
Lemma read_members_back l rest : Forall (λ kv, reads_back kv.2) l → foldr (λ kv P, numbers_back kv.2 ∧ P) True l → l ≠ [] →
  ∀ n, 2 * length (separated (map member l)) + 1 ≤ n →
  read_members n (separated (map member l) ++ "}"%char :: rest) = Some (l, rest).
Proof.
  assert (∀ k v n r c, reads_back v → numbers_back v → ends (c :: r) → 2 * length (member (k, v)) ≤ n →
    ∃ t, skip (member (k, v) ++ c :: r) = dquote :: t ∧ read_string t = Some (Str.chars k, ":"%char :: text v ++ c :: r) ∧
      read_value n (text v ++ c :: r) = Some (v, c :: r)) as Hmember.
  { intros k v n r c Hv Bv Hc Hn. exists (((c' ← Str.chars k; escape c') ++ dquote :: ":"%char :: text v ++ c :: r)).
    unfold member, quoted in *. cbn [fst snd] in *. split_and!.
    - rewrite <-!app_comm_cons, skip_head by done. by rewrite <-!app_assoc.
    - apply read_quoted.
    - apply Hv; [done|done|]. rewrite length_app in Hn. cbn [length] in Hn. lia. }
  intros Hl. induction Hl as [|[k v] l Hv Hl IH]; [done|]. cbn [foldr snd]. intros [Bv Bl] _ n Hn.
  destruct n as [|n]; [lia|]. cbn [read_members]. destruct l as [|kv l].
  - cbn [map separated] in *. destruct (Hmember k v n rest "}"%char Hv Bv ltac:(done) ltac:(lia)) as (t & -> & Ht & Hval).
    change (negb (Ascii.eqb dquote dquote)) with false. cbn iota. rewrite Ht. cbn [mbind option_bind fst snd].
    rewrite skip_head by done. change (negb (Ascii.eqb ":" ":")) with false. cbn iota. rewrite Hval.
    cbn [mbind option_bind fst snd]. rewrite skip_head by done. by rewrite Str.of_chars_chars.
  - cbn [map] in Hn |- *. rewrite separated_cons in Hn |- *. rewrite length_app in Hn. cbn [length] in Hn.
    rewrite <-app_assoc. cbn [app].
    destruct (Hmember k v n (separated (member kv :: map member l) ++ "}"%char :: rest) ","%char Hv Bv ltac:(done) ltac:(lia))
      as (t & -> & Ht & Hval).
    change (negb (Ascii.eqb dquote dquote)) with false. cbn iota. rewrite Ht. cbn [mbind option_bind fst snd].
    rewrite skip_head by done. change (negb (Ascii.eqb ":" ":")) with false. cbn iota. rewrite Hval.
    cbn [mbind option_bind fst snd]. rewrite skip_head by done. change (Ascii.eqb "," ",") with true. cbn iota.
    cbn [map] in IH. rewrite (IH Bl ltac:(done) n) by lia. by rewrite Str.of_chars_chars.
Qed.

Lemma json_values_ind (P : json → Prop) : P JNull → (∀ b, P (JBool b)) → (∀ x, P (JNum x)) → (∀ s, P (JStr s)) →
  (∀ l, Forall P l → P (JArr l)) → (∀ l, Forall (λ kv, P kv.2) l → P (JObj l)) → ∀ v, P v.
Proof.
  intros Hnull Hbool Hnum Hstr Harr Hobj. fix IH 1. intros [| | | |l|l]; [done..| |].
  - apply Harr. induction l as [|v l IHl]; constructor; [apply IH|exact IHl].
  - apply Hobj. induction l as [|[k v] l IHl]; constructor; [apply IH|exact IHl].
Qed.


(** A text of a value starts with no blank and no closing bracket. *)
Lemma text_head v : numbers_back v → ∃ c l, text v = c :: l ∧ is_blank c = false ∧ c ≠ "]"%char ∧ c ≠ "}"%char.
Proof.
  intros Hv. destruct v as [|[]|x|s|l|l]; try (by eexists _, _; split_and!).
  destruct Hv as [Hfin Hv]. cbn [text]. rewrite Hfin. destruct (Str.chars (NumPrint.to_string x)) as [|c l]; [done|].
  exists c, l. split; [done|]. apply read_number_head in Hv as [->|Hc]; [done|].
  destruct c as [[] [] [] [] [] [] [] []]; done.
Qed.

Lemma skip_text v l : numbers_back v → skip (text v ++ l) = text v ++ l.
Proof. intros (c & r & -> & Hc & _)%text_head. cbn [app]. by apply skip_head. Qed.

Theorem value_back v : reads_back v.
Proof.
  induction v as [|b|x|s|l IH|l IH] using json_values_ind; intros n rest Hb He Hn.
  - destruct n; [cbn in Hn; lia|]. done.
  - destruct n; [destruct b; cbn in Hn; lia|]. by destruct b.
  - destruct Hb as [Hfin Hx]. cbn [text] in *. rewrite Hfin in *.
    apply (read_number_app _ rest) in Hx as Hx'; [|done].
    destruct (Str.chars (NumPrint.to_string x)) as [|c t]; [done|]. destruct n as [|n]; [cbn in Hn; lia|].
    cbn [app] in *. cbn [read_value].
    assert (is_blank c = false ∧ Ascii.eqb c dquote = false ∧ Ascii.eqb c "[" = false ∧ Ascii.eqb c "{" = false ∧
      Ascii.eqb c "n" = false ∧ Ascii.eqb c "t" = false ∧ Ascii.eqb c "f" = false) as (H0 & H1 & H2 & H3 & H4 & H5 & H6).
    { apply read_number_head in Hx as [->|Hc]; [done|]. destruct c as [[] [] [] [] [] [] [] []]; done. }
    rewrite skip_head by done. rewrite H1, H2, H3, H4, H5, H6, Hx'. done.
  - destruct n as [|n]; [cbn in Hn; lia|]. cbn [text read_value]. unfold quoted. rewrite <-app_comm_cons, skip_head by done.
    rewrite <-app_assoc. cbn [app]. change (Ascii.eqb dquote dquote) with true. cbn iota.
    rewrite read_quoted. cbn [mbind option_bind fst snd]. by rewrite Str.of_chars_chars.
  - destruct n as [|n]; [cbn in Hn; lia|]. cbn [text read_value] in *. rewrite <-app_comm_cons, skip_head by done.
    cbn [Ascii.eqb]. change (Ascii.eqb "[" dquote) with false. change (Ascii.eqb "[" "[") with true. cbn iota.
    destruct l as [|v l]; [by cbn|]. rewrite <-app_assoc. cbn [app].
    pose proof (read_items_back (v :: l) rest IH Hb ltac:(done) n) as Hitems. cbn [length] in Hn. rewrite length_app in Hn. cbn [length] in Hn.
    specialize (Hitems ltac:(lia)).
    assert (∃ c t, skip (separated (map text (v :: l)) ++ "]"%char :: rest) = c :: t ∧ c ≠ "]"%char) as (c & t & -> & Hc).
    { destruct Hb as [Hbv _]. destruct (text_head v Hbv) as (c & t & Ht & Hblank & Hc & _).
      destruct l as [|v' l]; cbn [map separated]; rewrite Ht; cbn [app]; rewrite skip_head by done; eauto. }
    rewrite Hitems. destruct c as [[] [] [] [] [] [] [] []]; try done.
  - destruct n as [|n]; [cbn in Hn; lia|]. cbn [text read_value] in *. rewrite <-app_comm_cons, skip_head by done.
    change (Ascii.eqb "{" dquote) with false. change (Ascii.eqb "{" "[") with false. change (Ascii.eqb "{" "{") with true. cbn iota.
    destruct l as [|kv l]; [by cbn|]. rewrite <-app_assoc. cbn [app].
    change (map (λ kv, quoted kv.1 ++ ":"%char :: text kv.2) (kv :: l)) with (map member (kv :: l)) in *.
    pose proof (read_members_back (kv :: l) rest IH Hb ltac:(done) n) as Hitems. cbn [length] in Hn. rewrite length_app in Hn. cbn [length] in Hn.
    specialize (Hitems ltac:(lia)).
    assert (∃ t, skip (separated (map member (kv :: l)) ++ "}"%char :: rest) = dquote :: t) as (t & Ht).
    { destruct l as [|v' l]; cbn [map separated]; unfold member, quoted at 1; rewrite <-!app_comm_cons, skip_head by done; eauto. }
    rewrite Ht.
    change (match dquote :: t with | "}"%char :: l0 => Some (JObj [], l0)
      | _ => r ← read_members n (separated (map member (kv :: l)) ++ "}"%char :: rest); Some (JObj r.1, r.2) end)
      with (r ← read_members n (separated (map member (kv :: l)) ++ "}"%char :: rest); Some (JObj r.1, r.2)).
    by rewrite Hitems.
Qed.

(** [JSON.parse(JSON.stringify(v))] gives [v] back. *)
Theorem parse_stringify v : numbers_back v → parse (stringify v) = Some v.
Proof.
  intros Hv. unfold parse, stringify. rewrite Str.chars_of_chars. rewrite <-(app_nil_r (text v)) at 2.
  by rewrite (value_back v) by (done || lia).
Qed.

(** A number that was read is the number of the text that was consumed. *)
Lemma run_of_digits_split l : l = (run_of_digits l).1 ++ (run_of_digits l).2.
Proof. induction l as [|c l IH]; [done|]. cbn. destruct (is_digit c); [|done]. cbn. by rewrite <-IH. Qed.
Lemma run_of_digits_chars l : Forall (λ c, is_digit c = true) (run_of_digits l).1.
Proof. induction l as [|c l IH]; [by constructor|]. cbn. destruct (is_digit c) eqn:Hc; by constructor. Qed.
Lemma some_digits_split l a r : some_digits l = Some (a, r) → l = a ++ r ∧ Forall (λ c, number_char c = true) a.
Proof.
  unfold some_digits. pose proof (run_of_digits_split l) as Hs. pose proof (run_of_digits_chars l) as Hc.
  destruct (run_of_digits l) as [a' r']. cbn [fst snd] in *. case_bool_decide; [done|]. intros [= <- <-]. split; [done|].
  eapply Forall_impl; [exact Hc|]. intros c H'. unfold number_char. by rewrite H'.
Qed.
Lemma read_integer_split l a r : read_integer l = Some (a, r) → l = a ++ r ∧ Forall (λ c, number_char c = true) a.
Proof.
  destruct l as [|c l]; [done|]. intros H.
  destruct (decide (c = "0"%char)) as [->|Hc].
  - cbn in H. simplify_eq. split; [done|]. by repeat constructor.
  - apply some_digits_split. rewrite <-H. destruct c as [[] [] [] [] [] [] [] []]; try done; by destruct Hc.
Qed.
Lemma read_fraction_split l a r : read_fraction l = Some (a, r) → l = a ++ r ∧ Forall (λ c, number_char c = true) a.
Proof.
  destruct l as [|c l]; [by intros [= <- <-]|]. intros H. destruct (decide (c = "."%char)) as [->|Hc].
  - cbn in H. apply bind_Some in H as ([b s] & Hb & [= <- <-]). apply some_digits_split in Hb as [-> Hb].
    split; [done|]. by constructor.
  - assert (read_fraction (c :: l) = Some ([], c :: l)) as E by (destruct c as [[] [] [] [] [] [] [] []]; try done; by destruct Hc).
    rewrite E in H. by simplify_eq.
Qed.
Lemma read_exponent_split l a r : read_exponent l = Some (a, r) → l = a ++ r ∧ Forall (λ c, number_char c = true) a.
Proof.
  destruct l as [|c l]; [by intros [= <- <-]|]. cbn [read_exponent].
  destruct (Ascii.eqb c "e" || Ascii.eqb c "E") eqn:Hc; [|by intros [= <- <-]].
  assert (number_char c = true) as Nc.
  { apply orb_true_iff in Hc as [->%Ascii.eqb_eq| ->%Ascii.eqb_eq]; done. }
  destruct l as [|s l]; [done|]. destruct (Ascii.eqb s "+" || Ascii.eqb s "-") eqn:Hs;
    intros ([b t] & Hb & [= <- <-])%bind_Some; apply some_digits_split in Hb as [Hl Hb].
  - subst l. split; [done|]. constructor; [done|]. constructor; [|done].
    apply orb_true_iff in Hs as [->%Ascii.eqb_eq| ->%Ascii.eqb_eq]; done.
  - rewrite Hl. split; [done|]. by constructor.
Qed.
Lemma read_number_split l x r : read_number l = Some (x, r) →
  ∃ u, l = u ++ r ∧ x = NumParse.of_string (Str.of_chars u) ∧ Forall (λ c, number_char c = true) u.
Proof.
  assert (∀ sign l, Forall (λ c, number_char c = true) sign → signed_rest sign l = Some (x, r) →
    ∃ u, sign ++ l = u ++ r ∧ x = NumParse.of_string (Str.of_chars u) ∧ Forall (λ c, number_char c = true) u) as H.
  { intros sign l' Hs ([a ra] & Ha & ([b rb] & Hb & ([c rc] & Hc & [= <- <-])%bind_Some)%bind_Some)%bind_Some.
    cbn [fst snd] in *. apply read_integer_split in Ha as [-> Na]. apply read_fraction_split in Hb as [-> Nb].
    apply read_exponent_split in Hc as [-> Nc]. exists (sign ++ a ++ b ++ c). split; [by rewrite <-!app_assoc|].
    split; [done|]. by rewrite !Forall_app. }
  destruct (read_number_cases l) as [(l' & -> & E)|[E _]]; rewrite E; intros Hn.
  - apply (H ["-"%char]); [by repeat constructor|done].
  - by apply (H []).
Qed.

(** The text of such a number: it denotes the number and has its characters only. *)
Lemma number_back_text x : number_back x →
  NumParse.of_string (NumPrint.to_string x) = x ∧
  Forall (λ c, number_char c = true) (Str.chars (NumPrint.to_string x)) ∧ NumPrint.to_string x ≠ "".
Proof.
  intros [_ H]. pose proof (read_number_split _ _ _ H) as (u & Hu & Hx & Hc). rewrite app_nil_r in Hu. split_and!.
  - trans (NumParse.of_string (Str.of_chars u)); [by rewrite <-Hu, Str.of_chars_chars|done].
  - by rewrite Hu.
  - intros E. by rewrite E in H.
Qed.
