(* ===== verification/QrToken.v ===== *)
(** * Hand-off tokens ([src/src/utils/qrToken.ts], [generateHandoffQrCode] of
      [src/src/services/delivery.service.ts])

    The token of a hand-off's QR code: the id of a delivery and an expiry, signed
    with an HMAC, as JSON in base64url.  The digest, base64url and hexadecimal
    buffers are the runtime's; an object with members [toString] or [valueOf] of
    its own in place of an id or an expiry is left out. *)
From S2P Require Import Prelude JsLib JsonText Models Repositories.
From Stdlib Require Import Ascii SpecFloat.

Class QrEnv := {
  QR_TOKEN_SECRET : option string;
  QR_JWT_SECRET : option string;
  QR_TOKEN_EXPIRY_MINUTES : option string;
  (** [crypto.createHmac('sha256', secret).update(payload).digest('hex')]. *)
  hmac_hex : string → string → string;
  (** [Buffer.from(text).toString('base64url')] and its inverse. *)
  to_base64url : string → string;
  from_base64url : string → string;
  (** [Buffer.from(value, 'hex')]. *)
  buffer_from_hex : option json → error + list Z
}.
Class QrEnvOk `{QrEnv} : Prop := {
  base64url_back s : from_base64url (to_base64url s) = s;
  hex_buffer secret payload : ∃ bytes, buffer_from_hex (Some (JStr (hmac_hex secret payload))) = inr bytes
}.

Section QrToken.
Context `{QrEnv}.

Definition qr_secret : string := nullish QR_TOKEN_SECRET (nullish QR_JWT_SECRET "").

(** [parseInt(s, 10)]. *)
Definition parseInt10 (s : string) : number :=
  let '(sign, l) := match Str.trim_left (Str.chars s) with
                    | "-"%char :: l => (true, l)
                    | "+"%char :: l => (false, l)
                    | l => (false, l)
                    end in
  let '(v, len, _) := NumParse.digits 10 0 0 l in
  if (len =? 0)%Z then S754_nan else NumParse.scale sign v 0 len.

Definition expiry_of (now : Z) : number :=
  let expiryMinutes := parseInt10 (nullish QR_TOKEN_EXPIRY_MINUTES "30") in
  Num.add (Num.of_Z now) (Num.mul (Num.mul expiryMinutes (Num.of_Z 60)) (Num.of_Z 1000)).

Definition qr_payload (deliveryId expiresAt : string) : string := deliveryId +:+ ":" +:+ expiresAt.

Definition token_body (deliveryId : string) (expiresAt : number) (signature : string) : json :=
  JObj [("deliveryId", JStr deliveryId); ("expiresAt", JNum expiresAt); ("signature", JStr signature)].

Definition generateQrToken (now : Z) (deliveryId : string) : error + string :=
  let secret := qr_secret in
  _ ← (if Str.truthy secret then inr tt else inl (PlainError "QR_TOKEN_SECRET environment variable is not set"));
  let expiresAt := expiry_of now in
  let payload := qr_payload deliveryId (NumPrint.to_string expiresAt) in
  let signature := hmac_hex secret payload in
  mret (to_base64url (stringify (token_body deliveryId expiresAt signature))).

(** The number of a value in a comparison with a number. *)
Definition to_number (v : option json) : number :=
  match v with
  | None => S754_nan
  | Some JNull => Num.zero
  | Some (JBool b) => if b then Num.of_Z 1 else Num.zero
  | Some (JNum x) => x
  | Some v => NumParse.of_string (Json.to_text v)
  end.

Definition verifyQrToken (now : Z) (token : string) : error + option json :=
  let secret := qr_secret in
  decoded ← (match parse (from_base64url token) with
             | Some v => inr v
             | None => inl (PlainError "Invalid QR token format")
             end);
  expiresAt ← Json.prop "expiresAt" decoded;
  _ ← (if Num.leb (to_number expiresAt) (Num.of_Z now) then inl (PlainError "QR token has expired") else inr tt);
  deliveryId ← Json.prop "deliveryId" decoded;
  let payload := qr_payload (Json.template deliveryId) (Json.template expiresAt) in
  let expectedSignature := hmac_hex secret payload in
  signature ← Json.prop "signature" decoded;
  sigBuffer ← buffer_from_hex signature;
  expectedBuffer ← buffer_from_hex (Some (JStr expectedSignature));
  if negb (Nat.eqb (length sigBuffer) (length expectedBuffer)) || negb (bool_decide (sigBuffer = expectedBuffer))
  then inl (PlainError "Invalid QR token signature")
  else mret deliveryId.
End QrToken.

(** ** The hand-off of a delivery *)
Record HandoffQrCodeResult := mkHandoff {
  ho_qrCode : string;
  ho_token : string;
  ho_expiresAt : option Z;
  ho_deliveryId : string
}.

Section Handoff.
Context `{Env, QrEnv}.

(** [QRCode.toDataURL] of a text. *)
Context (toDataURL : string → error + string).

Definition qr_cast_error : error := PlainError "Cast to ObjectId failed".
(** [findById] casts the id. *)
Definition findHandoffDelivery (id : string) : action (option (hydrated Delivery)) :=
  if isValidObjectId id then DeliveryRepository.model_findById id else throw qr_cast_error.

Definition qr_data (deliveryId token : string) : string :=
  stringify (JObj [("deliveryId", JStr deliveryId); ("token", JStr token); ("type", JStr "swiftchain_handoff")]).

Definition generateHandoffQrCode (deliveryId : string) : action HandoffQrCodeResult :=
  found ← findHandoffDelivery deliveryId;
  delivery ← or_throw found (AppError "Delivery not found" Http.NOT_FOUND);
  _ ← throw_if (negb (bool_decide (status (body delivery) = DeliveryStatus.IN_PROGRESS)))
        (AppError ("Delivery is not eligible for handoff. Current status: " +:+
                   DeliveryStatus.to_string (status (body delivery))) Http.BAD_REQUEST);
  t ← now;
  token ← Done (generateQrToken t deliveryId);
  t' ← now;
  qrCode ← Done (toDataURL (qr_data deliveryId token));
  mret (mkHandoff qrCode token (Date.of_number (expiry_of t')) deliveryId).
End Handoff.

(** ** A generated token is accepted until it expires *)
Section Verified.
Context `{Q : QrEnv, QOk : !QrEnvOk}.

Lemma digest_bytes p : ∃ b, buffer_from_hex (Some (JStr (hmac_hex qr_secret p))) = inr b.
Proof. apply hex_buffer. Qed.

(** Once a secret is configured, a token verifies until its expiry. *)
Lemma generated_token_verifies now later deliveryId :
  number_back (expiry_of now) →
  match generateQrToken now deliveryId with
  | inl e => qr_secret = "" ∧ e = PlainError "QR_TOKEN_SECRET environment variable is not set"
  | inr token => verifyQrToken later token =
      if Num.leb (expiry_of now) (Num.of_Z later) then inl (PlainError "QR token has expired")
      else inr (Some (JStr deliveryId))
  end.
Proof.
  intros Hn. unfold generateQrToken. destruct (Str.truthy qr_secret) eqn:Hs; cbn [mbind result_bind].
  2:{ split; [|done]. unfold Str.truthy in Hs. by apply negb_false_iff, String.eqb_eq in Hs. }
  unfold mret, result_ret. set (p := qr_payload deliveryId _). unfold verifyQrToken. rewrite base64url_back, parse_stringify by done.
  cbn [mbind result_bind token_body Json.prop Json.field rev app List.find fst snd fmap option_fmap option_map String.eqb Ascii.eqb Bool.eqb].
  cbn [to_number]. destruct (Num.leb (expiry_of now) (Num.of_Z later)); [done|]. cbn [mbind result_bind Json.template Json.to_text].
  fold p. destruct (digest_bytes p) as [b ->]. cbn [mbind result_bind]. rewrite Nat.eqb_refl, bool_decide_true by done. done.
Qed.

(** C40: A hand-off changes nothing and is made for deliveries in progress only;
    the text behind its QR code names the delivery and the token, and this token
    verifies to the delivery at every moment before its expiry and is refused as
    expired from then on. *)
Theorem handoff_correct `{E : Env} toDataURL id w r w' :
  number_back (expiry_of (now_ms w)) →
  run (generateHandoffQrCode toDataURL id) w = (r, w') →
  w' = w ∧ ∀ h, r = inr h →
    (∃ d, deliveries w !! id = Some d ∧ status d = DeliveryStatus.IN_PROGRESS) ∧
    toDataURL (qr_data id (ho_token h)) = inr (ho_qrCode h) ∧
    parse (qr_data id (ho_token h)) =
      Some (JObj [("deliveryId", JStr id); ("token", JStr (ho_token h)); ("type", JStr "swiftchain_handoff")]) ∧
    ho_expiresAt h = Date.of_number (expiry_of (now_ms w)) ∧
    ∀ later, verifyQrToken later (ho_token h) =
      if Num.leb (expiry_of (now_ms w)) (Num.of_Z later) then inl (PlainError "QR token has expired")
      else inr (Some (JStr id)).
Proof.
  intros Hn. unfold generateHandoffQrCode, findHandoffDelivery. rewrite run_bind.
  destruct (isValidObjectId id); [|by intros [= <- <-]].
  change (run (DeliveryRepository.model_findById id) w) with (inr (A:=error) (find_by_id id (deliveries w)), w). cbn [fst snd].
  rewrite run_bind, run_or_throw. unfold find_by_id. destruct (deliveries w !! id) as [d|] eqn:Hd; cbn [fmap option_fmap option_map fst snd];
    [|by intros [= <- <-]].
  rewrite run_bind, run_throw_if. cbn [body]. case_bool_decide as Hs; cbn [negb fst snd]; [|by intros [= <- <-]].
  rewrite run_bind, run_now. cbn [fst snd]. rewrite run_bind, run_done.
  pose proof (λ later, generated_token_verifies (now_ms w) later id Hn) as Hv.
  destruct (generateQrToken (now_ms w) id) as [e|token]; cbn [fst snd]; [by intros [= <- <-]|].
  rewrite run_bind, run_now. cbn [fst snd]. rewrite run_bind, run_done.
  destruct (toDataURL (qr_data id token)) as [e|qr] eqn:Hqr; cbn [fst snd]; [by intros [= <- <-]|].
  rewrite run_ret. intros [= <- <-]. split; [done|]. intros h [= <-]. cbn [ho_token ho_qrCode ho_expiresAt].
  split_and!; [by exists d|done| |done|exact Hv]. by apply parse_stringify.
Qed.

(** ** Only what was signed is accepted *)
Definition no_colon (s : string) : Prop := ":"%char ∉ Str.chars s.

Lemma chars_inj a b : Str.chars a = Str.chars b → a = b.
Proof. intros E. by rewrite <-(Str.of_chars_chars a), E, Str.of_chars_chars. Qed.

(** A payload with one colon splits in one way. *)
Lemma split_once (c : ascii) (a b u v : list ascii) : c ∉ a → c ∉ b → u ++ c :: v = a ++ c :: b → u = a ∧ v = b.
Proof.
  revert u. induction a as [|x a IH]; intros u Ha Hb E.
  - destruct u as [|y u]; cbn in E; [by injection E as ->|]. injection E as -> E. destruct Hb. rewrite <-E.
    apply elem_of_app. right. by left.
  - rewrite not_elem_of_cons in Ha. destruct Ha as [Hx Ha]. destruct u as [|y u]; cbn in E; [by injection E as ->|]. injection E as -> E.
    by destruct (IH u Ha Hb E) as [-> ->].
Qed.
Lemma payload_inj d e id x : no_colon id → no_colon x → qr_payload d e = qr_payload id x → d = id ∧ e = x.
Proof.
  intros Hid Hx E. apply (f_equal Str.chars) in E. unfold qr_payload in E. rewrite !chars_app in E.
  change (Str.chars ":") with [":"%char] in E. cbn [app] in E.
  destruct (split_once _ _ _ _ _ Hid Hx E) as [H1 H2]. split; by apply chars_inj.
Qed.

Lemma number_no_colon x : number_back x → no_colon (NumPrint.to_string x).
Proof.
  intros (_ & Hc & _)%number_back_text Hin. rewrite Forall_forall in Hc. by specialize (Hc _ Hin).
Qed.
(** The first character of a number's text. *)
Lemma number_first x : number_back x → ∃ c s, NumPrint.to_string x = String c s ∧ (c = "-"%char ∨ is_digit c = true).
Proof.
  intros [_ H]. destruct (NumPrint.to_string x) as [|c s]; [done|]. exists c, s. split; [done|].
  by apply (read_number_head c (Str.chars s)) in H.
Qed.

(** A value that reads as the text of a number compares as that number. *)
Lemma to_number_text e x : number_back x → Json.template e = NumPrint.to_string x →
  (∀ y, e = Some (JNum y) → y = x) → to_number e = x.
Proof.
  intros Hx He Hy. pose proof (number_back_text x Hx) as (Hof & _ & _). destruct (number_first x Hx) as (c & s & Hs & Hc).
  rewrite Hs in He. destruct e as [[|[]|y|s'|l|l]|]; cbn [Json.template Json.to_text] in He;
    try (exfalso; injection He as <- _; destruct Hc; discriminate).
  - by apply (Hy y).
  - cbn [to_number Json.to_text]. by rewrite He, <-Hs.
  - cbn [to_number]. cbn [Json.to_text]. by rewrite He, <-Hs.
Qed.

(** The payload a parsed token stands for, and the one that was signed for a
    delivery at a time. *)
Definition carried_payload (v : json) : string :=
  qr_payload (Json.template (Json.field "deliveryId" v)) (Json.template (Json.field "expiresAt" v)).
Definition signed_payload (t : Z) (id : string) : string := qr_payload id (NumPrint.to_string (expiry_of t)).

(** A number a token carries as its expiry is one that prints and reads back. *)
Definition readable_expiry (v : json) : Prop := ∀ y, Json.field "expiresAt" v = Some (JNum y) → number_back y.

Lemma prop_field f v r : Json.prop f v = inr r → Json.field f v = r.
Proof. by destruct v; intros [= <-]. Qed.

(** What a verification has checked. *)
Lemma verify_inv now token d : verifyQrToken now token = inr d →
  ∃ v bytes, parse (from_base64url token) = Some v ∧ d = Json.field "deliveryId" v ∧
    Num.leb (to_number (Json.field "expiresAt" v)) (Num.of_Z now) = false ∧
    buffer_from_hex (Json.field "signature" v) = inr bytes ∧
    buffer_from_hex (Some (JStr (hmac_hex qr_secret (carried_payload v)))) = inr bytes.
Proof.
  unfold verifyQrToken.
  destruct (parse (from_base64url token)) as [v|]; cbn [mbind result_bind]; [|done].
  destruct (Json.prop "expiresAt" v) as [|e] eqn:He; cbn [mbind result_bind]; [done|].
  destruct (Num.leb (to_number e) (Num.of_Z now)) eqn:Hlate; cbn [mbind result_bind]; [done|].
  destruct (Json.prop "deliveryId" v) as [|d'] eqn:Hd; cbn [mbind result_bind]; [done|].
  destruct (Json.prop "signature" v) as [|sig] eqn:Hsig; cbn [mbind result_bind]; [done|].
  destruct (buffer_from_hex sig) as [|b] eqn:Hb; cbn [mbind result_bind]; [done|].
  apply prop_field in He, Hd, Hsig. subst e d' sig.
  set (p := qr_payload _ _). destruct (digest_bytes p) as [b' Hb']. rewrite Hb'. cbn [mbind result_bind].
  destruct (negb (Nat.eqb (length b) (length b'))); cbn [orb]; [done|].
  case_bool_decide as Heq; cbn [negb]; [|done]. subst b'. intros [= <-]. exists v, b. by split_and!.
Qed.

Lemma signed_or_not (issued : list (Z * string)) p :
  (∃ t id, (t, id) ∈ issued ∧ p = signed_payload t id) ∨ (∀ t id, (t, id) ∈ issued → p ≠ signed_payload t id).
Proof.
  destruct (decide (Exists (λ c, p = signed_payload c.1 c.2) issued)) as [Hs|Hn].
  - left. apply Exists_exists in Hs as ([t id] & Hin & Hp). by exists t, id.
  - right. intros t id Hin Hp. apply Hn, Exists_exists. by exists (t, id).
Qed.

Lemma number_text_inj x y : number_back x → number_back y → NumPrint.to_string x = NumPrint.to_string y → x = y.
Proof.
  intros Hx Hy E. pose proof (number_back_text x Hx) as [Hx' _]. pose proof (number_back_text y Hy) as [Hy' _]. congruence.
Qed.

(** C39: A token verifies only when the bytes of its signature are those of the
    HMAC, under the configured secret, of the payload it carries.  However the
    token was put together (the colon of the payload cannot be moved, and an
    expiry retyped as a string or an array compares as the number it reads as),
    there are two cases: the payload is one that was signed, and then the id is
    that of an issued token, which has not expired and is accepted at this moment
    too; or the presenter holds the digest of a payload that was never signed,
    which takes the secret or a break of the HMAC ([forged_without_secret]: where
    no secret is configured, the empty key does). *)
Theorem accepted_was_issued now token d (issued : list (Z * string)) :
  (∀ t id, (t, id) ∈ issued → no_colon id ∧ number_back (expiry_of t)) →
  (∀ v, parse (from_base64url token) = Some v → readable_expiry v) →
  verifyQrToken now token = inr d →
  ∃ v bytes, parse (from_base64url token) = Some v ∧ d = Json.field "deliveryId" v ∧
    buffer_from_hex (Json.field "signature" v) = inr bytes ∧
    buffer_from_hex (Some (JStr (hmac_hex qr_secret (carried_payload v)))) = inr bytes ∧
    ((∃ t id, (t, id) ∈ issued ∧ carried_payload v = signed_payload t id ∧ Json.template d = id ∧
        Num.leb (expiry_of t) (Num.of_Z now) = false ∧
        ∀ genuine, generateQrToken t id = inr genuine → verifyQrToken now genuine = inr (Some (JStr id))) ∨
     (∀ t id, (t, id) ∈ issued → carried_payload v ≠ signed_payload t id)).
Proof.
  intros Hissued Hread Hver. destruct (verify_inv _ _ _ Hver) as (v & b & Hv & -> & Hlate & Hb & Hb').
  exists v, b. do 4 (split; [done|]).
  destruct (signed_or_not issued (carried_payload v)) as [(t & id & Hin & Hp)|Hno]; [left|by right].
  destruct (Hissued t id Hin) as [Hid Hx]. destruct (payload_inj _ _ _ _ Hid (number_no_colon _ Hx) Hp) as [Htd Hte].
  assert (Num.leb (expiry_of t) (Num.of_Z now) = false) as Hlive.
  { rewrite <-Hlate. f_equal. symmetry. apply to_number_text; [done|done|]. intros y Hy.
    specialize (Hread v Hv y Hy). rewrite Hy in Hte. by apply (number_text_inj y (expiry_of t) Hread Hx). }
  exists t, id. do 4 (split; [done|]). intros genuine Hg.
  pose proof (generated_token_verifies t now id Hx) as Hgen. rewrite Hg, Hlive in Hgen. done.
Qed.
End Verified.

(** ** Concrete tokens *)
Module QrExamples.

(** A runtime that signs by showing the secret, and codes texts as themselves. *)
Definition bytes_of (s : string) : list Z := map (λ c, Z.of_nat (nat_of_ascii c)) (Str.chars s).
Definition env_with (secret : option string) : QrEnv := {|
  QR_TOKEN_SECRET := secret; QR_JWT_SECRET := None; QR_TOKEN_EXPIRY_MINUTES := None;
  hmac_hex k p := k +:+ "/" +:+ p;
  to_base64url s := s; from_base64url s := s;
  buffer_from_hex v := match v with
                       | Some (JStr s) => inr (bytes_of s)
                       | _ => inl (NamedError "TypeError" "The first argument must be of type string")
                       end
|}.
Lemma env_with_ok secret : @QrEnvOk (env_with secret).
Proof. split; [done|]. intros k p. by eexists. Qed.
Definition signing : QrEnv := env_with (Some "k").

Definition the_delivery : string := "64b7f0c2a1d3e4f500000001".
Definition issue_time : Z := 1700000000000.
Definition the_expiry : number := Num.of_Z 1700001800000.
Definition the_token : string := stringify (token_body the_delivery the_expiry ("k/" +:+ the_delivery +:+ ":1700001800000")).

Lemma expiry_back : number_back the_expiry.
Proof. split; vm_compute; reflexivity. Qed.
Lemma expiry_computed : @expiry_of signing issue_time = the_expiry.
Proof. vm_compute. reflexivity. Qed.

(** A delivery in progress is handed off. *)
Definition ongoing : Delivery :=
  mkDelivery None (Some "driver-1") None None None None None None JNull JNull JNull JNull None None None None
    None None None DeliveryStatus.IN_PROGRESS None None None None false None None 0 0.
Definition handoff_world : World := empty_world issue_time <| deliveries := {[the_delivery := ongoing]} |>.
Definition draw (s : string) : error + string := inr ("data:" +:+ s).
Definition handoff : (error + HandoffQrCodeResult) * World :=
  run (@generateHandoffQrCode ExampleEnv.env signing draw the_delivery) handoff_world.

Lemma handoff_correct_witness :
  handoff = (inr (mkHandoff ("data:" +:+ qr_data the_delivery the_token) the_token (Some 1700001800000%Z) the_delivery), handoff_world) ∧
  @verifyQrToken signing (issue_time + 1799999) the_token = inr (Some (JStr the_delivery)) ∧
  @verifyQrToken signing (issue_time + 1800000) the_token = inl (PlainError "QR token has expired").
Proof.
  assert (handoff = (inr (mkHandoff ("data:" +:+ qr_data the_delivery the_token) the_token (Some 1700001800000%Z) the_delivery), handoff_world))
    as Hrun by (vm_compute; reflexivity).
  split; [exact Hrun|].
  destruct (@handoff_correct signing (env_with_ok _) ExampleEnv.env draw the_delivery handoff_world _ _
    ltac:(change (number_back (@expiry_of signing issue_time)); rewrite expiry_computed; apply expiry_back) Hrun) as [_ H].
  destruct (H _ eq_refl) as (_ & _ & _ & _ & Hv). cbn [ho_token] in Hv. split; rewrite Hv; vm_compute; reflexivity.
Defined.

(** The id retyped as an array and the expiry as a string: the signature still
    fits, and the id comes back as an array. *)
Definition retyped_token : string := stringify (JObj [("deliveryId", JArr [JStr the_delivery]);
  ("expiresAt", JStr "1700001800000"); ("signature", JStr ("k/" +:+ the_delivery +:+ ":1700001800000"))]).

Lemma parsed_retyped : parse retyped_token = Some (JObj [("deliveryId", JArr [JStr the_delivery]);
  ("expiresAt", JStr "1700001800000"); ("signature", JStr ("k/" +:+ the_delivery +:+ ":1700001800000"))]).
Proof. vm_compute. reflexivity. Qed.

(** The retyped token falls into the first case. *)
Lemma accepted_was_issued_witness :
  @verifyQrToken signing (issue_time + 60000) retyped_token = inr (Some (JArr [JStr the_delivery])) ∧
  Json.template (Some (JArr [JStr the_delivery])) = the_delivery ∧
  Num.leb (@expiry_of signing issue_time) (Num.of_Z (issue_time + 60000)) = false.
Proof.
  assert (@verifyQrToken signing (issue_time + 60000) retyped_token = inr (Some (JArr [JStr the_delivery]))) as Hv
    by (vm_compute; reflexivity).
  split; [exact Hv|].
  destruct (λ Hi Hr, @accepted_was_issued signing (env_with_ok _) (issue_time + 60000) retyped_token
    (Some (JArr [JStr the_delivery])) [(issue_time, the_delivery)] Hi Hr Hv) as (v & b & Hp & _ & _ & _ & Hcases).
  - intros t id Hin. apply list_elem_of_singleton in Hin as [= -> ->]. split.
    + apply (bool_decide_eq_true_1 (no_colon the_delivery)). vm_compute. reflexivity.
    + rewrite expiry_computed. apply expiry_back.
  - intros v Hp y Hy. cbn [from_base64url signing env_with] in Hp. rewrite parsed_retyped in Hp.
    apply (inj Some) in Hp as <-. discriminate Hy.
  - cbn [from_base64url signing env_with] in Hp. rewrite parsed_retyped in Hp. apply (inj Some) in Hp as <-.
    destruct Hcases as [(t & id & Hin & _ & Hid & Hlive & _)|Hno].
    + apply list_elem_of_singleton in Hin as [= -> ->]. split; [exact Hid|exact Hlive].
    + exfalso. apply (Hno issue_time the_delivery); [by left|vm_compute; reflexivity].
Defined.

(** Without a configured secret no token is generated, but one signed with the
    empty key is accepted. *)
Definition forged_token : string := stringify (token_body the_delivery the_expiry ("/" +:+ the_delivery +:+ ":1700001800000")).
Example forged_without_secret :
  @generateQrToken (env_with None) issue_time the_delivery = inl (PlainError "QR_TOKEN_SECRET environment variable is not set") ∧
  @verifyQrToken (env_with None) issue_time forged_token = inr (Some (JStr the_delivery)).
Proof. split; vm_compute; reflexivity. Qed.
End QrExamples.
